(* ===== verification/_CoqProject ===== *)
-Q . S2P
Prelude.v
GoStd.v
GoFloat.v
GoStrings.v
NetIP.v
RelayMessages.v
RelayAuth.v
RelayServer.v
RelayLocks.v
RelayHealth.v
Conntrack.v
ConntrackTCP.v
ConntrackUDP.v
LocalIP.v
Checksum.v
FirewallNAT.v
FakeIP.v
RefCounter.v
FirewallRules.v
Routes.v
RouteSelector.v
AclManager.v
AclUpdate.v
FirewallFilter.v
DNSLabel.v
MachineAuth.v
MachineTunnel.v
MachineSync.v
MachineReconnect.v
MachineHealth.v
SecretsManager.v
Peers.v
Posture.v
PolicyTypes.v
Account.v
PeerPolicy.v
NetworkMap.v
NetMapComponents.v
NetMapEquiv.v
PolicyAPI.v
PeerAddresses.v
DNSChain.v
AccessTokens.v
Permissions.v
UserStore.v
UserManager.v
UserSafety.v
UpdateSign.v
StateManager.v
Updater.v
RelayEarly.v
RelayClient.v
Signal.v
RouteWatcher.v
