(* ===== verification/Prelude.v ===== *)
(** * NetBird Machine Tunnel: a verification development

    NetBird connects machines into a WireGuard overlay network.  A management
    server (under [management/]) keeps accounts, peers and policies and hands
    out configuration and credentials; relay servers ([relay/]) forward packets
    between peers that cannot reach each other; clients ([client/]) run the
    tunnel, the local firewall and the connection logic; [shared/] holds the
    protocols between them.  This repository is a fork that adds a machine
    tunnel: Windows machines authenticate before any user logs in with a
    certificate of their Active Directory domain.

    ** The files

    - [Prelude]: outcomes of Go calls ([Ok], [Err], [Panic]), byte slices with
      their bounds checks, machine integers, the tactics and hint databases.
    - [GoStd], [GoFloat], [GoStrings], [NetIP]: the parts of Go's standard
      library the code uses, executable: time, decimal and base64 formats,
      SHA-256 and HMAC, float64, strings, IP addresses.
    - [RelayMessages]: the relay wire protocol, shared/relay/messages.
    - [RelayAuth]: relay tokens, shared/relay/auth and its hmac packages; the
      management server generates them, the client stores them, the relay
      validates them.
    - [RelayServer]: relay/server, the peers, the store, the listeners and the
      handshake, as a transition system whose actions are the steps of the
      server's goroutines in any order.
    - [RelayLocks]: the locks of the peer-state notifications of relay/server,
      one step per lock operation.
    - [RelayHealth]: shared/relay/healthcheck, the two watchdogs of a
      connection.
    - [Conntrack], [ConntrackTCP], [ConntrackUDP]: the connection trackers of
      the userspace firewall, client/firewall/uspfilter/conntrack.
    - [LocalIP], [Checksum], [FirewallNAT], [FirewallRules], [FirewallFilter]:
      the rest of the userspace firewall, client/firewall/uspfilter: the bitmap
      of local addresses (localip.go), the checksums and the address and port
      translation (nat.go), the rule tables and their evaluation (filter.go,
      rule.go and the types of client/firewall/manager), and the two packet
      paths with the routing modes, the hooks and MSS clamping (filter.go,
      hooks_filter.go, forwarder/forwarder.go).  The packet decoder is a class,
      [FirewallFilter.PacketParser], with an executable instance.
    - [FakeIP]: the allocator of fake addresses, client/internal/routemanager/fakeip.
    - [RefCounter]: the reference counters of the route manager, against a class
      for the system they add to and remove from.
    - [Routes], [RouteSelector]: the route package, the user's selection of
      routes (client/internal/routeselector) and the exit-node part of
      client/internal/routemanager/manager.go.
    - [AclManager], [AclUpdate]: client/internal/acl, which turns network maps
      into firewall rules, against a class for the firewall interface; the rule
      tables of [FirewallRules] are an instance of the class.
    - [DNSChain]: the handler chain of the client's DNS server,
      client/internal/dns/handler_chain.go.
    - [DNSLabel]: labels of machine peers, management/internals/shared/mtls.
    - [MachineAuth]: the mTLS interceptors and the issuer check,
      management/internals/server/mtls_auth.go, mtls_server.go and
      management/internals/shared/mtls/identity.go.
    - [MachineTunnel]: the machine RPC handlers,
      management/internals/shared/grpc/machine_tunnel.go, and the label
      management/server/peer.go gives to a machine peer.
    - [MachineSync]: the sync stream of the same file with the peer lock of
      server.go, as the sequence of calls it makes.
    - [MachineReconnect], [MachineHealth]: the reconnect manager and the health
      checker of the client, client/internal/tunnel.
    - [SecretsManager]: the refresh of TURN and relay credentials,
      management/internals/shared/grpc/token_mgr.go.
    - [Peers], [Posture], [PolicyTypes]: the data of an account with their own
      operations, management/server/peer/peer.go, management/server/posture and
      group.go, policy.go, policyrule.go and resource.go of
      management/server/types.  The version library of the posture checks is a
      class, with its rule for pre-releases and an executable instance for dotted
      versions.
    - [Account]: the account of management/server/types/account.go: lookups,
      expiration, deletion, propagation of groups, DNS labels (with
      GetParsedDomainLabel of dns/dns.go) and the policies of services.
    - [PeerPolicy]: GetPeerConnectionResources of the same file with all it
      calls, who may talk to whom.
    - [NetworkMap]: the rest of the network map of a peer: routes and their
      firewall rules (firewall_rule.go, route_firewall_rule.go), network
      resources, DNS, GetPeerNetworkMap.
    - [NetMapComponents], [NetMapEquiv]: the second way the server computes the
      map, account_components.go and networkmap_components.go of the same
      package, and its comparison with the first.
    - [PolicyAPI]: a policy from the HTTP request
      (management/server/http/handlers/policies) through the account manager
      (management/server/policy.go) into the store, and its firewall rules as
      messages to the client (management/internals/shared/grpc/conversion.go).
      The store is a class with its laws, [PolicyStore] and [PolicyStoreLaws];
      the account is an instance.
    - [PeerAddresses]: the addresses of peers (network.go, the network range of
      the accounts handler, reallocateAccountPeerIPs) and setup keys
      (setupkey.go, SaveSetupKey and their use in management/server/peer.go).
    - [AccessTokens]: personal access tokens and invitation tokens,
      management/server/types and its base62 package.
    - [Permissions]: roles, modules and operations,
      management/server/permissions.
    - [UserStore], [UserManager], [UserSafety]: users, tokens and invitations:
      the operations of the store on them, a relational state with the
      transactions of sql_store.go; management/server/user.go, the token check of
      the HTTP middleware and its management/server/auth; and the theorems.  Calls
      of the identity provider and of the peer manager are recorded as events.
    - [UpdateSign]: client/internal/updater/reposign, the two levels of signing
      keys, revocation lists and artifacts, for the maintainer's tools and for
      the client.  Ed25519 and the JSON and PEM coders are a class with laws and an
      executable instance.
    - [Updater]: client/internal/updater/manager.go, version/update.go and the
      start of the installer, as the steps of the update loop and of the callers.
    - [StateManager]: client/internal/statemanager and the state calls of the
      daemon (client/server/state.go), the states that outlive a crash.
    - [RelayEarly], [RelayClient]: shared/relay/client, the buffer of early
      messages, the subscription to the states of peers, and the client with the
      buffers it hands from its read loop to connections, one step per critical
      section.
    - [Signal]: signal/peer and signal/server, the registry of streams and the
      forwarding of messages, as a transition system.
    - [RouteWatcher]: client/internal/routemanager/client/client.go, which chooses
      the routing peer of a network, against a class for the handler of the
      allowed IPs; the handler of static networks (static/route.go), a client of
      [RefCounter], is an instance.

    The parts meet in [PolicyAPI.policy_ports_end_to_end], which follows the
    ports of a rule from the API to the conversion of [AclManager] in the client;
    from there [AclManager.acl_update_exact], [FirewallRules] and
    [FirewallFilter] go on to the packet.

    ** How code becomes definitions

    A Go function is a definition of the same name; a method of a struct takes
    the struct and returns the new one.  A function that can fail returns an
    [outcome]; an index, slice, nil-map write or channel close that Go would
    turn into a run-time panic is [Panic], so that the absence of panics is a
    theorem and not an assumption.  Time, random ids and the results of calls
    into other programs are arguments.  Goroutines that share state are
    transition systems: the state is a record, a label names the goroutine and
    the branch of its [select], and [step] (or [exec]) is a partial function,
    [None] meaning that the branch is blocked; the theorems quantify over all
    sequences of labels.  Go maps are [gmap]s; where the code ranges over a map
    the order of the model is that of [map_to_list], one of the orders Go may
    choose.

    Code outside the repository is an argument of the definitions that call it:
    gob coding, [idna.ToASCII], WireGuard key parsing, the gopacket
    constants, the integrations library, Unicode lower-casing of strings that
    are not ASCII.  The account manager and the store, Go interfaces of the
    repository that end in a database, are the record of operations
    [MachineTunnel.Backend] and the class [PolicyAPI.PolicyStore]; the conversion
    of a network map to its message is an argument of [MachineSync].  The
    functions of the management types use a version library, DNS name splitting
    and formatting, IDNA and random draws as arguments or classes.

    ** What the theorems show

    - Machine authentication: a handler runs only with the identity of the
      verified certificate, its account is the one its domain maps to and no
      other account is reachable with the same certificate; a registration
      changes state only for a mapped domain and, where the allowlists are
      configured, an allowed issuer; machine labels are valid; a
      sync stream disconnects its peer exactly once.
    - Relay: the decoders are total and inverse to the encoders; a token is
      accepted exactly when it is signed with the relay's secret and has not
      expired, from its generation to the handshake; the registry invariant;
      every forwarded message names its real sender and reaches only the
      connection registered for its destination; an offline notification never
      overtakes the answer to a subscription.
    - Credentials: one live refresh per peer, no channel closed twice, and a
      pushed token outlives the interval to the next push.
    - Watchdogs, health and reconnection: a silent peer is detected after an
      exact number of ticks, an answering peer never; backoff delays are exact;
      retries are bounded and end early only by success or cancellation; the callback fires exactly on the configured number
      of consecutive failures.
    - Firewall: inbound packets are accepted only on flows opened before or when
      the access lists permit them; TCP connections are established only through
      the handshake; first-match evaluation of both lists is the policy
      deny-overrides after any history of rule changes; until the manager is
      closed no packet panics the filter; the checksums are those of RFC 1071, translated and clamped packets
      keep correct checksums and are otherwise unchanged, and the translation of
      an answer undoes that of the request.
    - From network map to packet: an update leaves the firewall with exactly the
      peer rules the network map asks for and with the route rules that it takes; a key of a reference counter is present
      exactly while it is referenced; the route selection is what the user chose,
      and the management server decides only about exit nodes the user has not
      chosen about; fake addresses are unique and within their block; a DNS query
      is answered by the best of the handlers that are registered for its name.
    - Accounts and network maps: peers list each other exactly when an active
      rule links them; the firewall rules are those of the flows the policies
      allow, all of them when no rule id is the beginning of another; SSH users are the ones a rule grants; an unvalidated peer learns
      nothing; rules of routes admit exactly their sources; a validated posture
      check decides what it says; the map computed from components has the same
      connections as the one computed from the account, under conditions that
      exclude the divergences found; the default policy of a new
      account connects all its peers; labels are unique.  The
      specification is the relation [PeerPolicy.on_side] on group members, posture
      checks and validated peers, not the loops of the code.
    - Policies, addresses and keys: what the API accepts is well formed in the
      store, and its ports reach the client's packet filter unchanged; comparison
      of policies is equality up to order; a range the API accepts has room for
      all peers, which get different host addresses; a setup key is never used
      beyond its limit by concurrent registrations, nor after it is revoked.
    - Users and tokens: the users of an account change only for an unblocked owner
      or administrator of it, and in the ways their role allows; an account with
      one owner keeps exactly one; a created token authenticates as its user until
      it expires, and only stored tokens do.
    - Updates: the updater starts only an installer whose signature verifies with
      keys that a root key signed and no list has revoked, whatever the repository
      serves; what the maintainer's tools sign verifies; only newer versions are
      installed, one at a time; no input panics the verification.
    - Saved states: the restoration after a crash keeps every state that it has not
      cleaned up, raw ones with the same content in compact form.
    - Relay client and signal: every receive buffer is owned by exactly one party,
      from the read loop to its release; the early buffer is a bounded queue with
      one message per peer; a message is delivered only to a stream of its
      addressee, the newest stream of a peer stays registered, and the gauge of
      active peers lags behind the registry only by the threads that have not
      counted yet.
    - Routing peers: status, metric, directness and effective latency decide in this
      order, in spite of the rounding of the scores and up to the hysteresis; the allowed IPs of a network are with the
      peer of the chosen route, and with nobody after the watcher is stopped.
    - Where the code does not do what its comments say, a theorem exhibits the
      execution: the issuer check that fails open, the panics of the unary
      interceptor and of a refresh with an unset TTL, the label chosen by the
      client, the restart of the reconnect loop, the duplicate end event, the
      shifted hello data, the reordered listener batch, the drop rule for all
      sources that is never looked at, the rules lost by a failed update, the
      deselected routes that an update turns on again, the collisions of the
      address bitmap, a merge that loses a prefix, a port kept in a pooled
      decoder, a nil tracker, a half-checked port range that opens all ports, new
      rules of a policy that hide each other, a router that outlives its peer,
      the wrong report of new group members, a policy whose other rules open a
      route, IPv6 ranges with 32-bit addresses, the panic and the leaks of the
      component path, a wildcard that covers sibling domains, a token that is
      refused when its checksum needs padding, an old read loop that closes the
      connections of a new one, a refused stream that stays registered, a network
      left without routing peer, a nil channel closed by an update of routes, trackers
      without maps after Close, root keys accepted after their expiry, an update of
      a policy lost as equal, an answer without source groups; a deadlock of the
      relay's notification path is shown to be reachable and permanent, and a
      sync stream to deadlock on its own lock on an error path.

    ** Fuel and bounds

    Loops over data are structural.  [DNSLabel.collapse_hyphens] runs on fuel
    equal to the length of its input, which suffices because each round
    shortens it ([collapse_done]); [RelayMessages.marshal_loop] and
    [unmarshal_loop] run on the number of ids and bytes.  Decimal formatting
    uses twenty digits, enough for 64-bit integers.  The search of [FakeIP] runs
    on fuel one above the number of addresses in use, after which a free one or
    the start has been met, and so does [PeerAddresses.sweep] over the offsets of
    a network; the suffixes of a host label are 999; [Checksum.fold_loop] runs on
    two rounds, after which 32 bits are folded into 16.  [UpdateSign.parse_keys]
    runs on the length of the bundle, of which every key takes at least a byte;
    the base62 digits of a 32-bit checksum are six.  Durations and counters are
    integers with the wrap-around of their width where the code can reach it.  A
    float64 is an integer multiple of 2^-1074, rounded after each operation.

    ** What is not modelled

    Listed with reasons in the manifest of components: operating system
    backends, the database itself, most HTTP APIs, identity providers, ICE, the
    user interface, generated code.  The incremental cache of network maps
    (networkmapbuilder.go) would be a refinement of [NetworkMap] that follows every
    change of an account; creation and merging of accounts, the change of a peer's
    address, the choice of a relay server and the handlers of domain routes are also
    left out.  The memory model of Go is not modelled: a critical section is one
    step, and code that shares data without a lock is read as if it took one. *)

From Stdlib Require Export ZArith Lia.
From Stdlib Require Import Strings.Byte Strings.String.
From stdpp Require Export base tactics list gmap strings sorting.

#[global] Open Scope Z_scope.

(** ** The outcome of a Go call

    A Go function returns a value, returns an error, or panics.  [Panic] is the
    run-time panic of an out-of-range index or slice expression. *)

Inductive outcome (E A : Type) : Type :=
| Ok (a : A)
| Err (e : E)
| Panic.

Arguments Ok {E A} a.
Arguments Err {E A} e.
Arguments Panic {E A}.

Definition obind {E A B} (m : outcome E A) (k : A → outcome E B) : outcome E B :=
  match m with
  | Ok a => k a
  | Err e => Err e
  | Panic => Panic
  end.

Definition omap_err {E F A} (f : E → F) (m : outcome E A) : outcome F A :=
  match m with
  | Ok a => Ok a
  | Err e => Err (f e)
  | Panic => Panic
  end.

(** [x, err := c; if err != nil { h } ; k]: the error is handled, a panic
    still propagates. *)
Definition otry {E F A B} (m : outcome E A) (h : E → outcome F B) (k : A → outcome F B) : outcome F B :=
  match m with
  | Ok a => k a
  | Err e => h e
  | Panic => Panic
  end.

Definition no_panic {E A} (m : outcome E A) : Prop := m ≠ Panic.

(** A function that returns no error: a value or a panic. *)
Abbreviation total A := (outcome Empty_set A).

Declare Scope go_scope.
Delimit Scope go_scope with go.

Notation "'let!' x := c1 'in' c2" := (obind c1 (λ x, c2))
  (at level 10, x pattern, c1 at level 100, c2 at level 200) : go_scope.

Notation "'require' c 'else' e ';' k" := (if c then k else Err e)
  (at level 10, c at level 100, e at level 100, k at level 200) : go_scope.

#[global] Instance outcome_eq_dec {E A} `{EqDecision E, EqDecision A} :
  EqDecision (outcome E A).
Proof. solve_decision. Defined.

(** ** Bytes *)

Abbreviation byte := Byte.byte.
Abbreviation bytes := (list Byte.byte).

#[global] Instance byte_eq_dec : EqDecision byte := Byte.byte_eq_dec.

#[global] Program Instance byte_countable : Countable byte :=
  {| encode b := encode (Byte.to_N b);
     decode p := n ← decode p; Byte.of_N n |}.
Next Obligation.
  intros b. simpl. rewrite decode_encode. simpl. apply Byte.of_to_N.
Qed.

Definition byte_to_Z (b : byte) : Z := Z.of_N (Byte.to_N b).

(** The conversion [byte(x)]: truncation modulo 256. *)
Definition Z_to_byte (z : Z) : byte :=
  default Byte.x00 (Byte.of_N (Z.to_N (z mod 256))).

Definition string_to_bytes (s : string) : bytes := String.list_byte_of_string s.

Definition bytes_to_string (l : bytes) : string := String.string_of_list_byte l.

(** ** Slices

    [go_slice l lo hi] is the slice expression [l[lo:hi]] and [go_from l lo] is
    [l[lo:]].  Go checks [hi] against the capacity; the model checks it against
    the length, which is stricter, so an absence of [Panic] here is an absence
    of a panic in the code. *)

Definition go_slice {E A} (l : list A) (lo hi : nat) : outcome E (list A) :=
  if bool_decide (lo ≤ hi ∧ hi ≤ length l)%nat then Ok (take (hi - lo) (drop lo l)) else Panic.

Definition go_from {E A} (l : list A) (lo : nat) : outcome E (list A) :=
  go_slice l lo (length l).

Definition go_index {E A} (l : list A) (i : nat) : outcome E A :=
  match l !! i with Some x => Ok x | None => Panic end.

Definition go_set {E A} (l : list A) (i : nat) (x : A) : outcome E (list A) :=
  if bool_decide (i < length l)%nat then Ok (<[i := x]> l) else Panic.

(** [copy(dst[off:], src)]: as many elements as both sides hold. *)
Definition go_copy {E A} (dst : list A) (off : nat) (src : list A) : outcome E (list A) :=
  if bool_decide (off ≤ length dst)%nat then
    let n := Nat.min (length dst - off) (length src) in
    Ok (take off dst ++ take n src ++ drop (off + n) dst)
  else Panic.

(** [make([]byte, n)] *)
Definition go_make (n : nat) : bytes := replicate n Byte.x00.

(** ** Machine integers *)

Definition wrap (w : Z) (z : Z) : Z := z mod 2 ^ w.

(** Two's complement reading of the low [w] bits. *)
Definition swrap (w : Z) (z : Z) : Z :=
  (z + 2 ^ (w - 1)) mod 2 ^ w - 2 ^ (w - 1).

Definition u8 := wrap 8.

Definition u16 := wrap 16.

Definition u32 := wrap 32.

Definition u64 := wrap 64.

Definition i64 := swrap 64.

(** [x & m != 0] *)
Definition has_bit (x m : Z) : bool := negb (Z.land x m =? 0).

(** ** Tactics *)

(** Unfold one monadic step after its scrutinee has been destructed. *)
Ltac inv_ok :=
  repeat match goal with
  | H : Ok _ = Ok _ |- _ => injection H as H; subst
  | H : Ok _ = Err _ |- _ => discriminate H
  | H : Err _ = Ok _ |- _ => discriminate H
  | H : Panic = _ |- _ => discriminate H
  | H : _ = Panic |- _ => discriminate H
  end.

Ltac case_if :=
  match goal with
  | |- context [if ?b then _ else _] => destruct b eqn:?
  | H : context [if ?b then _ else _] |- _ => destruct b eqn:?
  end.

(** Boolean tests of the code as propositions. *)
Ltac bool_facts :=
  repeat match goal with
  | H : (_ && _)%bool = true |- _ => apply andb_true_iff in H; destruct H
  | H : (_ && _)%bool = false |- _ => apply andb_false_iff in H
  | H : (_ || _)%bool = true |- _ => apply orb_true_iff in H
  | H : (_ || _)%bool = false |- _ => apply orb_false_iff in H; destruct H
  | H : negb _ = true |- _ => apply negb_true_iff in H
  | H : negb _ = false |- _ => apply negb_false_iff in H
  | H : bool_decide _ = true |- _ => apply bool_decide_eq_true in H
  | H : bool_decide _ = false |- _ => apply bool_decide_eq_false in H
  | H : (_ =? _) = true |- _ => apply Z.eqb_eq in H
  | H : (_ =? _) = false |- _ => apply Z.eqb_neq in H
  | H : (_ <? _) = true |- _ => apply Z.ltb_lt in H
  | H : (_ <? _) = false |- _ => apply Z.ltb_ge in H
  | H : (_ <=? _) = true |- _ => apply Z.leb_le in H
  | H : (_ <=? _) = false |- _ => apply Z.leb_gt in H
  end.

Create HintDb go discriminated.
Create Rewrite HintDb len.

(** ** Lemmas on bytes *)

Lemma byte_to_Z_range b : 0 ≤ byte_to_Z b < 256.
Proof. unfold byte_to_Z. pose proof (Byte.to_N_bounded b). lia. Qed.

Lemma byte_to_Z_to_byte z : byte_to_Z (Z_to_byte z) = z mod 256.
Proof.
  unfold byte_to_Z, Z_to_byte.
  assert (0 ≤ z mod 256 < 256) as Hr by (apply Z.mod_pos_bound; lia).
  destruct (Byte.of_N (Z.to_N (z mod 256))) as [b|] eqn:E; simpl.
  - apply Byte.to_of_N in E. rewrite E. lia.
  - apply Byte.of_N_None_iff in E. lia.
Qed.

Lemma Z_to_byte_to_Z b : Z_to_byte (byte_to_Z b) = b.
Proof.
  unfold Z_to_byte. rewrite Z.mod_small by apply byte_to_Z_range.
  unfold byte_to_Z. rewrite N2Z.id, Byte.of_to_N. done.
Qed.

#[global] Instance byte_to_Z_inj : Inj (=) (=) byte_to_Z.
Proof. intros a b E. by rewrite <- (Z_to_byte_to_Z a), E, Z_to_byte_to_Z. Qed.

Lemma bytes_to_string_to_bytes s : bytes_to_string (string_to_bytes s) = s.
Proof. apply String.string_of_list_byte_of_string. Qed.

Lemma string_to_bytes_to_string l : string_to_bytes (bytes_to_string l) = l.
Proof. apply String.list_byte_of_string_of_list_byte. Qed.

(** ** Lemmas on slices *)

Lemma go_slice_ok {E A} (l : list A) lo hi :
  (lo ≤ hi)%nat → (hi ≤ length l)%nat →
  go_slice (E:=E) l lo hi = Ok (take (hi - lo) (drop lo l)).
Proof. intros. unfold go_slice. by rewrite bool_decide_true by lia. Qed.

Lemma go_from_ok {E A} (l : list A) lo :
  (lo ≤ length l)%nat → go_from (E:=E) l lo = Ok (drop lo l).
Proof.
  intros. unfold go_from. rewrite go_slice_ok by lia.
  rewrite take_ge; [done|]. rewrite length_drop. lia.
Qed.

Lemma go_index_ok {E A} (l : list A) i x : l !! i = Some x → go_index (E:=E) l i = Ok x.
Proof. unfold go_index. by intros ->. Qed.

(** Copying a block that fits exactly between a prefix and a suffix. *)
Lemma go_copy_block {E A} (pre old suf src : list A) off :
  off = length pre → length old = length src →
  go_copy (E:=E) (pre ++ old ++ suf) off src = Ok (pre ++ src ++ suf).
Proof.
  intros -> Hl. unfold go_copy. rewrite bool_decide_true by (rewrite length_app; lia).
  rewrite !length_app.
  replace (Nat.min _ _) with (length src) by lia.
  rewrite take_app_length, firstn_all, drop_app.
  rewrite (drop_ge pre) by lia. simpl.
  replace (length pre + length src - length pre)%nat with (length old) by lia.
  by rewrite drop_app_length.
Qed.

Lemma go_make_app n m : go_make (n + m) = go_make n ++ go_make m.
Proof. apply replicate_add. Qed.

Lemma length_go_make n : length (go_make n) = n.
Proof. apply length_replicate. Qed.

#[export] Hint Rewrite @length_app @length_take @length_drop @length_insert @length_replicate
  length_go_make : len.

(** ** Lemmas on machine integers *)

Lemma wrap_range w z : 0 ≤ w → 0 ≤ wrap w z < 2 ^ w.
Proof. intros. apply Z.mod_pos_bound, Z.pow_pos_nonneg; lia. Qed.

Lemma wrap_small w z : 0 ≤ z < 2 ^ w → wrap w z = z.
Proof. apply Z.mod_small. Qed.

Lemma swrap_small w z : 0 < w → - 2 ^ (w - 1) ≤ z < 2 ^ (w - 1) → swrap w z = z.
Proof.
  intros Hw Hz. unfold swrap.
  assert (2 ^ w = 2 * 2 ^ (w - 1)) as E.
  { rewrite <- Z.pow_succ_r by lia. f_equal. lia. }
  rewrite Z.mod_small; lia.
Qed.

(** ** Lemmas on lists *)

Lemma list_filter_all {A} (P : A → Prop) `{∀ x, Decision (P x)} (l : list A) :
  Forall P l → filter P l = l.
Proof.
  induction 1 as [|x l Hx _ IH]; [done|]. rewrite filter_cons_True by done. by rewrite IH.
Qed.

Lemma elem_of_lfilter {A} (f : A → bool) (l : list A) x : x ∈ List.filter f l ↔ x ∈ l ∧ f x = true.
Proof. by rewrite !list_elem_of_In, List.filter_In. Qed.

Lemma filter_length_eq {A} (f : A → bool) (l : list A) : length (List.filter f l) = length l → List.filter f l = l.
Proof.
  induction l as [|x l IH]; [done|]. simpl. destruct (f x); simpl.
  - intros [= ?]. f_equal. auto.
  - intros E. pose proof (List.filter_length_le f l). lia.
Qed.
