(* ===== verification/GoStd.v ===== *)
(** * The parts of the Go standard library the program relies on

    Executable definitions of [strconv.FormatInt]/[ParseInt] in base 10,
    [encoding/base64]'s standard encoding, [crypto/sha256], [crypto/hmac] and
    the Unix reading of [time.Time], with the round trips and lengths the
    components need. *)

From stdpp Require Import base list.
From S2P Require Import Prelude.

(** ** time *)

(** A [time.Time] is the number of nanoseconds since the Unix epoch, a
    [time.Duration] a number of nanoseconds. *)
Definition second : Z := 1000000000.

Definition minute : Z := 60 * second.

Definition hour : Z := 60 * minute.

Definition time_Unix (t : Z) : Z := t / second.

(** The zero [time.Time], the start of the year 1. *)
Definition time_zero : Z := -62135596800 * second.

Definition IsZero (t : Z) : bool := t =? time_zero.

(** [time.Time.Sub]: the duration, or the nearest one that 64 bits hold. *)
Definition Sub (t u : Z) : Z := Z.max (- 2 ^ 63) (Z.min (2 ^ 63 - 1) (t - u)).

(** ** strconv *)

Definition digit_byte (d : Z) : byte := Z_to_byte (48 + d).

Fixpoint dec_digits (fuel : nat) (n : Z) : bytes :=
  match fuel with
  | O => []
  | S f => if n <? 10 then [digit_byte n] else dec_digits f (n / 10) ++ [digit_byte (n mod 10)]
  end.

(** [strconv.FormatInt(n, 10)]; an [int64] has at most 19 digits. *)
Definition FormatInt (n : Z) : bytes :=
  if n <? 0 then Byte.x2d :: dec_digits 20 (- n) else dec_digits 20 n.

Definition byte_digit (b : byte) : option Z :=
  let v := byte_to_Z b - 48 in
  if (0 <=? v) && (v <=? 9) then Some v else None.

Fixpoint parse_digits (acc : Z) (l : bytes) : option Z :=
  match l with
  | [] => Some acc
  | b :: l => match byte_digit b with
              | Some d => parse_digits (acc * 10 + d) l
              | None => None
              end
  end.

(** [strconv.ParseInt(s, 10, 64)]: [None] stands for a syntax or range error. *)
Definition ParseInt (s : bytes) : option Z :=
  let '(neg, ds) :=
    match s with
    | Byte.x2d :: r => (true, r)
    | Byte.x2b :: r => (false, r)
    | _ => (false, s)
    end in
  match ds with
  | [] => None
  | _ => match parse_digits 0 ds with
         | None => None
         | Some u =>
             if neg then (if u <=? 2 ^ 63 then Some (- u) else None)
             else (if u <? 2 ^ 63 then Some u else None)
         end
  end.

(** ** encoding/base64, StdEncoding *)

Definition b64_alphabet : bytes :=
  string_to_bytes "ABCDEFGHIJKLMNOPQRSTUVWXYZabcdefghijklmnopqrstuvwxyz0123456789+/".

Definition b64_char (v : Z) : byte := default Byte.x00 (b64_alphabet !! Z.to_nat v).

Definition b64_val (b : byte) : option Z :=
  p ← list_find (λ c, c = b) b64_alphabet; Some (Z.of_nat p.1).

Definition b64_pad : byte := Byte.x3d.

Fixpoint b64_encode (l : bytes) : bytes :=
  match l with
  | a :: b :: c :: rest =>
      let n := byte_to_Z a * 65536 + byte_to_Z b * 256 + byte_to_Z c in
      [b64_char (n / 262144); b64_char (n / 4096 mod 64); b64_char (n / 64 mod 64); b64_char (n mod 64)]
        ++ b64_encode rest
  | [a; b] =>
      let n := byte_to_Z a * 65536 + byte_to_Z b * 256 in
      [b64_char (n / 262144); b64_char (n / 4096 mod 64); b64_char (n / 64 mod 64); b64_pad]
  | [a] =>
      let n := byte_to_Z a * 65536 in
      [b64_char (n / 262144); b64_char (n / 4096 mod 64); b64_pad; b64_pad]
  | [] => []
  end.

(** The quanta of an input without line breaks. *)
Fixpoint b64_decode_quanta (l : bytes) : option bytes :=
  match l with
  | [] => Some []
  | a :: b :: c :: d :: rest =>
      va ← b64_val a;
      vb ← b64_val b;
      if bool_decide (c = b64_pad) then
        if bool_decide (d = b64_pad ∧ rest = []) then
          Some [Z_to_byte ((va * 262144 + vb * 4096) / 65536)]
        else None
      else
        vc ← b64_val c;
        if bool_decide (d = b64_pad) then
          if bool_decide (rest = []) then
            let n := va * 262144 + vb * 4096 + vc * 64 in
            Some [Z_to_byte (n / 65536); Z_to_byte (n / 256)]
          else None
        else
          vd ← b64_val d;
          let n := va * 262144 + vb * 4096 + vc * 64 + vd in
          r ← b64_decode_quanta rest;
          Some (Z_to_byte (n / 65536) :: Z_to_byte (n / 256) :: Z_to_byte n :: r)
  | _ => None
  end.

(** [DecodeString] skips carriage returns and line feeds. *)
Definition b64_decode (l : bytes) : option bytes :=
  b64_decode_quanta (filter (λ b, b ≠ Byte.x0a ∧ b ≠ Byte.x0d) l).

(** ** crypto/sha256 *)

(** The tables of FIPS 180-4, from their definition: the first 32 bits of the
    fractional parts of the cube roots (round constants) and of the square roots
    (initial state) of the first primes, computed on integers. *)
Definition is_prime (n : Z) : bool :=
  forallb (λ d, negb (n mod d =? 0)) (Z.of_nat <$> seq 2 (Z.to_nat n - 2)).

Definition primes (n : nat) : list Z :=
  take n (List.filter is_prime (Z.of_nat <$> seq 2 310)).

(** The integer cube root of [n] below [2^k], bit by bit from [r = 0]. *)
Fixpoint cbrt_bits (k : nat) (n r : Z) : Z :=
  match k with
  | O => r
  | S k' => let r' := r + 2 ^ Z.of_nat k' in
            cbrt_bits k' n (if r' * r' * r' <=? n then r' else r)
  end.

Definition K256 : list Z :=
  Eval vm_compute in (λ p, cbrt_bits 36 (p * 2 ^ 96) 0 mod 2 ^ 32) <$> primes 64.

Definition H256 : list Z :=
  Eval vm_compute in (λ p, Z.sqrt (p * 2 ^ 64) mod 2 ^ 32) <$> primes 8.

Definition rotr (x n : Z) : Z := u32 (Z.lor (Z.shiftr x n) (Z.shiftl x (32 - n))).

Definition be_bytes (n : nat) (z : Z) : bytes :=
  (λ i, Z_to_byte (Z.shiftr z (8 * Z.of_nat i))) <$> reverse (seq 0 n).

Fixpoint be_words (l : bytes) : list Z :=
  match l with
  | a :: b :: c :: d :: rest =>
      (byte_to_Z a * 16777216 + byte_to_Z b * 65536 + byte_to_Z c * 256 + byte_to_Z d) :: be_words rest
  | _ => []
  end.

(** One round per constant, over a sliding window of sixteen schedule words. *)
Fixpoint sha_rounds (ks w st : list Z) : list Z :=
  match ks, w, st with
  | k :: ks, w0 :: w', [a; b; c; d; e; f; g; h] =>
      let s1 := Z.lxor (Z.lxor (rotr e 6) (rotr e 11)) (rotr e 25) in
      let ch := Z.lxor (Z.land e f) (Z.land (Z.lxor e 0xffffffff) g) in
      let t1 := u32 (h + s1 + ch + k + w0) in
      let s0 := Z.lxor (Z.lxor (rotr a 2) (rotr a 13)) (rotr a 22) in
      let maj := Z.lxor (Z.lxor (Z.land a b) (Z.land a c)) (Z.land b c) in
      let x := nth 1 w 0 in
      let y := nth 14 w 0 in
      let r0 := Z.lxor (Z.lxor (rotr x 7) (rotr x 18)) (Z.shiftr x 3) in
      let r1 := Z.lxor (Z.lxor (rotr y 17) (rotr y 19)) (Z.shiftr y 10) in
      let wn := u32 (r1 + nth 9 w 0 + r0 + w0) in
      sha_rounds ks (w' ++ [wn]) [u32 (t1 + s0 + maj); a; b; c; u32 (d + t1); e; f; g]
  | _, _, _ => st
  end.

Definition sha_block (st : list Z) (block : bytes) : list Z :=
  zip_with (λ x y, u32 (x + y)) st (sha_rounds K256 (be_words block) st).

Fixpoint sha_blocks (fuel : nat) (st : list Z) (l : bytes) : list Z :=
  match fuel with
  | O => st
  | S f => if bool_decide (64 ≤ length l)%nat
           then sha_blocks f (sha_block st (take 64 l)) (drop 64 l) else st
  end.

Definition sha_pad (l : bytes) : bytes :=
  l ++ [Byte.x80] ++ replicate ((55 + 64 - length l mod 64) mod 64) Byte.x00
    ++ be_bytes 8 (8 * Z.of_nat (length l)).

Definition sha256 (l : bytes) : bytes :=
  let p := sha_pad l in
  concat (be_bytes 4 <$> sha_blocks (length p / 64) H256 p).

(** ** crypto/hmac with sha256 *)

Definition hmac_pad (x : Z) (key : bytes) : bytes :=
  let k := if bool_decide (64 < length key)%nat then sha256 key else key in
  (λ b, Z_to_byte (Z.lxor (byte_to_Z b) x)) <$> (k ++ replicate (64 - length k) Byte.x00).

Definition hmac_sha256 (key msg : bytes) : bytes :=
  sha256 (hmac_pad 0x5c key ++ sha256 (hmac_pad 0x36 key ++ msg)).

(** ** Known-answer tests *)

Example sha256_abc :
  sha256 (string_to_bytes "abc") =
  concat (be_bytes 4 <$> [0xba7816bf; 0x8f01cfea; 0x414140de; 0x5dae2223;
                          0xb00361a3; 0x96177a9c; 0xb410ff61; 0xf20015ad]).
Proof. vm_compute. reflexivity. Qed.

Example hmac_rfc4231_2 :
  hmac_sha256 (string_to_bytes "Jefe") (string_to_bytes "what do ya want for nothing?") =
  concat (be_bytes 4 <$> [0x5bdcc146; 0xbf60754e; 0x6a042426; 0x089575c7;
                          0x5a003f08; 0x9d273983; 0x9dec58b9; 0x64ec3843]).
Proof. vm_compute. reflexivity. Qed.

Example b64_foobar :
  bytes_to_string (b64_encode (string_to_bytes "fooba")) = "Zm9vYmE="%string.
Proof. vm_compute. reflexivity. Qed.

(** ** Decimal round trip *)

Lemma byte_digit_digit d : 0 ≤ d < 10 → byte_digit (digit_byte d) = Some d.
Proof.
  intros H. unfold byte_digit, digit_byte. rewrite byte_to_Z_to_byte, Z.mod_small by lia.
  replace (48 + d - 48) with d by lia.
  by rewrite (proj2 (Z.leb_le 0 d)), (proj2 (Z.leb_le d 9)) by lia.
Qed.

Lemma parse_digits_app acc l d :
  0 ≤ d < 10 →
  parse_digits acc (l ++ [digit_byte d]) = (n ← parse_digits acc l; Some (n * 10 + d)).
Proof.
  intros Hd. revert acc. induction l as [|b l IH]; intros acc; simpl.
  - by rewrite byte_digit_digit.
  - destruct (byte_digit b); [apply IH|done].
Qed.

Lemma parse_dec_digits f n :
  0 ≤ n < 10 ^ Z.of_nat f → parse_digits 0 (dec_digits f n) = Some n.
Proof.
  revert n. induction f as [|f IH]; intros n Hn.
  - change (10 ^ Z.of_nat 0) with 1 in Hn. assert (n = 0) as -> by lia. done.
  - cbn [dec_digits]. destruct (n <? 10) eqn:E; bool_facts.
    + cbn [parse_digits]. by rewrite byte_digit_digit by lia.
    + rewrite parse_digits_app by (apply Z.mod_pos_bound; lia).
      rewrite IH; [simpl; f_equal; pose proof (Z.div_mod n 10); lia|].
      rewrite Nat2Z.inj_succ, Z.pow_succ_r in Hn by lia.
      split; [apply Z.div_pos; lia|]. apply Z.div_lt_upper_bound; lia.
Qed.

Lemma dec_digits_cons f n : 0 ≤ n → ∃ d l, 0 ≤ d < 10 ∧ dec_digits (S f) n = digit_byte d :: l.
Proof.
  revert n. induction f as [|f IH]; intros n Hn; cbn [dec_digits].
  - destruct (n <? 10) eqn:E; bool_facts; [by exists n, []|].
    exists (n mod 10), []. split; [apply Z.mod_pos_bound; lia|done].
  - destruct (n <? 10) eqn:E; bool_facts; [by exists n, []|].
    destruct (IH (n / 10)) as (d & l & Hd & El); [apply Z.div_pos; lia|].
    cbn [dec_digits] in El. rewrite El. by eexists d, _.
Qed.

Lemma digit_not_sign d : 0 ≤ d < 10 → digit_byte d ≠ Byte.x2d ∧ digit_byte d ≠ Byte.x2b.
Proof.
  intros H. assert (byte_to_Z Byte.x2d = 45 ∧ byte_to_Z Byte.x2b = 43) as [X Y] by done.
  split; intros E; apply (f_equal byte_to_Z) in E; unfold digit_byte in E;
    rewrite byte_to_Z_to_byte, Z.mod_small in E by lia; lia.
Qed.

Lemma int64_digits n : n ≤ 2 ^ 63 → n < 10 ^ Z.of_nat 20.
Proof. intros H. eapply Z.le_lt_trans; [exact H|]. done. Qed.

Lemma ParseInt_FormatInt n : - 2 ^ 63 ≤ n < 2 ^ 63 → ParseInt (FormatInt n) = Some n.
Proof.
  intros Hn. unfold FormatInt. destruct (n <? 0) eqn:E; bool_facts.
  - unfold ParseInt. destruct (dec_digits_cons 19 (- n)) as (d & l & _ & El); [lia|].
    pose proof (parse_dec_digits 20 (- n)) as P. rewrite El in P |- *.
    rewrite P by (split; [lia|apply int64_digits; lia]).
    rewrite (proj2 (Z.leb_le _ _)) by lia. f_equal. lia.
  - destruct (dec_digits_cons 19 n) as (d & l & Hd & El); [lia|].
    destruct (digit_not_sign d Hd) as [H1 H2].
    unfold ParseInt. pose proof (parse_dec_digits 20 n) as P. rewrite El in P |- *.
    specialize (P (conj E (int64_digits n ltac:(lia)))).
    set (b := digit_byte d) in *. destruct b; try done; rewrite P;
      by rewrite (proj2 (Z.ltb_lt n (2 ^ 63))) by lia.
Qed.

Lemma length_dec_digits f n k :
  10 ^ Z.of_nat k ≤ n → n < 10 ^ Z.of_nat f → (k < length (dec_digits f n))%nat.
Proof.
  revert n k. induction f as [|f IH]; intros n k H1 H2.
  - change (10 ^ Z.of_nat 0) with 1 in H2.
    assert (0 < 10 ^ Z.of_nat k) by (apply Z.pow_pos_nonneg; lia). lia.
  - cbn [dec_digits]. destruct (n <? 10) eqn:E; bool_facts.
    + destruct k as [|k]; [simpl; lia|].
      rewrite Nat2Z.inj_succ, Z.pow_succ_r in H1 by lia.
      assert (0 < 10 ^ Z.of_nat k) by (apply Z.pow_pos_nonneg; lia). lia.
    + rewrite length_app. cbn [length]. destruct k as [|k]; [lia|].
      enough (k < length (dec_digits f (n / 10)))%nat by lia.
      rewrite Nat2Z.inj_succ, Z.pow_succ_r in H1, H2 by lia.
      apply IH; [apply Z.div_le_lower_bound|apply Z.div_lt_upper_bound]; lia.
Qed.

(** A timestamp of at least ten digits. *)
Lemma length_FormatInt_ts n : 10 ^ 9 ≤ n < 2 ^ 63 → (10 ≤ length (FormatInt n))%nat.
Proof.
  intros H. unfold FormatInt. rewrite (proj2 (Z.ltb_ge n 0)) by lia.
  enough (9 < length (dec_digits 20 n))%nat by lia.
  apply length_dec_digits; [change (Z.of_nat 9) with 9|apply int64_digits]; lia.
Qed.

(** ** Base64 round trip *)

Definition b64_char_ok (v : Z) : bool :=
  bool_decide (b64_val (b64_char v) = Some v ∧ b64_char v ≠ b64_pad ∧
               b64_char v ≠ Byte.x0a ∧ b64_char v ≠ Byte.x0d).

Lemma b64_char_facts v :
  0 ≤ v < 64 →
  b64_val (b64_char v) = Some v ∧ b64_char v ≠ b64_pad ∧
  b64_char v ≠ Byte.x0a ∧ b64_char v ≠ Byte.x0d.
Proof.
  intros H. assert (forallb b64_char_ok (seqZ 0 64) = true) as F by (vm_compute; done).
  rewrite forallb_forall in F.
  apply (bool_decide_eq_true_1 _), F, list_elem_of_In, elem_of_seqZ. lia.
Qed.

Lemma b64_step a b c d rest n :
  0 ≤ n < 16777216 →
  a = b64_char (n / 262144) → b = b64_char (n / 4096 mod 64) →
  c = b64_char (n / 64 mod 64) → d = b64_char (n mod 64) →
  b64_decode_quanta (a :: b :: c :: d :: rest) =
  (r ← b64_decode_quanta rest;
   Some (Z_to_byte (n / 65536) :: Z_to_byte (n / 256) :: Z_to_byte n :: r)).
Proof.
  intros Hn -> -> -> ->. cbn [b64_decode_quanta].
  destruct (b64_char_facts (n / 262144)) as (-> & _).
  { split; [apply Z.div_pos; lia|apply Z.div_lt_upper_bound; lia]. }
  destruct (b64_char_facts (n / 4096 mod 64)) as (-> & _); [apply Z.mod_pos_bound; lia|].
  destruct (b64_char_facts (n / 64 mod 64)) as (-> & ? & _); [apply Z.mod_pos_bound; lia|].
  destruct (b64_char_facts (n mod 64)) as (-> & ? & _); [apply Z.mod_pos_bound; lia|].
  cbn [mbind option_bind]. rewrite !bool_decide_false by done.
  replace (n / 262144 * 262144 + n / 4096 mod 64 * 4096 + n / 64 mod 64 * 64 + n mod 64) with n
    by (Z.div_mod_to_equations; lia).
  done.
Qed.

Lemma Z_to_byte_eq z b : z mod 256 = byte_to_Z b → Z_to_byte z = b.
Proof. intros H. apply (inj byte_to_Z). by rewrite byte_to_Z_to_byte. Qed.

Lemma b64_quanta_encode l : b64_decode_quanta (b64_encode l) = Some l.
Proof.
  revert l. fix IH 1. intros [|a [|b [|c rest]]].
  - done.
  - pose proof (byte_to_Z_range a). cbn [b64_encode b64_decode_quanta].
    set (n := byte_to_Z a * 65536).
    destruct (b64_char_facts (n / 262144)) as (-> & _).
    { split; [apply Z.div_pos; lia|apply Z.div_lt_upper_bound; lia]. }
    destruct (b64_char_facts (n / 4096 mod 64)) as (-> & _); [apply Z.mod_pos_bound; lia|].
    cbn [mbind option_bind]. rewrite !bool_decide_true by done.
    do 2 f_equal. apply Z_to_byte_eq. subst n. Z.div_mod_to_equations; lia.
  - pose proof (byte_to_Z_range a). pose proof (byte_to_Z_range b).
    cbn [b64_encode b64_decode_quanta].
    set (n := byte_to_Z a * 65536 + byte_to_Z b * 256).
    destruct (b64_char_facts (n / 262144)) as (-> & _).
    { split; [apply Z.div_pos; lia|apply Z.div_lt_upper_bound; lia]. }
    destruct (b64_char_facts (n / 4096 mod 64)) as (-> & _); [apply Z.mod_pos_bound; lia|].
    destruct (b64_char_facts (n / 64 mod 64)) as (-> & ? & _); [apply Z.mod_pos_bound; lia|].
    cbn [mbind option_bind]. rewrite bool_decide_false, !bool_decide_true by done.
    do 2 f_equal; [|f_equal]; apply Z_to_byte_eq; subst n; Z.div_mod_to_equations; lia.
  - pose proof (byte_to_Z_range a). pose proof (byte_to_Z_range b). pose proof (byte_to_Z_range c).
    cbn [b64_encode app].
    erewrite b64_step; [|..|done|done|done|done]; [|lia].
    rewrite IH. cbn [mbind option_bind].
    do 4 f_equal; [| |f_equal]; apply Z_to_byte_eq; Z.div_mod_to_equations; lia.
Qed.

Lemma b64_encode_no_newline l : Forall (λ b, b ≠ Byte.x0a ∧ b ≠ Byte.x0d) (b64_encode l).
Proof.
  assert (∀ v, 0 ≤ v < 64 → b64_char v ≠ Byte.x0a ∧ b64_char v ≠ Byte.x0d) as F.
  { intros v Hv. destruct (b64_char_facts v Hv) as (_ & _ & ? & ?). done. }
  assert (∀ n, 0 ≤ n < 16777216 → 0 ≤ n / 262144 < 64) as G.
  { intros n Hn. split; [apply Z.div_pos; lia|apply Z.div_lt_upper_bound; lia]. }
  pose proof byte_to_Z_range as R.
  revert l. fix IH 1. intros [|a [|b [|c rest]]]; cbn [b64_encode app].
  1: constructor.
  1: specialize (R a). 2: pose proof (R a); pose proof (R b).
  3: pose proof (R a); pose proof (R b); pose proof (R c).
  all: repeat first [apply IH | apply Forall_cons_2 | apply Forall_nil_2].
  all: first [done | apply F, G; lia | apply F, Z.mod_pos_bound; lia].
Qed.

Lemma b64_decode_encode l : b64_decode (b64_encode l) = Some l.
Proof.
  unfold b64_decode. rewrite list_filter_all; [apply b64_quanta_encode|].
  apply b64_encode_no_newline.
Qed.

(** ** Lengths of digests *)

Lemma length_be_bytes n z : length (be_bytes n z) = n.
Proof. unfold be_bytes. by rewrite length_fmap, length_reverse, length_seq. Qed.

Lemma length_sha_rounds ks w st : length st = 8%nat → length (sha_rounds ks w st) = 8%nat.
Proof.
  revert w st. induction ks as [|k ks IH]; intros w st H; [done|].
  destruct w as [|w0 w]; [done|].
  do 8 (destruct st as [|? st]; [done|]). destruct st; [|done].
  by apply IH.
Qed.

Lemma length_sha_blocks fuel st l : length st = 8%nat → length (sha_blocks fuel st l) = 8%nat.
Proof.
  revert st l. induction fuel as [|f IH]; intros st l H; cbn [sha_blocks]; [done|].
  case_match; [|done]. apply IH. unfold sha_block.
  rewrite length_zip_with, H, length_sha_rounds by done. done.
Qed.

Lemma length_concat_be4 ws : length (concat (be_bytes 4 <$> ws)) = (4 * length ws)%nat.
Proof.
  induction ws as [|w ws IH]; [done|].
  cbn [fmap list_fmap concat]. rewrite length_app, length_be_bytes, IH. cbn [length]. lia.
Qed.

Lemma length_sha256 l : length (sha256 l) = 32%nat.
Proof. unfold sha256. by rewrite length_concat_be4, length_sha_blocks. Qed.

Lemma length_hmac_sha256 k m : length (hmac_sha256 k m) = 32%nat.
Proof. apply length_sha256. Qed.

#[global] Opaque sha256 hmac_sha256.

#[export] Hint Rewrite length_sha256 length_hmac_sha256 length_be_bytes : len.

Lemma length_dec_digits_le f n : (length (dec_digits f n) ≤ f)%nat.
Proof.
  revert n. induction f as [|f IH]; intros n; [done|]. cbn [dec_digits].
  case_match; [simpl; lia|]. rewrite length_app. specialize (IH (n / 10)). simpl. lia.
Qed.

Lemma length_FormatInt_le n : 0 ≤ n → (length (FormatInt n) ≤ 20)%nat.
Proof.
  intros H. unfold FormatInt. rewrite (proj2 (Z.ltb_ge n 0)) by lia. apply length_dec_digits_le.
Qed.
