(* ===== verification/GoFloat.v ===== *)
(** * float64

    The finite values of Go's [float64] (IEEE 754 binary64) and the operations the
    code uses on them: a number is the integer multiple of the smallest positive
    value 2^-1074 that it is, and an operation rounds its exact result to 53
    significant bits, ties to even.  Infinities and values that are not numbers are
    left out: no operation of the modelled code comes near the largest value.

    The lemmas bound the error of an operation by the half of a unit in the last
    place; [close] carries such bounds through a computation. *)

From S2P Require Import Prelude.

(** The number 1. *)
Definition one64 : Z := 2 ^ 1074.

(** The integer nearest to [num / den], ties to even. *)
Definition nearest_even (num den : Z) : Z :=
  let q := num / den in
  let r := num mod den in
  if 2 * r <? den then q else if den <? 2 * r then q + 1 else if Z.even q then q else q + 1.

(** The float64 nearest to [num / den] multiples of the smallest value. *)
Definition round64 (num den : Z) : Z :=
  let e := Z.max 0 (Z.log2 (Z.abs num / den) - 52) in
  Z.sgn num * (nearest_even (Z.abs num) (den * 2 ^ e) * 2 ^ e).

Definition float_of_int (z : Z) : Z := round64 (z * one64) 1.

Definition float_add (a b : Z) : Z := round64 (a + b) 1.

Definition float_sub (a b : Z) : Z := round64 (a - b) 1.

Definition float_mul (a b : Z) : Z := round64 (a * b) one64.

(** Division by a positive number. *)
Definition float_div (a b : Z) : Z := round64 (a * one64) b.

(** [time.Duration.Seconds] *)
Definition Duration_Seconds (d : Z) : Z :=
  float_add (float_of_int (Z.quot d (10 ^ 9)))
    (float_div (float_of_int (Z.rem d (10 ^ 9))) (float_of_int (10 ^ 9))).

(** ** Rounding *)

Lemma nearest_even_error num den : 0 < den → 2 * Z.abs (nearest_even num den * den - num) ≤ den.
Proof.
  intros Hd. unfold nearest_even. pose proof (Z.div_mod num den ltac:(lia)) as Hq.
  pose proof (Z.mod_pos_bound num den Hd). set (q := num / den) in *. set (r := num mod den) in *.
  assert (q * den - num = - r ∧ (q + 1) * den - num = den - r) as [E1 E2] by lia.
  destruct (Z.ltb_spec (2 * r) den); [lia|]. destruct (Z.ltb_spec den (2 * r)); [lia|]. destruct (Z.even q); lia.
Qed.

Lemma round64_error num den : 0 < den →
  2 ^ 53 * Z.abs (round64 num den * den - num) ≤ Z.max (Z.abs num) (2 ^ 52 * den).
Proof.
  intros Hd. unfold round64. set (a := Z.abs num). set (e := Z.max 0 (Z.log2 (a / den) - 52)).
  assert (0 ≤ e) as He by lia. assert (0 < 2 ^ e) by (apply Z.pow_pos_nonneg; lia).
  pose proof (nearest_even_error a (den * 2 ^ e) ltac:(nia)) as Hn. set (n := nearest_even a (den * 2 ^ e)) in *.
  assert (Z.abs (Z.sgn num * (n * 2 ^ e) * den - num) = Z.abs (n * (den * 2 ^ e) - a) ∨ num = 0 ∧ n * (den * 2 ^ e) = a) as Hs.
  { destruct (Z.sgn_spec num) as [[? ->]|[[H0 ->]|[? ->]]].
    - left. unfold a. rewrite (Z.abs_eq num) by lia. f_equal. ring.
    - right. split; [done|]. unfold n, a. rewrite <- H0. unfold nearest_even. rewrite Z.div_0_l, Z.mod_0_l by nia.
      by destruct (Z.ltb_spec (2 * 0) (den * 2 ^ e)); [|nia].
    - left. unfold a. rewrite (Z.abs_neq num) by lia. rewrite <- (Z.abs_opp (n * _ - _)). f_equal. ring. }
  destruct Hs as [->|[-> E]]; [|rewrite Z.sgn_0, !Z.mul_0_l; change (Z.abs (0 - 0)) with 0; lia]. change (2 ^ 53) with (2 * 2 ^ 52).
  destruct (Z.le_gt_cases (Z.log2 (a / den)) 52) as [Hl|Hl].
  - assert (e = 0) as E by lia. rewrite E in Hn |- *. change (2 ^ 0) with 1 in *. rewrite Z.mul_1_r in *. lia.
  - assert (den * 2 ^ (52 + e) ≤ a) as Hle.
    { assert (2 ^ (52 + e) ≤ a / den) as Hp.
      { replace (52 + e) with (Z.log2 (a / den)) by lia. apply Z.log2_spec.
        destruct (Z.le_gt_cases (a / den) 0); [rewrite Z.log2_nonpos in Hl; lia|done]. }
      pose proof (Z.mul_div_le a den Hd). nia. }
    rewrite Z.pow_add_r in Hle by lia. lia.
Qed.

(** An integer result is rounded with a relative error. *)
Lemma round64_relative n : 2 ^ 53 * Z.abs (round64 n 1 - n) ≤ Z.abs n.
Proof.
  pose proof (round64_error n 1 ltac:(lia)) as H. rewrite Z.mul_1_r in H.
  destruct (Z.le_gt_cases (2 ^ 52) (Z.abs n)) as [Hn|Hn]; [lia|]. assert (Z.abs (round64 n 1 - n) = 0); lia.
Qed.

Lemma nearest_even_exact q den : 0 < den → nearest_even (q * den) den = q.
Proof.
  intros Hd. unfold nearest_even. rewrite Z.div_mul, Z.mod_mul by lia. by destruct (Z.ltb_spec (2 * 0) den); [|lia].
Qed.

(** Numbers of 53 bits are not rounded. *)
Lemma round64_exact m k den : 0 < den → 0 ≤ k → Z.abs m < 2 ^ 53 → round64 (m * 2 ^ k * den) den = m * 2 ^ k.
Proof.
  intros Hd Hk Hm. assert (0 < 2 ^ k) as Hpk by (apply Z.pow_pos_nonneg; lia). unfold round64.
  rewrite !Z.abs_mul, (Z.abs_eq den), (Z.abs_eq (2 ^ k)), Z.div_mul by lia.
  set (e := Z.max 0 _). destruct (decide (m = 0)) as [->|Hm0].
  { change (0 * 2 ^ k * den) with 0. rewrite Z.sgn_0. lia. }
  assert (Z.log2 (Z.abs m * 2 ^ k) = k + Z.log2 (Z.abs m)) as Hlog by (apply Z.log2_mul_pow2; lia).
  assert (Z.log2 (Z.abs m) < 53) by (apply Z.log2_lt_pow2; lia).
  assert (0 ≤ e ≤ k) as He by lia.
  replace (Z.abs m * 2 ^ k * den) with (Z.abs m * 2 ^ (k - e) * (den * 2 ^ e)).
  2: { replace (2 ^ k) with (2 ^ (k - e) * 2 ^ e) by (rewrite <- Z.pow_add_r by lia; f_equal; lia). ring. }
  rewrite nearest_even_exact by (apply Z.mul_pos_pos; [done|apply Z.pow_pos_nonneg; lia]).
  replace (Z.abs m * 2 ^ (k - e) * 2 ^ e) with (Z.abs m * 2 ^ k) by (rewrite <- Z.mul_assoc, <- Z.pow_add_r by lia; do 2 f_equal; lia).
  rewrite !Z.sgn_mul, (Z.sgn_pos (2 ^ k)), (Z.sgn_pos den) by lia.
  rewrite !Z.mul_1_r, Z.mul_assoc, (Z.mul_comm (Z.sgn m)), Z.abs_sgn. done.
Qed.

Lemma one64_pos : 0 < one64.
Proof. done. Qed.

Lemma float_of_int_exact z : Z.abs z < 2 ^ 53 → float_of_int z = z * one64.
Proof. intros Hz. unfold float_of_int, one64. pose proof (round64_exact z 1074 1 ltac:(lia) ltac:(lia) Hz) as E. by rewrite Z.mul_1_r in E. Qed.

Lemma float_mul_exact a b : Z.abs a < 2 ^ 53 → Z.abs b < 2 ^ 53 → Z.abs (a * b) < 2 ^ 53 →
  float_mul (float_of_int a) (float_of_int b) = a * b * one64.
Proof.
  intros Ha Hb Hab. rewrite !float_of_int_exact by done. unfold float_mul.
  replace (a * one64 * (b * one64)) with (a * b * one64 * one64) by ring.
  by apply round64_exact.
Qed.

(** ** Errors of a computation *)

(** The float64 [f] stands for [s] billionths, up to [k * 2 ^ -53] billionths. *)
Definition close (k f s : Z) : Prop := 2 ^ 53 * Z.abs (f * 10 ^ 9 - s * one64) ≤ k * one64.

Lemma close_exact z : Z.abs z < 2 ^ 53 → close 0 (float_of_int z) (z * 10 ^ 9).
Proof. intros Hz. unfold close. rewrite float_of_int_exact by done. replace (_ - _) with 0 by ring. done. Qed.

Lemma close_weaken k k' f s : close k f s → k ≤ k' → close k' f s.
Proof. unfold close. pose proof one64_pos. intros. nia. Qed.

(** Rounding adds an error of half a unit in the last place. *)
Lemma close_round k x s b : close k x s → Z.abs s ≤ b → k ≤ 2 ^ 53 → close (k + b + 1) (round64 x 1) s.
Proof.
  unfold close. intros Hx Hs Hk. pose proof one64_pos as Hu. pose proof (round64_relative x) as Hr.
  generalize dependent (round64 x 1). generalize dependent one64. intros u Hx Hu r Hr.
  assert (2 ^ 53 * Z.abs (r * 10 ^ 9 - x * 10 ^ 9) ≤ Z.abs x * 10 ^ 9) as H1 by lia.
  assert (Z.abs x * 10 ^ 9 ≤ b * u + u) as H2.
  { assert (Z.abs (x * 10 ^ 9) ≤ Z.abs (s * u) + Z.abs (x * 10 ^ 9 - s * u)) by lia.
    assert (Z.abs (s * u) ≤ b * u) by (rewrite Z.abs_mul, (Z.abs_eq u) by lia; nia).
    assert (2 ^ 53 * Z.abs (x * 10 ^ 9 - s * u) ≤ 2 ^ 53 * u) by nia. lia. }
  lia.
Qed.

Lemma close_add k1 k2 f1 f2 s1 s2 b : close k1 f1 s1 → close k2 f2 s2 → Z.abs (s1 + s2) ≤ b → k1 + k2 ≤ 2 ^ 53 →
  close (k1 + k2 + b + 1) (float_add f1 f2) (s1 + s2).
Proof.
  intros H1 H2 Hb Hk. apply close_round; [|done..]. unfold close in *. generalize dependent one64. intros u H1 H2.
  replace (_ - _) with ((f1 * 10 ^ 9 - s1 * u) + (f2 * 10 ^ 9 - s2 * u)) by ring. lia.
Qed.

Lemma close_sub k1 k2 f1 f2 s1 s2 b : close k1 f1 s1 → close k2 f2 s2 → Z.abs (s1 - s2) ≤ b → k1 + k2 ≤ 2 ^ 53 →
  close (k1 + k2 + b + 1) (float_sub f1 f2) (s1 - s2).
Proof.
  intros H1 H2 Hb Hk. apply close_round; [|done..]. unfold close in *. generalize dependent one64. intros u H1 H2.
  replace (_ - _) with ((f1 * 10 ^ 9 - s1 * u) - (f2 * 10 ^ 9 - s2 * u)) by ring. lia.
Qed.

(** [n] divided by a billion. *)
Lemma close_div n : 0 ≤ n < 10 ^ 9 → close n (float_div (float_of_int n) (float_of_int (10 ^ 9))) n.
Proof.
  intros Hn. rewrite !float_of_int_exact by lia. unfold float_div, close. pose proof one64_pos as Hu.
  destruct (decide (n = 0)) as [->|Hn0]; [by vm_compute|].
  pose proof (round64_error (n * one64 * one64) (10 ^ 9 * one64) ltac:(lia)) as Hr.
  assert (2 ^ 52 * 10 ^ 9 ≤ one64) as Hbig by (by vm_compute).
  generalize dependent (round64 (n * one64 * one64) (10 ^ 9 * one64)). generalize dependent one64. intros u Hu Hbig r Hr.
  replace (r * (10 ^ 9 * u) - n * u * u) with ((r * 10 ^ 9 - n * u) * u) in Hr by ring.
  rewrite !Z.abs_mul, !(Z.abs_eq u), (Z.abs_eq n) in Hr by lia.
  assert (2 ^ 52 * (10 ^ 9 * u) ≤ n * u * u) by nia. rewrite Z.max_l in Hr by lia.
  apply (Z.mul_le_mono_pos_r _ _ u); lia.
Qed.

(** The seconds of a duration. *)
Lemma close_Seconds d : 0 ≤ d < 2 ^ 50 → close (2 * d + 10 ^ 9) (Duration_Seconds d) d.
Proof.
  intros Hd. unfold Duration_Seconds. rewrite Z.quot_div_nonneg, Z.rem_mod_nonneg by lia.
  pose proof (Z.div_mod d (10 ^ 9) ltac:(lia)) as E. pose proof (Z.mod_pos_bound d (10 ^ 9) ltac:(lia)).
  pose proof (Z.div_pos d (10 ^ 9) ltac:(lia) ltac:(lia)).
  pose proof (close_exact (d / 10 ^ 9) ltac:(lia)) as H1. pose proof (close_div (d mod 10 ^ 9) ltac:(lia)) as H2.
  pose proof (close_add _ _ _ _ _ _ d H1 H2 ltac:(lia) ltac:(lia)) as H3.
  replace (d / 10 ^ 9 * 10 ^ 9 + d mod 10 ^ 9) with d in H3 by lia.
  eapply close_weaken; [exact H3|lia].
Qed.

(** Numbers that stand for different numbers of billionths compare like them. *)
Lemma close_lt k1 k2 f1 f2 s1 s2 : close k1 f1 s1 → close k2 f2 s2 → k1 + k2 < 2 ^ 53 → s1 < s2 → f1 < f2.
Proof.
  unfold close. pose proof one64_pos as Hu. generalize dependent one64. intros u Hu H1 H2 Hk Hs.
  assert (s1 * u + u ≤ s2 * u) by nia. assert ((k1 + k2) * u < 2 ^ 53 * u) by nia. lia.
Qed.
