(* ===== verification/GoStrings.v ===== *)
(** * Go strings

    The parts of Go's [strings], [encoding/hex] and [fmt] the components use,
    over strings as byte sequences.  [strings.ToLower] maps ASCII strings byte
    by byte; on other strings it consults Unicode tables, which stand here as
    the argument [unicode_lower]. *)

From stdpp Require Import base list strings.
From S2P Require Import Prelude GoStd.

Definition str (s : string) : bytes := string_to_bytes s.

Definition in_range (lo hi : Z) (b : byte) : bool := (lo <=? byte_to_Z b) && (byte_to_Z b <=? hi).

Definition is_lower : byte → bool := in_range 97 122.

Definition is_upper : byte → bool := in_range 65 90.

Definition is_digit : byte → bool := in_range 48 57.

Definition lower_byte (b : byte) : byte := if is_upper b then Z_to_byte (byte_to_Z b + 32) else b.

Definition isASCII (s : bytes) : bool := forallb (λ b, byte_to_Z b <? 128) s.

Definition ToLower (unicode_lower : bytes → bytes) (s : bytes) : bytes :=
  if isASCII s then map lower_byte s else unicode_lower s.

Definition hyphen : byte := Byte.x2d.

Definition dot : byte := Byte.x2e.

(** [strings.Contains(s, c)] and [strings.Split(s, c)] for a one-byte string. *)
Definition ContainsByte (c : byte) (s : bytes) : bool := bool_decide (c ∈ s).

Fixpoint SplitByte (sep : byte) (s : bytes) : list bytes :=
  match s with
  | [] => [[]]
  | c :: s =>
      if bool_decide (c = sep) then [] :: SplitByte sep s
      else match SplitByte sep s with
           | x :: r => (c :: x) :: r
           | [] => [[c]]
           end
  end.

(** [strings.SplitN(s, sep, 2)]: [None] when it has a single part. *)
Fixpoint CutByte (sep : byte) (s : bytes) : option (bytes * bytes) :=
  match s with
  | [] => None
  | c :: s =>
      if bool_decide (c = sep) then Some ([], s)
      else '(a, b) ← CutByte sep s; Some (c :: a, b)
  end.

Fixpoint TrimLeftByte (c : byte) (s : bytes) : bytes :=
  match s with
  | x :: s' => if bool_decide (x = c) then TrimLeftByte c s' else s
  | [] => []
  end.

Definition TrimRightByte (c : byte) (s : bytes) : bytes := reverse (TrimLeftByte c (reverse s)).

Definition TrimByte (c : byte) (s : bytes) : bytes := TrimRightByte c (TrimLeftByte c s).

(** [strings.TrimSuffix(s, c)] for a one-byte suffix. *)
Definition TrimSuffixByte (c : byte) (s : bytes) : bytes :=
  if bool_decide (last s = Some c) then take (length s - 1) s else s.

(** [strings.Contains(s, cc)] and [strings.ReplaceAll(s, cc, c)] for the string
    of two equal bytes. *)
Fixpoint ContainsPair (c : byte) (s : bytes) : bool :=
  match s with
  | a :: ((b :: _) as t) => bool_decide (a = c ∧ b = c) || ContainsPair c t
  | _ => false
  end.

Fixpoint ReplacePairs (c : byte) (s : bytes) : bytes :=
  match s with
  | a :: ((b :: t') as t) => if bool_decide (a = c ∧ b = c) then c :: ReplacePairs c t' else a :: ReplacePairs c t
  | _ => s
  end.

Definition hex_digit (v : Z) : byte := Z_to_byte (if v <? 10 then 48 + v else 87 + v).

(** [hex.EncodeToString], and [%x] of a byte array. *)
Definition hex_encode (s : bytes) : bytes :=
  flat_map (λ b, [hex_digit (byte_to_Z b / 16); hex_digit (byte_to_Z b mod 16)]) s.

Fixpoint Join (sep : bytes) (l : list bytes) : bytes :=
  match l with
  | [] => []
  | [x] => x
  | x :: r => x ++ sep ++ Join sep r
  end.

(** ** Lemmas *)

Lemma length_hex_encode s : length (hex_encode s) = (2 * length s)%nat.
Proof. induction s as [|b s IH]; simpl; [done|]. rewrite IH. lia. Qed.

Lemma hex_digit_class v : 0 ≤ v < 16 → is_lower (hex_digit v) || is_digit (hex_digit v) = true.
Proof.
  intros Hv. unfold hex_digit, is_lower, is_digit, in_range.
  destruct (v <? 10) eqn:E; rewrite byte_to_Z_to_byte, Z.mod_small by lia; lia.
Qed.

Lemma hex_encode_class s : Forall (λ b, is_lower b || is_digit b = true) (hex_encode s).
Proof.
  induction s as [|b s IH]; simpl; [constructor|]. pose proof (byte_to_Z_range b).
  repeat constructor; [apply hex_digit_class..|done].
  - split; [apply Z.div_pos; lia|apply Z.div_lt_upper_bound; lia].
  - apply Z.mod_pos_bound. lia.
Qed.

Lemma TrimLeft_head c s : head (TrimLeftByte c s) ≠ Some c.
Proof. induction s as [|x s IH]; simpl; [done|]. case_bool_decide; simpl; congruence. Qed.

Lemma TrimLeft_suffix c s : ∃ p, s = p ++ TrimLeftByte c s.
Proof.
  induction s as [|x s [p Hp]]; simpl; [by exists []|].
  case_bool_decide; [|by exists []]. exists (x :: p). simpl. by rewrite <-Hp.
Qed.

Lemma TrimRight_prefix c s : ∃ p, s = TrimRightByte c s ++ p.
Proof.
  unfold TrimRightByte. destruct (TrimLeft_suffix c (reverse s)) as [p Hp].
  exists (reverse p). rewrite <-reverse_app, <-Hp. by rewrite reverse_involutive.
Qed.

Lemma last_reverse_head {A} (l : list A) : last (reverse l) = head l.
Proof. destruct l as [|x l]; [done|]. by rewrite reverse_cons, last_snoc. Qed.

Lemma TrimRight_last c s : last (TrimRightByte c s) ≠ Some c.
Proof. unfold TrimRightByte. rewrite last_reverse_head. apply TrimLeft_head. Qed.

(** Trimming on the right keeps a first byte that is not trimmed. *)
Lemma TrimRight_head c s x : head s = Some x → x ≠ c → head (TrimRightByte c s) = Some x.
Proof.
  intros Hh Hx. destruct (TrimRight_prefix c s) as [p Hp].
  destruct (TrimRightByte c s) as [|y t] eqn:E.
  - simpl in Hp. subst p. unfold TrimRightByte in E.
    assert (TrimLeftByte c (reverse s) = []) as E'.
    { rewrite <-(reverse_involutive (TrimLeftByte c (reverse s))), E. done. }
    exfalso. apply Hx.
    assert (Forall (λ b, b = c) (reverse s)) as Hall.
    { clear -E'. revert E'. generalize (reverse s) as l. induction l as [|b l IH]; simpl; [constructor|].
      case_bool_decide; [|done]. intros ?%IH. by constructor. }
    apply Forall_reverse in Hall. rewrite reverse_involutive in Hall. destruct s as [|y s]; [done|]. simplify_eq/=. apply (Forall_inv Hall).
  - rewrite Hp in Hh. simpl in *. done.
Qed.

Lemma ReplacePairs_head c s : head (ReplacePairs c s) = head s.
Proof.
  destruct s as [|a [|b t]]; [done..|]. simpl. case_bool_decide as E; simpl; [|done].
  destruct E as [-> _]. done.
Qed.

Lemma ReplacePairs_ind (c : byte) (P : bytes → Prop) :
  P [] → (∀ a, P [a]) →
  (∀ t, P t → P (c :: c :: t)) →
  (∀ a b t, ¬ (a = c ∧ b = c) → P (b :: t) → P (a :: b :: t)) →
  ∀ s, P s.
Proof.
  intros H0 H1 H2 H3 s. remember (length s) as n eqn:Hn. revert s Hn.
  induction n as [n IH] using lt_wf_ind. intros [|a [|b t]] Hn; [done..|].
  destruct (decide (a = c ∧ b = c)) as [[-> ->]|Hab].
  - apply H2, (IH (length t)); simpl in *; [lia|done].
  - apply H3; [done|]. apply (IH (length (b :: t))); simpl in *; [lia|done].
Qed.

Lemma ReplacePairs_skip c a b t :
  ¬ (a = c ∧ b = c) → ReplacePairs c (a :: b :: t) = a :: ReplacePairs c (b :: t).
Proof. intros Hab. simpl. by rewrite (bool_decide_false (a = c ∧ b = c)). Qed.

Lemma ReplacePairs_pair c t : ReplacePairs c (c :: c :: t) = c :: ReplacePairs c t.
Proof. simpl. by rewrite bool_decide_true. Qed.

Lemma ReplacePairs_last c s : last (ReplacePairs c s) = last s.
Proof.
  induction s as [|a|t IH|a b t Hab IH] using (ReplacePairs_ind c); [done..| |].
  - rewrite ReplacePairs_pair, !last_cons, IH. by destruct (last t).
  - by rewrite ReplacePairs_skip, !(last_cons _ (b :: t)), last_cons, IH.
Qed.

Lemma ReplacePairs_Forall c (P : byte → Prop) s : P c → Forall P s → Forall P (ReplacePairs c s).
Proof.
  intros Hc. induction s as [|a|t IH|a b t Hab IH] using (ReplacePairs_ind c); [done..| |]; intros Hs.
  - rewrite ReplacePairs_pair. inversion_clear Hs as [|? ? ? Hs']. inversion_clear Hs'. constructor; auto.
  - rewrite ReplacePairs_skip by done. inversion_clear Hs. constructor; auto.
Qed.

Lemma ReplacePairs_length c s :
  (length (ReplacePairs c s) ≤ length s)%nat ∧
  (ContainsPair c s = true → (length (ReplacePairs c s) < length s)%nat).
Proof.
  induction s as [|a|t IH|a b t Hab IH] using (ReplacePairs_ind c); [split; simpl; done || lia..| |].
  - rewrite ReplacePairs_pair. simpl in *. lia.
  - rewrite ReplacePairs_skip by done.
    assert (ContainsPair c (a :: b :: t) = ContainsPair c (b :: t)) as ->.
    { simpl. by rewrite (bool_decide_false (a = c ∧ b = c)). }
    destruct IH as [IH1 IH2]. cbn [length] in *. split; [lia|]. intros Hc. specialize (IH2 Hc). lia.
Qed.

Lemma CutByte_complete sep a b : sep ∉ a → CutByte sep (a ++ sep :: b) = Some (a, b).
Proof.
  induction a as [|c a IH]; intros Hn; simpl.
  - by rewrite bool_decide_true.
  - apply not_elem_of_cons in Hn as [Hc Hn]. rewrite bool_decide_false by done.
    by rewrite IH.
Qed.

Lemma CutByte_sound sep s a b : CutByte sep s = Some (a, b) → s = a ++ sep :: b ∧ sep ∉ a.
Proof.
  revert a. induction s as [|c s IH]; intros a; simpl; [done|].
  case_bool_decide as E.
  - intros [= <- <-]. subst c. split; [done|apply not_elem_of_nil].
  - destruct (CutByte sep s) as [[a' b']|]; simpl; [|done].
    intros [= <- <-]. destruct (IH a') as [-> Hn]; [done|]. split; [done|].
    by apply not_elem_of_cons.
Qed.

(** A canonical name has only lower-case ASCII letters, so lowering it again
    does nothing. *)
Lemma ToLower_lower ul s :
  Forall (λ b, byte_to_Z b < 128 ∧ is_upper b = false) s → ToLower ul s = s.
Proof.
  intros Hs. unfold ToLower.
  assert (isASCII s = true) as ->.
  { apply Is_true_true, forallb_True, Forall_forall. intros b Hb. rewrite Forall_forall in Hs.
    apply Hs in Hb as [Hb _]. apply Is_true_true. lia. }
  induction Hs as [|b s [_ Hb] _ IH]; simpl; [done|]. unfold lower_byte at 1. by rewrite Hb, IH.
Qed.
