(* ===== verification/NetIP.v ===== *)
(** * Internet addresses

    The part of [net/netip] the program uses: addresses with Go's equality
    (an IPv4 address differs from its IPv4-mapped IPv6 form, a zone is part of
    the address), prefixes, masking and containment. *)

From stdpp Require Import base list gmap strings.
From S2P Require Import Prelude.

(** [netip.Addr]: the zero value, an IPv4 address as a 32-bit number, an IPv6
    address as a 128-bit number with a zone. *)
Inductive Addr :=
| AddrZero
| Addr4 (n : Z)
| Addr6 (n : Z) (zone : string).

#[global] Instance Addr_eq_dec : EqDecision Addr.
Proof. solve_decision. Defined.

#[global] Program Instance Addr_countable : Countable Addr :=
  inj_countable'
    (λ a, match a with AddrZero => inl tt | Addr4 n => inr (inl n) | Addr6 n z => inr (inr (n, z)) end)
    (λ x, match x with inl _ => AddrZero | inr (inl n) => Addr4 n | inr (inr (n, z)) => Addr6 n z end) _.
Next Obligation. by intros []. Qed.

#[global] Instance Addr_inhabited : Inhabited Addr := populate AddrZero.

Definition addr_wf (a : Addr) : Prop :=
  match a with
  | AddrZero => True
  | Addr4 n => 0 ≤ n < 2 ^ 32
  | Addr6 n _ => 0 ≤ n < 2 ^ 128
  end.

Definition IsValid (a : Addr) : bool :=
  match a with AddrZero => false | _ => true end.

Definition BitLen (a : Addr) : Z :=
  match a with AddrZero => 0 | Addr4 _ => 32 | Addr6 _ _ => 128 end.

Definition Is4 (a : Addr) : bool := match a with Addr4 _ => true | _ => false end.

Definition Is6 (a : Addr) : bool := match a with Addr6 _ _ => true | _ => false end.

(** [::ffff:0:0/96] *)
Definition Is4In6 (a : Addr) : bool :=
  match a with Addr6 n _ => Z.shiftr n 32 =? 0xffff | _ => false end.

Definition Unmap (a : Addr) : Addr :=
  match a with
  | Addr6 n _ => if Z.shiftr n 32 =? 0xffff then Addr4 (Z.land n (2 ^ 32 - 1)) else a
  | _ => a
  end.

Definition WithoutZone (a : Addr) : Addr :=
  match a with Addr6 n _ => Addr6 n "" | _ => a end.

(** [netip.Prefix]; the zero prefix has a zero address and [bits] -1. *)
Record Prefix := mkPrefix { pf_addr : Addr; pf_bits : Z }.

#[global] Instance Prefix_eq_dec : EqDecision Prefix.
Proof. solve_decision. Defined.

#[global] Program Instance Prefix_countable : Countable Prefix :=
  inj_countable' (λ p, (pf_addr p, pf_bits p)) (λ x, mkPrefix x.1 x.2) _.
Next Obligation. by intros []. Qed.

(** [PrefixFrom]: a zone is removed, an invalid length gives an invalid prefix. *)
Definition PrefixFrom (a : Addr) (bits : Z) : Prefix :=
  if IsValid a && (0 <=? bits) && (bits <=? BitLen a)
  then mkPrefix (WithoutZone a) bits else mkPrefix (WithoutZone a) (-1).

Definition Prefix_IsValid (p : Prefix) : bool := (0 <=? pf_bits p) && IsValid (pf_addr p).

(** The number of the address with the host bits cleared. *)
Definition mask_bits (len bits n : Z) : Z := Z.shiftl (Z.shiftr n (len - bits)) (len - bits).

Definition Masked (p : Prefix) : Prefix :=
  if negb (Prefix_IsValid p) then mkPrefix AddrZero (-1)
  else
    match pf_addr p with
    | AddrZero => mkPrefix AddrZero (-1)
    | Addr4 n => mkPrefix (Addr4 (mask_bits 32 (pf_bits p) n)) (pf_bits p)
    | Addr6 n _ => mkPrefix (Addr6 (mask_bits 128 (pf_bits p) n) "") (pf_bits p)
    end.

(** [Prefix.Contains]: the same family, no zone, the same network bits. *)
Definition Contains (p : Prefix) (a : Addr) : bool :=
  Prefix_IsValid p &&
  match pf_addr p, a with
  | Addr4 n, Addr4 m => Z.shiftr n (32 - pf_bits p) =? Z.shiftr m (32 - pf_bits p)
  | Addr6 n _, Addr6 m z =>
      bool_decide (z = ""%string) && (Z.shiftr n (128 - pf_bits p) =? Z.shiftr m (128 - pf_bits p))
  | _, _ => false
  end.

(** [Prefix.Overlaps] *)
Definition Overlaps (p q : Prefix) : bool :=
  if negb (Prefix_IsValid p && Prefix_IsValid q) then false
  else if bool_decide (p = q) then true
  else if negb (Bool.eqb (Is4 (pf_addr p)) (Is4 (pf_addr q))) then false
  else
    let b := Z.min (pf_bits p) (pf_bits q) in
    if b =? 0 then true
    else
      match pf_addr p, pf_addr q with
      | Addr4 n, Addr4 m => Z.shiftr n (32 - b) =? Z.shiftr m (32 - b)
      | Addr6 n _, Addr6 m _ => Z.shiftr n (128 - b) =? Z.shiftr m (128 - b)
      | _, _ => false
      end.

(** ** Addresses as bytes *)

(** The big-endian number of a byte string. *)
Definition be_number (l : bytes) : Z := foldl (λ a b, 256 * a + byte_to_Z b) 0 l.

(** [AddrFromSlice]: four or sixteen bytes. *)
Definition AddrFromSlice (l : bytes) : option Addr :=
  if bool_decide (length l = 4%nat) then Some (Addr4 (be_number l))
  else if bool_decide (length l = 16%nat) then Some (Addr6 (be_number l) "")
  else None.

(** The [k] low bytes of a number, most significant first. *)
Fixpoint be_bytes (k : nat) (n : Z) : bytes :=
  match k with
  | O => []
  | S k' => Z_to_byte (Z.shiftr n (8 * Z.of_nat k')) :: be_bytes k' n
  end.

(** [AsSlice]; [As4] of an IPv4 address is the same four bytes. *)
Definition AsSlice (a : Addr) : bytes :=
  match a with
  | AddrZero => []
  | Addr4 n => be_bytes 4 n
  | Addr6 n _ => be_bytes 16 n
  end.

Definition Z_compare (a b : Z) : Z := match a ?= b with Lt => -1 | Eq => 0 | Gt => 1 end.

(** [strings.Compare] *)
Definition string_Compare (s t : string) : Z :=
  match String.compare s t with Lt => -1 | Eq => 0 | Gt => 1 end.

(** [Addr.Compare]: by length, then by number, then by zone. *)
Definition Addr_Compare (a b : Addr) : Z :=
  match a, b with
  | Addr4 n, Addr4 m => Z_compare n m
  | Addr6 n z, Addr6 m z' =>
      let c := Z_compare n m in if c =? 0 then string_Compare z z' else c
  | _, _ => Z_compare (BitLen a) (BitLen b)
  end.

Definition IPv4Unspecified : Addr := Addr4 0.

Definition IPv6Unspecified : Addr := Addr6 0 "".

Lemma length_addr_bytes k n : length (be_bytes k n) = k.
Proof. induction k; simpl; auto. Qed.

Lemma Z_compare_zero a b : Z_compare a b = 0 ↔ a = b.
Proof. unfold Z_compare. destruct (Z.compare_spec a b); lia. Qed.

Lemma string_Compare_zero s t : string_Compare s t = 0 ↔ s = t.
Proof.
  unfold string_Compare. split.
  - pose proof (String.compare_eq_iff s t). destruct (String.compare s t); [auto|done..].
  - intros ->. pose proof (String.compare_antisym t t). by destruct (String.compare t t).
Qed.

(** [Compare] is zero exactly on equal addresses. *)
Lemma Addr_Compare_zero a b : Addr_Compare a b = 0 ↔ a = b.
Proof.
  destruct a as [|n|n z], b as [|m|m z']; simpl; try done; rewrite ?Z_compare_zero; try naive_solver.
  case_if; bool_facts.
  - rewrite string_Compare_zero. rewrite Z_compare_zero in Heqb. naive_solver.
  - rewrite Z_compare_zero in Heqb |- *. naive_solver.
Qed.

Lemma be_number_bytes4 n : 0 ≤ n < 2 ^ 32 → be_number (be_bytes 4 n) = n.
Proof.
  intros Hn. unfold be_number. cbn [be_bytes foldl]. rewrite !byte_to_Z_to_byte, !Z.shiftr_div_pow2 by lia.
  change (8 * Z.of_nat 3) with 24. change (8 * Z.of_nat 2) with 16. change (8 * Z.of_nat 1) with 8.
  change (8 * Z.of_nat 0) with 0. change (2 ^ 24) with 16777216. change (2 ^ 16) with 65536.
  change (2 ^ 8) with 256. change (2 ^ 0) with 1.
  Z.to_euclidean_division_equations. lia.
Qed.
