(* ===== verification/RelayMessages.v ===== *)
(** * Relay wire messages

    The binary protocol between a relay client and a relay server
    ([shared/relay/messages]: message.go, peer_state.go, id.go).  Every function
    works on byte slices the way the Go code does: [make], index assignment,
    [copy] and slice expressions, each of which panics out of range.  The
    theorems give the round trips of the Marshal/Unmarshal pairs, the bounds of
    the produced messages, the in-place rewriting of a transport message and
    the absence of panics on arbitrary input. *)

From stdpp Require Import base list strings.
From S2P Require Import Prelude GoStd.

#[local] Open Scope nat_scope.
#[local] Open Scope go_scope.

(** ** Constants of message.go and id.go *)

Definition MaxHandshakeSize : nat := 212.

Definition MaxHandshakeRespSize : nat := Z.to_nat 8192.

Definition MaxMessageSize : nat := Z.to_nat 8820.

Definition CurrentProtocolVersion : Z := 1.

(** [type MsgType byte] *)
Definition MsgType := byte.

Definition MsgTypeUnknown : MsgType := Byte.x00.

Definition MsgTypeHello : MsgType := Byte.x01.

Definition MsgTypeHelloResponse : MsgType := Byte.x02.

Definition MsgTypeTransport : MsgType := Byte.x03.

Definition MsgTypeClose : MsgType := Byte.x04.

Definition MsgTypeHealthCheck : MsgType := Byte.x05.

Definition MsgTypeAuth : MsgType := Byte.x06.

Definition MsgTypeAuthResponse : MsgType := Byte.x07.

Definition MsgTypeSubscribePeerState : MsgType := Byte.x08.

Definition MsgTypeUnsubscribePeerState : MsgType := Byte.x09.

Definition MsgTypePeersOnline : MsgType := Byte.x0a.

Definition MsgTypePeersWentOffline : MsgType := Byte.x0b.

Definition prefixLength : nat := 4.

(** [prefixLength + sha256.Size] *)
Definition peerIDSize : nat := prefixLength + 32.

Definition sizeOfVersionByte : nat := 1.

Definition sizeOfMsgType : nat := 1.

Definition sizeOfProtoHeader : nat := sizeOfVersionByte + sizeOfMsgType.

Definition sizeOfMagicByte : nat := 4.

Definition headerSizeAuth : nat := sizeOfMagicByte + peerIDSize.

Definition offsetMagicByte : nat := sizeOfProtoHeader.

Definition offsetAuthPeerID : nat := sizeOfProtoHeader + sizeOfMagicByte.

Definition headerTotalSizeAuth : nat := sizeOfProtoHeader + headerSizeAuth.

Definition headerSizeHello : nat := sizeOfMagicByte + peerIDSize.

Definition headerSizeHelloResp : nat := 0.

Definition headerSizeTransport : nat := peerIDSize.

Definition offsetTransportID : nat := sizeOfProtoHeader.

Definition headerTotalSizeTransport : nat := sizeOfProtoHeader + headerSizeTransport.

Definition magicHeader : bytes := [Byte.x21; Byte.x12; Byte.xa4; Byte.x42].

Definition healthCheckMsg : bytes := [Z_to_byte CurrentProtocolVersion; MsgTypeHealthCheck].

(** The errors of the package, by message. *)
Inductive msg_error :=
| ErrInvalidMessageLength
| ErrUnsupportedVersion (version : Z)
| ErrInvalidMsgType (t : MsgType)
| ErrInvalidMagicHeader
| ErrTooLargeAuthPayload
| ErrRespLength (n : nat)
| ErrNoPeerIds
| ErrInvalidMessageFormat
| ErrInvalidPeerListSize (n : nat).

(** ** PeerID: [type PeerID [peerIDSize]byte] *)

Definition PeerID : Type := { l : bytes | bool_decide (length l = peerIDSize) }.

(** [p[:]] *)
Definition pid_bytes (p : PeerID) : bytes := proj1_sig p.

#[global] Instance PeerID_eq_dec : EqDecision PeerID := _.

#[global] Instance PeerID_countable : Countable PeerID := _.

Definition mk_pid (l : bytes) : option PeerID :=
  match decide (bool_decide (length l = peerIDSize)) with
  | left H => Some (l ↾ H)
  | right _ => None
  end.

(** The conversion [PeerID(s)] of a slice: a panic when the length differs (it
    is used only on slices of exactly that length), and [copy(id[:], s)] of a
    slice of that length. *)
Definition to_PeerID {E} (s : bytes) : outcome E PeerID :=
  match mk_pid s with Some p => Ok p | None => Panic end.

Definition prefix : bytes := string_to_bytes "sha-".

(** [copy(prefixedHash[:prefixLength], prefix); copy(prefixedHash[prefixLength:], idHash[:])] *)
Definition HashID (peerID : string) : outcome msg_error PeerID :=
  let idHash := sha256 (string_to_bytes peerID) in
  let! a := go_copy (go_make peerIDSize) 0 (take prefixLength prefix) in
  let! b := go_copy a prefixLength idHash in
  to_PeerID b.

(** [PeerID.String] *)
Definition PeerID_String (p : PeerID) : string :=
  bytes_to_string (take prefixLength (pid_bytes p) ++ b64_encode (drop prefixLength (pid_bytes p))).

(** [MsgType.String] *)
Definition MsgType_String (m : MsgType) : string :=
  match m with
  | Byte.x01 => "hello"
  | Byte.x02 => "hello response"
  | Byte.x06 => "auth"
  | Byte.x07 => "auth response"
  | Byte.x03 => "transport"
  | Byte.x04 => "close"
  | Byte.x05 => "health check"
  | Byte.x08 => "subscribe peer state"
  | Byte.x09 => "unsubscribe peer state"
  | Byte.x0a => "peers online"
  | Byte.x0b => "peers went offline"
  | _ => "unknown"
  end.

(** ** Header inspection *)

Definition ValidateVersion (msg : bytes) : outcome msg_error Z :=
  if (length msg <? sizeOfProtoHeader)%nat then Err ErrInvalidMessageLength
  else
    let! b := go_index msg 0 in
    let version := byte_to_Z b in
    if negb (version =? CurrentProtocolVersion)%Z then Err (ErrUnsupportedVersion version)
    else Ok version.

Definition is_client_type (t : MsgType) : bool :=
  bool_decide (t ∈ [MsgTypeHello; MsgTypeAuth; MsgTypeTransport; MsgTypeClose; MsgTypeHealthCheck;
                    MsgTypeSubscribePeerState; MsgTypeUnsubscribePeerState]).

Definition is_server_type (t : MsgType) : bool :=
  bool_decide (t ∈ [MsgTypeHelloResponse; MsgTypeAuthResponse; MsgTypeTransport; MsgTypeClose;
                    MsgTypeHealthCheck; MsgTypePeersOnline; MsgTypePeersWentOffline]).

Definition DetermineClientMessageType (msg : bytes) : outcome msg_error MsgType :=
  if (length msg <? sizeOfProtoHeader)%nat then Err ErrInvalidMessageLength
  else
    let! t := go_index msg 1 in
    if is_client_type t then Ok t else Err (ErrInvalidMsgType t).

Definition DetermineServerMessageType (msg : bytes) : outcome msg_error MsgType :=
  if (length msg <? sizeOfProtoHeader)%nat then Err ErrInvalidMessageLength
  else
    let! t := go_index msg 1 in
    if is_server_type t then Ok t else Err (ErrInvalidMsgType t).

(** [msg[0] = byte(CurrentProtocolVersion); msg[1] = byte(t)] *)
Definition set_header (msg : bytes) (t : MsgType) : outcome msg_error bytes :=
  let! m := go_set msg 0 (Z_to_byte CurrentProtocolVersion) in
  go_set m 1 t.

(** ** Hello (deprecated) *)

Definition MarshalHelloMsg (peerID : PeerID) (additions : bytes) : outcome msg_error bytes :=
  let! msg := set_header (go_make (sizeOfProtoHeader + sizeOfMagicByte)) MsgTypeHello in
  let! msg := go_copy msg sizeOfProtoHeader magicHeader in
  Ok (msg ++ pid_bytes peerID ++ additions).

Definition UnmarshalHelloMsg (msg : bytes) : outcome msg_error (PeerID * bytes) :=
  if (length msg <? sizeOfProtoHeader + headerSizeHello)%nat then Err ErrInvalidMessageLength
  else
    let! m := go_slice msg sizeOfProtoHeader (sizeOfProtoHeader + sizeOfMagicByte) in
    if negb (bool_decide (m = magicHeader)) then Err ErrInvalidMagicHeader
    else
      let! s := go_slice msg (sizeOfProtoHeader + sizeOfMagicByte) (sizeOfProtoHeader + headerSizeHello) in
      let! peerID := to_PeerID s in
      let! rest := go_from msg headerSizeHello in
      Ok (peerID, rest).

Definition MarshalHelloResponse (additionalData : bytes) : outcome msg_error bytes :=
  let! msg := set_header (go_make sizeOfProtoHeader) MsgTypeHelloResponse in
  Ok (msg ++ additionalData).

Definition UnmarshalHelloResponse (msg : bytes) : outcome msg_error bytes :=
  if (length msg <? sizeOfProtoHeader + headerSizeHelloResp)%nat then Err ErrInvalidMessageLength
  else Ok msg.

(** ** Auth *)

Definition MarshalAuthMsg (peerID : PeerID) (authPayload : bytes) : outcome msg_error bytes :=
  if (MaxHandshakeSize <? headerTotalSizeAuth + length authPayload)%nat
  then Err ErrTooLargeAuthPayload
  else
    let! msg := set_header (go_make (headerTotalSizeAuth + length authPayload)) MsgTypeAuth in
    let! msg := go_copy msg sizeOfProtoHeader magicHeader in
    let! msg := go_copy msg offsetAuthPeerID (pid_bytes peerID) in
    go_copy msg headerTotalSizeAuth authPayload.

Definition UnmarshalAuthMsg (msg : bytes) : outcome msg_error (PeerID * bytes) :=
  if (length msg <? headerTotalSizeAuth)%nat then Err ErrInvalidMessageLength
  else
    let! m := go_slice msg offsetMagicByte (offsetMagicByte + sizeOfMagicByte) in
    if negb (bool_decide (m = magicHeader)) then Err ErrInvalidMagicHeader
    else
      let! s := go_slice msg offsetAuthPeerID headerTotalSizeAuth in
      let! peerID := to_PeerID s in
      let! rest := go_from msg headerTotalSizeAuth in
      Ok (peerID, rest).

Definition MarshalAuthResponse (address : string) : outcome msg_error bytes :=
  let ab := string_to_bytes address in
  let! msg := set_header (go_make sizeOfProtoHeader) MsgTypeAuthResponse in
  let msg := msg ++ ab in
  if (MaxHandshakeRespSize <? length msg)%nat then Err (ErrRespLength (length msg)) else Ok msg.

Definition UnmarshalAuthResponse (msg : bytes) : outcome msg_error string :=
  if (length msg <? sizeOfProtoHeader + 1)%nat then Err ErrInvalidMessageLength
  else let! s := go_from msg sizeOfProtoHeader in Ok (bytes_to_string s).

(** ** Close, transport, health check *)

Definition MarshalCloseMsg : bytes := [Z_to_byte CurrentProtocolVersion; MsgTypeClose].

Definition MarshalTransportMsg (peerID : PeerID) (payload : bytes) : outcome msg_error bytes :=
  let! msg := set_header (go_make (headerTotalSizeTransport + length payload)) MsgTypeTransport in
  let! msg := go_copy msg sizeOfProtoHeader (pid_bytes peerID) in
  go_copy msg (sizeOfProtoHeader + peerIDSize) payload.

Definition UnmarshalTransportMsg (buf : bytes) : outcome msg_error (PeerID * bytes) :=
  if (length buf <? headerTotalSizeTransport)%nat then Err ErrInvalidMessageLength
  else
    let! s := go_slice buf offsetTransportID (offsetTransportID + peerIDSize) in
    let! peerID := to_PeerID s in
    let! rest := go_from buf headerTotalSizeTransport in
    Ok (peerID, rest).

Definition UnmarshalTransportID (buf : bytes) : outcome msg_error PeerID :=
  if (length buf <? headerTotalSizeTransport)%nat then Err ErrInvalidMessageLength
  else
    let! s := go_slice buf offsetTransportID (offsetTransportID + peerIDSize) in
    to_PeerID s.

(** The slice is updated in place; the model returns its new contents. *)
Definition UpdateTransportMsg (msg : bytes) (peerID : PeerID) : outcome msg_error bytes :=
  if (length msg <? offsetTransportID + peerIDSize)%nat then Err ErrInvalidMessageLength
  else go_copy msg offsetTransportID (pid_bytes peerID).

Definition MarshalHealthcheck : bytes := healthCheckMsg.

(** ** Peer state messages (peer_state.go) *)

Definition maxPeersPerMessage : nat := (MaxMessageSize - sizeOfProtoHeader) / peerIDSize.

(** The inner loop: [copy(buf[offset:], id[:]); offset += peerIDSize]. *)
Fixpoint copy_ids (buf : bytes) (offset : nat) (chunk : list PeerID) : outcome msg_error bytes :=
  match chunk with
  | [] => Ok buf
  | id :: rest =>
      let! buf := go_copy buf offset (pid_bytes id) in
      copy_ids buf (offset + peerIDSize) rest
  end.

Definition marshal_chunk (chunk : list PeerID) (msgType : MsgType) : outcome msg_error bytes :=
  let! buf := set_header (go_make (sizeOfProtoHeader + length chunk * peerIDSize)) msgType in
  copy_ids buf sizeOfProtoHeader chunk.

(** The outer loop, fewer than [fuel] iterations; [i] is the loop variable.  Running out
    of fuel counts as a panic, which [marshalPeerIDs_eq] excludes. *)
Fixpoint marshal_loop (fuel : nat) (ids : list PeerID) (i : nat) (msgType : MsgType)
    : outcome msg_error (list bytes) :=
  match fuel with
  | O => Panic
  | S fuel =>
      if (i <? length ids)%nat then
        let e := if (length ids <? i + maxPeersPerMessage)%nat then length ids
                 else i + maxPeersPerMessage in
        let! chunk := go_slice ids i e in
        let! buf := marshal_chunk chunk msgType in
        let! rest := marshal_loop fuel ids (i + maxPeersPerMessage) msgType in
        Ok (buf :: rest)
      else Ok []
  end.

(** One iteration per id is enough: each one advances by [maxPeersPerMessage]. *)
Definition marshalPeerIDs (ids : list PeerID) (msgType : MsgType) : outcome msg_error (list bytes) :=
  if (length ids =? 0)%nat then Err ErrNoPeerIds
  else marshal_loop (S (length ids)) ids 0 msgType.

Fixpoint unmarshal_loop (n : nat) (buf : bytes) (offset : nat) : outcome msg_error (list PeerID) :=
  match n with
  | O => Ok []
  | S n =>
      let! s := go_slice buf offset (offset + peerIDSize) in
      let! id := to_PeerID s in
      let! ids := unmarshal_loop n buf (offset + peerIDSize) in
      Ok (id :: ids)
  end.

Definition unmarshalPeerIDs (buf : bytes) : outcome msg_error (list PeerID) :=
  if (length buf <? sizeOfProtoHeader)%nat then Err ErrInvalidMessageFormat
  else if negb ((length buf - sizeOfProtoHeader) mod peerIDSize =? 0)%nat
  then Err (ErrInvalidPeerListSize (length buf - sizeOfProtoHeader))
  else unmarshal_loop ((length buf - sizeOfProtoHeader) / peerIDSize) buf sizeOfProtoHeader.

Definition MarshalSubPeerStateMsg (ids : list PeerID) := marshalPeerIDs ids MsgTypeSubscribePeerState.

Definition UnmarshalSubPeerStateMsg (buf : bytes) := unmarshalPeerIDs buf.

Definition MarshalUnsubPeerStateMsg (ids : list PeerID) := marshalPeerIDs ids MsgTypeUnsubscribePeerState.

Definition UnmarshalUnsubPeerStateMsg (buf : bytes) := unmarshalPeerIDs buf.

Definition MarshalPeersOnline (ids : list PeerID) := marshalPeerIDs ids MsgTypePeersOnline.

Definition UnmarshalPeersOnlineMsg (buf : bytes) := unmarshalPeerIDs buf.

Definition MarshalPeersWentOffline (ids : list PeerID) := marshalPeerIDs ids MsgTypePeersWentOffline.

Definition UnMarshalPeersWentOffline (buf : bytes) := unmarshalPeerIDs buf.

(** ** Helper lemmas *)

Lemma length_pid p : length (pid_bytes p) = peerIDSize.
Proof. destruct p as [l H]. simpl. by apply bool_decide_unpack in H. Qed.

#[export] Hint Rewrite length_pid : len.

Ltac sizes :=
  unfold headerTotalSizeAuth, headerSizeAuth, offsetAuthPeerID, offsetMagicByte,
    headerTotalSizeTransport, headerSizeTransport, offsetTransportID, headerSizeHello,
    headerSizeHelloResp, sizeOfMagicByte, sizeOfProtoHeader, sizeOfVersionByte,
    sizeOfMsgType, peerIDSize, prefixLength, magicHeader in *.

Ltac len := autorewrite with len in *; sizes; cbn [length app Nat.add] in *; try lia.

#[global] Instance pid_bytes_inj : Inj (=) (=) pid_bytes.
Proof. intros [a Ha] [b Hb] E. simpl in E. subst. f_equal. apply proof_irrel. Qed.

Lemma mk_pid_Some l p : mk_pid l = Some p ↔ pid_bytes p = l.
Proof.
  unfold mk_pid. split.
  - case_decide as H; [|done]. by intros [= <-].
  - intros <-. case_decide as H; [f_equal; by apply (inj pid_bytes)|].
    destruct H. apply bool_decide_pack, length_pid.
Qed.

Lemma to_PeerID_pid {E} p : to_PeerID (E:=E) (pid_bytes p) = Ok p.
Proof. unfold to_PeerID. by rewrite (proj2 (mk_pid_Some _ p)). Qed.

Lemma to_PeerID_len {E} l :
  length l = peerIDSize → ∃ p, pid_bytes p = l ∧ to_PeerID (E:=E) l = Ok p.
Proof.
  intros H. unfold to_PeerID, mk_pid.
  case_decide as Hd; [by exists (l ↾ Hd)|]. destruct Hd. by apply bool_decide_pack.
Qed.

Lemma set_header_make n t :
  set_header (go_make (sizeOfProtoHeader + n)) t =
  Ok ([Z_to_byte CurrentProtocolVersion; t] ++ go_make n).
Proof. unfold set_header, go_set. by rewrite !bool_decide_true by (len; lia). Qed.

(** A block copied over a zeroed tail. *)
Lemma go_copy_make {E} pre n m src off :
  off = length pre → n = length src →
  go_copy (E:=E) (pre ++ go_make (n + m)) off src = Ok ((pre ++ src) ++ go_make m).
Proof.
  intros -> ->. rewrite go_make_app, <- app_assoc.
  apply go_copy_block; [done|]. by rewrite length_go_make.
Qed.

Lemma go_copy_make_last {E} pre src off :
  off = length pre →
  go_copy (E:=E) (pre ++ go_make (length src)) off src = Ok (pre ++ src).
Proof.
  intros ->. rewrite <- (Nat.add_0_r (length src)) at 1.
  rewrite go_copy_make by done. by rewrite app_nil_r.
Qed.

Lemma go_slice_mid {E} (pre mid suf : bytes) lo hi :
  lo = length pre → hi = length pre + length mid →
  go_slice (E:=E) (pre ++ mid ++ suf) lo hi = Ok mid.
Proof.
  intros -> ->. rewrite go_slice_ok by len.
  rewrite drop_app_length. replace (_ + _ - _) with (length mid) by lia.
  by rewrite take_app_length.
Qed.

Lemma go_from_suf {E} (pre suf : bytes) lo :
  lo = length pre → go_from (E:=E) (pre ++ suf) lo = Ok suf.
Proof. intros ->. rewrite go_from_ok by len. by rewrite drop_app_length. Qed.

(** A slice cut at two positions. *)
Lemma cut3 (l : bytes) a b :
  a ≤ b → b ≤ length l → l = take a l ++ take (b - a) (drop a l) ++ drop b l.
Proof.
  intros. rewrite <- (take_drop a l) at 1. f_equal.
  rewrite <- (take_drop (b - a) (drop a l)) at 1. rewrite drop_drop. do 2 f_equal. lia.
Qed.

(** *** Closed forms of the marshalling functions *)

Definition auth_wire (id : PeerID) (p : bytes) : bytes :=
  ([Z_to_byte CurrentProtocolVersion; MsgTypeAuth] ++ magicHeader) ++ pid_bytes id ++ p.

Definition transport_wire (id : PeerID) (p : bytes) : bytes :=
  [Z_to_byte CurrentProtocolVersion; MsgTypeTransport] ++ pid_bytes id ++ p.

Lemma MarshalAuthMsg_eq id p :
  MarshalAuthMsg id p =
  if (MaxHandshakeSize <? headerTotalSizeAuth + length p) then Err ErrTooLargeAuthPayload
  else Ok (auth_wire id p).
Proof.
  unfold MarshalAuthMsg. case_match; [done|].
  replace (headerTotalSizeAuth + length p) with
    (sizeOfProtoHeader + (length magicHeader + (peerIDSize + length p))) by (simpl; lia).
  rewrite set_header_make. cbn [obind].
  rewrite go_copy_make by done. cbn [obind].
  rewrite go_copy_make by (done || by rewrite length_pid). cbn [obind].
  rewrite go_copy_make_last by len.
  unfold auth_wire. by rewrite <- !app_assoc.
Qed.

Lemma MarshalTransportMsg_eq id p : MarshalTransportMsg id p = Ok (transport_wire id p).
Proof.
  unfold MarshalTransportMsg.
  replace (headerTotalSizeTransport + length p) with
    (sizeOfProtoHeader + (peerIDSize + length p)) by (simpl; lia).
  rewrite set_header_make. cbn [obind].
  rewrite go_copy_make by (done || by rewrite length_pid). cbn [obind].
  rewrite go_copy_make_last by len.
  unfold transport_wire. by rewrite <- !app_assoc.
Qed.

Lemma UnmarshalAuthMsg_wire id p : UnmarshalAuthMsg (auth_wire id p) = Ok (id, p).
Proof.
  unfold UnmarshalAuthMsg, auth_wire.
  destruct (_ <? _) eqn:E; [apply Nat.ltb_lt in E; len|].
  rewrite <- app_assoc, go_slice_mid by done. cbn [obind].
  rewrite bool_decide_true by done. cbn [negb].
  rewrite app_assoc, go_slice_mid by len. cbn [obind].
  rewrite to_PeerID_pid. cbn [obind].
  rewrite app_assoc, go_from_suf by len. done.
Qed.

(** *** Lists of peer ids on the wire *)

Definition ids_wire (ids : list PeerID) : bytes := concat (pid_bytes <$> ids).

Definition chunk_wire (t : MsgType) (ids : list PeerID) : bytes :=
  [Z_to_byte CurrentProtocolVersion; t] ++ ids_wire ids.

Lemma length_ids_wire ids : length (ids_wire ids) = length ids * peerIDSize.
Proof.
  unfold ids_wire. induction ids as [|id ids IH]; [done|].
  cbn [fmap list_fmap concat length]. rewrite length_app, length_pid, IH. lia.
Qed.

#[export] Hint Rewrite length_ids_wire : len.

Lemma copy_ids_eq chunk pre :
  copy_ids (pre ++ go_make (length chunk * peerIDSize)) (length pre) chunk =
  Ok (pre ++ ids_wire chunk).
Proof.
  revert pre. induction chunk as [|id chunk IH]; intros pre; [done|].
  cbn [copy_ids length]. rewrite Nat.mul_succ_l, Nat.add_comm.
  rewrite go_copy_make by (done || by rewrite length_pid). cbn [obind].
  replace (length pre + peerIDSize) with (length (pre ++ pid_bytes id)) by len.
  rewrite IH. unfold ids_wire. by rewrite <- app_assoc.
Qed.

Lemma marshal_chunk_eq chunk t : marshal_chunk chunk t = Ok (chunk_wire t chunk).
Proof. unfold marshal_chunk. rewrite set_header_make. apply copy_ids_eq. Qed.

Lemma maxPeersPerMessage_val : maxPeersPerMessage = 244.
Proof. vm_compute. done. Qed.

Lemma chunk_bounds {A} (ids : list A) i e chunk :
  i < length ids →
  e = (if length ids <? i + maxPeersPerMessage then length ids else i + maxPeersPerMessage) →
  chunk = take (e - i) (drop i ids) →
  i ≤ e ∧ e ≤ length ids ∧ 0 < length chunk ≤ maxPeersPerMessage ∧
  drop i ids = chunk ++ drop (i + maxPeersPerMessage) ids.
Proof.
  intros Hi He Hc. rewrite maxPeersPerMessage_val in *.
  destruct (_ <? _) eqn:E in He; [apply Nat.ltb_lt in E|apply Nat.ltb_ge in E]; subst e chunk.
  - rewrite take_ge by len. rewrite (drop_ge ids (i + 244)) by lia.
    rewrite app_nil_r. repeat split; len.
  - repeat split; len. replace (i + 244 - i) with 244 by lia.
    by rewrite <- drop_drop, take_drop.
Qed.

Lemma marshal_loop_eq fuel ids i t :
  length ids - i < fuel →
  ∃ chunks, marshal_loop fuel ids i t = Ok (chunk_wire t <$> chunks) ∧
    concat chunks = drop i ids ∧
    Forall (λ c, 0 < length c ≤ maxPeersPerMessage) chunks.
Proof.
  revert i. induction fuel as [|fuel IH]; intros i Hf; [lia|].
  cbn [marshal_loop]. destruct (i <? length ids) eqn:Ei.
  - apply Nat.ltb_lt in Ei.
    set (e := if length ids <? i + maxPeersPerMessage then _ else _).
    destruct (chunk_bounds ids i e _ Ei eq_refl eq_refl) as (H1 & H2 & H3 & H4).
    rewrite go_slice_ok by done. cbn [obind]. rewrite marshal_chunk_eq. cbn [obind].
    destruct (IH (i + maxPeersPerMessage)) as (cs & E & Ec & Ef).
    { rewrite maxPeersPerMessage_val. lia. }
    rewrite E. cbn [obind].
    exists (take (e - i) (drop i ids) :: cs). repeat split; [|by constructor].
    cbn [concat]. by rewrite Ec, <- H4.
  - apply Nat.ltb_ge in Ei. exists []. rewrite drop_ge by lia. done.
Qed.

(** The marshalled form of a non-empty list of ids: chunks of at most 244 ids. *)
Lemma marshalPeerIDs_eq ids t :
  ids ≠ [] →
  ∃ chunks, marshalPeerIDs ids t = Ok (chunk_wire t <$> chunks) ∧
    concat chunks = ids ∧ Forall (λ c, 0 < length c ≤ maxPeersPerMessage) chunks.
Proof.
  intros Hne. unfold marshalPeerIDs.
  destruct (length ids =? 0) eqn:E; [apply Nat.eqb_eq in E; by destruct ids|].
  apply marshal_loop_eq. lia.
Qed.

Lemma unmarshal_loop_wire ids pre suf :
  unmarshal_loop (length ids) (pre ++ ids_wire ids ++ suf) (length pre) = Ok ids.
Proof.
  revert pre. induction ids as [|id ids IH]; intros pre; [done|].
  cbn [unmarshal_loop length]. unfold ids_wire. cbn [fmap list_fmap concat].
  rewrite <- (app_assoc (pid_bytes id)).
  rewrite go_slice_mid by len. cbn [obind]. rewrite to_PeerID_pid. cbn [obind].
  specialize (IH (pre ++ pid_bytes id)). rewrite <- app_assoc, length_app, length_pid in IH.
  fold (ids_wire ids). by rewrite IH.
Qed.

Lemma unmarshalPeerIDs_wire t ids : unmarshalPeerIDs (chunk_wire t ids) = Ok ids.
Proof.
  unfold unmarshalPeerIDs, chunk_wire.
  replace (length _ - sizeOfProtoHeader) with (length ids * peerIDSize) by len.
  rewrite Nat.Div0.mod_mul, Nat.div_mul by done.
  destruct (_ <? _) eqn:E; [apply Nat.ltb_lt in E; len|]. cbn [Nat.eqb negb].
  pose proof (unmarshal_loop_wire ids [Z_to_byte CurrentProtocolVersion; t] []) as H.
  by rewrite app_nil_r in H.
Qed.

(** Any buffer with room for [n] ids decodes, to ids that re-encode to it. *)
Lemma unmarshal_loop_total n buf off :
  off + n * peerIDSize ≤ length buf →
  ∃ ids, unmarshal_loop n buf off = Ok ids ∧
    ids_wire ids = take (n * peerIDSize) (drop off buf).
Proof.
  revert off. induction n as [|n IH]; intros off H; [by exists []|].
  cbn [unmarshal_loop]. rewrite go_slice_ok by lia. cbn [obind].
  destruct (to_PeerID_len (E:=msg_error) (take (off + peerIDSize - off) (drop off buf)))
    as (p & Hp & ->); [len|]. cbn [obind].
  destruct (IH (off + peerIDSize)) as (ids & -> & Hi); [lia|]. cbn [obind].
  exists (p :: ids). split; [done|].
  unfold ids_wire in *. cbn [fmap list_fmap concat]. rewrite Hi, Hp.
  replace (off + peerIDSize - off) with peerIDSize by lia.
  rewrite <- drop_drop, Nat.mul_succ_l, Nat.add_comm, take_take_drop. done.
Qed.

Lemma unmarshalPeerIDs_cases buf :
  (∃ e, unmarshalPeerIDs buf = Err e) ∨
  (∃ ids, unmarshalPeerIDs buf = Ok ids ∧ buf = take sizeOfProtoHeader buf ++ ids_wire ids).
Proof.
  unfold unmarshalPeerIDs. destruct (_ <? _) eqn:E; [left; by eexists|].
  apply Nat.ltb_ge in E. destruct (_ =? 0) eqn:Em; cbn [negb]; [|left; by eexists].
  apply Nat.eqb_eq in Em. right.
  set (k := length buf - sizeOfProtoHeader) in *.
  pose proof (Nat.div_mod_eq k peerIDSize) as Hk. rewrite Em in Hk.
  destruct (unmarshal_loop_total (k / peerIDSize) buf sizeOfProtoHeader) as (ids & Hi & Hw); [lia|].
  exists ids. split; [done|]. rewrite Hw, (take_ge (drop _ _)); [by rewrite take_drop|].
  rewrite length_drop. fold k. lia.
Qed.

(** A received transport message of at least the header size, cut at its fields. *)
Lemma transport_cut buf :
  headerTotalSizeTransport ≤ length buf →
  ∃ h id p, buf = h ++ pid_bytes id ++ p ∧ length h = sizeOfProtoHeader.
Proof.
  intros H.
  destruct (to_PeerID_len (E:=unit) (take peerIDSize (drop sizeOfProtoHeader buf))) as (p & Hp & _).
  { len. }
  exists (take sizeOfProtoHeader buf), p, (drop headerTotalSizeTransport buf).
  split; [|len]. rewrite Hp.
  rewrite (cut3 buf sizeOfProtoHeader headerTotalSizeTransport) at 1 by (sizes; lia). done.
Qed.

Lemma UnmarshalTransportID_cut h id p :
  length h = sizeOfProtoHeader → UnmarshalTransportID (h ++ pid_bytes id ++ p) = Ok id.
Proof.
  intros H. unfold UnmarshalTransportID.
  destruct (_ <? _) eqn:E; [apply Nat.ltb_lt in E; len|].
  rewrite go_slice_mid by len. cbn [obind]. apply to_PeerID_pid.
Qed.

Lemma UpdateTransportMsg_cut h id id' p :
  length h = sizeOfProtoHeader →
  UpdateTransportMsg (h ++ pid_bytes id ++ p) id' = Ok (h ++ pid_bytes id' ++ p).
Proof.
  intros H. unfold UpdateTransportMsg.
  destruct (_ <? _) eqn:E; [apply Nat.ltb_lt in E; len|].
  by rewrite go_copy_block by len.
Qed.

Lemma UnmarshalTransportMsg_cut h id p :
  length h = sizeOfProtoHeader → UnmarshalTransportMsg (h ++ pid_bytes id ++ p) = Ok (id, p).
Proof.
  intros H. unfold UnmarshalTransportMsg.
  destruct (_ <? _) eqn:E; [apply Nat.ltb_lt in E; len|].
  rewrite go_slice_mid by len. cbn [obind]. rewrite to_PeerID_pid. cbn [obind].
  rewrite app_assoc, go_from_suf by len. done.
Qed.

Lemma UnmarshalAuthMsg_no_panic msg : no_panic (UnmarshalAuthMsg msg).
Proof.
  unfold no_panic, UnmarshalAuthMsg. destruct (_ <? _) eqn:E; [done|]. apply Nat.ltb_ge in E.
  rewrite go_slice_ok by (len; lia). cbn [obind]. case_match; [done|].
  rewrite go_slice_ok by (len; lia). cbn [obind].
  destruct (to_PeerID_len (E:=msg_error)
    (take (headerTotalSizeAuth - offsetAuthPeerID) (drop offsetAuthPeerID msg))) as (p & _ & ->); [len|].
  cbn [obind]. rewrite go_from_ok by lia. done.
Qed.

Lemma UnmarshalTransport_cases buf :
  (length buf < headerTotalSizeTransport ∧
     UnmarshalTransportID buf = Err ErrInvalidMessageLength ∧
     UnmarshalTransportMsg buf = Err ErrInvalidMessageLength ∧
     ∀ id, UpdateTransportMsg buf id = Err ErrInvalidMessageLength) ∨
  ∃ h id p, buf = h ++ pid_bytes id ++ p ∧ length h = sizeOfProtoHeader.
Proof.
  destruct (decide (headerTotalSizeTransport ≤ length buf)) as [H|H].
  { right. by apply transport_cut. }
  left. unfold UnmarshalTransportID, UnmarshalTransportMsg, UpdateTransportMsg.
  assert ((length buf <? headerTotalSizeTransport) = true) as -> by (apply Nat.ltb_lt; lia).
  assert ((length buf <? offsetTransportID + peerIDSize) = true) as ->
    by (apply Nat.ltb_lt; sizes; lia).
  repeat split; lia.
Qed.

Lemma UnmarshalTransportMsg_no_panic buf : no_panic (UnmarshalTransportMsg buf).
Proof.
  unfold no_panic. destruct (UnmarshalTransport_cases buf) as [(_&_&->&_)|(h&id&p&->&Hh)]; [done|].
  by rewrite UnmarshalTransportMsg_cut.
Qed.

Lemma UnmarshalHelloMsg_no_panic msg : no_panic (UnmarshalHelloMsg msg).
Proof.
  unfold no_panic, UnmarshalHelloMsg. destruct (_ <? _) eqn:E; [done|]. apply Nat.ltb_ge in E.
  rewrite go_slice_ok by (len; lia). cbn [obind]. case_match; [done|].
  rewrite go_slice_ok by (len; lia). cbn [obind].
  destruct (to_PeerID_len (E:=msg_error)
    (take (sizeOfProtoHeader + headerSizeHello - (sizeOfProtoHeader + sizeOfMagicByte))
      (drop (sizeOfProtoHeader + sizeOfMagicByte) msg))) as (p & _ & ->); [len|].
  cbn [obind]. rewrite go_from_ok by (sizes; lia). done.
Qed.

Lemma header_checks msg :
  (length msg < sizeOfProtoHeader ∧ ValidateVersion msg = Err ErrInvalidMessageLength ∧
     DetermineClientMessageType msg = Err ErrInvalidMessageLength ∧
     DetermineServerMessageType msg = Err ErrInvalidMessageLength) ∨
  ∃ v t rest, msg = v :: t :: rest ∧
    ValidateVersion msg = (if (byte_to_Z v =? CurrentProtocolVersion)%Z
                           then Ok (byte_to_Z v) else Err (ErrUnsupportedVersion (byte_to_Z v))) ∧
    DetermineClientMessageType msg = (if is_client_type t then Ok t else Err (ErrInvalidMsgType t)) ∧
    DetermineServerMessageType msg = (if is_server_type t then Ok t else Err (ErrInvalidMsgType t)).
Proof.
  destruct msg as [|v [|t rest]]; [left; repeat split; cbn; sizes; lia..|].
  right. exists v, t, rest.
  repeat split. unfold ValidateVersion. cbn. by destruct (_ =? _)%Z.
Qed.

(** ** Properties *)

(** an authentication message round-trips.  [MarshalAuthMsg] succeeds
    exactly when header and payload fit [MaxHandshakeSize]; the message then
    has exactly that size, carries the current version and the auth type, and
    [UnmarshalAuthMsg] returns the peer id and the payload; a larger payload is
    rejected. *)
Theorem auth_msg_roundtrip (id : PeerID) (payload : bytes) :
  match MarshalAuthMsg id payload with
  | Ok msg =>
      headerTotalSizeAuth + length payload ≤ MaxHandshakeSize ∧
      length msg = headerTotalSizeAuth + length payload ∧
      ValidateVersion msg = Ok CurrentProtocolVersion ∧
      DetermineClientMessageType msg = Ok MsgTypeAuth ∧
      UnmarshalAuthMsg msg = Ok (id, payload)
  | Err e => e = ErrTooLargeAuthPayload ∧ MaxHandshakeSize < headerTotalSizeAuth + length payload
  | Panic => False
  end.
Proof.
  rewrite MarshalAuthMsg_eq. destruct (_ <? _) eqn:E.
  - by apply Nat.ltb_lt in E.
  - apply Nat.ltb_ge in E. repeat split; [done| |apply UnmarshalAuthMsg_wire].
    unfold auth_wire. len.
Qed.

(** [UpdateTransportMsg] rewrites the id in place and nothing else.  On a
    buffer that decodes, the result decodes to the new id with the same
    payload and header and has the same length; on a shorter buffer it reports
    the length error. *)
Theorem update_transport_msg_spec (buf : bytes) (new : PeerID) :
  match UnmarshalTransportMsg buf with
  | Ok (old, payload) =>
      ∃ buf', UpdateTransportMsg buf new = Ok buf' ∧
        UnmarshalTransportMsg buf' = Ok (new, payload) ∧
        take sizeOfProtoHeader buf' = take sizeOfProtoHeader buf ∧
        length buf' = length buf
  | Err e => e = ErrInvalidMessageLength ∧ UpdateTransportMsg buf new = Err ErrInvalidMessageLength
  | Panic => False
  end.
Proof.
  destruct (UnmarshalTransport_cases buf) as [(_&_&->&->)|(h&id&p&->&Hh)]; [done|].
  rewrite UnmarshalTransportMsg_cut by done. exists (h ++ pid_bytes new ++ p).
  rewrite UpdateTransportMsg_cut, UnmarshalTransportMsg_cut by done.
  rewrite <- Hh, !take_app_length. repeat split. len.
Qed.

(** a list of peer ids round-trips through the chunked peer-state messages.
    A non-empty list is split into messages of the requested type, none of
    them empty or larger than [MaxMessageSize], and decoding them in order
    gives back the list; an empty list is an error. *)
Theorem peer_ids_roundtrip (ids : list PeerID) (t : MsgType) :
  match marshalPeerIDs ids t with
  | Ok msgs =>
      ∃ chunks, Forall2 (λ m c, unmarshalPeerIDs m = Ok c ∧ c ≠ [] ∧
                                length m ≤ MaxMessageSize ∧ m !! 1 = Some t) msgs chunks ∧
        concat chunks = ids
  | Err e => e = ErrNoPeerIds ∧ ids = []
  | Panic => False
  end.
Proof.
  destruct (decide (ids = [])) as [->|Hne]; [done|].
  destruct (marshalPeerIDs_eq ids t Hne) as (chunks & -> & Hc & Hf).
  exists chunks. split; [|done]. apply Forall2_fmap_l, Forall_Forall2_diag.
  eapply Forall_impl; [exact Hf|]. intros c [H1 H2].
  split; [apply unmarshalPeerIDs_wire|]. split; [intros ->; simpl in H1; lia|].
  split; [|done]. unfold chunk_wire. rewrite maxPeersPerMessage_val in H2.
  assert (MaxMessageSize = 2 + 36 * 244 + 34) as -> by (vm_compute; done). len.
Qed.

(** no message from the network can make a decoder panic: on every byte
    sequence, header inspection and all Unmarshal functions return a value or
    an error, so every index and slice expression is in range. *)
Theorem decoders_never_panic (msg : bytes) :
  no_panic (ValidateVersion msg) ∧ no_panic (DetermineClientMessageType msg) ∧
  no_panic (DetermineServerMessageType msg) ∧ no_panic (UnmarshalHelloMsg msg) ∧
  no_panic (UnmarshalAuthMsg msg) ∧ no_panic (UnmarshalAuthResponse msg) ∧
  no_panic (UnmarshalTransportMsg msg) ∧ no_panic (UnmarshalTransportID msg) ∧
  (∀ id, no_panic (UpdateTransportMsg msg id)) ∧ no_panic (unmarshalPeerIDs msg) ∧
  no_panic (UnmarshalHelloResponse msg).
Proof.
  assert (no_panic (ValidateVersion msg) ∧ no_panic (DetermineClientMessageType msg) ∧
          no_panic (DetermineServerMessageType msg)) as (H1 & H2 & H3).
  { unfold no_panic. destruct (header_checks msg) as [(_&->&->&->)|(v&t&r&->&->&->&->)];
      repeat split; by repeat case_if. }
  split_and!; try done; try apply UnmarshalHelloMsg_no_panic; try apply UnmarshalAuthMsg_no_panic;
    try apply UnmarshalTransportMsg_no_panic; unfold no_panic.
  - unfold UnmarshalAuthResponse. destruct (_ <? _) eqn:E; [done|]. apply Nat.ltb_ge in E.
    rewrite go_from_ok by lia. done.
  - destruct (UnmarshalTransport_cases msg) as [(_&->&_)|(h&id&p&->&Hh)]; [done|].
    by rewrite UnmarshalTransportID_cut.
  - intros new. destruct (UnmarshalTransport_cases msg) as [(_&_&_&->)|(h&id&p&->&Hh)]; [done|].
    by rewrite UpdateTransportMsg_cut.
  - destruct (unmarshalPeerIDs_cases msg) as [[e ->]|[ids [-> _]]]; done.
  - unfold UnmarshalHelloResponse. by destruct (_ <? _).
Qed.

(** the deprecated hello message does not round-trip.  [UnmarshalHelloMsg]
    returns the peer id, but takes the additional data from offset
    [headerSizeHello] instead of [sizeOfProtoHeader + headerSizeHello], so the
    data it returns is preceded by the last two bytes of the peer id. *)
Theorem hello_msg_additions_shifted (id : PeerID) (additions : bytes) :
  ∃ msg, MarshalHelloMsg id additions = Ok msg ∧
    DetermineClientMessageType msg = Ok MsgTypeHello ∧
    UnmarshalHelloMsg msg = Ok (id, drop (peerIDSize - 2) (pid_bytes id) ++ additions).
Proof.
  set (h := [Z_to_byte CurrentProtocolVersion; MsgTypeHello] ++ magicHeader).
  exists (h ++ pid_bytes id ++ additions). split; [done|]. split; [done|].
  unfold UnmarshalHelloMsg. destruct (_ <? _) eqn:E; [apply Nat.ltb_lt in E; subst h; len|].
  unfold h at 1. rewrite <- app_assoc, go_slice_mid by done. cbn [obind].
  rewrite bool_decide_true by done. cbn [negb].
  rewrite go_slice_mid by (subst h; len). cbn [obind]. rewrite to_PeerID_pid. cbn [obind].
  rewrite <- (take_drop (peerIDSize - 2) (pid_bytes id)) at 1.
  rewrite <- app_assoc, (app_assoc h), go_from_suf by (subst h; len). done.
Qed.
