(* ===== verification/RelayAuth.v ===== *)
(** * Relay authentication tokens

    Time-limited HMAC tokens ([shared/relay/auth]): the management server issues
    a token with [TimedHMAC.GenerateToken], the client stores its binary form in
    a [TokenStore], and the relay server checks it with the version 2
    [Validator].  The theorems characterise what the validator accepts and
    prove that an issued token is accepted exactly until its expiry. *)

From stdpp Require Import base list strings.
From S2P Require Import Prelude GoStd.

#[local] Open Scope go_scope.

(** The dynamic type switch on [any] in the validators. *)
Inductive any :=
| AnyBytes (b : bytes)
| AnyOther.

Inductive auth_error :=
| ErrInvalidDataType
| ErrInvalidTokenData
| ErrInsufficientLength
| ErrPayloadLength
| ErrUnsupportedAlgo (a : byte)
| ErrInvalidSignature
| ErrInvalidPayload
| ErrExpiredToken
| ErrDecodeSignature
| ErrGob.

(** A hash constructor ([func() hash.Hash]) is used only through [hmac.New], so
    it is represented by the HMAC it yields. *)
Definition hash_algo : Type := bytes → bytes → bytes.

(** ** v2: algo.go, token.go, generator.go, validator.go *)

Module V2.

(** [type AuthAlgo uint8] *)
Definition AuthAlgo := byte.

Definition AuthAlgoUnknown : AuthAlgo := Byte.x00.

Definition AuthAlgoHMACSHA256 : AuthAlgo := Byte.x01.

Definition AuthAlgo_String (a : AuthAlgo) : string :=
  if bool_decide (a = AuthAlgoHMACSHA256) then "HMAC-SHA256"%string else "Unknown"%string.

Definition AuthAlgo_New (a : AuthAlgo) : option hash_algo :=
  if bool_decide (a = AuthAlgoHMACSHA256) then Some hmac_sha256 else None.

(** [sha256.Size] is 32. *)
Definition AuthAlgo_Size (a : AuthAlgo) : nat :=
  if bool_decide (a = AuthAlgoHMACSHA256) then 32%nat else 0%nat.

Record Token := mkToken {
  tok_AuthAlgo : AuthAlgo;
  tok_Signature : bytes;
  tok_Payload : bytes;
}.

Definition Token_Marshal (t : Token) : outcome auth_error bytes :=
  let size := (1 + length (tok_Signature t) + length (tok_Payload t))%nat in
  let! buf := go_set (go_make size) 0 (tok_AuthAlgo t) in
  let! buf := go_copy buf 1 (tok_Signature t) in
  go_copy buf (1 + length (tok_Signature t)) (tok_Payload t).

Definition UnmarshalToken (data : bytes) : outcome auth_error Token :=
  if (length data =? 0)%nat then Err ErrInvalidTokenData
  else
    let! algo := go_index data 0 in
    let sigSize := AuthAlgo_Size algo in
    if (length data <? 1 + sigSize)%nat then Err ErrInsufficientLength
    else
      let! sig := go_slice data 1 (1 + sigSize) in
      let! payload := go_from data (1 + sigSize) in
      Ok (mkToken algo sig payload).

Record Generator := mkGenerator {
  gen_algo : hash_algo;
  gen_algoType : AuthAlgo;
  gen_secret : bytes;
  gen_timeToLive : Z;
}.

Definition NewGenerator (algo : AuthAlgo) (secret : bytes) (timeToLive : Z)
    : outcome auth_error Generator :=
  match AuthAlgo_New algo with
  | None => Err (ErrUnsupportedAlgo algo)
  | Some f => Ok (mkGenerator f algo secret timeToLive)
  end.

Definition Generator_GenerateToken (now : Z) (g : Generator) : Token :=
  let expirationTime := time_Unix (now + gen_timeToLive g) in
  let payload := FormatInt expirationTime in
  let signature := gen_algo g (gen_secret g) payload in
  mkToken (gen_algoType g) signature payload.

Definition minLengthUnixTimestamp : nat := 10.

Record Validator := mkValidator { val_secret : bytes }.

Definition NewValidator (secret : bytes) : Validator := mkValidator secret.

Definition Validate (now : Z) (v : Validator) (data : any) : outcome auth_error unit :=
  match data with
  | AnyOther => Err ErrInvalidDataType
  | AnyBytes d =>
      let! token := UnmarshalToken d in
      if (length (tok_Payload token) <? minLengthUnixTimestamp)%nat then Err ErrPayloadLength
      else
        match AuthAlgo_New (tok_AuthAlgo token) with
        | None => Err (ErrUnsupportedAlgo (tok_AuthAlgo token))
        | Some hashFunc =>
            let expectedMAC := hashFunc (val_secret v) (tok_Payload token) in
            if negb (bool_decide (tok_Signature token = expectedMAC)) then Err ErrInvalidSignature
            else
              match ParseInt (tok_Payload token) with
              | None => Err ErrInvalidPayload
              | Some timestamp =>
                  if timestamp <? time_Unix now then Err ErrExpiredToken else Ok tt
              end
        end
  end.

End V2.

(** ** hmac: token.go, validator.go, store.go *)

Record Token := mkToken { Payload : string; Signature : string }.

Record TimedHMAC := mkTimedHMAC { secret : string; timeToLive : Z }.

Definition NewTimedHMAC (s : string) (ttl : Z) : TimedHMAC := mkTimedHMAC s ttl.

Definition generate (m : TimedHMAC) (algo : hash_algo) (payload : string) : bytes :=
  algo (string_to_bytes (secret m)) (string_to_bytes payload).

Definition GenerateToken (now : Z) (m : TimedHMAC) (algo : hash_algo) : Token :=
  let timeAuth := time_Unix (now + timeToLive m) in
  let timeStamp := bytes_to_string (FormatInt timeAuth) in
  let checksum := generate m algo timeStamp in
  mkToken timeStamp (bytes_to_string (b64_encode checksum)).

Definition Validate (now : Z) (m : TimedHMAC) (algo : hash_algo) (token : Token)
    : outcome auth_error unit :=
  let expectedMAC := generate m algo (Payload token) in
  let expectedSignature := bytes_to_string (b64_encode expectedMAC) in
  if negb (bool_decide (expectedSignature = Signature token)) then Err ErrInvalidSignature
  else
    match ParseInt (string_to_bytes (Payload token)) with
    | None => Err ErrInvalidPayload
    | Some timeAuthInt => if timeAuthInt <? time_Unix now then Err ErrExpiredToken else Ok tt
    end.

(** [encoding/gob] decoding of a [Token] is a parameter. *)
Definition TimedHMACValidator_Validate (unmarshalToken : bytes → option Token)
    (now : Z) (a : TimedHMAC) (credentials : any) : outcome auth_error unit :=
  match credentials with
  | AnyOther => Err ErrInvalidDataType
  | AnyBytes b =>
      match unmarshalToken b with
      | None => Err ErrGob
      | Some c => Validate now a hmac_sha256 c
      end
  end.

(** The token store of the client; [token] is nil until the first update. *)
Record TokenStore := mkTokenStore { store_token : option bytes }.

Definition UpdateToken (a : TokenStore) (token : option Token) : outcome auth_error TokenStore :=
  match token with
  | None => Ok a
  | Some t =>
      match b64_decode (string_to_bytes (Signature t)) with
      | None => Err ErrDecodeSignature
      | Some sig =>
          let! b := V2.Token_Marshal
                      (V2.mkToken V2.AuthAlgoHMACSHA256 sig (string_to_bytes (Payload t))) in
          Ok (mkTokenStore (Some b))
      end
  end.

Definition TokenBinary (a : TokenStore) : bytes := default [] (store_token a).

(** ** auth/validator.go: the validator of the relay server *)

Record TimedHMACValidator := mkTimedHMACValidator {
  authenticatorV2 : V2.Validator;
  authenticator : TimedHMAC;
}.

Definition NewTimedHMACValidator (s : bytes) (duration : Z) : TimedHMACValidator :=
  mkTimedHMACValidator (V2.NewValidator s) (NewTimedHMAC (bytes_to_string s) duration).

Definition Relay_Validate (now : Z) (a : TimedHMACValidator) (credentials : any)
    : outcome auth_error unit :=
  V2.Validate now (authenticatorV2 a) credentials.

Definition Relay_ValidateHelloMsgType (unmarshalToken : bytes → option Token) (now : Z)
    (a : TimedHMACValidator) (credentials : any) : outcome auth_error unit :=
  TimedHMACValidator_Validate unmarshalToken now (authenticator a) credentials.

(** ** Lemmas *)

Definition token_wire (t : V2.Token) : bytes :=
  V2.tok_AuthAlgo t :: V2.tok_Signature t ++ V2.tok_Payload t.

Lemma Token_Marshal_eq t : V2.Token_Marshal t = Ok (token_wire t).
Proof.
  unfold V2.Token_Marshal, token_wire. destruct t as [a s p].
  cbn [V2.tok_AuthAlgo V2.tok_Signature V2.tok_Payload]. unfold go_set.
  rewrite bool_decide_true by (rewrite length_go_make; lia). cbn [obind].
  change (<[0%nat:=a]> (go_make (1 + length s + length p))) with ([a] ++ go_make (length s + length p)).
  rewrite go_make_app, go_copy_block by (done || by rewrite length_go_make). cbn [obind].
  rewrite <- (app_nil_r (go_make (length p))), app_assoc, go_copy_block
    by (done || by rewrite length_go_make).
  by rewrite app_nil_r, <- app_assoc.
Qed.

Lemma UnmarshalToken_cons a rest :
  V2.UnmarshalToken (a :: rest) =
  if (length rest <? V2.AuthAlgo_Size a)%nat then Err ErrInsufficientLength
  else Ok (V2.mkToken a (take (V2.AuthAlgo_Size a) rest) (drop (V2.AuthAlgo_Size a) rest)).
Proof.
  unfold V2.UnmarshalToken. cbn [length Nat.eqb]. cbn [go_index lookup list_lookup obind].
  change (S (length rest) <? 1 + V2.AuthAlgo_Size a)%nat with (length rest <? V2.AuthAlgo_Size a)%nat.
  destruct (_ <? _)%nat eqn:E; [done|]. apply Nat.ltb_ge in E.
  rewrite go_slice_ok by (simpl; lia). cbn [obind].
  rewrite go_from_ok by (simpl; lia). cbn [obind drop].
  do 2 f_equal. f_equal. lia.
Qed.

Lemma UnmarshalToken_wire p s :
  length s = 32%nat →
  V2.UnmarshalToken (token_wire (V2.mkToken V2.AuthAlgoHMACSHA256 s p)) =
  Ok (V2.mkToken V2.AuthAlgoHMACSHA256 s p).
Proof.
  intros H. unfold token_wire. cbn [V2.tok_AuthAlgo V2.tok_Signature V2.tok_Payload].
  rewrite UnmarshalToken_cons. change (V2.AuthAlgo_Size V2.AuthAlgoHMACSHA256) with 32%nat.
  rewrite length_app, H. rewrite (proj2 (Nat.ltb_ge _ _)) by lia.
  by rewrite <- H, take_app_length, drop_app_length.
Qed.

(** The verdict on a token whose signature is the expected one. *)
Lemma Validate_signed now v p :
  (10 ≤ length p)%nat →
  V2.Validate now v
    (AnyBytes (token_wire (V2.mkToken V2.AuthAlgoHMACSHA256 (hmac_sha256 (V2.val_secret v) p) p))) =
  match ParseInt p with
  | None => Err ErrInvalidPayload
  | Some ts => if ts <? time_Unix now then Err ErrExpiredToken else Ok tt
  end.
Proof.
  intros Hp. unfold V2.Validate. rewrite UnmarshalToken_wire by apply length_hmac_sha256.
  cbn [obind V2.tok_AuthAlgo V2.tok_Signature V2.tok_Payload].
  unfold V2.minLengthUnixTimestamp. rewrite (proj2 (Nat.ltb_ge _ _)) by lia.
  unfold V2.AuthAlgo_New. rewrite bool_decide_true by done.
  by rewrite bool_decide_true by done.
Qed.

Lemma UnmarshalToken_inv d t :
  V2.UnmarshalToken d = Ok t → d = token_wire t ∧ length (V2.tok_Signature t) = V2.AuthAlgo_Size (V2.tok_AuthAlgo t).
Proof.
  destruct d as [|a rest]; [done|]. rewrite UnmarshalToken_cons.
  destruct (_ <? _)%nat eqn:E; [done|]. apply Nat.ltb_ge in E. intros H. inv_ok.
  unfold token_wire. cbn [V2.tok_AuthAlgo V2.tok_Signature V2.tok_Payload].
  rewrite take_drop, length_take. split; [done|lia].
Qed.

(** A token issued, stored and validated under one secret. *)
Lemma issued_token_accept (key : bytes) (ttl t0 now : Z) (st : TokenStore)
  (Hexp : 10 ^ 9 ≤ time_Unix (t0 + ttl) < 2 ^ 63) :
  ∃ g st', V2.NewGenerator V2.AuthAlgoHMACSHA256 key ttl = Ok g ∧
    let tok := V2.Generator_GenerateToken t0 g in
    UpdateToken st (Some (mkToken (bytes_to_string (V2.tok_Payload tok))
                            (bytes_to_string (b64_encode (V2.tok_Signature tok))))) = Ok st' ∧
    (length (TokenBinary st') ≤ 53)%nat ∧
    V2.Validate now (V2.NewValidator key) (AnyBytes (TokenBinary st')) =
      (if time_Unix (t0 + ttl) <? time_Unix now then Err ErrExpiredToken else Ok tt).
Proof.
  set (p := FormatInt (time_Unix (t0 + ttl))).
  set (w := token_wire (V2.mkToken V2.AuthAlgoHMACSHA256 (hmac_sha256 key p) p)).
  exists (V2.mkGenerator hmac_sha256 V2.AuthAlgoHMACSHA256 key ttl), (mkTokenStore (Some w)).
  split; [done|]. cbv zeta. unfold V2.Generator_GenerateToken.
  cbn [V2.tok_Payload V2.tok_Signature V2.gen_algo V2.gen_secret V2.gen_timeToLive].
  fold p. split.
  { unfold UpdateToken. cbn [Signature Payload].
    rewrite !string_to_bytes_to_string, b64_decode_encode, Token_Marshal_eq. done. }
  cbn [TokenBinary store_token default]. split.
  - unfold w, token_wire. cbn [length V2.tok_AuthAlgo V2.tok_Signature V2.tok_Payload].
    unfold TokenBinary. simpl. rewrite length_app, length_hmac_sha256.
    enough (length p ≤ 20)%nat by lia. unfold p. apply length_FormatInt_le. lia.
  - etrans; [apply (Validate_signed now (V2.NewValidator key) p), length_FormatInt_ts; lia|].
    unfold p. by rewrite ParseInt_FormatInt by lia.
Qed.

(** ** Properties *)

(** what the relay validator accepts.  A credential is accepted iff it is
    the algorithm byte 1 followed by the HMAC-SHA256 of the payload under the
    relay secret and by the payload, where the payload has at least ten bytes,
    reads as a decimal [int64] and is not in the past; in particular no token
    with a signature made without the secret's HMAC is accepted. *)
Theorem relay_validate_iff (now : Z) (v : V2.Validator) (cred : any) :
  V2.Validate now v cred = Ok tt ↔
  ∃ payload ts,
    cred = AnyBytes (Byte.x01 :: hmac_sha256 (V2.val_secret v) payload ++ payload) ∧
    (V2.minLengthUnixTimestamp ≤ length payload)%nat ∧
    ParseInt payload = Some ts ∧ time_Unix now ≤ ts.
Proof.
  split.
  - destruct cred as [d|]; [|done]. unfold V2.Validate.
    destruct (V2.UnmarshalToken d) as [t|e|] eqn:Et; [|done..]. cbn [obind].
    apply UnmarshalToken_inv in Et as [-> _].
    destruct (_ <? _)%nat eqn:El; [done|]. apply Nat.ltb_ge in El.
    unfold V2.AuthAlgo_New. case_bool_decide as Ha; [|done].
    case_bool_decide as Hs; cbn [negb]; [|done].
    destruct (ParseInt _) as [ts|] eqn:Ep; [|done].
    destruct (ts <? _) eqn:Els; bool_facts; [done|]. intros _.
    exists (V2.tok_Payload t), ts. split; [|done].
    destruct t as [a s p]. cbn in *. by subst.
  - intros (p & ts & -> & Hl & Hp & Ht).
    etrans; [apply (Validate_signed now v p Hl)|].
    rewrite Hp. by rewrite (proj2 (Z.ltb_ge _ _)).
Qed.
