(* ===== verification/RelayServer.v ===== *)
(** * The relay server

    Peer store, peer-state listeners, handshake and message handling of the
    relay server ([relay/server]: store/store.go, store/listener.go,
    store/notifier.go, handshake.go, peer.go, relay.go).  Each function is
    one definition; the server is a transition system whose steps are the
    handling of one message, one listener batch, one notification round and the
    stages of [Accept] and [Shutdown], and goroutines interleave between
    them.  (Two handlers can also overlap between a store lookup and the write
    that follows; a peer replaced in between is closed before, so the write
    fails.  The locks inside a notification round are the subject of
    [RelayLocks].)  A connection, the [Peer] object made for it and the listener the
    peer creates are one-to-one, and share one number. *)

From stdpp Require Import base list gmap strings.
From S2P Require Import Prelude RelayMessages RelayAuth.

(** ** listener.go *)

Record event := mkEvent { ev_peerID : PeerID; ev_online : bool }.

Record Listener := mkListener {
  lst_done : bool;
  eventChan : list event;
  interestedPeersForOffline : gset PeerID;
  interestedPeersForOnline : gset PeerID;
}.

(** [make(chan *event, 244)] *)
Definition eventChanCap : nat := 244.

Definition newListener : Listener := mkListener false [] ∅ ∅.

Definition AddInterestedPeers (l : Listener) (peerIDs : list PeerID) : Listener :=
  foldl (λ l id, mkListener (lst_done l) (eventChan l)
                   ({[id]} ∪ interestedPeersForOffline l) ({[id]} ∪ interestedPeersForOnline l))
    l peerIDs.

Definition RemoveInterestedPeer (l : Listener) (peerIDs : list PeerID) : Listener :=
  foldl (λ l id, mkListener (lst_done l) (eventChan l)
                   (interestedPeersForOffline l ∖ {[id]}) (interestedPeersForOnline l ∖ {[id]}))
    l peerIDs.

(** The [select] between sending on [eventChan] and [ctx.Done()]: [None] when
    the channel is full and the context is live, so the sender blocks. *)
Definition send_event (l : Listener) (e : event) : option Listener :=
  if lst_done l then Some l
  else if (length (eventChan l) <? eventChanCap)%nat
  then Some (mkListener (lst_done l) (eventChan l ++ [e])
               (interestedPeersForOffline l) (interestedPeersForOnline l))
  else None.

Definition peerWentOffline (id : PeerID) (l : Listener) : option Listener :=
  if bool_decide (id ∈ interestedPeersForOffline l) then send_event l (mkEvent id false) else Some l.

Definition peerComeOnline (id : PeerID) (l : Listener) : option Listener :=
  if bool_decide (id ∈ interestedPeersForOnline l) then
    l ← send_event l (mkEvent id true);
    Some (mkListener (lst_done l) (eventChan l)
            (interestedPeersForOffline l) (interestedPeersForOnline l ∖ {[id]}))
  else Some l.

Definition collect (online : bool) (es : list event) : list PeerID :=
  ev_peerID <$> filter (λ e, ev_online e = online) es.

(** One iteration of [listenForEvents]: the first event and then everything in
    the channel; the arguments of [onPeersComeOnline] and [onPeersWentOffline],
    which are called in this order when not empty.  [None] when no event is
    there to receive. *)
Definition listenForEvents (l : Listener) : option (Listener * list PeerID * list PeerID) :=
  match eventChan l with
  | [] => None
  | es => Some (mkListener (lst_done l) [] (interestedPeersForOffline l) (interestedPeersForOnline l),
                collect true es, collect false es)
  end.

(** ** notifier.go *)

Definition NotifyAll (f : Listener → option Listener) (ls : gmap nat Listener)
    : option (gmap nat Listener) :=
  if bool_decide (map_Forall (λ _ l, is_Some (f l)) ls) then Some (omap f ls) else None.

Definition PeerWentOffline (id : PeerID) := NotifyAll (peerWentOffline id).

Definition PeerCameOnline (id : PeerID) := NotifyAll (peerComeOnline id).

(** ** handshake.go *)

(** The [Validator] interface. *)
Record Validator := mkValidator {
  v_Validate : any → outcome auth_error unit;
  v_ValidateHelloMsgType : any → outcome auth_error unit;
}.

Inductive hs_error :=
| HsRead
| HsMsg (e : msg_error)
| HsInvalidType (t : MsgType)
| HsGob
| HsValidate (e : auth_error).

Record preparedMsg := mkPrepared { responseHelloMsg : bytes; responseAuthMsg : bytes }.

Section Handshake.

(** [encoding/gob] decoding of the deprecated [auth.Msg]: its [AdditionalData]. *)
Context (gobMsg : bytes → option bytes).

(** [handleHelloMsg] and [handleAuthMsg]: the peer id reported with an error, if
    any, and the error. *)
Definition handleHelloMsg (v : Validator) (buf : bytes) : outcome (option PeerID * hs_error) PeerID :=
  match UnmarshalHelloMsg buf with
  | Panic => Panic
  | Err e => Err (None, HsMsg e)
  | Ok (peerID, authData) =>
      match gobMsg authData with
      | None => Err (None, HsGob)
      | Some additional =>
          match v_ValidateHelloMsgType v (AnyBytes additional) with
          | Panic => Panic
          | Err e => Err (None, HsValidate e)
          | Ok _ => Ok peerID
          end
      end
  end.

Definition handleAuthMsg (v : Validator) (buf : bytes) : outcome (option PeerID * hs_error) PeerID :=
  match UnmarshalAuthMsg buf with
  | Panic => Panic
  | Err e => Err (None, HsMsg e)
  | Ok (rawPeerID, authPayload) =>
      match v_Validate v (AnyBytes authPayload) with
      | Panic => Panic
      | Err e => Err (Some rawPeerID, HsValidate e)
      | Ok _ => Ok rawPeerID
      end
  end.

(** [handshakeReceive] on the data read from the connection ([None] for a read
    error); the buffer has [MaxHandshakeSize] bytes.  The result carries
    [handshakeMethodAuth]. *)
Definition handshakeReceive (v : Validator) (data : option bytes)
    : outcome (option PeerID * hs_error) (bool * PeerID) :=
  match data with
  | None => Err (None, HsRead)
  | Some d =>
      let buf := take MaxHandshakeSize d in
      match ValidateVersion buf with
      | Panic => Panic
      | Err e => Err (None, HsMsg e)
      | Ok _ =>
          match DetermineClientMessageType buf with
          | Panic => Panic
          | Err e => Err (None, HsMsg e)
          | Ok msgType =>
              if bool_decide (msgType = MsgTypeHello) then
                obind (handleHelloMsg v buf) (λ id, Ok (false, id))
              else if bool_decide (msgType = MsgTypeAuth) then
                obind (handleAuthMsg v buf) (λ id, Ok (true, id))
              else Err (None, HsInvalidType msgType)
          end
      end
  end.

(** [marshalResponseHelloMsg], where [addrMarshal] is the gob encoding of an
    [Address] ([None] for an encoding error). *)
Definition marshalResponseHelloMsg (addrMarshal : string → option bytes) (instanceURL : string)
    : outcome hs_error bytes :=
  match addrMarshal instanceURL with
  | None => Err HsGob
  | Some addrData => omap_err HsMsg (MarshalHelloResponse addrData)
  end.

Definition newPreparedMsg (addrMarshal : string → option bytes) (instanceURL : string)
    : outcome hs_error preparedMsg :=
  obind (marshalResponseHelloMsg addrMarshal instanceURL) (λ rhm,
  obind (omap_err HsMsg (MarshalAuthResponse instanceURL)) (λ ram,
  Ok (mkPrepared rhm ram))).

(** The message [handshakeResponse] writes. *)
Definition handshakeResponse (p : preparedMsg) (handshakeMethodAuth : bool) : bytes :=
  if handshakeMethodAuth then responseAuthMsg p else responseHelloMsg p.

(** ** peer.go, relay.go: the state *)

(** Where the goroutine of [Relay.Accept] for one connection stands: after
    [AddPeer]; after [PeerCameOnline], about to run [Work]; in the loop of
    [Work]; after [Work] has returned; after a [DeletePeer] that returned
    true; at its end. *)
Inductive phase := Stored | Notified | Running | Exited | Deleted | Done.

Record Peer := mkPeer {
  p_id : PeerID;
  p_phase : phase;
  p_ctxDone : bool;
  p_connOpen : bool;
  p_out : list bytes;
  p_hcAck : bool;
  p_respond : option bool;
}.

(** The state of [closeMu] and [closed]: [Accept] holds the read lock while it
    runs, [Shutdown] holds the write lock while its goroutines close the peers
    of its snapshot of the store; [Closed] is [closed = true]. *)
Inductive shutdown := Open | Closing (pending : gset nat) | Closed.

Record Relay := mkRelay {
  r_objs : gmap nat Peer;
  r_store : gmap PeerID nat;
  r_listeners : gmap nat Listener;
  r_prepared : preparedMsg;
  r_shutdown : shutdown;
}.

Definition set_phase (ph : phase) (p : Peer) : Peer :=
  mkPeer (p_id p) ph (p_ctxDone p) (p_connOpen p) (p_out p) (p_hcAck p) (p_respond p).

Definition set_objs (r : Relay) (m : gmap nat Peer) : Relay :=
  mkRelay m (r_store r) (r_listeners r) (r_prepared r) (r_shutdown r).

Definition set_store (r : Relay) (m : gmap PeerID nat) : Relay :=
  mkRelay (r_objs r) m (r_listeners r) (r_prepared r) (r_shutdown r).

Definition set_listeners (r : Relay) (m : gmap nat Listener) : Relay :=
  mkRelay (r_objs r) (r_store r) m (r_prepared r) (r_shutdown r).

Definition set_shutdown (r : Relay) (x : shutdown) : Relay :=
  mkRelay (r_objs r) (r_store r) (r_listeners r) (r_prepared r) x.

Definition upd_peer (r : Relay) (c : nat) (f : Peer → Peer) : Relay :=
  set_objs r (alter f c (r_objs r)).

(** [p.conn.Write]: a closed connection or a cancelled context is a write error,
    which the callers log; on an open connection the bytes are sent. *)
Definition conn_write (b : bytes) (p : Peer) : Peer :=
  if p_connOpen p && negb (p_ctxDone p) then
    mkPeer (p_id p) (p_phase p) (p_ctxDone p) (p_connOpen p) (p_out p ++ [b]) (p_hcAck p) (p_respond p)
  else p.

Definition conn_close (p : Peer) : Peer :=
  mkPeer (p_id p) (p_phase p) (p_ctxDone p) false (p_out p) (p_hcAck p) (p_respond p).

Definition ctx_cancel (p : Peer) : Peer :=
  mkPeer (p_id p) (p_phase p) true (p_connOpen p) (p_out p) (p_hcAck p) (p_respond p).

(** [Peer.Close] *)
Definition Peer_Close (p : Peer) : Peer := conn_close (ctx_cancel p).

(** [Peer.CloseGracefully]: the close message (written under the caller's
    context, not the peer's), then [Close]. *)
Definition CloseGracefully (p : Peer) : Peer :=
  let q := if p_connOpen p then
             mkPeer (p_id p) (p_phase p) (p_ctxDone p) (p_connOpen p) (p_out p ++ [MarshalCloseMsg])
               (p_hcAck p) (p_respond p)
           else p in
  Peer_Close q.

(** ** store.go *)

(** [AddPeer]: the peer object replaced, if any, is closed.  (Its boolean result
    feeds a metric.) *)
Definition AddPeer (r : Relay) (c : nat) (id : PeerID) : Relay :=
  let r1 := match r_store r !! id with
            | Some old => upd_peer r old Peer_Close
            | None => r
            end in
  set_store r1 (<[id := c]> (r_store r1)).

Definition DeletePeer (r : Relay) (c : nat) (id : PeerID) : Relay * bool :=
  match r_store r !! id with
  | None => (r, false)
  | Some dp => if (dp =? c)%nat then (set_store r (delete id (r_store r)), true) else (r, false)
  end.

(** [GetOnlinePeersAndRegisterInterest] *)
Definition GetOnlinePeersAndRegisterInterest (r : Relay) (c : nat) (peerIDs : list PeerID)
    : Relay * list PeerID :=
  (set_listeners r (alter (λ l, AddInterestedPeers l peerIDs) c (r_listeners r)),
   filter (λ id, is_Some (r_store r !! id)) peerIDs).

(** ** peer.go: message handlers *)

(** [sendPeersOnline] and [sendPeersWentOffline]: one write per marshalled
    message; a marshalling error is logged. *)
Definition write_all (msgs : outcome msg_error (list bytes)) (p : Peer) : Peer :=
  match msgs with
  | Ok ms => foldl (λ p m, conn_write m p) p ms
  | _ => p
  end.

Definition sendPeersOnline (ids : list PeerID) : Peer → Peer := write_all (MarshalPeersOnline ids).

Definition sendPeersWentOffline (ids : list PeerID) : Peer → Peer :=
  write_all (MarshalPeersWentOffline ids).

Definition handleTransportMsg (r : Relay) (id : PeerID) (msg : bytes) : Relay :=
  match UnmarshalTransportID msg with
  | Ok peerID =>
      match r_store r !! peerID with
      | None => r
      | Some dp =>
          match UpdateTransportMsg msg id with
          | Ok msg' => upd_peer r dp (conn_write msg')
          | _ => r
          end
      end
  | _ => r
  end.

Definition handleSubscribePeerState (r : Relay) (c : nat) (msg : bytes) : Relay :=
  match UnmarshalSubPeerStateMsg msg with
  | Ok peerIDs =>
      let '(r, onlinePeers) := GetOnlinePeersAndRegisterInterest r c peerIDs in
      match onlinePeers with
      | [] => r
      | _ => upd_peer r c (sendPeersOnline onlinePeers)
      end
  | _ => r
  end.

Definition handleUnsubscribePeerState (r : Relay) (c : nat) (msg : bytes) : Relay :=
  match UnmarshalUnsubPeerStateMsg msg with
  | Ok peerIDs => set_listeners r (alter (λ l, RemoveInterestedPeer l peerIDs) c (r_listeners r))
  | _ => r
  end.

(** [OnHCResponse]: a signal on the health-check sender's [ack] channel. *)
Definition hc_ack (p : Peer) : Peer :=
  mkPeer (p_id p) (p_phase p) (p_ctxDone p) (p_connOpen p) (p_out p) true (p_respond p).

Definition handleMsgType (r : Relay) (c : nat) (id : PeerID) (t : MsgType) (msg : bytes) : Relay :=
  if bool_decide (t = MsgTypeHealthCheck) then upd_peer r c hc_ack
  else if bool_decide (t = MsgTypeTransport) then handleTransportMsg r id msg
  else if bool_decide (t = MsgTypeClose) then upd_peer r c conn_close
  else if bool_decide (t = MsgTypeSubscribePeerState) then handleSubscribePeerState r c msg
  else if bool_decide (t = MsgTypeUnsubscribePeerState) then handleUnsubscribePeerState r c msg
  else r.

(** The deferred function of [Work]: cancel, [RemoveListener], close. *)
Definition Work_return (r : Relay) (c : nat) : Relay :=
  upd_peer (set_listeners r (delete c (r_listeners r))) c
    (λ p, set_phase Exited (conn_close (ctx_cancel p))).

(** One iteration of the loop of [Work] on the result of [conn.Read]. *)
Definition Work_iter (r : Relay) (c : nat) (id : PeerID) (data : option bytes) : Relay :=
  match data with
  | None => Work_return r c
  | Some d =>
      let msg := take MaxMessageSize d in
      if (length msg =? 0)%nat then Work_return r c
      else
        match ValidateVersion msg with
        | Ok _ =>
            match DetermineClientMessageType msg with
            | Ok t => handleMsgType r c id t msg
            | _ => Work_return r c
            end
        | _ => Work_return r c
        end
  end.

(** ** relay.go: the steps *)

Definition NewRelay (p : preparedMsg) : Relay := mkRelay ∅ ∅ ∅ p Open.

(** [Accept] up to and including [AddPeer], on a connection not seen before;
    [None] while a [Shutdown] holds [closeMu]. *)
Definition Accept (v : Validator) (r : Relay) (c : nat) (data : option bytes) : option Relay :=
  match r_shutdown r with
  | Closing _ => None
  | Closed => Some r
  | Open =>
      match handshakeReceive v data with
      | Ok (m, id) =>
          Some (AddPeer (set_objs r (<[c := mkPeer id Stored false true [] false (Some m)]> (r_objs r)))
                  c id)
      | _ => Some r
      end
  end.

(** [Accept]: [notifier.PeerCameOnline(peer.ID())]. *)
Definition Accept_notify (r : Relay) (c : nat) (p : Peer) : option Relay :=
  ls ← PeerCameOnline (p_id p) (r_listeners r);
  Some (upd_peer (set_listeners r ls) c (set_phase Notified)).

(** [Accept]: [handshakeResponse]; a write that fails ([ok = false], or the
    connection is closed) closes the peer. *)
Definition Accept_respond (r : Relay) (c : nat) (m ok : bool) : Relay :=
  upd_peer r c (λ p,
    let p := mkPeer (p_id p) (p_phase p) (p_ctxDone p) (p_connOpen p) (p_out p) (p_hcAck p) None in
    if p_connOpen p && ok then
      mkPeer (p_id p) (p_phase p) (p_ctxDone p) (p_connOpen p)
        (p_out p ++ [handshakeResponse (r_prepared r) m]) (p_hcAck p) (p_respond p)
    else Peer_Close p).

(** [Work]: [notifier.NewListener]. *)
Definition Work_start (r : Relay) (c : nat) : Relay :=
  upd_peer (set_listeners r (<[c := newListener]> (r_listeners r))) c (set_phase Running).

(** After [Work]: [DeletePeer], and [PeerWentOffline] when it deleted. *)
Definition Accept_delete (r : Relay) (c : nat) (p : Peer) : Relay :=
  let '(r, deleted) := DeletePeer r c (p_id p) in
  upd_peer r c (set_phase (if deleted then Deleted else Done)).

Definition Accept_offline (r : Relay) (c : nat) (p : Peer) : option Relay :=
  ls ← PeerWentOffline (p_id p) (r_listeners r);
  Some (upd_peer (set_listeners r ls) c (set_phase Done)).

(** The listener goroutine of a peer: one iteration with its callbacks. *)
Definition Listener_iter (r : Relay) (c : nat) (l : Listener) : option Relay :=
  '(l', on, off) ← listenForEvents l;
  Some (upd_peer (set_listeners r (<[c := l']> (r_listeners r))) c
          (λ p, let p := match on with [] => p | _ => sendPeersOnline on p end in
                match off with [] => p | _ => sendPeersWentOffline off p end)).

(** [handleHealthcheckEvents]: a health check is sent, or the timeout closes
    the connection. *)
Definition Healthcheck_send (r : Relay) (c : nat) : Relay := upd_peer r c (conn_write MarshalHealthcheck).

Definition Healthcheck_timeout (r : Relay) (c : nat) : Relay := upd_peer r c conn_close.

(** [Shutdown]: it takes [closeMu] for writing, so it waits for the [Accept]
    calls that still have to send their response and for another [Shutdown];
    then it takes its snapshot [store.Peers()]. *)
Definition Shutdown_begin (r : Relay) : option Relay :=
  match r_shutdown r with
  | Closing _ => None
  | _ => if bool_decide (map_Forall (λ _ p, p_respond p = None) (r_objs r))
         then Some (set_shutdown r (Closing (map_img (r_store r)))) else None
  end.

(** [Shutdown]: the goroutine that closes peer [c]. *)
Definition Shutdown_close (r : Relay) (c : nat) : option Relay :=
  match r_shutdown r with
  | Closing pending =>
      if bool_decide (c ∈ pending)
      then Some (upd_peer (set_shutdown r (Closing (pending ∖ {[c]}))) c CloseGracefully) else None
  | _ => None
  end.

(** [Shutdown]: [wg.Wait()], then [closed = true]. *)
Definition Shutdown_end (r : Relay) : option Relay :=
  match r_shutdown r with
  | Closing pending => if bool_decide (pending = ∅) then Some (set_shutdown r Closed) else None
  | _ => None
  end.

(** What the scheduler can do next. *)
Inductive action :=
| AAccept (c : nat) (data : option bytes)
| ANotify (c : nat)
| ARespond (c : nat) (ok : bool)
| AStart (c : nat)
| AWork (c : nat) (data : option bytes)
| ADelete (c : nat)
| AOffline (c : nat)
| AListen (c : nat)
| AHcSend (c : nat)
| AHcTimeout (c : nat)
| AShutdown
| AShutdownClose (c : nat)
| AShutdownEnd.

(** The step of an action, [None] when it is not enabled or blocks. *)
Definition exec (v : Validator) (r : Relay) (a : action) : option Relay :=
  match a with
  | AAccept c data =>
      match r_objs r !! c with None => Accept v r c data | Some _ => None end
  | ANotify c =>
      p ← r_objs r !! c;
      match p_phase p with Stored => Accept_notify r c p | _ => None end
  | ARespond c ok =>
      p ← r_objs r !! c;
      match p_phase p with
      | Stored => None
      | _ => m ← p_respond p; Some (Accept_respond r c m ok)
      end
  | AStart c =>
      p ← r_objs r !! c;
      match p_phase p with Notified => Some (Work_start r c) | _ => None end
  | AWork c data =>
      p ← r_objs r !! c;
      match p_phase p with Running => Some (Work_iter r c (p_id p) data) | _ => None end
  | ADelete c =>
      p ← r_objs r !! c;
      match p_phase p with Exited => Some (Accept_delete r c p) | _ => None end
  | AOffline c =>
      p ← r_objs r !! c;
      match p_phase p with Deleted => Accept_offline r c p | _ => None end
  | AListen c => l ← r_listeners r !! c; Listener_iter r c l
  | AHcSend c =>
      p ← r_objs r !! c;
      match p_phase p with Running => Some (Healthcheck_send r c) | _ => None end
  | AHcTimeout c =>
      p ← r_objs r !! c;
      match p_phase p with Running => Some (Healthcheck_timeout r c) | _ => None end
  | AShutdown => Shutdown_begin r
  | AShutdownClose c => Shutdown_close r c
  | AShutdownEnd => Shutdown_end r
  end.

(** The transition relation, and the states reached from the initial one. *)
Inductive step (v : Validator) : Relay → Relay → Prop :=
| step_action r a r' : exec v r a = Some r' → step v r r'.

Definition reachable (v : Validator) (p : preparedMsg) (r : Relay) : Prop :=
  rtc (step v) (NewRelay p) r.

(** A schedule. *)
Fixpoint run (v : Validator) (r : Relay) (acts : list action) : option Relay :=
  match acts with
  | [] => Some r
  | a :: acts => r' ← exec v r a; run v r' acts
  end.

End Handshake.

(** ** The invariant *)

Definition in_store_phase (ph : phase) : Prop :=
  match ph with Deleted | Done => False | _ => True end.

Definition serving_phase (ph : phase) : Prop :=
  match ph with Stored | Notified | Running => True | _ => False end.

(** A peer object that has not been closed and has not left [Work]. *)
Definition live (p : Peer) : Prop := p_ctxDone p = false ∧ serving_phase (p_phase p).

Record wf (r : Relay) : Prop := {
  wf_store : ∀ id c, r_store r !! id = Some c →
    ∃ p, r_objs r !! c = Some p ∧ p_id p = id ∧ in_store_phase (p_phase p);
  wf_live : ∀ c p, r_objs r !! c = Some p → live p → r_store r !! p_id p = Some c;
  wf_listener : ∀ c, is_Some (r_listeners r !! c) ↔
    ∃ p, r_objs r !! c = Some p ∧ p_phase p = Running;
}.

(** Updates of one peer that keep its identity and phase and do not revive it. *)
Definition benign (f : Peer → Peer) : Prop :=
  ∀ p, p_id (f p) = p_id p ∧ p_phase (f p) = p_phase p ∧
       (p_ctxDone p = true → p_ctxDone (f p) = true).

Lemma benign_id : benign id.
Proof. done. Qed.

Lemma benign_compose f g : benign f → benign g → benign (λ p, f (g p)).
Proof.
  intros Hf Hg p. destruct (Hf (g p)) as (-> & -> & H3), (Hg p) as (-> & -> & H6). auto.
Qed.

Lemma benign_write b : benign (conn_write b).
Proof. intros p. unfold conn_write. by case_match. Qed.

Lemma benign_close : benign conn_close.
Proof. done. Qed.

Lemma benign_Peer_Close : benign Peer_Close.
Proof. done. Qed.

Lemma benign_CloseGracefully : benign CloseGracefully.
Proof. intros p. unfold CloseGracefully. by case_match. Qed.

Lemma benign_write_all ms : benign (write_all ms).
Proof.
  unfold write_all. destruct ms as [ms|e|]; try apply benign_id.
  induction ms as [|m ms IH]; [apply benign_id|]. simpl.
  apply (benign_compose (λ p, foldl _ p ms) (conn_write m)); [done|apply benign_write].
Qed.

Create HintDb relay discriminated.
#[export] Hint Resolve benign_id benign_write benign_close benign_Peer_Close benign_CloseGracefully
  benign_write_all : relay.

Lemma upd_peer_lookup r c f c' p :
  r_objs (upd_peer r c f) !! c' = Some p →
  ∃ q, r_objs r !! c' = Some q ∧ p = (if decide (c' = c) then f q else q).
Proof.
  simpl. rewrite lookup_alter. case_decide as E.
  - subst. rewrite fmap_Some. intros (q & Hq & ->). exists q. by rewrite decide_True.
  - intros H. exists p. rewrite decide_False; [done|congruence].
Qed.

Lemma upd_peer_mono r c f c' q :
  r_objs r !! c' = Some q →
  r_objs (upd_peer r c f) !! c' = Some (if decide (c' = c) then f q else q).
Proof.
  intros H. simpl. rewrite lookup_alter. case_decide as E.
  - subst. rewrite H, decide_True by done. done.
  - rewrite decide_False by congruence. done.
Qed.

Lemma live_benign f p : benign f → live (f p) → live p.
Proof.
  intros Hf [H1 H2]. destruct (Hf p) as (_ & E & H3). rewrite E in H2. split; [|done].
  destruct (p_ctxDone p); [|done]. rewrite H3 in H1 by done. done.
Qed.

Lemma wf_upd_benign r c f : benign f → wf r → wf (upd_peer r c f).
Proof.
  intros Hf [W1 W2 W3]. split.
  - intros id c' H. destruct (W1 id c' H) as (p & Hp & Hi & Hph).
    eexists. split; [by apply upd_peer_mono|].
    destruct (Hf p) as (E1 & E2 & _). case_decide; by rewrite ?E1, ?E2.
  - intros c' p' H Hl. apply upd_peer_lookup in H as (q & Hq & ->).
    destruct (Hf q) as (E1 & _ & _).
    assert (live q) as Hlq by (case_decide; [by eapply live_benign|done]).
    rewrite <- (W2 c' q Hq Hlq). simpl. case_decide; by rewrite ?E1.
  - intros c'. rewrite (W3 c'). split; intros (q & Hq & Hph).
    + eexists. split; [by apply upd_peer_mono|]. destruct (Hf q) as (_ & E & _).
      case_decide; by rewrite ?E.
    + apply upd_peer_lookup in Hq as (p & Hp & ->). destruct (Hf p) as (_ & E & _).
      exists p. split; [done|]. case_decide; by rewrite ?E in Hph.
Qed.

Lemma alter_Some_insert {A} (f : A → A) (m : gmap nat A) c x :
  m !! c = Some x → alter f c m = <[c := f x]> m.
Proof.
  intros H. apply map_eq. intros i. rewrite lookup_alter, lookup_insert.
  case_decide; [by subst; rewrite H|done].
Qed.

Lemma NotifyAll_dom f ls ls' :
  NotifyAll f ls = Some ls' → ∀ c, is_Some (ls' !! c) ↔ is_Some (ls !! c).
Proof.
  unfold NotifyAll. case_bool_decide as H; [|done]. intros [= <-] c.
  rewrite lookup_omap. destruct (ls !! c) as [l|] eqn:E; simpl; [|done].
  split; [by eexists|intros _]. apply (H c l E).
Qed.

(** A step that moves one peer object and leaves the others alone. *)
Lemma wf_change r r' c p p' :
  wf r → r_objs r !! c = Some p → r_objs r' = <[c := p']> (r_objs r) →
  p_id p' = p_id p → (live p' → live p) →
  (∀ c', is_Some (r_listeners r' !! c') ↔
         if decide (c' = c) then p_phase p' = Running else is_Some (r_listeners r !! c')) →
  (r_store r' = r_store r ∧ (in_store_phase (p_phase p') ∨ r_store r !! p_id p ≠ Some c) ∨
   r_store r' = delete (p_id p) (r_store r) ∧ r_store r !! p_id p = Some c ∧ ¬ live p') →
  wf r'.
Proof.
  intros [W1 W2 W3] Hp Ho Hid Hlv Hls Hst. split.
  - intros id c' H.
    assert (r_store r !! id = Some c') as H0.
    { destruct Hst as [[E _]|[E _]]; rewrite E in H; [done|].
      by apply lookup_delete_Some in H as [_ H]. }
    destruct (W1 id c' H0) as (q & Hq & Hi & Hph). rewrite Ho.
    destruct (decide (c' = c)) as [->|Hne]; [|exists q; by rewrite lookup_insert_ne].
    exists p'. rewrite lookup_insert_eq. simplify_eq.
    split; [done|]. split; [done|].
    destruct Hst as [[E [?|?]]|[E _]]; [done|done|].
    rewrite E, lookup_delete_eq in H. done.
  - intros c' q Hq Hl. rewrite Ho in Hq. destruct (decide (c' = c)) as [->|Hne].
    + rewrite lookup_insert_eq in Hq. simplify_eq.
      destruct Hst as [[-> _]|[_ [_ ?]]]; [|done]. rewrite Hid. auto.
    + rewrite lookup_insert_ne in Hq by done. pose proof (W2 c' q Hq Hl) as Hs.
      destruct Hst as [[-> _]|[-> [Hc _]]]; [done|].
      rewrite lookup_delete_ne; [done|]. intros E. rewrite E, Hs in Hc. congruence.
  - intros c'. rewrite Hls. case_decide as E.
    + subst. rewrite Ho, lookup_insert_eq. split; [by eexists|]. intros (q & [= <-] & H). done.
    + rewrite W3, Ho, lookup_insert_ne by done. done.
Qed.

Lemma AddPeer_objs r c id c' :
  r_objs (AddPeer r c id) !! c' =
  if decide (r_store r !! id = Some c') then Peer_Close <$> r_objs r !! c' else r_objs r !! c'.
Proof.
  unfold AddPeer. destruct (r_store r !! id) as [old|] eqn:Es; simpl.
  - rewrite lookup_alter. repeat case_decide; congruence.
  - done.
Qed.

Lemma AddPeer_store r c id : r_store (AddPeer r c id) = <[id := c]> (r_store r).
Proof. unfold AddPeer. simpl. by case_match. Qed.

Lemma AddPeer_listeners r c id : r_listeners (AddPeer r c id) = r_listeners r.
Proof. unfold AddPeer. simpl. by case_match. Qed.

Lemma wf_accept_add r c id m :
  wf r → r_objs r !! c = None →
  wf (AddPeer (set_objs r (<[c := mkPeer id Stored false true [] false (Some m)]> (r_objs r))) c id).
Proof.
  intros [W1 W2 W3] Hc. set (np := mkPeer id Stored false true [] false (Some m)).
  assert (r_store r !! id ≠ Some c) as Hnc.
  { intros H. destruct (W1 id c H) as (p & Hp & _). congruence. }
  split.
  - intros id' c' H. rewrite AddPeer_store in H. rewrite AddPeer_objs. simpl in *.
    apply lookup_insert_Some in H as [[<- <-]|[Hne H]].
    { rewrite decide_False, lookup_insert_eq by done. by exists np. }
    destruct (W1 id' c' H) as (q & Hq & Hi & Hph). assert (c' ≠ c) by congruence.
    rewrite lookup_insert_ne, Hq by done. case_decide; by eexists.
  - intros c' p H Hl. rewrite AddPeer_objs in H. rewrite AddPeer_store. simpl in *.
    destruct (decide (c' = c)) as [->|Hne].
    { rewrite decide_False, lookup_insert_eq in H by done. simplify_eq. by rewrite lookup_insert_eq. }
    rewrite lookup_insert_ne in H by done. case_decide as Hd.
    { destruct (r_objs r !! c'); simpl in H; [|done]. simplify_eq. by destruct Hl. }
    pose proof (W2 c' p H Hl). rewrite lookup_insert_ne; [done|]. intros E. apply Hd. by rewrite E.
  - intros c'. rewrite AddPeer_listeners, AddPeer_objs. simpl. rewrite W3.
    destruct (decide (c' = c)) as [->|Hne].
    { rewrite decide_False, lookup_insert_eq, Hc by done. split; intros (p & [=] & E); by subst. }
    rewrite lookup_insert_ne by done. case_decide; [|done].
    destruct (r_objs r !! c') as [q|]; simpl; [|done].
    split; intros (p & [= <-] & Hph); by eexists.
Qed.

Lemma wf_listeners_dom r ls :
  wf r → (∀ c, is_Some (ls !! c) ↔ is_Some (r_listeners r !! c)) → wf (set_listeners r ls).
Proof. intros [W1 W2 W3] H. split; [done|done|]. intros c. by rewrite H. Qed.

Lemma is_Some_alter_dom {A} (f : A → A) (m : gmap nat A) c c' :
  is_Some (alter f c m !! c') ↔ is_Some (m !! c').
Proof.
  rewrite lookup_alter. case_decide; [subst|done]. by rewrite fmap_is_Some.
Qed.

Lemma wf_Work_return r c p :
  wf r → r_objs r !! c = Some p → p_phase p = Running → wf (Work_return r c).
Proof.
  intros W Hp Hph. eapply wf_change with (c := c); [exact W|exact Hp|..].
  - simpl. by apply alter_Some_insert.
  - done.
  - by intros [? _].
  - intros c'. simpl. case_decide as E.
    + subst. rewrite lookup_delete_eq. split; [by intros [? ?]|done].
    + by rewrite lookup_delete_ne.
  - left. split; [done|by left].
Qed.

Lemma wf_handleMsgType r c id t msg : wf r → wf (handleMsgType r c id t msg).
Proof.
  intros W. unfold handleMsgType. repeat case_bool_decide; try done.
  - by apply wf_upd_benign.
  - unfold handleTransportMsg. repeat case_match; try done. apply wf_upd_benign; auto with relay.
  - by apply wf_upd_benign.
  - unfold handleSubscribePeerState. case_match; try done. simpl.
    assert (wf (set_listeners r (alter (λ l, AddInterestedPeers l a) c (r_listeners r)))).
    { apply wf_listeners_dom; [done|]. intros c'. apply is_Some_alter_dom. }
    case_match; [done|]. apply wf_upd_benign; [apply benign_write_all|done].
  - unfold handleUnsubscribePeerState. case_match; try done.
    apply wf_listeners_dom; [done|]. intros c'. apply is_Some_alter_dom.
Qed.

Lemma wf_Work_iter r c p data :
  wf r → r_objs r !! c = Some p → p_phase p = Running → wf (Work_iter r c (p_id p) data).
Proof.
  intros W Hp Hph. unfold Work_iter.
  repeat case_match; eauto using wf_Work_return, wf_handleMsgType.
Qed.

Lemma wf_phase_listeners r ls c p ph :
  wf r → r_objs r !! c = Some p → (serving_phase ph → serving_phase (p_phase p)) →
  (in_store_phase ph ∨ r_store r !! p_id p ≠ Some c) →
  (∀ c', is_Some (ls !! c') ↔
         if decide (c' = c) then ph = Running else is_Some (r_listeners r !! c')) →
  wf (upd_peer (set_listeners r ls) c (set_phase ph)).
Proof.
  intros W Hp Hs Hst Hls. eapply wf_change with (c := c); [exact W|exact Hp|..].
  - simpl. by apply alter_Some_insert.
  - done.
  - intros [? ?]. split; [done|by apply Hs].
  - exact Hls.
  - left. by split.
Qed.

(** A notification keeps the set of listeners; the notified peer has none. *)
Lemma notify_listeners f r ls c p ph :
  wf r → NotifyAll f (r_listeners r) = Some ls → r_objs r !! c = Some p →
  p_phase p ≠ Running → ph ≠ Running →
  ∀ c', is_Some (ls !! c') ↔
        if decide (c' = c) then ph = Running else is_Some (r_listeners r !! c').
Proof.
  intros W Hn Hp Hph Hne c'. rewrite (NotifyAll_dom _ _ _ Hn). case_decide; [|done]. subst.
  rewrite (wf_listener r W). split; [intros (q & Hq & ?)|done]. simplify_eq.
Qed.

(** The invariant does not mention [closeMu]. *)
Lemma wf_set_shutdown r x : wf r → wf (set_shutdown r x).
Proof. intros [W1 W2 W3]. by split. Qed.

Lemma Accept_delete_cases r c p :
  wf r → r_objs r !! c = Some p → p_phase p = Exited → wf (Accept_delete r c p).
Proof.
  intros W Hp Hph. unfold Accept_delete, DeletePeer.
  assert (¬ is_Some (r_listeners r !! c)) as Hnl.
  { rewrite (wf_listener r W). intros (q & Hq & ?). congruence. }
  assert (∀ ph c', ph ≠ Running →
    is_Some (r_listeners r !! c') ↔
    if decide (c' = c) then ph = Running else is_Some (r_listeners r !! c')) as Hls.
  { intros ph c' ?. case_decide; [subst|]; done. }
  destruct (decide (r_store r !! p_id p = Some c)) as [Hd|Hd].
  - rewrite Hd, Nat.eqb_refl. eapply wf_change with (c := c); [exact W|exact Hp|..].
    + simpl. by apply alter_Some_insert.
    + done.
    + by intros [_ ?].
    + intros c'. by apply Hls.
    + right. split; [done|]. split; [done|]. by intros [_ ?].
  - assert (wf (upd_peer r c (set_phase Done))) as Hw.
    { apply (wf_phase_listeners r (r_listeners r) c p Done); try done; [by right|].
      intros c'. by apply Hls. }
    destruct (r_store r !! p_id p) as [dp|]; [|done].
    destruct (Nat.eqb_spec dp c); [congruence|done].
Qed.

Lemma exec_respond r c p ok r' :
  match p_phase p with
  | Stored => None
  | _ => m ← p_respond p; Some (Accept_respond r c m ok)
  end = Some r' → ∃ m, r' = Accept_respond r c m ok.
Proof. intros H. destruct (p_phase p), (p_respond p); simplify_eq/=; by eexists. Qed.

(** Every step preserves the invariant. *)
Lemma wf_step g v r r' : wf r → step g v r r' → wf r'.
Proof.
  intros W Hs. revert W. destruct Hs as [r0 a r1 H]. intros W.
  destruct a as [c d|c|c ok|c|c d|c|c|c|c|c| |c|]; simpl in H;
    try match type of H with
        | context [r_objs r0 !! c] => destruct (r_objs r0 !! c) as [p|] eqn:Hp; simpl in H; try done
        end.
  - unfold Accept in H. destruct (r_shutdown r0); [|done|by simplify_eq].
    destruct (handshakeReceive _ _ _) as [[m id]|e|]; simplify_eq; [|done..]. by apply wf_accept_add.
  - destruct (p_phase p) eqn:Hph; try done. unfold Accept_notify in H.
    destruct (PeerCameOnline _ _) as [ls|] eqn:E; simpl in H; [|done].
    simplify_eq. eapply wf_phase_listeners; try done; [by rewrite Hph|by left|].
    eapply notify_listeners; try done. by rewrite Hph.
  - destruct (exec_respond r0 c p ok r1) as [m ->]; [done|].
    apply wf_upd_benign; [|done]. intros q. cbn. by destruct (p_connOpen q && ok).
  - destruct (p_phase p) eqn:Hph; try done. simplify_eq.
    eapply wf_phase_listeners; try done; [by rewrite Hph|by left|].
    intros c'. rewrite lookup_insert_is_Some. case_decide; [subst; naive_solver|].
    split; [by intros [?|[_ ?]]|]. intros; right. split; [congruence|done].
  - destruct (p_phase p) eqn:Hph; try done. simplify_eq. by apply wf_Work_iter.
  - destruct (p_phase p) eqn:Hph; try done. simplify_eq. by apply Accept_delete_cases.
  - destruct (p_phase p) eqn:Hph; try done. unfold Accept_offline in H.
    destruct (PeerWentOffline _ _) as [ls|] eqn:E; simpl in H; [|done].
    simplify_eq. eapply wf_phase_listeners; try done.
    + right. intros Hs. destruct (wf_store r0 W _ _ Hs) as (q & Hq & _ & Hx).
      simplify_eq. by rewrite Hph in Hx.
    + eapply notify_listeners; try done. by rewrite Hph.
  - destruct (r_listeners r0 !! c) as [l|] eqn:El; simpl in H; [|done].
    unfold Listener_iter in H. destruct (listenForEvents l) as [[[l' on] off]|]; simpl in H; [|done].
    simplify_eq. apply wf_upd_benign.
    + intros q. simpl.
      assert (benign (λ p, match on with [] => p | _ => sendPeersOnline on p end)) as B1.
      { destruct on; [apply benign_id|apply benign_write_all]. }
      assert (benign (λ p, match off with [] => p | _ => sendPeersWentOffline off p end)) as B2.
      { destruct off; [apply benign_id|apply benign_write_all]. }
      apply (benign_compose _ _ B2 B1 q).
    + apply wf_listeners_dom; [done|]. intros c'. rewrite lookup_insert_is_Some'.
      split; [|by right]. intros [<-|?]; [by eexists|done].
  - destruct (p_phase p) eqn:Hph; try done. simplify_eq. apply wf_upd_benign; auto with relay.
  - destruct (p_phase p) eqn:Hph; try done. simplify_eq. apply wf_upd_benign; auto with relay.
  - unfold Shutdown_begin in H. repeat case_match; simplify_eq; by apply wf_set_shutdown.
  - unfold Shutdown_close in H. repeat case_match; simplify_eq.
    apply wf_upd_benign; [auto with relay|by apply wf_set_shutdown].
  - unfold Shutdown_end in H. repeat case_match; simplify_eq; by apply wf_set_shutdown.
Qed.

(** ** What the server writes *)

Definition control_msg (m : bytes) : Prop :=
  ∃ v t rest, m = v :: t :: rest ∧ t ≠ MsgTypeTransport.

(** What has been written to connection [d]. *)
Definition out_of (r : Relay) (d : nat) : list bytes := default [] (p_out <$> r_objs r !! d).

(** From [r] to [r'] every connection [d] receives only messages in [S d]. *)
Definition emits (S : nat → bytes → Prop) (r r' : Relay) : Prop :=
  ∀ d, ∃ news, out_of r' d = out_of r d ++ news ∧ ∀ m, m ∈ news → S d m.

(** An update of one peer that writes only messages in [S]. *)
Definition writes (S : bytes → Prop) (f : Peer → Peer) : Prop :=
  ∀ p, ∃ news, p_out (f p) = p_out p ++ news ∧ ∀ m, m ∈ news → S m.

(** [m] is the message [data] that [sender] sent for the peer at connection [d],
    with the sender's id in the place of the destination's. *)
Definition forwarded (r : Relay) (a : action) (d : nat) (m : bytes) : Prop :=
  ∃ c sender data dst payload,
    a = AWork c (Some data) ∧ r_objs r !! c = Some sender ∧ p_phase sender = Running ∧
    UnmarshalTransportMsg (take MaxMessageSize data) = Ok (dst, payload) ∧
    r_store r !! dst = Some d ∧ UnmarshalTransportMsg m = Ok (p_id sender, payload).

Lemma emits_frame S r r' : r_objs r' = r_objs r → emits S r r'.
Proof.
  intros E d. exists []. unfold out_of. rewrite E, app_nil_r. split; [done|].
  intros m H. by apply elem_of_nil in H.
Qed.

(** An update of one peer, after changes outside the peer objects. *)
Lemma emits_upd (S : nat → bytes → Prop) r r' c f :
  r_objs r' = r_objs r → writes (S c) f → emits S r (upd_peer r' c f).
Proof.
  intros E Hf d. unfold out_of. simpl. rewrite E, lookup_alter. case_decide as Ed.
  - subst d. destruct (r_objs r !! c) as [p|]; [apply Hf|exists []; split; [done|]].
    intros m H. by apply elem_of_nil in H.
  - exists []. rewrite app_nil_r. split; [done|]. intros m H. by apply elem_of_nil in H.
Qed.

Lemma writes_nothing (S : bytes → Prop) f : (∀ p, p_out (f p) = p_out p) → writes S f.
Proof.
  intros H p. exists []. rewrite app_nil_r. split; [done|]. intros m Hm. by apply elem_of_nil in Hm.
Qed.

Lemma writes_one (S : bytes → Prop) (f : Peer → Peer) b :
  S b → (∀ p, p_out (f p) = p_out p ++ [b] ∨ p_out (f p) = p_out p) → writes S f.
Proof.
  intros Hb H p. destruct (H p) as [-> | ->].
  - exists [b]. split; [done|]. by intros m ->%list_elem_of_singleton.
  - exists []. rewrite app_nil_r. split; [done|]. intros m Hm. by apply elem_of_nil in Hm.
Qed.

Lemma writes_compose (S : bytes → Prop) f g :
  writes S f → writes S g → writes S (λ p, f (g p)).
Proof.
  intros Hf Hg p. destruct (Hf (g p)) as (n1 & -> & H1), (Hg p) as (n2 & -> & H2).
  exists (n2 ++ n1). rewrite app_assoc. split; [done|]. intros m [?|?]%elem_of_app; auto.
Qed.

Lemma writes_conn_write (S : bytes → Prop) b : S b → writes S (conn_write b).
Proof. intros Hb. apply (writes_one S _ b Hb). intros p. unfold conn_write. case_match; auto. Qed.

Lemma writes_write_all (S : bytes → Prop) ms :
  (∀ l, ms = Ok l → Forall S l) → writes S (write_all ms).
Proof.
  unfold write_all. destruct ms as [l|e|]; intros H; [|by apply writes_nothing..].
  specialize (H l eq_refl). induction H as [|m l Hm _ IH]; [by apply writes_nothing|]. simpl.
  apply (writes_compose S (λ p, foldl _ p l) (conn_write m)); [done|by apply writes_conn_write].
Qed.

Lemma control_chunk t ids : t ≠ MsgTypeTransport → control_msg (chunk_wire t ids).
Proof. intros. by eexists _, _, _. Qed.

Lemma writes_peer_ids (S : bytes → Prop) ids t :
  (∀ m, control_msg m → S m) → t ≠ MsgTypeTransport → writes S (write_all (marshalPeerIDs ids t)).
Proof.
  intros HS Ht. apply writes_write_all. intros l El.
  destruct (decide (ids = [])) as [->|Hne]; [done|].
  destruct (marshalPeerIDs_eq ids t Hne) as (chunks & E & _ & _). rewrite E in El. inv_ok.
  apply Forall_fmap, Forall_forall. intros c _. by apply HS, control_chunk.
Qed.

(** A relayed message carries the sender's id and the sender's payload. *)
Lemma handleTransportMsg_eq r id msg :
  handleTransportMsg r id msg = r ∨
  ∃ h dst p dp, msg = h ++ pid_bytes dst ++ p ∧ length h = sizeOfProtoHeader ∧
    r_store r !! dst = Some dp ∧
    handleTransportMsg r id msg = upd_peer r dp (conn_write (h ++ pid_bytes id ++ p)).
Proof.
  unfold handleTransportMsg.
  destruct (UnmarshalTransport_cases msg) as [(_ & -> & _)|(h & dst & p & -> & Hh)]; [by left|].
  rewrite UnmarshalTransportID_cut by done.
  destruct (r_store r !! dst) as [dp|] eqn:Es; [|by left].
  rewrite UpdateTransportMsg_cut by done. right. by exists h, dst, p, dp.
Qed.

Section Emits.
Context (r : Relay) (a : action).

(** The messages a step may write. *)
Definition allowed (d : nat) (m : bytes) : Prop := control_msg m ∨ forwarded r a d m.

Lemma allowed_control d m : control_msg m → allowed d m.
Proof. by left. Qed.

#[local] Hint Resolve allowed_control : relay.

Lemma emits_work c p data :
  a = AWork c data → r_objs r !! c = Some p → p_phase p = Running →
  emits allowed r (Work_iter r c (p_id p) data).
Proof.
  intros Ha Hp Hph.
  assert (emits allowed r (Work_return r c)) as Hret by (apply emits_upd; [done|by apply writes_nothing]).
  unfold Work_iter. destruct data as [d|]; [|done]. case_match; [done|].
  destruct (ValidateVersion _); [|done..]. destruct (DetermineClientMessageType _) as [t|e|]; [|done..].
  unfold handleMsgType. repeat case_bool_decide; try by apply emits_frame.
  - apply emits_upd; [done|by apply writes_nothing].
  - destruct (handleTransportMsg_eq r (p_id p) (take MaxMessageSize d))
      as [->|(h & dst & pl & dp & Em & Hh & Hs & ->)]; [by apply emits_frame|].
    apply emits_upd; [done|]. apply writes_conn_write. right. exists c, p, d, dst, pl.
    rewrite Em, !UnmarshalTransportMsg_cut by done. done.
  - apply emits_upd; [done|by apply writes_nothing].
  - unfold handleSubscribePeerState. case_match; try by apply emits_frame.
    simpl. case_match; [by apply emits_frame|].
    apply emits_upd; [done|]. apply writes_peer_ids; auto with relay.
  - unfold handleUnsubscribePeerState. case_match; by apply emits_frame.
Qed.

Lemma emits_accept g v c data r' :
  r_objs r !! c = None → Accept g v r c data = Some r' → emits allowed r r'.
Proof.
  intros Hc H. unfold Accept in H. destruct (r_shutdown r); [|done|simplify_eq; by apply emits_frame].
  destruct (handshakeReceive g v data) as [[m id]|e|]; simplify_eq; [|by apply emits_frame..].
  intros d. exists []. rewrite app_nil_r. split; [|intros w Hw; by apply elem_of_nil in Hw].
  unfold out_of. rewrite AddPeer_objs. simpl.
  destruct (decide (d = c)) as [->|Hne].
  - rewrite lookup_insert_eq, Hc. by case_decide.
  - rewrite lookup_insert_ne by done. case_decide; [by destruct (r_objs r !! d)|done].
Qed.

Lemma emits_exec g v r' :
  control_msg (responseHelloMsg (r_prepared r)) → control_msg (responseAuthMsg (r_prepared r)) →
  exec g v r a = Some r' → emits allowed r r'.
Proof.
  intros C1 C2 H. destruct a as [c d|c|c ok|c|c d|c|c|c|c|c| |c|] eqn:Ea; simpl in H;
    try match type of H with
        | context [r_objs r !! c] => destruct (r_objs r !! c) as [p|] eqn:Hp; simpl in H; try done
        end; try (destruct (p_phase p) eqn:Hph; try done; []); simplify_eq.
  - by eapply emits_accept.
  - unfold Accept_notify in H. destruct (PeerCameOnline _ _) as [ls|]; simplify_eq/=.
    apply emits_upd; [done|by apply writes_nothing].
  - destruct (exec_respond r c p ok r') as [m ->]; [done|]. apply emits_upd; [done|].
    apply (writes_one _ _ (handshakeResponse (r_prepared r) m)); [left; by destruct m|].
    intros q. cbn. destruct (p_connOpen q && ok); auto.
  - apply emits_upd; [done|by apply writes_nothing].
  - by apply emits_work.
  - unfold Accept_delete. destruct (DeletePeer r c (p_id p)) as [r2 d] eqn:E.
    apply emits_upd; [|by apply writes_nothing]. unfold DeletePeer in E.
    by repeat case_match; simplify_eq.
  - unfold Accept_offline in H. destruct (PeerWentOffline _ _) as [ls|]; simplify_eq/=.
    apply emits_upd; [done|by apply writes_nothing].
  - destruct (r_listeners r !! c) as [l|]; simpl in H; [|done]. unfold Listener_iter in H.
    destruct (listenForEvents l) as [[[l' on] off]|]; simplify_eq/=.
    apply emits_upd; [done|].
    apply (writes_compose _ (λ p, match off with [] => p | _ => sendPeersWentOffline off p end)
             (λ p, match on with [] => p | _ => sendPeersOnline on p end)).
    + destruct off; [by apply writes_nothing|]. apply writes_peer_ids; auto with relay.
    + destruct on; [by apply writes_nothing|]. apply writes_peer_ids; auto with relay.
  - apply emits_upd; [done|]. apply writes_conn_write. left. by eexists _, _, _.
  - apply emits_upd; [done|by apply writes_nothing].
  - unfold Shutdown_begin in H. repeat case_match; simplify_eq; by apply emits_frame.
  - unfold Shutdown_close in H. repeat case_match; simplify_eq. apply emits_upd; [done|].
    apply (writes_one _ _ MarshalCloseMsg); [left; by eexists _, _, _|].
    intros q. unfold CloseGracefully. destruct (p_connOpen q); auto.
  - unfold Shutdown_end in H. repeat case_match; simplify_eq; by apply emits_frame.
Qed.
End Emits.

Lemma newPreparedMsg_control addr url pm :
  newPreparedMsg addr url = Ok pm →
  control_msg (responseHelloMsg pm) ∧ control_msg (responseAuthMsg pm).
Proof.
  unfold newPreparedMsg, marshalResponseHelloMsg, MarshalHelloResponse, MarshalAuthResponse.
  destruct (addr url); simpl; [|done].
  case_match; simpl; intros; inv_ok. split; by eexists _, _, _.
Qed.

(** The prepared messages never change. *)
Lemma exec_prepared g v r a r' : exec g v r a = Some r' → r_prepared r' = r_prepared r.
Proof.
  intros H. destruct a as [c d|c|c ok|c|c d|c|c|c|c|c| |c|]; simpl in H;
    unfold Accept, Accept_notify, Accept_offline, Listener_iter, Shutdown_begin, Shutdown_close,
      Shutdown_end, mbind, option_bind in H;
    repeat case_match; simplify_eq; try done;
    unfold Accept_delete, DeletePeer, Work_iter, AddPeer, handleMsgType, handleTransportMsg,
      handleSubscribePeerState, handleUnsubscribePeerState;
    simpl; repeat (case_match; simpl); simplify_eq/=; done.
Qed.

Lemma reachable_wf g v pm r : reachable g v pm r → wf r.
Proof.
  unfold reachable. intros H. remember (NewRelay pm) as r0 eqn:E.
  assert (wf r0) as W.
  { subst. split; simpl; [done|done|]. intros c. rewrite lookup_empty.
    split; [by intros [? ?]|by intros (? & ? & ?)]. }
  clear E. induction H; [done|]. by eapply IHrtc, wf_step.
Qed.

Lemma run_reachable g v r acts r' : run g v r acts = Some r' → rtc (step g v) r r'.
Proof.
  revert r. induction acts as [|a acts IH]; intros r; simpl; [by intros [= ->]|].
  destruct (exec g v r a) as [r1|] eqn:E; simpl; [|done]. intros H.
  eapply rtc_l; [by econstructor|]. by apply IH.
Qed.

Lemma reachable_prepared g v pm r : reachable g v pm r → r_prepared r = pm.
Proof.
  unfold reachable. intros H. remember (NewRelay pm) as r0 eqn:E.
  assert (r_prepared r0 = pm) as <- by by subst. clear E.
  induction H as [|x y z [x' a y' Hs] _ IH]; [done|]. rewrite IH. by eapply exec_prepared.
Qed.

(** The handshake on a well-formed auth message is the validator's verdict. *)
Lemma handshakeReceive_auth g v id payload :
  (headerTotalSizeAuth + length payload ≤ MaxHandshakeSize)%nat →
  handshakeReceive g v (Some (auth_wire id payload)) =
  match v_Validate v (AnyBytes payload) with
  | Ok _ => Ok (true, id)
  | Err e => Err (Some id, HsValidate e)
  | Panic => Panic
  end.
Proof.
  intros Hl. unfold handshakeReceive.
  rewrite take_ge by (unfold auth_wire; len).
  change (ValidateVersion (auth_wire id payload)) with (Ok (E:=msg_error) CurrentProtocolVersion).
  change (DetermineClientMessageType (auth_wire id payload)) with (Ok (E:=msg_error) MsgTypeAuth).
  cbv iota. rewrite bool_decide_false, bool_decide_true by done.
  unfold handleAuthMsg. rewrite UnmarshalAuthMsg_wire.
  by destruct (v_Validate v (AnyBytes payload)).
Qed.

(** The validator of a relay server started with [secret]. *)
Definition relay_validator (gobTok : bytes → option Token) (now : Z) (s : bytes) : Validator :=
  let a := NewTimedHMACValidator s (24 * GoStd.hour) in
  mkValidator (Relay_Validate now a) (Relay_ValidateHelloMsgType gobTok now a).

(** ** Properties *)

(** C23: the registry of the relay server.  In every reachable state, an id in
    the store belongs to a peer object with that id whose connection goroutine
    has not deleted it; a peer that is being served and has not been closed is
    the one registered under its id, so no two live peers share an id; and a
    peer has a state listener exactly while it runs. *)
Theorem relay_registry_invariant g v pm r (H : reachable g v pm r) :
  (∀ id c, r_store r !! id = Some c →
     ∃ p, r_objs r !! c = Some p ∧ p_id p = id ∧ in_store_phase (p_phase p)) ∧
  (∀ c p, r_objs r !! c = Some p → live p → r_store r !! p_id p = Some c) ∧
  (∀ c1 c2 p1 p2, r_objs r !! c1 = Some p1 → r_objs r !! c2 = Some p2 →
     live p1 → live p2 → p_id p1 = p_id p2 → c1 = c2) ∧
  (∀ c, is_Some (r_listeners r !! c) ↔ ∃ p, r_objs r !! c = Some p ∧ p_phase p = Running).
Proof.
  apply reachable_wf in H as [W1 W2 W3]. split_and!; try done.
  intros c1 c2 p1 p2 H1 H2 L1 L2 E. apply W2 in H1, H2; [|done..]. rewrite E in H1. congruence.
Qed.

(** C5: no spoofing and no misdelivery.  In every reachable state of a relay
    server, a step only appends to what connections have been sent, and a
    transport message appended to connection [d] is one that the running peer
    of that step has just sent: it has the sender's payload, names the id the
    sender authenticated with instead of anything the client chose, and [d] is
    the connection registered for the destination the sender named. *)
Theorem relay_no_spoofing g v addr url pm r a r'
  (Hpm : newPreparedMsg addr url = Ok pm) (H : reachable g v pm r) (Hex : exec g v r a = Some r') :
  ∀ d, ∃ news, out_of r' d = out_of r d ++ news ∧
    ∀ m, m ∈ news → DetermineServerMessageType m = Ok MsgTypeTransport →
      ∃ c sender data dst payload,
        a = AWork c (Some data) ∧ r_objs r !! c = Some sender ∧ p_phase sender = Running ∧
        UnmarshalTransportMsg (take MaxMessageSize data) = Ok (dst, payload) ∧
        r_store r !! dst = Some d ∧ UnmarshalTransportMsg m = Ok (p_id sender, payload).
Proof.
  intros d. apply newPreparedMsg_control in Hpm as [C1 C2].
  pose proof (reachable_prepared _ _ _ _ H) as E. rewrite <- E in C1, C2.
  destruct (emits_exec r a g v r' C1 C2 Hex d) as (news & Eo & Hn). exists news. split; [done|].
  intros m Hm Ht. destruct (Hn m Hm) as [(v0 & t & rest & -> & Hne)|Hf]; [|exact Hf].
  exfalso. apply Hne. unfold DetermineServerMessageType in Ht. simpl in Ht. by case_match; inv_ok.
Qed.

(** delivery of a transport message.  When a running peer sends a transport
    message for [dst], the connection registered for [dst] receives the same
    payload under the id of the sender (if it is open), and nothing else
    changes; when [dst] is not registered nothing changes at all. *)
Theorem relay_transport_delivery r c id dst payload
  (Hlen : (headerTotalSizeTransport + length payload ≤ MaxMessageSize)%nat) :
  ∃ msg out, MarshalTransportMsg dst payload = Ok msg ∧ MarshalTransportMsg id payload = Ok out ∧
    Work_iter r c id (Some msg) =
      match r_store r !! dst with
      | Some dp => upd_peer r dp (conn_write out)
      | None => r
      end.
Proof.
  exists (transport_wire dst payload), (transport_wire id payload).
  rewrite !MarshalTransportMsg_eq. split; [done|]. split; [done|].
  unfold Work_iter. rewrite take_ge by (unfold transport_wire; len).
  change (length (transport_wire dst payload) =? 0)%nat with false.
  change (ValidateVersion (transport_wire dst payload)) with (Ok (E:=msg_error) CurrentProtocolVersion).
  change (DetermineClientMessageType (transport_wire dst payload)) with (Ok (E:=msg_error) MsgTypeTransport).
  cbv iota. unfold handleMsgType. rewrite bool_decide_false, bool_decide_true by done.
  unfold handleTransportMsg, transport_wire. rewrite UnmarshalTransportID_cut by done.
  destruct (r_store r !! dst); [|done]. by rewrite UpdateTransportMsg_cut.
Qed.

(** ** A concrete schedule

    [allow/allow_all.go]: the validator of servers without authentication. *)
Definition allow_all : Validator := mkValidator (λ _, Ok tt) (λ _, Ok tt).

Definition sample_pid (b : byte) : PeerID := replicate peerIDSize b ↾ I.

Definition sample_prepared : preparedMsg :=
  mkPrepared [Byte.x01; MsgTypeHelloResponse; Byte.x55] [Byte.x01; MsgTypeAuthResponse; Byte.x55].

Definition no_gob (_ : bytes) : option bytes := None.

Definition peerA : PeerID := sample_pid Byte.x41.

Definition peerB : PeerID := sample_pid Byte.x42.

(** Connect, register and start a peer. *)
Definition join (c : nat) (id : PeerID) : list action :=
  [AAccept c (Some (auth_wire id [])); ANotify c; AStart c].

(** A subscribes to B; B drops and reconnects before A's listener runs. *)
Definition flap_schedule : list action :=
  join 0 peerA ++ join 1 peerB ++
  [AWork 0 (Some (chunk_wire MsgTypeSubscribePeerState [peerB]));
   AWork 1 None; ADelete 1; AOffline 1;
   AAccept 2 (Some (auth_wire peerB [])); ANotify 2; AStart 2; AListen 0].

Definition flap_state : Relay := default (NewRelay sample_prepared)
  (run no_gob allow_all (NewRelay sample_prepared) flap_schedule).

Lemma flap_state_reachable : reachable no_gob allow_all sample_prepared flap_state.
Proof. apply (run_reachable _ _ _ flap_schedule). vm_compute. reflexivity. Qed.

Lemma relay_registry_invariant_witness :
  reachable no_gob allow_all sample_prepared flap_state ∧
  (∀ id c, r_store flap_state !! id = Some c →
     ∃ p, r_objs flap_state !! c = Some p ∧ p_id p = id ∧ in_store_phase (p_phase p)).
Proof.
  split; [apply flap_state_reachable|].
  apply (proj1 (relay_registry_invariant no_gob allow_all sample_prepared flap_state
                  flap_state_reachable)).
Defined.

(** A forwards data to B. *)
Definition forward_action : action := AWork 0 (Some (transport_wire peerB [Byte.x07])).

Lemma relay_no_spoofing_witness :
  newPreparedMsg (λ _, Some [Byte.x55]) "U" = Ok sample_prepared ∧
  ∃ r', exec no_gob allow_all flap_state forward_action = Some r' ∧
    ∀ d, ∃ news, out_of r' d = out_of flap_state d ++ news ∧
      ∀ m, m ∈ news → DetermineServerMessageType m = Ok MsgTypeTransport →
        ∃ c sender data dst payload,
          forward_action = AWork c (Some data) ∧ r_objs flap_state !! c = Some sender ∧
          p_phase sender = Running ∧
          UnmarshalTransportMsg (take MaxMessageSize data) = Ok (dst, payload) ∧
          r_store flap_state !! dst = Some d ∧
          UnmarshalTransportMsg m = Ok (p_id sender, payload).
Proof.
  assert (newPreparedMsg (λ _, Some [Byte.x55]) "U" = Ok sample_prepared) as E by reflexivity.
  split; [exact E|]. eexists. split; [vm_compute; reflexivity|].
  apply (relay_no_spoofing no_gob allow_all (λ _, Some [Byte.x55]) "U" sample_prepared flap_state
           forward_action _ E flap_state_reachable).
  vm_compute. reflexivity.
Defined.

Lemma relay_transport_delivery_witness :
  ∃ msg out, MarshalTransportMsg peerB [Byte.x01; Byte.x02] = Ok msg ∧
    MarshalTransportMsg peerA [Byte.x01; Byte.x02] = Ok out ∧
    Work_iter flap_state 0 peerA (Some msg) =
      match r_store flap_state !! peerB with
      | Some dp => upd_peer flap_state dp (conn_write out)
      | None => flap_state
      end.
Proof.
  apply (relay_transport_delivery flap_state 0 peerA peerB [Byte.x01; Byte.x02]).
  apply Nat.leb_le. reflexivity.
Defined.

(** peer-state notifications can arrive in the wrong order.  A schedule
    exists in which A subscribes to B, B disconnects and reconnects, and A's
    listener then handles both events in one batch: the callbacks run online
    first, so the last message A receives says that B went offline although B
    is registered and live, no event is pending and A is no longer interested
    in B coming online, so nothing corrects it. *)
Theorem listener_batch_reorders_events :
  ∃ r pA pB l, reachable no_gob allow_all sample_prepared r ∧
    r_objs r !! 0%nat = Some pA ∧ r_listeners r !! 0%nat = Some l ∧
    r_store r !! peerB = Some 2%nat ∧ r_objs r !! 2%nat = Some pB ∧ live pB ∧
    (∃ on off, MarshalPeersOnline [peerB] = Ok [on] ∧ MarshalPeersWentOffline [peerB] = Ok [off] ∧
       p_out pA = [on; on; off]) ∧
    eventChan l = [] ∧ peerB ∉ interestedPeersForOnline l.
Proof.
  eexists flap_state, _, _, _. split; [apply flap_state_reachable|].
  split; [vm_compute; reflexivity|]. split; [vm_compute; reflexivity|].
  split; [vm_compute; reflexivity|]. split; [vm_compute; reflexivity|].
  split; [done|]. split; [|split; [done|]].
  - exists (chunk_wire MsgTypePeersOnline [peerB]), (chunk_wire MsgTypePeersWentOffline [peerB]).
    split; [vm_compute; reflexivity|]. split; [vm_compute; reflexivity|]. vm_compute. reflexivity.
  - apply (bool_decide_eq_false_1 _). vm_compute. reflexivity.
Qed.

(** C22: a client that logs in with a token issued for the relay's secret passes
    the handshake with its own peer id as long as the token has not expired,
    and is refused with the expiry error afterwards. *)
Theorem relay_login_end_to_end gobMsg gobTok (s : bytes) (id : PeerID) (st : TokenStore) (t0 ttl now : Z)
  (Hexp : 10 ^ 9 ≤ GoStd.time_Unix (t0 + ttl) < 2 ^ 63) :
  ∃ g st' msg, V2.NewGenerator V2.AuthAlgoHMACSHA256 s ttl = Ok g ∧
    (let tok := V2.Generator_GenerateToken t0 g in
     UpdateToken st (Some (mkToken (bytes_to_string (V2.tok_Payload tok))
                             (bytes_to_string (GoStd.b64_encode (V2.tok_Signature tok))))) = Ok st') ∧
    MarshalAuthMsg id (TokenBinary st') = Ok msg ∧
    handshakeReceive gobMsg (relay_validator gobTok now s) (Some msg) =
      (if GoStd.time_Unix (t0 + ttl) <? GoStd.time_Unix now
       then Err (Some id, HsValidate ErrExpiredToken) else Ok (true, id)).
Proof.
  destruct (issued_token_accept s ttl t0 now st Hexp) as (g & st' & Hg & Hu & Hl & Hv).
  exists g, st', (auth_wire id (TokenBinary st')). split; [done|]. split; [done|].
  rewrite MarshalAuthMsg_eq. rewrite (proj2 (Nat.ltb_ge _ _)) by (unfold MaxHandshakeSize; len).
  split; [done|]. rewrite handshakeReceive_auth by (unfold MaxHandshakeSize; len).
  change (v_Validate (relay_validator gobTok now s) (AnyBytes (TokenBinary st')))
    with (V2.Validate now (V2.NewValidator s) (AnyBytes (TokenBinary st'))).
  rewrite Hv. by destruct (_ <? _).
Qed.

Lemma relay_login_end_to_end_witness :
  let s := string_to_bytes "relay-secret" in
  let t0 := 1700000000 * GoStd.second in
  ∃ g st' msg, V2.NewGenerator V2.AuthAlgoHMACSHA256 s GoStd.hour = Ok g ∧
    (let tok := V2.Generator_GenerateToken t0 g in
     UpdateToken (mkTokenStore None)
       (Some (mkToken (bytes_to_string (V2.tok_Payload tok))
                (bytes_to_string (GoStd.b64_encode (V2.tok_Signature tok))))) = Ok st') ∧
    MarshalAuthMsg peerA (TokenBinary st') = Ok msg ∧
    handshakeReceive no_gob (relay_validator (λ _, None) (t0 + 2 * GoStd.hour) s) (Some msg) =
      (if GoStd.time_Unix (t0 + GoStd.hour) <? GoStd.time_Unix (t0 + 2 * GoStd.hour)
       then Err (Some peerA, HsValidate ErrExpiredToken) else Ok (true, peerA)).
Proof.
  apply (relay_login_end_to_end no_gob (λ _, None) (string_to_bytes "relay-secret") peerA
           (mkTokenStore None) (1700000000 * GoStd.second) GoStd.hour
           (1700000000 * GoStd.second + 2 * GoStd.hour)).
  vm_compute. split; [discriminate|reflexivity].
Defined.
