(* ===== verification/RelayLocks.v ===== *)
(** * The locks of the relay's peer-state notifications

    The notification path of one subscribed peer at the granularity of its
    locks: [Peer.handleSubscribePeerState] and [Peer.sendPeersWentOffline]
    (relay/server/peer.go), [Store.GetOnlinePeersAndRegisterInterest],
    [Store.AddPeer] and [Store.DeletePeer] (relay/server/store/store.go),
    [PeerNotifier.PeerCameOnline] and [PeerWentOffline] (notifier.go) and the
    [Listener] (listener.go).  A goroutine is a program counter, a step takes or
    releases one lock or performs the work between two of them.  The theorems
    show what [notificationMutex] protects, and that the locks and the bounded
    event channel can deadlock. *)

From stdpp Require Import base list gmap relations.
From S2P Require Import Prelude RelayMessages RelayServer.

(** The goroutine of [Work], in [handleSubscribePeerState]: before
    [notificationMutex.Lock]; before [peersLock.RLock]; before [l.mu.Lock] of
    [AddInterestedPeers]; holding [l.mu]; before the loop over the store; with
    [peersLock] released, before [sendPeersOnline]. *)
Inductive wpc :=
| WIdle
| WSub (ids : list PeerID)
| WNotif (ids : list PeerID)
| WStore (ids : list PeerID)
| WMu (ids : list PeerID)
| WCollect (ids : list PeerID)
| WSend (onlinePeers : list PeerID).

(** The goroutine of [listenForEvents]: at the [select]; with a batch, before
    [onPeersComeOnline]; before [notificationMutex.Lock] of
    [sendPeersWentOffline]; holding it. *)
Inductive gpc :=
| GIdle
| GOnline (peersOnline peersOffline : list PeerID)
| GOffWait (peersOffline : list PeerID)
| GOff (peersOffline : list PeerID).

(** A call of [PeerCameOnline] or [PeerWentOffline] at this listener: before the
    lock of [l.mu] (write lock for online, read lock for offline); holding it. *)
Inductive npc :=
| NWait (id : PeerID) (online : bool)
| NHold (id : PeerID) (online : bool).

(** Who holds [notificationMutex]. *)
Inductive holder := ByWork | ByListener.

(** Who holds [l.mu] for writing. *)
Inductive writer := WriterWork | WriterNotify (k : nat).

(** What is written to the peer's connection: the answer to a subscription, an
    online notification of the listener, an offline notification. *)
Inductive written :=
| Answer (ids : list PeerID)
| Online (ids : list PeerID)
| Offline (ids : list PeerID).

#[global] Instance holder_eq_dec : EqDecision holder.
Proof. solve_decision. Defined.

#[global] Instance writer_eq_dec : EqDecision writer.
Proof. solve_decision. Defined.

Record nstate := mkN {
  n_work : wpc;
  n_listen : gpc;
  n_notify : gmap nat npc;
  n_mutex : option holder;
  n_muW : option writer;
  n_muR : gset nat;
  n_lst : Listener;
  n_store : gset PeerID;
  n_log : list written;
}.

Definition n_init : nstate := mkN WIdle GIdle ∅ None None ∅ newListener ∅ [].

(** [peersLock] is held for reading by [GetOnlinePeersAndRegisterInterest]. *)
Definition peersLock_read (w : wpc) : bool :=
  match w with WStore _ | WMu _ | WCollect _ => true | _ => false end.

(** One step of [handleSubscribePeerState]; [None] when it is blocked. *)
Definition work_step (s : nstate) : option nstate :=
  let '(mkN w g ns mx mw mr l st lg) := s in
  match w with
  | WIdle => None
  | WSub ids =>
      match mx with
      | None => Some (mkN (WNotif ids) g ns (Some ByWork) mw mr l st lg)
      | Some _ => None
      end
  | WNotif ids => Some (mkN (WStore ids) g ns mx mw mr l st lg)
  | WStore ids =>
      if bool_decide (mw = None ∧ mr = ∅)
      then Some (mkN (WMu ids) g ns mx (Some WriterWork) mr l st lg) else None
  | WMu ids => Some (mkN (WCollect ids) g ns mx None mr (AddInterestedPeers l ids) st lg)
  | WCollect ids => Some (mkN (WSend (filter (.∈ st) ids)) g ns mx mw mr l st lg)
  | WSend on =>
      Some (mkN WIdle g ns None mw mr l st (match on with [] => lg | _ => lg ++ [Answer on] end))
  end.

(** One step of the listener goroutine. *)
Definition listen_step (s : nstate) : option nstate :=
  let '(mkN w g ns mx mw mr l st lg) := s in
  match g with
  | GIdle => '(l', on, off) ← listenForEvents l; Some (mkN w (GOnline on off) ns mx mw mr l' st lg)
  | GOnline on off =>
      Some (mkN w (match off with [] => GIdle | _ => GOffWait off end) ns mx mw mr l st
              (match on with [] => lg | _ => lg ++ [Online on] end))
  | GOffWait off =>
      match mx with
      | None => Some (mkN w (GOff off) ns (Some ByListener) mw mr l st lg)
      | Some _ => None
      end
  | GOff off => Some (mkN w GIdle ns None mw mr l st (lg ++ [Offline off]))
  end.

(** One step of notification [k]: [peerComeOnline] or [peerWentOffline]. *)
Definition notify_step (k : nat) (s : nstate) : option nstate :=
  let '(mkN w g ns mx mw mr l st lg) := s in
  match ns !! k with
  | None => None
  | Some (NWait id true) =>
      if bool_decide (mw = None ∧ mr = ∅)
      then Some (mkN w g (<[k := NHold id true]> ns) mx (Some (WriterNotify k)) mr l st lg) else None
  | Some (NWait id false) =>
      if bool_decide (mw = None)
      then Some (mkN w g (<[k := NHold id false]> ns) mx mw ({[k]} ∪ mr) l st lg) else None
  | Some (NHold id true) =>
      l' ← peerComeOnline id l; Some (mkN w g (delete k ns) mx None mr l' st lg)
  | Some (NHold id false) =>
      l' ← peerWentOffline id l; Some (mkN w g (delete k ns) mx mw (mr ∖ {[k]}) l' st lg)
  end.

(** [Store.AddPeer] under [peersLock.Lock], followed by [PeerCameOnline]. *)
Definition add_step (k : nat) (id : PeerID) (s : nstate) : option nstate :=
  let '(mkN w g ns mx mw mr l st lg) := s in
  if peersLock_read w || bool_decide (is_Some (ns !! k)) then None
  else Some (mkN w g (<[k := NWait id true]> ns) mx mw mr l ({[id]} ∪ st) lg).

(** [Store.DeletePeer] under [peersLock.Lock], followed by [PeerWentOffline]
    when the peer was there. *)
Definition delete_step (k : nat) (id : PeerID) (s : nstate) : option nstate :=
  let '(mkN w g ns mx mw mr l st lg) := s in
  if peersLock_read w || bool_decide (is_Some (ns !! k)) then None
  else if bool_decide (id ∈ st)
  then Some (mkN w g (<[k := NWait id false]> ns) mx mw mr l (st ∖ {[id]}) lg)
  else Some s.

(** A subscription message is read, when the previous one has been handled. *)
Definition subscribe_step (ids : list PeerID) (s : nstate) : option nstate :=
  let '(mkN w g ns mx mw mr l st lg) := s in
  match w with WIdle => Some (mkN (WSub ids) g ns mx mw mr l st lg) | _ => None end.

Inductive nlabel :=
| LSubscribe (ids : list PeerID)
| LWork
| LListen
| LNotify (k : nat)
| LAdd (k : nat) (id : PeerID)
| LDelete (k : nat) (id : PeerID).

Definition nexec (s : nstate) (a : nlabel) : option nstate :=
  match a with
  | LSubscribe ids => subscribe_step ids s
  | LWork => work_step s
  | LListen => listen_step s
  | LNotify k => notify_step k s
  | LAdd k id => add_step k id s
  | LDelete k id => delete_step k id s
  end.

Inductive nstep : nstate → nstate → Prop :=
| nstep_label s a s' : nexec s a = Some s' → nstep s s'.

Fixpoint nrun (s : nstate) (acts : list nlabel) : option nstate :=
  match acts with
  | [] => Some s
  | a :: acts => s' ← nexec s a; nrun s' acts
  end.

(** ** What [notificationMutex] protects *)

(** The program counters inside the critical sections. *)
Definition work_holds (w : wpc) : bool :=
  match w with WIdle | WSub _ => false | _ => true end.

Definition listen_holds (g : gpc) : bool := match g with GOff _ => true | _ => false end.

Definition mutex_inv (s : nstate) : Prop :=
  (n_mutex s = Some ByWork ↔ work_holds (n_work s) = true) ∧
  (n_mutex s = Some ByListener ↔ listen_holds (n_listen s) = true).

Lemma mutex_inv_step s s' : mutex_inv s → nstep s s' → mutex_inv s'.
Proof.
  unfold mutex_inv. intros H Hs. destruct Hs as [s a s' E].
  destruct s as [w g ns mx mw mr l st lg].
  destruct a as [ids| | |k|k id|k id]; cbn in E, H;
    try (destruct (ns !! k) as [[? []|? []]|]);
    unfold mbind, option_bind in E;
    repeat (case_match; simplify_eq/=); simplify_eq/=; naive_solver.
Qed.

Lemma nreachable_mutex s : rtc nstep n_init s → mutex_inv s.
Proof.
  intros H. remember n_init as s0 eqn:E.
  assert (mutex_inv s0) as H0 by by subst.
  clear E. induction H; [done|]. eauto using mutex_inv_step.
Qed.

Definition is_offline (x : written) : bool := match x with Offline _ => true | _ => false end.

Lemma nstep_log s s' : nstep s s' → ∃ l, n_log s' = n_log s ++ l.
Proof.
  intros [s0 a s1 E]. destruct s0 as [w g ns mx mw mr l st lg].
  destruct a as [ids| | |k|k id|k id]; cbn in E;
    try (destruct (ns !! k) as [[? []|? []]|]);
    unfold mbind, option_bind in E;
    repeat (case_match; simplify_eq/=); simplify_eq/=;
    first [by eexists | exists []; by rewrite app_nil_r].
Qed.

Lemma nsteps_log s s' : rtc nstep s s' → ∃ l, n_log s' = n_log s ++ l.
Proof.
  induction 1 as [s|s1 s2 s3 H _ [l IH]]; [exists []; by rewrite app_nil_r|].
  apply nstep_log in H as [l' E]. exists (l' ++ l). by rewrite IH, E, app_assoc.
Qed.

(** While an answer is due no offline notification is written. *)
Lemma pending_answer_step s s' on :
  mutex_inv s → nstep s s' → n_work s = WSend on → on ≠ [] →
  ∃ l, n_log s' = n_log s ++ l ∧ Forall (λ x, is_offline x = false) l ∧
    (n_work s' = WSend on ∨ l = [Answer on]).
Proof.
  unfold mutex_inv. intros H Hs Hw Hon. revert H Hw. destruct Hs as [s a s' E]. intros H Hw.
  destruct s as [w g ns mx mw mr l st lg].
  simpl in Hw. subst w.
  destruct a as [ids| | |k|k id|k id]; cbn in E, H;
    try (destruct (ns !! k) as [[? []|? []]|]);
    unfold mbind, option_bind in E;
    repeat (case_match; simplify_eq/=); simplify_eq/=;
    try (exists []; rewrite app_nil_r; split_and!; [done|by constructor|by left]);
    try (eexists; split_and!; [done|by repeat constructor|by (left + right)]).
  destruct H as [[_ H1] [_ H2]]. specialize (H1 eq_refl). specialize (H2 eq_refl). congruence.
Qed.

(** ** The deadlock *)

(** The subscription waits for [l.mu], which notification [k] holds while it
    waits for room in [eventChan]; the channel is drained only by the listener
    goroutine, which waits for [notificationMutex], held by the subscription. *)
Definition stuck (k : nat) (s : nstate) : Prop :=
  ∃ ids off id,
    n_work s = WStore ids ∧ n_listen s = GOffWait off ∧ n_mutex s = Some ByWork ∧
    n_notify s !! k = Some (NHold id false) ∧ n_muW s = None ∧ k ∈ n_muR s ∧
    (∀ k' id', n_notify s !! k' ≠ Some (NHold id' true)) ∧
    lst_done (n_lst s) = false ∧ (eventChanCap ≤ length (eventChan (n_lst s)))%nat ∧
    id ∈ interestedPeersForOffline (n_lst s).

(** A full channel of a live listener: only an uninterested notification passes. *)
Lemma peerWentOffline_full l id l' :
  lst_done l = false → (eventChanCap ≤ length (eventChan l))%nat →
  peerWentOffline id l = Some l' → (id ∉ interestedPeersForOffline l) ∧ l' = l.
Proof.
  intros Hd Hc. unfold peerWentOffline, send_event. rewrite Hd.
  case_bool_decide; [|by intros [= <-]]. case_match; [|done].
  apply Nat.ltb_lt in H0. lia.
Qed.

Lemma stuck_notify k s k' s' : stuck k s → notify_step k' s = Some s' → stuck k s'.
Proof.
  intros (ids & off & id & Hw & Hg & Hx & Hk & HmW & Hr & Hno & Hd & Hc & Hi) E.
  destruct s as [w g ns mx mw mr l st lg]. simpl in *. subst.
  destruct (ns !! k') as [[id' []|id' []]|] eqn:Ek; [..|done].
  - case_bool_decide as H; [|done]. destruct H as [_ ->]. set_solver.
  - case_bool_decide; [|done]. simplify_eq. exists ids, off, id. simpl.
    assert (k ≠ k') by congruence. rewrite lookup_insert_ne by done. split_and!; try done.
    + set_solver.
    + intros k2 id2. destruct (decide (k2 = k')) as [->|]; [by rewrite lookup_insert_eq|].
      by rewrite lookup_insert_ne.
  - by apply Hno in Ek.
  - destruct (peerWentOffline id' l) as [l'|] eqn:Ep; simplify_eq/=.
    apply peerWentOffline_full in Ep as [Hni ->]; [|done..].
    assert (k ≠ k') by congruence. exists ids, off, id. simpl.
    rewrite lookup_delete_ne by done. split_and!; try done; [set_solver|].
    intros k2 id2 H2. apply lookup_delete_Some in H2 as [_ H2]. by apply Hno in H2.
Qed.

Lemma stuck_step k s s' : stuck k s → nstep s s' → stuck k s'.
Proof.
  intros H Hs. destruct Hs as [s a s' E]. destruct a as [ids| | |k'|k' id|k' id]; cbn in E.
  4: by eapply stuck_notify.
  all: destruct H as (ids' & off & id' & Hw & Hg & Hx & Hk & HmW & Hr & _);
    destruct s as [w g ns mx mw mr l st lg]; simpl in *; subst; try done.
  cbn in E. case_bool_decide as H; [|done]. destruct H as [_ ->]. set_solver.
Qed.

Lemma stuck_steps k s s' : stuck k s → rtc nstep s s' → stuck k s'.
Proof. intros H. induction 1; eauto using stuck_step. Qed.

(** What is blocked in a stuck state. *)
Lemma stuck_blocks k s : stuck k s →
  work_step s = None ∧ listen_step s = None ∧ (∀ ids, subscribe_step ids s = None) ∧
  (∀ k' id, add_step k' id s = None) ∧ ∀ k' id, delete_step k' id s = None.
Proof.
  intros (ids & off & id & Hw & Hg & Hx & Hk & HmW & Hr & _).
  destruct s as [w g ns mx mw mr l st lg]. simpl in *. subst. cbn. split_and!; try done.
  case_bool_decide as H; [|done]. destruct H as [_ ->]. set_solver.
Qed.

Lemma nrun_steps s acts s' : nrun s acts = Some s' → rtc nstep s s'.
Proof.
  revert s. induction acts as [|a acts IH]; intros s; simpl; [by intros [= ->]|].
  destruct (nexec s a) as [s1|] eqn:E; simpl; [|done]. intros H.
  eapply rtc_l; [by econstructor|]. by apply IH.
Qed.

(** A subscription handled without interference. *)
Definition subscribe_run (ids : list PeerID) : list nlabel := LSubscribe ids :: replicate 6 LWork.

(** Peer [id] connects and disconnects, and both notifications are delivered. *)
Definition flap_run (id : PeerID) : list nlabel :=
  [LAdd 0 id; LNotify 0; LNotify 0; LDelete 1 id; LNotify 1; LNotify 1].

(** A peer subscribes to B and B flaps; the listener takes the first batch, and
    while it writes B flaps until the channel is full and once more; then the
    peer subscribes again. *)
Definition deadlock_run : list nlabel :=
  subscribe_run [peerB] ++ flap_run peerB ++ [LListen] ++
  concat (replicate eventChanCap (flap_run peerB)) ++
  [LAdd 0 peerB; LNotify 0; LNotify 0; LDelete 1 peerB; LNotify 1] ++
  [LSubscribe [peerA]; LWork; LWork; LListen].

Definition stuckb (k : nat) (s : nstate) : bool :=
  match n_work s, n_listen s, n_mutex s, map_to_list (n_notify s), n_muW s with
  | WStore _, GOffWait _, Some ByWork, [(k', NHold id false)], None =>
      bool_decide (k' = k) && bool_decide (k ∈ n_muR s) && negb (lst_done (n_lst s)) &&
      bool_decide (eventChanCap ≤ length (eventChan (n_lst s)))%nat &&
      bool_decide (id ∈ interestedPeersForOffline (n_lst s))
  | _, _, _, _, _ => false
  end.

Lemma stuckb_stuck k s : stuckb k s = true → stuck k s.
Proof.
  unfold stuckb, stuck. destruct (n_work s) as [| | |ids| | |]; try done.
  destruct (n_listen s) as [| |off|]; try done. destruct (n_mutex s) as [[]|]; try done.
  destruct (map_to_list (n_notify s)) as [|[k' [?|id []]] [|]] eqn:Em; try done.
  destruct (n_muW s); try done. intros H. bool_facts. subst.
  exists ids, off, id. split_and!; try done.
  - apply elem_of_map_to_list. rewrite Em. by left.
  - intros k2 id2 Hk2. apply elem_of_map_to_list in Hk2. rewrite Em in Hk2.
    apply list_elem_of_singleton in Hk2. done.
Qed.

Lemma deadlock_run_stuck : ∃ s, rtc nstep n_init s ∧ stuckb 1 s = true.
Proof.
  assert (from_option (stuckb 1) false (nrun n_init deadlock_run) = true) as H.
  { vm_compute. reflexivity. }
  destruct (nrun n_init deadlock_run) as [s|] eqn:E; [|done].
  exists s. split; [by eapply nrun_steps|done].
Qed.

(** ** Properties *)

(** an offline notification cannot overtake the answer to a subscription.
    Once the online peers of a subscription have been collected (and there are
    some), whatever the store, the notifier and the listener do in the
    meantime, no offline notification is written before the answer; so a peer
    that goes offline after the collection is not reported online last because
    of the answer. *)
Theorem answer_before_offline s on s'
  (Hr : rtc nstep n_init s) (Hw : n_work s = WSend on) (Hon : on ≠ []) (Hs : rtc nstep s s') :
  ∃ l, n_log s' = n_log s ++ l ∧
    (n_work s' = WSend on ∧ Forall (λ x, is_offline x = false) l ∨
     ∃ l1 l2, l = l1 ++ Answer on :: l2 ∧ Forall (λ x, is_offline x = false) l1).
Proof.
  induction Hs as [s|s1 s2 s3 H Hs IH]; [exists []; rewrite app_nil_r; auto|].
  destruct (pending_answer_step s1 s2 on (nreachable_mutex s1 Hr) H Hw Hon) as (l & E & Hf & Hc).
  destruct Hc as [Hw2|El].
  - destruct IH as (l' & E' & Hl'); [by eapply rtc_r|done|]. exists (l ++ l').
    rewrite E', E, app_assoc. split; [done|]. destruct Hl' as [[? ?]|(l1 & l2 & -> & ?)].
    + left. split; [done|]. by apply Forall_app.
    + right. exists (l ++ l1), l2. rewrite app_assoc. split; [done|]. by apply Forall_app.
  - destruct (nsteps_log s2 s3 Hs) as [l' E']. exists (l ++ l'). rewrite E', E, app_assoc.
    split; [done|]. right. exists [], l'. by subst.
Qed.

(** B is online and collected; before the answer B goes offline, and the
    listener gets as far as it can. *)
Definition race_run : list nlabel :=
  LAdd 0 peerB :: LNotify 0 :: LNotify 0 :: LSubscribe [peerB] :: replicate 5 LWork.

Definition race_state : nstate := default n_init (nrun n_init race_run).

Definition race_rest : list nlabel :=
  [LDelete 1 peerB; LNotify 1; LNotify 1; LListen; LListen; LWork; LListen; LListen].

Definition race_end : nstate := default n_init (nrun race_state race_rest).

Lemma answer_before_offline_witness :
  n_log race_end = [Answer [peerB]; Offline [peerB]] ∧
  ∃ l, n_log race_end = n_log race_state ++ l ∧
    (n_work race_end = WSend [peerB] ∧ Forall (λ x, is_offline x = false) l ∨
     ∃ l1 l2, l = l1 ++ Answer [peerB] :: l2 ∧ Forall (λ x, is_offline x = false) l1).
Proof.
  split; [vm_compute; reflexivity|].
  apply (answer_before_offline race_state [peerB] race_end).
  - apply (nrun_steps n_init race_run). vm_compute. reflexivity.
  - vm_compute. reflexivity.
  - discriminate.
  - apply (nrun_steps race_state race_rest). vm_compute. reflexivity.
Defined.

(** C40: the notification path can deadlock, and the deadlock stops the relay.
    There is a schedule after which the subscription, the notification and the
    listener goroutine wait for each other: in every later state the three are
    still blocked, and since the subscription holds the read lock of the peer
    store, no peer can be added to the store or deleted from it any more. *)
Theorem subscription_deadlock :
  ∃ s, rtc nstep n_init s ∧ ∀ s', rtc nstep s s' →
    work_step s' = None ∧ listen_step s' = None ∧ notify_step 1 s' = None ∧
    (∀ k id, add_step k id s' = None) ∧ ∀ k id, delete_step k id s' = None.
Proof.
  destruct deadlock_run_stuck as (s & Hs0 & Hb). exists s. split; [done|]. intros s' Hs.
  apply stuckb_stuck, (stuck_steps 1 s s') in Hb; [|done].
  destruct (stuck_blocks 1 s' Hb) as (H1 & H2 & _ & H4 & H5). split_and!; [done|done| |done|done].
  destruct Hb as (ids & off & id & _ & _ & _ & Hk & _ & _ & _ & Hd & Hc & Hi).
  destruct s' as [w g ns mx mw mr l st lg]. simpl in *. rewrite Hk.
  destruct (peerWentOffline id l) as [l'|] eqn:Ep; [|done].
  by apply peerWentOffline_full in Ep as [? _].
Qed.
