(* ===== verification/RelayHealth.v ===== *)
(** * Relay health checks

    The health-check sender of the relay server and the receiver of the relay
    client ([shared/relay/healthcheck]: sender.go, receiver.go, env.go).  The
    [select] loops are state machines over the events they wait for; the
    theorems fix exactly when a silent peer is declared dead and show that an
    answering one never is. *)

From stdpp Require Import base list.
From S2P Require Import Prelude GoStd.

(** ** Options and environment *)

Definition defaultAttemptThreshold : Z := 1.

Definition defaultHealthCheckInterval : Z := 25 * second.

Definition defaultHealthCheckTimeout : Z := 20 * second.

Definition defaultHeartbeatTimeout : Z := defaultHealthCheckInterval + 10 * second.

(** [getAttemptThresholdFromEnv], given the variable's value when it is set. *)
Definition getAttemptThresholdFromEnv (env : option bytes) : Z :=
  match env with
  | None => defaultAttemptThreshold
  | Some [] => defaultAttemptThreshold
  | Some s => match ParseInt s with
              | Some t => if t <=? 0 then defaultAttemptThreshold else t
              | None => defaultAttemptThreshold
              end
  end.

(** ** sender.go *)

Record SenderOptions := mkSenderOptions {
  so_HealthCheckInterval : Z;
  so_HealthCheckTimeout : Z;
  so_AttemptThreshold : Z;
}.

(** The sender with the local variable [failureCounter] of its loop.  The
    channel [HealthCheck] has room for one signal: [s_healthCheck] says whether
    it is full and [s_blocked] whether the loop waits in
    [hc.HealthCheck <- struct{}{}]; [s_timeoutSent] is the signal on [Timeout],
    and [s_stopped] says that the loop has returned. *)
Record Sender := mkSender {
  s_interval : Z;
  s_timeout : Z;
  s_attemptThreshold : Z;
  s_alive : bool;
  s_failureCounter : Z;
  s_healthCheck : bool;
  s_blocked : bool;
  s_timeoutSent : bool;
  s_stopped : bool;
}.

Definition NewSenderWithOpts (o : SenderOptions) : Sender :=
  let iv := if so_HealthCheckInterval o <=? 0 then defaultHealthCheckInterval else so_HealthCheckInterval o in
  let tm := if so_HealthCheckTimeout o <=? 0 then defaultHealthCheckTimeout else so_HealthCheckTimeout o in
  let th := if so_AttemptThreshold o <=? 0 then defaultAttemptThreshold else so_AttemptThreshold o in
  mkSender iv (iv + tm) th false 0 false false false false.

Definition NewSender (env : option bytes) : Sender :=
  NewSenderWithOpts (mkSenderOptions defaultHealthCheckInterval defaultHealthCheckTimeout
                       (getAttemptThresholdFromEnv env)).

(** The branches of the [select] in [StartHealthCheck], and [Read]: the receiver
    of [HealthCheck] ([Peer.handleHealthcheckEvents]) takes a signal. *)
Inductive sender_event := Tick | TimeoutTick | Ack | CtxDone | Read.

(** [None]: the branch cannot be taken, because the loop is blocked in its send,
    or there is no signal to read. *)
Definition StartHealthCheck_step (s : Sender) (e : sender_event) : option Sender :=
  let '(mkSender iv tm th alive fc hc blocked ts stopped) := s in
  if stopped then Some s
  else if blocked then
    match e with
    | Read => Some (mkSender iv tm th alive fc true false ts false)
    | _ => None
    end
  else
    match e with
    | Tick =>
        if hc then Some (mkSender iv tm th alive fc true true ts false)
        else Some (mkSender iv tm th alive fc true false ts false)
    | TimeoutTick =>
        if alive then Some (mkSender iv tm th false fc hc false ts false)
        else
          let fc := fc + 1 in
          if fc <? th then Some (mkSender iv tm th false fc hc false ts false)
          else Some (mkSender iv tm th false fc hc false true true)
    | Ack => Some (mkSender iv tm th true 0 hc false ts false)
    | CtxDone => Some (mkSender iv tm th alive fc hc false ts true)
    | Read => if hc then Some (mkSender iv tm th alive fc false false ts false) else None
    end.

Fixpoint StartHealthCheck (s : Sender) (es : list sender_event) : option Sender :=
  match es with
  | [] => Some s
  | e :: es => s' ← StartHealthCheck_step s e; StartHealthCheck s' es
  end.

(** ** receiver.go *)

Record ReceiverOptions := mkReceiverOptions {
  ro_HeartbeatTimeout : Z;
  ro_AttemptThreshold : Z;
}.

Record Receiver := mkReceiver {
  rc_heartbeatTimeout : Z;
  rc_attemptThreshold : Z;
  rc_alive : bool;
  rc_failureCounter : Z;
  rc_onTimeout : bool;
  rc_stopped : bool;
}.

Definition NewReceiverWithOpts (o : ReceiverOptions) : Receiver :=
  let tm := if ro_HeartbeatTimeout o <=? 0 then defaultHeartbeatTimeout else ro_HeartbeatTimeout o in
  let th := if ro_AttemptThreshold o <=? 0 then defaultAttemptThreshold else ro_AttemptThreshold o in
  mkReceiver tm th false 0 false false.

Definition NewReceiver (env : option bytes) : Receiver :=
  NewReceiverWithOpts (mkReceiverOptions defaultHeartbeatTimeout (getAttemptThresholdFromEnv env)).

Inductive receiver_event := Heartbeat | HeartbeatTick | Stop.

(** [notifyTimeout] signals [OnTimeout], which has room for one signal. *)
Definition waitForHealthcheck_step (r : Receiver) (e : receiver_event) : Receiver :=
  if rc_stopped r then r
  else
    match e with
    | Heartbeat =>
        mkReceiver (rc_heartbeatTimeout r) (rc_attemptThreshold r) true 0 (rc_onTimeout r) false
    | HeartbeatTick =>
        if rc_alive r then
          mkReceiver (rc_heartbeatTimeout r) (rc_attemptThreshold r) false (rc_failureCounter r)
            (rc_onTimeout r) false
        else
          let fc := rc_failureCounter r + 1 in
          if fc <? rc_attemptThreshold r then
            mkReceiver (rc_heartbeatTimeout r) (rc_attemptThreshold r) false fc (rc_onTimeout r) false
          else
            mkReceiver (rc_heartbeatTimeout r) (rc_attemptThreshold r) false fc true true
    | Stop =>
        mkReceiver (rc_heartbeatTimeout r) (rc_attemptThreshold r) (rc_alive r)
          (rc_failureCounter r) (rc_onTimeout r) true
    end.

Definition waitForHealthcheck (r : Receiver) (es : list receiver_event) : Receiver :=
  foldl waitForHealthcheck_step r es.

(** ** The sender as an abstract watchdog

    Silent timeout ticks left before the timeout signal. *)
Definition budget (s : Sender) : Z :=
  (if s_alive s then 1 else 0) + (s_attemptThreshold s - s_failureCounter s).

Definition sender_wf (s : Sender) : Prop :=
  0 ≤ s_failureCounter s ∧ 1 ≤ s_attemptThreshold s ∧
  if s_stopped s then True
  else s_failureCounter s < s_attemptThreshold s ∧ s_timeoutSent s = false ∧
       (s_alive s = true → s_failureCounter s = 0).

(** The signals are read: no tick finds the channel full ([full]) and only
    signals that are there are read, so the loop never blocks. *)
Fixpoint served (full : bool) (es : list sender_event) : bool :=
  match es with
  | [] => true
  | Tick :: es => negb full && served true es
  | Read :: es => full && served false es
  | _ :: es => served full es
  end.

Definition is_timeout_tick (e : sender_event) : bool :=
  match e with TimeoutTick => true | _ => false end.

Definition timeout_ticks (es : list sender_event) : Z :=
  Z.of_nat (length (filter (λ e, is_timeout_tick e = true) es)).

(** Events that neither acknowledge nor cancel. *)
Definition silent (e : sender_event) : Prop := e ≠ Ack ∧ e ≠ CtxDone.

(** No two timeout ticks without an acknowledgement between them: [ok] says
    whether one has been seen since the last timeout tick. *)
Fixpoint answered (ok : bool) (es : list sender_event) : bool :=
  match es with
  | [] => true
  | TimeoutTick :: es => ok && answered false es
  | Ack :: es => answered true es
  | _ :: es => answered ok es
  end.

Lemma sender_wf_new o : sender_wf (NewSenderWithOpts o).
Proof.
  unfold sender_wf, NewSenderWithOpts, defaultAttemptThreshold. simpl.
  destruct (so_AttemptThreshold o <=? 0) eqn:E; bool_facts; repeat split; try lia; done.
Qed.

Lemma sender_wf_step s e s' :
  sender_wf s → StartHealthCheck_step s e = Some s' → sender_wf s'.
Proof.
  unfold sender_wf, StartHealthCheck_step. destruct s as [iv tm th al fc hc bl ts st]; simpl.
  destruct st; simpl; [by intros ? [= <-]|]. intros (H1 & H2 & H3 & H4 & H5) E.
  destruct bl, e; simplify_eq; simpl;
    try destruct hc; try destruct al; try destruct (fc + 1 <? th) eqn:Ef; simplify_eq; simpl; bool_facts;
    repeat split; try lia; try done; intros; try (specialize (H5 eq_refl)); try done.
Qed.

Lemma StartHealthCheck_stopped s es : s_stopped s = true → StartHealthCheck s es = Some s.
Proof.
  intros H. destruct s. simpl in H. subst. induction es as [|e es IH]; [done|]. exact IH.
Qed.

(** A served sender that is not blocked takes every branch. *)
Lemma served_step s e es :
  s_stopped s = false → s_blocked s = false → served (s_healthCheck s) (e :: es) = true →
  ∃ s', StartHealthCheck_step s e = Some s' ∧ s_blocked s' = false ∧
    served (s_healthCheck s') es = true.
Proof.
  destruct s as [iv tm th al fc hc bl ts st]. simpl. intros -> -> H.
  destruct e; simpl in *; try (destruct hc; [|]); try destruct al;
    try destruct (fc + 1 <? th); simpl in *; try done; by eexists.
Qed.

Lemma budget_pos s : sender_wf s → s_stopped s = false → 0 < budget s.
Proof. unfold sender_wf, budget. intros (H1 & H2 & H3) H. rewrite H in H3. case_match; lia. Qed.

(** One silent event: a timeout tick spends one unit, the last one fires. *)
Lemma silent_step s e s' :
  sender_wf s → s_stopped s = false → silent e → StartHealthCheck_step s e = Some s' →
  if is_timeout_tick e && (budget s =? 1)
  then s_stopped s' = true ∧ s_timeoutSent s' = true
  else s_stopped s' = false ∧ s_timeoutSent s' = false ∧
       budget s' = budget s - (if is_timeout_tick e then 1 else 0).
Proof.
  unfold sender_wf, budget, StartHealthCheck_step, silent.
  destruct s as [iv tm th al fc hc bl ts st]; simpl. intros (H1 & H2 & H3) -> [He1 He2]. simpl in H3.
  destruct H3 as (H3 & -> & H5).
  destruct bl, e; try done; simpl; intros E; simplify_eq; simpl;
    try (destruct hc; simplify_eq; simpl; repeat split; lia);
    try (repeat split; lia).
  destruct al; simpl.
  - simplify_eq. simpl. rewrite H5 by done.
    destruct (_ =? 1) eqn:E; bool_facts; [lia|]. repeat split; lia.
  - destruct (fc + 1 <? th) eqn:Ef, (0 + (th - fc) =? 1) eqn:E2; bool_facts; simplify_eq; simpl;
      repeat split; lia.
Qed.

Lemma timeout_ticks_cons e es :
  timeout_ticks (e :: es) = (if is_timeout_tick e then 1 else 0) + timeout_ticks es.
Proof.
  unfold timeout_ticks. rewrite filter_cons. case_decide as H; destruct (is_timeout_tick e);
    simpl length; try done; lia.
Qed.

Lemma timeout_ticks_nonneg es : 0 ≤ timeout_ticks es.
Proof. unfold timeout_ticks. lia. Qed.

(** ** Properties *)

(** exact detection of a silent peer.  From any state of a running sender
    whose signals are read, after a sequence of events without acknowledgement
    or cancellation the timeout signal has been sent, and the loop has returned,
    iff the sequence contains at least [budget] timeout ticks: the attempts
    left, plus one if the peer was marked alive. *)
Theorem sender_timeout_exact (s : Sender) (es : list sender_event)
  (Hwf : sender_wf s) (Hrun : s_stopped s = false) (Hs : Forall silent es)
  (Hb : s_blocked s = false) (Hv : served (s_healthCheck s) es = true) :
  ∃ s', StartHealthCheck s es = Some s' ∧
    s_timeoutSent s' = (budget s <=? timeout_ticks es) ∧
    s_stopped s' = (budget s <=? timeout_ticks es).
Proof.
  revert s Hwf Hrun Hb Hv. induction Hs as [|e es He Hes IH]; intros s Hwf Hrun Hb Hv.
  - exists s. split; [done|]. pose proof (budget_pos s Hwf Hrun).
    rewrite (proj2 (Z.leb_gt _ _)) by (unfold timeout_ticks; simpl; lia).
    destruct Hwf as (_ & _ & H3). rewrite Hrun in H3. tauto.
  - destruct (served_step s e es Hrun Hb Hv) as (s1 & E1 & Hb1 & Hv1).
    pose proof (silent_step s e s1 Hwf Hrun He E1) as Hst.
    pose proof (sender_wf_step s e s1 Hwf E1) as Hwf'. pose proof (timeout_ticks_nonneg es) as Hn.
    rewrite timeout_ticks_cons. cbn [StartHealthCheck]. rewrite E1. cbn [mbind option_bind].
    destruct (is_timeout_tick e && (budget s =? 1)) eqn:E.
    + destruct Hst as [H1 H2]. exists s1. rewrite StartHealthCheck_stopped, H1, H2 by done.
      bool_facts. rewrite H. rewrite (proj2 (Z.leb_le _ _)) by lia. done.
    + destruct Hst as (H1 & _ & Hbu). destruct (IH s1 Hwf' H1 Hb1 Hv1) as (s' & E' & T1 & T2).
      exists s'. rewrite T1, T2, Hbu. split; [done|]. split; apply eq_iff_eq_true; rewrite !Z.leb_le; lia.
Qed.

Lemma sender_timeout_exact_witness :
  let s := NewSenderWithOpts (mkSenderOptions 0 0 2) in
  let es := [Tick; Read; TimeoutTick; Tick; Read; TimeoutTick] in
  ∃ s', StartHealthCheck s es = Some s' ∧
    s_timeoutSent s' = (budget s <=? timeout_ticks es) ∧
    s_stopped s' = (budget s <=? timeout_ticks es).
Proof.
  apply (sender_timeout_exact (NewSenderWithOpts (mkSenderOptions 0 0 2))
           [Tick; Read; TimeoutTick; Tick; Read; TimeoutTick]).
  - apply sender_wf_new.
  - reflexivity.
  - repeat constructor; discriminate.
  - reflexivity.
  - reflexivity.
Defined.

(** a peer that answers is never declared dead.  If an acknowledgement
    arrives between any two timeout ticks (and before the first one unless
    the peer is already marked alive), no timeout signal is ever sent, whether
    the signals are read or not. *)
Theorem sender_answered_no_timeout (s : Sender) (es : list sender_event) (s' : Sender)
  (Hwf : sender_wf s) (Hrun : s_timeoutSent s = false) (Ha : answered (s_alive s) es = true)
  (Hs : StartHealthCheck s es = Some s') :
  s_timeoutSent s' = false.
Proof.
  revert s Hwf Hrun Ha Hs. induction es as [|e es IH]; intros s Hwf Hrun Ha Hs; [by simplify_eq/=|].
  destruct (s_stopped s) eqn:Est; [rewrite StartHealthCheck_stopped in Hs by done; by simplify_eq|].
  simpl in Hs. destruct (StartHealthCheck_step s e) as [s1|] eqn:E1; [|done]. simpl in Hs.
  pose proof (sender_wf_step s e s1 Hwf E1) as Hwf'.
  apply (IH s1 Hwf'); [..|done]; clear IH Hs Hwf Hwf';
    destruct s as [iv tm th al fc hc bl ts st]; simpl in *; subst;
    destruct bl, e; simplify_eq/=; repeat case_match; simplify_eq/=; by bool_facts.
Qed.

Lemma sender_answered_no_timeout_witness :
  let s := NewSender None in
  ∃ s', StartHealthCheck s [Tick; Read; Ack; TimeoutTick; Tick; Ack; TimeoutTick] = Some s' ∧
    s_timeoutSent s' = false.
Proof.
  eexists. split; [reflexivity|].
  apply (sender_answered_no_timeout (NewSender None)
           [Tick; Read; Ack; TimeoutTick; Tick; Ack; TimeoutTick]); [|reflexivity..].
  apply sender_wf_new.
Defined.

(** The sender event a receiver event corresponds to. *)
Definition as_sender_event (e : receiver_event) : sender_event :=
  match e with Heartbeat => Ack | HeartbeatTick => TimeoutTick | Stop => CtxDone end.

Definition receiver_sim (r : Receiver) (s : Sender) : Prop :=
  rc_attemptThreshold r = s_attemptThreshold s ∧ rc_alive r = s_alive s ∧
  rc_failureCounter r = s_failureCounter s ∧ rc_onTimeout r = s_timeoutSent s ∧
  rc_stopped r = s_stopped s ∧ s_blocked s = false.

Lemma receiver_sim_step r s e :
  receiver_sim r s →
  ∃ s', StartHealthCheck_step s (as_sender_event e) = Some s' ∧
    receiver_sim (waitForHealthcheck_step r e) s'.
Proof.
  unfold receiver_sim, waitForHealthcheck_step, StartHealthCheck_step.
  destruct r as [tm th al fc ot st], s as [iv tm' th' al' fc' hc bl ts st']; simpl.
  intros (-> & -> & -> & -> & -> & ->). destruct st'; [by eexists|].
  destruct e; simpl; try by eexists. destruct al'; [by eexists|].
  destruct (fc' + 1 <? th'); by eexists.
Qed.

(** the client's receiver and the server's sender are the same watchdog.
    A receiver and a sender configured with the same attempt threshold stay in
    lock-step (liveness flag, failure counter, timeout signal, termination)
    over any sequence of heartbeats, timeouts and stops. *)
Theorem receiver_refines_sender (thr interval timeout hb : Z) (es : list receiver_event) :
  ∃ s', StartHealthCheck (NewSenderWithOpts (mkSenderOptions interval timeout thr))
          (as_sender_event <$> es) = Some s' ∧
    receiver_sim (waitForHealthcheck (NewReceiverWithOpts (mkReceiverOptions hb thr)) es) s'.
Proof.
  assert (receiver_sim (NewReceiverWithOpts (mkReceiverOptions hb thr))
            (NewSenderWithOpts (mkSenderOptions interval timeout thr))) as H0 by done.
  revert H0. generalize (NewReceiverWithOpts (mkReceiverOptions hb thr)) as r.
  generalize (NewSenderWithOpts (mkSenderOptions interval timeout thr)) as s.
  induction es as [|e es IH]; intros s r H; [by exists s|].
  destruct (receiver_sim_step r s e H) as (s1 & E1 & H1).
  destruct (IH s1 _ H1) as (s' & E' & H'). exists s'. split; [|done].
  cbn [fmap list_fmap StartHealthCheck]. by rewrite E1.
Qed.
