(* ===== verification/Conntrack.v ===== *)
(** * Connection tracking of the userspace firewall: data and events

    What the TCP, UDP and ICMP trackers of
    [client/firewall/uspfilter/conntrack] share: common.go and the flow event
    types of [client/internal/netflow/types].  A tracker keeps a Go map of
    pointers to connection records; the records are only reached through the
    map, so the model keeps the record in the map and an update of the record
    is an update of the map.  [None] is the nil map left by [Close]: reading it
    finds nothing and writing to it panics.  The flow logger is the list of
    stored events, newest last. *)

From stdpp Require Import base list gmap strings.
From S2P Require Import Prelude GoStd NetIP.

(** ** netflow/types *)

Inductive Direction := DirectionUnknown | Ingress | Egress.

#[global] Instance Direction_eq_dec : EqDecision Direction.
Proof. solve_decision. Defined.

Inductive FlowType := TypeUnknown | TypeStart | TypeEnd | TypeDrop.

#[global] Instance FlowType_eq_dec : EqDecision FlowType.
Proof. solve_decision. Defined.

(** [type Protocol uint8] *)
Definition Protocol := Z.

Definition ProtoICMP : Protocol := 1.

Definition ProtoTCP : Protocol := 6.

Definition ProtoUDP : Protocol := 17.

Record EventFields := mkEventFields {
  ef_FlowID : Z;
  ef_Type : FlowType;
  ef_RuleID : bytes;
  ef_Direction : Direction;
  ef_Protocol : Protocol;
  ef_SourceIP : Addr;
  ef_DestIP : Addr;
  ef_SourcePort : Z;
  ef_DestPort : Z;
  ef_ICMPType : Z;
  ef_ICMPCode : Z;
  ef_RxPackets : Z;
  ef_TxPackets : Z;
  ef_RxBytes : Z;
  ef_TxBytes : Z;
}.

(** ** common.go *)

(** A flow id stands for a random UUID. *)
Record BaseConnTrack := mkBase {
  FlowId : Z;
  bc_Direction : Direction;
  SourceIP : Addr;
  DestIP : Addr;
  lastSeen : Z;
  PacketsTx : Z;
  PacketsRx : Z;
  BytesTx : Z;
  BytesRx : Z;
  DNATOrigPort : Z;
}.

Definition newBase (flowId : Z) (d : Direction) (src dst : Addr) : BaseConnTrack :=
  mkBase flowId d src dst 0 0 0 0 0 0.

Definition set_DNATOrigPort (b : BaseConnTrack) (p : Z) : BaseConnTrack :=
  mkBase (FlowId b) (bc_Direction b) (SourceIP b) (DestIP b) (lastSeen b)
    (PacketsTx b) (PacketsRx b) (BytesTx b) (BytesRx b) (u32 p).

Definition UpdateLastSeen (now : Z) (b : BaseConnTrack) : BaseConnTrack :=
  mkBase (FlowId b) (bc_Direction b) (SourceIP b) (DestIP b) now
    (PacketsTx b) (PacketsRx b) (BytesTx b) (BytesRx b) (DNATOrigPort b).

(** The counters are [atomic.Uint64]. *)
Definition UpdateCounters (d : Direction) (size : Z) (b : BaseConnTrack) : BaseConnTrack :=
  if bool_decide (d = Egress) then
    mkBase (FlowId b) (bc_Direction b) (SourceIP b) (DestIP b) (lastSeen b)
      (u64 (PacketsTx b + 1)) (PacketsRx b) (u64 (BytesTx b + u64 size)) (BytesRx b) (DNATOrigPort b)
  else
    mkBase (FlowId b) (bc_Direction b) (SourceIP b) (DestIP b) (lastSeen b)
      (PacketsTx b) (u64 (PacketsRx b + 1)) (BytesTx b) (u64 (BytesRx b + u64 size)) (DNATOrigPort b).

Definition GetLastSeen (b : BaseConnTrack) : Z := lastSeen b.

Definition timeoutExceeded (now : Z) (b : BaseConnTrack) (timeout : Z) : bool :=
  timeout <? now - lastSeen b.

Record ConnKey := mkKey { SrcIP : Addr; DstIP : Addr; SrcPort : Z; DstPort : Z }.

#[global] Instance ConnKey_eq_dec : EqDecision ConnKey.
Proof. solve_decision. Defined.

#[global] Program Instance ConnKey_countable : Countable ConnKey :=
  inj_countable' (λ k, (SrcIP k, DstIP k, SrcPort k, DstPort k))
    (λ '(a, b, c, d), mkKey a b c d) _.
Next Obligation. by intros []. Qed.

(** The key of the opposite direction. *)
Definition reverse_key (k : ConnKey) : ConnKey := mkKey (DstIP k) (SrcIP k) (DstPort k) (SrcPort k).

(** ** Go maps that may be nil *)

Definition nmap_get {K V} `{Countable K} (m : option (gmap K V)) (k : K) : option V := m ≫= λ m, m !! k.

Definition nmap_set {E K V} `{Countable K} (m : option (gmap K V)) (k : K) (v : V)
    : outcome E (option (gmap K V)) :=
  match m with Some m => Ok (Some (<[k := v]> m)) | None => Panic end.

(** An update of the record behind a pointer found in the map. *)
Definition nmap_upd {K V} `{Countable K} (m : option (gmap K V)) (k : K) (v : V) : option (gmap K V) :=
  (λ m, <[k := v]> m) <$> m.

Lemma UpdateCounters_id d n b :
  FlowId (UpdateCounters d n b) = FlowId b ∧ bc_Direction (UpdateCounters d n b) = bc_Direction b ∧
  SourceIP (UpdateCounters d n b) = SourceIP b ∧ DestIP (UpdateCounters d n b) = DestIP b ∧
  lastSeen (UpdateCounters d n b) = lastSeen b ∧ DNATOrigPort (UpdateCounters d n b) = DNATOrigPort b.
Proof. unfold UpdateCounters. by case_bool_decide. Qed.

Lemma nmap_get_upd {K V} `{Countable K} (m : option (gmap K V)) k k' v w :
  nmap_get (nmap_upd m k v) k' = Some w → (k' = k ∧ w = v) ∨ nmap_get m k' = Some w.
Proof.
  unfold nmap_get, nmap_upd. destruct m as [m|]; simpl; [|done].
  rewrite lookup_insert_Some. naive_solver.
Qed.
