(* ===== verification/ConntrackTCP.v ===== *)
(** * TCP connection tracking

    [client/firewall/uspfilter/conntrack/tcp.go]: the per-connection state
    machine, tracking of outbound and inbound packets, validation of inbound
    packets against tracked connections and the periodic cleanup.  The two
    atomic operations of a state change (load, compare-and-swap) are one step.

    The theorems: an inbound packet is only accepted on a connection that was
    opened by a tracked SYN of the opposite direction; the state machine never
    leaves its invariant (a connection is tombstoned exactly when closed, a
    closed one accepts nothing); a connection is established only through the
    three-way handshake; a flow can be reported as ended twice. *)

From stdpp Require Import base list gmap strings.
From S2P Require Import Prelude GoStd NetIP Conntrack.

(** ** Constants *)

Definition MSL : Z := 2 * minute.

Definition TimeWaitTimeout : Z := 2 * MSL.

Definition TCPFin : Z := 0x01.

Definition TCPSyn : Z := 0x02.

Definition TCPRst : Z := 0x04.

Definition TCPPush : Z := 0x08.

Definition TCPAck : Z := 0x10.

Definition TCPUrg : Z := 0x20.

Definition DefaultTCPTimeout : Z := 3 * hour.

Definition TCPHandshakeTimeout : Z := 60 * second.

(** [type TCPState int32], in the order of its constants. *)
Inductive TCPState :=
| TCPStateNew
| TCPStateSynSent
| TCPStateSynReceived
| TCPStateEstablished
| TCPStateFinWait1
| TCPStateFinWait2
| TCPStateClosing
| TCPStateTimeWait
| TCPStateCloseWait
| TCPStateLastAck
| TCPStateClosed.

#[global] Instance TCPState_eq_dec : EqDecision TCPState.
Proof. solve_decision. Defined.

(** [TCPState.String] *)
Definition TCPState_String (s : TCPState) : string :=
  match s with
  | TCPStateNew => "New"
  | TCPStateSynSent => "SYN Sent"
  | TCPStateSynReceived => "SYN Received"
  | TCPStateEstablished => "Established"
  | TCPStateFinWait1 => "FIN Wait 1"
  | TCPStateFinWait2 => "FIN Wait 2"
  | TCPStateClosing => "Closing"
  | TCPStateTimeWait => "Time Wait"
  | TCPStateCloseWait => "Close Wait"
  | TCPStateLastAck => "Last ACK"
  | TCPStateClosed => "Closed"
  end.

Record TCPConnTrack := mkTCPConn {
  tc_base : BaseConnTrack;
  tc_SourcePort : Z;
  tc_DestPort : Z;
  tc_state : TCPState;
  tc_tombstone : bool;
}.

Definition GetState (c : TCPConnTrack) : TCPState := tc_state c.

Definition SetState (c : TCPConnTrack) (s : TCPState) : TCPConnTrack :=
  mkTCPConn (tc_base c) (tc_SourcePort c) (tc_DestPort c) s (tc_tombstone c).

Definition CompareAndSwapState (c : TCPConnTrack) (old new : TCPState) : TCPConnTrack * bool :=
  if bool_decide (tc_state c = old) then (SetState c new, true) else (c, false).

Definition IsTombstone (c : TCPConnTrack) : bool := tc_tombstone c.

Definition IsSupersededBy (c : TCPConnTrack) (flags : Z) : bool :=
  if tc_tombstone c then true
  else has_bit flags TCPSyn && negb (has_bit flags TCPAck) && bool_decide (tc_state c = TCPStateTimeWait).

Definition SetTombstone (c : TCPConnTrack) : TCPConnTrack :=
  mkTCPConn (tc_base c) (tc_SourcePort c) (tc_DestPort c) (tc_state c) true.

Definition map_base (f : BaseConnTrack → BaseConnTrack) (c : TCPConnTrack) : TCPConnTrack :=
  mkTCPConn (f (tc_base c)) (tc_SourcePort c) (tc_DestPort c) (tc_state c) (tc_tombstone c).

Record TCPTracker := mkTCPTracker {
  tt_connections : option (gmap ConnKey TCPConnTrack);
  tt_timeout : Z;
  tt_waitTimeout : Z;
  tt_events : list EventFields;
}.

Definition NewTCPTracker (timeout : Z) : TCPTracker :=
  if timeout =? 0 then mkTCPTracker (Some ∅) DefaultTCPTimeout TimeWaitTimeout []
  else mkTCPTracker (Some ∅) timeout (Z.quot timeout 45) [].

Definition set_conns (t : TCPTracker) (m : option (gmap ConnKey TCPConnTrack)) : TCPTracker :=
  mkTCPTracker m (tt_timeout t) (tt_waitTimeout t) (tt_events t).

(** [sendEvent] *)
Definition tcp_event (typ : FlowType) (c : TCPConnTrack) (ruleID : bytes) : EventFields :=
  let b := tc_base c in
  mkEventFields (FlowId b) typ ruleID (bc_Direction b) ProtoTCP (SourceIP b) (DestIP b)
    (tc_SourcePort c) (tc_DestPort c) 0 0 (PacketsRx b) (PacketsTx b) (BytesRx b) (BytesTx b).

Definition sendEvents (t : TCPTracker) (es : list EventFields) : TCPTracker :=
  mkTCPTracker (tt_connections t) (tt_timeout t) (tt_waitTimeout t) (tt_events t ++ es).

(** ** The state machine *)

(** The [switch] of [updateState]; [TCPStateNew], the zero value of [newState],
    means no transition. *)
Definition nextState (cur : TCPState) (connDir packetDir : Direction) (flags : Z) : TCPState :=
  match cur with
  | TCPStateNew =>
      if has_bit flags TCPSyn && negb (has_bit flags TCPAck) then
        if bool_decide (connDir = Egress) then TCPStateSynSent else TCPStateSynReceived
      else TCPStateNew
  | TCPStateSynSent =>
      if has_bit flags TCPSyn && has_bit flags TCPAck then
        if bool_decide (packetDir ≠ connDir) then TCPStateEstablished else TCPStateSynReceived
      else TCPStateNew
  | TCPStateSynReceived =>
      if has_bit flags TCPAck && negb (has_bit flags TCPSyn) then
        if bool_decide (packetDir = connDir) then TCPStateEstablished else TCPStateNew
      else TCPStateNew
  | TCPStateEstablished =>
      if has_bit flags TCPFin then
        if bool_decide (packetDir = connDir) then TCPStateFinWait1 else TCPStateCloseWait
      else TCPStateNew
  | TCPStateFinWait1 =>
      if bool_decide (packetDir ≠ connDir) then
        if has_bit flags TCPFin && has_bit flags TCPAck then TCPStateClosing
        else if has_bit flags TCPFin then TCPStateClosing
        else if has_bit flags TCPAck then TCPStateFinWait2
        else TCPStateNew
      else TCPStateNew
  | TCPStateFinWait2 => if has_bit flags TCPFin then TCPStateTimeWait else TCPStateNew
  | TCPStateClosing => if has_bit flags TCPAck then TCPStateTimeWait else TCPStateNew
  | TCPStateCloseWait => if has_bit flags TCPFin then TCPStateLastAck else TCPStateNew
  | TCPStateLastAck => if has_bit flags TCPAck then TCPStateClosed else TCPStateNew
  | TCPStateTimeWait | TCPStateClosed => TCPStateNew
  end.

(** [updateState]: the connection after the packet and the events stored. *)
Definition updateState (now : Z) (c : TCPConnTrack) (flags : Z) (packetDir : Direction) (size : Z)
    : TCPConnTrack * list EventFields :=
  let c := map_base (UpdateLastSeen now) c in
  let c := map_base (UpdateCounters packetDir size) c in
  let currentState := GetState c in
  if has_bit flags TCPRst then
    let '(c, swapped) := CompareAndSwapState c currentState TCPStateClosed in
    if swapped then
      let c := SetTombstone c in (c, [tcp_event TypeEnd c []])
    else (c, [])
  else
    let newState := nextState currentState (bc_Direction (tc_base c)) packetDir flags in
    if bool_decide (newState ≠ TCPStateNew) then
      let '(c, swapped) := CompareAndSwapState c currentState newState in
      if swapped then
        match newState with
        | TCPStateTimeWait => (c, [tcp_event TypeEnd c []])
        | TCPStateClosed => let c := SetTombstone c in (c, [tcp_event TypeEnd c []])
        | _ => (c, [])
        end
      else (c, [])
    else (c, []).

Definition isValidFlagCombination (flags : Z) : bool :=
  if has_bit flags TCPSyn && has_bit flags TCPFin then false
  else if has_bit flags TCPRst && (has_bit flags TCPSyn || has_bit flags TCPFin) then false
  else true.

Definition isValidStateForFlags (state : TCPState) (flags : Z) : bool :=
  if negb (isValidFlagCombination flags) then false
  else if has_bit flags TCPRst then
    if bool_decide (state = TCPStateSynSent) then has_bit flags TCPAck else true
  else
    match state with
    | TCPStateNew => has_bit flags TCPSyn && negb (has_bit flags TCPAck)
    | TCPStateSynSent => has_bit flags TCPSyn && has_bit flags TCPAck
    | TCPStateSynReceived => has_bit flags TCPAck
    | TCPStateEstablished => has_bit flags TCPAck
    | TCPStateFinWait1 => has_bit flags TCPFin || has_bit flags TCPAck
    | TCPStateFinWait2 => has_bit flags TCPFin || has_bit flags TCPAck
    | TCPStateClosing => has_bit flags TCPAck
    | TCPStateTimeWait => has_bit flags TCPAck
    | TCPStateCloseWait => has_bit flags TCPFin || has_bit flags TCPAck
    | TCPStateLastAck => has_bit flags TCPAck
    | TCPStateClosed => has_bit flags TCPAck
    end.

(** ** Tracker operations *)

Definition updateIfExists (now : Z) (t : TCPTracker) (key : ConnKey) (flags : Z)
    (direction : Direction) (size : Z) : TCPTracker * option Z :=
  match nmap_get (tt_connections t) key with
  | Some conn =>
      if negb (IsSupersededBy conn flags) then
        let '(conn', es) := updateState now conn flags direction size in
        (sendEvents (set_conns t (nmap_upd (tt_connections t) key conn')) es,
         Some (u16 (DNATOrigPort (tc_base conn'))))
      else (t, None)
  | None => (t, None)
  end.

(** [track]; [flowId] is the fresh UUID of a new connection. *)
Definition track (now flowId : Z) (t : TCPTracker) (key : ConnKey) (flags : Z) (direction : Direction)
    (ruleID : bytes) (size origPort : Z) : outcome unit TCPTracker :=
  let '(t, upd) := updateIfExists now t key flags direction size in
  match upd with
  | Some _ => Ok t
  | None =>
      if negb (has_bit flags TCPSyn) then Ok t
      else
        let base := set_DNATOrigPort (newBase flowId direction (SrcIP key) (DstIP key)) origPort in
        let conn := mkTCPConn base (SrcPort key) (DstPort key) TCPStateNew false in
        let '(conn, es) := updateState now conn flags direction size in
        let t := sendEvents t es in
        match nmap_set (E:=unit) (tt_connections t) key conn with
        | Ok m => Ok (sendEvents (set_conns t m) [tcp_event TypeStart conn ruleID])
        | _ => Panic
        end
  end.

Definition TrackOutbound (now flowId : Z) (t : TCPTracker) (key : ConnKey) (flags size : Z)
    : outcome unit (TCPTracker * Z) :=
  let '(t', upd) := updateIfExists now t (reverse_key key) flags Egress size in
  match upd with
  | Some origPort => Ok (t', origPort)
  | None => obind (track now flowId t' key flags Egress [] size 0) (λ t'', Ok (t'', 0))
  end.

Definition TrackInbound (now flowId : Z) (t : TCPTracker) (key : ConnKey) (flags : Z)
    (ruleID : bytes) (size dnatOrigPort : Z) : outcome unit TCPTracker :=
  track now flowId t key flags Ingress ruleID size dnatOrigPort.

(** [IsValidInbound] of a packet with the given key. *)
Definition IsValidInbound (now : Z) (t : TCPTracker) (key : ConnKey) (flags size : Z)
    : TCPTracker * bool :=
  let k := reverse_key key in
  match nmap_get (tt_connections t) k with
  | None => (t, false)
  | Some conn =>
      if IsSupersededBy conn flags then (t, false)
      else
        let currentState := GetState conn in
        if negb (isValidStateForFlags currentState flags) then
          (t, bool_decide (currentState = TCPStateEstablished))
        else
          let '(conn', es) := updateState now conn flags Ingress size in
          (sendEvents (set_conns t (nmap_upd (tt_connections t) k conn')) es, true)
  end.

(** The timeout [cleanup] applies to a connection. *)
Definition conn_timeout (t : TCPTracker) (c : TCPConnTrack) : Z :=
  match GetState c with
  | TCPStateTimeWait => tt_waitTimeout t
  | TCPStateEstablished => tt_timeout t
  | _ => TCPHandshakeTimeout
  end.

Definition stale (now : Z) (t : TCPTracker) (c : TCPConnTrack) : bool :=
  IsTombstone c || timeoutExceeded now (tc_base c) (conn_timeout t c).

(** The event [cleanup] sends when it removes a connection. *)
Definition cleanup_events (now : Z) (t : TCPTracker) (c : TCPConnTrack) : list EventFields :=
  if IsTombstone c then []
  else if timeoutExceeded now (tc_base c) (conn_timeout t c) then
    if bool_decide (GetState c ≠ TCPStateTimeWait) then [tcp_event TypeEnd c []] else []
  else [].

(** [cleanup]; Go iterates the map in an unspecified order, here that of
    [map_to_list]. *)
Definition cleanup (now : Z) (t : TCPTracker) : TCPTracker :=
  match tt_connections t with
  | None => t
  | Some m =>
      sendEvents (set_conns t (Some (filter (λ kc, stale now t kc.2 = false) m)))
        (flat_map (λ kc, cleanup_events now t kc.2) (map_to_list m))
  end.

Definition GetConnection (t : TCPTracker) (key : ConnKey) : option TCPConnTrack :=
  nmap_get (tt_connections t) key.

Definition Close (t : TCPTracker) : TCPTracker := set_conns t None.

(** ** Histories of calls *)

Inductive call :=
| COut (now flowId : Z) (key : ConnKey) (flags size : Z)
| CIn (now flowId : Z) (key : ConnKey) (flags : Z) (ruleID : bytes) (size orig : Z)
| CValid (now : Z) (key : ConnKey) (flags size : Z)
| CCleanup (now : Z)
| CClose.

Definition apply_call (t : TCPTracker) (c : call) : outcome unit TCPTracker :=
  match c with
  | COut now f k fl sz => obind (TrackOutbound now f t k fl sz) (λ r, Ok r.1)
  | CIn now f k fl r sz o => TrackInbound now f t k fl r sz o
  | CValid now k fl sz => Ok (IsValidInbound now t k fl sz).1
  | CCleanup now => Ok (cleanup now t)
  | CClose => Ok (Close t)
  end.

Fixpoint apply_calls (t : TCPTracker) (cs : list call) : outcome unit TCPTracker :=
  match cs with
  | [] => Ok t
  | c :: cs => obind (apply_call t c) (λ t, apply_calls t cs)
  end.

(** ** Lemmas on one connection *)

(** A connection and its tombstone agree. *)
Definition conn_ok (c : TCPConnTrack) : Prop := tc_tombstone c = true ↔ tc_state c = TCPStateClosed.

Lemma cas_same c s : CompareAndSwapState c (GetState c) s = (SetState c s, true).
Proof. unfold CompareAndSwapState, GetState. by rewrite bool_decide_true. Qed.

(** The state of a connection after a packet, in closed form. *)
Definition state_after (c : TCPConnTrack) (flags : Z) (packetDir : Direction) : TCPState :=
  if has_bit flags TCPRst then TCPStateClosed
  else
    let n := nextState (tc_state c) (bc_Direction (tc_base c)) packetDir flags in
    if bool_decide (n ≠ TCPStateNew) then n else tc_state c.

Definition closes (s : TCPState) : bool :=
  match s with TCPStateTimeWait | TCPStateClosed => true | _ => false end.

(** Whether the packet makes a transition (an RST always does). *)
Definition moves (c : TCPConnTrack) (flags : Z) (packetDir : Direction) : bool :=
  has_bit flags TCPRst ||
  bool_decide (nextState (tc_state c) (bc_Direction (tc_base c)) packetDir flags ≠ TCPStateNew).

Definition touch (now : Z) (packetDir : Direction) (size : Z) (c : TCPConnTrack) : TCPConnTrack :=
  map_base (UpdateCounters packetDir size) (map_base (UpdateLastSeen now) c).

Lemma updateState_eq now c flags dir size :
  let s := state_after c flags dir in
  let c' := mkTCPConn (tc_base (touch now dir size c)) (tc_SourcePort c) (tc_DestPort c) s
              (tc_tombstone c || (moves c flags dir && bool_decide (s = TCPStateClosed))) in
  updateState now c flags dir size =
  (c', if moves c flags dir && closes s then [tcp_event TypeEnd c' []] else []).
Proof.
  unfold updateState, state_after, moves, touch. cbv zeta.
  destruct (UpdateCounters_id dir size (UpdateLastSeen now (tc_base c))) as (_ & Hd & _).
  rewrite !cas_same. destruct (has_bit flags TCPRst).
  { cbn. unfold SetTombstone. cbn. by rewrite orb_true_r. }
  cbn [orb andb]. unfold GetState, map_base. cbn [tc_state tc_base]. rewrite Hd. cbn [UpdateLastSeen bc_Direction].
  set (n := nextState _ _ _ _). clearbody n. rewrite bool_decide_decide.
  destruct (decide (n ≠ TCPStateNew)) as [En|En]; cbn [andb].
  2: { by rewrite orb_false_r. }
  destruct n; cbn; unfold SetTombstone, SetState; cbn; rewrite ?orb_false_r, ?orb_true_r; done.
Qed.

Lemma updateState_facts now c flags dir size c' es :
  updateState now c flags dir size = (c', es) →
  tc_state c' = state_after c flags dir ∧
  tc_tombstone c' = (tc_tombstone c || (moves c flags dir && bool_decide (state_after c flags dir = TCPStateClosed))) ∧
  bc_Direction (tc_base c') = bc_Direction (tc_base c) ∧
  FlowId (tc_base c') = FlowId (tc_base c) ∧
  lastSeen (tc_base c') = now ∧
  DNATOrigPort (tc_base c') = DNATOrigPort (tc_base c) ∧
  es = (if moves c flags dir && closes (state_after c flags dir) then [tcp_event TypeEnd c' []] else []).
Proof.
  rewrite updateState_eq. intros [= <- <-]. cbn [tc_state tc_tombstone tc_base].
  unfold touch, map_base. cbn [tc_base].
  destruct (UpdateCounters_id dir size (UpdateLastSeen now (tc_base c))) as (-> & -> & _ & _ & -> & ->).
  done.
Qed.

Lemma conn_ok_update now c flags dir size :
  conn_ok c → conn_ok (updateState now c flags dir size).1.
Proof.
  destruct (updateState now c flags dir size) as [c' es] eqn:E.
  apply updateState_facts in E as (E1 & E2 & _). unfold conn_ok. simpl. rewrite E1, E2.
  unfold state_after, moves. destruct (has_bit flags TCPRst); simpl.
  { by rewrite orb_true_r. }
  intros Hok. set (n := nextState _ _ _ _).
  assert (n ≠ TCPStateNew → tc_state c ≠ TCPStateClosed) as Hn.
  { subst n. by destruct (tc_state c). }
  clearbody n. rewrite bool_decide_decide.
  destruct (decide (n ≠ TCPStateNew)) as [En|En]; [|by rewrite andb_false_l, orb_false_r].
  specialize (Hn En). assert (tc_tombstone c = false) as -> by (destruct (tc_tombstone c); tauto).
  simpl. by rewrite bool_decide_eq_true.
Qed.

(** ** Lemmas on trackers *)

(** Every connection of the tracker satisfies [P]. *)
Definition all_conns (P : ConnKey → TCPConnTrack → Prop) (t : TCPTracker) : Prop :=
  ∀ k c, nmap_get (tt_connections t) k = Some c → P k c.

Lemma all_conns_upd P t k c es :
  all_conns P t → P k c → all_conns P (sendEvents (set_conns t (nmap_upd (tt_connections t) k c)) es).
Proof. intros H Hc k' c' Hk. simpl in Hk. apply nmap_get_upd in Hk as [[-> ->]|Hk]; auto. Qed.

(** The connection [track] opens. *)
Definition fresh_conn (now flowId : Z) (key : ConnKey) (flags : Z) (dir : Direction) (size orig : Z)
    : TCPConnTrack :=
  (updateState now
     (mkTCPConn (set_DNATOrigPort (newBase flowId dir (SrcIP key) (DstIP key)) orig)
        (SrcPort key) (DstPort key) TCPStateNew false) flags dir size).1.

Lemma updateIfExists_none now t k flags dir size t' :
  updateIfExists now t k flags dir size = (t', None) → t' = t.
Proof.
  unfold updateIfExists. destruct (nmap_get _ k) as [c|]; [|by intros [= <-]].
  destruct (IsSupersededBy c flags); simpl; [by intros [= <-]|].
  by destruct (updateState now c flags dir size).
Qed.

(** [P] before a packet with the given flags and direction, [Q] after it. *)
Definition survives (P Q : ConnKey → TCPConnTrack → Prop) (flags : Z) (dir : Direction) (k : ConnKey)
    : Prop :=
  ∀ c now size, P k c → IsSupersededBy c flags = false → Q k (updateState now c flags dir size).1.

Section OnePacket.
Context (P Q : ConnKey → TCPConnTrack → Prop) (HPQ : ∀ k c, P k c → Q k c).
Context (flags : Z) (dir : Direction).

Lemma all_conns_weaken t : all_conns P t → all_conns Q t.
Proof using HPQ. intros H k c Hk. auto. Qed.

Lemma all_conns_updateIfExists now t k size :
  survives P Q flags dir k → all_conns P t → all_conns Q (updateIfExists now t k flags dir size).1.
Proof using HPQ.
  intros HP Ht. unfold updateIfExists. pose proof (all_conns_weaken t Ht) as Ht'.
  destruct (nmap_get _ k) as [c|] eqn:E; [|done].
  destruct (IsSupersededBy c flags) eqn:Es; [done|]. simpl.
  pose proof (HP c now size (Ht k c E) Es) as HPc.
  destruct (updateState now c flags dir size) as [c' es]. by apply all_conns_upd.
Qed.

Lemma all_conns_track now f t key rule size orig t' :
  survives P Q flags dir key → all_conns P t →
  (has_bit flags TCPSyn = true → Q key (fresh_conn now f key flags dir size orig)) →
  track now f t key flags dir rule size orig = Ok t' → all_conns Q t'.
Proof using HPQ.
  intros HP Ht Hn. unfold track.
  pose proof (all_conns_updateIfExists now t key size HP Ht) as H1.
  destruct (updateIfExists now t key flags dir size) as [t1 [o|]]; simpl in H1.
  { intros. by inv_ok. }
  unfold fresh_conn in Hn.
  destruct (has_bit flags TCPSyn); simpl; [|intros; by inv_ok]. specialize (Hn eq_refl).
  destruct (updateState now _ flags dir size) as [c es]. simpl in *.
  unfold nmap_set. destruct (tt_connections t1) as [m|] eqn:Em; intros; inv_ok.
  intros k' c' Hk. simpl in Hk.
  apply (nmap_get_upd (Some m)) in Hk as [[-> ->]|Hk]; [done|]. apply H1. by rewrite Em.
Qed.
End OnePacket.

Lemma all_conns_cleanup P now t : all_conns P t → all_conns P (cleanup now t).
Proof.
  intros Ht k c. unfold cleanup. destruct (tt_connections t) as [m|] eqn:E; [|apply Ht].
  simpl. rewrite map_lookup_filter_Some. intros [Hk _]. apply Ht. by rewrite E.
Qed.

(** The call opens connection [k]: a SYN in direction [d] with no live entry. *)
Definition opens (c : call) (k : ConnKey) (d : Direction) (flags : Z) : Prop :=
  match c with
  | COut _ _ k' fl _ => k = k' ∧ d = Egress ∧ flags = fl
  | CIn _ _ k' fl _ _ _ => k = k' ∧ d = Ingress ∧ flags = fl
  | _ => False
  end ∧ has_bit flags TCPSyn = true.

(** The call is a packet with these flags and direction on connection [k]. *)
Definition packet_on (c : call) (k : ConnKey) (d : Direction) (flags : Z) : Prop :=
  match c with
  | COut _ _ k' fl _ => (k = k' ∨ k = reverse_key k') ∧ d = Egress ∧ flags = fl
  | CIn _ _ k' fl _ _ _ => k = k' ∧ d = Ingress ∧ flags = fl
  | CValid _ k' fl _ => k = reverse_key k' ∧ d = Ingress ∧ flags = fl
  | _ => False
  end.

Lemma all_conns_call (P Q : ConnKey → TCPConnTrack → Prop) t c t' :
  (∀ k c, P k c → Q k c) → all_conns P t →
  (∀ k dir flags, packet_on c k dir flags → survives P Q flags dir k) →
  (∀ now f k flags dir size orig, opens c k dir flags → Q k (fresh_conn now f k flags dir size orig)) →
  apply_call t c = Ok t' → all_conns Q t'.
Proof.
  intros HPQ Ht HP Hn. pose proof (all_conns_weaken P Q HPQ t Ht) as Ht'.
  destruct c as [now f k fl sz|now f k fl r sz o|now k fl sz|now|]; simpl in *.
  - unfold TrackOutbound.
    assert (survives P Q fl Egress (reverse_key k)) as HPr by (apply HP; auto).
    pose proof (all_conns_updateIfExists P Q HPQ fl Egress now t (reverse_key k) sz HPr Ht) as H1.
    destruct (updateIfExists now t (reverse_key k) fl Egress sz) as [t1 [o|]] eqn:Eu; simpl in *.
    { intros. by inv_ok. }
    apply updateIfExists_none in Eu as ->.
    destruct (track now f t k fl Egress [] sz 0) as [t2|e|] eqn:E; simpl; intros; inv_ok.
    eapply (all_conns_track P Q HPQ); [|exact Ht| |exact E]; [apply HP; auto|].
    intros Hs. by apply Hn.
  - intros H. eapply (all_conns_track P Q HPQ); [|exact Ht| |exact H]; [apply HP; auto|].
    intros Hs. by apply Hn.
  - intros. inv_ok. unfold IsValidInbound. destruct (nmap_get _ _) as [c|] eqn:E; [|done].
    destruct (IsSupersededBy c fl) eqn:Es; [done|].
    destruct (isValidStateForFlags _ _); simpl; [|done].
    assert (survives P Q fl Ingress (reverse_key k)) as HPr by (apply HP; auto).
    pose proof (HPr c now sz (Ht _ _ E) Es) as HPc.
    destruct (updateState now c fl Ingress sz) as [c' es]. by apply all_conns_upd.
  - intros. inv_ok. by apply all_conns_cleanup.
  - intros. inv_ok. by intros k c.
Qed.

Lemma tcp_apply_calls_app t cs1 cs2 :
  apply_calls t (cs1 ++ cs2) = obind (apply_calls t cs1) (λ t, apply_calls t cs2).
Proof.
  revert t. induction cs1 as [|c cs IH]; intros t; simpl; [done|].
  destruct (apply_call t c); simpl; auto.
Qed.

(** An invariant of a connection and the calls made so far. *)
Lemma all_conns_history (P : list call → ConnKey → TCPConnTrack → Prop) timeout cs t :
  (∀ h c k conn, P h k conn → P (h ++ [c]) k conn) →
  (∀ h c k dir flags conn now size, packet_on c k dir flags → P h k conn →
     IsSupersededBy conn flags = false → P (h ++ [c]) k (updateState now conn flags dir size).1) →
  (∀ h c now f k flags dir size orig, opens c k dir flags →
     P (h ++ [c]) k (fresh_conn now f k flags dir size orig)) →
  apply_calls (NewTCPTracker timeout) cs = Ok t → all_conns (P cs) t.
Proof.
  intros H1 H2 H3. revert t. induction cs as [|c cs IH] using rev_ind; intros t.
  - simpl. intros. inv_ok. intros k conn. unfold NewTCPTracker. by destruct (timeout =? 0).
  - rewrite tcp_apply_calls_app. destruct (apply_calls _ cs) as [t1|e|]; simpl; [|done..].
    specialize (IH t1 eq_refl). destruct (apply_call t1 c) as [t2|e|] eqn:E; simpl; intros; inv_ok.
    apply (all_conns_call (P cs) (P (cs ++ [c])) t1 c t); [by intros; apply H1|done| | |done].
    + intros k dir flags Hp conn now size. by apply H2.
    + intros. by apply H3.
Qed.

(** ** Where connections come from *)

Definition syn_opened (h : list call) (k : ConnKey) (c : TCPConnTrack) : Prop :=
  conn_ok c ∧
  ∃ h1 o h2 d fl, h = h1 ++ o :: h2 ∧ opens o k d fl ∧
    (has_bit fl TCPRst = true → tc_state c = TCPStateClosed).

Lemma conn_ok_fresh now f k flags dir size orig : conn_ok (fresh_conn now f k flags dir size orig).
Proof. by apply conn_ok_update. Qed.

Lemma not_superseded_open c flags : conn_ok c → IsSupersededBy c flags = false → tc_state c ≠ TCPStateClosed.
Proof. unfold conn_ok, IsSupersededBy. destruct (tc_tombstone c); [done|]. intros [_ H] _ E. by apply H in E. Qed.

Lemma updateState_state now c flags dir size :
  tc_state (updateState now c flags dir size).1 = state_after c flags dir.
Proof.
  destruct (updateState now c flags dir size) as [c' es] eqn:E. simpl.
  by apply updateState_facts in E as (-> & _).
Qed.

Lemma updateState_dir now c flags dir size :
  bc_Direction (tc_base (updateState now c flags dir size).1) = bc_Direction (tc_base c).
Proof.
  destruct (updateState now c flags dir size) as [c' es] eqn:E. simpl.
  by apply updateState_facts in E as (_ & _ & -> & _).
Qed.

Lemma fresh_conn_state now f k flags dir size orig :
  tc_state (fresh_conn now f k flags dir size orig) =
  state_after (mkTCPConn (newBase f dir (SrcIP k) (DstIP k)) (SrcPort k) (DstPort k) TCPStateNew false) flags dir.
Proof. unfold fresh_conn. by rewrite updateState_state. Qed.

Lemma syn_opened_history timeout cs t :
  apply_calls (NewTCPTracker timeout) cs = Ok t → all_conns (syn_opened cs) t.
Proof.
  apply (all_conns_history syn_opened).
  - intros h c k conn (Hok & h1 & o & h2 & d & fl & -> & Ho). split; [done|].
    exists h1, o, (h2 ++ [c]), d, fl. by rewrite <-app_assoc.
  - intros h c k dir flags conn now size _ (Hok & h1 & o & h2 & d & fl & -> & Ho & Hr) Hs.
    split; [by apply conn_ok_update|].
    exists h1, o, (h2 ++ [c]), d, fl. split_and!; [by rewrite <-app_assoc|done|].
    intros ?%Hr. by destruct (not_superseded_open conn flags).
  - intros h c now f k flags dir size orig Ho. split; [apply conn_ok_fresh|].
    exists h, c, [], dir, flags. split_and!; [done|done|]. intros Hr.
    rewrite fresh_conn_state. unfold state_after. by rewrite Hr.
Qed.

(** A pure SYN was seen on connection [k]. *)
Definition syn_seen (h : list call) (k : ConnKey) : Prop :=
  ∃ h1 c h2 d fl, h = h1 ++ c :: h2 ∧ packet_on c k d fl ∧
    has_bit fl TCPSyn = true ∧ has_bit fl TCPAck = false ∧ has_bit fl TCPRst = false.

(** A pure SYN and after it the packet that completes the handshake of a
    connection of direction [cd]: the SYN|ACK of the other side, or an ACK of
    the side that opened the connection. *)
Definition handshake_seen (h : list call) (k : ConnKey) (cd : Direction) : Prop :=
  ∃ h1 c h2 d fl, h = h1 ++ c :: h2 ∧ syn_seen h1 k ∧ packet_on c k d fl ∧
    has_bit fl TCPAck = true ∧ has_bit fl TCPRst = false ∧
    (has_bit fl TCPSyn = true ∧ d ≠ cd ∨ has_bit fl TCPSyn = false ∧ d = cd).

Lemma syn_seen_app h c k : syn_seen h k → syn_seen (h ++ [c]) k.
Proof.
  intros (h1 & o & h2 & d & fl & -> & H). exists h1, o, (h2 ++ [c]), d, fl. by rewrite <-app_assoc.
Qed.

Lemma handshake_seen_app h c k cd : handshake_seen h k cd → handshake_seen (h ++ [c]) k cd.
Proof.
  intros (h1 & o & h2 & d & fl & -> & H). exists h1, o, (h2 ++ [c]), d, fl. by rewrite <-app_assoc.
Qed.

Lemma opens_packet_on c k d flags : opens c k d flags → packet_on c k d flags.
Proof. intros [H _]. destruct c; simpl in *; tauto. Qed.

(** What a state says about the history of its connection. *)
Definition explained (h : list call) (k : ConnKey) (c : TCPConnTrack) : Prop :=
  match tc_state c with
  | TCPStateNew | TCPStateClosed => True
  | TCPStateSynSent | TCPStateSynReceived => syn_seen h k
  | _ => handshake_seen h k (bc_Direction (tc_base c))
  end.

(** The shapes of a transition. *)
Lemma state_after_cases c flags dir :
  let s := state_after c flags dir in
  s = TCPStateClosed ∨ s = tc_state c ∨
  has_bit flags TCPRst = false ∧
  (tc_state c = TCPStateNew ∧ (s = TCPStateSynSent ∨ s = TCPStateSynReceived) ∧
     has_bit flags TCPSyn = true ∧ has_bit flags TCPAck = false ∨
   tc_state c = TCPStateSynSent ∧ s = TCPStateSynReceived ∨
   (tc_state c = TCPStateSynSent ∧ has_bit flags TCPSyn = true ∧ dir ≠ bc_Direction (tc_base c) ∨
    tc_state c = TCPStateSynReceived ∧ has_bit flags TCPSyn = false ∧ dir = bc_Direction (tc_base c)) ∧
     has_bit flags TCPAck = true ∧ s = TCPStateEstablished ∨
   ¬ (tc_state c = TCPStateNew ∨ tc_state c = TCPStateSynSent ∨ tc_state c = TCPStateSynReceived ∨
      tc_state c = TCPStateClosed) ∧
   ¬ (s = TCPStateNew ∨ s = TCPStateSynSent ∨ s = TCPStateSynReceived)).
Proof.
  cbv zeta. unfold state_after. destruct (has_bit flags TCPRst); [by left|].
  unfold nextState. generalize (bc_Direction (tc_base c)) as cd. intros cd.
  generalize (tc_state c) as st. intros st.
  destruct (has_bit flags TCPSyn), (has_bit flags TCPAck), (has_bit flags TCPFin), st; cbn [andb negb];
    repeat case_bool_decide; try (exfalso; congruence); intuition congruence.
Qed.

Lemma explained_step h c k dir flags conn now size :
  packet_on c k dir flags → explained h k conn →
  explained (h ++ [c]) k (updateState now conn flags dir size).1.
Proof.
  intros Hp Hx. unfold explained in *. rewrite updateState_state, updateState_dir.
  destruct (state_after_cases conn flags dir) as [->|[->|(Hr & Hcase)]]; [done| |].
  { destruct (tc_state conn); try done; (apply syn_seen_app || apply handshake_seen_app); done. }
  destruct Hcase as [(E & Hs & Hf)|[[E Hs]|[(E & Ha & ->)|(E & Hs)]]].
  - assert (syn_seen (h ++ [c]) k) as Hsyn by (exists h, c, [], dir, flags; tauto).
    destruct Hs as [-> | ->]; done.
  - rewrite Hs. apply syn_seen_app. by rewrite E in Hx.
  - exists h, c, [], dir, flags. split_and!; [done| |done|done|done|tauto].
    destruct E as [(E & _)|(E & _)]; by rewrite E in Hx.
  - destruct (tc_state conn); try tauto; apply (handshake_seen_app h c) in Hx;
      destruct (state_after conn flags dir); tauto.
Qed.

Lemma explained_history timeout cs t :
  apply_calls (NewTCPTracker timeout) cs = Ok t → all_conns (explained cs) t.
Proof.
  apply (all_conns_history explained).
  - intros h c k conn. unfold explained. destruct (tc_state conn); auto using syn_seen_app, handshake_seen_app.
  - intros. by apply explained_step.
  - intros h c now f k flags dir size orig Ho. apply explained_step; [by apply opens_packet_on|done].
Qed.

Lemma updateIfExists_absent now t k flags dir size :
  nmap_get (tt_connections t) k = None → updateIfExists now t k flags dir size = (t, None).
Proof. unfold updateIfExists. by intros ->. Qed.

Lemma reverse_key_involutive k : reverse_key (reverse_key k) = k.
Proof. by destruct k. Qed.

Lemma established_accepts now t k flags size c :
  nmap_get (tt_connections t) k = Some c → tc_state c = TCPStateEstablished → tc_tombstone c = false →
  (IsValidInbound now t (reverse_key k) flags size).2 = true.
Proof.
  intros Hk Hs Hto. unfold IsValidInbound. rewrite reverse_key_involutive, Hk.
  unfold IsSupersededBy, GetState. rewrite Hto, Hs. cbn [bool_decide]. rewrite andb_false_r.
  destruct (isValidStateForFlags TCPStateEstablished flags); simpl; [|done].
  by destruct (updateState now c flags Ingress size).
Qed.

(** ** Properties *)

(** C30: after any history of calls on a new tracker, an inbound packet is only
    accepted when the connection of the reversed key was opened by an earlier
    [TrackOutbound] or [TrackInbound] with the SYN flag and without RST, and
    is not tombstoned. *)
Theorem tcp_inbound_requires_tracked_syn timeout cs t now key flags size t' :
  apply_calls (NewTCPTracker timeout) cs = Ok t →
  IsValidInbound now t key flags size = (t', true) →
  ∃ h1 o h2 d fl conn, cs = h1 ++ o :: h2 ∧ opens o (reverse_key key) d fl ∧
    has_bit fl TCPRst = false ∧
    GetConnection t (reverse_key key) = Some conn ∧ IsTombstone conn = false.
Proof.
  intros Ht Hv. unfold IsValidInbound, GetConnection in *.
  destruct (nmap_get _ _) as [conn|] eqn:E; [|done].
  destruct (IsSupersededBy conn flags) eqn:Es; [done|].
  destruct (syn_opened_history _ _ _ Ht _ _ E) as (Hok & h1 & o & h2 & d & fl & -> & Ho & Hr).
  pose proof (not_superseded_open conn flags Hok Es) as Hns.
  exists h1, o, h2, d, fl, conn. split_and!; [done|done| |done|].
  - destruct (has_bit fl TCPRst); tauto.
  - unfold IsTombstone. destruct (tc_tombstone conn) eqn:Et; [|done]. by apply Hok in Et.
Qed.

(** after any history of calls on a new tracker, a tracked connection past
    the handshake states went through the TCP handshake: a pure SYN was
    processed on it and later either the SYN|ACK of the other side or an ACK
    of the side that opened it. *)
Theorem tcp_established_handshake timeout cs t key conn :
  apply_calls (NewTCPTracker timeout) cs = Ok t →
  GetConnection t key = Some conn →
  GetState conn ∉ [TCPStateNew; TCPStateSynSent; TCPStateSynReceived; TCPStateClosed] →
  handshake_seen cs key (bc_Direction (tc_base conn)).
Proof.
  intros Ht Hc Hs. apply (explained_history _ _ _ Ht) in Hc. unfold explained, GetState in *.
  destruct (tc_state conn); try done; by destruct Hs; set_solver.
Qed.

(** when no connection between the two endpoints is tracked, an outbound
    SYN followed by the SYN|ACK of the other side establishes the connection,
    and in that state the next inbound packet of it is accepted whatever its
    flags. *)
Theorem tcp_outbound_handshake_accepted t m key f now1 now2 sz1 sz2 :
  tt_connections t = Some m → m !! key = None → m !! reverse_key key = None →
  ∃ t1 t2 conn,
    TrackOutbound now1 f t key TCPSyn sz1 = Ok (t1, 0) ∧
    IsValidInbound now2 t1 (reverse_key key) (Z.lor TCPSyn TCPAck) sz2 = (t2, true) ∧
    GetConnection t2 key = Some conn ∧ GetState conn = TCPStateEstablished ∧ FlowId (tc_base conn) = f ∧
    ∀ now flags size, (IsValidInbound now t2 (reverse_key key) flags size).2 = true.
Proof.
  intros Em Hk Hr. destruct t as [m' to wto ev]. simpl in Em. subst m'.
  eexists _, _, _. split_and!.
  - unfold TrackOutbound, track. rewrite !updateIfExists_absent by done. reflexivity.
  - unfold IsValidInbound, GetConnection. rewrite reverse_key_involutive.
    cbn [set_conns sendEvents tt_connections nmap_get mbind option_bind]. rewrite lookup_insert.
    rewrite decide_True by done. reflexivity.
  - unfold GetConnection. cbn [set_conns sendEvents tt_connections nmap_get nmap_upd fmap option_fmap option_map mbind option_bind].
    by rewrite lookup_insert, decide_True.
  - done.
  - done.
  - intros now flags size. eapply established_accepts; [
    cbn [set_conns sendEvents tt_connections nmap_get nmap_upd fmap option_fmap option_map mbind option_bind];
    rewrite lookup_insert, decide_True by done; reflexivity|done|done].
Qed.

Lemma tcp_outbound_handshake_accepted_witness :
  let key := mkKey (Addr4 1) (Addr4 2) 1000 443 in
  ∃ t1 t2 conn,
    TrackOutbound 5 7 (NewTCPTracker 0) key TCPSyn 60 = Ok (t1, 0) ∧
    IsValidInbound 6 t1 (reverse_key key) (Z.lor TCPSyn TCPAck) 60 = (t2, true) ∧
    GetConnection t2 key = Some conn ∧ GetState conn = TCPStateEstablished ∧ FlowId (tc_base conn) = 7 ∧
    ∀ now flags size, (IsValidInbound now t2 (reverse_key key) flags size).2 = true.
Proof. by apply (tcp_outbound_handshake_accepted (NewTCPTracker 0) ∅). Defined.

(** An HTTPS connection: handshake, data, close by the client, reset. *)
Definition example_key : ConnKey := mkKey (Addr4 1) (Addr4 2) 1000 443.

Definition example_open : list call :=
  [ COut 1 7 example_key TCPSyn 60;
    CValid 2 (reverse_key example_key) (Z.lor TCPSyn TCPAck) 60;
    COut 3 8 example_key TCPAck 52 ].

Definition example_close : list call :=
  [ COut 4 9 example_key (Z.lor TCPFin TCPAck) 52;
    CValid 5 (reverse_key example_key) TCPAck 52;
    CValid 6 (reverse_key example_key) (Z.lor TCPFin TCPAck) 52;
    COut 7 10 example_key TCPRst 40 ].

Definition example_tracker : TCPTracker :=
  match apply_calls (NewTCPTracker 0) example_open with Ok t => t | _ => NewTCPTracker 0 end.

Lemma tcp_inbound_requires_tracked_syn_witness :
  ∃ h1 o h2 d fl conn, example_open = h1 ++ o :: h2 ∧ opens o (reverse_key (reverse_key example_key)) d fl ∧
    has_bit fl TCPRst = false ∧
    GetConnection example_tracker (reverse_key (reverse_key example_key)) = Some conn ∧
    IsTombstone conn = false.
Proof.
  apply (tcp_inbound_requires_tracked_syn 0 example_open example_tracker 4 (reverse_key example_key) TCPAck 99
    (IsValidInbound 4 example_tracker (reverse_key example_key) TCPAck 99).1); vm_compute; reflexivity.
Defined.

Lemma tcp_established_handshake_witness : handshake_seen example_open example_key Egress.
Proof.
  apply (tcp_established_handshake 0 example_open example_tracker example_key
    (default (mkTCPConn (newBase 0 Egress AddrZero AddrZero) 0 0 TCPStateNew false)
       (GetConnection example_tracker example_key))).
  - vm_compute. reflexivity.
  - vm_compute. reflexivity.
  - apply (bool_decide_unpack _). vm_compute. exact I.
Defined.

(** a flow can be reported as ended twice: the transition to TIME-WAIT
    stores an end event and a reset arriving before the cleanup stores a second
    one for the same flow. *)
Theorem tcp_duplicate_end_event :
  ∃ t, apply_calls (NewTCPTracker 0) (example_open ++ example_close) = Ok t ∧
    map (λ e, (ef_FlowID e, ef_Type e)) (tt_events t) = [(7, TypeStart); (7, TypeEnd); (7, TypeEnd)].
Proof. eexists. split; vm_compute; reflexivity. Qed.
