(* ===== verification/ConntrackUDP.v ===== *)
(** * UDP and ICMP connection tracking

    [client/firewall/uspfilter/conntrack/udp.go] and [icmp.go].  Both trackers
    keep a last-seen time per flow; an inbound packet is valid when the flow in
    the opposite direction is tracked and was seen within the timeout.  The
    ICMP type and code of a packet and the two echo constants come from
    gopacket and are arguments.  The payload excerpt kept for log lines is not
    modelled.

    The theorems: an accepted inbound packet answers a flow that this host's
    filter tracked earlier (for ICMP, by an echo request) and on which traffic
    was seen within the timeout before now. *)

From stdpp Require Import base list gmap strings.
From S2P Require Import Prelude GoStd NetIP Conntrack.

#[local] Open Scope go_scope.

(** ** Flows by last-seen time

    What the two trackers have in common, over any key and connection type
    with a [BaseConnTrack]. *)

Section Flows.
Context {K C ev : Type} `{Countable K}.
Context (base : C → BaseConnTrack).

(** [opened h k]: some call of [h] opened flow [k]; [seen h k now]: some call
    of [h] was a packet of [k] at time [now]. *)
Context (opened : list ev → K → Prop) (seen : list ev → K → Z → Prop).

Definition traced (h : list ev) (m : option (gmap K C)) : Prop :=
  ∀ k c, nmap_get m k = Some c → opened h k ∧ seen h k (lastSeen (base c)).

Context (opened_app : ∀ h e k, opened h k → opened (h ++ [e]) k).
Context (seen_app : ∀ h e k t, seen h k t → seen (h ++ [e]) k t).

Lemma traced_app h e m : traced h m → traced (h ++ [e]) m.
Proof using opened_app seen_app. intros Ht k c Hk. destruct (Ht k c Hk). auto. Qed.

Lemma traced_upd h e m k c0 c :
  traced h m → nmap_get m k = Some c0 → seen (h ++ [e]) k (lastSeen (base c)) →
  traced (h ++ [e]) (nmap_upd m k c).
Proof using opened_app seen_app.
  intros Ht Hk Hs k' c' Hk'. apply nmap_get_upd in Hk' as [[-> ->]|Hk'].
  - split; [|done]. by apply opened_app, (Ht k c0).
  - by apply (traced_app h e m Ht).
Qed.

Lemma traced_set h e m k c :
  traced h (Some m) → opened (h ++ [e]) k → seen (h ++ [e]) k (lastSeen (base c)) →
  traced (h ++ [e]) (Some (<[k := c]> m)).
Proof using opened_app seen_app.
  intros Ht Ho Hs k' c' Hk'. apply (nmap_get_upd (Some m)) in Hk' as [[-> ->]|Hk']; [done|].
  by apply (traced_app h e (Some m) Ht).
Qed.

Lemma traced_filter h e m (P : K * C → Prop) `{∀ x, Decision (P x)} :
  traced h (Some m) → traced (h ++ [e]) (Some (filter P m)).
Proof using opened_app seen_app.
  intros Ht k c Hk. simpl in Hk. apply map_lookup_filter_Some in Hk as [Hk _].
  by apply (traced_app h e (Some m) Ht).
Qed.
End Flows.

(** The counters and last-seen time of a packet. *)
Definition touch_base (now : Z) (d : Direction) (size : Z) (b : BaseConnTrack) : BaseConnTrack :=
  UpdateCounters d size (UpdateLastSeen now b).

Lemma lastSeen_touch now d size b : lastSeen (touch_base now d size b) = now.
Proof. unfold touch_base, UpdateCounters. by case_bool_decide. Qed.

Module UDP.

Definition DefaultUDPTimeout : Z := 30 * second.

Record UDPConnTrack := mkUDPConn {
  uc_base : BaseConnTrack;
  uc_SourcePort : Z;
  uc_DestPort : Z;
}.

Record UDPTracker := mkUDPTracker {
  ut_connections : option (gmap ConnKey UDPConnTrack);
  ut_timeout : Z;
  ut_events : list EventFields;
}.

Definition NewUDPTracker (timeout : Z) : UDPTracker :=
  mkUDPTracker (Some ∅) (if timeout =? 0 then DefaultUDPTimeout else timeout) [].

Definition set_conns (t : UDPTracker) (m : option (gmap ConnKey UDPConnTrack)) : UDPTracker :=
  mkUDPTracker m (ut_timeout t) (ut_events t).

Definition sendEvents (t : UDPTracker) (es : list EventFields) : UDPTracker :=
  mkUDPTracker (ut_connections t) (ut_timeout t) (ut_events t ++ es).

Definition udp_event (typ : FlowType) (c : UDPConnTrack) (ruleID : bytes) : EventFields :=
  let b := uc_base c in
  mkEventFields (FlowId b) typ ruleID (bc_Direction b) ProtoUDP (SourceIP b) (DestIP b)
    (uc_SourcePort c) (uc_DestPort c) 0 0 (PacketsRx b) (PacketsTx b) (BytesRx b) (BytesTx b).

Definition touch (now : Z) (d : Direction) (size : Z) (c : UDPConnTrack) : UDPConnTrack :=
  mkUDPConn (touch_base now d size (uc_base c)) (uc_SourcePort c) (uc_DestPort c).

Definition updateIfExists (now : Z) (t : UDPTracker) (key : ConnKey) (direction : Direction) (size : Z)
    : UDPTracker * option Z :=
  match nmap_get (ut_connections t) key with
  | Some conn =>
      (set_conns t (nmap_upd (ut_connections t) key (touch now direction size conn)),
       Some (u16 (DNATOrigPort (uc_base conn))))
  | None => (t, None)
  end.

Definition track (now flowId : Z) (t : UDPTracker) (key : ConnKey) (direction : Direction)
    (ruleID : bytes) (size origPort : Z) : outcome unit UDPTracker :=
  let '(t, upd) := updateIfExists now t key direction size in
  match upd with
  | Some _ => Ok t
  | None =>
      let base := set_DNATOrigPort (newBase flowId direction (SrcIP key) (DstIP key)) origPort in
      let conn := touch now direction size (mkUDPConn base (SrcPort key) (DstPort key)) in
      let! m := nmap_set (ut_connections t) key conn in
      Ok (sendEvents (set_conns t m) [udp_event TypeStart conn ruleID])
  end.

Definition TrackOutbound (now flowId : Z) (t : UDPTracker) (key : ConnKey) (size : Z)
    : outcome unit (UDPTracker * Z) :=
  let '(t', upd) := updateIfExists now t (reverse_key key) Egress size in
  match upd with
  | Some origPort => Ok (t', origPort)
  | None => let! t'' := track now flowId t' key Egress [] size 0 in Ok (t'', 0)
  end.

Definition TrackInbound (now flowId : Z) (t : UDPTracker) (key : ConnKey) (ruleID : bytes)
    (size dnatOrigPort : Z) : outcome unit UDPTracker :=
  track now flowId t key Ingress ruleID size dnatOrigPort.

Definition IsValidInbound (now : Z) (t : UDPTracker) (key : ConnKey) (size : Z) : UDPTracker * bool :=
  let k := reverse_key key in
  match nmap_get (ut_connections t) k with
  | None => (t, false)
  | Some conn =>
      if timeoutExceeded now (uc_base conn) (ut_timeout t) then (t, false)
      else (set_conns t (nmap_upd (ut_connections t) k (touch now Ingress size conn)), true)
  end.

(** [cleanup]; Go iterates the map in an unspecified order. *)
Definition cleanup (now : Z) (t : UDPTracker) : UDPTracker :=
  match ut_connections t with
  | None => t
  | Some m =>
      sendEvents
        (set_conns t (Some (filter (λ kc, timeoutExceeded now (uc_base kc.2) (ut_timeout t) = false) m)))
        (flat_map (λ kc, if timeoutExceeded now (uc_base kc.2) (ut_timeout t)
                         then [udp_event TypeEnd kc.2 []] else []) (map_to_list m))
  end.

Definition GetConnection (t : UDPTracker) (key : ConnKey) : option UDPConnTrack :=
  nmap_get (ut_connections t) key.

Definition Timeout (t : UDPTracker) : Z := ut_timeout t.

Definition Close (t : UDPTracker) : UDPTracker := set_conns t None.

Inductive call :=
| COut (now flowId : Z) (key : ConnKey) (size : Z)
| CIn (now flowId : Z) (key : ConnKey) (ruleID : bytes) (size orig : Z)
| CValid (now : Z) (key : ConnKey) (size : Z)
| CCleanup (now : Z)
| CClose.

Definition apply_call (t : UDPTracker) (c : call) : outcome unit UDPTracker :=
  match c with
  | COut now f k sz => let! r := TrackOutbound now f t k sz in Ok r.1
  | CIn now f k r sz o => TrackInbound now f t k r sz o
  | CValid now k sz => Ok (IsValidInbound now t k sz).1
  | CCleanup now => Ok (cleanup now t)
  | CClose => Ok (Close t)
  end.

Fixpoint apply_calls (t : UDPTracker) (cs : list call) : outcome unit UDPTracker :=
  match cs with
  | [] => Ok t
  | c :: cs => let! t := apply_call t c in apply_calls t cs
  end.

(** Calls that open flow [k], and calls that are packets of it. *)
Definition opens (c : call) (k : ConnKey) : Prop :=
  match c with COut _ _ k' _ => k = k' | CIn _ _ k' _ _ _ => k = k' | _ => False end.

Definition packet_at (c : call) (k : ConnKey) (t : Z) : Prop :=
  match c with
  | COut now _ k' _ => (k = k' ∨ k = reverse_key k') ∧ t = now
  | CIn now _ k' _ _ _ => k = k' ∧ t = now
  | CValid now k' _ => k = reverse_key k' ∧ t = now
  | _ => False
  end.

Definition opened (h : list call) (k : ConnKey) : Prop := ∃ c, c ∈ h ∧ opens c k.

Definition seen (h : list call) (k : ConnKey) (t : Z) : Prop := ∃ c, c ∈ h ∧ packet_at c k t.

Definition udp_traced (h : list call) (t : UDPTracker) : Prop :=
  traced uc_base opened seen h (ut_connections t).

Lemma udp_opened_app h e k : opened h k → opened (h ++ [e]) k.
Proof. intros (c & Hc & Ho). exists c. set_solver. Qed.

Lemma udp_seen_app h e k t : seen h k t → seen (h ++ [e]) k t.
Proof. intros (c & Hc & Ho). exists c. set_solver. Qed.

Lemma udp_opened_last h e k : opens e k → opened (h ++ [e]) k.
Proof. exists e. set_solver. Qed.

Lemma udp_seen_last h e k t : packet_at e k t → seen (h ++ [e]) k t.
Proof. exists e. set_solver. Qed.

#[local] Hint Resolve udp_opened_app udp_seen_app udp_opened_last udp_seen_last : go.

Lemma udp_traced_updateIfExists h e now t key d size t' u :
  udp_traced h t → packet_at e key now →
  updateIfExists now t key d size = (t', u) →
  udp_traced (h ++ [e]) t' ∧ (u = None → t' = t).
Proof.
  intros Ht Hp. unfold updateIfExists. destruct (nmap_get _ key) as [c|] eqn:E; intros [= <- <-].
  - split; [|done]. unfold udp_traced. cbn [ut_connections set_conns].
    eapply traced_upd; eauto with go. cbn [uc_base touch]. rewrite lastSeen_touch. auto with go.
  - split; [|done]. apply traced_app; auto with go.
Qed.

Lemma udp_traced_track h e now f t key d r size o t' :
  udp_traced h t → packet_at e key now → opens e key →
  track now f t key d r size o = Ok t' → udp_traced (h ++ [e]) t'.
Proof.
  intros Ht Hp Ho. unfold track.
  destruct (updateIfExists now t key d size) as [t1 [u|]] eqn:E;
    apply (udp_traced_updateIfExists h e) in E as [H1 H2]; try done.
  { intros. by inv_ok. }
  rewrite (H2 eq_refl). unfold nmap_set. unfold udp_traced in Ht |- *.
  destruct (ut_connections t) as [m|] eqn:Em; simpl; intros; inv_ok. cbn.
  apply traced_set; eauto with go. cbn [uc_base touch]. rewrite lastSeen_touch. auto with go.
Qed.

Lemma udp_traced_call h t c t' : udp_traced h t → apply_call t c = Ok t' → udp_traced (h ++ [c]) t'.
Proof.
  intros Ht. destruct c as [now f k sz|now f k r sz o|now k sz|now|]; simpl.
  - unfold TrackOutbound.
    destruct (updateIfExists now t (reverse_key k) Egress sz) as [t1 [u|]] eqn:E;
      apply (udp_traced_updateIfExists h (COut now f k sz)) in E as [H1 H2]; simpl; auto.
    { intros. by inv_ok. }
    rewrite (H2 eq_refl). destruct (track now f t k Egress [] sz 0) as [t2|x|] eqn:Et; simpl; intros; inv_ok.
    eapply udp_traced_track; [exact Ht| | |exact Et]; simpl; auto.
  - apply udp_traced_track; simpl; auto.
  - intros. inv_ok. unfold IsValidInbound. destruct (nmap_get _ _) as [c|] eqn:E.
    2: { apply traced_app; auto with go. }
    destruct (timeoutExceeded _ _ _); [apply traced_app; auto with go|].
    unfold udp_traced. cbn. eapply traced_upd; eauto with go. cbn [uc_base touch]. rewrite lastSeen_touch.
    apply udp_seen_last. done.
  - intros. inv_ok. unfold cleanup, udp_traced in *. destruct (ut_connections t) as [m|] eqn:Em.
    + cbn. apply traced_filter; eauto with go.
    + rewrite Em. apply traced_app; auto with go.
  - intros. inv_ok. by intros k c.
Qed.

Lemma udp_apply_calls_app t cs1 cs2 :
  apply_calls t (cs1 ++ cs2) = obind (apply_calls t cs1) (λ t, apply_calls t cs2).
Proof.
  revert t. induction cs1 as [|c cs IH]; intros t; simpl; [done|].
  destruct (apply_call t c); simpl; auto.
Qed.

Lemma udp_traced_history timeout cs t :
  apply_calls (NewUDPTracker timeout) cs = Ok t → udp_traced cs t.
Proof.
  revert t. induction cs as [|c cs IH] using rev_ind; intros t.
  - simpl. intros. inv_ok. by intros k conn.
  - rewrite udp_apply_calls_app. destruct (apply_calls _ cs) as [t1|e|]; simpl; [|done..].
    destruct (apply_call t1 c) as [t2|e|] eqn:E; simpl; intros; inv_ok. eauto using udp_traced_call.
Qed.

Lemma udp_timeout_call t c t' : apply_call t c = Ok t' → ut_timeout t' = ut_timeout t.
Proof.
  destruct c; simpl; unfold TrackOutbound, TrackInbound, track, updateIfExists, IsValidInbound, cleanup, nmap_set;
    intros; repeat (case_match; simpl in *; inv_ok); simplify_eq/=; done.
Qed.

Lemma udp_timeout_calls t cs t' : apply_calls t cs = Ok t' → ut_timeout t' = ut_timeout t.
Proof.
  revert t. induction cs as [|c cs IH]; simpl; intros t; [intros; by inv_ok|].
  destruct (apply_call t c) as [t1|e|] eqn:E; simpl; [|done..].
  intros ->%IH. eauto using udp_timeout_call.
Qed.

(** after any history of calls on a new UDP tracker, an inbound datagram
    is accepted only when the flow in the opposite direction was opened by an
    earlier outbound (or rule-accepted inbound) packet and a packet of that
    flow was processed at most [timeout] before now. *)
Theorem udp_inbound_requires_recent_flow timeout cs t now key size t' :
  apply_calls (NewUDPTracker timeout) cs = Ok t →
  IsValidInbound now t key size = (t', true) →
  opened cs (reverse_key key) ∧
  ∃ seenAt, seen cs (reverse_key key) seenAt ∧ now - seenAt ≤ Timeout (NewUDPTracker timeout).
Proof.
  intros Ht Hv. pose proof (udp_traced_history _ _ _ Ht) as Htr. apply udp_timeout_calls in Ht.
  unfold IsValidInbound in Hv. destruct (nmap_get _ _) as [c|] eqn:E; [|done].
  destruct (timeoutExceeded _ _ _) eqn:Ex; [done|]. apply Htr in E as [Ho Hs].
  split; [done|]. eexists. split; [exact Hs|].
  unfold timeoutExceeded in Ex. unfold Timeout. rewrite <-Ht. lia.
Qed.

Definition dns_key : ConnKey := mkKey (Addr4 1) (Addr4 2) 5353 53.

Definition dns_query : list call := [COut (1 * second) 7 dns_key 60].

Definition dns_tracker : UDPTracker :=
  match apply_calls (NewUDPTracker 0) dns_query with Ok t => t | _ => NewUDPTracker 0 end.

Lemma udp_inbound_requires_recent_flow_witness :
  opened dns_query (reverse_key (reverse_key dns_key)) ∧
  ∃ seenAt, seen dns_query (reverse_key (reverse_key dns_key)) seenAt ∧
    20 * second - seenAt ≤ Timeout (NewUDPTracker 0).
Proof.
  apply (udp_inbound_requires_recent_flow 0 dns_query dns_tracker (20 * second) (reverse_key dns_key) 80
    (IsValidInbound (20 * second) dns_tracker (reverse_key dns_key) 80).1); vm_compute; reflexivity.
Defined.

End UDP.

Module ICMP.

Definition DefaultICMPTimeout : Z := 30 * second.

Record ICMPConnKey := mkIKey { ik_SrcIP : Addr; ik_DstIP : Addr; ik_ID : Z }.

#[global] Instance ICMPConnKey_eq_dec : EqDecision ICMPConnKey.
Proof. solve_decision. Defined.

#[global] Program Instance ICMPConnKey_countable : Countable ICMPConnKey :=
  inj_countable' (λ k, (ik_SrcIP k, ik_DstIP k, ik_ID k)) (λ '(a, b, c), mkIKey a b c) _.
Next Obligation. by intros []. Qed.

Definition reverse_ikey (k : ICMPConnKey) : ICMPConnKey := mkIKey (ik_DstIP k) (ik_SrcIP k) (ik_ID k).

Record ICMPConnTrack := mkICMPConn {
  ic_base : BaseConnTrack;
  ic_ICMPType : Z;
  ic_ICMPCode : Z;
}.

Record ICMPTracker := mkICMPTracker {
  it_connections : option (gmap ICMPConnKey ICMPConnTrack);
  it_timeout : Z;
  it_events : list EventFields;
}.

Definition NewICMPTracker (timeout : Z) : ICMPTracker :=
  mkICMPTracker (Some ∅) (if timeout =? 0 then DefaultICMPTimeout else timeout) [].

Definition set_conns (t : ICMPTracker) (m : option (gmap ICMPConnKey ICMPConnTrack)) : ICMPTracker :=
  mkICMPTracker m (it_timeout t) (it_events t).

Definition sendEvents (t : ICMPTracker) (es : list EventFields) : ICMPTracker :=
  mkICMPTracker (it_connections t) (it_timeout t) (it_events t ++ es).

Definition icmp_event (typ : FlowType) (c : ICMPConnTrack) (ruleID : bytes) : EventFields :=
  let b := ic_base c in
  mkEventFields (FlowId b) typ ruleID (bc_Direction b) ProtoICMP (SourceIP b) (DestIP b)
    0 0 (ic_ICMPType c) (ic_ICMPCode c) (PacketsRx b) (PacketsTx b) (BytesRx b) (BytesTx b).

(** [sendStartEvent] *)
Definition start_event (flowId : Z) (d : Direction) (src dst : Addr) (typ code : Z) (ruleID : bytes)
    (size : Z) : EventFields :=
  if bool_decide (d = Ingress)
  then mkEventFields flowId TypeStart ruleID d ProtoICMP src dst 0 0 typ code 1 0 (u64 size) 0
  else mkEventFields flowId TypeStart ruleID d ProtoICMP src dst 0 0 typ code 0 1 0 (u64 size).

Definition touch (now : Z) (d : Direction) (size : Z) (c : ICMPConnTrack) : ICMPConnTrack :=
  mkICMPConn (touch_base now d size (ic_base c)) (ic_ICMPType c) (ic_ICMPCode c).

Definition updateIfExists (now : Z) (t : ICMPTracker) (key : ICMPConnKey) (direction : Direction) (size : Z)
    : ICMPTracker * bool :=
  match nmap_get (it_connections t) key with
  | Some conn => (set_conns t (nmap_upd (it_connections t) key (touch now direction size conn)), true)
  | None => (t, false)
  end.

Section Echo.
  Context (ICMPv4TypeEchoRequest ICMPv4TypeEchoReply : Z).

Definition track (now flowId : Z) (t : ICMPTracker) (key : ICMPConnKey) (typ code : Z)
    (direction : Direction) (ruleId : bytes) (size : Z) : outcome unit ICMPTracker :=
  let '(t, exists_) := updateIfExists now t key direction size in
  if exists_ then Ok t
  else if negb (typ =? u8 ICMPv4TypeEchoRequest) then
    Ok (sendEvents t [start_event flowId direction (ik_SrcIP key) (ik_DstIP key) typ code ruleId size])
  else
    let conn := touch now direction size
      (mkICMPConn (newBase flowId direction (ik_SrcIP key) (ik_DstIP key)) typ code) in
    let! m := nmap_set (it_connections t) key conn in
    Ok (sendEvents (set_conns t m) [icmp_event TypeStart conn ruleId]).

Definition TrackOutbound (now flowId : Z) (t : ICMPTracker) (key : ICMPConnKey) (typ code size : Z)
    : outcome unit ICMPTracker :=
  let '(t', exists_) := updateIfExists now t (reverse_ikey key) Egress size in
  if negb exists_ then track now flowId t' key typ code Egress [] size else Ok t'.

Definition TrackInbound (now flowId : Z) (t : ICMPTracker) (key : ICMPConnKey) (typ code : Z)
    (ruleId : bytes) (size : Z) : outcome unit ICMPTracker :=
  track now flowId t key typ code Ingress ruleId size.

Definition IsValidInbound (now : Z) (t : ICMPTracker) (key : ICMPConnKey) (icmpType size : Z)
    : ICMPTracker * bool :=
  if negb (icmpType =? u8 ICMPv4TypeEchoReply) then (t, false)
  else
    let k := reverse_ikey key in
    match nmap_get (it_connections t) k with
    | None => (t, false)
    | Some conn =>
        if timeoutExceeded now (ic_base conn) (it_timeout t) then (t, false)
        else (set_conns t (nmap_upd (it_connections t) k (touch now Ingress size conn)), true)
    end.

Definition cleanup (now : Z) (t : ICMPTracker) : ICMPTracker :=
  match it_connections t with
  | None => t
  | Some m =>
      sendEvents
        (set_conns t (Some (filter (λ kc, timeoutExceeded now (ic_base kc.2) (it_timeout t) = false) m)))
        (flat_map (λ kc, if timeoutExceeded now (ic_base kc.2) (it_timeout t)
                         then [icmp_event TypeEnd kc.2 []] else []) (map_to_list m))
  end.

Definition Close (t : ICMPTracker) : ICMPTracker := set_conns t None.

Inductive call :=
| COut (now flowId : Z) (key : ICMPConnKey) (typ code size : Z)
| CIn (now flowId : Z) (key : ICMPConnKey) (typ code : Z) (ruleId : bytes) (size : Z)
| CValid (now : Z) (key : ICMPConnKey) (icmpType size : Z)
| CCleanup (now : Z)
| CClose.

Definition apply_call (t : ICMPTracker) (c : call) : outcome unit ICMPTracker :=
  match c with
  | COut now f k ty co sz => TrackOutbound now f t k ty co sz
  | CIn now f k ty co r sz => TrackInbound now f t k ty co r sz
  | CValid now k ty sz => Ok (IsValidInbound now t k ty sz).1
  | CCleanup now => Ok (cleanup now t)
  | CClose => Ok (Close t)
  end.

Fixpoint apply_calls (t : ICMPTracker) (cs : list call) : outcome unit ICMPTracker :=
  match cs with
  | [] => Ok t
  | c :: cs => let! t := apply_call t c in apply_calls t cs
  end.

(** Echo requests that open flow [k], and packets of it. *)
Definition opens (c : call) (k : ICMPConnKey) : Prop :=
  match c with
  | COut _ _ k' ty _ _ => k = k' ∧ ty = u8 ICMPv4TypeEchoRequest
  | CIn _ _ k' ty _ _ _ => k = k' ∧ ty = u8 ICMPv4TypeEchoRequest
  | _ => False
  end.

Definition packet_at (c : call) (k : ICMPConnKey) (t : Z) : Prop :=
  match c with
  | COut now _ k' _ _ _ => (k = k' ∨ k = reverse_ikey k') ∧ t = now
  | CIn now _ k' _ _ _ _ => k = k' ∧ t = now
  | CValid now k' ty _ => k = reverse_ikey k' ∧ t = now ∧ ty = u8 ICMPv4TypeEchoReply
  | _ => False
  end.

Definition opened (h : list call) (k : ICMPConnKey) : Prop := ∃ c, c ∈ h ∧ opens c k.

Definition seen (h : list call) (k : ICMPConnKey) (t : Z) : Prop := ∃ c, c ∈ h ∧ packet_at c k t.

Definition icmp_traced (h : list call) (t : ICMPTracker) : Prop :=
  traced ic_base opened seen h (it_connections t).

Lemma icmp_opened_app h e k : opened h k → opened (h ++ [e]) k.
Proof. intros (c & Hc & Ho). exists c. set_solver. Qed.

Lemma icmp_seen_app h e k t : seen h k t → seen (h ++ [e]) k t.
Proof. intros (c & Hc & Ho). exists c. set_solver. Qed.

Lemma icmp_opened_last h e k : opens e k → opened (h ++ [e]) k.
Proof. exists e. set_solver. Qed.

Lemma icmp_seen_last h e k t : packet_at e k t → seen (h ++ [e]) k t.
Proof. exists e. set_solver. Qed.

#[local] Hint Resolve icmp_opened_app icmp_seen_app icmp_opened_last icmp_seen_last : go.

Lemma icmp_traced_updateIfExists h e now t key d size t' u :
  icmp_traced h t → packet_at e key now →
  updateIfExists now t key d size = (t', u) →
  icmp_traced (h ++ [e]) t' ∧ (u = false → t' = t).
Proof.
  intros Ht Hp. unfold updateIfExists. destruct (nmap_get _ key) as [c|] eqn:E; intros [= <- <-].
  - split; [|done]. unfold icmp_traced. cbn [it_connections set_conns].
    eapply traced_upd; eauto with go. cbn [ic_base touch]. rewrite lastSeen_touch. auto with go.
  - split; [|done]. apply traced_app; auto with go.
Qed.

Lemma icmp_traced_track h e now f t key ty co d r size t' :
  icmp_traced h t → packet_at e key now → (ty = u8 ICMPv4TypeEchoRequest → opens e key) →
  track now f t key ty co d r size = Ok t' → icmp_traced (h ++ [e]) t'.
Proof.
  intros Ht Hp Ho. unfold track.
  destruct (updateIfExists now t key d size) as [t1 [|]] eqn:E;
    apply (icmp_traced_updateIfExists h e) in E as [H1 H2]; try done.
  { intros. by inv_ok. }
  rewrite (H2 eq_refl). unfold nmap_set. unfold icmp_traced in Ht |- *.
  destruct (ty =? _) eqn:Ety; simpl.
  2: { intros; inv_ok. apply traced_app; auto with go. }
  destruct (it_connections t) as [m|] eqn:Em; simpl; intros; inv_ok. cbn.
  apply traced_set; eauto with go.
  - apply icmp_opened_last, Ho. lia.
  - cbn [ic_base touch]. rewrite lastSeen_touch. auto with go.
Qed.

Lemma icmp_traced_call h t c t' : icmp_traced h t → apply_call t c = Ok t' → icmp_traced (h ++ [c]) t'.
Proof.
  intros Ht. destruct c as [now f k ty co sz|now f k ty co r sz|now k ty sz|now|]; simpl.
  - unfold TrackOutbound.
    destruct (updateIfExists now t (reverse_ikey k) Egress sz) as [t1 [|]] eqn:E;
      apply (icmp_traced_updateIfExists h (COut now f k ty co sz)) in E as [H1 H2]; simpl; auto.
    { intros. by inv_ok. }
    rewrite (H2 eq_refl). intros Et. eapply icmp_traced_track; [exact Ht| | |exact Et]; simpl; auto.
  - apply icmp_traced_track; simpl; auto.
  - intros. inv_ok. unfold IsValidInbound.
    destruct (ty =? _) eqn:Ety; simpl; [|apply traced_app; auto with go].
    destruct (nmap_get _ _) as [c|] eqn:E; [|apply traced_app; auto with go].
    destruct (timeoutExceeded _ _ _); [apply traced_app; auto with go|].
    unfold icmp_traced. cbn. eapply traced_upd; eauto with go. cbn [ic_base touch]. rewrite lastSeen_touch.
    apply icmp_seen_last. split_and!; [done|done|lia].
  - intros. inv_ok. unfold cleanup, icmp_traced in *. destruct (it_connections t) as [m|] eqn:Em.
    + cbn. apply traced_filter; eauto with go.
    + rewrite Em. apply traced_app; auto with go.
  - intros. inv_ok. by intros k c.
Qed.

Lemma icmp_apply_calls_app t cs1 cs2 :
  apply_calls t (cs1 ++ cs2) = obind (apply_calls t cs1) (λ t, apply_calls t cs2).
Proof.
  revert t. induction cs1 as [|c cs IH]; intros t; simpl; [done|].
  destruct (apply_call t c); simpl; auto.
Qed.

Lemma icmp_traced_history timeout cs t :
  apply_calls (NewICMPTracker timeout) cs = Ok t → icmp_traced cs t.
Proof.
  revert t. induction cs as [|c cs IH] using rev_ind; intros t.
  - simpl. intros. inv_ok. by intros k conn.
  - rewrite icmp_apply_calls_app. destruct (apply_calls _ cs) as [t1|e|]; simpl; [|done..].
    destruct (apply_call t1 c) as [t2|e|] eqn:E; simpl; intros; inv_ok. eauto using icmp_traced_call.
Qed.

Lemma icmp_timeout_call t c t' : apply_call t c = Ok t' → it_timeout t' = it_timeout t.
Proof.
  destruct c; simpl; unfold TrackOutbound, TrackInbound, track, updateIfExists, IsValidInbound, cleanup, nmap_set;
    intros; repeat (case_match; simpl in *; inv_ok); simplify_eq/=; done.
Qed.

Lemma icmp_timeout_calls t cs t' : apply_calls t cs = Ok t' → it_timeout t' = it_timeout t.
Proof.
  revert t. induction cs as [|c cs IH]; simpl; intros t; [intros; by inv_ok|].
  destruct (apply_call t c) as [t1|e|] eqn:E; simpl; [|done..].
  intros ->%IH. eauto using icmp_timeout_call.
Qed.

(** after any history of calls on a new ICMP tracker, an inbound ICMP
    packet is accepted as a reply only when it is an echo reply, an echo
    request of the opposite direction with the same id was tracked earlier,
    and a packet of that flow was processed at most [timeout] before now. *)
Theorem icmp_reply_requires_request timeout cs t now key icmpType size t' :
  apply_calls (NewICMPTracker timeout) cs = Ok t →
  IsValidInbound now t key icmpType size = (t', true) →
  icmpType = u8 ICMPv4TypeEchoReply ∧ opened cs (reverse_ikey key) ∧
  ∃ seenAt, seen cs (reverse_ikey key) seenAt ∧ now - seenAt ≤ it_timeout (NewICMPTracker timeout).
Proof.
  intros Ht Hv. pose proof (icmp_traced_history _ _ _ Ht) as Htr. apply icmp_timeout_calls in Ht.
  unfold IsValidInbound in Hv. destruct (icmpType =? _) eqn:Ety; simpl in Hv; [|done].
  destruct (nmap_get _ _) as [c|] eqn:E; [|done].
  destruct (timeoutExceeded _ _ _) eqn:Ex; [done|]. apply Htr in E as [Ho Hs].
  split_and!; [lia|done|]. eexists. split; [exact Hs|].
  unfold timeoutExceeded in Ex. rewrite <-Ht. lia.
Qed.
End Echo.

Definition ping_key : ICMPConnKey := mkIKey (Addr4 1) (Addr4 2) 77.

Definition ping : list call := [COut (1 * second) 7 ping_key 8 0 84].

Definition ping_tracker : ICMPTracker :=
  match apply_calls 8 0 (NewICMPTracker 0) ping with Ok t => t | _ => NewICMPTracker 0 end.

Lemma icmp_reply_requires_request_witness :
  0 = u8 0 ∧ opened 8 ping (reverse_ikey (reverse_ikey ping_key)) ∧
  ∃ seenAt, seen 0 ping (reverse_ikey (reverse_ikey ping_key)) seenAt ∧
    2 * second - seenAt ≤ it_timeout (NewICMPTracker 0).
Proof.
  apply (icmp_reply_requires_request 8 0 0 ping ping_tracker (2 * second) (reverse_ikey ping_key) 0 84
    (IsValidInbound 0 (2 * second) ping_tracker (reverse_ikey ping_key) 0 84).1); vm_compute; reflexivity.
Defined.

End ICMP.
