(* ===== verification/LocalIP.v ===== *)
(** * Local addresses of the userspace firewall

    [client/firewall/uspfilter/localip.go]: the set of the host's own IPv4
    addresses, a table indexed by the first byte of an address whose entries are
    bitmaps over a 16-bit number packed from the other three bytes.  The list of
    interfaces with their addresses is what [net.Interfaces] and
    [Interface.Addrs] return, an argument.

    The theorems: every address of the host and all of 127.0.0.0/8 are local,
    no bitmap access is out of range, and an address is reported local exactly
    when it has the first byte and the packed low number of an address of the
    host; the packing is not injective, so foreign addresses can be reported
    local too. *)

From stdpp Require Import base list gmap.
From S2P Require Import Prelude NetIP.

#[local] Open Scope go_scope.

(** ** Data *)

(** [bitmap [8192]uint32] *)
Abbreviation ipv4LowBitmap := (list Z).

(** [ipv4Bitmap [256]*ipv4LowBitmap] *)
Abbreviation ipv4Table := (list (option ipv4LowBitmap)).

Definition low_words : nat := Z.to_nat 8192.

Definition empty_low : ipv4LowBitmap := replicate low_words 0.

Definition full_low : ipv4LowBitmap := replicate low_words 0xFFFFFFFF.

Definition empty_table : ipv4Table := replicate 256 None.

Record localIPManager := mkLocalIP { ipv4Bitmap : ipv4Table }.

Definition newLocalIPManager : localIPManager := mkLocalIP empty_table.

(** An element of [Interface.Addrs]. *)
Inductive net_Addr :=
| IPNet (ip : bytes)
| IPAddr (ip : bytes)
| OtherAddr.

(** An interface: its addresses, or the failure of [Addrs]. *)
Definition net_Interface := option (list net_Addr).

(** ** Operations *)

(** [uint16(ip[1])<<8 | uint16(ip[2])<<4 | uint16(ip[3])] *)
Definition pack_low (b1 b2 b3 : byte) : Z :=
  u16 (Z.lor (Z.lor (u16 (Z.shiftl (byte_to_Z b1) 8)) (u16 (Z.shiftl (byte_to_Z b2) 4))) (byte_to_Z b3)).

(** The row and packed low number of the four bytes of an address. *)
Definition split_ip (ip : bytes) : total (nat * Z) :=
  let! b0 := go_index ip 0 in
  let! b1 := go_index ip 1 in
  let! b2 := go_index ip 2 in
  let! b3 := go_index ip 3 in
  Ok (Z.to_nat (byte_to_Z b0), pack_low b1 b2 b3).

(** [bitmap[high].bitmap[index] |= 1 << bit], with the row made if nil. *)
Definition set_bit (t : ipv4Table) (high : nat) (low : Z) : total ipv4Table :=
  let! row := go_index t high in
  let row := default empty_low row in
  let index := Z.to_nat (low / 32) in
  let! w := go_index row index in
  let! row := go_set row index (Z.lor w (u32 (Z.shiftl 1 (low mod 32)))) in
  go_set t high (Some row).

(** [net.IP.To4]: four bytes, or the last four of an IPv4-mapped address. *)
Definition To4 (ip : bytes) : option bytes :=
  if bool_decide (length ip = 4%nat) then Some ip
  else if bool_decide (length ip = 16%nat ∧ take 10 ip = replicate 10 Byte.x00 ∧
                       take 2 (drop 10 ip) = replicate 2 Byte.xff) then Some (drop 12 ip)
  else None.

Definition setBitmapBit (m : localIPManager) (ip : bytes) : total localIPManager :=
  match To4 ip with
  | None => Ok m
  | Some ipv4 =>
      let! hl := split_ip ipv4 in
      let! t := set_bit (ipv4Bitmap m) hl.1 hl.2 in
      Ok (mkLocalIP t)
  end.

(** [setBitInBitmap]; the set and the list of addresses are kept for a log
    line, the list has no duplicates. *)
Definition setBitInBitmap (ip : Addr) (st : ipv4Table * list Addr) : total (ipv4Table * list Addr) :=
  if negb (Is4 ip) then Ok st
  else
    let! hl := split_ip (AsSlice ip) in
    let! t := set_bit st.1 hl.1 hl.2 in
    Ok (t, if bool_decide (ip ∈ st.2) then st.2 else st.2 ++ [ip]).

Definition checkBitmapBit (m : localIPManager) (ip : bytes) : total bool :=
  let! hl := split_ip ip in
  let! row := go_index (ipv4Bitmap m) hl.1 in
  match row with
  | None => Ok false
  | Some row =>
      let! w := go_index row (Z.to_nat (hl.2 / 32)) in
      Ok (has_bit w (u32 (Z.shiftl 1 (hl.2 mod 32))))
  end.

Definition processIP := setBitInBitmap.

(** The bytes of an interface address, [None] for the [continue] of other types. *)
Definition net_Addr_IP (a : net_Addr) : option bytes :=
  match a with IPNet ip => Some ip | IPAddr ip => Some ip | OtherAddr => None end.

(** The address that is processed for an element of [Addrs]. *)
Definition interface_addr (a : net_Addr) : option Addr :=
  ip ← net_Addr_IP a; x ← AddrFromSlice ip; Some (Unmap x).

Fixpoint process_addrs (addrs : list net_Addr) (st : ipv4Table * list Addr)
    : total (ipv4Table * list Addr) :=
  match addrs with
  | [] => Ok st
  | a :: addrs =>
      match interface_addr a with
      | None => process_addrs addrs st
      | Some ip => let! st := processIP ip st in process_addrs addrs st
      end
  end.

Definition processInterface (iface : net_Interface) (st : ipv4Table * list Addr)
    : total (ipv4Table * list Addr) :=
  match iface with
  | None => Ok st
  | Some addrs => process_addrs addrs st
  end.

Fixpoint process_interfaces (ifaces : list net_Interface) (st : ipv4Table * list Addr)
    : total (ipv4Table * list Addr) :=
  match ifaces with
  | [] => Ok st
  | i :: ifaces => let! st := processInterface i st in process_interfaces ifaces st
  end.

(** The table [UpdateLocalIPs] builds; [wg] is the address of the WireGuard
    interface, absent without an interface, [ifaces] the result of
    [net.Interfaces]. *)
Definition build_table (wg : option Addr) (ifaces : option (list net_Interface))
    : total (ipv4Table * list Addr) :=
  let! t := go_set empty_table 127 (Some full_low) in
  let! st := match wg with Some ip => processIP ip (t, []) | None => Ok (t, []) end in
  process_interfaces (default [] ifaces) st.

(** [UpdateLocalIPs]: a panic is recovered and returned as an error. *)
Definition UpdateLocalIPs (wg : option Addr) (ifaces : option (list net_Interface)) (m : localIPManager)
    : outcome string localIPManager :=
  match build_table wg ifaces with
  | Ok st => Ok (mkLocalIP st.1)
  | Err e => match e with end
  | Panic => Err "panic"%string
  end.

Definition IsLocalIP (m : localIPManager) (ip : Addr) : total bool :=
  if negb (Is4 ip) then Ok false else checkBitmapBit m (AsSlice ip).

(** ** The table as a set of bits *)

Definition bit_at (t : ipv4Table) (h : nat) (l : Z) : bool :=
  match t !! h with
  | Some (Some row) => Z.testbit (default 0 (row !! Z.to_nat (l / 32))) (l mod 32)
  | _ => false
  end.

(** The sizes of the arrays. *)
Definition table_ok (t : ipv4Table) : Prop :=
  length t = 256%nat ∧ Forall (λ r, ∀ row, r = Some row → length row = low_words) t.

Definition packed_ok (l : Z) : Prop := 0 ≤ l < 2 ^ 16.

Lemma has_bit_testbit w k : 0 ≤ k < 32 → has_bit w (u32 (Z.shiftl 1 k)) = Z.testbit w k.
Proof.
  intros Hk. unfold has_bit, u32. rewrite Z.shiftl_1_l, wrap_small.
  2: { split; [lia|]. apply Z.pow_lt_mono_r; lia. }
  replace (Z.land w (2 ^ k)) with (if Z.testbit w k then 2 ^ k else 0).
  - destruct (Z.testbit w k); [|done]. apply negb_true_iff, Z.eqb_neq.
    pose proof (Z.pow_pos_nonneg 2 k). lia.
  - apply Z.bits_inj'. intros j Hj. rewrite Z.land_spec, Z.pow2_bits_eqb by lia.
    destruct (Z.eqb_spec k j) as [<-|Hn].
    + destruct (Z.testbit w k); [by rewrite Z.pow2_bits_true by lia|by rewrite Z.bits_0].
    + rewrite andb_false_r. destruct (Z.testbit w k); [by rewrite Z.pow2_bits_false by lia|by rewrite Z.bits_0].
Qed.

Lemma testbit_set w k j :
  0 ≤ k < 32 → 0 ≤ j →
  Z.testbit (Z.lor w (u32 (Z.shiftl 1 k))) j = Z.testbit w j || (k =? j).
Proof.
  intros Hk Hj. unfold u32. rewrite Z.shiftl_1_l, wrap_small.
  2: { split; [lia|]. apply Z.pow_lt_mono_r; lia. }
  by rewrite Z.lor_spec, Z.pow2_bits_eqb by lia.
Qed.

Lemma packed_index l : packed_ok l → (Z.to_nat (l / 32) < low_words)%nat ∧ 0 ≤ l mod 32 < 32.
Proof.
  unfold packed_ok, low_words. intros Hl. split; [|apply Z.mod_pos_bound; lia].
  assert (0 ≤ l / 32 < 2048) by (change (2 ^ 16) with 65536 in Hl; Z.to_euclidean_division_equations; lia).
  lia.
Qed.

Lemma pack_low_ok a b c : packed_ok (pack_low a b c).
Proof. apply wrap_range. lia. Qed.

Lemma table_ok_row t h : table_ok t → (h < 256)%nat →
  ∃ r, t !! h = Some r ∧ ∀ row, r = Some row → length row = low_words.
Proof.
  intros [Hl Hf] Hh. destruct (lookup_lt_is_Some_2 t h) as [r Hr]; [lia|].
  exists r. split; [done|]. by apply (Forall_lookup_1 _ _ _ _ Hf Hr).
Qed.

(** Setting a bit never goes out of range and sets exactly that bit. *)
Lemma set_bit_spec t h l :
  table_ok t → (h < 256)%nat → packed_ok l →
  ∃ t', set_bit t h l = Ok t' ∧ table_ok t' ∧
    ∀ h' l', packed_ok l' → bit_at t' h' l' = bit_at t h' l' || (bool_decide (h = h') && (l =? l')).
Proof.
  intros Hok Hh Hl. destruct (table_ok_row t h Hok Hh) as (r & Hr & Hrow).
  destruct (packed_index l Hl) as [Hi Hb]. unfold set_bit. rewrite (go_index_ok t h r Hr). cbn [obind].
  assert (length (default empty_low r) = low_words) as Hlen.
  { destruct r as [row|]; cbn [default]; [by apply Hrow|unfold empty_low; apply length_replicate]. }
  destruct (lookup_lt_is_Some_2 (default empty_low r) (Z.to_nat (l / 32))) as [w Hw]; [lia|].
  rewrite (go_index_ok _ _ w Hw). cbn [obind]. unfold go_set at 1.
  rewrite bool_decide_true by lia. cbn [obind]. unfold go_set.
  rewrite bool_decide_true by (destruct Hok; lia). eexists. split; [done|]. split.
  - destruct Hok as [H1 H2]. split; [by rewrite length_insert|].
    apply Forall_insert; [done|]. intros row [= <-]. by rewrite length_insert.
  - intros h' l' Hl'. destruct (packed_index l' Hl') as [Hi' Hb']. unfold bit_at.
    case_bool_decide as Hhh; [subst h'|].
    2: { rewrite list_lookup_insert_ne by done. by rewrite orb_false_r. }
    rewrite list_lookup_insert_eq by (destruct Hok; lia). rewrite Hr.
    replace (match r with Some row => Z.testbit (default 0 (row !! Z.to_nat (l' / 32))) (l' mod 32) | None => false end)
      with (Z.testbit (default 0 (default empty_low r !! Z.to_nat (l' / 32))) (l' mod 32)).
    2: { destruct r; [done|]. cbn [default]. unfold empty_low. rewrite lookup_replicate_2 by lia. cbn [default]. apply Z.bits_0. }
    destruct (Z.eqb_spec (l / 32) (l' / 32)) as [Hq|Hq].
    + rewrite <-Hq, list_lookup_insert_eq, Hw by lia. simpl. rewrite testbit_set by lia. f_equal.
      apply Bool.eq_iff_eq_true. rewrite !Z.eqb_eq. Z.to_euclidean_division_equations. lia.
    + rewrite list_lookup_insert_ne.
      2: { intros He. apply Hq. unfold packed_ok in Hl, Hl'. apply Z2Nat.inj; [| |done]; apply Z.div_pos; lia. }
      destruct (Z.eqb_spec l l') as [->|]; [done|]. by rewrite orb_false_r.
Qed.

Lemma existsb_false_all {A} (f : A → bool) l : (∀ x, f x = false) → existsb f l = false.
Proof. intros H. induction l; simpl; [done|]. by rewrite H. Qed.

(** The row and packed number of an IPv4 address. *)
Definition ip_slot (n : Z) : nat * Z :=
  (Z.to_nat (byte_to_Z (Z_to_byte (Z.shiftr n 24))),
   pack_low (Z_to_byte (Z.shiftr n 16)) (Z_to_byte (Z.shiftr n 8)) (Z_to_byte n)).

Lemma split_ip_slot n : split_ip (AsSlice (Addr4 n)) = Ok (ip_slot n).
Proof.
  unfold AsSlice. cbn [be_bytes]. unfold split_ip, go_index. cbn [lookup list_lookup obind].
  unfold ip_slot. change (8 * Z.of_nat 3) with 24. change (8 * Z.of_nat 2) with 16. change (8 * Z.of_nat 1) with 8.
  change (8 * Z.of_nat 0) with 0. by rewrite Z.shiftr_0_r.
Qed.

Lemma ip_slot_ok n : ((ip_slot n).1 < 256)%nat ∧ packed_ok (ip_slot n).2.
Proof.
  split; [|apply pack_low_ok]. unfold ip_slot. simpl.
  pose proof (byte_to_Z_range (Z_to_byte (Z.shiftr n 24))). lia.
Qed.

Lemma IsLocalIP_bit m n :
  table_ok (ipv4Bitmap m) →
  IsLocalIP m (Addr4 n) = Ok (bit_at (ipv4Bitmap m) (ip_slot n).1 (ip_slot n).2).
Proof.
  intros Hok. unfold IsLocalIP. cbn [Is4 negb]. unfold checkBitmapBit. rewrite split_ip_slot. cbn [obind].
  destruct (ip_slot_ok n) as [Hh Hl]. destruct (table_ok_row _ _ Hok Hh) as (r & Hr & Hrow).
  destruct (packed_index _ Hl) as [Hi Hb]. rewrite (go_index_ok _ _ r Hr). cbn [obind]. unfold bit_at. rewrite Hr.
  destruct r as [row|]; [|done]. rewrite <-(Hrow row eq_refl) in Hi.
  destruct (lookup_lt_is_Some_2 row _ Hi) as [w Hw]. rewrite (go_index_ok _ _ w Hw), Hw. cbn [obind].
  by rewrite has_bit_testbit by lia.
Qed.

(** ** What [UpdateLocalIPs] makes local *)

(** The addresses [UpdateLocalIPs] processes, in order. *)
Definition host_addrs (wg : option Addr) (ifaces : option (list net_Interface)) : list Addr :=
  option_list wg ++ flat_map (λ i, omap interface_addr (default [] i)) (default [] ifaces).

(** Two addresses share a bit. *)
Definition same_bit (a b : Addr) : bool :=
  match a, b with
  | Addr4 n, Addr4 m => bool_decide (ip_slot n = ip_slot m)
  | _, _ => false
  end.

(** The state after processing [l] on top of a table whose bits are [base]. *)
Definition table_of (base : nat → Z → bool) (l : list Addr) (t : ipv4Table) : Prop :=
  table_ok t ∧ ∀ n, bit_at t (ip_slot n).1 (ip_slot n).2 =
    base (ip_slot n).1 (ip_slot n).2 || existsb (same_bit (Addr4 n)) l.

Lemma processIP_table base l t seen ip :
  table_of base l t →
  ∃ t' seen', processIP ip (t, seen) = Ok (t', seen') ∧ table_of base (l ++ [ip]) t'.
Proof.
  intros [Hok Hb]. unfold processIP, setBitInBitmap. destruct (Is4 ip) eqn:E4.
  - destruct ip as [|n|]; try done. cbn [negb]. rewrite split_ip_slot. cbn [obind fst snd].
    destruct (ip_slot_ok n) as [Hh Hl]. destruct (set_bit_spec t _ _ Hok Hh Hl) as (t' & -> & Hok' & Hb').
    cbn [obind]. do 2 eexists. split; [done|]. split; [done|]. intros k.
    rewrite Hb' by apply ip_slot_ok. rewrite Hb, existsb_app, <-orb_assoc. f_equal. f_equal.
    cbn [existsb same_bit]. rewrite orb_false_r. apply Bool.eq_iff_eq_true.
    rewrite andb_true_iff, !bool_decide_eq_true, Z.eqb_eq.
    destruct (ip_slot n), (ip_slot k). cbn [fst snd]. naive_solver.
  - cbn [negb]. do 2 eexists. split; [done|]. split; [done|]. intros k. rewrite Hb, existsb_app.
    destruct ip; cbn [existsb same_bit Is4] in *; try done; by rewrite !orb_false_r.
Qed.

Lemma process_addrs_table base addrs l t seen :
  table_of base l t →
  ∃ t' seen', process_addrs addrs (t, seen) = Ok (t', seen') ∧ table_of base (l ++ omap interface_addr addrs) t'.
Proof.
  revert l t seen. induction addrs as [|a addrs IH]; intros l t seen Ht; simpl.
  { rewrite app_nil_r. eauto. }
  destruct (interface_addr a) as [ip|]; simpl; [|eauto].
  destruct (processIP_table _ _ _ seen ip Ht) as (t1 & s1 & -> & H1). cbn [obind].
  destruct (IH _ _ s1 H1) as (t2 & s2 & -> & H2). rewrite <-app_assoc in H2. eauto.
Qed.

Lemma process_interfaces_table base ifaces l t seen :
  table_of base l t →
  ∃ t' seen', process_interfaces ifaces (t, seen) = Ok (t', seen') ∧
    table_of base (l ++ flat_map (λ i, omap interface_addr (default [] i)) ifaces) t'.
Proof.
  revert l t seen. induction ifaces as [|[addrs|] ifaces IH]; intros l t seen Ht; simpl.
  { rewrite app_nil_r. eauto. }
  - destruct (process_addrs_table _ addrs _ _ seen Ht) as (t1 & s1 & -> & H1). cbn [obind].
    destruct (IH _ _ s1 H1) as (t2 & s2 & -> & H2). rewrite <-app_assoc in H2. eauto.
  - cbn [obind]. eauto.
Qed.

(** The initial table: exactly 127.0.0.0/8. *)
Lemma loopback_table :
  ∃ t, go_set (E:=Empty_set) empty_table 127 (Some full_low) = Ok t ∧
    table_of (λ h _, bool_decide (h = 127%nat)) [] t.
Proof.
  unfold go_set. rewrite bool_decide_true by (unfold empty_table; rewrite length_replicate; lia).
  eexists. split; [done|]. split.
  - split; [by rewrite length_insert|]. apply Forall_insert.
    + by apply Forall_replicate.
    + intros row [= <-]. unfold full_low. apply length_replicate.
  - intros n. rewrite orb_false_r. destruct (ip_slot_ok n) as [Hh Hl]. unfold bit_at.
    case_bool_decide as E.
    + rewrite E, list_lookup_insert_eq by (unfold empty_table; rewrite length_replicate; lia).
      destruct (packed_index _ Hl) as [Hi Hb]. unfold full_low. rewrite lookup_replicate_2 by done.
      change (Z.testbit (Z.ones 32) ((ip_slot n).2 mod 32) = true). by rewrite Z.ones_spec_low by lia.
    + rewrite list_lookup_insert_ne by done. unfold empty_table. by rewrite lookup_replicate_2 by done.
Qed.

Lemma UpdateLocalIPs_table wg ifaces m :
  ∃ m', UpdateLocalIPs wg ifaces m = Ok m' ∧
    table_of (λ h _, bool_decide (h = 127%nat)) (host_addrs wg ifaces) (ipv4Bitmap m').
Proof.
  unfold UpdateLocalIPs, build_table. destruct loopback_table as (t & -> & Ht). cbn [obind].
  assert (∃ t1 s1, match wg with Some ip => processIP ip (t, []) | None => Ok (t, []) end = Ok (t1, s1) ∧
    table_of (λ h _, bool_decide (h = 127%nat)) (option_list wg) t1) as (t1 & s1 & -> & H1).
  { destruct wg as [ip|]; [apply (processIP_table _ [] _ [] ip Ht)|]. simpl. eauto. }
  cbn [obind]. destruct (process_interfaces_table _ (default [] ifaces) _ _ s1 H1) as (t2 & s2 & -> & H2).
  eexists. split; [done|]. exact H2.
Qed.

(** ** Properties *)

Definition loopback (a : Addr) : bool :=
  match a with Addr4 n => bool_decide ((ip_slot n).1 = 127%nat) | _ => false end.

(** [UpdateLocalIPs] never fails, whatever the interfaces are, and afterwards
    [IsLocalIP] never panics and answers yes exactly for the IPv4 addresses in
    127.0.0.0/8 and those that share the first byte and the packed low number of
    an address of the host; in particular every IPv4 address of the host is
    local and no IPv6 address is. *)
Theorem local_ip_exact wg ifaces m :
  ∃ m', UpdateLocalIPs wg ifaces m = Ok m' ∧
    (∀ a, IsLocalIP m' a = Ok (loopback a || existsb (same_bit a) (host_addrs wg ifaces))) ∧
    (∀ a, Is4 a = true → a ∈ host_addrs wg ifaces → IsLocalIP m' a = Ok true).
Proof.
  destruct (UpdateLocalIPs_table wg ifaces m) as (m' & -> & [Hok Hb]). exists m'. split; [done|].
  assert (∀ a, IsLocalIP m' a = Ok (loopback a || existsb (same_bit a) (host_addrs wg ifaces))) as Hx.
  { intros [|n|n z]; unfold IsLocalIP; cbn [Is4 negb loopback orb].
    - f_equal. symmetry. apply existsb_false_all. by intros [].
    - change (IsLocalIP m' (Addr4 n) = Ok (loopback (Addr4 n) || existsb (same_bit (Addr4 n)) (host_addrs wg ifaces))).
      rewrite (IsLocalIP_bit m' n Hok), Hb. done.
    - f_equal. symmetry. apply existsb_false_all. by intros []. }
  split; [done|]. intros a H4 Hin. rewrite Hx. f_equal. apply orb_true_iff. right.
  apply existsb_exists. exists a. rewrite list_elem_of_In in Hin. split; [done|].
  destruct a; try done. cbn [same_bit]. by apply bool_decide_eq_true.
Qed.

(** The host 10.0.0.16 alone makes the foreign address 10.0.1.0 local. *)
Theorem local_ip_false_positive :
  ∃ m', UpdateLocalIPs (Some (Addr4 0x0a000010)) None newLocalIPManager = Ok m' ∧
    IsLocalIP m' (Addr4 0x0a000100) = Ok true.
Proof.
  destruct (UpdateLocalIPs_table (Some (Addr4 0x0a000010)) None newLocalIPManager) as (m' & -> & [Hok Hb]).
  exists m'. split; [done|]. rewrite (IsLocalIP_bit m' _ Hok), Hb. vm_compute. reflexivity.
Qed.
