(* ===== verification/Checksum.v ===== *)
(** * Internet checksums of the userspace firewall

    The checksum routines of [client/firewall/uspfilter]: [ipv4Checksum],
    [icmpChecksum] and [incrementalUpdate] of nat.go and the sum of
    [recalculateTCPChecksum] of filter.go.  They add 16-bit words into unrolled
    32-bit accumulators and fold the carries once; the reference is the one's
    complement sum of RFC 1071, word by word with the end-around carry.

    The theorems: the routines agree with the reference as long as the sum of the
    words fits 32 bits, which holds for every input of at most 131074 bytes, and
    an incremental update keeps the sum of a packet unchanged modulo 65535. *)

From stdpp Require Import base list.
From S2P Require Import Prelude.

#[local] Open Scope go_scope.

(** ** Reading and writing big-endian words *)

(** [binary.BigEndian.Uint16(data[i:i+2])] *)
Definition word_at (data : bytes) (i : nat) : total Z :=
  let! a := go_index data i in
  let! b := go_index data (i + 1) in
  Ok (256 * byte_to_Z a + byte_to_Z b).

(** [copy(data[i:i+len(src)], src)] *)
Definition put (data : bytes) (i : nat) (src : bytes) : total bytes :=
  if bool_decide (i + length src ≤ length data)%nat
  then Ok (take i data ++ src ++ drop (i + length src) data) else Panic.

Definition be16 (v : Z) : bytes := [Z_to_byte (Z.shiftr v 8); Z_to_byte v].

(** [binary.BigEndian.PutUint16(data[i:i+2], v)] *)
Definition PutUint16 (data : bytes) (i : nat) (v : Z) : total bytes := put data i (be16 v).

(** [^x] on a [uint16] and on a [uint8]. *)
Definition not16 (x : Z) : Z := u16 (Z.lnot x).

Definition not8 (x : Z) : Z := u8 (Z.lnot x).

(** ** The routines *)

(** [for ; i < len(data)-1; i += 2 { sum += word }] *)
Fixpoint add_words (fuel : nat) (data : bytes) (i : nat) (sum : Z) : total Z :=
  match fuel with
  | O => Ok sum
  | S f =>
      if bool_decide (i + 1 < length data)%nat then
        let! w := word_at data i in add_words f data (i + 2) (u32 (sum + w))
      else Ok sum
  end.

(** [if len(data)%2 == 1 { sum += uint32(data[len(data)-1]) << 8 }] *)
Definition add_odd (data : bytes) (sum : Z) : total Z :=
  if (Z.of_nat (length data) mod 2 =? 1) then
    let! b := go_index data (length data - 1) in Ok (u32 (sum + u32 (Z.shiftl (byte_to_Z b) 8)))
  else Ok sum.

(** The carry fold of the three routines and the final complement. *)
Definition fold_once (sum : Z) : Z :=
  let sum := u32 (Z.land sum 0xFFFF + Z.shiftr sum 16) in
  let sum := if 0xFFFF <? sum then u32 (sum + 1) else sum in
  not16 (u16 sum).

Definition ipv4Checksum (header : bytes) : total Z :=
  if bool_decide (length header < 20)%nat then Ok 0
  else
    let! w0 := word_at header 0 in
    let sum1 := u32 (0 + w0) in
    let! w2 := word_at header 2 in
    let sum2 := u32 (0 + w2) in
    let! w4 := word_at header 4 in
    let sum1 := u32 (sum1 + w4) in
    let! w6 := word_at header 6 in
    let sum2 := u32 (sum2 + w6) in
    let! w8 := word_at header 8 in
    let sum1 := u32 (sum1 + w8) in
    let! w12 := word_at header 12 in
    let sum2 := u32 (sum2 + w12) in
    let! w14 := word_at header 14 in
    let sum1 := u32 (sum1 + w14) in
    let! w16 := word_at header 16 in
    let sum2 := u32 (sum2 + w16) in
    let! w18 := word_at header 18 in
    let sum1 := u32 (sum1 + w18) in
    let sum := u32 (sum1 + sum2) in
    let! sum := add_words (length header) header 20 sum in
    let! sum := add_odd header sum in
    Ok (fold_once sum).

(** The four accumulators of [icmpChecksum]. *)
Record acc4 := mkAcc { sum1 : Z; sum2 : Z; sum3 : Z; sum4 : Z }.

(** One round of sixteen bytes. *)
Definition icmp_round (data : bytes) (i : nat) (a : acc4) : total acc4 :=
  let! w0 := word_at data i in
  let! w1 := word_at data (i + 2) in
  let! w2 := word_at data (i + 4) in
  let! w3 := word_at data (i + 6) in
  let! w4 := word_at data (i + 8) in
  let! w5 := word_at data (i + 10) in
  let! w6 := word_at data (i + 12) in
  let! w7 := word_at data (i + 14) in
  Ok (mkAcc (u32 (u32 (sum1 a + w0) + w4)) (u32 (u32 (sum2 a + w1) + w5))
            (u32 (u32 (sum3 a + w2) + w6)) (u32 (u32 (sum4 a + w3) + w7))).

(** [for i <= len(data)-16] *)
Fixpoint icmp_blocks (fuel : nat) (data : bytes) (i : nat) (a : acc4) : total (nat * acc4) :=
  match fuel with
  | O => Ok (i, a)
  | S f =>
      if bool_decide (i + 16 ≤ length data)%nat then
        let! a := icmp_round data i a in icmp_blocks f data (i + 16) a
      else Ok (i, a)
  end.

Definition icmpChecksum (data : bytes) : total Z :=
  let! r := icmp_blocks (length data) data 0 (mkAcc 0 0 0 0) in
  let '(i, a) := r in
  let sum := u32 (u32 (u32 (sum1 a + sum2 a) + sum3 a) + sum4 a) in
  let! sum := add_words (length data) data i sum in
  let! sum := add_odd data sum in
  Ok (fold_once sum).

(** [for i := 0; i < len(old)-1; i += 2 { sum += ^word }] *)
Fixpoint add_not_words (fuel : nat) (data : bytes) (i : nat) (sum : Z) : total Z :=
  match fuel with
  | O => Ok sum
  | S f =>
      if bool_decide (i + 1 < length data)%nat then
        let! w := word_at data i in add_not_words f data (i + 2) (u32 (sum + not16 w))
      else Ok sum
  end.

(** The complement of the odd byte is taken at eight bits before the shift. *)
Definition add_not_odd (data : bytes) (sum : Z) : total Z :=
  if (Z.of_nat (length data) mod 2 =? 1) then
    let! b := go_index data (length data - 1) in
    Ok (u32 (sum + u32 (Z.shiftl (not8 (byte_to_Z b)) 8)))
  else Ok sum.

Definition incrementalUpdate (oldChecksum : Z) (oldBytes newBytes : bytes) : total Z :=
  let sum := not16 oldChecksum in
  let! sum :=
    if bool_decide (length oldBytes = 4%nat ∧ length newBytes = 4%nat) then
      let! o0 := word_at oldBytes 0 in
      let sum := u32 (sum + not16 o0) in
      let! o2 := word_at oldBytes 2 in
      let sum := u32 (sum + not16 o2) in
      let! n0 := word_at newBytes 0 in
      let sum := u32 (sum + n0) in
      let! n2 := word_at newBytes 2 in
      Ok (u32 (sum + n2))
    else
      let! sum := add_not_words (length oldBytes) oldBytes 0 sum in
      let! sum := add_not_odd oldBytes sum in
      let! sum := add_words (length newBytes) newBytes 0 sum in
      add_odd newBytes sum in
  Ok (fold_once sum).

(** [for sum > 0xFFFF { sum = (sum & 0xFFFF) + (sum >> 16) }]; two rounds are
    enough for a [uint32] ([fold_loop_spec]). *)
Fixpoint fold_loop (fuel : nat) (sum : Z) : Z :=
  match fuel with
  | O => sum
  | S f => if 0xFFFF <? sum then fold_loop f (u32 (Z.land sum 0xFFFF + Z.shiftr sum 16)) else sum
  end.

(** The sum of [recalculateTCPChecksum] over the pseudo header and the
    segment [tcpLayer], whose checksum field is zero; [proto] is the protocol
    byte and the addresses are four bytes each. *)
Definition tcp_sum (src dst : bytes) (proto : Z) (tcpLayer : bytes) : total Z :=
  let tcpLength := Z.of_nat (length tcpLayer) in
  let! s0 := word_at src 0 in
  let! s2 := word_at src 2 in
  let! d0 := word_at dst 0 in
  let! d2 := word_at dst 2 in
  let pseudoSum := u32 (u32 (u32 (u32 (u32 (s0 + s2) + d0) + d2) + proto) + u32 tcpLength) in
  let! sum := add_words (length tcpLayer) tcpLayer 0 pseudoSum in
  let! sum := add_odd tcpLayer sum in
  Ok (not16 (u16 (fold_loop 3 sum))).

(** ** The reference: RFC 1071 *)

(** One's complement addition of 16-bit words, with the end-around carry. *)
Definition ones_add (a b : Z) : Z := let s := a + b in if 0xFFFF <? s then s - 0xFFFF else s.

(** The words of a byte string, an odd last byte padded with zero. *)
Fixpoint words (l : bytes) : list Z :=
  match l with
  | a :: b :: r => (256 * byte_to_Z a + byte_to_Z b) :: words r
  | [a] => [256 * byte_to_Z a]
  | [] => []
  end.

Definition ones_sum (l : bytes) : Z := foldl ones_add 0 (words l).

(** The checksum of RFC 1071: the complement of the sum. *)
Definition rfc1071 (l : bytes) : Z := 0xFFFF - ones_sum l.

(** Data that carries a correct checksum sums up to all ones. *)
Definition checksum_ok (l : bytes) : Prop := ones_sum l = 0xFFFF.

(** ** Plain sums *)

Definition wsum (l : bytes) : Z := foldr Z.add 0 (words l).

(** The representative of a sum of words in one's complement arithmetic: zero
    only for zero. *)
Definition norm (s : Z) : Z := if s =? 0 then 0 else 1 + (s - 1) mod 65535.

Lemma bytes_pair_ind (P : bytes → Prop) :
  P [] → (∀ a, P [a]) → (∀ a b l, P l → P (a :: b :: l)) → ∀ l, P l.
Proof.
  intros H0 H1 H2 l.
  assert (P l ∧ ∀ a, P (a :: l)) as [? _]; [|done]. induction l as [|a l [IH1 IH2]]; auto.
Qed.

Lemma norm_range s : 0 ≤ norm s ≤ 65535.
Proof. unfold norm. case_if; [lia|]. pose proof (Z.mod_pos_bound (s - 1) 65535). lia. Qed.

Lemma norm_mod s : norm s mod 65535 = s mod 65535.
Proof.
  unfold norm. case_if; bool_facts; [by subst|].
  rewrite Zplus_mod_idemp_r. f_equal. lia.
Qed.

Lemma norm_full s : 0 ≤ s → norm s = 0xFFFF ↔ 0 < s ∧ s mod 65535 = 0.
Proof.
  intros Hs. unfold norm. case_if; bool_facts; [lia|].
  Z.to_euclidean_division_equations. lia.
Qed.

Lemma norm_add a w : 0 ≤ a → 0 ≤ w ≤ 65535 → ones_add (norm a) w = norm (a + w).
Proof.
  intros Ha Hw. unfold ones_add, norm. cbv zeta. repeat case_if; bool_facts; try lia;
    Z.to_euclidean_division_equations; lia.
Qed.

Lemma words_range l : Forall (λ w, 0 ≤ w ≤ 65535) (words l).
Proof.
  induction l as [|a|a b l IH] using bytes_pair_ind; simpl; [done| |];
    constructor; try done; pose proof (byte_to_Z_range a); try pose proof (byte_to_Z_range b); lia.
Qed.

Lemma foldl_ones_norm ws a :
  0 ≤ a → Forall (λ w, 0 ≤ w ≤ 65535) ws → foldl ones_add (norm a) ws = norm (a + foldr Z.add 0 ws).
Proof.
  intros Ha Hw. revert a Ha. induction Hw as [|w ws Hw _ IH]; intros a Ha; simpl.
  - by rewrite Z.add_0_r.
  - rewrite norm_add by done. rewrite IH by lia. f_equal. lia.
Qed.

Lemma ones_sum_norm l : ones_sum l = norm (wsum l).
Proof.
  unfold ones_sum, wsum. change 0 with (norm 0) at 1.
  by rewrite (foldl_ones_norm _ 0) by (done || apply words_range).
Qed.

Lemma wsum_range l : 0 ≤ wsum l ≤ 65535 * ((Z.of_nat (length l) + 1) / 2).
Proof.
  induction l as [|a|a b l IH] using bytes_pair_ind.
  - done.
  - pose proof (byte_to_Z_range a). change ((Z.of_nat (length [a]) + 1) / 2) with 1.
    change (wsum [a]) with (256 * byte_to_Z a + 0). lia.
  - unfold wsum in *. simpl foldr. pose proof (byte_to_Z_range a). pose proof (byte_to_Z_range b).
    replace (Z.of_nat (length (a :: b :: l)) + 1) with (Z.of_nat (length l) + 1 + 1 * 2) by (simpl; lia).
    rewrite Z.div_add by lia. lia.
Qed.

(** The bound under which no accumulator overflows. *)
Definition max_len : nat := Z.to_nat 131074.

Lemma wsum_fits l : (length l ≤ max_len)%nat → 0 ≤ wsum l < 2 ^ 32.
Proof.
  intros Hl. pose proof (wsum_range l). unfold max_len in Hl.
  assert ((Z.of_nat (length l) + 1) / 2 ≤ 65537) by (Z.to_euclidean_division_equations; lia).
  change (2 ^ 32) with 4294967296. lia.
Qed.

Lemma wsum_cons2 a b l : wsum (a :: b :: l) = 256 * byte_to_Z a + byte_to_Z b + wsum l.
Proof. done. Qed.

Lemma wsum_app l1 l2 : Nat.even (length l1) = true → wsum (l1 ++ l2) = wsum l1 + wsum l2.
Proof.
  induction l1 as [|a|a b l IH] using bytes_pair_ind; intros He; [done..|].
  rewrite <-!app_comm_cons, !wsum_cons2, IH by done. lia.
Qed.

(** ** The routines compute sums *)

Lemma u32_add_l a b : u32 (u32 a + b) = u32 (a + b).
Proof. apply Zplus_mod_idemp_l. Qed.

Lemma u32_add_r a b : u32 (a + u32 b) = u32 (a + b).
Proof. apply Zplus_mod_idemp_r. Qed.

Lemma u32_idem a : u32 (u32 a) = u32 a.
Proof. apply Zmod_mod. Qed.

(** Equality of sums modulo [2^32]: every inner reduction is a multiple away. *)
Lemma u32_split a : ∃ q, u32 a = a - 4294967296 * q.
Proof. exists (a / 4294967296). unfold u32, wrap. rewrite Z.mod_eq; [done|lia]. Qed.

Lemma u32_cong a b q : a = b + 4294967296 * q → u32 a = u32 b.
Proof. intros ->. unfold u32, wrap. rewrite Z.mul_comm. apply Z_mod_plus_full. Qed.

Ltac solve_u32 :=
  match goal with |- u32 ?x = u32 ?y =>
    let q := fresh "q" in
    let acc := constr:(0) in
    assert (∃ q, x = y + 4294967296 * q) as [q ?Hq]; [|by apply (u32_cong _ _ q)];
    repeat match goal with |- context [u32 ?a] =>
      lazymatch a with context [u32 _] => fail | _ =>
      let q := fresh "q" in let E := fresh "E" in
      destruct (u32_split a) as [q E]; rewrite E; clear E end end
  end;
  match goal with |- ∃ q, ?x = ?y + _ * q => exists ((x - y) / 4294967296) end;
  Z.to_euclidean_division_equations; lia.

Lemma u32_small a : 0 ≤ a < 4294967296 → u32 a = a.
Proof. apply (wrap_small 32). Qed.

(** Remove reductions that do nothing, innermost first. *)
Ltac u32_drop :=
  repeat match goal with |- context [u32 ?a] =>
    lazymatch a with context [u32 _] => fail | _ => rewrite (u32_small a) by lia end end.

Lemma not16_eq x : 0 ≤ x ≤ 65535 → not16 x = 65535 - x.
Proof. intros Hx. unfold not16, Z.lnot, u16, wrap. change (2 ^ 16) with 65536. Z.to_euclidean_division_equations. lia. Qed.

(** One fold and an increment normalise every 32-bit sum. *)
Lemma fold_once_norm s : 0 ≤ s < 2 ^ 32 → fold_once s = 65535 - norm s.
Proof.
  intros Hs. unfold fold_once. change (Z.land s 0xFFFF) with (Z.land s (Z.ones 16)).
  rewrite Z.land_ones, Z.shiftr_div_pow2 by lia. unfold u32, u16, not16, u16, wrap, Z.lnot, norm.
  change (2 ^ 16) with 65536. change (2 ^ 32) with 4294967296 in *.
  assert (0 ≤ s mod 65536 + s / 65536 < 4294967296 - 1) as Hb by (Z.to_euclidean_division_equations; lia).
  rewrite (Z.mod_small (s mod 65536 + s / 65536)) by lia.
  case_if; bool_facts.
  - rewrite (Z.mod_small (_ + 1) 4294967296) by lia.
    case_if; bool_facts; Z.to_euclidean_division_equations; lia.
  - case_if; bool_facts; Z.to_euclidean_division_equations; lia.
Qed.

Lemma word_at_drop data i :
  (i + 1 < length data)%nat →
  ∃ a b, word_at data i = Ok (256 * byte_to_Z a + byte_to_Z b) ∧ drop i data = a :: b :: drop (i + 2) data.
Proof.
  intros Hi. destruct (lookup_lt_is_Some_2 data i) as [a Ha]; [lia|].
  destruct (lookup_lt_is_Some_2 data (i + 1)) as [b Hb]; [lia|]. exists a, b.
  unfold word_at. rewrite (go_index_ok _ _ a Ha). cbn [obind]. rewrite (go_index_ok _ _ b Hb). split; [done|].
  rewrite (drop_S _ _ _ Ha). replace (S i) with (i + 1)%nat by lia.
  rewrite (drop_S _ _ _ Hb). by replace (S (i + 1)) with (i + 2)%nat by lia.
Qed.

(** The two loops that end a sum, from an even index. *)
Lemma add_rest_spec fuel data i sum :
  Nat.even i = true → (i ≤ length data)%nat → (length data - i ≤ fuel)%nat →
  obind (add_words fuel data i (u32 sum)) (add_odd data) = Ok (u32 (sum + wsum (drop i data))).
Proof.
  revert i sum. induction fuel as [|f IH]; intros i sum He Hi Hf.
  - assert (i = length data) as -> by lia. cbn [add_words obind]. unfold add_odd.
    rewrite drop_all. destruct (Z.eqb_spec (Z.of_nat (length data) mod 2) 1) as [Ho|_].
    + apply Nat.even_spec in He as [k Hk]. rewrite Hk in Ho. Z.to_euclidean_division_equations. lia.
    + f_equal. f_equal. change (wsum []) with 0. lia.
  - cbn [add_words]. case_bool_decide as Hc.
    + destruct (word_at_drop data i Hc) as (a & b & -> & Hd). cbn [obind].
      rewrite u32_add_l, IH; [|by rewrite Nat.even_add, He|lia..].
      rewrite Hd, wsum_cons2. f_equal. f_equal. lia.
    + cbn [obind]. unfold add_odd. apply Nat.even_spec in He as [k Hk].
      destruct (decide (i = length data)) as [Hl|Hl].
      * rewrite Hl, drop_all. destruct (Z.eqb_spec (Z.of_nat (length data) mod 2) 1) as [Ho|_].
        { Z.to_euclidean_division_equations. lia. }
        f_equal. f_equal. change (wsum []) with 0. lia.
      * destruct (Z.eqb_spec (Z.of_nat (length data) mod 2) 1) as [_|Ho].
        2: { Z.to_euclidean_division_equations. lia. }
        destruct (lookup_lt_is_Some_2 data i) as [a Ha]; [lia|].
        replace (length data - 1)%nat with i by lia. rewrite (go_index_ok _ _ a Ha). cbn [obind].
        rewrite u32_add_l, u32_add_r, (drop_S _ _ _ Ha), drop_ge by lia.
        f_equal. f_equal. change (wsum [a]) with (256 * byte_to_Z a + 0). rewrite Z.shiftl_mul_pow2 by lia. lia.
Qed.

Definition acc_total (a : acc4) : Z := sum1 a + sum2 a + sum3 a + sum4 a.

Lemma icmp_round_spec data i a :
  (i + 16 ≤ length data)%nat →
  ∃ a', icmp_round data i a = Ok a' ∧
    u32 (acc_total a' + wsum (drop (i + 16) data)) = u32 (acc_total a + wsum (drop i data)).
Proof.
  intros Hi. unfold icmp_round.
  destruct (word_at_drop data i) as (? & ? & -> & ->); [lia|]. cbn [obind].
  do 7 (match goal with |- context [word_at data ?j] =>
    destruct (word_at_drop data j) as (? & ? & -> & Hd); [lia|]; cbn [obind];
    rewrite <-?Nat.add_assoc in Hd; cbn [Nat.add] in Hd; rewrite Hd; clear Hd end).
  eexists. split; [done|]. rewrite !wsum_cons2. unfold acc_total. cbn [sum1 sum2 sum3 sum4].
  rewrite ?drop_0. solve_u32.
Qed.

Lemma icmp_blocks_spec fuel data i a :
  Nat.even i = true → (i ≤ length data)%nat → 
  ∃ i' a', icmp_blocks fuel data i a = Ok (i', a') ∧ Nat.even i' = true ∧ (i' ≤ length data)%nat ∧
    u32 (acc_total a' + wsum (drop i' data)) = u32 (acc_total a + wsum (drop i data)).
Proof.
  revert i a. induction fuel as [|f IH]; intros i a He Hi; cbn [icmp_blocks]; [eauto 10|].
  case_bool_decide as Hc; [|eauto 10].
  destruct (icmp_round_spec data i a Hc) as (a1 & -> & H1). cbn [obind].
  destruct (IH (i + 16)%nat a1) as (i' & a' & -> & ? & ? & H2); [by rewrite Nat.even_add, He|lia|].
  exists i', a'. rewrite H2, H1. auto.
Qed.

(** Both routines return the complement of the normalised sum. *)
Lemma icmpChecksum_norm data :
  icmpChecksum data = Ok (65535 - norm (u32 (wsum data))).
Proof.
  unfold icmpChecksum.
  destruct (icmp_blocks_spec (length data) data 0 (mkAcc 0 0 0 0)) as (i & a & -> & He & Hi & Hs); [done|lia|].
  cbn [obind]. set (t := u32 _).
  pose proof (add_rest_spec (length data) data i (acc_total a) He Hi ltac:(lia)) as Hr.
  replace (u32 (acc_total a)) with t in Hr.
  2: { subst t. unfold acc_total. solve_u32. }
  destruct (add_words (length data) data i t) as [s|e|]; cbn [obind] in *; [|done..].
  rewrite Hr. cbn [obind]. rewrite Hs. rewrite fold_once_norm by (apply wrap_range; lia). done.
Qed.

(** The header with a zero checksum field. *)
Definition zero_csum (header : bytes) : bytes := take 10 header ++ be16 0 ++ drop 12 header.

Lemma ipv4Checksum_norm header :
  (20 ≤ length header)%nat →
  ipv4Checksum header = Ok (65535 - norm (u32 (wsum (zero_csum header)))).
Proof.
  intros Hl. unfold ipv4Checksum. rewrite bool_decide_false by lia.
  do 20 (destruct header as [|? header]; [simpl in Hl; lia|]). clear Hl.
  unfold word_at, go_index. cbn [lookup list_lookup Nat.add obind].
  match goal with |- context [add_words ?n ?d 20 ?s] => set (data := d); set (t := s) end.
  assert (u32 t = t) as Ht by apply u32_idem.
  pose proof (add_rest_spec (length data) data 20 t eq_refl ltac:(simpl; lia) ltac:(lia)) as Hr.
  rewrite Ht in Hr. destruct (add_words (length data) data 20 t) as [s|e|]; cbn [obind] in *; [|done..].
  rewrite Hr. cbn [obind]. rewrite fold_once_norm by (apply wrap_range; lia). f_equal. f_equal. f_equal.
  clear Ht Hr. subst data t. unfold zero_csum. cbn [take drop app be16]. rewrite !wsum_cons2.
  change (byte_to_Z (Z_to_byte (Z.shiftr 0 8))) with 0.
  change (byte_to_Z (Z_to_byte 0)) with 0.
  rewrite ?drop_0. solve_u32.
Qed.

(** ** Agreement with RFC 1071 *)

Lemma norm_u32 l : (length l ≤ max_len)%nat → norm (u32 (wsum l)) = ones_sum l.
Proof. intros Hl. rewrite ones_sum_norm. unfold u32. by rewrite wrap_small by (apply wsum_fits; lia). Qed.

Lemma length_zero_csum header : (12 ≤ length header)%nat → length (zero_csum header) = length header.
Proof. intros. unfold zero_csum. autorewrite with len. change (length (be16 0)) with 2%nat. lia. Qed.

(** C34: the unrolled routines compute the checksum of RFC 1071, the IPv4 routine
    over the header with its checksum field taken as zero, for every input of at
    most 131074 bytes, twice the size of an IP packet; a header shorter than 20
    bytes gives 0, and neither routine ever panics. *)
Theorem checksums_match_rfc1071 l :
  (length l ≤ max_len)%nat →
  icmpChecksum l = Ok (rfc1071 l) ∧
  ipv4Checksum l = Ok (if bool_decide (length l < 20)%nat then 0 else rfc1071 (zero_csum l)).
Proof.
  intros Hl. split.
  - rewrite icmpChecksum_norm, norm_u32 by done. done.
  - case_bool_decide as E; [unfold ipv4Checksum; by rewrite bool_decide_true|].
    rewrite ipv4Checksum_norm, norm_u32; [done|rewrite length_zero_csum; lia|lia].
Qed.

Lemma checksums_match_rfc1071_witness :
  (let l := Z_to_byte <$> [0x45; 0; 0; 0x73; 0; 0; 0x40; 0; 0x40; 0x11; 0xb8; 0x61; 0xc0; 0xa8; 0; 1; 0xc0; 0xa8; 0; 0xc7] in
   icmpChecksum l = Ok (rfc1071 l) ∧
   ipv4Checksum l = Ok (if bool_decide (length l < 20)%nat then 0 else rfc1071 (zero_csum l)))
  ∧ ipv4Checksum (Z_to_byte <$> [0x45; 0; 0; 0x73; 0; 0; 0x40; 0; 0x40; 0x11; 0xb8; 0x61; 0xc0; 0xa8; 0; 1; 0xc0; 0xa8; 0; 0xc7])
    = Ok 0xb861.
Proof.
  split; [|vm_compute; reflexivity]. apply checksums_match_rfc1071. unfold max_len. simpl. lia.
Defined.

(** The bound is exact: two more bytes overflow the accumulators. *)
Lemma wsum_replicate_ff n : wsum (replicate (2 * n) Byte.xff) = 65535 * Z.of_nat n.
Proof.
  induction n as [|n IH]; [done|]. replace (2 * S n)%nat with (S (S (2 * n))) by lia.
  cbn [replicate]. rewrite wsum_cons2, IH. change (byte_to_Z Byte.xff) with 255. lia.
Qed.

Lemma checksum_overflow :
  icmpChecksum (replicate (2 * Z.to_nat 65538) Byte.xff) = Ok 1 ∧
  rfc1071 (replicate (2 * Z.to_nat 65538) Byte.xff) = 0.
Proof.
  unfold rfc1071. rewrite icmpChecksum_norm, ones_sum_norm, wsum_replicate_ff, Z2Nat.id by lia. done.
Qed.

(** ** Incremental updates *)

Lemma fold_once_mod s : 0 ≤ s < 2 ^ 32 → 0 ≤ fold_once s ≤ 65535 ∧ (fold_once s + s) mod 65535 = 0.
Proof.
  intros Hs. rewrite fold_once_norm by done. pose proof (norm_range s). pose proof (norm_mod s). split; [lia|].
  Z.to_euclidean_division_equations. lia.
Qed.

(** The lengths the code uses: an address or a port. *)
Definition update_sizes (o n : bytes) : Prop :=
  (length o = 4%nat ∧ length n = 4%nat) ∨ (length o = 2%nat ∧ length n = 2%nat).

(** The updated checksum compensates the change of the bytes it covers. *)
Lemma incrementalUpdate_mod c o n :
  0 ≤ c ≤ 65535 → update_sizes o n →
  ∃ c', incrementalUpdate c o n = Ok c' ∧ 0 ≤ c' ≤ 65535 ∧ (c' + wsum n) mod 65535 = (c + wsum o) mod 65535.
Proof.
  intros Hc [[Ho Hn]|[Ho Hn]]; unfold incrementalUpdate.
  - rewrite bool_decide_true by done.
    destruct o as [|o0 [|o1 [|o2 [|o3 [|]]]]]; try done. destruct n as [|n0 [|n1 [|n2 [|n3 [|]]]]]; try done.
    unfold word_at, go_index. cbn [lookup list_lookup Nat.add obind].
    pose proof (byte_to_Z_range o0); pose proof (byte_to_Z_range o1); pose proof (byte_to_Z_range o2);
    pose proof (byte_to_Z_range o3); pose proof (byte_to_Z_range n0); pose proof (byte_to_Z_range n1);
    pose proof (byte_to_Z_range n2); pose proof (byte_to_Z_range n3).
    rewrite !not16_eq by lia. rewrite !wsum_cons2. change (wsum []) with 0.
    u32_drop.
    match goal with |- context [fold_once ?s] => pose proof (fold_once_mod s ltac:(change (2 ^ 32) with 4294967296; lia)) as [Hf1 Hf2] end.
    eexists. split; [done|]. split; [done|]. Z.to_euclidean_division_equations. lia.
  - rewrite bool_decide_false by lia.
    destruct o as [|o0 [|o1 [|]]]; try done. destruct n as [|n0 [|n1 [|]]]; try done.
    pose proof (byte_to_Z_range o0); pose proof (byte_to_Z_range o1);
    pose proof (byte_to_Z_range n0); pose proof (byte_to_Z_range n1).
    unfold add_odd, add_not_odd. cbn [length add_words add_not_words Nat.add].
    unfold word_at, go_index. cbn [lookup list_lookup Nat.add obind bool_decide].
    rewrite !bool_decide_true by lia. cbn [obind]. rewrite !bool_decide_false by lia.
    change (Z.of_nat 2 mod 2 =? 1) with false. cbn [obind].
    rewrite !not16_eq by lia. rewrite !wsum_cons2. change (wsum []) with 0.
    u32_drop.
    match goal with |- context [fold_once ?s] => pose proof (fold_once_mod s ltac:(change (2 ^ 32) with 4294967296; lia)) as [Hf1 Hf2] end.
    eexists. split; [done|]. split; [done|]. Z.to_euclidean_division_equations. lia.
Qed.

(** One round of the fold keeps the representative and shrinks the sum. *)
Lemma fold_step s :
  0 ≤ s < 2 ^ 32 → 0xFFFF < s →
  let s' := u32 (Z.land s 0xFFFF + Z.shiftr s 16) in
  0 ≤ s' ≤ 131070 ∧ norm s' = norm s ∧ (s ≤ 131070 → s' ≤ 0xFFFF).
Proof.
  intros Hs Hl. cbv zeta. change (Z.land s 0xFFFF) with (Z.land s (Z.ones 16)).
  rewrite Z.land_ones, Z.shiftr_div_pow2 by lia. change (2 ^ 32) with 4294967296 in *. change (2 ^ 16) with 65536.
  assert (0 ≤ s mod 65536 + s / 65536 ≤ 131070) as Hb by (Z.to_euclidean_division_equations; lia).
  unfold u32. rewrite wrap_small by (change (2 ^ 32) with 4294967296; lia).
  split; [done|]. split; [|Z.to_euclidean_division_equations; lia].
  unfold norm. case_if; [|case_if]; bool_facts; Z.to_euclidean_division_equations; lia.
Qed.

(** Two rounds are enough for a 32-bit sum, so the third is never taken. *)
Lemma fold_loop_spec s : 0 ≤ s < 2 ^ 32 → fold_loop 3 s = norm s.
Proof.
  intros Hs. cbn [fold_loop].
  assert (∀ x, 0 ≤ x ≤ 0xFFFF → norm x = x) as Hsmall.
  { intros x Hx. unfold norm. case_if; bool_facts; [lia|]. Z.to_euclidean_division_equations. lia. }
  destruct (Z.ltb_spec 0xFFFF s) as [H1|H1]; [|rewrite Hsmall; lia].
  destruct (fold_step s Hs H1) as (Hr & <- & _). cbv zeta in Hr |- *.
  set (s1 := u32 _) in *. clearbody s1. destruct (Z.ltb_spec 0xFFFF s1) as [H2|H2]; [|rewrite Hsmall; lia].
  destruct (fold_step s1 ltac:(change (2 ^ 32) with 4294967296; lia) H2) as (Hr2 & <- & Hl2). cbv zeta in Hr2, Hl2 |- *.
  set (s2 := u32 _) in *. destruct (Z.ltb_spec 0xFFFF s2) as [H3|H3]; [lia|]. rewrite Hsmall; lia.
Qed.

(** ** The sum of a TCP segment *)

(** The pseudo header of RFC 793. *)
Definition pseudo_header (src dst : bytes) (proto len : Z) : bytes :=
  src ++ dst ++ [Byte.x00; Z_to_byte proto] ++ be16 len.

Lemma wsum_be16 v : 0 ≤ v ≤ 65535 → wsum (be16 v) = v.
Proof.
  intros Hv. unfold be16. rewrite wsum_cons2, !byte_to_Z_to_byte, Z.shiftr_div_pow2 by lia.
  change (wsum []) with 0. change (2 ^ 8) with 256. Z.to_euclidean_division_equations. lia.
Qed.

Lemma word_at_wsum data i w :
  (i + 2 ≤ length data)%nat → wsum (take 2 (drop i data)) = w → word_at data i = Ok w.
Proof.
  intros Hi <-. destruct (word_at_drop data i) as (a & b & -> & ->); [lia|]. f_equal.
  cbn [take]. rewrite wsum_cons2. change (wsum (take 0 _)) with 0. lia.
Qed.

Lemma wsum_pseudo src dst proto len :
  length src = 4%nat → length dst = 4%nat → 0 ≤ proto < 256 → 0 ≤ len ≤ 65535 →
  wsum (pseudo_header src dst proto len) = wsum src + wsum dst + proto + len.
Proof.
  intros Hs Hd Hp Hl. unfold pseudo_header. rewrite !wsum_app; [|by rewrite ?Hs, ?Hd..].
  rewrite wsum_be16 by done. rewrite wsum_cons2, byte_to_Z_to_byte, Z.mod_small by lia.
  change (byte_to_Z Byte.x00) with 0. change (wsum []) with 0. lia.
Qed.

Lemma length_pseudo src dst proto len :
  length src = 4%nat → length dst = 4%nat → length (pseudo_header src dst proto len) = 12%nat.
Proof. intros Hs Hd. unfold pseudo_header. rewrite !length_app, Hs, Hd. done. Qed.

(** The TCP routine computes the checksum of the pseudo header and the segment. *)
Lemma tcp_sum_rfc1071 src dst proto seg :
  length src = 4%nat → length dst = 4%nat → 0 ≤ proto < 256 → Z.of_nat (length seg) ≤ 65535 →
  tcp_sum src dst proto seg =
    Ok (rfc1071 (pseudo_header src dst proto (Z.of_nat (length seg)) ++ seg)).
Proof.
  intros Hs Hd Hp Hl. unfold tcp_sum, rfc1071. rewrite ones_sum_norm.
  rewrite wsum_app by (by rewrite length_pseudo). rewrite wsum_pseudo by (done || lia).
  destruct src as [|s0 [|s1 [|s2 [|s3 [|]]]]]; try done. destruct dst as [|d0 [|d1 [|d2 [|d3 [|]]]]]; try done.
  unfold word_at, go_index. cbn [lookup list_lookup Nat.add obind]. rewrite !wsum_cons2. change (wsum []) with 0.
  pose proof (byte_to_Z_range s0); pose proof (byte_to_Z_range s1); pose proof (byte_to_Z_range s2);
  pose proof (byte_to_Z_range s3); pose proof (byte_to_Z_range d0); pose proof (byte_to_Z_range d1);
  pose proof (byte_to_Z_range d2); pose proof (byte_to_Z_range d3).
  u32_drop. match goal with |- context [add_words _ _ _ ?x] => set (p := x) end.
  pose proof (add_rest_spec (length seg) seg 0 p eq_refl ltac:(lia) ltac:(lia)) as Hr.
  rewrite (u32_small p) in Hr by (subst p; lia).
  destruct (add_words _ _ _ _) as [s|e|]; cbn [obind] in *; [|done..]. rewrite Hr. cbn [obind]. rewrite drop_0.
  pose proof (wsum_range seg) as Hw.
  assert ((Z.of_nat (length seg) + 1) / 2 ≤ 32768) by (Z.to_euclidean_division_equations; lia).
  rewrite u32_small, fold_loop_spec by (change (2 ^ 32) with 4294967296; subst p; lia).
  pose proof (norm_range (p + wsum seg)). unfold u16. rewrite wrap_small by (change (2 ^ 16) with 65536; lia).
  rewrite not16_eq by lia. f_equal. f_equal. f_equal. subst p. lia.
Qed.

Lemma tcp_sum_total src dst proto seg :
  length src = 4%nat → length dst = 4%nat → ∃ c, tcp_sum src dst proto seg = Ok c.
Proof.
  intros Hs Hd. unfold tcp_sum.
  destruct src as [|s0 [|s1 [|s2 [|s3 [|]]]]]; try done. destruct dst as [|d0 [|d1 [|d2 [|d3 [|]]]]]; try done.
  unfold word_at, go_index. cbn [lookup list_lookup Nat.add obind].
  match goal with |- context [add_words _ _ _ ?x] => set (p := x) end.
  pose proof (add_rest_spec (length seg) seg 0 p eq_refl ltac:(lia) ltac:(lia)) as Hr.
  replace (u32 p) with p in Hr by (symmetry; apply u32_idem).
  destruct (add_words _ _ _ p) as [s|e|]; cbn [obind] in *; [|done..]. rewrite Hr. cbn [obind]. eauto.
Qed.
