(* ===== verification/FirewallNAT.v ===== *)
(** * Address and port translation of the userspace firewall

    [client/firewall/uspfilter/nat.go]: the one-to-one address map and the port
    redirections, and the in-place rewriting of IPv4 packets with their
    checksums.  A packet is the byte slice of the caller; an operation that
    writes to it returns the new bytes, also next to an error, since the code
    mutates the slice before it fails.  The decoder is the record gopacket fills.

    The theorems: rewriting an address or a port leaves every other byte alone
    and keeps the IP, TCP, UDP and ICMP checksums of a packet correct; the maps
    of the manager stay consistent, and a reply to a translated packet is
    translated back to the address the client used. *)

From stdpp Require Import base list gmap strings.
From S2P Require Import Prelude NetIP LocalIP Checksum.

#[local] Open Scope go_scope.

(** ** Data *)

(** The [gopacket.LayerType] values the code distinguishes; [LayerTypeAll] is the
    constant [layerTypeAll], [LayerTypeZero] the zero value. *)
Inductive LayerType :=
| LayerTypeZero
| LayerTypeIPv4
| LayerTypeIPv6
| LayerTypeTCP
| LayerTypeUDP
| LayerTypeICMPv4
| LayerTypeICMPv6
| LayerTypeAll
| LayerTypeOther (n : Z).

#[global] Instance LayerType_eq_dec : EqDecision LayerType.
Proof. solve_decision. Defined.

#[global] Instance LayerType_countable : Countable LayerType.
Proof.
  refine (inj_countable'
    (λ t, match t with
          | LayerTypeZero => inl 0 | LayerTypeIPv4 => inl 1 | LayerTypeIPv6 => inl 2
          | LayerTypeTCP => inl 3 | LayerTypeUDP => inl 4 | LayerTypeICMPv4 => inl 5
          | LayerTypeICMPv6 => inl 6 | LayerTypeAll => inl 7 | LayerTypeOther n => inr n end)
    (λ x, match x with
          | inl 0 => LayerTypeZero | inl 1 => LayerTypeIPv4 | inl 2 => LayerTypeIPv6
          | inl 3 => LayerTypeTCP | inl 4 => LayerTypeUDP | inl 5 => LayerTypeICMPv4
          | inl 6 => LayerTypeICMPv6 | inl _ => LayerTypeAll | inr n => LayerTypeOther n end) _).
  by intros [].
Defined.

(** [layers.TCPOption]: the kind as a number and its data. *)
Inductive TCPOptionKind := TCPOptionKindEndList | TCPOptionKindNop | TCPOptionKindMSS | TCPOptionKindOther (n : Z).

#[global] Instance TCPOptionKind_eq_dec : EqDecision TCPOptionKind.
Proof. solve_decision. Defined.

Record TCPOption := mkTCPOption { OptionType : TCPOptionKind; OptionData : bytes }.

(** The parsed layers the code reads. *)
Record IPv4 := mkIPv4 {
  ip4_IHL : Z; ip4_SrcIP : bytes; ip4_DstIP : bytes; ip4_Protocol : Z; ip4_MoreFragments : bool; ip4_FragOffset : Z }.

Record TCP := mkTCP {
  tcp_SrcPort : Z; tcp_DstPort : Z; tcp_SYN : bool; tcp_ACK : bool; tcp_FIN : bool; tcp_RST : bool;
  tcp_PSH : bool; tcp_URG : bool; tcp_Options : list TCPOption }.

Record UDPHeader := mkUDP { udp_SrcPort : Z; udp_DstPort : Z }.

Record ICMPv4 := mkICMPv4 { icmp4_Id : Z; icmp4_Type : Z; icmp4_Code : Z }.

Record decoder := mkDecoder {
  d_ip4 : IPv4;
  d_ip6 : bytes * bytes;
  d_tcp : TCP;
  d_udp : UDPHeader;
  d_icmp4 : ICMPv4;
  decoded : list LayerType;
  dnatOrigPort : Z;
}.

Definition set_dnatOrigPort (d : decoder) (p : Z) : decoder :=
  mkDecoder (d_ip4 d) (d_ip6 d) (d_tcp d) (d_udp d) (d_icmp4 d) (decoded d) p.

(** Errors of the translation. *)
Inductive natErr :=
| ErrIPv4Only
| errInvalidIPHeaderLength
| errInvalidOriginal
| errInvalidTranslated
| errMapToLocalIP (a : Addr)
| errMappingNotFound (a : Addr)
| errPacketTooShort
| errUnsupportedProtocol.

#[global] Instance natErr_eq_dec : EqDecision natErr.
Proof. solve_decision. Defined.

Definition sourcePortOffset : nat := 0.

Definition destinationPortOffset : nat := 2.

Definition sourceIPOffset : nat := 12.

Definition destinationIPOffset : nat := 16.

Record biDNATMap := mkBiMap { forward : gmap Addr Addr; reverse_map : gmap Addr Addr }.

Record portDNATRule := mkPortRule {
  pr_protocol : LayerType; pr_origPort : Z; pr_targetPort : Z; pr_targetIP : Addr }.

#[global] Instance portDNATRule_eq_dec : EqDecision portDNATRule.
Proof. solve_decision. Defined.

(** The translation state of the [Manager]; [dnatBiMap] is nil until the first
    mapping is added. *)
Record natState := mkNat {
  dnatEnabled : bool;
  dnatMappings : gmap Addr Addr;
  dnatBiMap : option biDNATMap;
  portDNATEnabled : bool;
  portDNATRules : list portDNATRule;
}.

Definition newNatState : natState := mkNat false ∅ None false [].

(** ** The address map *)

Definition newBiDNATMap : biDNATMap := mkBiMap ∅ ∅.

Definition bimap_set (b : biDNATMap) (original translated : Addr) : biDNATMap :=
  mkBiMap (<[original := translated]> (forward b)) (<[translated := original]> (reverse_map b)).

Definition bimap_delete (b : biDNATMap) (original : Addr) : biDNATMap :=
  match forward b !! original with
  | Some translated => mkBiMap (base.delete original (forward b)) (base.delete translated (reverse_map b))
  | None => b
  end.

Definition getTranslated (b : biDNATMap) (original : Addr) : option Addr := forward b !! original.

Definition getOriginal (b : biDNATMap) (translated : Addr) : option Addr := reverse_map b !! translated.

Definition AddInternalDNATMapping (lip : localIPManager) (s : natState) (originalAddr translatedAddr : Addr)
    : outcome natErr natState :=
  if negb (IsValid originalAddr) then Err errInvalidOriginal
  else if negb (IsValid translatedAddr) then Err errInvalidTranslated
  else
    match IsLocalIP lip translatedAddr with
    | Ok true => Err (errMapToLocalIP translatedAddr)
    | Ok false =>
        let '(mappings, b) :=
          match dnatBiMap s with Some b => (dnatMappings s, b) | None => (∅, newBiDNATMap) end in
        let mappings := <[originalAddr := translatedAddr]> mappings in
        Ok (mkNat (if bool_decide (size mappings = 1%nat) then true else dnatEnabled s)
              mappings (Some (bimap_set b originalAddr translatedAddr))
              (portDNATEnabled s) (portDNATRules s))
    | _ => Panic
    end.

Definition RemoveInternalDNATMapping (s : natState) (originalAddr : Addr) : outcome natErr natState :=
  match dnatMappings s !! originalAddr with
  | None => Err (errMappingNotFound originalAddr)
  | Some _ =>
      let mappings := base.delete originalAddr (dnatMappings s) in
      match dnatBiMap s with
      | None => Panic
      | Some b =>
          Ok (mkNat (if bool_decide (size mappings = 0%nat) then false else dnatEnabled s)
                mappings (Some (bimap_delete b originalAddr)) (portDNATEnabled s) (portDNATRules s))
      end
  end.

(** [getDNATTranslation]; a nil map is a nil dereference. *)
Definition getDNATTranslation (s : natState) (addr : Addr) : total (option Addr) :=
  if negb (dnatEnabled s) then Ok None
  else match dnatBiMap s with Some b => Ok (getTranslated b addr) | None => Panic end.

Definition findReverseDNATMapping (s : natState) (translatedAddr : Addr) : total (option Addr) :=
  if negb (dnatEnabled s) then Ok None
  else match dnatBiMap s with Some b => Ok (getOriginal b translatedAddr) | None => Panic end.

(** ** Rewriting packets *)

Definition updateTCPChecksum (pkt : bytes) (ipHeaderLen : nat) (oldIP newIP : bytes) : total bytes :=
  let tcpStart := ipHeaderLen in
  if bool_decide (length pkt < tcpStart + 18)%nat then Ok pkt
  else
    let checksumOffset := (tcpStart + 16)%nat in
    let! oldChecksum := word_at pkt checksumOffset in
    let! newChecksum := incrementalUpdate oldChecksum oldIP newIP in
    PutUint16 pkt checksumOffset newChecksum.

Definition updateUDPChecksum (pkt : bytes) (ipHeaderLen : nat) (oldIP newIP : bytes) : total bytes :=
  let udpStart := ipHeaderLen in
  if bool_decide (length pkt < udpStart + 8)%nat then Ok pkt
  else
    let checksumOffset := (udpStart + 6)%nat in
    let! oldChecksum := word_at pkt checksumOffset in
    if oldChecksum =? 0 then Ok pkt
    else
      let! newChecksum := incrementalUpdate oldChecksum oldIP newIP in
      PutUint16 pkt checksumOffset newChecksum.

(** [icmpData] is a sub-slice of the packet: writes to it are writes to the packet. *)
Definition updateICMPChecksum (pkt : bytes) (ipHeaderLen : nat) : total bytes :=
  let icmpStart := ipHeaderLen in
  if bool_decide (length pkt < icmpStart + 8)%nat then Ok pkt
  else
    let! pkt := PutUint16 pkt (icmpStart + 2) 0 in
    let! icmpData := go_from pkt icmpStart in
    let! checksum := icmpChecksum icmpData in
    PutUint16 pkt (icmpStart + 2) checksum.

Definition ipHeaderLen_of (d : decoder) : nat := (Z.to_nat (ip4_IHL (d_ip4 d)) * 4)%nat.

Definition bad_header_len (d : decoder) (pkt : bytes) : bool :=
  bool_decide (ipHeaderLen_of d < 20)%nat || bool_decide (length pkt < ipHeaderLen_of d)%nat.

Definition rewritePacketIP (pkt : bytes) (d : decoder) (newIP : Addr) (ipOffset : nat)
    : total (bytes * option natErr) :=
  if negb (Is4 newIP) then Ok (pkt, Some ErrIPv4Only)
  else
    let! oldIP := go_slice pkt ipOffset (ipOffset + 4) in
    let newIPBytes := AsSlice newIP in
    let! pkt := put pkt ipOffset newIPBytes in
    let ipHeaderLen := ipHeaderLen_of d in
    if bad_header_len d pkt then Ok (pkt, Some errInvalidIPHeaderLength)
    else
      let! pkt := PutUint16 pkt 10 0 in
      let! header := go_slice pkt 0 ipHeaderLen in
      let! ipChecksum := ipv4Checksum header in
      let! pkt := PutUint16 pkt 10 ipChecksum in
      let! pkt :=
        match decoded d !! 1%nat with
        | Some LayerTypeTCP => updateTCPChecksum pkt ipHeaderLen oldIP newIPBytes
        | Some LayerTypeUDP => updateUDPChecksum pkt ipHeaderLen oldIP newIPBytes
        | Some LayerTypeICMPv4 => updateICMPChecksum pkt ipHeaderLen
        | _ => Ok pkt
        end in
      Ok (pkt, None).

(** [netip.AddrFrom4] of four bytes of the packet. *)
Definition addr_at (pkt : bytes) (off : nat) : total Addr :=
  let! b := go_slice pkt off (off + 4) in Ok (Addr4 (be_number b)).

Definition translateOutboundDNAT (s : natState) (pkt : bytes) (d : decoder) : total (bytes * bool) :=
  if negb (dnatEnabled s) then Ok (pkt, false)
  else
    let! dstIP := addr_at pkt 16 in
    let! translated := getDNATTranslation s dstIP in
    match translated with
    | None => Ok (pkt, false)
    | Some translatedIP =>
        let! r := rewritePacketIP pkt d translatedIP destinationIPOffset in
        match r with
        | (pkt, Some _) => Ok (pkt, false)
        | (pkt, None) => Ok (pkt, true)
        end
    end.

Definition translateInboundReverse (s : natState) (pkt : bytes) (d : decoder) : total (bytes * bool) :=
  if negb (dnatEnabled s) then Ok (pkt, false)
  else
    let! srcIP := addr_at pkt 12 in
    let! original := findReverseDNATMapping s srcIP in
    match original with
    | None => Ok (pkt, false)
    | Some originalIP =>
        let! r := rewritePacketIP pkt d originalIP sourceIPOffset in
        match r with
        | (pkt, Some _) => Ok (pkt, false)
        | (pkt, None) => Ok (pkt, true)
        end
    end.

(** ** Port redirection *)

Definition addPortRedirection (s : natState) (targetIP : Addr) (protocol : LayerType) (sourcePort targetPort : Z)
    : natState :=
  mkNat (dnatEnabled s) (dnatMappings s) (dnatBiMap s) true
    (portDNATRules s ++ [mkPortRule protocol sourcePort targetPort targetIP]).

(** [firewall.Protocol] *)
Inductive FwProtocol := ProtocolTCP | ProtocolUDP | ProtocolICMP | ProtocolALL | ProtocolUnknownName (s : string).

#[global] Instance FwProtocol_eq_dec : EqDecision FwProtocol.
Proof. solve_decision. Defined.

(** The [switch] of the two inbound DNAT operations. *)
Definition dnat_layer (protocol : FwProtocol) : option LayerType :=
  match protocol with
  | ProtocolTCP => Some LayerTypeTCP
  | ProtocolUDP => Some LayerTypeUDP
  | _ => None
  end.

Definition AddInboundDNAT (s : natState) (localAddr : Addr) (protocol : FwProtocol) (sourcePort targetPort : Z)
    : outcome natErr natState :=
  match dnat_layer protocol with
  | None => Err errUnsupportedProtocol
  | Some layerType => Ok (addPortRedirection s localAddr layerType sourcePort targetPort)
  end.

Definition port_rule_matches (targetIP : Addr) (protocol : LayerType) (sourcePort targetPort : Z)
    (rule : portDNATRule) : bool :=
  bool_decide (pr_protocol rule = protocol) && (pr_origPort rule =? sourcePort) &&
  (pr_targetPort rule =? targetPort) && (Addr_Compare (pr_targetIP rule) targetIP =? 0).

Definition removePortRedirection (s : natState) (targetIP : Addr) (protocol : LayerType)
    (sourcePort targetPort : Z) : natState :=
  let rules := List.filter (λ r, negb (port_rule_matches targetIP protocol sourcePort targetPort r)) (portDNATRules s) in
  mkNat (dnatEnabled s) (dnatMappings s) (dnatBiMap s)
    (match rules with [] => false | _ => portDNATEnabled s end) rules.

Definition RemoveInboundDNAT (s : natState) (localAddr : Addr) (protocol : FwProtocol) (sourcePort targetPort : Z)
    : outcome natErr natState :=
  match dnat_layer protocol with
  | None => Err errUnsupportedProtocol
  | Some layerType => Ok (removePortRedirection s localAddr layerType sourcePort targetPort)
  end.

Definition rewriteTCPPort (pkt : bytes) (d : decoder) (newPort : Z) (portOffset : nat)
    : total (bytes * option natErr) :=
  let ipHeaderLen := ipHeaderLen_of d in
  if bad_header_len d pkt then Ok (pkt, Some errInvalidIPHeaderLength)
  else
    let tcpStart := ipHeaderLen in
    if bool_decide (length pkt < tcpStart + 4)%nat then Ok (pkt, Some errPacketTooShort)
    else
      let portStart := (tcpStart + portOffset)%nat in
      let! oldPort := word_at pkt portStart in
      let! pkt := PutUint16 pkt portStart newPort in
      if bool_decide (tcpStart + 18 ≤ length pkt)%nat then
        let checksumOffset := (tcpStart + 16)%nat in
        let! oldChecksum := word_at pkt checksumOffset in
        let! newChecksum := incrementalUpdate oldChecksum (be16 oldPort) (be16 newPort) in
        let! pkt := PutUint16 pkt checksumOffset newChecksum in
        Ok (pkt, None)
      else Ok (pkt, None).

Definition rewriteUDPPort (pkt : bytes) (d : decoder) (newPort : Z) (portOffset : nat)
    : total (bytes * option natErr) :=
  let ipHeaderLen := ipHeaderLen_of d in
  if bad_header_len d pkt then Ok (pkt, Some errInvalidIPHeaderLength)
  else
    let udpStart := ipHeaderLen in
    if bool_decide (length pkt < udpStart + 8)%nat then Ok (pkt, Some errPacketTooShort)
    else
      let portStart := (udpStart + portOffset)%nat in
      let! oldPort := word_at pkt portStart in
      let! pkt := PutUint16 pkt portStart newPort in
      let checksumOffset := (udpStart + 6)%nat in
      if bool_decide (udpStart + 8 ≤ length pkt)%nat then
        let! oldChecksum := word_at pkt checksumOffset in
        if oldChecksum =? 0 then Ok (pkt, None)
        else
          let! newChecksum := incrementalUpdate oldChecksum (be16 oldPort) (be16 newPort) in
          let! pkt := PutUint16 pkt checksumOffset newChecksum in
          Ok (pkt, None)
      else Ok (pkt, None).

(** The loop of [applyPortRule]: the rule that is applied, if any. *)
Fixpoint find_port_rule (rules : list portDNATRule) (srcIP dstIP : Addr) (port : Z) (protocol : LayerType)
    : option portDNATRule :=
  match rules with
  | [] => None
  | rule :: rules =>
      if bool_decide (pr_protocol rule ≠ protocol) || negb (Addr_Compare (pr_targetIP rule) dstIP =? 0)
      then find_port_rule rules srcIP dstIP port protocol
      else if (pr_targetPort rule =? port) && (Addr_Compare (pr_targetIP rule) srcIP =? 0) then None
      else if negb (pr_origPort rule =? port) then find_port_rule rules srcIP dstIP port protocol
      else Some rule
  end.

Definition applyPortRule (s : natState) (pkt : bytes) (d : decoder) (srcIP dstIP : Addr) (port : Z)
    (protocol : LayerType) (rewriteFn : bytes → decoder → Z → nat → total (bytes * option natErr))
    : total (bytes * decoder * bool) :=
  match find_port_rule (portDNATRules s) srcIP dstIP port protocol with
  | None => Ok (pkt, d, false)
  | Some rule =>
      let! r := rewriteFn pkt d (pr_targetPort rule) destinationPortOffset in
      match r with
      | (pkt, Some _) => Ok (pkt, d, false)
      | (pkt, None) => Ok (pkt, set_dnatOrigPort d (pr_origPort rule), true)
      end
  end.

Definition translateInboundPortDNAT (s : natState) (pkt : bytes) (d : decoder) (srcIP dstIP : Addr)
    : total (bytes * decoder * bool) :=
  if negb (portDNATEnabled s) then Ok (pkt, d, false)
  else
    let! layer := go_index (decoded d) 1 in
    match layer with
    | LayerTypeTCP => applyPortRule s pkt d srcIP dstIP (tcp_DstPort (d_tcp d)) LayerTypeTCP rewriteTCPPort
    | LayerTypeUDP => applyPortRule s pkt d AddrZero dstIP (udp_DstPort (d_udp d)) LayerTypeUDP rewriteUDPPort
    | _ => Ok (pkt, d, false)
    end.

(** ** Overwriting a block *)

Definition upd (l : bytes) (i : nat) (s : bytes) : bytes := take i l ++ s ++ drop (i + length s) l.

Definition sub (l : bytes) (i k : nat) : bytes := take k (drop i l).

Section Blocks.
Context (l : bytes) (i : nat) (s : bytes) (Hfit : (i + length s ≤ length l)%nat).

Lemma put_upd : put l i s = Ok (upd l i s).
Proof using Hfit. unfold put. by rewrite bool_decide_true. Qed.

Lemma length_upd : length (upd l i s) = length l.
Proof using Hfit. unfold upd. autorewrite with len. lia. Qed.

Lemma lookup_upd j :
  upd l i s !! j = if bool_decide (i ≤ j < i + length s)%nat then s !! (j - i)%nat else l !! j.
Proof using Hfit.
  unfold upd. assert (length (take i l) = i) as Hi by (rewrite length_take; lia). case_bool_decide as E.
  - rewrite lookup_app_r, Hi by lia. rewrite lookup_app_l by lia. done.
  - destruct (decide (j < i)%nat).
    + rewrite lookup_app_l by lia. by rewrite lookup_take_lt by lia.
    + rewrite lookup_app_r, Hi by lia. rewrite lookup_app_r by lia. rewrite lookup_drop. f_equal. lia.
Qed.

Lemma sub_upd_same : sub (upd l i s) i (length s) = s.
Proof using Hfit.
  unfold sub, upd. rewrite drop_app_ge by (rewrite length_take; lia).
  rewrite length_take, Nat.min_l, Nat.sub_diag, drop_0 by lia. apply take_app_length.
Qed.

Lemma sub_upd_other j k : (j + k ≤ i ∨ i + length s ≤ j)%nat → sub (upd l i s) j k = sub l j k.
Proof using Hfit.
  intros Hd. apply list_eq. intros x. unfold sub. destruct (decide (x < k)%nat).
  - rewrite !lookup_take_lt, !lookup_drop, lookup_upd by lia. by rewrite bool_decide_false by lia.
  - by rewrite !lookup_take_ge by lia.
Qed.

Lemma drop_upd_after n : (i + length s ≤ n)%nat → drop n (upd l i s) = drop n l.
Proof using Hfit.
  intros Hn. apply list_eq. intros x. rewrite !lookup_drop, lookup_upd. by rewrite bool_decide_false by lia.
Qed.

Lemma drop_upd_before n : (n ≤ i)%nat → drop n (upd l i s) = upd (drop n l) (i - n) s.
Proof using Hfit.
  intros Hn. unfold upd. rewrite drop_app_le by (rewrite length_take; lia).
  rewrite drop_drop, skipn_firstn_comm. do 3 f_equal. lia.
Qed.

Lemma wsum_upd :
  Nat.even i = true → Nat.even (length s) = true →
  wsum (upd l i s) = wsum l - wsum (sub l i (length s)) + wsum s.
Proof using Hfit.
  intros Hi Hs. unfold upd, sub. rewrite <-(take_drop i l) at 3.
  rewrite <-(take_drop (length s) (drop i l)) at 1. rewrite drop_drop.
  assert (length (take i l) = i) as H1 by (rewrite length_take; lia).
  assert (length (take (length s) (drop i l)) = length s) as H2 by (rewrite length_take, length_drop; lia).
  rewrite !wsum_app by (rewrite ?H1, ?H2; done). lia.
Qed.
End Blocks.

Lemma sub_upd_block l i s k : (i + length s ≤ length l)%nat → length s = k → sub (upd l i s) i k = s.
Proof. intros Hf <-. by apply sub_upd_same. Qed.

Lemma take_upd_after l i s n :
  (i + length s ≤ length l)%nat → (i + length s ≤ n)%nat → take n (upd l i s) = upd (take n l) i s.
Proof.
  intros Hf Hn. apply list_eq. intros x. rewrite (lookup_upd (take n l)) by (rewrite length_take; lia).
  destruct (decide (x < n)%nat).
  - rewrite !lookup_take_lt, lookup_upd by lia. done.
  - rewrite !lookup_take_ge by lia. by rewrite bool_decide_false by lia.
Qed.

Lemma upd_upd l i s s' :
  (i + length s ≤ length l)%nat → length s' = length s → upd (upd l i s) i s' = upd l i s'.
Proof.
  intros Hf Hl. apply list_eq. intros j. rewrite !lookup_upd by (rewrite ?length_upd; lia).
  rewrite Hl. by case_bool_decide.
Qed.

Lemma length_be16 v : length (be16 v) = 2%nat.
Proof. done. Qed.

Lemma length_sub l i k : (i + k ≤ length l)%nat → length (sub l i k) = k.
Proof. intros. unfold sub. rewrite length_take, length_drop. lia. Qed.

Lemma wsum_nonneg l : 0 ≤ wsum l.
Proof. apply wsum_range. Qed.

Lemma wsum_sub2_range l i : (i + 2 ≤ length l)%nat → 0 ≤ wsum (sub l i 2) ≤ 65535.
Proof.
  intros Hl. pose proof (wsum_range (sub l i 2)) as H. rewrite length_sub in H by done.
  change ((Z.of_nat 2 + 1) / 2) with 1 in H. lia.
Qed.

Lemma word_at_sub l i : (i + 2 ≤ length l)%nat → word_at l i = Ok (wsum (sub l i 2)).
Proof. intros. by apply word_at_wsum. Qed.

(** ** Checksums under changes *)

(** Replacing bytes and their checksum by an equal sum modulo 65535 keeps data
    correct. *)
Lemma checksum_ok_shift l l' a b :
  checksum_ok l → wsum l' = wsum l - a + b → a mod 65535 = b mod 65535 → 0 < wsum l' → checksum_ok l'.
Proof.
  unfold checksum_ok. rewrite !ones_sum_norm. intros H Hl Hab Hp.
  pose proof (wsum_nonneg l). apply norm_full in H as [_ H]; [|done]. apply norm_full; [lia|]. split; [done|].
  rewrite Hl. Z.to_euclidean_division_equations. lia.
Qed.

(** Data whose zero checksum field is filled with its own checksum is correct. *)
Lemma checksum_ok_fill l i :
  Nat.even i = true → (i + 2 ≤ length l)%nat → wsum (sub l i 2) = 0 →
  checksum_ok (upd l i (be16 (rfc1071 l))).
Proof.
  intros He Hi Hz. unfold checksum_ok, rfc1071. rewrite !ones_sum_norm. pose proof (norm_range (wsum l)) as Hr.
  rewrite wsum_upd by (try done; rewrite length_be16; lia). rewrite length_be16, Hz, wsum_be16 by lia.
  pose proof (wsum_nonneg l). pose proof (norm_mod (wsum l)) as Hm. apply norm_full; [lia|]. split.
  - destruct (decide (wsum l = 0)) as [E|]; [rewrite E; reflexivity|lia].
  - Z.to_euclidean_division_equations. lia.
Qed.

(** The checksum field of a transport layer, relative to its header. *)
Definition csum_field (t : LayerType) : option nat :=
  match t with LayerTypeTCP => Some 16%nat | LayerTypeUDP => Some 6%nat | LayerTypeICMPv4 => Some 2%nat | _ => None end.

(** The pseudo header of the transport segment that starts at [ihl]. *)
Definition packet_pseudo (pkt : bytes) (ihl : nat) (proto : Z) : bytes :=
  pseudo_header (sub pkt 12 4) (sub pkt 16 4) proto (Z.of_nat (length pkt - ihl)).

(** A transport segment that is long enough for its checksum field and whose
    checksum a receiver accepts; a zero UDP checksum means that there is none. *)
Definition transport_ok (t : LayerType) (ihl : nat) (pkt : bytes) : Prop :=
  match t with
  | LayerTypeTCP =>
      (ihl + 18 ≤ length pkt)%nat ∧ checksum_ok (packet_pseudo pkt ihl 6 ++ drop ihl pkt)
  | LayerTypeUDP =>
      (ihl + 8 ≤ length pkt)%nat ∧
      (wsum (sub pkt (ihl + 6) 2) = 0 ∨ checksum_ok (packet_pseudo pkt ihl 17 ++ drop ihl pkt))
  | LayerTypeICMPv4 => (ihl + 8 ≤ length pkt)%nat ∧ checksum_ok (drop ihl pkt)
  | _ => True
  end.

Lemma wsum_packet pkt ihl proto :
  (20 ≤ ihl)%nat → (ihl ≤ length pkt)%nat → Z.of_nat (length pkt) ≤ 65535 → 0 ≤ proto < 256 →
  wsum (packet_pseudo pkt ihl proto ++ drop ihl pkt) =
    wsum (sub pkt 12 4) + wsum (sub pkt 16 4) + proto + Z.of_nat (length pkt - ihl) + wsum (drop ihl pkt).
Proof.
  intros H1 H2 H3 Hp. unfold packet_pseudo.
  rewrite wsum_app by (by rewrite length_pseudo by (apply length_sub; lia)).
  rewrite wsum_pseudo by (lia || apply length_sub; lia). done.
Qed.

(** The geometry of a packet: an even header length of at least 20 bytes within
    a packet of at most 65535. *)
Record packet_geom (ihl : nat) (pkt : bytes) : Prop := mkGeom {
  geom_even : Nat.even ihl = true;
  geom_min : (20 ≤ ihl)%nat;
  geom_fits : (ihl ≤ length pkt)%nat;
  geom_max : Z.of_nat (length pkt) ≤ 65535;
}.

Lemma geom_length ihl pkt pkt' : packet_geom ihl pkt → length pkt' = length pkt → packet_geom ihl pkt'.
Proof. intros [] E. by split; rewrite ?E. Qed.

Lemma even_add_even a b : Nat.even a = true → Nat.even b = true → Nat.even (a + b) = true.
Proof. intros Ha Hb. by rewrite Nat.even_add, Ha, Hb. Qed.

(** The sum of a segment with its pseudo header. *)
Definition l4_total (pkt : bytes) (ihl : nat) (proto : Z) : Z :=
  wsum (packet_pseudo pkt ihl proto ++ drop ihl pkt).

Lemma l4_total_upd pkt ihl proto k s :
  packet_geom ihl pkt → 0 ≤ proto < 256 → (ihl + k + length s ≤ length pkt)%nat →
  Nat.even k = true → Nat.even (length s) = true →
  l4_total (upd pkt (ihl + k) s) ihl proto = l4_total pkt ihl proto - wsum (sub pkt (ihl + k) (length s)) + wsum s.
Proof.
  intros Hg Hp Hk Ek Es. pose proof (geom_min _ _ Hg). pose proof (geom_max _ _ Hg). unfold l4_total.
  rewrite !wsum_packet by (rewrite ?length_upd; lia). rewrite length_upd, !sub_upd_other by lia.
  rewrite drop_upd_before by lia. replace (ihl + k - ihl)%nat with k by lia.
  rewrite wsum_upd by (rewrite ?length_drop; lia || done).
  unfold sub. rewrite drop_drop. lia.
Qed.

Lemma l4_total_pos pkt ihl proto : packet_geom ihl pkt → 0 < proto < 256 → 0 < l4_total pkt ihl proto.
Proof.
  intros [] Hp. unfold l4_total. rewrite wsum_packet by lia.
  pose proof (wsum_nonneg (sub pkt 12 4)). pose proof (wsum_nonneg (sub pkt 16 4)).
  pose proof (wsum_nonneg (drop ihl pkt)). lia.
Qed.

(** Changing [o] to [n] somewhere under a transport checksum and updating the
    checksum incrementally keeps the segment correct. *)
Lemma l4_increment pkt pkt2 ihl k proto o n :
  packet_geom ihl pkt → length pkt2 = length pkt → 0 < proto < 256 →
  Nat.even k = true → (ihl + k + 2 ≤ length pkt)%nat → update_sizes o n →
  checksum_ok (packet_pseudo pkt ihl proto ++ drop ihl pkt) →
  l4_total pkt2 ihl proto = l4_total pkt ihl proto - wsum o + wsum n →
  ∃ c', incrementalUpdate (wsum (sub pkt2 (ihl + k) 2)) o n = Ok c' ∧
    let pkt3 := upd pkt2 (ihl + k) (be16 c') in
    PutUint16 pkt2 (ihl + k) c' = Ok pkt3 ∧ length pkt3 = length pkt ∧
    checksum_ok (packet_pseudo pkt3 ihl proto ++ drop ihl pkt3).
Proof.
  intros Hg Hlen Hp Hk Hfit Hsz Hok Htot. pose proof (geom_length _ _ _ Hg Hlen) as Hg2.
  destruct (incrementalUpdate_mod (wsum (sub pkt2 (ihl + k) 2)) o n) as (c' & Hc & Hr & Hm);
    [apply wsum_sub2_range; lia|done|].
  exists c'. split; [done|]. cbv zeta.
  assert (ihl + k + length (be16 c') ≤ length pkt2)%nat as Hf by (rewrite length_be16; lia).
  split; [by apply put_upd|]. rewrite length_upd by done. split; [done|].
  pose proof (l4_total_upd pkt2 ihl proto k (be16 c') Hg2 ltac:(lia) Hf Hk eq_refl) as Hupd.
  rewrite wsum_be16, length_be16 in Hupd by lia.
  apply (checksum_ok_shift _ _ (wsum o + wsum (sub pkt2 (ihl + k) 2)) (wsum n + c') Hok).
  - change (wsum (packet_pseudo (upd pkt2 (ihl + k) (be16 c')) ihl proto ++ drop ihl (upd pkt2 (ihl + k) (be16 c'))))
      with (l4_total (upd pkt2 (ihl + k) (be16 c')) ihl proto).
    fold (l4_total pkt ihl proto). lia.
  - rewrite (Z.add_comm (wsum o)), (Z.add_comm (wsum n)). done.
  - apply l4_total_pos; [|done]. eapply geom_length; [exact Hg2|]. by apply length_upd.
Qed.

(** The header checksum the code writes. *)
Lemma header_checksum ihl pkt :
  packet_geom ihl pkt →
  ∃ c, ipv4Checksum (take ihl (upd pkt 10 (be16 0))) = Ok c ∧ checksum_ok (take ihl (upd pkt 10 (be16 c))).
Proof.
  intros Hg. destruct Hg as [He Hm Hf Hx]. set (z := upd pkt 10 (be16 0)).
  assert (10 + length (be16 0) ≤ length pkt)%nat as H10 by (rewrite length_be16; lia).
  assert (length (take ihl z) = ihl) as Hlz by (unfold z; rewrite length_take, length_upd; lia).
  assert (zero_csum (take ihl z) = take ihl z) as Hz.
  { unfold zero_csum. change (take 10 (take ihl z) ++ be16 0 ++ drop 12 (take ihl z)) with (upd (take ihl z) 10 (be16 0)).
    unfold z at 1. rewrite <-take_upd_after by (rewrite ?length_upd, ?length_be16; lia).
    fold z. unfold z. rewrite upd_upd by done. done. }
  pose proof (wsum_fits (take ihl z)) as Hfits.
  exists (rfc1071 (take ihl z)). split.
  - rewrite ipv4Checksum_norm, Hz by lia. unfold rfc1071. rewrite norm_u32; [done|]. unfold max_len. lia.
  - replace (upd pkt 10 (be16 (rfc1071 (take ihl z)))) with (upd z 10 (be16 (rfc1071 (take ihl z)))) by (by apply upd_upd).
    rewrite take_upd_after by (unfold z; rewrite ?length_upd, ?length_be16; lia).
    apply checksum_ok_fill; [done|lia|].
    unfold z. rewrite take_upd_after by (rewrite ?length_be16; lia).
    change 2%nat with (length (be16 0)). rewrite sub_upd_same by (rewrite length_take, length_be16; lia). done.
Qed.

(** [pkt'] differs from [pkt] at most in the given blocks. *)
Definition frame (blocks : list (nat * nat)) (pkt pkt' : bytes) : Prop :=
  length pkt' = length pkt ∧
  ∀ j, Forall (λ b, j < b.1 ∨ b.1 + b.2 ≤ j)%nat blocks → pkt' !! j = pkt !! j.

Lemma frame_refl b pkt : frame b pkt pkt.
Proof. by split. Qed.

Lemma frame_upd i s pkt : (i + length s ≤ length pkt)%nat → frame [(i, length s)] pkt (upd pkt i s).
Proof.
  intros Hf. split; [by apply length_upd|]. intros j Hj. apply Forall_cons in Hj as [Hj _]. simpl in Hj.
  rewrite lookup_upd by done. by rewrite bool_decide_false by lia.
Qed.

Lemma frame_trans b1 b2 p q r : frame b1 p q → frame b2 q r → frame (b1 ++ b2) p r.
Proof.
  intros [L1 F1] [L2 F2]. split; [congruence|]. intros j Hj. apply Forall_app in Hj as [H1 H2].
  rewrite F2, F1; done.
Qed.

(** The block of the transport checksum. *)
Definition csum_block (t : LayerType) (ihl : nat) : list (nat * nat) :=
  match csum_field t with Some k => [((ihl + k)%nat, 2%nat)] | None => [] end.

(** The transport step of [rewritePacketIP]. *)
Definition update_transport (t : option LayerType) (pkt : bytes) (ihl : nat) (o n : bytes) : total bytes :=
  match t with
  | Some LayerTypeTCP => updateTCPChecksum pkt ihl o n
  | Some LayerTypeUDP => updateUDPChecksum pkt ihl o n
  | Some LayerTypeICMPv4 => updateICMPChecksum pkt ihl
  | _ => Ok pkt
  end.

Lemma wsum_cons2_sub_drop pkt pkt2 ihl k :
  drop ihl pkt2 = drop ihl pkt → sub pkt2 (ihl + k) 2 = sub pkt (ihl + k) 2.
Proof. intros E. unfold sub. by rewrite <-!drop_drop, E. Qed.

Lemma icmp_update ihl pkt :
  packet_geom ihl pkt → (ihl + 8 ≤ length pkt)%nat →
  ∃ pkt', updateICMPChecksum pkt ihl = Ok pkt' ∧ frame [((ihl + 2)%nat, 2%nat)] pkt pkt' ∧ checksum_ok (drop ihl pkt').
Proof.
  intros Hg H8. unfold updateICMPChecksum. rewrite bool_decide_false by lia.
  assert (∀ v, ihl + 2 + length (be16 v) ≤ length pkt)%nat as Hf by (intros; rewrite length_be16; lia).
  unfold PutUint16. rewrite put_upd by done. cbn [obind]. rewrite go_from_ok by (rewrite length_upd by done; lia).
  cbn [obind]. rewrite drop_upd_before by (done || lia). replace (ihl + 2 - ihl)%nat with 2%nat by lia.
  set (z := upd (drop ihl pkt) 2 (be16 0)).
  assert (2 + length (be16 0) ≤ length (drop ihl pkt))%nat as Hz by (rewrite length_drop, length_be16; lia).
  assert (length z = length pkt - ihl)%nat as Hlz by (unfold z; rewrite length_upd by done; by rewrite length_drop).
  rewrite icmpChecksum_norm, norm_u32 by (pose proof (geom_max _ _ Hg); unfold max_len; lia). cbn [obind].
  fold (rfc1071 z). rewrite put_upd by (rewrite length_upd by done; apply Hf). eexists. split; [done|].
  rewrite upd_upd by done. split; [apply (frame_upd (ihl + 2) (be16 _)); apply Hf|].
  rewrite drop_upd_before by (try apply Hf; lia). replace (ihl + 2 - ihl)%nat with 2%nat by lia.
  replace (upd (drop ihl pkt) 2 (be16 (rfc1071 z))) with (upd z 2 (be16 (rfc1071 z))) by (by apply upd_upd).
  apply checksum_ok_fill; [done|lia|]. unfold z. change 2%nat with (length (be16 0)) at 2.
  by rewrite sub_upd_same by done.
Qed.

Lemma transport_update t ihl pkt pkt2 o n :
  packet_geom ihl pkt → length pkt2 = length pkt → drop ihl pkt2 = drop ihl pkt →
  length o = 4%nat → length n = 4%nat →
  wsum (sub pkt2 12 4) + wsum (sub pkt2 16 4) = wsum (sub pkt 12 4) + wsum (sub pkt 16 4) - wsum o + wsum n →
  transport_ok t ihl pkt →
  ∃ pkt3, update_transport (Some t) pkt2 ihl o n = Ok pkt3 ∧ frame (csum_block t ihl) pkt2 pkt3 ∧ transport_ok t ihl pkt3.
Proof.
  intros Hg Hlen Hdrop Ho Hn Haddr Hok. pose proof (geom_length _ _ _ Hg Hlen) as Hg2.
  assert (∀ proto, 0 < proto < 256 → l4_total pkt2 ihl proto = l4_total pkt ihl proto - wsum o + wsum n) as Htot.
  { intros proto Hp. unfold l4_total. rewrite !wsum_packet by (destruct Hg, Hg2; lia). rewrite Hdrop, Hlen. lia. }
  destruct t; simpl in Hok |- *; try (eexists; split; [done|]; split; [apply frame_refl|done]).
  - destruct Hok as [H18 Hok]. unfold updateTCPChecksum. rewrite bool_decide_false by lia.
    rewrite word_at_sub by lia. cbn [obind].
    destruct (l4_increment pkt pkt2 ihl 16 6 o n) as (c' & -> & Hput & Hl3 & Hok3); try done; try lia.
    { by left. }
    { by apply Htot. }
    cbn [obind]. eexists. split; [exact Hput|]. split; [|by split; [lia|]].
    apply (frame_upd (ihl + 16) (be16 c')). rewrite length_be16. lia.
  - destruct Hok as [H8 Hok]. unfold updateUDPChecksum. rewrite bool_decide_false by lia.
    rewrite word_at_sub by lia. cbn [obind]. destruct (Z.eqb_spec (wsum (sub pkt2 (ihl + 6) 2)) 0) as [E|E].
    { eexists. split; [done|]. split; [apply frame_refl|]. split; [lia|by left]. }
    destruct Hok as [Hz|Hok]; [rewrite (wsum_cons2_sub_drop pkt pkt2) in E by done; done|].
    destruct (l4_increment pkt pkt2 ihl 6 17 o n) as (c' & -> & Hput & Hl3 & Hok3); try done; try lia.
    { by left. }
    { by apply Htot. }
    cbn [obind]. eexists. split; [exact Hput|]. split; [|split; [lia|by right]].
    apply (frame_upd (ihl + 6) (be16 c')). rewrite length_be16. lia.
  - destruct Hok as [H8 _]. destruct (icmp_update ihl pkt2 Hg2) as (pkt3 & E & Hf & Hc); [lia|].
    exists pkt3. split; [done|]. split; [done|]. split; [destruct Hf; lia|done].
Qed.

(** The address sum of a packet whose source or destination is overwritten. *)
Lemma addr_sum_upd pkt off n :
  (20 ≤ length pkt)%nat → off = 12%nat ∨ off = 16%nat → length n = 4%nat →
  wsum (sub (upd pkt off n) 12 4) + wsum (sub (upd pkt off n) 16 4) =
    wsum (sub pkt 12 4) + wsum (sub pkt 16 4) - wsum (sub pkt off 4) + wsum n.
Proof.
  intros Hl [->| ->] Hn.
  - rewrite sub_upd_block, (sub_upd_other _ 12) by lia. lia.
  - rewrite (sub_upd_block _ 16), (sub_upd_other _ 16) by lia. lia.
Qed.

(** Rewriting one address of a correct packet. *)
Lemma rewritePacketIP_spec pkt d t n off :
  packet_geom (ipHeaderLen_of d) pkt → decoded d !! 1%nat = Some t →
  off = sourceIPOffset ∨ off = destinationIPOffset → transport_ok t (ipHeaderLen_of d) pkt →
  ∃ pkt', rewritePacketIP pkt d (Addr4 n) off = Ok (pkt', None) ∧
    sub pkt' off 4 = be_bytes 4 n ∧
    frame ([(off, 4%nat); (10%nat, 2%nat)] ++ csum_block t (ipHeaderLen_of d)) pkt pkt' ∧
    checksum_ok (take (ipHeaderLen_of d) pkt') ∧ transport_ok t (ipHeaderLen_of d) pkt'.
Proof.
  unfold sourceIPOffset, destinationIPOffset. intros Hg Ht Hoff Hok. set (ihl := ipHeaderLen_of d) in *.
  pose proof (geom_min _ _ Hg) as Hmin. pose proof (geom_fits _ _ Hg) as Hfit.
  assert (length (be_bytes 4 n) = 4%nat) as H4 by apply length_addr_bytes.
  assert (off + length (be_bytes 4 n) ≤ length pkt)%nat as Hoffl by lia.
  unfold rewritePacketIP. cbn [Is4 negb]. rewrite go_slice_ok by lia. cbn [obind AsSlice].
  rewrite put_upd by done. cbn [obind]. set (pkt1 := upd pkt off (be_bytes 4 n)).
  assert (length pkt1 = length pkt) as Hl1 by (by apply length_upd).
  pose proof (geom_length _ _ _ Hg Hl1) as Hg1. unfold bad_header_len. fold ihl.
  rewrite !bool_decide_false by lia. cbn [orb].
  assert (∀ v, 10 + length (be16 v) ≤ length pkt1)%nat as H10 by (intros; rewrite length_be16; lia).
  unfold PutUint16. rewrite put_upd by done. cbn [obind].
  rewrite go_slice_ok by (rewrite ?length_upd by done; lia). rewrite Nat.sub_0_r, drop_0. cbn [obind].
  destruct (header_checksum ihl pkt1 Hg1) as (c & -> & Hhdr). cbn [obind].
  rewrite put_upd by (rewrite length_upd by done; done). cbn [obind]. rewrite upd_upd by done.
  set (pkt2 := upd pkt1 10 (be16 c)). assert (length pkt2 = length pkt) as Hl2 by (unfold pkt2; by rewrite length_upd).
  replace (off + 4 - off)%nat with 4%nat by lia. fold (sub pkt off 4). rewrite Ht.
  fold (update_transport (Some t) pkt2 ihl (sub pkt off 4) (be_bytes 4 n)).
  destruct (transport_update t ihl pkt pkt2 (sub pkt off 4) (be_bytes 4 n)) as (pkt3 & -> & Hfr & Hok3); try done.
  { unfold pkt2. rewrite drop_upd_after by (rewrite length_be16; lia). apply drop_upd_after; lia. }
  { apply length_sub. lia. }
  { unfold pkt2. rewrite !sub_upd_other by (rewrite length_be16; lia). unfold pkt1. apply addr_sum_upd; lia. }
  cbn [obind]. exists pkt3. split; [done|].
  assert (frame [(off, 4%nat)] pkt pkt1) as F1 by (rewrite <-H4; by apply frame_upd).
  assert (frame [(10%nat, 2%nat)] pkt1 pkt2) as F2 by (apply (frame_upd 10 (be16 c)); apply H10).
  assert (∀ j, (j < ihl)%nat → pkt3 !! j = pkt2 !! j) as Hlow.
  { intros j Hj. apply Hfr. unfold csum_block. destruct (csum_field t); [|done]. apply Forall_singleton. simpl. lia. }
  split; [|split].
  - transitivity (sub pkt2 off 4).
    + apply list_eq. intros x. unfold sub. destruct (decide (x < 4)%nat); [|by rewrite !lookup_take_ge by lia].
      rewrite !lookup_take_lt, !lookup_drop by lia. apply Hlow. lia.
    + unfold pkt2. rewrite sub_upd_other by (rewrite length_be16; lia). by apply sub_upd_block.
  - apply (frame_trans [(off, 4%nat); (10%nat, 2%nat)] _ _ pkt2); [|done]. by apply (frame_trans [(off, 4%nat)] _ _ pkt1).
  - split; [|done]. replace (take ihl pkt3) with (take ihl pkt2); [done|].
    apply list_eq. intros x. destruct (decide (x < ihl)%nat); [|by rewrite !lookup_take_ge by lia].
    rewrite !lookup_take_lt by lia. symmetry. by apply Hlow.
Qed.

(** The port rewriting of a transport protocol. *)
Definition rewrite_port (t : LayerType) : bytes → decoder → Z → nat → total (bytes * option natErr) :=
  match t with LayerTypeTCP => rewriteTCPPort | _ => rewriteUDPPort end.

(** Rewriting one port of a correct TCP or UDP packet. *)
Lemma rewrite_port_spec t pkt d newPort po :
  packet_geom (ipHeaderLen_of d) pkt → t = LayerTypeTCP ∨ t = LayerTypeUDP → 0 ≤ newPort ≤ 65535 →
  po = sourcePortOffset ∨ po = destinationPortOffset → transport_ok t (ipHeaderLen_of d) pkt →
  ∃ pkt', rewrite_port t pkt d newPort po = Ok (pkt', None) ∧
    wsum (sub pkt' (ipHeaderLen_of d + po) 2) = newPort ∧
    frame ([((ipHeaderLen_of d + po)%nat, 2%nat)] ++ csum_block t (ipHeaderLen_of d)) pkt pkt' ∧
    transport_ok t (ipHeaderLen_of d) pkt'.
Proof.
  unfold sourcePortOffset, destinationPortOffset. intros Hg Ht Hp Hpo Hok. set (ihl := ipHeaderLen_of d) in *.
  pose proof (geom_min _ _ Hg) as Hmin. pose proof (geom_fits _ _ Hg) as Hfit.
  assert (ihl + po + 6 ≤ length pkt)%nat as Hlen by (destruct Ht as [->| ->], Hok; lia).
  assert (bad_header_len d pkt = false) as Hbad.
  { unfold bad_header_len. fold ihl. by rewrite !bool_decide_false by lia. }
  set (old := wsum (sub pkt (ihl + po) 2)).
  pose proof (wsum_sub2_range pkt (ihl + po) ltac:(lia)) as Hold. fold old in Hold.
  set (pkt2 := upd pkt (ihl + po) (be16 newPort)).
  assert (ihl + po + length (be16 newPort) ≤ length pkt)%nat as Hf by (rewrite length_be16; lia).
  assert (length pkt2 = length pkt) as Hl2 by (by apply length_upd).
  assert (∀ proto, 0 < proto < 256 →
    l4_total pkt2 ihl proto = l4_total pkt ihl proto - wsum (be16 old) + wsum (be16 newPort)) as Htot.
  { intros proto Hpr. unfold pkt2. rewrite l4_total_upd; [|done|lia|done| |done].
    - rewrite length_be16, !wsum_be16 by lia. done.
    - by destruct Hpo as [->| ->]. }
  assert (frame [((ihl + po)%nat, 2%nat)] pkt pkt2) as F2 by (by apply (frame_upd (ihl + po) (be16 newPort))).
  assert (wsum (sub pkt2 (ihl + po) 2) = newPort) as Hnew.
  { unfold pkt2. rewrite sub_upd_block by done. by apply wsum_be16. }
  assert (∀ k c, (4 ≤ k)%nat → (ihl + k + 2 ≤ length pkt)%nat →
    wsum (sub (upd pkt2 (ihl + k) (be16 c)) (ihl + po) 2) = newPort) as Hkeep.
  { intros k c Hk Hk2. rewrite sub_upd_other by (rewrite length_be16; lia). done. }
  destruct Ht as [->| ->]; cbn [rewrite_port].
  - unfold rewriteTCPPort. fold ihl. rewrite Hbad. destruct Hok as [H18 Hok].
    rewrite bool_decide_false by lia. rewrite word_at_sub by lia. cbn [obind]. fold old.
    unfold PutUint16 at 1. rewrite put_upd by done. cbn [obind]. fold pkt2.
    rewrite bool_decide_true by lia. rewrite word_at_sub by lia. cbn [obind].
    destruct (l4_increment pkt pkt2 ihl 16 6 (be16 old) (be16 newPort)) as (c' & -> & Hput & Hl3 & Hok3); try done; try lia.
    { by right. }
    { by apply Htot. }
    cbn [obind]. rewrite Hput. cbn [obind]. eexists. split; [done|]. split; [apply Hkeep; lia|].
    split; [|by split; [lia|]]. eapply frame_trans; [exact F2|].
    apply (frame_upd (ihl + 16) (be16 c')). rewrite length_be16. lia.
  - unfold rewriteUDPPort. fold ihl. rewrite Hbad. destruct Hok as [H8 Hok].
    rewrite bool_decide_false by lia. rewrite word_at_sub by lia. cbn [obind]. fold old.
    unfold PutUint16 at 1. rewrite put_upd by done. cbn [obind]. fold pkt2.
    rewrite bool_decide_true by lia. rewrite word_at_sub by lia. cbn [obind].
    assert (sub pkt2 (ihl + 6) 2 = sub pkt (ihl + 6) 2) as Hs by (apply sub_upd_other; rewrite ?length_be16; lia).
    destruct (Z.eqb_spec (wsum (sub pkt2 (ihl + 6) 2)) 0) as [E|E].
    { eexists. split; [done|]. split; [done|]. split; [|split; [lia|by left]].
      eapply frame_trans; [exact F2|]. apply frame_refl. }
    destruct Hok as [Hz|Hok]; [by rewrite Hs in E|].
    destruct (l4_increment pkt pkt2 ihl 6 17 (be16 old) (be16 newPort)) as (c' & -> & Hput & Hl3 & Hok3); try done; try lia.
    { by right. }
    { by apply Htot. }
    cbn [obind]. rewrite Hput. cbn [obind]. eexists. split; [done|]. split; [apply Hkeep; lia|].
    split; [|split; [lia|by right]]. eapply frame_trans; [exact F2|].
    apply (frame_upd (ihl + 6) (be16 c')). rewrite length_be16. lia.
Qed.

(** ** The state of the manager *)

(** The operations on the translation state; an operation that returns an error
    leaves it unchanged. *)
Inductive nat_op :=
| OpAddMapping (original translated : Addr)
| OpRemoveMapping (original : Addr)
| OpAddPort (localAddr : Addr) (protocol : FwProtocol) (sourcePort targetPort : Z)
| OpRemovePort (localAddr : Addr) (protocol : FwProtocol) (sourcePort targetPort : Z).

Definition run_op (lip : localIPManager) (s : natState) (o : nat_op) : outcome natErr natState :=
  match o with
  | OpAddMapping a t => AddInternalDNATMapping lip s a t
  | OpRemoveMapping a => RemoveInternalDNATMapping s a
  | OpAddPort a p sp tp => AddInboundDNAT s a p sp tp
  | OpRemovePort a p sp tp => RemoveInboundDNAT s a p sp tp
  end.

Fixpoint run_ops (lip : localIPManager) (s : natState) (os : list nat_op) : total natState :=
  match os with
  | [] => Ok s
  | o :: os => otry (run_op lip s o) (λ _, run_ops lip s os) (λ s, run_ops lip s os)
  end.

(** The flags mirror the tables, and the forward map is the table. *)
Record nat_ok (s : natState) : Prop := mkNatOk {
  nat_enabled : dnatEnabled s = true ↔ dnatMappings s ≠ ∅;
  nat_forward : match dnatBiMap s with Some b => forward b = dnatMappings s | None => dnatMappings s = ∅ end;
  nat_ports : portDNATEnabled s = true ↔ portDNATRules s ≠ [];
}.

(** The two maps are inverse to each other. *)
Definition bimap_ok (b : biDNATMap) : Prop :=
  ∀ o t, forward b !! o = Some t ↔ reverse_map b !! t = Some o.

Definition inverse_ok (s : natState) : Prop :=
  match dnatBiMap s with Some b => bimap_ok b | None => True end.

(** An operation that does not reuse an address of a live mapping. *)
Definition fresh_op (s : natState) (o : nat_op) : Prop :=
  match o with
  | OpAddMapping a t => dnatMappings s !! a = None ∧ ∀ a', dnatMappings s !! a' ≠ Some t
  | _ => True
  end.

Fixpoint fresh_ops (lip : localIPManager) (s : natState) (os : list nat_op) : Prop :=
  match os with
  | [] => True
  | o :: os => fresh_op s o ∧
      match run_op lip s o with Ok s' => fresh_ops lip s' os | _ => fresh_ops lip s os end
  end.

Lemma bimap_set_ok b o t :
  bimap_ok b → forward b !! o = None → (∀ o', forward b !! o' ≠ Some t) → bimap_ok (bimap_set b o t).
Proof.
  intros Hb Ho Ht o' t'. unfold bimap_set. cbn [forward reverse_map]. rewrite !lookup_insert_Some.
  specialize (Hb o' t'). split.
  - intros [[-> ->]|[Hne H]]; [by left|]. right. split; [|by apply Hb]. intros ->. by apply (Ht o').
  - intros [[-> ->]|[Hne H]]; [by left|]. right. apply Hb in H. split; [|done]. intros ->. congruence.
Qed.

Lemma bimap_delete_ok b o : bimap_ok b → bimap_ok (bimap_delete b o).
Proof.
  intros Hb. unfold bimap_delete. destruct (forward b !! o) as [t|] eqn:E; [|done].
  intros o' t'. cbn [forward reverse_map]. rewrite !lookup_delete_Some.
  pose proof (proj1 (Hb o t) E). pose proof (Hb o' t'). pose proof (Hb o t'). pose proof (Hb o' t).
  split; intros [Hne Hf]; split; try naive_solver; intros ->; naive_solver congruence.
Qed.

Lemma forward_delete b o : forward (bimap_delete b o) = base.delete o (forward b).
Proof.
  unfold bimap_delete. destruct (forward b !! o) eqn:E; [done|]. by rewrite delete_id.
Qed.

Lemma run_op_ok lip s o :
  table_ok (ipv4Bitmap lip) → nat_ok s →
  match run_op lip s o with
  | Ok s' => nat_ok s' ∧ (inverse_ok s → fresh_op s o → inverse_ok s')
  | Err _ => True
  | Panic => False
  end.
Proof.
  intros Hlip [He Hf Hp]. destruct o as [a t|a|a p sp tp|a p sp tp]; simpl.
  - unfold AddInternalDNATMapping. repeat (case_if; [done|]).
    assert (∃ b, IsLocalIP lip t = Ok b) as [[|] ->]; [|done|].
    { destruct t as [|n|]; try (by eexists). rewrite IsLocalIP_bit by done. eauto. }
    destruct (dnatBiMap s) as [b|] eqn:Eb; (split; [split; cbn|unfold inverse_ok; cbn; rewrite Eb; intros Hi [H1 H2]]).
    + split; [intros _; apply insert_non_empty|]. intros _. case_bool_decide as E1; [done|]. apply He. intros E0.
      apply E1. rewrite E0, insert_empty. apply map_size_singleton.
    + by rewrite Hf.
    + done.
    + apply bimap_set_ok; [done|by rewrite Hf|]. intros o'. rewrite Hf. apply H2.
    + split; [intros _; apply insert_non_empty|]. intros _. rewrite insert_empty, map_size_singleton. done.
    + done.
    + done.
    + apply bimap_set_ok; [|done|]; unfold bimap_ok; cbn [newBiDNATMap forward reverse_map]; intros o';
        [intros t'; by rewrite !lookup_empty|by rewrite lookup_empty].
  - unfold RemoveInternalDNATMapping. destruct (dnatMappings s !! a) as [t|] eqn:Ea; [|done].
    destruct (dnatBiMap s) as [b|] eqn:Eb; [|by rewrite Hf, lookup_empty in Ea].
    split; [split; cbn|unfold inverse_ok; cbn; rewrite Eb; intros Hi _; by apply bimap_delete_ok].
    + case_bool_decide as E0.
      * apply map_size_empty_iff in E0. rewrite E0. done.
      * rewrite He. split; intros _; [|intros E; by rewrite E, lookup_empty in Ea].
        intros E. apply E0. by rewrite E, map_size_empty.
    + by rewrite forward_delete, Hf.
    + done.
  - unfold AddInboundDNAT. destruct (dnat_layer p); [|done]. split; [split; cbn; try done|done].
    split; [|done]. intros _ E. by apply app_eq_nil in E as [_ ?].
  - unfold RemoveInboundDNAT. destruct (dnat_layer p); [|done]. split; [split; cbn; try done|done].
    destruct (List.filter _ _) eqn:E; [done|]. split; [done|]. intros _. apply Hp. intros E0. by rewrite E0 in E.
Qed.

Lemma run_ops_ok lip s os :
  table_ok (ipv4Bitmap lip) → nat_ok s →
  ∃ s', run_ops lip s os = Ok s' ∧ nat_ok s' ∧ (inverse_ok s → fresh_ops lip s os → inverse_ok s').
Proof.
  intros Hlip. revert s. induction os as [|o os IH]; intros s Hs; simpl; [eauto|].
  pose proof (run_op_ok lip s o Hlip Hs) as H. destruct (run_op lip s o) as [s1|e|] eqn:E; simpl; [| |done].
  - destruct H as [H1 H2]. destruct (IH s1 H1) as (s' & -> & H3 & H4). exists s'. split; [done|]. split; [done|].
    intros Hi [Hf1 Hf2]. auto.
  - destruct (IH s Hs) as (s' & -> & H3 & H4). exists s'. split; [done|]. split; [done|]. intros Hi [_ Hf]. auto.
Qed.

Lemma newNatState_ok : nat_ok newNatState ∧ inverse_ok newNatState.
Proof. split; [|done]. split; simpl; try done. Qed.

(** ** No panics on any packet *)

(** The places a translation may write to: the addresses and the checksum of the
    IP header, and the ports and the checksum of the transport header. *)
Definition nat_blocks (t : option LayerType) (ihl : nat) : list (nat * nat) :=
  (10, 10)%nat ::
  match t with
  | Some LayerTypeTCP => [(ihl, 4); (ihl + 16, 2)]%nat
  | Some LayerTypeUDP => [(ihl, 4); (ihl + 6, 2)]%nat
  | Some LayerTypeICMPv4 => [(ihl + 2, 2)]%nat
  | _ => []
  end.

Definition covered (B : list (nat * nat)) (i k : nat) : Prop :=
  Exists (λ b, b.1 ≤ i ∧ i + k ≤ b.1 + b.2)%nat B.

Lemma frame_put B p q i s :
  frame B p q → (i + length s ≤ length q)%nat → covered B i (length s) → frame B p (upd q i s).
Proof.
  intros [L F] Hf Hc. split; [by rewrite length_upd|]. intros j Hj. rewrite lookup_upd by done.
  rewrite bool_decide_false; [by apply F|]. intros Hin. apply Exists_exists in Hc as (b & Hb & Hc).
  rewrite Forall_forall in Hj. specialize (Hj b Hb). lia.
Qed.

Lemma put16_total B p pkt i v :
  frame B p pkt → (i + 2 ≤ length pkt)%nat → covered B i 2 →
  ∃ pkt', PutUint16 pkt i v = Ok pkt' ∧ frame B p pkt'.
Proof.
  intros HF Hi Hc. eexists. split; [apply (put_upd pkt i (be16 v)); by rewrite length_be16|]. by apply frame_put.
Qed.

Lemma frame_length B p q : frame B p q → length q = length p.
Proof. by intros []. Qed.

Lemma incr_total pkt i o n :
  (i + 2 ≤ length pkt)%nat → update_sizes o n → ∃ c, incrementalUpdate (wsum (sub pkt i 2)) o n = Ok c.
Proof.
  intros Hi Hs. destruct (incrementalUpdate_mod (wsum (sub pkt i 2)) o n) as (c & ? & _); eauto.
  by apply wsum_sub2_range.
Qed.

(** Membership of a two-byte field in one of the blocks. *)
Ltac in_blocks :=
  unfold covered, nat_blocks;
  first [ apply Exists_cons; left; simpl; lia | rewrite !Exists_cons; simpl; lia ].

(** Sequencing of steps that write within the blocks. *)
Ltac nat_total :=
  repeat first
    [ progress cbn [obind]
    | rewrite word_at_sub by lia
    | match goal with HF : frame ?B ?p ?q |- context [PutUint16 ?q ?i ?v] =>
        let r := fresh "pkt" in let H := fresh "Hf" in
        destruct (put16_total B p q i v HF) as (r & -> & H); [lia|in_blocks|]; pose proof (frame_length _ _ _ H) end
    | match goal with |- context [incrementalUpdate (wsum (sub ?p ?i 2)) ?o ?n] =>
        let c := fresh "c" in
        destruct (incr_total p i o n) as [c ->]; [lia|first [by left|by right]|] end ].

Section Totals.
Context (p : bytes) (ihl : nat).

Lemma update_transport_total t pkt o n :
  length o = 4%nat → length n = 4%nat → frame (nat_blocks t ihl) p pkt →
  ∃ pkt', update_transport t pkt ihl o n = Ok pkt' ∧ frame (nat_blocks t ihl) p pkt'.
Proof.
  intros Ho Hn HF. destruct t as [[]|]; simpl; try (by eauto).
  - unfold updateTCPChecksum. case_bool_decide; [by eauto|]. nat_total. eauto.
  - unfold updateUDPChecksum. case_bool_decide; [by eauto|]. nat_total. case_if; [by eauto|]. nat_total. eauto.
  - unfold updateICMPChecksum. case_bool_decide; [by eauto|]. nat_total.
    pose proof (frame_length _ _ _ HF). rewrite go_from_ok by lia. cbn [obind]. rewrite icmpChecksum_norm. nat_total. eauto.
Qed.
End Totals.

Lemma rewritePacketIP_total pkt d a off :
  (20 ≤ length pkt)%nat → off = sourceIPOffset ∨ off = destinationIPOffset →
  ∃ r, rewritePacketIP pkt d a off = Ok r ∧ frame (nat_blocks (decoded d !! 1%nat) (ipHeaderLen_of d)) pkt r.1.
Proof.
  unfold sourceIPOffset, destinationIPOffset. intros Hl Hoff.
  unfold rewritePacketIP. destruct a as [|n|]; cbn [Is4 negb]; try (eexists; split; [done|apply frame_refl]).
  rewrite go_slice_ok by lia. cbn [obind AsSlice].
  assert (off + length (be_bytes 4 n) ≤ length pkt)%nat as Hf by (rewrite length_addr_bytes; lia).
  rewrite put_upd by done. cbn [obind].
  assert (frame (nat_blocks (decoded d !! 1%nat) (ipHeaderLen_of d)) pkt (upd pkt off (be_bytes 4 n))) as HF.
  { apply frame_put; [apply frame_refl|done|]. rewrite length_addr_bytes. in_blocks. }
  pose proof (frame_length _ _ _ HF) as Hl1. set (pkt1 := upd _ _ _) in *. clearbody pkt1.
  unfold bad_header_len. case_if; bool_facts; [eexists; split; [done|]; done|].
  nat_total. rewrite go_slice_ok by lia. cbn [obind].
  rewrite ipv4Checksum_norm by (rewrite length_take, length_drop; lia). nat_total.
  edestruct (update_transport_total pkt (ipHeaderLen_of d) (decoded d !! 1%nat)) as (pkt5 & E & Hl5);
    [| | |unfold update_transport in E; rewrite E].
  - rewrite length_take, length_drop. lia.
  - apply (length_addr_bytes 4).
  - done.
  - cbn [obind]. eexists. split; [done|]. done.
Qed.

Lemma rewrite_port_total t pkt d v po :
  t = LayerTypeTCP ∨ t = LayerTypeUDP → po = sourcePortOffset ∨ po = destinationPortOffset →
  ∃ r, rewrite_port t pkt d v po = Ok r ∧ frame (nat_blocks (Some t) (ipHeaderLen_of d)) pkt r.1.
Proof.
  unfold sourcePortOffset, destinationPortOffset. intros Ht Hpo.
  assert (∀ q q', update_sizes (be16 q) (be16 q')) as Hsz by (by right).
  pose proof (frame_refl (nat_blocks (Some t) (ipHeaderLen_of d)) pkt) as HF.
  destruct Ht as [->| ->]; cbn [rewrite_port].
  - unfold rewriteTCPPort. case_if; [by eauto|]. case_bool_decide; [by eauto|]. nat_total.
    case_bool_decide; [|eauto]. nat_total. eauto.
  - unfold rewriteUDPPort. case_if; [by eauto|]. case_bool_decide; [by eauto|]. nat_total.
    case_bool_decide; [|eauto]. nat_total. case_if; [eauto|]. nat_total. eauto.
Qed.

Lemma frame_trans_same B p q r : frame B p q → frame B q r → frame B p r.
Proof. intros [L1 F1] [L2 F2]. split; [congruence|]. intros j Hj. by rewrite F2, F1. Qed.

(** The three translations never panic on a packet with an IPv4 header. *)
Lemma translate_inbound_port_total s pkt d src dst :
  (2 ≤ length (decoded d))%nat →
  ∃ pkt' d' b, translateInboundPortDNAT s pkt d src dst = Ok (pkt', d', b) ∧
    frame (nat_blocks (decoded d !! 1%nat) (ipHeaderLen_of d)) pkt pkt' ∧ ∃ v, d' = set_dnatOrigPort d v.
Proof.
  intros Hd. unfold translateInboundPortDNAT.
  assert (∃ v, d = set_dnatOrigPort d v) as Hsame by (exists (dnatOrigPort d); by destruct d).
  destruct (portDNATEnabled s); cbn [negb]; [|do 3 eexists; split; [done|]; split; [apply frame_refl|done]].
  destruct (lookup_lt_is_Some_2 (decoded d) 1) as [l Hl]; [lia|]. rewrite (go_index_ok _ _ _ Hl), Hl. cbn [obind].
  assert (∀ t src port, t = LayerTypeTCP ∨ t = LayerTypeUDP → ∃ pkt' d' b,
    applyPortRule s pkt d src dst port t (rewrite_port t) = Ok (pkt', d', b) ∧
    frame (nat_blocks (Some t) (ipHeaderLen_of d)) pkt pkt' ∧ ∃ v, d' = set_dnatOrigPort d v) as Happ.
  { intros t src' port Ht. unfold applyPortRule. destruct (find_port_rule _ _ _ _ _) as [rule|].
    2: { do 3 eexists. split; [done|]. split; [apply frame_refl|done]. }
    destruct (rewrite_port_total t pkt d (pr_targetPort rule) destinationPortOffset) as ([pkt' [e|]] & -> & HF);
      [done|by right|..]; cbn [obind]; do 3 eexists; (split; [done|]; split; [exact HF|eauto]). }
  destruct l; try (do 3 eexists; split; [done|]; split; [apply frame_refl|done]);
    [apply (Happ LayerTypeTCP); by left|apply (Happ LayerTypeUDP); by right].
Qed.

Lemma translate_addr_total s pkt d :
  nat_ok s → (20 ≤ length pkt)%nat →
  (∃ r, translateOutboundDNAT s pkt d = Ok r ∧ frame (nat_blocks (decoded d !! 1%nat) (ipHeaderLen_of d)) pkt r.1) ∧
  (∃ r, translateInboundReverse s pkt d = Ok r ∧ frame (nat_blocks (decoded d !! 1%nat) (ipHeaderLen_of d)) pkt r.1).
Proof.
  intros [He Hf _] Hl. unfold translateOutboundDNAT, translateInboundReverse, getDNATTranslation, findReverseDNATMapping.
  destruct (dnatEnabled s) eqn:E; cbn [negb]; [|split; eexists; (split; [done|apply frame_refl])].
  destruct (dnatBiMap s) as [b|]; [|by destruct (proj1 He eq_refl)].
  unfold addr_at. rewrite !go_slice_ok by lia. cbn [obind]. split.
  - destruct (getTranslated _ _) as [a|]; [|eexists; split; [done|apply frame_refl]].
    destruct (rewritePacketIP_total pkt d a destinationIPOffset Hl) as ([q [e|]] & -> & HF); [by right|..];
      cbn [obind]; eauto.
  - destruct (getOriginal _ _) as [a|]; [|eexists; split; [done|apply frame_refl]].
    destruct (rewritePacketIP_total pkt d a sourceIPOffset Hl) as ([q [e|]] & -> & HF); [by left|..];
      cbn [obind]; eauto.
Qed.

(** ** Properties *)

(** A packet of transport [t], as decoded in [d], with correct checksums. *)
Record good_packet (d : decoder) (t : LayerType) (pkt : bytes) : Prop := mkGood {
  good_geom : packet_geom (ipHeaderLen_of d) pkt;
  good_layer : decoded d !! 1%nat = Some t;
  good_header : checksum_ok (take (ipHeaderLen_of d) pkt);
  good_transport : transport_ok t (ipHeaderLen_of d) pkt;
}.

Lemma addr_at_sub pkt off n :
  (off + 4 ≤ length pkt)%nat → 0 ≤ n < 2 ^ 32 → sub pkt off 4 = be_bytes 4 n → addr_at pkt off = Ok (Addr4 n).
Proof.
  intros Hl Hn Hs. unfold addr_at. rewrite go_slice_ok by lia. cbn [obind].
  replace (off + 4 - off)%nat with 4%nat by lia. fold (sub pkt off 4). by rewrite Hs, be_number_bytes4.
Qed.

(** Rewriting an address of a good packet gives a good packet. *)
Lemma rewrite_good pkt d t n off :
  good_packet d t pkt → 0 ≤ n < 2 ^ 32 → off = sourceIPOffset ∨ off = destinationIPOffset →
  ∃ pkt', rewritePacketIP pkt d (Addr4 n) off = Ok (pkt', None) ∧ good_packet d t pkt' ∧
    addr_at pkt' off = Ok (Addr4 n) ∧
    frame ([(off, 4%nat); (10%nat, 2%nat)] ++ csum_block t (ipHeaderLen_of d)) pkt pkt'.
Proof.
  intros [Hg Ht Hh Hok] Hn Hoff. destruct (rewritePacketIP_spec pkt d t n off Hg Ht Hoff Hok) as (pkt' & E & Hs & Hf & Hh' & Hok').
  exists pkt'. split; [done|]. assert (length pkt' = length pkt) as Hl by (by destruct Hf). split; [|split; [|done]].
  - split; [by eapply geom_length| done..].
  - apply addr_at_sub; [|done..]. destruct Hg. unfold sourceIPOffset, destinationIPOffset in Hoff. lia.
Qed.

(** C31: after any sequence of mapping and redirection operations that never
    reuses an address of a live mapping, a packet to the original address of a
    mapping leaves with the translated destination and a packet from the
    translated address arrives with the original source; in both directions the
    IP header checksum and the transport checksum stay correct and no byte
    outside the address and the checksum fields changes. *)
Theorem dnat_roundtrip lip os s o t dOut tOut pkt dIn tIn reply :
  table_ok (ipv4Bitmap lip) → run_ops lip newNatState os = Ok s → fresh_ops lip newNatState os →
  dnatMappings s !! Addr4 o = Some (Addr4 t) → 0 ≤ o < 2 ^ 32 → 0 ≤ t < 2 ^ 32 →
  good_packet dOut tOut pkt → addr_at pkt 16 = Ok (Addr4 o) →
  good_packet dIn tIn reply → addr_at reply 12 = Ok (Addr4 t) →
  (∃ pkt', translateOutboundDNAT s pkt dOut = Ok (pkt', true) ∧ good_packet dOut tOut pkt' ∧
     addr_at pkt' 16 = Ok (Addr4 t) ∧
     frame ([(16%nat, 4%nat); (10%nat, 2%nat)] ++ csum_block tOut (ipHeaderLen_of dOut)) pkt pkt') ∧
  (∃ reply', translateInboundReverse s reply dIn = Ok (reply', true) ∧ good_packet dIn tIn reply' ∧
     addr_at reply' 12 = Ok (Addr4 o) ∧
     frame ([(12%nat, 4%nat); (10%nat, 2%nat)] ++ csum_block tIn (ipHeaderLen_of dIn)) reply reply').
Proof.
  intros Hlip Hrun Hfresh Hmap Ho Ht Hpkt Hdst Hreply Hsrc. destruct newNatState_ok as [Hn Hi].
  destruct (run_ops_ok lip newNatState os Hlip Hn) as (s' & Hs & [He Hf _] & Hinv).
  rewrite Hrun in Hs. injection Hs as <-. specialize (Hinv Hi Hfresh).
  assert (dnatEnabled s = true) as Hen by (apply He; intros E; by rewrite E, lookup_empty in Hmap).
  unfold inverse_ok in Hinv. destruct (dnatBiMap s) as [b|] eqn:Eb; [|by rewrite Hf, lookup_empty in Hmap].
  rewrite <-Hf in Hmap. split.
  - unfold translateOutboundDNAT, getDNATTranslation, getTranslated. rewrite Hen, Hdst, Eb. cbn [negb obind].
    rewrite Hmap. destruct (rewrite_good pkt dOut tOut t destinationIPOffset Hpkt Ht) as (pkt' & -> & ?); [by right|].
    cbn [obind]. eauto.
  - unfold translateInboundReverse, findReverseDNATMapping, getOriginal. rewrite Hen, Hsrc, Eb. cbn [negb obind].
    apply Hinv in Hmap. rewrite Hmap.
    destruct (rewrite_good reply dIn tIn o sourceIPOffset Hreply Ho) as (pkt' & -> & ?); [by left|].
    cbn [obind]. eauto.
Qed.

(** Example packets: an IPv4 header of 20 bytes and a TCP header of 20. *)
Definition ip_header (src dst : Z) : bytes :=
  (Z_to_byte <$> [0x45; 0; 0; 40; 0; 1; 0x40; 0; 64; 6; 0; 0]) ++ be_bytes 4 src ++ be_bytes 4 dst.

Definition tcp_header (sport dport flags : Z) : bytes :=
  be16 sport ++ be16 dport ++ (Z_to_byte <$> [0; 0; 0; 1; 0; 0; 0; 2; 0x50; flags; 0xff; 0xff; 0; 0; 0; 0]).

Definition example_packet (src dst sport dport flags : Z) : bytes :=
  let h := ip_header src dst in
  let seg := tcp_header sport dport flags in
  let h := upd h 10 (be16 (rfc1071 h)) in
  let pkt := h ++ seg in
  upd pkt 36 (be16 (rfc1071 (packet_pseudo pkt 20 6 ++ seg))).

Definition example_decoder (src dst sport dport flags : Z) : decoder :=
  mkDecoder (mkIPv4 5 (be_bytes 4 src) (be_bytes 4 dst) 6 false 0) ([], [])
    (mkTCP sport dport (has_bit flags 2) (has_bit flags 16) (has_bit flags 1) (has_bit flags 4)
       (has_bit flags 8) (has_bit flags 32) [])
    (mkUDP 0 0) (mkICMPv4 0 0 0) [LayerTypeIPv4; LayerTypeTCP] 0.

(** 240.0.0.1 stands for 93.184.216.34. *)
Definition example_ops : list nat_op := [OpAddMapping (Addr4 0xF0000001) (Addr4 0x5DB8D822)].

Definition example_state : natState :=
  mkNat true {[Addr4 0xF0000001 := Addr4 0x5DB8D822]}
    (Some (mkBiMap {[Addr4 0xF0000001 := Addr4 0x5DB8D822]} {[Addr4 0x5DB8D822 := Addr4 0xF0000001]})) false [].

Ltac good_example :=
  split; [split; [reflexivity|vm_compute; lia|vm_compute; lia|vm_compute; discriminate]|reflexivity|vm_compute; reflexivity|
          split; [vm_compute; lia|vm_compute; reflexivity]].

Lemma dnat_roundtrip_witness :
  let out := example_packet 0x64400001 0xF0000001 40000 443 2 in
  let back := example_packet 0x5DB8D822 0x64400001 443 40000 18 in
  let dOut := example_decoder 0x64400001 0xF0000001 40000 443 2 in
  let dIn := example_decoder 0x5DB8D822 0x64400001 443 40000 18 in
  (∃ pkt', translateOutboundDNAT example_state out dOut = Ok (pkt', true) ∧ good_packet dOut LayerTypeTCP pkt' ∧
     addr_at pkt' 16 = Ok (Addr4 0x5DB8D822) ∧
     frame ([(16%nat, 4%nat); (10%nat, 2%nat)] ++ csum_block LayerTypeTCP (ipHeaderLen_of dOut)) out pkt') ∧
  (∃ reply', translateInboundReverse example_state back dIn = Ok (reply', true) ∧ good_packet dIn LayerTypeTCP reply' ∧
     addr_at reply' 12 = Ok (Addr4 0xF0000001) ∧
     frame ([(12%nat, 4%nat); (10%nat, 2%nat)] ++ csum_block LayerTypeTCP (ipHeaderLen_of dIn)) back reply').
Proof.
  intros. apply (dnat_roundtrip newLocalIPManager example_ops example_state 0xF0000001 0x5DB8D822).
  - split; [reflexivity|]. by apply Forall_replicate.
  - vm_compute. reflexivity.
  - vm_compute. repeat split; discriminate.
  - reflexivity.
  - lia.
  - lia.
  - good_example.
  - vm_compute. reflexivity.
  - good_example.
  - vm_compute. reflexivity.
Defined.

(** whatever mappings and redirections are added and removed, in any order,
    no operation panics, the two enabled flags are set exactly while their
    tables are non-empty, and the forward map is the table of mappings. *)
Theorem nat_state_invariant lip os :
  table_ok (ipv4Bitmap lip) → ∃ s, run_ops lip newNatState os = Ok s ∧ nat_ok s.
Proof.
  intros Hlip. destruct (run_ops_ok lip newNatState os Hlip (proj1 newNatState_ok)) as (s & ? & ? & _). eauto.
Qed.

Lemma nat_state_invariant_witness :
  ∃ s, run_ops newLocalIPManager newNatState
         (example_ops ++ [OpRemoveMapping (Addr4 0xF0000001); OpRemoveMapping (Addr4 7);
                          OpAddPort (Addr4 1) ProtocolTCP 22 22022; OpAddPort (Addr4 1) ProtocolICMP 0 0]) = Ok s ∧ nat_ok s.
Proof. apply nat_state_invariant. split; [reflexivity|]. by apply Forall_replicate. Defined.

(** Without freshness the two maps drift apart: an original that is mapped again
    leaves its old reverse entry behind for good, and of two originals mapped to
    one address the removal of one stops the return traffic of the other. *)
Lemma dnat_reuse_breaks_inverse :
  (∃ s, run_ops newLocalIPManager newNatState
      [OpAddMapping (Addr4 9) (Addr4 10); OpAddMapping (Addr4 1) (Addr4 2); OpAddMapping (Addr4 1) (Addr4 3);
       OpRemoveMapping (Addr4 1)] = Ok s ∧
    dnatMappings s !! Addr4 1 = None ∧ findReverseDNATMapping s (Addr4 2) = Ok (Some (Addr4 1))) ∧
  (∃ s, run_ops newLocalIPManager newNatState
      [OpAddMapping (Addr4 1) (Addr4 3); OpAddMapping (Addr4 2) (Addr4 3); OpRemoveMapping (Addr4 1)] = Ok s ∧
    getDNATTranslation s (Addr4 2) = Ok (Some (Addr4 3)) ∧ findReverseDNATMapping s (Addr4 3) = Ok None).
Proof. split; eexists; (split; [vm_compute; reflexivity|]); vm_compute; auto. Qed.

Lemma find_port_rule_sound rules src dst port t rule :
  find_port_rule rules src dst port t = Some rule →
  rule ∈ rules ∧ pr_protocol rule = t ∧ pr_targetIP rule = dst ∧ pr_origPort rule = port.
Proof.
  induction rules as [|r rules IH]; simpl; [done|]. repeat case_if; bool_facts; try set_solver.
  intros [= <-]. rewrite Addr_Compare_zero in *. repeat split; [set_solver| |done..].
  destruct (decide (pr_protocol r = t)); [done|]. naive_solver.
Qed.

(** The source address the loop guard of [applyPortRule] sees: the code passes
    the zero address for UDP. *)
Definition guard_src (t : LayerType) (srcIP : Addr) : Addr :=
  match t with LayerTypeTCP => srcIP | _ => AddrZero end.

Definition dst_port (t : LayerType) (d : decoder) : Z :=
  match t with LayerTypeTCP => tcp_DstPort (d_tcp d) | _ => udp_DstPort (d_udp d) end.

(** an inbound TCP or UDP packet with correct checksums is redirected by the
    first applicable rule for its destination address and port and by no other:
    the destination port becomes the rule's target, the decoder remembers the
    original port, nothing but the port and the checksum changes and the
    checksums stay correct; without an applicable rule the packet is untouched. *)
Theorem port_redirection_exact s pkt d t srcIP dstIP :
  good_packet d t pkt → t = LayerTypeTCP ∨ t = LayerTypeUDP →
  Forall (λ r, 0 ≤ pr_targetPort r ≤ 65535) (portDNATRules s) → portDNATEnabled s = true →
  match find_port_rule (portDNATRules s) (guard_src t srcIP) dstIP (dst_port t d) t with
  | None => translateInboundPortDNAT s pkt d srcIP dstIP = Ok (pkt, d, false)
  | Some rule =>
      pr_targetIP rule = dstIP ∧ pr_origPort rule = dst_port t d ∧
      ∃ pkt', translateInboundPortDNAT s pkt d srcIP dstIP =
          Ok (pkt', set_dnatOrigPort d (pr_origPort rule), true) ∧
        word_at pkt' (ipHeaderLen_of d + 2) = Ok (pr_targetPort rule) ∧
        frame ([((ipHeaderLen_of d + 2)%nat, 2%nat)] ++ csum_block t (ipHeaderLen_of d)) pkt pkt' ∧
        good_packet d t pkt'
  end.
Proof.
  intros [Hg Hl Hh Hok] Ht Hports Hen.
  assert (translateInboundPortDNAT s pkt d srcIP dstIP =
    applyPortRule s pkt d (guard_src t srcIP) dstIP (dst_port t d) t (rewrite_port t)) as ->.
  { unfold translateInboundPortDNAT. rewrite Hen, (go_index_ok _ _ _ Hl). by destruct Ht as [->| ->]. }
  unfold applyPortRule. destruct (find_port_rule _ _ _ _ _) as [rule|] eqn:E; [|done].
  apply find_port_rule_sound in E as (Hin & _ & H2 & H3). split; [done|]. split; [done|].
  rewrite Forall_forall in Hports. specialize (Hports rule Hin).
  destruct (rewrite_port_spec t pkt d (pr_targetPort rule) destinationPortOffset) as (pkt' & -> & Hw & Hf & Hok');
    [done|done|done|by right|done|].
  unfold destinationPortOffset in *. cbn [obind]. exists pkt'. assert (length pkt' = length pkt) as Hlen by (by destruct Hf).
  pose proof (geom_min _ _ Hg). split; [done|]. split; [|split; [done|]].
  - rewrite word_at_sub; [by rewrite Hw|]. destruct Ht as [->| ->]; destruct Hok' as [? _]; lia.
  - split; [by eapply geom_length|done| |done].
    replace (take (ipHeaderLen_of d) pkt') with (take (ipHeaderLen_of d) pkt); [done|].
    apply list_eq. intros x. destruct (decide (x < ipHeaderLen_of d)%nat); [|by rewrite !lookup_take_ge by lia].
    rewrite !lookup_take_lt by lia. symmetry. apply Hf. unfold csum_block.
    destruct Ht as [->| ->]; repeat constructor; simpl; lia.
Qed.

Lemma port_redirection_exact_witness :
  let d := example_decoder 0x64400002 0x64400001 40000 22 2 in
  let pkt := example_packet 0x64400002 0x64400001 40000 22 2 in
  let s := addPortRedirection newNatState (Addr4 0x64400001) LayerTypeTCP 22 22022 in
  Addr4 0x64400001 = Addr4 0x64400001 ∧ 22 = dst_port LayerTypeTCP d ∧
  ∃ pkt', translateInboundPortDNAT s pkt d (Addr4 0x64400002) (Addr4 0x64400001) =
      Ok (pkt', set_dnatOrigPort d 22, true) ∧
    word_at pkt' (ipHeaderLen_of d + 2) = Ok 22022 ∧
    frame ([((ipHeaderLen_of d + 2)%nat, 2%nat)] ++ csum_block LayerTypeTCP (ipHeaderLen_of d)) pkt pkt' ∧
    good_packet d LayerTypeTCP pkt'.
Proof.
  intros d pkt s.
  refine (port_redirection_exact s pkt d LayerTypeTCP (Addr4 0x64400002) (Addr4 0x64400001) _ _ _ _).
  - good_example.
  - by left.
  - repeat constructor; simpl; lia.
  - reflexivity.
Defined.
