(* ===== verification/FakeIP.v ===== *)
(** * Fake addresses for intercepted names

    [client/internal/routemanager/fakeip/fakeip.go]: the allocator that hands out
    an address of 240.0.0.0/8 for each real address a resolved name has; the DNS
    interceptor feeds its pairs to the address map of the firewall
    ([FirewallNAT.AddInternalDNATMapping]).

    The theorems: the search always ends, an address is refused only when the
    whole block is in use, every address lies in the block, and the two maps are
    inverse to each other, so that the pairs are one-to-one as the firewall's
    address map needs them. *)

From stdpp Require Import base list gmap fin_maps.
From S2P Require Import Prelude NetIP.

#[local] Open Scope go_scope.

(** 240.0.0.1 and 240.255.255.254 *)
Definition baseIP : Z := 0xF0000001.

Definition maxIP : Z := 0xF0FFFFFE.

Inductive fakeErr := errOnlyIPv4 | errExhausted.

Record Manager := mkFake {
  nextIP : Z;
  allocated : gmap Addr Addr;
  fakeToReal : gmap Addr Addr;
}.

Definition NewManager : Manager := mkFake baseIP ∅ ∅.

(** [if nextIP >= maxIP { baseIP } else { nextIP.Next() }]; the addresses are the
    numbers of IPv4 addresses, ordered as [Compare] orders them. *)
Definition advance (ip : Z) : Z := if maxIP <=? ip then baseIP else ip + 1.

(** The loop of [AllocateFakeIP]: the address found, [None] when the search is
    back at its start, and the new position.  [fuel] bounds the rounds. *)
Fixpoint search (fuel : nat) (used : gmap Addr Addr) (start next : Z) : option (option Z * Z) :=
  match fuel with
  | O => None
  | S f =>
      let current := next in
      let next := advance next in
      match used !! Addr4 current with
      | None => Some (Some current, next)
      | Some _ => if next =? start then Some (None, next) else search f used start next
      end
  end.

(** One round more than there are used addresses. *)
Definition search_fuel (m : Manager) : nat := S (size (fakeToReal m)).

(** The manager after the call and the result; [Panic] would be a loop that does
    not end. *)
Definition AllocateFakeIP (m : Manager) (realIP : Addr) : total (Manager * (Addr + fakeErr)) :=
  if negb (Is4 realIP) then Ok (m, inr errOnlyIPv4)
  else
    match allocated m !! realIP with
    | Some fakeIP => Ok (m, inl fakeIP)
    | None =>
        match search (search_fuel m) (fakeToReal m) (nextIP m) (nextIP m) with
        | Some (Some ip, next) =>
            Ok (mkFake next (<[realIP := Addr4 ip]> (allocated m)) (<[Addr4 ip := realIP]> (fakeToReal m)),
                inl (Addr4 ip))
        | Some (None, next) => Ok (mkFake next (allocated m) (fakeToReal m), inr errExhausted)
        | None => Panic
        end
    end.

Definition GetFakeIP (m : Manager) (realIP : Addr) : option Addr := allocated m !! realIP.

Definition GetRealIP (m : Manager) (fakeIP : Addr) : option Addr := fakeToReal m !! fakeIP.

(** 240.0.0.0/8 *)
Definition GetFakeIPBlock : Prefix := mkPrefix (Addr4 0xF0000000) 8.

(** ** The block as a cycle *)

Definition in_block (ip : Z) : Prop := baseIP ≤ ip ≤ maxIP.

Definition block_size : Z := maxIP - baseIP + 1.

(** The [k]-th address after [start]. *)
Definition nth_ip (start : Z) (k : nat) : Z := baseIP + (start - baseIP + Z.of_nat k) mod block_size.

Lemma nth_ip_0 start : in_block start → nth_ip start 0 = start.
Proof. unfold in_block, nth_ip, block_size. intros H. rewrite Z.mod_small; lia. Qed.

Lemma nth_ip_block start k : in_block (nth_ip start k).
Proof.
  unfold in_block, nth_ip, block_size.
  pose proof (Z.mod_pos_bound (start - baseIP + Z.of_nat k) (maxIP - baseIP + 1) ltac:(done)). lia.
Qed.

Lemma nth_ip_S start k : nth_ip start (S k) = advance (nth_ip start k).
Proof.
  unfold nth_ip, advance, block_size, maxIP, baseIP. case_if; bool_facts; Z.to_euclidean_division_equations; lia.
Qed.

Lemma nth_ip_inj start i j :
  Z.of_nat i < block_size → Z.of_nat j < block_size → nth_ip start i = nth_ip start j → i = j.
Proof.
  unfold nth_ip, block_size, maxIP, baseIP. intros Hi Hj H. apply Nat2Z.inj.
  Z.to_euclidean_division_equations. lia.
Qed.

Lemma nth_ip_cycle start k :
  in_block start → (0 < Z.of_nat k ≤ block_size) → nth_ip start k = start ↔ Z.of_nat k = block_size.
Proof.
  unfold in_block, nth_ip, block_size, maxIP, baseIP. intros Hs Hk.
  split; intros; Z.to_euclidean_division_equations; lia.
Qed.

(** What the search finds from position [k] with the positions before [k] used. *)
Lemma search_spec used start fuel k :
  in_block start → Z.of_nat k < block_size → (size used < k + fuel)%nat →
  (∀ j, (j < k)%nat → is_Some (used !! Addr4 (nth_ip start j))) →
  ∃ r, search fuel used start (nth_ip start k) = Some r ∧ in_block r.2 ∧
    match r.1 with
    | Some ip => in_block ip ∧ used !! Addr4 ip = None
    | None => ∀ ip, in_block ip → is_Some (used !! Addr4 ip)
    end.
Proof.
  intros Hs. revert k. induction fuel as [|f IH]; intros k Hk Hf Hused.
  - exfalso. assert (k ≤ size used)%nat; [|lia].
    assert (list_to_set ((λ j, Addr4 (nth_ip start j)) <$> seq 0 k) ⊆ dom used) as Hsub.
    { intros a Ha. rewrite elem_of_list_to_set, list_elem_of_fmap in Ha. destruct Ha as (j & -> & Hj).
      apply elem_of_seq in Hj. apply elem_of_dom, Hused. lia. }
    apply subseteq_size in Hsub. rewrite size_dom in Hsub.
    rewrite size_list_to_set in Hsub; [by rewrite length_fmap, length_seq in Hsub|].
    apply NoDup_fmap_2_strong; [|apply NoDup_seq]. intros i j Hi Hj [= E].
    apply elem_of_seq in Hi, Hj. apply nth_ip_inj in E; [done|lia..].
  - cbn [search]. rewrite <-nth_ip_S. destruct (used !! Addr4 (nth_ip start k)) as [x|] eqn:E.
    + assert (∀ j, (j < S k)%nat → is_Some (used !! Addr4 (nth_ip start j))) as Hused'.
      { intros j Hj. destruct (decide (j = k)) as [->|]; [by eexists|]. apply Hused. lia. }
      destruct (Z.eqb_spec (nth_ip start (S k)) start) as [Hc|Hc].
      * eexists. split; [done|]. split; [apply nth_ip_block|]. cbn [fst]. intros ip Hip.
        apply nth_ip_cycle in Hc; [|done|lia].
        replace ip with (nth_ip start (Z.to_nat ((ip - start) mod block_size))).
        { apply Hused'. pose proof (Z.mod_pos_bound (ip - start) block_size ltac:(done)). lia. }
        unfold nth_ip. rewrite Z2Nat.id by (apply Z.mod_pos_bound; done). rewrite Zplus_mod_idemp_r.
        unfold in_block in Hip. rewrite Z.mod_small; unfold block_size; lia.
      * apply IH; [|lia|done]. assert (Z.of_nat (S k) ≠ block_size); [|lia]. intros Hb. apply Hc.
        apply nth_ip_cycle; [done|lia|done].
    + eexists. split; [done|]. split; [apply nth_ip_block|]. cbn [fst]. split; [apply nth_ip_block|done].
Qed.

(** ** The invariant and the properties *)

Record fake_ok (m : Manager) : Prop := mkFakeOk {
  fake_next : in_block (nextIP m);
  fake_inverse : ∀ r f, allocated m !! r = Some f ↔ fakeToReal m !! f = Some r;
  fake_block : ∀ r f, allocated m !! r = Some f → ∃ n, f = Addr4 n ∧ in_block n;
}.

Lemma NewManager_ok : fake_ok NewManager.
Proof. split; [done| |]; intros r f; cbn; rewrite ?lookup_empty; done. Qed.

Lemma AllocateFakeIP_ok m a :
  fake_ok m →
  ∃ m' r, AllocateFakeIP m a = Ok (m', r) ∧ fake_ok m' ∧
    match r with
    | inl f => allocated m' !! a = Some f
    | inr errOnlyIPv4 => Is4 a = false
    | inr errExhausted => ∀ ip, in_block ip → is_Some (fakeToReal m !! Addr4 ip)
    end ∧ (∀ b f, allocated m !! b = Some f → allocated m' !! b = Some f).
Proof.
  intros [Hn Hinv Hb]. unfold AllocateFakeIP. destruct (Is4 a) eqn:E4; cbn [negb].
  2: { do 2 eexists. split; [done|]. done. }
  destruct (allocated m !! a) as [f|] eqn:Ea.
  { do 2 eexists. split; [done|]. done. }
  destruct (search_spec (fakeToReal m) (nextIP m) (search_fuel m) 0 Hn) as (r & Hs & Hr1 & Hr2);
    [done|unfold search_fuel; lia|lia|].
  rewrite nth_ip_0 in Hs by done. rewrite Hs. destruct r as [[ip|] next]; cbn [fst snd] in *.
  - destruct Hr2 as [Hip Hfree]. do 2 eexists. split; [done|]. cbn [allocated].
    split; [|split; [by rewrite lookup_insert_eq|]].
    + split; cbn [nextIP allocated fakeToReal]; [done| |].
      * intros r f. rewrite !lookup_insert_Some. split.
        { intros [[<- <-]|[Hne H]]; [by left|]. right. apply Hinv in H. split; [|done]. intros <-. congruence. }
        { intros [[<- <-]|[Hne H]]; [by left|]. right. apply Hinv in H. split; [|done]. intros <-. congruence. }
      * intros r f. rewrite lookup_insert_Some. intros [[<- <-]|[_ H]]; eauto.
    + intros b f H. rewrite lookup_insert_ne; [done|]. intros <-. congruence.
  - do 2 eexists. split; [done|]. done.
Qed.

Fixpoint allocate_all (m : Manager) (l : list Addr) : total Manager :=
  match l with
  | [] => Ok m
  | a :: l => let! r := AllocateFakeIP m a in allocate_all r.1 l
  end.

Lemma allocate_all_ok m l : fake_ok m → ∃ m', allocate_all m l = Ok m' ∧ fake_ok m'.
Proof.
  revert m. induction l as [|a l IH]; intros m Hm; simpl; [eauto|].
  destruct (AllocateFakeIP_ok m a Hm) as (m1 & r & -> & Hm1 & _). cbn [obind fst]. eauto.
Qed.

(** after any sequence of allocations the search for a fake address ends; an
    IPv4 address gets an address between 240.0.0.1 and 240.255.255.254 that maps
    back to it and to no other, the same one whenever it is asked for again, and
    the request fails only when all 16777214 addresses of the block are taken. *)
Theorem fake_ip_allocation l m a :
  allocate_all NewManager l = Ok m → Is4 a = true →
  ∃ m' r, AllocateFakeIP m a = Ok (m', r) ∧
    match r with
    | inl f => (∃ n, f = Addr4 n ∧ baseIP ≤ n ≤ maxIP) ∧
        GetFakeIP m' a = Some f ∧ (∀ b, GetRealIP m' f = Some b ↔ b = a) ∧
        AllocateFakeIP m' a = Ok (m', inl f)
    | inr e => e = errExhausted ∧ ∀ ip, baseIP ≤ ip ≤ maxIP → is_Some (GetRealIP m (Addr4 ip))
    end.
Proof.
  intros Hm Ha. destruct (allocate_all_ok NewManager l NewManager_ok) as (m0 & H0 & Hok).
  rewrite Hm in H0. injection H0 as <-. destruct (AllocateFakeIP_ok m a Hok) as (m' & r & E & [Hn Hinv Hb] & Hr & _).
  exists m', r. split; [done|]. destruct r as [f|[]].
  - split; [by eapply Hb|]. split; [done|]. split.
    + intros b. unfold GetRealIP. rewrite <-Hinv. split; [|by intros ->]. intros H.
      apply Hinv in H. apply Hinv in Hr. congruence.
    + unfold AllocateFakeIP. rewrite Ha. cbn [negb]. by rewrite Hr.
  - by rewrite Ha in Hr.
  - done.
Qed.

Definition fake_example : Manager :=
  mkFake (baseIP + 1) {[Addr4 1 := Addr4 baseIP]} {[Addr4 baseIP := Addr4 1]}.

Lemma fake_ip_allocation_witness :
  ∃ m' r, AllocateFakeIP fake_example (Addr4 2) = Ok (m', r) ∧
    match r with
    | inl f => (∃ n, f = Addr4 n ∧ baseIP ≤ n ≤ maxIP) ∧
        GetFakeIP m' (Addr4 2) = Some f ∧ (∀ b, GetRealIP m' f = Some b ↔ b = Addr4 2) ∧
        AllocateFakeIP m' (Addr4 2) = Ok (m', inl f)
    | inr e => e = errExhausted ∧ ∀ ip, baseIP ≤ ip ≤ maxIP → is_Some (GetRealIP fake_example (Addr4 ip))
    end.
Proof. apply (fake_ip_allocation [Addr4 1; Addr4 1]); vm_compute; reflexivity. Defined.
