(* ===== verification/RefCounter.v ===== *)
(** * Reference counters of the route manager

    client/internal/routemanager/refcounter/refcounter.go: a counter that adds a
    key (a system route, an allowed IP) to some other system on its first
    reference and removes it on its last, with references grouped under an id.

    The functions [add] and [remove] that a counter is created with act on a
    system outside the counter.  The class [Resource] is what the counter needs
    of them: they act on a state of type [W] in which a set of keys is present,
    a successful [add] makes exactly its key present, a successful [remove]
    makes it absent, and a failure leaves the set as it is.  The theorems are
    proved against the class; [route_table] is an executable instance. *)

From S2P Require Import Prelude.

(** ** The system behind a counter *)

(** [errors.Is(err, ErrIgnore)] or another error. *)
Inductive addErr := ErrIgnore | ErrAdd (e : string).

#[global] Instance addErr_eq_dec : EqDecision addErr.
Proof. solve_decision. Defined.

Class Resource (Key In Out W : Type) `{Countable Key} := {
  add : W → Key → In → W * (Out + addErr);
  remove : W → Key → Out → W * option string;
  present : W → gset Key;
  add_ok w k i w' o : add w k i = (w', inl o) → present w' = {[k]} ∪ present w;
  add_err w k i w' e : add w k i = (w', inr e) → present w' = present w;
  remove_ok w k o w' : remove w k o = (w', None) → present w' = present w ∖ {[k]};
  remove_err w k o w' e : remove w k o = (w', Some e) → present w' = present w;
}.

Section counter.
Context {Key In Out W : Type} `{Countable Key} {R : Resource Key In Out W} (zero : Out).

(** ** The counter *)

Record Ref := mkRef { Count : Z; r_Out : Out }.

(** A nil map is [None]: reading it finds nothing, writing it panics. *)
Record Counter := mkCounter {
  refCountMap : option (gmap Key Ref);
  idMap : option (gmap string (list Key))
}.

Definition New : Counter := mkCounter (Some ∅) (Some ∅).

(** Shares the maps of the other counter. *)
Definition LoadData (rm existing : Counter) : Counter :=
  mkCounter (refCountMap existing) (idMap existing).

Definition lookup_ref (rm : Counter) (k : Key) : option Ref := m ← refCountMap rm; m !! k.

Definition Get (rm : Counter) (k : Key) : Ref * bool :=
  match lookup_ref rm k with Some r => (r, true) | None => (mkRef 0 zero, false) end.

Definition put_ref (rm : Counter) (k : Key) (r : Ref) : total Counter :=
  match refCountMap rm with
  | Some m => Ok (mkCounter (Some (<[k := r]> m)) (idMap rm))
  | None => Panic
  end.

Definition increment (w : W) (rm : Counter) (k : Key) (i : In) : total (W * Counter * Ref * option addErr) :=
  let ref := (Get rm k).1 in
  if Count ref =? 0 then
    match add w k i with
    | (w', inr ErrIgnore) => Ok (w', rm, ref, None)
    | (w', inr e) => Ok (w', rm, ref, Some e)
    | (w', inl out) =>
        let ref' := mkRef (Count ref + 1) out in
        (let! rm' := put_ref rm k ref' in Ok (w', rm', ref', None))%go
    end
  else
    let ref' := mkRef (Count ref + 1) (r_Out ref) in
    (let! rm' := put_ref rm k ref' in Ok (w, rm', ref', None))%go.

Definition Increment := increment.

Definition add_id (rm : Counter) (id : string) (k : Key) : total Counter :=
  match idMap rm with
  | Some m => Ok (mkCounter (refCountMap rm) (Some (<[id := default [] (m !! id) ++ [k]]> m)))
  | None => Panic
  end.

Definition IncrementWithID (w : W) (rm : Counter) (id : string) (k : Key) (i : In) :
    total (W * Counter * Ref * option addErr) :=
  (let! (w', rm', ref, err) := increment w rm k i in
   match err with
   | Some e => Ok (w', rm', ref, Some e)
   | None => let! rm2 := add_id rm' id k in Ok (w', rm2, ref, None)
   end)%go.

Definition decrement (w : W) (rm : Counter) (k : Key) : W * Counter * Ref * option string :=
  match refCountMap rm with
  | None => (w, rm, mkRef 0 zero, None)
  | Some m =>
      match m !! k with
      | None => (w, rm, mkRef 0 zero, None)
      | Some ref =>
          if Count ref =? 1 then
            match remove w k (r_Out ref) with
            | (w', Some e) => (w', rm, ref, Some e)
            | (w', None) => (w', mkCounter (Some (delete k m)) (idMap rm), ref, None)
            end
          else
            let ref' := mkRef (Count ref - 1) (r_Out ref) in
            (w, mkCounter (Some (<[k := ref']> m)) (idMap rm), ref', None)
      end
  end.

Definition Decrement := decrement.

(** The loop of [DecrementWithID], collecting the errors. *)
Fixpoint decrement_all (w : W) (rm : Counter) (ks : list Key) : W * Counter * list string :=
  match ks with
  | [] => (w, rm, [])
  | k :: ks =>
      let '(w', rm', _, err) := decrement w rm k in
      let '(w2, rm2, errs) := decrement_all w' rm' ks in
      (w2, rm2, option_list err ++ errs)
  end.

Definition DecrementWithID (w : W) (rm : Counter) (id : string) : W * Counter * list string :=
  let keys := match idMap rm with Some m => default [] (m !! id) | None => [] end in
  let '(w', rm', errs) := decrement_all w rm keys in
  (w', mkCounter (refCountMap rm') (delete id <$> idMap rm'), errs).

Fixpoint remove_all (w : W) (l : list (Key * Ref)) : W * list string :=
  match l with
  | [] => (w, [])
  | (k, ref) :: l =>
      let '(w', err) := remove w k (r_Out ref) in
      let '(w2, errs) := remove_all w' l in (w2, option_list err ++ errs)
  end.

(** [clear] of a map keeps a nil map nil. *)
Definition Clear (rm : Counter) : Counter :=
  mkCounter ((λ _, ∅) <$> refCountMap rm) ((λ _, ∅) <$> idMap rm).

Definition Flush (w : W) (rm : Counter) : W * Counter * list string :=
  let '(w', errs) := remove_all w (map_to_list (default ∅ (refCountMap rm))) in
  (w', Clear rm, errs).

(** [json] is the decoded document: a missing or null member is a nil map.  The
    maps made for nil members are stored in the local variable only. *)
Definition UnmarshalJSON (rm : Counter) (json : option (option (gmap Key Ref) * option (gmap string (list Key)))) :
    Counter * bool :=
  match json with
  | None => (rm, false)
  | Some (refs, ids) => (mkCounter refs ids, true)
  end.

Definition MarshalJSON (rm : Counter) : option (gmap Key Ref) * option (gmap string (list Key)) :=
  (refCountMap rm, idMap rm).

(** ** What a counter promises *)

(** The references that ids hold, all together. *)
Definition held (ids : gmap string (list Key)) : list Key := (map_to_list ids) ≫= snd.

Definition occ (k : Key) (l : list Key) : Z := Z.of_nat (length (filter (k =.) l)).

Definition count_of (refs : gmap Key Ref) (k : Key) : Z := default 0 (Count <$> refs !! k).

(** The counters [refs] count exactly the references in [l], and exactly the
    counted keys are present in the system. *)
Definition refs_ok (w : W) (refs : gmap Key Ref) (l : list Key) : Prop :=
  (∀ k, count_of refs k = occ k l) ∧ (∀ k r, refs !! k = Some r → 0 < Count r) ∧ present w = dom refs.

(** [extra] are the references that no id holds, taken with [Increment]. *)
Definition counter_ok (s : W * Counter * list Key) : Prop :=
  ∃ refs ids, s.1.2 = mkCounter (Some refs) (Some ids) ∧ refs_ok s.1.1 refs (held ids ++ s.2).

(** A call on a counter.  A caller decrements a key only after incrementing it:
    the references it has taken so far are part of the state. *)
Inductive counter_op :=
| OpIncID (id : string) (k : Key) (i : In)
| OpInc (k : Key) (i : In)
| OpDecID (id : string)
| OpDec (k : Key)
| OpFlush.

Fixpoint drop_one (k : Key) (l : list Key) : option (list Key) :=
  match l with
  | [] => None
  | x :: l => if bool_decide (x = k) then Some l else cons x <$> drop_one k l
  end.

Definition run_op (s : W * Counter * list Key) (o : counter_op) : total (W * Counter * list Key) :=
  let '(w, rm, extra) := s in
  match o with
  | OpIncID id k i => (let! (w', rm', _, _) := IncrementWithID w rm id k i in Ok (w', rm', extra))%go
  | OpInc k i => (let! (w', rm', _, err) := Increment w rm k i in
      Ok (w', rm', if err is Some _ then extra else k :: extra))%go
  | OpDecID id => let '(w', rm', _) := DecrementWithID w rm id in Ok (w', rm', extra)
  | OpDec k =>
      match drop_one k extra with
      | Some extra' => let '(w', rm', _, _) := Decrement w rm k in Ok (w', rm', extra')
      | None => Ok s
      end
  | OpFlush => let '(w', rm', _) := Flush w rm in Ok (w', rm', [])
  end.

Fixpoint run_ops (s : W * Counter * list Key) (os : list counter_op) : total (W * Counter * list Key) :=
  match os with [] => Ok s | o :: os => (let! s' := run_op s o in run_ops s' os)%go end.

(** ** Counting lemmas *)

Lemma occ_app k l1 l2 : occ k (l1 ++ l2) = occ k l1 + occ k l2.
Proof. unfold occ. rewrite filter_app, length_app. lia. Qed.

Lemma occ_cons k x l : occ k (x :: l) = (if bool_decide (k = x) then 1 else 0) + occ k l.
Proof. unfold occ. rewrite filter_cons. case_bool_decide; case_decide; simpl; try done; lia. Qed.

Lemma occ_perm k l1 l2 : l1 ≡ₚ l2 → occ k l1 = occ k l2.
Proof. unfold occ. intros Hp. by rewrite Hp. Qed.

Lemma occ_pos k l : 0 < occ k l ↔ k ∈ l.
Proof.
  induction l as [|x l IH]; [unfold occ; set_solver by lia|].
  rewrite occ_cons, elem_of_cons. unfold occ in *. case_bool_decide; naive_solver lia.
Qed.

Lemma occ_nonneg k l : 0 ≤ occ k l.
Proof. unfold occ. lia. Qed.

Lemma held_delete ids id : held ids ≡ₚ default [] (ids !! id) ++ held (delete id ids).
Proof.
  unfold held. destruct (ids !! id) as [l|] eqn:E; simpl.
  - by rewrite <- (map_to_list_delete ids id l E).
  - by rewrite delete_id.
Qed.

Lemma held_append ids id k : held (<[id := default [] (ids !! id) ++ [k]]> ids) ≡ₚ k :: held ids.
Proof.
  rewrite (held_delete (<[id := _]> ids) id), lookup_insert_eq, delete_insert_eq. simpl.
  rewrite (held_delete ids id), <- app_assoc. simpl. symmetry. apply Permutation_middle.
Qed.

Lemma refs_ok_perm w refs l1 l2 : l1 ≡ₚ l2 → refs_ok w refs l1 → refs_ok w refs l2.
Proof. intros Hp (Hc & Hq). split; [intros k; by rewrite Hc, (occ_perm k l1 l2)|done]. Qed.

Lemma refs_present w refs l k : refs_ok w refs l → k ∈ present w ↔ k ∈ l.
Proof.
  intros (Hc & Hp & ->). rewrite <- occ_pos, <- Hc, elem_of_dom. unfold count_of.
  destruct (refs !! k) as [r|] eqn:E; simpl; [|split; [by intros []|lia]].
  specialize (Hp k r E). split; [done|eauto].
Qed.

Lemma drop_one_perm k l l' : drop_one k l = Some l' → l ≡ₚ k :: l'.
Proof.
  revert l'. induction l as [|x l IH]; intros l'; simpl; [done|].
  case_bool_decide as Hx; [by intros [= ->]; subst|].
  destruct (drop_one k l) as [l2|] eqn:E; simpl; [|done]. intros [= <-].
  rewrite (IH l2 eq_refl). apply Permutation_swap.
Qed.

(** ** One reference more or less *)

Lemma refs_ok_update w w' refs l l' k r :
  refs_ok w refs l → 0 < Count r → Count r = occ k l' → (∀ k', k' ≠ k → occ k' l' = occ k' l) →
  present w' = {[k]} ∪ present w → refs_ok w' (<[k := r]> refs) l'.
Proof.
  intros (Hc & Hp & Hd) Hr Ho Hother Hw. split_and!.
  - intros k'. unfold count_of. destruct (decide (k' = k)) as [->|Hne].
    + by rewrite lookup_insert_eq.
    + rewrite lookup_insert_ne by done. rewrite Hother by done. apply Hc.
  - intros k' r'. rewrite lookup_insert_Some. naive_solver.
  - rewrite Hw, Hd, dom_insert_L. done.
Qed.

Lemma refs_ok_remove w w' refs l k :
  refs_ok w refs (k :: l) → occ k l = 0 → present w' = present w ∖ {[k]} → refs_ok w' (delete k refs) l.
Proof.
  intros (Hc & Hp & Hd) Ho Hw. split_and!.
  - intros k'. unfold count_of. destruct (decide (k' = k)) as [->|Hne].
    + by rewrite lookup_delete_eq, Ho.
    + rewrite lookup_delete_ne by done. specialize (Hc k'). unfold count_of in Hc.
      rewrite Hc, occ_cons, bool_decide_false; [lia|done].
  - intros k' r'. rewrite lookup_delete_Some. naive_solver.
  - rewrite Hw, Hd, dom_delete_L. done.
Qed.

(** A counted key has a positive counter, an uncounted one none. *)
Lemma refs_ok_lookup w refs l k : refs_ok w refs l →
  match refs !! k with Some r => Count r = occ k l ∧ 0 < Count r | None => occ k l = 0 end.
Proof.
  intros (Hc & Hp & _). specialize (Hc k). unfold count_of in Hc.
  destruct (refs !! k) as [r|] eqn:E; simpl in Hc; [|done]. split; [done|by eapply Hp].
Qed.

Section sound.
Hypothesis add_counts : ∀ w k i w', add w k i ≠ (w', inr ErrIgnore).
Hypothesis remove_succeeds : ∀ w k o w' e, remove w k o ≠ (w', Some e).

Lemma increment_ok w refs ids l k i : refs_ok w refs l →
  ∃ w' refs' r err, increment w (mkCounter (Some refs) ids) k i = Ok (w', mkCounter (Some refs') ids, r, err) ∧
    refs_ok w' refs' (if err is Some _ then l else k :: l).
Proof.
  intros Hok. unfold increment, Get, lookup_ref, put_ref. simpl.
  pose proof (refs_ok_lookup w refs l k Hok) as Hk.
  assert (occ k (k :: l) = 1 + occ k l) as Hkk by (rewrite occ_cons, bool_decide_true; done).
  assert (∀ k', k' ≠ k → occ k' (k :: l) = occ k' l) as Hother
    by (intros k' Hne; rewrite occ_cons, bool_decide_false; [lia|done]).
  destruct (refs !! k) as [r|] eqn:E; simpl.
  - destruct Hk as (Ho & Hpos). destruct (Z.eqb_spec (Count r) 0) as [|_]; [lia|].
    eexists _, _, _, None. split; [reflexivity|]. eapply refs_ok_update; simpl; try done; try lia.
    assert (k ∈ present w) by (apply (refs_present _ _ _ _ Hok), occ_pos; lia). set_solver.
  - destruct (add w k i) as [w' [o|e]] eqn:Ea.
    + eexists _, _, _, None. split; [reflexivity|].
      eapply refs_ok_update; simpl; try done; try lia. by eapply add_ok.
    + destruct e as [|e]; [by destruct (add_counts w k i w')|].
      eexists _, _, _, (Some _). split; [reflexivity|].
      destruct Hok as (? & ? & Hd). split_and!; [done..|]. by rewrite (add_err _ _ _ _ _ Ea).
Qed.

Lemma decrement_ok w refs ids l k : refs_ok w refs (k :: l) →
  ∃ w' refs' r, decrement w (mkCounter (Some refs) ids) k = (w', mkCounter (Some refs') ids, r, None) ∧
    refs_ok w' refs' l.
Proof.
  intros Hok. unfold decrement. simpl. pose proof (refs_ok_lookup w refs (k :: l) k Hok) as Hk.
  pose proof (occ_nonneg k l).
  assert (occ k (k :: l) = 1 + occ k l) as Hkk by (rewrite occ_cons, bool_decide_true; done).
  destruct (refs !! k) as [r|] eqn:E; [|lia]. destruct Hk as (Ho & Hpos).
  destruct (Z.eqb_spec (Count r) 1) as [H1|H1].
  - destruct (remove w k (r_Out r)) as [w' [e|]] eqn:Er; [by destruct (remove_succeeds _ _ _ _ _ Er)|].
    do 3 eexists. split; [reflexivity|]. eapply refs_ok_remove; [done|lia|]. by eapply remove_ok.
  - do 3 eexists. split; [reflexivity|]. eapply refs_ok_update; simpl; [done|lia|lia| |].
    + intros k' Hne. rewrite occ_cons, bool_decide_false; [lia|done].
    + assert (k ∈ present w) by (apply (refs_present _ _ _ _ Hok); set_solver). set_solver.
Qed.

Lemma decrement_all_ok ks w refs ids l : refs_ok w refs (ks ++ l) →
  ∃ w' refs', decrement_all w (mkCounter (Some refs) ids) ks = (w', mkCounter (Some refs') ids, []) ∧
    refs_ok w' refs' l.
Proof.
  revert w refs. induction ks as [|k ks IH]; intros w refs Hok; simpl in *; [by eauto|].
  destruct (decrement_ok w refs ids (ks ++ l) k Hok) as (w1 & refs1 & r & -> & Hok1).
  destruct (IH w1 refs1 Hok1) as (w2 & refs2 & -> & Hok2). eauto.
Qed.

Lemma remove_all_ok l w : ∃ w', remove_all w l = (w', []) ∧ present w' = present w ∖ list_to_set l.*1.
Proof.
  revert w. induction l as [|[k r] l IH]; intros w; simpl; [exists w; set_solver|].
  destruct (remove w k (r_Out r)) as [w1 [e|]] eqn:Er; [by destruct (remove_succeeds _ _ _ _ _ Er)|].
  destruct (IH w1) as (w2 & -> & Hw2). exists w2. split; [done|].
  rewrite Hw2, (remove_ok _ _ _ _ Er). set_solver.
Qed.

Lemma flush_ok w refs ids l : refs_ok w refs l →
  ∃ w', Flush w (mkCounter (Some refs) (Some ids)) = (w', New, []) ∧ refs_ok w' ∅ [].
Proof.
  intros (_ & _ & Hd). unfold Flush. simpl. destruct (remove_all_ok (map_to_list refs) w) as (w' & -> & Hw).
  exists w'. split; [done|]. split_and!; [done|set_solver|].
  rewrite Hw, Hd, dom_empty_L. apply elem_of_equiv_empty_L. intros k.
  rewrite elem_of_difference, elem_of_dom, elem_of_list_to_set, list_elem_of_fmap. intros [[r Hr] Hn].
  apply Hn. exists (k, r). split; [done|]. by apply elem_of_map_to_list.
Qed.

Lemma counter_op_ok s o : counter_ok s → ∃ s', run_op s o = Ok s' ∧ counter_ok s'.
Proof.
  destruct s as [[w rm] extra]. intros (refs & ids & Hrm & Hok). simpl in *. subst rm. destruct o as [id k i|k i|id|k|].
  - unfold IncrementWithID. destruct (increment_ok w refs (Some ids) _ k i Hok) as (w' & refs' & r & err & -> & Hok').
    simpl. destruct err as [e|]; simpl; (eexists; split; [done|]).
    + by exists refs', ids.
    + eexists refs', _. split; [done|]. simpl. eapply refs_ok_perm, Hok'. by rewrite held_append.
  - unfold Increment. destruct (increment_ok w refs (Some ids) _ k i Hok) as (w' & refs' & r & err & -> & Hok').
    simpl. eexists; split; [done|]. exists refs', ids. split; [done|]. simpl. destruct err; [done|].
    eapply refs_ok_perm, Hok'. apply Permutation_middle.
  - unfold DecrementWithID. simpl.
    destruct (decrement_all_ok (default [] (ids !! id)) w refs (Some ids) (held (delete id ids) ++ extra))
      as (w' & refs' & -> & Hok').
    { eapply refs_ok_perm, Hok. by rewrite (held_delete ids id), app_assoc. }
    eexists; split; [done|]. by eexists refs', _.
  - destruct (drop_one k extra) as [extra'|] eqn:E; [|by eexists; split; [done|]; eexists refs, ids].
    unfold Decrement. destruct (decrement_ok w refs (Some ids) (held ids ++ extra') k) as (w' & refs' & r & -> & Hok').
    { eapply refs_ok_perm, Hok. rewrite (drop_one_perm _ _ _ E). symmetry. apply Permutation_middle. }
    eexists; split; [done|]. by exists refs', ids.
  - destruct (flush_ok w refs ids _ Hok) as (w' & -> & Hok'). eexists; split; [done|]. by exists ∅, ∅.
Qed.

Lemma counter_ops_ok os s : counter_ok s → ∃ s', run_ops s os = Ok s' ∧ counter_ok s'.
Proof.
  revert s. induction os as [|o os IH]; intros s Hs; simpl; [by eauto|].
  destruct (counter_op_ok s o Hs) as (s' & -> & Hs'). simpl. by apply IH.
Qed.

End sound.

End counter.

(** ** A system of routes

    An executable instance: the routes that are set, the outcomes of the next
    calls of [add] and those of the next calls of [remove], which succeed when
    nothing is left to say. *)

Record routes := mkRoutes { rt_set : gset string; rt_add : list (option addErr); rt_remove : list (option string) }.

Definition route_add (w : routes) (k : string) (i : unit) : routes * (unit + addErr) :=
  match rt_add w with
  | Some e :: l => (mkRoutes (rt_set w) l (rt_remove w), inr e)
  | l => (mkRoutes ({[k]} ∪ rt_set w) (tail l) (rt_remove w), inl tt)
  end.

Definition route_remove (w : routes) (k : string) (o : unit) : routes * option string :=
  match rt_remove w with
  | Some e :: l => (mkRoutes (rt_set w) (rt_add w) l, Some e)
  | l => (mkRoutes (rt_set w ∖ {[k]}) (rt_add w) (tail l), None)
  end.

#[global] Program Instance route_table : Resource string unit unit routes :=
  {| add := route_add; remove := route_remove; present := rt_set |}.
Next Obligation. intros [s [|[e|] l] r] k i w' o; unfold route_add; simpl; naive_solver. Qed.
Next Obligation. intros [s [|[e'|] l] r] k i w' e; unfold route_add; simpl; naive_solver. Qed.
Next Obligation. intros [s a [|[e|] l]] k o w'; unfold route_remove; simpl; naive_solver. Qed.
Next Obligation. intros [s a [|[e'|] l]] k o w' e; unfold route_remove; simpl; naive_solver. Qed.

(** A table whose calls always succeed. *)
#[global] Program Instance safe_table : Resource string unit unit (gset string) :=
  {| add s k _ := ({[k]} ∪ s, inl tt); remove s k _ := (s ∖ {[k]}, None); present := id |}.
Solve Obligations with (simpl; intros; naive_solver).

(** Two ids take the same route and one releases it. *)
Definition two_ids : list (counter_op (Key:=string) (In:=unit)) :=
  [OpIncID "a" "10.0.0.0/8" tt; OpIncID "b" "10.0.0.0/8" tt; OpDecID "a"]%string.

(** ** The claims *)

(** C36: whatever references are taken and released, singly or under an id, and
    however often the counter is flushed, no call panics and a key is present in
    the system behind the counter exactly while a reference to it is held: each
    counter is the number of references, the first reference adds the key and
    the last release removes it, provided that adding never asks to be ignored
    and removing does not fail. *)
Theorem refcount_exact {Key In Out W} `{Countable Key} {R : Resource Key In Out W} (zero : Out) w os :
  (∀ w k i w', add w k i ≠ (w', inr ErrIgnore)) → (∀ w k o w' e, remove w k o ≠ (w', Some e)) →
  present w = ∅ →
  ∃ w' refs ids extra, run_ops zero (w, New, []) os = Ok (w', mkCounter (Some refs) (Some ids), extra) ∧
    (∀ k, (Get zero (mkCounter (Some refs) (Some ids)) k).1.(Count) = occ k (held ids ++ extra)) ∧
    (∀ k, k ∈ present w' ↔ k ∈ held ids ++ extra).
Proof.
  intros Ha Hr Hw. destruct (counter_ops_ok zero Ha Hr os (w, New, [])) as (s & Hs & Hok).
  { exists ∅, ∅. split; [done|]. simpl. split_and!; [done|set_solver|]. by rewrite Hw, dom_empty_L. }
  destruct s as [[w' rm] extra], Hok as (refs & ids & Hrm & Hok). simpl in *. subst rm.
  exists w', refs, ids, extra. split_and!; [done| |intros k; by eapply refs_present].
  intros k. destruct Hok as (Hc & _). specialize (Hc k). unfold Get, lookup_ref, count_of in *. simpl.
  by destruct (refs !! k).
Qed.

Lemma refcount_exact_witness : ∃ w' refs ids extra,
  run_ops (W:=gset string) tt (∅, New, []) two_ids = Ok (w', mkCounter (Some refs) (Some ids), extra) ∧
  (∀ k, (Get tt (mkCounter (Some refs) (Some ids)) k).1.(Count) = occ k (held ids ++ extra)) ∧
  (∀ k, k ∈ present w' ↔ k ∈ held ids ++ extra).
Proof. apply (refcount_exact (W:=gset string) tt ∅ two_ids); [done|done|reflexivity]. Defined.

(** What is left of a run: the routes that are set and the keys each id holds. *)
Definition after (w : routes) (os : list counter_op) : option (gset string * gmap string (list string)) :=
  match run_ops tt (w, New, []) os with
  | Ok (w', rm, _) => ids ← idMap rm; Some (rt_set w', ids)
  | _ => None
  end.

(** where the conditions of [refcount_exact] fail.  A key whose [add] asks to
    be ignored is still recorded under its id: when another id has added it since
    then, releasing the first id removes the route the second one holds.  When
    [remove] fails, the id is forgotten all the same: the route stays with a
    count of one that no id can release.  And a counter restored from a document
    without the two maps panics on its first increment, since the maps made for
    them are stored in a local variable. *)
Theorem refcount_defects :
  after (mkRoutes ∅ [Some ErrIgnore] []) two_ids =
    Some (∅, {[ "b"%string := ["10.0.0.0/8"%string] ]}) ∧
  after (mkRoutes ∅ [] [Some "busy"%string]) [OpIncID "a" "10.0.0.0/8" tt; OpDecID "a"]%string =
    Some ({["10.0.0.0/8"%string]}, ∅) ∧
  ∀ w : routes, IncrementWithID tt w (UnmarshalJSON New (Some (None, None))).1 "a" "10.0.0.0/8" tt = Panic ∨
    ∃ e, (route_add w "10.0.0.0/8" tt).2 = inr e.
Proof.
  split_and!; [by vm_compute|by vm_compute|].
  intros [s [|[e|] l] r]; unfold IncrementWithID, increment; simpl; [by left|right; by exists e|by left].
Qed.
