(* ===== verification/FirewallRules.v ===== *)
(** * Rules of the userspace firewall

    The rule tables of [client/firewall/uspfilter]: rule.go and the rule
    operations of filter.go (peer rules, route rules, destination sets, the
    routing mode and the evaluation of both access lists), the rule types of
    [client/firewall/manager] and the route rule key of [client/internal/acl/id].
    Route rules are pointers in the code; the slice owns them and the key map
    only serves to find them again, so the slice holds the rules and the map its
    keys.  Calls that are delegated to the native firewall return [RDelegated].

    The theorems: the route rules stay sorted with unique keys under every
    operation, a routed packet passes exactly when an accept rule and no drop
    rule matches, a local packet exactly when no drop rule of its source and some
    accept rule matches; drop rules for all sources are never consulted, and a
    set update can lose prefixes. *)

From stdpp Require Import base list gmap strings sorting.
From S2P Require Import Prelude GoStd GoStrings NetIP FirewallNAT.

#[local] Open Scope go_scope.

(** ** Sorting with a comparison function *)

Section Sort.
Context {A : Type} (cmp : A → A → Z).

Fixpoint insert_by (x : A) (l : list A) : list A :=
  match l with
  | [] => [x]
  | y :: l' => if cmp x y <=? 0 then x :: l else y :: insert_by x l'
  end.

(** A stable sort; [slices.SortStableFunc] has one result only. *)
Definition sort_by (l : list A) : list A := foldr insert_by [] l.

Lemma insert_by_perm x l : insert_by x l ≡ₚ x :: l.
Proof. induction l as [|y l IH]; simpl; [done|]. case_if; [done|]. rewrite IH. apply Permutation_swap. Qed.

Lemma sort_by_perm l : sort_by l ≡ₚ l.
Proof. induction l as [|x l IH]; simpl; [done|]. by rewrite insert_by_perm, IH. Qed.

Context (R : relation A) `{!Transitive R}.
Context (cmp_le : ∀ x y, cmp x y ≤ 0 → R x y) (cmp_gt : ∀ x y, 0 < cmp x y → R y x).

Lemma insert_by_sorted x l : StronglySorted R l → StronglySorted R (insert_by x l).
Proof using Type*.
  induction 1 as [|y l Hl IH Hy]; simpl; [repeat constructor|]. case_if; bool_facts.
  - constructor; [by constructor|]. constructor; [auto|]. eapply Forall_impl; [exact Hy|]. intros z. simpl.
    intros. etrans; [by apply cmp_le|done].
  - constructor; [done|]. rewrite insert_by_perm. constructor; [by apply cmp_gt|done].
Qed.

Lemma sort_by_sorted l : StronglySorted R (sort_by l).
Proof using Type*. induction l; simpl; [constructor|]. by apply insert_by_sorted. Qed.
End Sort.

(** [strings.Compare] on byte strings. *)
Fixpoint bytes_Compare (s t : bytes) : Z :=
  match s, t with
  | [], [] => 0
  | [], _ => -1
  | _, [] => 1
  | a :: s, b :: t =>
      if byte_to_Z a <? byte_to_Z b then -1 else if byte_to_Z b <? byte_to_Z a then 1 else bytes_Compare s t
  end.

(** ** client/firewall/manager *)

Inductive Action := ActionAccept | ActionDrop.

#[global] Instance Action_eq_dec : EqDecision Action.
Proof. solve_decision. Defined.

Record Port := mkPort { IsRange : bool; Values : list Z }.

#[global] Instance Port_eq_dec : EqDecision Port.
Proof. solve_decision. Defined.

Inductive portErr := errNoPort | errInvalidPort (p : Z).

(** [NewPort]: more than one port makes a range. *)
Definition NewPort (ports : list Z) : outcome portErr Port :=
  match ports with
  | [] => Err errNoPort
  | _ =>
      match List.find (λ p, (p <? 1) || (65535 <? p)) ports with
      | Some p => Err (errInvalidPort p)
      | None => Ok (mkPort (bool_decide (1 < length ports)%nat) (u16 <$> ports))
      end
  end.

(** [Port.String] *)
Definition Port_String (p : Port) : bytes :=
  (if IsRange p then str "range:" else []) ++ Join (str ",") (FormatInt <$> Values p).

(** [Set]: a truncated hash and a comment. *)
Record FwSet := mkSet { set_hash : bytes; set_comment : bytes }.

#[global] Instance FwSet_eq_dec : EqDecision FwSet.
Proof. solve_decision. Defined.

Definition zero_set : FwSet := mkSet (go_make 4) [].

Definition HashedName (s : FwSet) : bytes := str "nb-" ++ hex_encode (set_hash s).

Record Network := mkNetwork { net_Set : FwSet; net_Prefix : Prefix }.

Definition IsSet (n : Network) : bool := negb (bool_decide (net_Set n = zero_set)).

Definition IsPrefix (n : Network) : bool := Prefix_IsValid (net_Prefix n).

(** [SortPrefixes]: by address, then the longer prefix first. *)
Definition prefix_cmp (p q : Prefix) : Z :=
  let c := Addr_Compare (pf_addr p) (pf_addr q) in
  if c =? 0 then Z_compare (pf_bits q) (pf_bits p) else c.

Definition SortPrefixes (l : list Prefix) : list Prefix := sort_by prefix_cmp l.

(** [MergeIPRanges]; [merged] is the result so far, last element first. *)
Fixpoint merge_ranges (merged : list Prefix) (l : list Prefix) : list Prefix :=
  match l with
  | [] => reverse merged
  | prefix :: l =>
      match merged with
      | [] => merge_ranges [prefix] l
      | last :: rest =>
          if Contains last (pf_addr prefix) then merge_ranges merged l
          else if Contains prefix (pf_addr last) then merge_ranges (prefix :: rest) l
          else merge_ranges (prefix :: merged) l
      end
  end.

Definition MergeIPRanges (prefixes : list Prefix) : list Prefix :=
  match prefixes with
  | [] => []
  | p :: l => merge_ranges [p] l
  end.

(** ** client/internal/acl/id *)

Definition FwProtocol_String (p : FwProtocol) : bytes :=
  match p with
  | ProtocolTCP => str "tcp"
  | ProtocolUDP => str "udp"
  | ProtocolICMP => str "icmp"
  | ProtocolALL => str "all"
  | ProtocolUnknownName s => string_to_bytes s
  end.

Definition Action_int (a : Action) : Z := match a with ActionAccept => 0 | ActionDrop => 1 end.

Definition opt_port_string (p : option Port) : bytes :=
  match p with Some p => Port_String p | None => str "<nil>" end.

(** [netip.Addr.String]: dotted decimal, or the eight groups of an IPv6 address
    with the first longest run of at least two zero groups left out. *)
Definition ipv4_String (n : Z) : bytes :=
  Join (str ".") ((λ b, FormatInt (byte_to_Z b)) <$> be_bytes 4 n).

(** A group in hexadecimal without leading zeros. *)
Definition hex_group (v : Z) : bytes :=
  let digits := [v / 4096; v / 256 mod 16; v / 16 mod 16; v mod 16] in
  hex_digit <$> (if v <? 16 then drop 3 digits else if v <? 256 then drop 2 digits
                 else if v <? 4096 then drop 1 digits else digits).

Definition ipv6_groups (n : Z) : list Z :=
  (λ i, Z.shiftr n (16 * (7 - Z.of_nat i)) mod 65536) <$> seq 0 8.

Fixpoint zero_run (l : list Z) : nat :=
  match l with
  | 0 :: l => S (zero_run l)
  | _ => 0%nat
  end.

(** Start and end of the run, [(255, 255)] without one. *)
Definition best_run (gs : list Z) : nat * nat :=
  foldl (λ best i, let l := zero_run (drop i gs) in
                   if bool_decide (2 ≤ l ∧ best.2 - best.1 < l)%nat then (i, i + l)%nat else best)
    (255, 255)%nat (seq 0 8).

Definition ipv6_String (n : Z) : bytes :=
  let gs := ipv6_groups n in
  let '(a, b) := best_run gs in
  if bool_decide (a < 8)%nat
  then Join (str ":") (hex_group <$> take a gs) ++ str "::" ++ Join (str ":") (hex_group <$> drop b gs)
  else Join (str ":") (hex_group <$> gs).

Definition Addr_String (a : Addr) : bytes :=
  match a with
  | AddrZero => str "invalid IP"
  | Addr4 n => ipv4_String n
  | Addr6 n z =>
      (if Is4In6 a then str "::ffff:" ++ ipv4_String (n mod 2 ^ 32) else ipv6_String n) ++
      (if bool_decide (z = ""%string) then [] else str "%" ++ string_to_bytes z)
  end.

(** [netip.Prefix.String] *)
Definition prefix_String (p : Prefix) : bytes :=
  if Prefix_IsValid p then Addr_String (pf_addr p) ++ str "/" ++ FormatInt (pf_bits p)
  else str "invalid Prefix".

(** [Network.String] *)
Definition Network_String (n : Network) : bytes :=
  if Prefix_IsValid (net_Prefix n) then prefix_String (net_Prefix n)
  else if IsSet n then HashedName (net_Set n)
  else str "<invalid network>".

(** The bytes that are hashed, over the sorted sources. *)
Definition rule_key_input (sources : list Prefix) (destination : Network) (proto : FwProtocol)
    (sPort dPort : option Port) (action : Action) : bytes :=
  str "sources:" ++ flat_map (λ s, prefix_String s ++ str ",") sources ++
  str "destination:" ++ Network_String destination ++
  str "proto:" ++ FwProtocol_String proto ++
  str "sPort:" ++ opt_port_string sPort ++
  str "dPort:" ++ opt_port_string dPort ++
  str "action:" ++ FormatInt (Action_int action).

Definition GenerateRouteRuleKey (sources : list Prefix) (destination : Network) (proto : FwProtocol)
    (sPort dPort : option Port) (action : Action) : bytes :=
  let sources := SortPrefixes sources in
  let hash := hex_encode (sha256 (rule_key_input sources destination proto sPort dPort action)) in
  Network_String destination ++ str "-" ++ take 16 hash.

(** ** rule.go *)

Record PeerRule := mkPeerRule {
  pe_id : bytes;
  pe_mgmtId : bytes;
  pe_ip : Addr;
  pe_ipLayer : LayerType;
  pe_matchByIP : bool;
  pe_protoLayer : LayerType;
  pe_sPort : option Port;
  pe_dPort : option Port;
  pe_drop : bool;
}.

#[global] Instance PeerRule_eq_dec : EqDecision PeerRule.
Proof. solve_decision. Defined.

Record RouteRule := mkRouteRule {
  rr_id : bytes;
  rr_mgmtId : bytes;
  rr_sources : list Prefix;
  rr_dstSet : FwSet;
  rr_destinations : list Prefix;
  rr_protoLayer : LayerType;
  rr_srcPort : option Port;
  rr_dstPort : option Port;
  rr_action : Action;
}.

Definition set_destinations (r : RouteRule) (d : list Prefix) : RouteRule :=
  mkRouteRule (rr_id r) (rr_mgmtId r) (rr_sources r) (rr_dstSet r) d (rr_protoLayer r)
    (rr_srcPort r) (rr_dstPort r) (rr_action r).

(** The comparison of [RouteRules.Sort]: deny rules come first, then by id. *)
Definition route_cmp (a b : RouteRule) : Z :=
  if bool_decide (rr_action a = ActionDrop) && bool_decide (rr_action b ≠ ActionDrop) then -1
  else if bool_decide (rr_action a ≠ ActionDrop) && bool_decide (rr_action b = ActionDrop) then 1
  else bytes_Compare (rr_id a) (rr_id b).

Definition Sort (l : list RouteRule) : list RouteRule := sort_by route_cmp l.

(** ** The rule tables of the manager *)

Abbreviation RuleSet := (gmap bytes PeerRule).

Record rules := mkRules {
  incomingDenyRules : gmap Addr RuleSet;
  incomingRules : gmap Addr RuleSet;
  routeRules : list RouteRule;
  routeRulesMap : gset bytes;
}.

Definition no_rules : rules := mkRules ∅ ∅ [] ∅.

Inductive ruleErr :=
| errInvalidIP
| errNoPeerRule (id : bytes)
| errRouteRuleNotFound (id : bytes)
| errNotInSlice (id : bytes)
| errNoRuleForSet
| errInvalidRuleType.

#[global] Instance ruleErr_eq_dec : EqDecision ruleErr.
Proof. solve_decision. Defined.

Definition protoToLayer (proto : FwProtocol) (ipLayer : LayerType) : LayerType :=
  match proto with
  | ProtocolTCP => LayerTypeTCP
  | ProtocolUDP => LayerTypeUDP
  | ProtocolICMP => if bool_decide (ipLayer = LayerTypeIPv6) then LayerTypeICMPv6 else LayerTypeICMPv4
  | ProtocolALL => LayerTypeAll
  | ProtocolUnknownName _ => LayerTypeZero
  end.

(** The rule [AddPeerFiltering] builds; [uuid] is the fresh rule id.  The two
    strings the code compares with are those of the unspecified addresses. *)
Definition newPeerRule (uuid mgmtId : bytes) (i : Addr) (proto : FwProtocol) (sPort dPort : option Port)
    (action : Action) : PeerRule :=
  let ipLayer := if Is4 i then LayerTypeIPv4 else LayerTypeIPv6 in
  mkPeerRule uuid mgmtId i ipLayer
    (negb (bool_decide (i = IPv4Unspecified) || bool_decide (i = IPv6Unspecified)))
    (protoToLayer proto ipLayer) sPort dPort (bool_decide (action = ActionDrop)).

Definition add_to (m : gmap Addr RuleSet) (r : PeerRule) : gmap Addr RuleSet :=
  <[pe_ip r := <[pe_id r := r]> (default ∅ (m !! pe_ip r))]> m.

Definition AddPeerFiltering (uuid : bytes) (m : rules) (mgmtId ip : bytes) (proto : FwProtocol)
    (sPort dPort : option Port) (action : Action) : outcome ruleErr (rules * PeerRule) :=
  match AddrFromSlice ip with
  | None => Err errInvalidIP
  | Some i =>
      let r := newPeerRule uuid mgmtId (Unmap i) proto sPort dPort action in
      if pe_drop r
      then Ok (mkRules (add_to (incomingDenyRules m) r) (incomingRules m) (routeRules m) (routeRulesMap m), r)
      else Ok (mkRules (incomingDenyRules m) (add_to (incomingRules m) r) (routeRules m) (routeRulesMap m), r)
  end.

Definition delete_from (m : gmap Addr RuleSet) (r : PeerRule) : outcome ruleErr (gmap Addr RuleSet) :=
  match m !! pe_ip r with
  | None => Err (errNoPeerRule (pe_id r))
  | Some ruleset =>
      match ruleset !! pe_id r with
      | None => Err (errNoPeerRule (pe_id r))
      | Some _ =>
          let ruleset := delete (pe_id r) ruleset in
          Ok (if bool_decide (ruleset = ∅) then delete (pe_ip r) m else <[pe_ip r := ruleset]> m)
      end
  end.

(** [DeletePeerRule] of a rule value handed out by [AddPeerFiltering]. *)
Definition DeletePeerRule (m : rules) (r : PeerRule) : outcome ruleErr rules :=
  if pe_drop r
  then let! d := delete_from (incomingDenyRules m) r in
       Ok (mkRules d (incomingRules m) (routeRules m) (routeRulesMap m))
  else let! a := delete_from (incomingRules m) r in
       Ok (mkRules (incomingDenyRules m) a (routeRules m) (routeRulesMap m)).

(** [addRouteFiltering] without delegation; [ruleKey] is the generated key and
    [sources] are sorted, since the key function sorts the slice in place.  The
    result is the key, the id of the rule. *)
Definition addRouteRule (m : rules) (ruleKey mgmtId : bytes) (sources : list Prefix) (destination : Network)
    (proto : FwProtocol) (sPort dPort : option Port) (action : Action) : rules * bytes :=
  if bool_decide (ruleKey ∈ routeRulesMap m) then (m, ruleKey)
  else
    let rule := mkRouteRule ruleKey mgmtId sources (net_Set destination)
                  (if IsPrefix destination then [net_Prefix destination] else [])
                  (protoToLayer proto LayerTypeIPv4) sPort dPort action in
    (mkRules (incomingDenyRules m) (incomingRules m) (Sort (routeRules m ++ [rule]))
       ({[ruleKey]} ∪ routeRulesMap m), ruleKey).

(** [slices.Delete] at the first index of the id. *)
Fixpoint remove_id (id : bytes) (l : list RouteRule) : option (list RouteRule) :=
  match l with
  | [] => None
  | r :: l => if bool_decide (rr_id r = id) then Some l else (cons r) <$> remove_id id l
  end.

Definition removeRouteRule (m : rules) (ruleKey : bytes) : outcome ruleErr rules :=
  if bool_decide (ruleKey ∉ routeRulesMap m) then Err (errRouteRuleNotFound ruleKey)
  else
    match remove_id ruleKey (routeRules m) with
    | None => Err (errNotInSlice ruleKey)
    | Some l => Ok (mkRules (incomingDenyRules m) (incomingRules m) l (routeRulesMap m ∖ {[ruleKey]}))
    end.

(** The order of [UpdateSet]: by address, then by length. *)
Definition set_cmp (a b : Prefix) : Z :=
  let c := Addr_Compare (pf_addr a) (pf_addr b) in
  if negb (c =? 0) then c else pf_bits a - pf_bits b.

(** [slices.Compact] *)
Fixpoint Compact {A} `{EqDecision A} (l : list A) : list A :=
  match l with
  | [] => []
  | x :: l' => match l' with
               | [] => [x]
               | y :: _ => if decide (x = y) then Compact l' else x :: Compact l'
               end
  end.

(** The destinations [UpdateSet] gives to every rule of the set. *)
Definition updated_destinations (first : RouteRule) (prefixes : list Prefix) : list Prefix :=
  Compact (sort_by set_cmp (rr_destinations first ++ List.filter (λ p, Is4 (pf_addr p)) prefixes)).

Definition updateRuleSet (m : rules) (set : FwSet) (prefixes : list Prefix) : outcome ruleErr rules :=
  match List.filter (λ r, bool_decide (rr_dstSet r = set)) (routeRules m) with
  | [] => Err errNoRuleForSet
  | first :: _ =>
      let destinations := updated_destinations first prefixes in
      Ok (mkRules (incomingDenyRules m) (incomingRules m)
            ((λ r, if bool_decide (rr_dstSet r = set) then set_destinations r destinations else r) <$> routeRules m)
            (routeRulesMap m))
  end.

(** ** Evaluation *)

(** The range case indexes the slice and panics on a shorter one. *)
Definition portsMatch (rulePort : option Port) (packetPort : Z) : total bool :=
  match rulePort with
  | None => Ok true
  | Some p =>
      if IsRange p then
        let! lo := go_index (Values p) 0 in
        if packetPort <? lo then Ok false
        else let! hi := go_index (Values p) 1 in Ok (packetPort <=? hi)
      else Ok (existsb (Z.eqb packetPort) (Values p))
  end.

(** [&&] of Go: the second operand only if the first holds. *)
Definition goand (a b : total bool) : total bool :=
  let! x := a in if x then b else Ok false.

Definition getPortsFromPacket (d : decoder) : total (Z * Z) :=
  let! l := go_index (decoded d) 1 in
  match l with
  | LayerTypeTCP => Ok (tcp_SrcPort (d_tcp d), tcp_DstPort (d_tcp d))
  | LayerTypeUDP => Ok (udp_SrcPort (d_udp d), udp_DstPort (d_udp d))
  | _ => Ok (0, 0)
  end.

(** One round of [validateRule]: whether the rule decides. *)
Definition rule_decides (ip : Addr) (payloadLayer : LayerType) (rule : PeerRule) (d : decoder) : total bool :=
  if pe_matchByIP rule && negb (Addr_Compare ip (pe_ip rule) =? 0) then Ok false
  else if bool_decide (pe_protoLayer rule = LayerTypeAll) then Ok true
  else if bool_decide (payloadLayer ≠ pe_protoLayer rule) then Ok false
  else
    match payloadLayer with
    | LayerTypeTCP =>
        goand (portsMatch (pe_sPort rule) (tcp_SrcPort (d_tcp d))) (portsMatch (pe_dPort rule) (tcp_DstPort (d_tcp d)))
    | LayerTypeUDP =>
        goand (portsMatch (pe_sPort rule) (udp_SrcPort (d_udp d))) (portsMatch (pe_dPort rule) (udp_DstPort (d_udp d)))
    | LayerTypeICMPv4 | LayerTypeICMPv6 => Ok true
    | _ => Ok false
    end.

Fixpoint first_deciding (ip : Addr) (payloadLayer : LayerType) (l : list PeerRule) (d : decoder)
    : total (option PeerRule) :=
  match l with
  | [] => Ok None
  | r :: l =>
      let! b := rule_decides ip payloadLayer r d in
      if b then Ok (Some r) else first_deciding ip payloadLayer l d
  end.

(** [validateRule]: the management id and the verdict of the first rule that
    decides, in the iteration order of the map. *)
Definition validateRule (ip : Addr) (ruleset : RuleSet) (d : decoder) : total (option (bytes * bool)) :=
  let! payloadLayer := go_index (decoded d) 1 in
  let! r := first_deciding ip payloadLayer (snd <$> map_to_list ruleset) d in
  Ok ((λ r, (pe_mgmtId r, pe_drop r)) <$> r).

(** ICMP destination unreachable and time exceeded; the two type numbers are
    those of RFC 792. *)
Definition ICMPv4TypeDestinationUnreachable : Z := 3.

Definition ICMPv4TypeTimeExceeded : Z := 11.

Definition isSpecialICMP (d : decoder) : total bool :=
  let! l := go_index (decoded d) 1 in
  if bool_decide (l ≠ LayerTypeICMPv4) then Ok false
  else Ok ((icmp4_Type (d_icmp4 d) =? ICMPv4TypeDestinationUnreachable) ||
           (icmp4_Type (d_icmp4 d) =? ICMPv4TypeTimeExceeded)).

(** The rules of an address; a missing entry is an empty set. *)
Definition rules_of (m : gmap Addr RuleSet) (a : Addr) : RuleSet := default ∅ (m !! a).

(** Try the rule sets in order; the first that decides wins. *)
Fixpoint try_rulesets (ip : Addr) (l : list RuleSet) (d : decoder) : total (bytes * bool) :=
  match l with
  | [] => Ok ([], true)
  | s :: l =>
      let! r := validateRule ip s d in
      match r with
      | Some v => Ok v
      | None => try_rulesets ip l d
      end
  end.

(** [peerACLsBlock]: the rule id and whether the packet is blocked. *)
Definition peerACLsBlock (m : rules) (srcIP : Addr) (d : decoder) : total (bytes * bool) :=
  let! special := isSpecialICMP d in
  if special then Ok ([], false)
  else
    try_rulesets srcIP
      [rules_of (incomingDenyRules m) srcIP; rules_of (incomingRules m) srcIP;
       rules_of (incomingRules m) IPv4Unspecified; rules_of (incomingRules m) IPv6Unspecified] d.

Definition ruleMatches (rule : RouteRule) (srcAddr dstAddr : Addr) (protoLayer : LayerType)
    (srcPort dstPort : Z) : total bool :=
  if bool_decide (rr_protoLayer rule ≠ LayerTypeAll) && bool_decide (rr_protoLayer rule ≠ protoLayer) then Ok false
  else
    let! ports :=
      if bool_decide (protoLayer = LayerTypeTCP) || bool_decide (protoLayer = LayerTypeUDP)
      then goand (portsMatch (rr_srcPort rule) srcPort) (portsMatch (rr_dstPort rule) dstPort)
      else Ok true in
    if negb ports then Ok false
    else if negb (existsb (λ p, Contains p dstAddr) (rr_destinations rule)) then Ok false
    else Ok (existsb (λ p, Contains p srcAddr) (rr_sources rule)).

Fixpoint first_match (l : list RouteRule) (srcIP dstIP : Addr) (protoLayer : LayerType) (srcPort dstPort : Z)
    : total (option RouteRule) :=
  match l with
  | [] => Ok None
  | r :: l =>
      let! b := ruleMatches r srcIP dstIP protoLayer srcPort dstPort in
      if b then Ok (Some r) else first_match l srcIP dstIP protoLayer srcPort dstPort
  end.

Definition routeACLsPass (m : rules) (srcIP dstIP : Addr) (protoLayer : LayerType) (srcPort dstPort : Z)
    : total (bytes * bool) :=
  let! r := first_match (routeRules m) srcIP dstIP protoLayer srcPort dstPort in
  match r with
  | Some rule => Ok (rr_mgmtId rule, bool_decide (rr_action rule = ActionAccept))
  | None => Ok ([], false)
  end.

Example addr_strings :
  Addr_String (Addr4 0x0a000001) = str "10.0.0.1" ∧
  Addr_String (Addr6 (2 ^ 112 * 0x2001 + 2 ^ 96 * 0xdb8 + 1) "") = str "2001:db8::1" ∧
  Addr_String (Addr6 0 "") = str "::" ∧ Addr_String (Addr6 1 "eth0") = str "::1%eth0" ∧
  Addr_String (Addr6 (2 ^ 112 * 0xfe80) "") = str "fe80::".
Proof. repeat split; vm_compute; reflexivity. Qed.

(** ** What the rules mean *)

(** A range has two ends; [convertPortInfo] and [NewPort] build no other. *)
Definition port_wf (p : option Port) : Prop :=
  match p with Some p => IsRange p = true → (2 ≤ length (Values p))%nat | None => True end.

(** The ports a rule port stands for. *)
Definition port_in (p : option Port) (v : Z) : Prop :=
  match p with
  | None => True
  | Some p => if IsRange p then ∃ lo hi r, Values p = lo :: hi :: r ∧ lo ≤ v ≤ hi else v ∈ Values p
  end.

Definition decides {E} (c : outcome E bool) (P : Prop) : Prop := ∃ b, c = Ok b ∧ (b = true ↔ P).

Lemma decides_ok {E} b P : (b = true ↔ P) → decides (E:=E) (Ok b) P.
Proof. by exists b. Qed.

Lemma decides_true {E} (c : outcome E bool) (P : Prop) : decides c P → c = Ok true ↔ P.
Proof. intros (b & -> & Hb). split; [by intros [= ->]; apply Hb|]. intros H. by rewrite (proj2 Hb H). Qed.

Lemma goand_decides a b (P Q : Prop) : decides a P → decides b Q → decides (goand a b) (P ∧ Q).
Proof.
  intros (x & -> & Hx) (y & -> & Hy). unfold goand. destruct x; apply decides_ok; naive_solver.
Qed.

Lemma portsMatch_decides p v : port_wf p → decides (portsMatch p v) (port_in p v).
Proof.
  intros Hwf. unfold portsMatch, port_in. destruct p as [p|]; [|by apply decides_ok].
  simpl in Hwf. destruct (IsRange p).
  - destruct (Values p) as [|lo [|hi r]]; simpl in Hwf; [specialize (Hwf eq_refl); lia..|]. cbn [go_index lookup list_lookup obind].
    destruct (Z.ltb_spec v lo); apply decides_ok.
    + split; [done|]. intros (? & ? & ? & [= <- <- <-] & ?). lia.
    + rewrite Z.leb_le. split; [naive_solver lia|]. intros (? & ? & ? & [= <- <- <-] & ?). lia.
  - apply decides_ok. rewrite existsb_exists. split.
    + intros (x & Hx & ->%Z.eqb_eq). by apply list_elem_of_In.
    + intros Hv%list_elem_of_In. exists v. by rewrite Z.eqb_refl.
Qed.

(** The declarative meaning of a route rule. *)
Record route_rule_covers (r : RouteRule) (src dst : Addr) (layer : LayerType) (sp dp : Z) : Prop := mkCovers {
  covers_proto : rr_protoLayer r = LayerTypeAll ∨ rr_protoLayer r = layer;
  covers_ports : layer = LayerTypeTCP ∨ layer = LayerTypeUDP → port_in (rr_srcPort r) sp ∧ port_in (rr_dstPort r) dp;
  covers_dst : ∃ p, p ∈ rr_destinations r ∧ Contains p dst = true;
  covers_src : ∃ p, p ∈ rr_sources r ∧ Contains p src = true;
}.

Lemma existsb_elem {A} (f : A → bool) l : existsb f l = true ↔ ∃ x, x ∈ l ∧ f x = true.
Proof. rewrite existsb_exists. by setoid_rewrite list_elem_of_In. Qed.

Definition route_ports_wf (r : RouteRule) : Prop := port_wf (rr_srcPort r) ∧ port_wf (rr_dstPort r).

Lemma ruleMatches_decides r src dst layer sp dp :
  route_ports_wf r → decides (ruleMatches r src dst layer sp dp) (route_rule_covers r src dst layer sp dp).
Proof.
  intros [W1 W2]. unfold ruleMatches. case_if; bool_facts.
  { apply decides_ok. split; [done|]. intros [[?|?] _ _ _]; done. }
  assert (decides (if bool_decide (layer = LayerTypeTCP) || bool_decide (layer = LayerTypeUDP)
    then goand (portsMatch (rr_srcPort r) sp) (portsMatch (rr_dstPort r) dp) else Ok true)
    (layer = LayerTypeTCP ∨ layer = LayerTypeUDP → port_in (rr_srcPort r) sp ∧ port_in (rr_dstPort r) dp)) as (b & -> & Hb).
  { destruct (_ || _) eqn:E; bool_facts.
    - destruct (goand_decides _ _ _ _ (portsMatch_decides _ sp W1) (portsMatch_decides _ dp W2)) as (b & -> & Hb).
      apply decides_ok. rewrite Hb. split; [done|]. intros H. apply H.
      destruct E as [E%bool_decide_eq_true|E%bool_decide_eq_true]; auto.
    - apply decides_ok. split; [|done]. intros _ [?|?]; done. }
  cbn [obind]. destruct b; cbn [negb].
  2: { apply decides_ok. split; [done|]. intros [_ H _ _]. by apply Hb in H. }
  destruct (existsb _ (rr_destinations r)) eqn:Ed; cbn [negb]; apply decides_ok.
  - rewrite existsb_elem in Ed |- *. split; [|by intros []].
    intros Hs. split; [|by apply Hb|done|done].
    destruct Heqb as [Hp%bool_decide_eq_false|Hp%bool_decide_eq_false]; [left|right]; by apply dec_stable.
  - split; [done|]. intros [_ _ Hd _]. apply existsb_elem in Hd. congruence.
Qed.

(** ** Route rules: first match on a sorted list is deny-overrides *)

(** No accept rule stands before a drop rule. *)
Definition deny_le (a b : RouteRule) : Prop := rr_action b = ActionDrop → rr_action a = ActionDrop.

Record rules_ok (m : rules) : Prop := mkRulesOk {
  ok_sorted : StronglySorted deny_le (routeRules m);
  ok_nodup : NoDup (rr_id <$> routeRules m);
  ok_keys : ∀ id, id ∈ routeRulesMap m ↔ id ∈ rr_id <$> routeRules m;
}.

#[global] Instance deny_le_trans : Transitive deny_le.
Proof. intros a b c H1 H2 H3. auto. Qed.

Lemma route_cmp_le a b : route_cmp a b ≤ 0 → deny_le a b.
Proof.
  unfold route_cmp, deny_le. intros H Hb. destruct (rr_action a) eqn:E; [|done]. rewrite Hb in H. simpl in H. lia.
Qed.

Lemma route_cmp_gt a b : 0 < route_cmp a b → deny_le b a.
Proof.
  unfold route_cmp, deny_le. intros H Ha. destruct (rr_action b) eqn:E; [|done]. rewrite Ha in H. simpl in H. lia.
Qed.

Lemma Sort_sorted l : StronglySorted deny_le (Sort l).
Proof. apply sort_by_sorted; [apply _|apply route_cmp_le|apply route_cmp_gt]. Qed.

Lemma Sort_ids l : rr_id <$> Sort l ≡ₚ rr_id <$> l.
Proof. apply fmap_Permutation, sort_by_perm. Qed.

Lemma no_rules_ok : rules_ok no_rules.
Proof. split; simpl; [constructor|constructor|set_solver]. Qed.

Lemma addRouteRule_ok m key mgmt src dst p sp dp a :
  rules_ok m → rules_ok (addRouteRule m key mgmt src dst p sp dp a).1.
Proof.
  intros [Hs Hn Hk]. unfold addRouteRule. case_bool_decide as E; [done|]. split; cbn [fst routeRules routeRulesMap].
  - apply Sort_sorted.
  - rewrite Sort_ids, fmap_app. apply NoDup_app. split; [done|]. split; [|simpl; apply NoDup_singleton].
    intros x Hx Hx'. simpl in Hx'. apply list_elem_of_singleton in Hx' as ->. by apply E, Hk.
  - intros id. rewrite Sort_ids, fmap_app, elem_of_app, elem_of_union, elem_of_singleton, Hk. simpl.
    rewrite list_elem_of_singleton. tauto.
Qed.

Lemma remove_id_spec id l l' :
  remove_id id l = Some l' → ∃ pre r suf, l = pre ++ r :: suf ∧ l' = pre ++ suf ∧ rr_id r = id.
Proof.
  revert l'. induction l as [|r l IH]; intros l'; simpl; [done|]. case_bool_decide as E.
  - intros [= <-]. by exists [], r, l.
  - destruct (remove_id id l) as [l1|]; [|done]. intros [= <-].
    destruct (IH l1 eq_refl) as (pre & r' & suf & -> & -> & <-). by exists (r :: pre), r', suf.
Qed.

Lemma removeRouteRule_ok m key m' : rules_ok m → removeRouteRule m key = Ok m' → rules_ok m'.
Proof.
  intros [Hs Hn Hk]. unfold removeRouteRule. case_bool_decide as E; [done|].
  destruct (remove_id key (routeRules m)) as [l|] eqn:Er; [|done]. intros [= <-].
  apply remove_id_spec in Er as (pre & r & suf & Heq & -> & Hid). rewrite Heq in *.
  rewrite fmap_app, fmap_cons in Hn, Hk. apply NoDup_app in Hn as (N1 & N2 & N3). apply NoDup_cons in N3 as [N3 N4].
  apply StronglySorted_app in Hs as (S1 & S2 & S3). apply StronglySorted_cons in S3 as [S4 S5].
  split; cbn [routeRules routeRulesMap].
  - apply StronglySorted_app. split; [|done]. intros x y Hx Hy. apply S1; [done|]. by right.
  - rewrite fmap_app. apply NoDup_app. split; [done|]. split; [|done]. intros x Hx Hx'. apply (N2 x Hx). by right.
  - intros id. rewrite fmap_app, elem_of_app, elem_of_difference, elem_of_singleton, Hk, elem_of_app, elem_of_cons, Hid.
    specialize (N2 id). rewrite elem_of_cons, Hid in N2. rewrite Hid in N3. split; [tauto|].
    intros H. split; [tauto|]. intros ->. destruct H as [H|H]; [|done]. apply (N2 H). by left.
Qed.

(** A rule that is in the map is always found in the slice. *)
Lemma removeRouteRule_total m key :
  rules_ok m → key ∈ routeRulesMap m → ∃ m', removeRouteRule m key = Ok m'.
Proof.
  intros [_ _ Hk] Hin. unfold removeRouteRule. rewrite bool_decide_false by tauto.
  apply Hk, list_elem_of_fmap in Hin as (r & -> & Hr).
  assert (is_Some (remove_id (rr_id r) (routeRules m))) as [l ->]; [|eauto].
  clear Hk. induction (routeRules m) as [|x l IH]; [by apply elem_of_nil in Hr|]. simpl. case_bool_decide; [done|].
  apply elem_of_cons in Hr as [->|Hr]; [done|]. destruct (IH Hr) as [l' ->]. done.
Qed.

Lemma updateRuleSet_ok m set prefixes m' : rules_ok m → updateRuleSet m set prefixes = Ok m' → rules_ok m'.
Proof.
  intros [Hs Hn Hk]. unfold updateRuleSet. destruct (List.filter _ _) as [|first rest]; [done|]. intros [= <-].
  set (f := λ r, if bool_decide (rr_dstSet r = set) then set_destinations r (updated_destinations first prefixes) else r).
  assert (∀ r, rr_id (f r) = rr_id r ∧ rr_action (f r) = rr_action r) as Hf by (intros r; unfold f; by case_bool_decide).
  assert (rr_id <$> (f <$> routeRules m) = rr_id <$> routeRules m) as Hids.
  { rewrite <-list_fmap_compose. apply list_fmap_ext. intros i x _. apply (Hf x). }
  split; cbn [routeRules routeRulesMap]; rewrite ?Hids; try done.
  clear -Hs Hf. induction Hs as [|r l Hl IH Hr]; simpl; constructor; [done|].
  apply Forall_fmap. eapply Forall_impl; [exact Hr|]. intros x Hx. unfold deny_le, compose in *.
  destruct (Hf r) as [_ ->], (Hf x) as [_ ->]. done.
Qed.

(** The first match of a list of well-formed rules. *)
Lemma first_match_spec l src dst layer sp dp :
  Forall route_ports_wf l →
  ∃ r, first_match l src dst layer sp dp = Ok r ∧
    match r with
    | Some rule => ∃ pre suf, l = pre ++ rule :: suf ∧ route_rule_covers rule src dst layer sp dp ∧
                     Forall (λ x, ¬ route_rule_covers x src dst layer sp dp) pre
    | None => Forall (λ x, ¬ route_rule_covers x src dst layer sp dp) l
    end.
Proof.
  induction 1 as [|x l Hx _ IH]; [by exists None|]. simpl.
  destruct (ruleMatches_decides x src dst layer sp dp Hx) as ([|] & -> & Hb); cbn [obind].
  - exists (Some x). split; [done|]. exists [], l. split; [done|]. split; [by apply Hb|done].
  - assert (¬ route_rule_covers x src dst layer sp dp) as Hnot by (intros H; by apply Hb in H).
    destruct IH as (r & -> & Hr). exists r. split; [done|]. destruct r as [rule|]; [|by constructor].
    destruct Hr as (pre & suf & -> & Hc & Hp). exists (x :: pre), suf. split; [done|]. split; [done|]. by constructor.
Qed.

(** The abstract policy of routed traffic: deny overrides. *)
Definition route_permitted (m : rules) (src dst : Addr) (layer : LayerType) (sp dp : Z) : Prop :=
  (∃ r, r ∈ routeRules m ∧ rr_action r = ActionAccept ∧ route_rule_covers r src dst layer sp dp) ∧
  ¬ ∃ r, r ∈ routeRules m ∧ rr_action r = ActionDrop ∧ route_rule_covers r src dst layer sp dp.

Lemma routeACLsPass_permitted m src dst layer sp dp :
  rules_ok m → Forall route_ports_wf (routeRules m) →
  ∃ id b, routeACLsPass m src dst layer sp dp = Ok (id, b) ∧
    (b = true ↔ route_permitted m src dst layer sp dp).
Proof.
  intros [Hs _ _] Hwf. unfold routeACLsPass.
  destruct (first_match_spec (routeRules m) src dst layer sp dp Hwf) as (r & -> & Hr). cbn [obind].
  destruct r as [rule|].
  - destruct Hr as (pre & suf & Heq & Hc & Hpre). do 2 eexists. split; [done|]. rewrite bool_decide_eq_true.
    unfold route_permitted. rewrite Heq in *. split.
    + intros Ha. split; [exists rule; set_solver|]. intros (d & Hd & Hdrop & Hdc).
      apply elem_of_app in Hd as [Hd|Hd]; [rewrite Forall_forall in Hpre; by apply (Hpre d)|].
      apply elem_of_cons in Hd as [->|Hd]; [congruence|].
      apply StronglySorted_app in Hs as (_ & _ & Hs). apply StronglySorted_cons in Hs as [Hall _].
      rewrite Forall_forall in Hall. specialize (Hall d Hd Hdrop). congruence.
    + intros [_ Hno]. destruct (rr_action rule) eqn:E; [done|]. exfalso. apply Hno. exists rule. set_solver.
  - do 2 eexists. split; [done|]. split; [done|]. intros [(x & Hx & _ & Hxc) _].
    rewrite Forall_forall in Hr. by destruct (Hr x Hx).
Qed.

(** ** Peer rules *)

(** Every rule is filed under its address and id, in the table of its verdict,
    and no rule set is empty. *)
Definition table_filed (drop : bool) (m : gmap Addr RuleSet) : Prop :=
  ∀ a s, m !! a = Some s → s ≠ ∅ ∧
    ∀ id r, s !! id = Some r → pe_ip r = a ∧ pe_id r = id ∧ pe_drop r = drop ∧
      pe_matchByIP r = negb (bool_decide (a = IPv4Unspecified) || bool_decide (a = IPv6Unspecified)).

Definition peers_ok (m : rules) : Prop := table_filed true (incomingDenyRules m) ∧ table_filed false (incomingRules m).

Definition peer_ports_wf (r : PeerRule) : Prop := port_wf (pe_sPort r) ∧ port_wf (pe_dPort r).

Definition table_ports_wf (m : gmap Addr RuleSet) : Prop :=
  ∀ a s id r, m !! a = Some s → s !! id = Some r → peer_ports_wf r.

(** The declarative meaning of a peer rule. *)
Definition peer_rule_covers (r : PeerRule) (src : Addr) (layer : LayerType) (d : decoder) : Prop :=
  (pe_matchByIP r = true → pe_ip r = src) ∧
  (pe_protoLayer r = LayerTypeAll ∨
   pe_protoLayer r = layer ∧
   match layer with
   | LayerTypeTCP => port_in (pe_sPort r) (tcp_SrcPort (d_tcp d)) ∧ port_in (pe_dPort r) (tcp_DstPort (d_tcp d))
   | LayerTypeUDP => port_in (pe_sPort r) (udp_SrcPort (d_udp d)) ∧ port_in (pe_dPort r) (udp_DstPort (d_udp d))
   | LayerTypeICMPv4 | LayerTypeICMPv6 => True
   | _ => False
   end).

Lemma rule_decides_spec src layer r d :
  peer_ports_wf r → decides (rule_decides src layer r d) (peer_rule_covers r src layer d).
Proof.
  intros [W1 W2]. unfold rule_decides, peer_rule_covers. case_if; bool_facts.
  { apply decides_ok. split; [done|]. intros [Hx _]. specialize (Hx ltac:(assumption)).
    match goal with H : Addr_Compare _ _ ≠ 0 |- _ => destruct H; by apply Addr_Compare_zero end. }
  assert (pe_matchByIP r = true → pe_ip r = src) as Hm.
  { intros E. destruct Heqb as [?|?%negb_false_iff%Z.eqb_eq%Addr_Compare_zero]; congruence. }
  case_bool_decide as Ea; [apply decides_ok; tauto|].
  case_bool_decide as El; [apply decides_ok; split; [done|]; intros [_ [?|[? _]]]; congruence|].
  symmetry in El.
  destruct layer; try (apply decides_ok; split; [done|]; intros [_ [?|[_ ?]]]; done);
    try (apply decides_ok; tauto).
  - destruct (goand_decides _ _ _ _ (portsMatch_decides _ (tcp_SrcPort (d_tcp d)) W1)
                (portsMatch_decides _ (tcp_DstPort (d_tcp d)) W2)) as (b & -> & Hb).
    apply decides_ok. rewrite Hb. split; [tauto|]. intros [_ [?|[_ ?]]]; done.
  - destruct (goand_decides _ _ _ _ (portsMatch_decides _ (udp_SrcPort (d_udp d)) W1)
                (portsMatch_decides _ (udp_DstPort (d_udp d)) W2)) as (b & -> & Hb).
    apply decides_ok. rewrite Hb. split; [tauto|]. intros [_ [?|[_ ?]]]; done.
Qed.

Lemma first_deciding_spec src layer l d :
  Forall peer_ports_wf l →
  ∃ r, first_deciding src layer l d = Ok r ∧
    match r with
    | Some r => r ∈ l ∧ peer_rule_covers r src layer d
    | None => ∀ r, r ∈ l → ¬ peer_rule_covers r src layer d
    end.
Proof.
  induction 1 as [|x l Hx _ IH]; simpl.
  - exists None. split; [done|]. set_solver.
  - destruct (rule_decides_spec src layer x d Hx) as ([|] & -> & Hb); cbn [obind].
    + exists (Some x). split; [done|]. split; [set_solver|]. by apply Hb.
    + destruct IH as (r & -> & Hr). exists r. split; [done|]. destruct r as [r|]; [set_solver|].
      intros y Hy Hc. apply elem_of_cons in Hy as [->|Hy]; [|by apply (Hr y)]. by apply Hb in Hc.
Qed.

(** What a rule set of the given verdict decides, in any iteration order. *)
Lemma validateRule_spec drop m a src layer d :
  table_filed drop m → table_ports_wf m → decoded d !! 1%nat = Some layer →
  ∃ v, validateRule src (rules_of m a) d = Ok v ∧
    match v with
    | Some (_, b) => b = drop ∧ ∃ id r, rules_of m a !! id = Some r ∧ peer_rule_covers r src layer d
    | None => ∀ id r, rules_of m a !! id = Some r → ¬ peer_rule_covers r src layer d
    end.
Proof.
  intros Hf Hw Hl. unfold validateRule. rewrite (go_index_ok _ _ _ Hl). cbn [obind].
  assert (∀ id r, rules_of m a !! id = Some r → ∃ s, m !! a = Some s ∧ s !! id = Some r) as Hof.
  { intros id r. unfold rules_of. destruct (m !! a); simpl; [eauto|]. by rewrite lookup_empty. }
  destruct (first_deciding_spec src layer (snd <$> map_to_list (rules_of m a)) d) as (r & -> & Hr).
  { apply Forall_fmap, Forall_forall. intros [id r] Hin%elem_of_map_to_list. simpl.
    destruct (Hof id r Hin) as (s & Hs & Hr). by eapply Hw. }
  cbn [obind]. eexists. split; [done|]. destruct r as [r|]; simpl.
  - destruct Hr as [Hin Hc]. apply list_elem_of_fmap in Hin as ([id r'] & -> & Hin%elem_of_map_to_list). simpl in *.
    destruct (Hof id r' Hin) as (s & Hs & Hr). destruct (Hf a s Hs) as [_ H]. split; [apply (H id r' Hr)|eauto].
  - intros id r Hin Hc. apply (Hr r); [|done]. apply list_elem_of_fmap. exists (id, r). split; [done|].
    by apply elem_of_map_to_list.
Qed.

(** The abstract policy of local traffic: no drop rule of the source, and an
    accept rule of the source or of all sources. *)
Definition peer_permitted (m : rules) (src : Addr) (layer : LayerType) (d : decoder) : Prop :=
  (¬ ∃ id r, rules_of (incomingDenyRules m) src !! id = Some r ∧ peer_rule_covers r src layer d) ∧
  ∃ a id r, a ∈ [src; IPv4Unspecified; IPv6Unspecified] ∧
    rules_of (incomingRules m) a !! id = Some r ∧ peer_rule_covers r src layer d.

Definition special_icmp (layer : LayerType) (d : decoder) : Prop :=
  layer = LayerTypeICMPv4 ∧ (icmp4_Type (d_icmp4 d) = 3 ∨ icmp4_Type (d_icmp4 d) = 11).

Lemma isSpecialICMP_spec layer d :
  decoded d !! 1%nat = Some layer → decides (isSpecialICMP d) (special_icmp layer d).
Proof.
  intros Hl. unfold isSpecialICMP, special_icmp. rewrite (go_index_ok _ _ _ Hl). cbn [obind].
  case_bool_decide as E; apply decides_ok; [split; [done|]; intros [? _]; done|].
  rewrite orb_true_iff, !Z.eqb_eq. unfold ICMPv4TypeDestinationUnreachable, ICMPv4TypeTimeExceeded. tauto.
Qed.

(** Trying accept tables one after the other. *)
Lemma try_accepts m l src layer d :
  table_filed false m → table_ports_wf m → decoded d !! 1%nat = Some layer →
  ∃ id b, try_rulesets src (map (rules_of m) l) d = Ok (id, b) ∧
    (b = false ↔ ∃ a i r, a ∈ l ∧ rules_of m a !! i = Some r ∧ peer_rule_covers r src layer d).
Proof.
  intros Hf Hw Hl. induction l as [|a l IH]; simpl.
  - do 2 eexists. split; [done|]. split; [done|]. intros (? & ? & ? & ?%elem_of_nil & _). done.
  - destruct (validateRule_spec false m a src layer d Hf Hw Hl) as (v & -> & Hv). cbn [obind].
    destruct v as [[id b]|].
    + do 2 eexists. split; [done|]. destruct Hv as (-> & i & r & Hr & Hc). split; [|done].
      intros _. exists a, i, r. set_solver.
    + destruct IH as (id & b & -> & Hb). do 2 eexists. split; [done|]. rewrite Hb. split.
      * intros (a' & i & r & Ha & ?). exists a', i, r. set_solver.
      * intros (a' & i & r & [->|Ha]%elem_of_cons & Hr & Hc); [by destruct (Hv i r)|]. eauto 10.
Qed.

Lemma peerACLsBlock_permitted m src layer d :
  peers_ok m → table_ports_wf (incomingDenyRules m) → table_ports_wf (incomingRules m) →
  decoded d !! 1%nat = Some layer →
  ∃ id b, peerACLsBlock m src d = Ok (id, b) ∧
    (b = false ↔ special_icmp layer d ∨ peer_permitted m src layer d).
Proof.
  intros [Hd Ha] Wd Wa Hl. unfold peerACLsBlock.
  destruct (isSpecialICMP_spec layer d Hl) as ([|] & -> & Hs); cbn [obind].
  { do 2 eexists. split; [done|]. split; [|done]. intros _. left. by apply Hs. }
  assert (¬ special_icmp layer d) as Hns by (intros H; by apply Hs in H).
  cbn [try_rulesets]. destruct (validateRule_spec true _ src src layer d Hd Wd Hl) as (v & -> & Hv). cbn [obind].
  destruct v as [[id b]|].
  - do 2 eexists. split; [done|]. destruct Hv as (-> & i & r & Hr & Hc). split; [done|].
    intros [H|[H _]]; [done|]. destruct H. eauto.
  - destruct (try_accepts (incomingRules m) [src; IPv4Unspecified; IPv6Unspecified] src layer d Ha Wa Hl) as (id & b & E & Hb).
    simpl in E. rewrite E. do 2 eexists. split; [done|]. rewrite Hb. unfold peer_permitted. split.
    + intros H. right. split; [|done]. intros (i & r & Hr & Hc). by apply (Hv i r).
    + intros [H|[_ H]]; done.
Qed.

(** ** The peer tables under the operations *)

Lemma add_to_filed drop m r :
  table_filed drop m → pe_drop r = drop →
  pe_matchByIP r = negb (bool_decide (pe_ip r = IPv4Unspecified) || bool_decide (pe_ip r = IPv6Unspecified)) →
  table_filed drop (add_to m r).
Proof.
  intros Hm Hd Hb a s Hs. unfold add_to in Hs. apply lookup_insert_Some in Hs as [[<- <-]|[Hne Hs]]; [|by apply Hm].
  split; [apply insert_non_empty|]. intros id x Hx. apply lookup_insert_Some in Hx as [[<- <-]|[Hne Hx]]; [done|].
  destruct (m !! pe_ip r) as [s|] eqn:E; simpl in Hx; [|by rewrite lookup_empty in Hx]. by apply (Hm _ _ E).
Qed.

Lemma newPeerRule_match uuid mgmt i p sp dp a :
  let r := newPeerRule uuid mgmt i p sp dp a in
  pe_matchByIP r = negb (bool_decide (pe_ip r = IPv4Unspecified) || bool_decide (pe_ip r = IPv6Unspecified)).
Proof. done. Qed.

Lemma AddPeerFiltering_ok uuid m mgmt ip p sp dp a m' r :
  peers_ok m → AddPeerFiltering uuid m mgmt ip p sp dp a = Ok (m', r) → peers_ok m'.
Proof.
  intros [Hd Ha]. unfold AddPeerFiltering. destruct (AddrFromSlice ip) as [i|]; [|done].
  destruct (pe_drop _) eqn:E; intros [= <- <-]; split; cbn [incomingDenyRules incomingRules]; try done;
    apply add_to_filed; auto using newPeerRule_match.
Qed.

Lemma delete_from_filed drop m r m' : table_filed drop m → delete_from m r = Ok m' → table_filed drop m'.
Proof.
  intros Hm. unfold delete_from. destruct (m !! pe_ip r) as [s|] eqn:E; [|done].
  destruct (s !! pe_id r); [|done]. intros [= <-]. case_bool_decide as Ee; intros a t Ht.
  - apply lookup_delete_Some in Ht as [_ Ht]. by apply Hm.
  - apply lookup_insert_Some in Ht as [[<- <-]|[_ Ht]]; [|by apply Hm]. split; [done|].
    intros id x Hx. apply lookup_delete_Some in Hx as [_ Hx]. by apply (Hm _ _ E).
Qed.

Lemma DeletePeerRule_ok m r m' : peers_ok m → DeletePeerRule m r = Ok m' → peers_ok m'.
Proof.
  intros [Hd Ha]. unfold DeletePeerRule. destruct (pe_drop r); destruct (delete_from _ _) as [t|e|] eqn:E; cbn [obind];
    try done; intros [= <-]; split; try done; by eapply delete_from_filed.
Qed.

(** Deleting a rule that was added with a fresh id restores the table. *)
Lemma delete_add_to drop m r :
  table_filed drop m → (∀ s, m !! pe_ip r = Some s → s !! pe_id r = None) →
  delete_from (add_to m r) r = Ok m.
Proof.
  intros Hm Hfresh. unfold delete_from, add_to. rewrite lookup_insert_eq, lookup_insert_eq.
  destruct (m !! pe_ip r) as [s|] eqn:E; simpl.
  - rewrite delete_insert_id by (by apply Hfresh). rewrite bool_decide_false by (by apply (Hm _ _ E)).
    by rewrite insert_insert_eq, insert_id.
  - rewrite delete_insert_id by (apply lookup_empty). rewrite bool_decide_true by done.
    by rewrite delete_insert_id.
Qed.

(** ** Any history of rule operations *)

Inductive rule_op :=
| RAddPeer (uuid mgmtId ip : bytes) (proto : FwProtocol) (sPort dPort : option Port) (action : Action)
| RDeletePeer (r : PeerRule)
| RAddRoute (key mgmtId : bytes) (sources : list Prefix) (dst : Network) (proto : FwProtocol)
    (sPort dPort : option Port) (action : Action)
| RDeleteRoute (key : bytes)
| RUpdateSet (set : FwSet) (prefixes : list Prefix)
| RReset.

(** An operation that returns an error changes nothing. *)
Definition run_rule (m : rules) (o : rule_op) : outcome ruleErr rules :=
  match o with
  | RAddPeer u g ip p sp dp a => let! r := AddPeerFiltering u m g ip p sp dp a in Ok r.1
  | RDeletePeer r => DeletePeerRule m r
  | RAddRoute k g src dst p sp dp a => Ok (addRouteRule m k g src dst p sp dp a).1
  | RDeleteRoute k => removeRouteRule m k
  | RUpdateSet s ps => updateRuleSet m s ps
  | RReset => Ok no_rules
  end.

Fixpoint run_rules (m : rules) (os : list rule_op) : total rules :=
  match os with
  | [] => Ok m
  | o :: os => otry (run_rule m o) (λ _, run_rules m os) (λ m, run_rules m os)
  end.

Definition op_ports_wf (o : rule_op) : Prop :=
  match o with
  | RAddPeer _ _ _ _ sp dp _ => port_wf sp ∧ port_wf dp
  | RAddRoute _ _ _ _ _ sp dp _ => port_wf sp ∧ port_wf dp
  | _ => True
  end.

Record good_rules (m : rules) : Prop := mkGoodRules {
  good_routes : rules_ok m;
  good_peers : peers_ok m;
  good_route_ports : Forall route_ports_wf (routeRules m);
  good_deny_ports : table_ports_wf (incomingDenyRules m);
  good_accept_ports : table_ports_wf (incomingRules m);
}.

Lemma add_to_ports m r : table_ports_wf m → peer_ports_wf r → table_ports_wf (add_to m r).
Proof.
  intros Hm Hr a s id x Hs Hx. unfold add_to in Hs. apply lookup_insert_Some in Hs as [[<- <-]|[_ Hs]]; [|by eapply Hm].
  apply lookup_insert_Some in Hx as [[<- <-]|[_ Hx]]; [done|].
  destruct (m !! pe_ip r) as [s|] eqn:E; simpl in Hx; [by eapply Hm|by rewrite lookup_empty in Hx].
Qed.

Lemma delete_from_ports m r m' : table_ports_wf m → delete_from m r = Ok m' → table_ports_wf m'.
Proof.
  intros Hm. unfold delete_from. destruct (m !! pe_ip r) as [s|] eqn:E; [|done].
  destruct (s !! pe_id r); [|done]. intros [= <-]. case_bool_decide; intros a t id x Ht Hx.
  - apply lookup_delete_Some in Ht as [_ Ht]. by eapply Hm.
  - apply lookup_insert_Some in Ht as [[<- <-]|[_ Ht]]; [|by eapply Hm].
    apply lookup_delete_Some in Hx as [_ Hx]. by eapply Hm.
Qed.

Lemma no_rules_good : good_rules no_rules.
Proof.
  split; [apply no_rules_ok| |constructor| |]; [split|..]; intros a s; cbn; intros; exfalso;
    match goal with H : (∅ : gmap Addr RuleSet) !! _ = Some _ |- _ => by rewrite lookup_empty in H end.
Qed.

Lemma run_rule_good m o :
  good_rules m → op_ports_wf o →
  match run_rule m o with Ok m' => good_rules m' | Err _ => True | Panic => False end.
Proof.
  intros [H1 H2 H3 H4 H5] Ho.
  destruct o as [u g ip p sp dp a|r|k g src dst p sp dp a|k|s ps|]; simpl.
  - destruct (AddPeerFiltering u m g ip p sp dp a) as [[m' r]|e|] eqn:E; cbn [obind fst]; [|done|].
    + pose proof (AddPeerFiltering_ok _ _ _ _ _ _ _ _ _ _ H2 E) as H2'. unfold AddPeerFiltering in E.
      destruct (AddrFromSlice ip); [|done]. destruct (pe_drop _); injection E as <- <-; split; try done;
        first [by destruct H1; split|by apply add_to_ports].
    + unfold AddPeerFiltering in E. destruct (AddrFromSlice ip); [|done]. by destruct (pe_drop _).
  - destruct (DeletePeerRule m r) as [m'|e|] eqn:E; [|done|].
    + pose proof (DeletePeerRule_ok _ _ _ H2 E) as H2'. unfold DeletePeerRule in E.
      destruct (pe_drop r); destruct (delete_from _ _) eqn:Ed; cbn [obind] in E; try done; injection E as <-; split;
        try done; first [by destruct H1; split|by eapply delete_from_ports; [|exact Ed]].
    + unfold DeletePeerRule, delete_from in E. repeat (case_match; cbn [obind] in *; try done).
  - pose proof (addRouteRule_ok m k g src dst p sp dp a H1) as H1'. unfold addRouteRule in *.
    case_bool_decide; [done|]. split; try done. cbn [fst routeRules]. unfold Sort. rewrite sort_by_perm.
    apply Forall_app. split; [done|]. by apply Forall_singleton.
  - destruct (removeRouteRule m k) as [m'|e|] eqn:E; [|done|].
    + pose proof (removeRouteRule_ok _ _ _ H1 E) as H1'. unfold removeRouteRule in E.
      destruct (bool_decide _); [done|]. destruct (remove_id _ _) as [l|] eqn:El; [|done]. injection E as <-. split; try done.
      apply remove_id_spec in El as (pre & x & suf & Heq & -> & _). rewrite Heq in H3. cbn [routeRules].
      apply Forall_app in H3 as [? H3]. apply Forall_cons in H3 as [_ ?]. by apply Forall_app.
    + unfold removeRouteRule in E. repeat (case_match; try done).
  - destruct (updateRuleSet m s ps) as [m'|e|] eqn:E; [|done|].
    + pose proof (updateRuleSet_ok _ _ _ _ H1 E) as H1'. unfold updateRuleSet in E.
      destruct (List.filter _ _); [done|]. injection E as <-. split; try done. cbn [routeRules].
      apply Forall_fmap. eapply Forall_impl; [exact H3|]. intros x Hx. unfold compose. by case_bool_decide.
    + unfold updateRuleSet in E. by destruct (List.filter _ _).
  - apply no_rules_good.
Qed.

Lemma run_rules_good m os :
  good_rules m → Forall op_ports_wf os → ∃ m', run_rules m os = Ok m' ∧ good_rules m'.
Proof.
  intros Hm Ho. revert m Hm. induction Ho as [|o os Hw _ IH]; intros m Hm; simpl; [eauto|].
  pose proof (run_rule_good m o Hm Hw) as H. destruct (run_rule m o); simpl; [auto|auto|done].
Qed.

(** ** Properties *)

(** after any sequence of rule additions, deletions, set updates and resets,
    evaluating a routed packet never panics, and the first-match evaluation of
    the sorted rules is the policy deny-overrides: the packet passes exactly when
    some accept rule covers its protocol, ports, source and destination and no
    drop rule does. *)
Theorem route_acl_refines_policy os m src dst layer sp dp :
  Forall op_ports_wf os → run_rules no_rules os = Ok m →
  ∃ id b, routeACLsPass m src dst layer sp dp = Ok (id, b) ∧ (b = true ↔ route_permitted m src dst layer sp dp).
Proof.
  intros Hw Hr. destruct (run_rules_good no_rules os no_rules_good Hw) as (m' & E & [? ? ? ? ?]).
  rewrite Hr in E. injection E as <-. by apply routeACLsPass_permitted.
Qed.

(** C20: after any sequence of rule operations, with ports that are a list or a range
    with two ends, a packet for the local host that has a transport header is blocked by the peer access list exactly when it is not a destination
    unreachable or time exceeded message and either a drop rule of its source
    covers it or no accept rule of its source or of all sources does; the answer
    does not depend on the iteration order of the rule maps. *)
Theorem peer_acl_refines_policy os m src layer d :
  Forall op_ports_wf os → run_rules no_rules os = Ok m → decoded d !! 1%nat = Some layer →
  ∃ id b, peerACLsBlock m src d = Ok (id, b) ∧ (b = false ↔ special_icmp layer d ∨ peer_permitted m src layer d).
Proof.
  intros Hw Hr Hl. destruct (run_rules_good no_rules os no_rules_good Hw) as (m' & E & [? ? ? ? ?]).
  rewrite Hr in E. injection E as <-. by apply peerACLsBlock_permitted.
Qed.

(** a drop rule for all sources (0.0.0.0) has no effect: adding it changes
    the verdict on no packet whose source is not 0.0.0.0 itself, although a rule
    for 0.0.0.0 is stored as one that matches every source. *)
Theorem wildcard_deny_ignored uuid m mgmt proto sp dp m' r src d :
  AddPeerFiltering uuid m mgmt (go_make 4) proto sp dp ActionDrop = Ok (m', r) → src ≠ IPv4Unspecified →
  peerACLsBlock m' src d = peerACLsBlock m src d ∧ pe_matchByIP r = false.
Proof.
  unfold AddPeerFiltering. change (AddrFromSlice (go_make 4)) with (Some (Addr4 0)).
  cbn [Unmap newPeerRule pe_drop]. intros [= <- <-] Hs. split; [|done].
  unfold peerACLsBlock. cbn [incomingDenyRules incomingRules]. unfold rules_of at 1, add_to. cbn [pe_ip].
  rewrite lookup_insert_ne by (intros E; by apply Hs). done.
Qed.

Definition example_ops_rules : list rule_op :=
  [RAddRoute (str "a") (str "p1") [mkPrefix (Addr4 0x64400000) 10] (mkNetwork zero_set (mkPrefix (Addr4 0x0a000000) 8))
     ProtocolTCP None (Some (mkPort true [80; 90])) ActionAccept;
   RAddRoute (str "b") (str "p2") [mkPrefix (Addr4 0) 0] (mkNetwork zero_set (mkPrefix (Addr4 0x0a010000) 16))
     ProtocolALL None None ActionDrop;
   RAddPeer (str "u1") (str "p3") (go_make 4) ProtocolTCP None (Some (mkPort false [22])) ActionAccept].

Definition example_rules : rules :=
  match run_rules no_rules example_ops_rules with Ok m => m | _ => no_rules end.

Lemma example_ops_wf : Forall op_ports_wf example_ops_rules.
Proof. repeat constructor; simpl; try done; lia. Qed.

Lemma route_acl_refines_policy_witness :
  ∃ id b, routeACLsPass example_rules (Addr4 0x64400001) (Addr4 0x0a020304) LayerTypeTCP 1000 85 = Ok (id, b) ∧
    (b = true ↔ route_permitted example_rules (Addr4 0x64400001) (Addr4 0x0a020304) LayerTypeTCP 1000 85).
Proof. apply (route_acl_refines_policy example_ops_rules); [apply example_ops_wf|vm_compute; reflexivity]. Defined.

Lemma peer_acl_refines_policy_witness :
  let d := example_decoder 0x64400002 0x64400001 40000 22 2 in
  ∃ id b, peerACLsBlock example_rules (Addr4 0x64400002) d = Ok (id, b) ∧
    (b = false ↔ special_icmp LayerTypeTCP d ∨ peer_permitted example_rules (Addr4 0x64400002) LayerTypeTCP d).
Proof.
  apply (peer_acl_refines_policy example_ops_rules); [apply example_ops_wf|vm_compute; reflexivity|reflexivity].
Defined.

Example example_verdicts :
  routeACLsPass example_rules (Addr4 0x64400001) (Addr4 0x0a020304) LayerTypeTCP 1000 85 = Ok (str "p1", true) ∧
  routeACLsPass example_rules (Addr4 0x64400001) (Addr4 0x0a010304) LayerTypeTCP 1000 85 = Ok (str "p2", false) ∧
  peerACLsBlock example_rules (Addr4 0x64400002) (example_decoder 0x64400002 0x64400001 40000 22 2) = Ok (str "p3", false) ∧
  peerACLsBlock example_rules (Addr4 0x64400002) (example_decoder 0x64400002 0x64400001 40000 23 2) = Ok ([], true).
Proof. repeat split; vm_compute; reflexivity. Qed.

Lemma wildcard_deny_ignored_witness :
  let d := example_decoder 0x64400002 0x64400001 40000 22 2 in
  let a := AddPeerFiltering (str "u2") example_rules (str "deny") (go_make 4) ProtocolALL None None ActionDrop in
  let m' := match a with Ok r => r.1 | _ => example_rules end in
  let r := newPeerRule (str "u2") (str "deny") (Addr4 0) ProtocolALL None None ActionDrop in
  peerACLsBlock m' (Addr4 0x64400002) d = peerACLsBlock example_rules (Addr4 0x64400002) d ∧ pe_matchByIP r = false.
Proof.
  apply (wildcard_deny_ignored (str "u2") example_rules (str "deny") ProtocolALL None None);
    [vm_compute; reflexivity|discriminate].
Defined.

(** A set update replaces the destinations of every rule of the set by those of
    the first one: a rule of the same set that was added later and sorts first
    wipes out the prefixes that were resolved before. *)
Theorem update_set_loses_prefixes :
  let set := mkSet (go_make 3 ++ [Byte.x01]) [] in
  let rule k := RAddRoute (str k) [] [mkPrefix (Addr4 0) 0] (mkNetwork set (mkPrefix AddrZero (-1))) ProtocolALL None None ActionAccept in
  ∃ m, run_rules no_rules
         [rule "b"; RUpdateSet set [mkPrefix (Addr4 1) 32]; rule "a"; RUpdateSet set [mkPrefix (Addr4 2) 32]] = Ok m ∧
    rr_destinations <$> routeRules m = [[mkPrefix (Addr4 2) 32]; [mkPrefix (Addr4 2) 32]].
Proof. eexists. split; vm_compute; reflexivity. Qed.

(** ** Merging ranges *)

(** Merging only ever leaves prefixes out. *)
Lemma merge_ranges_subset l merged p :
  p ∈ merge_ranges merged l → p ∈ merged ∨ p ∈ l.
Proof.
  revert merged. induction l as [|q l IH]; intros merged; simpl; [by rewrite elem_of_reverse; auto|].
  destruct merged as [|last rest]; [intros [?|?]%IH; set_solver|].
  repeat case_if; intros [H|H]%IH; set_solver.
Qed.

(** [MergeIPRanges] compares addresses only, so a wider prefix that starts where
    the last one starts is taken to be contained in it and dropped; the order of
    [SortPrefixes], the longer prefix first, brings this about. *)
Theorem merge_drops_wider_prefix :
  let wide := mkPrefix (Addr4 0x0a000000) 8 in
  let narrow := mkPrefix (Addr4 0x0a000000) 24 in
  let merged := MergeIPRanges (SortPrefixes [wide; narrow]) in
  merged = [narrow] ∧
  Contains wide (Addr4 0x0a010203) = true ∧ existsb (λ p, Contains p (Addr4 0x0a010203)) merged = false.
Proof. vm_compute. auto. Qed.
