(* ===== verification/Routes.v ===== *)
(** * Routes

    The route package (route/route.go and route/hauniqueid.go): the type of a
    route, its comparison and its identifiers.  A domain of a dynamic route is
    printed with [idna.ToUnicode], which is the argument [to_unicode]: [None] is
    its error. *)

From S2P Require Import Prelude GoStd GoStrings NetIP FirewallRules.

Definition MinMetric : Z := 1.

Definition MaxMetric : Z := 9999.

Definition MaxNetIDChar : Z := 40.

Inductive NetworkType := InvalidNetwork | IPv4Network | IPv6Network | DomainNetwork.

#[global] Instance NetworkType_eq_dec : EqDecision NetworkType.
Proof. solve_decision. Defined.

Definition NetworkType_String (t : NetworkType) : bytes :=
  match t with
  | IPv4Network => str "IPv4"
  | IPv6Network => str "IPv6"
  | DomainNetwork => str "Domain"
  | InvalidNetwork => str "Invalid"
  end.

Definition ToPrefixType (prefix : bytes) : NetworkType :=
  if bool_decide (prefix = str "IPv4") then IPv4Network
  else if bool_decide (prefix = str "IPv6") then IPv6Network
  else if bool_decide (prefix = str "Domain") then DomainNetwork
  else InvalidNetwork.

(** A nil slice of domains is [None]: [NetString] tells it from an empty one. *)
Record Route := mkRoute {
  rt_ID : bytes;
  rt_AccountID : bytes;
  rt_Network : Prefix;
  rt_Domains : option (list bytes);
  rt_KeepRoute : bool;
  rt_NetID : bytes;
  rt_Description : bytes;
  rt_Peer : bytes;
  rt_PeerID : bytes;
  rt_PeerGroups : list bytes;
  rt_NetworkType : NetworkType;
  rt_Masquerade : bool;
  rt_Metric : Z;
  rt_Enabled : bool;
  rt_Groups : list bytes;
  rt_AccessControlGroups : list bytes;
  rt_SkipAutoApply : bool
}.

#[global] Instance Route_eq_dec : EqDecision Route.
Proof. solve_decision. Defined.

(** [slices.Equal] does not tell a nil slice from an empty one. *)
Definition domains_of (r : Route) : list bytes := default [] (rt_Domains r).

Definition Route_Equal (r other : option Route) : bool :=
  match r, other with
  | None, None => true
  | Some r, Some o =>
      bool_decide (rt_ID o = rt_ID r) && bool_decide (rt_Description o = rt_Description r) &&
      bool_decide (rt_NetID o = rt_NetID r) && bool_decide (rt_Network o = rt_Network r) &&
      bool_decide (domains_of r = domains_of o) && bool_decide (rt_KeepRoute o = rt_KeepRoute r) &&
      bool_decide (rt_NetworkType o = rt_NetworkType r) && bool_decide (rt_Peer o = rt_Peer r) &&
      bool_decide (rt_PeerID o = rt_PeerID r) && bool_decide (rt_Metric o = rt_Metric r) &&
      bool_decide (rt_Masquerade o = rt_Masquerade r) && bool_decide (rt_Enabled o = rt_Enabled r) &&
      bool_decide (rt_Groups r = rt_Groups o) && bool_decide (rt_PeerGroups r = rt_PeerGroups o) &&
      bool_decide (rt_AccessControlGroups r = rt_AccessControlGroups o) &&
      bool_decide (rt_SkipAutoApply o = rt_SkipAutoApply r)
  | _, _ => false
  end.

Definition IsDynamic (r : Route) : bool := bool_decide (rt_NetworkType r = DomainNetwork).

(** [domain.List.SafeString]: all domains in Unicode, or all as they are. *)
Definition SafeString (to_unicode : bytes → option bytes) (l : list bytes) : bytes :=
  match mapM to_unicode l with
  | Some u => Join (str ", ") u
  | None => Join (str ", ") l
  end.

Definition NetString (to_unicode : bytes → option bytes) (r : Route) : bytes :=
  match rt_Domains r with
  | Some l => if IsDynamic r then SafeString to_unicode l else prefix_String (rt_Network r)
  | None => prefix_String (rt_Network r)
  end.

Definition haSeparator : byte := Byte.x7c.

Definition GetHAUniqueID (to_unicode : bytes → option bytes) (r : Route) : bytes :=
  rt_NetID r ++ [haSeparator] ++ NetString to_unicode r.

Definition GetResourceID (r : Route) : bytes := default [] (head (SplitByte (Byte.x3a) (rt_ID r))).

(** [strings.LastIndex] of one byte: the text before its last occurrence. *)
Fixpoint cut_last (sep : byte) (s : bytes) : option bytes :=
  match s with
  | [] => None
  | c :: s =>
      match cut_last sep s with
      | Some p => Some (c :: p)
      | None => if bool_decide (c = sep) then Some [] else None
      end
  end.

(** [HAUniqueID.NetID] *)
Definition HA_NetID (id : bytes) : bytes := default id (cut_last haSeparator id).

Lemma cut_last_none sep s : sep ∉ s → cut_last sep s = None.
Proof.
  induction s as [|c s IH]; simpl; [done|]. rewrite not_elem_of_cons. intros [Hc Hs].
  by rewrite (IH Hs), bool_decide_false.
Qed.

Lemma cut_last_app sep p s : sep ∉ s → cut_last sep (p ++ sep :: s) = Some p.
Proof.
  intros Hs. induction p as [|c p IH]; simpl.
  - by rewrite cut_last_none, bool_decide_true.
  - by rewrite IH.
Qed.

(** The group of a route names the network it belongs to. *)
Lemma ha_netid to_unicode r :
  haSeparator ∉ NetString to_unicode r → HA_NetID (GetHAUniqueID to_unicode r) = rt_NetID r.
Proof. intros Hs. unfold HA_NetID, GetHAUniqueID. simpl. by rewrite cut_last_app. Qed.
