(* ===== verification/RouteSelector.v ===== *)
(** * Route selection

    client/internal/routeselector/routeselector.go: which routes the user has
    selected, and the part of client/internal/routemanager/manager.go that
    applies the choice of the management server to exit nodes, routes to
    0.0.0.0/0, when a network map arrives.

    A nil map of the selector is [None]: writing it would panic. *)

From S2P Require Import Prelude GoStd GoStrings NetIP FirewallRules Routes.

(** ** The selector *)

Abbreviation NetID := bytes.
Abbreviation HAMap := (gmap bytes (list Route)).

Record RouteSelector := mkSelector {
  deselectedRoutes : option (gset NetID);
  selectedRoutes : option (gset NetID);
  deselectAll : bool
}.

Definition NewRouteSelector : RouteSelector := mkSelector (Some ∅) (Some ∅) false.

(** A write to a map. *)
Definition map_put (m : option (gset NetID)) (x : NetID) : total (option (gset NetID)) :=
  match m with Some s => Ok (Some ({[x]} ∪ s)) | None => Panic end.

Definition map_delete (m : option (gset NetID)) (x : NetID) : option (gset NetID) := (λ s, s ∖ {[x]}) <$> m.

Definition map_has (m : option (gset NetID)) (x : NetID) : bool :=
  match m with Some s => bool_decide (x ∈ s) | None => false end.

(** The loop of [SelectRoutes]; the routes that are not available are returned. *)
Fixpoint select_loop (all routes : list NetID) (rs : RouteSelector) : total (RouteSelector * list NetID) :=
  match routes with
  | [] => Ok (rs, [])
  | r :: routes =>
      if bool_decide (r ∈ all) then
        (let! sel := map_put (selectedRoutes rs) r in
         select_loop all routes (mkSelector (map_delete (deselectedRoutes rs) r) sel (deselectAll rs)))%go
      else (let! (rs', errs) := select_loop all routes rs in Ok (rs', r :: errs))%go
  end.

Definition SelectRoutes (rs : RouteSelector) (routes : list NetID) (appendRoute : bool) (all : list NetID) :
    total (RouteSelector * list NetID) :=
  let rs1 := if negb appendRoute || deselectAll rs
             then mkSelector (Some (list_to_set all)) (Some ∅) (deselectAll rs) else rs in
  (let! (rs2, errs) := select_loop all routes rs1 in
   Ok (mkSelector (deselectedRoutes rs2) (selectedRoutes rs2) false, errs))%go.

Definition SelectAllRoutes (rs : RouteSelector) : RouteSelector := mkSelector (Some ∅) (Some ∅) false.

Fixpoint deselect_loop (all routes : list NetID) (rs : RouteSelector) : total (RouteSelector * list NetID) :=
  match routes with
  | [] => Ok (rs, [])
  | r :: routes =>
      if bool_decide (r ∈ all) then
        (let! desel := map_put (deselectedRoutes rs) r in
         deselect_loop all routes (mkSelector desel (map_delete (selectedRoutes rs) r) (deselectAll rs)))%go
      else (let! (rs', errs) := deselect_loop all routes rs in Ok (rs', r :: errs))%go
  end.

Definition DeselectRoutes (rs : RouteSelector) (routes all : list NetID) : total (RouteSelector * list NetID) :=
  if deselectAll rs then Ok (rs, []) else deselect_loop all routes rs.

Definition DeselectAllRoutes (rs : RouteSelector) : RouteSelector := mkSelector (Some ∅) (Some ∅) true.

Definition IsSelected (rs : RouteSelector) (id : NetID) : bool :=
  if deselectAll rs then false else negb (map_has (deselectedRoutes rs) id).

Definition FilterSelected (rs : RouteSelector) (routes : HAMap) : HAMap :=
  if deselectAll rs then ∅
  else filter (λ x, map_has (deselectedRoutes rs) (HA_NetID x.1) = false) routes.

Definition HasUserSelectionForRoute (rs : RouteSelector) (id : NetID) : bool :=
  map_has (selectedRoutes rs) id || map_has (deselectedRoutes rs) id.

Definition isDeselected (rs : RouteSelector) (id : NetID) : bool :=
  map_has (deselectedRoutes rs) id || deselectAll rs.

Definition exitNodeCIDR : bytes := str "0.0.0.0/0".

Definition isExitNode (rt : list Route) : bool :=
  match rt with r :: _ => bool_decide (prefix_String (rt_Network r) = exitNodeCIDR) | [] => false end.

Definition hasUserSelections (rs : RouteSelector) : bool :=
  bool_decide (0 < size (default ∅ (selectedRoutes rs)))%nat || bool_decide (0 < size (default ∅ (deselectedRoutes rs)))%nat.

Definition collectSelected (rt : list Route) : list Route := filter (λ r, rt_SkipAutoApply r = false) rt.

Definition applyExitNodeFilter (rs : RouteSelector) (netID : NetID) (rt : list Route) : option (list Route) :=
  if hasUserSelections rs then if IsSelected rs netID then Some rt else None
  else match collectSelected rt with [] => None | sel => Some sel end.

(** What the loop of [FilterSelectedExitNodes] keeps for one entry. *)
Definition filter_entry (rs : RouteSelector) (id : bytes) (rt : list Route) : option (list Route) :=
  let netID := HA_NetID id in
  if isDeselected rs netID then None
  else if negb (isExitNode rt) then Some rt
  else applyExitNodeFilter rs netID rt.

Definition FilterSelectedExitNodes (rs : RouteSelector) (routes : HAMap) : HAMap :=
  if deselectAll rs then ∅ else map_imap (filter_entry rs) routes.

(** The decoded document: a missing or null member is a nil map; [None] is a
    document that does not decode. *)
Inductive json_doc := JEmpty | JBad | JDoc (selected deselected : option (gset NetID)) (all : bool).

Definition UnmarshalJSON (rs : RouteSelector) (doc : json_doc) : RouteSelector * bool :=
  match doc with
  | JEmpty => (NewRouteSelector, true)
  | JBad => (rs, false)
  | JDoc sel desel all => (mkSelector (Some (default ∅ desel)) (Some (default ∅ sel)) all, true)
  end.

Definition MarshalJSON (rs : RouteSelector) : json_doc :=
  JDoc (selectedRoutes rs) (deselectedRoutes rs) (deselectAll rs).

(** ** The choice of the management server *)

Record exitNodeInfo := mkInfo {
  allIDs : list NetID;
  selectedByManagement : list NetID;
  userSelected : list NetID;
  userDeselected : list NetID
}.

Definition isExitNodeRoute (routes : list Route) : bool := isExitNode routes.

Definition categorizeUserSelection (rs : RouteSelector) (netID : NetID) (info : exitNodeInfo) : exitNodeInfo :=
  if IsSelected rs netID
  then mkInfo (allIDs info) (selectedByManagement info) (userSelected info ++ [netID]) (userDeselected info)
  else mkInfo (allIDs info) (selectedByManagement info) (userSelected info) (userDeselected info ++ [netID]).

Definition auto_applied (routes : list Route) : bool := existsb (λ r, negb (rt_SkipAutoApply r)) routes.

Definition checkManagementSelection (routes : list Route) (netID : NetID) (info : exitNodeInfo) : exitNodeInfo :=
  if auto_applied routes
  then mkInfo (allIDs info) (selectedByManagement info ++ [netID]) (userSelected info) (userDeselected info)
  else info.

Definition collect_step (rs : RouteSelector) (info : exitNodeInfo) (e : bytes * list Route) : exitNodeInfo :=
  if negb (isExitNodeRoute e.2) then info
  else
    let netID := HA_NetID e.1 in
    let info := mkInfo (allIDs info ++ [netID]) (selectedByManagement info) (userSelected info) (userDeselected info) in
    if HasUserSelectionForRoute rs netID then categorizeUserSelection rs netID info
    else checkManagementSelection e.2 netID info.

Definition collectExitNodeInfo (rs : RouteSelector) (clientRoutes : HAMap) : exitNodeInfo :=
  foldl (collect_step rs) (mkInfo [] [] [] []) (map_to_list clientRoutes).

Definition getRoutesToDeselect (rs : RouteSelector) (ids : list NetID) : list NetID :=
  filter (λ id, HasUserSelectionForRoute rs id = false) ids.

(** The errors of both calls are logged only. *)
Definition deselectExitNodes (rs : RouteSelector) (ids : list NetID) : total RouteSelector :=
  match ids with
  | [] => Ok rs
  | _ => (let! (rs', _) := DeselectRoutes rs ids ids in Ok rs')%go
  end.

Definition selectExitNodesByManagement (rs : RouteSelector) (selected all : list NetID) : total RouteSelector :=
  match selected with
  | [] => Ok rs
  | _ => (let! (rs', _) := SelectRoutes rs selected true all in Ok rs')%go
  end.

Definition updateExitNodeSelections (rs : RouteSelector) (info : exitNodeInfo) : total RouteSelector :=
  (let! rs1 := deselectExitNodes rs (getRoutesToDeselect rs (allIDs info)) in
   selectExitNodesByManagement rs1 (selectedByManagement info) (allIDs info))%go.

Definition updateRouteSelectorFromManagement (rs : RouteSelector) (clientRoutes : HAMap) : total RouteSelector :=
  let info := collectExitNodeInfo rs clientRoutes in
  match allIDs info with
  | [] => Ok rs
  | _ => updateExitNodeSelections rs info
  end.

(** ** What the selector promises

    What the user has chosen: nothing at all, or a set of networks that contains
    every network the user has not turned off, also those not yet known. *)

Abbreviation choice := (option (NetID → bool)).

Inductive sel_op :=
| OSelect (routes : list NetID) (append : bool) (all : list NetID)
| OSelectAll
| ODeselect (routes all : list NetID)
| ODeselectAll.

Definition choose (c : choice) (o : sel_op) : choice :=
  match o with
  | OSelect routes app all => Some (λ x,
      if bool_decide (x ∈ routes ∧ x ∈ all) then true
      else match c, app with Some P, true => P x | _, _ => negb (bool_decide (x ∈ all)) end)
  | OSelectAll => Some (λ _, true)
  | ODeselect routes all => (λ P x, P x && negb (bool_decide (x ∈ routes ∧ x ∈ all))) <$> c
  | ODeselectAll => None
  end.

Definition chosen (c : choice) (x : NetID) : bool := match c with Some P => P x | None => false end.

Definition run_sel_op (rs : RouteSelector) (o : sel_op) : total RouteSelector :=
  match o with
  | OSelect routes app all => (let! (rs', _) := SelectRoutes rs routes app all in Ok rs')%go
  | OSelectAll => Ok (SelectAllRoutes rs)
  | ODeselect routes all => (let! (rs', _) := DeselectRoutes rs routes all in Ok rs')%go
  | ODeselectAll => Ok (DeselectAllRoutes rs)
  end.

Fixpoint run_sel (rs : RouteSelector) (os : list sel_op) : total RouteSelector :=
  match os with [] => Ok rs | o :: os => (let! rs' := run_sel_op rs o in run_sel rs' os)%go end.

(** Both maps exist, no network is in both, and both are empty when everything
    is deselected. *)
Definition selector_ok (rs : RouteSelector) : Prop :=
  ∃ d s, deselectedRoutes rs = Some d ∧ selectedRoutes rs = Some s ∧ d ## s ∧ (deselectAll rs = true → d = ∅ ∧ s = ∅).

Definition available (routes all : list NetID) : gset NetID := list_to_set (filter (.∈ all) routes).

Definition missing (routes all : list NetID) : list NetID := filter (.∉ all) routes.

Lemma available_spec routes all x : x ∈ available routes all ↔ x ∈ routes ∧ x ∈ all.
Proof. unfold available. rewrite elem_of_list_to_set, list_elem_of_filter. tauto. Qed.

Lemma available_cons r routes all :
  available (r :: routes) all = (if bool_decide (r ∈ all) then {[r]} else ∅) ∪ available routes all.
Proof. unfold available. rewrite filter_cons. case_bool_decide; case_decide; simpl; set_solver. Qed.

Lemma missing_cons r routes all :
  missing (r :: routes) all = (if bool_decide (r ∈ all) then [] else [r]) ++ missing routes all.
Proof. unfold missing. rewrite filter_cons. case_bool_decide; case_decide; done. Qed.

Lemma select_loop_spec all routes d s a :
  select_loop all routes (mkSelector (Some d) (Some s) a) =
  Ok (mkSelector (Some (d ∖ available routes all)) (Some (available routes all ∪ s)) a, missing routes all).
Proof.
  revert d s. induction routes as [|r routes IH]; intros d s; simpl.
  - do 4 f_equal; unfold available; set_solver.
  - rewrite available_cons, missing_cons. case_bool_decide; simpl; rewrite IH; simpl.
    + do 4 f_equal; set_solver.
    + do 4 f_equal; set_solver.
Qed.

Lemma deselect_loop_spec all routes d s a :
  deselect_loop all routes (mkSelector (Some d) (Some s) a) =
  Ok (mkSelector (Some (available routes all ∪ d)) (Some (s ∖ available routes all)) a, missing routes all).
Proof.
  revert d s. induction routes as [|r routes IH]; intros d s; simpl.
  - do 4 f_equal; unfold available; set_solver.
  - rewrite available_cons, missing_cons. case_bool_decide; simpl; rewrite IH; simpl.
    + do 4 f_equal; set_solver.
    + do 4 f_equal; set_solver.
Qed.

Lemma select_routes_spec d s a routes app all :
  SelectRoutes (mkSelector (Some d) (Some s) a) routes app all =
  let d0 := if negb app || a then list_to_set all else d in
  let s0 := if negb app || a then ∅ else s in
  Ok (mkSelector (Some (d0 ∖ available routes all)) (Some (available routes all ∪ s0)) false, missing routes all).
Proof. unfold SelectRoutes. simpl. destruct (negb app || a); by rewrite select_loop_spec. Qed.

Lemma has_diff (d e : gset NetID) x : bool_decide (x ∈ d ∖ e) = bool_decide (x ∈ d) && negb (bool_decide (x ∈ e)).
Proof. repeat case_bool_decide; set_solver. Qed.

Lemma has_union (d e : gset NetID) x : bool_decide (x ∈ d ∪ e) = bool_decide (x ∈ d) || bool_decide (x ∈ e).
Proof. repeat case_bool_decide; set_solver. Qed.

Lemma has_available routes all x : bool_decide (x ∈ available routes all) = bool_decide (x ∈ routes ∧ x ∈ all).
Proof. apply bool_decide_ext, available_spec. Qed.

Lemma has_all (all : list NetID) x : bool_decide (x ∈ (list_to_set all : gset NetID)) = bool_decide (x ∈ all).
Proof. apply bool_decide_ext, elem_of_list_to_set. Qed.

Lemma run_sel_op_ok rs o c :
  selector_ok rs → (deselectAll rs = true ↔ c = None) → (∀ x, IsSelected rs x = chosen c x) →
  ∃ rs', run_sel_op rs o = Ok rs' ∧ selector_ok rs' ∧ (deselectAll rs' = true ↔ choose c o = None) ∧
    ∀ x, IsSelected rs' x = chosen (choose c o) x.
Proof.
  destruct rs as [d0 s0 a]. intros (d & s & Hd & Hs & Hdis & Ha) Hc Hsel. simpl in *. subst d0 s0.
  destruct o as [routes app all| |routes all|]; simpl.
  - rewrite select_routes_spec. eexists; split; [done|]. split_and!; [|done|].
    + eexists _, _. split_and!; [done..| |done]. generalize (available routes all); clear Hc Hsel Ha.
      intros av. destruct (negb app || a); clear -Hdis; set_solver.
    + intros x. unfold IsSelected. simpl. specialize (Hsel x). unfold IsSelected in Hsel. simpl in Hsel.
      rewrite has_diff, has_available. destruct (bool_decide (x ∈ routes ∧ x ∈ all)); [by rewrite andb_false_r|].
      rewrite andb_true_r. destruct a, app, c as [P|]; simpl in *; rewrite ?has_all; try done;
        destruct Hc as [Hc1 Hc2]; try (discriminate (Hc1 eq_refl)); discriminate (Hc2 eq_refl).
  - eexists; split; [done|]. split_and!; [|done|done]. exists ∅, ∅. naive_solver set_solver.
  - unfold DeselectRoutes. simpl. destruct a; simpl.
    + destruct c as [P|]; [by destruct Hc; naive_solver|].
      eexists; split; [done|]. split_and!; [|done|done]. exists d, s. naive_solver.
    + rewrite deselect_loop_spec. destruct c as [P|]; [|by destruct Hc as [_ Hc]; discriminate Hc].
      eexists; split; [done|]. split_and!; [|done|].
      * eexists _, _. split_and!; [done..| |done]. generalize (available routes all); clear -Hdis. set_solver.
      * intros x. specialize (Hsel x). unfold IsSelected in *. simpl in *.
        rewrite has_union, has_available, <- Hsel. by destruct (bool_decide _), (bool_decide _).
  - eexists; split; [done|]. split_and!; [|done|done]. exists ∅, ∅. naive_solver set_solver.
Qed.

Lemma run_sel_ok os rs c :
  selector_ok rs → (deselectAll rs = true ↔ c = None) → (∀ x, IsSelected rs x = chosen c x) →
  ∃ rs', run_sel rs os = Ok rs' ∧ selector_ok rs' ∧ ∀ x, IsSelected rs' x = chosen (foldl choose c os) x.
Proof.
  revert rs c. induction os as [|o os IH]; intros rs c H1 H2 H3; simpl; [by eauto|].
  destruct (run_sel_op_ok rs o c H1 H2 H3) as (rs' & -> & H1' & H2' & H3'). simpl. by apply IH.
Qed.

(** after any sequence of selections and deselections the selector answers
    for every network what the user chose, newly announced networks included,
    its two sets stay disjoint and no call writes a nil map. *)
Theorem route_selection_refines os :
  ∃ rs, run_sel NewRouteSelector os = Ok rs ∧ selector_ok rs ∧
    ∀ x, IsSelected rs x = chosen (foldl choose (Some (λ _, true)) os) x.
Proof.
  apply run_sel_ok; [|done|done]. exists ∅, ∅. naive_solver set_solver.
Qed.

(** ** Exit nodes *)

(** The exit nodes that a network map announces, and those of them that the
    management server wants applied. *)
Definition announces (m : HAMap) (x : NetID) : Prop :=
  ∃ id rt, m !! id = Some rt ∧ isExitNode rt = true ∧ HA_NetID id = x.

Definition wants (m : HAMap) (x : NetID) : Prop :=
  ∃ id rt, m !! id = Some rt ∧ isExitNode rt = true ∧ HA_NetID id = x ∧ auto_applied rt = true.

Lemma exists_cons {A} (P : A → Prop) e l : (∃ x, x ∈ e :: l ∧ P x) ↔ P e ∨ ∃ x, x ∈ l ∧ P x.
Proof.
  split.
  - intros (x & [->|Hx]%elem_of_cons & HP); [by left|right; by exists x].
  - intros [HP|(x & Hx & HP)]; [exists e|exists x]; split; try done; by constructor.
Qed.

Lemma collect_fold_all rs l info x :
  x ∈ allIDs (foldl (collect_step rs) info l) ↔
  x ∈ allIDs info ∨ ∃ e, e ∈ l ∧ isExitNode e.2 = true ∧ HA_NetID e.1 = x.
Proof.
  revert info. induction l as [|e l IH]; intros info; simpl.
  { split; [by left|]. by intros [?|(e & []%elem_of_nil & _)]. }
  rewrite IH, exists_cons. assert (allIDs (collect_step rs info e) =
      allIDs info ++ (if isExitNode e.2 then [HA_NetID e.1] else [])) as ->.
  { unfold collect_step, categorizeUserSelection, checkManagementSelection, isExitNodeRoute.
    destruct (isExitNode e.2); simpl; [|by rewrite app_nil_r]. by repeat case_match. }
  rewrite elem_of_app. destruct (isExitNode e.2) eqn:Hx; rewrite ?elem_of_nil, ?list_elem_of_singleton;
    intuition (subst; auto; discriminate).
Qed.

Lemma collect_fold_selected rs l info x :
  x ∈ selectedByManagement (foldl (collect_step rs) info l) ↔
  x ∈ selectedByManagement info ∨
  ∃ e, e ∈ l ∧ isExitNode e.2 = true ∧ HA_NetID e.1 = x ∧ HasUserSelectionForRoute rs x = false ∧ auto_applied e.2 = true.
Proof.
  revert info. induction l as [|e l IH]; intros info; simpl.
  { split; [by left|]. by intros [?|(e & []%elem_of_nil & _)]. }
  rewrite IH, exists_cons. assert (selectedByManagement (collect_step rs info e) = selectedByManagement info ++
      (if isExitNode e.2 && negb (HasUserSelectionForRoute rs (HA_NetID e.1)) && auto_applied e.2
       then [HA_NetID e.1] else [])) as ->.
  { unfold collect_step, categorizeUserSelection, checkManagementSelection, isExitNodeRoute.
    destruct (isExitNode e.2); simpl; [|by rewrite app_nil_r].
    destruct (HasUserSelectionForRoute rs (HA_NetID e.1)); simpl; [case_match; simpl; by rewrite app_nil_r|].
    by destruct (auto_applied e.2); simpl; rewrite ?app_nil_r. }
  rewrite elem_of_app. destruct (isExitNode e.2) eqn:Hx, (HasUserSelectionForRoute rs (HA_NetID e.1)) eqn:Hu,
    (auto_applied e.2) eqn:Ha; simpl; rewrite ?elem_of_nil, ?list_elem_of_singleton;
    intuition (subst; auto; congruence).
Qed.

Lemma collect_all rs m x : x ∈ allIDs (collectExitNodeInfo rs m) ↔ announces m x.
Proof.
  unfold collectExitNodeInfo, announces. rewrite collect_fold_all. simpl. split.
  - intros [Hn|([id rt] & He & ? & ?)]; [by apply elem_of_nil in Hn|].
    apply elem_of_map_to_list in He. eauto.
  - intros (id & rt & Hm & ? & ?). right. exists (id, rt). by rewrite elem_of_map_to_list.
Qed.

Lemma collect_selected rs m x :
  x ∈ selectedByManagement (collectExitNodeInfo rs m) ↔ HasUserSelectionForRoute rs x = false ∧ wants m x.
Proof.
  unfold collectExitNodeInfo, wants. rewrite collect_fold_selected. simpl. split.
  - intros [Hn|([id rt] & He & ? & ? & ? & ?)]; [by apply elem_of_nil in Hn|].
    apply elem_of_map_to_list in He. simpl in *. split; [done|]. eauto 10.
  - intros (Hu & id & rt & Hm & ? & ? & ?). right. exists (id, rt). by rewrite elem_of_map_to_list.
Qed.

Lemma list_to_available (l : list NetID) : available l l = list_to_set l.
Proof. apply set_eq. intros x. rewrite available_spec, elem_of_list_to_set. tauto. Qed.

Lemma deselect_exit_spec d s ids :
  deselectExitNodes (mkSelector (Some d) (Some s) false) ids =
  Ok (mkSelector (Some (list_to_set ids ∪ d)) (Some (s ∖ list_to_set ids)) false).
Proof.
  destruct ids as [|i ids]; [simpl; do 2 f_equal; f_equal; set_solver|].
  unfold deselectExitNodes, DeselectRoutes. cbn [deselectAll]. rewrite deselect_loop_spec, list_to_available. done.
Qed.

Lemma select_exit_spec d s sel all :
  selectExitNodesByManagement (mkSelector (Some d) (Some s) false) sel all =
  Ok (mkSelector (Some (d ∖ available sel all)) (Some (available sel all ∪ s)) false).
Proof.
  destruct sel as [|i sel]; [simpl; do 2 f_equal; f_equal; unfold available; set_solver|].
  unfold selectExitNodesByManagement. by rewrite select_routes_spec.
Qed.

(** The networks the update turns off and those it turns on. *)
Definition turned_off (rs : RouteSelector) (m : HAMap) : gset NetID :=
  list_to_set (getRoutesToDeselect rs (allIDs (collectExitNodeInfo rs m))).

Definition turned_on (rs : RouteSelector) (m : HAMap) : gset NetID :=
  available (selectedByManagement (collectExitNodeInfo rs m)) (allIDs (collectExitNodeInfo rs m)).

Lemma turned_off_spec rs m x : x ∈ turned_off rs m ↔ announces m x ∧ HasUserSelectionForRoute rs x = false.
Proof.
  unfold turned_off, getRoutesToDeselect. rewrite elem_of_list_to_set, list_elem_of_filter, collect_all. tauto.
Qed.

Lemma wants_announces m x : wants m x → announces m x.
Proof. intros (id & rt & ? & ? & ? & _). by exists id, rt. Qed.

Lemma turned_on_spec rs m x : x ∈ turned_on rs m ↔ wants m x ∧ HasUserSelectionForRoute rs x = false.
Proof.
  unfold turned_on. rewrite available_spec, collect_selected, collect_all.
  pose proof (wants_announces m x). tauto.
Qed.

Lemma update_spec d s m :
  let rs := mkSelector (Some d) (Some s) false in
  updateRouteSelectorFromManagement rs m =
  Ok (mkSelector (Some ((turned_off rs m ∪ d) ∖ turned_on rs m)) (Some (turned_on rs m ∪ s ∖ turned_off rs m)) false).
Proof.
  intros rs. unfold updateRouteSelectorFromManagement.
  destruct (allIDs (collectExitNodeInfo rs m)) as [|i l] eqn:E.
  - assert (∀ x, ¬ announces m x) as Hn by (intros x; rewrite <- (collect_all rs), E; apply not_elem_of_nil).
    assert (turned_off rs m = ∅) as -> by (apply elem_of_equiv_empty_L; intros x; rewrite turned_off_spec; naive_solver).
    assert (turned_on rs m = ∅) as ->.
    { apply elem_of_equiv_empty_L. intros x. rewrite turned_on_spec. intros [Hx _]. by eapply Hn, wants_announces. }
    unfold rs. do 2 f_equal; f_equal; set_solver.
  - clear i l E. unfold updateExitNodeSelections, turned_off, turned_on.
    unfold rs. rewrite deselect_exit_spec. cbn [obind]. by rewrite select_exit_spec.
Qed.

Lemma has_user_false d s a x :
  HasUserSelectionForRoute (mkSelector (Some d) (Some s) a) x = false ↔ x ∉ s ∧ x ∉ d.
Proof. unfold HasUserSelectionForRoute. simpl. rewrite orb_false_iff, !bool_decide_eq_false. done. Qed.

(** Once a network of the map has an entry of its own, filtering exit nodes is
    filtering by selection. *)
Lemma filter_exit_selected d s m :
  (∀ x, announces m x → x ∈ s ∪ d) →
  let rs := mkSelector (Some d) (Some s) false in FilterSelectedExitNodes rs m = FilterSelected rs m.
Proof.
  intros Hann rs. unfold FilterSelectedExitNodes, FilterSelected. simpl. apply map_eq. intros id.
  rewrite map_lookup_imap, map_lookup_filter.
  destruct (m !! id) as [rt|] eqn:E; simpl; [|done].
  unfold filter_entry, isDeselected, applyExitNodeFilter, IsSelected, guard, hasUserSelections. simpl.
  rewrite orb_false_r. case_bool_decide as Hd; [by case_decide|].
  case_decide; [|done]. destruct (isExitNode rt) eqn:Hx; simpl; [|done].
  assert (HA_NetID id ∈ s) as Hs by (specialize (Hann (HA_NetID id)); set_solver by (by exists id, rt)).
  rewrite (bool_decide_true (0 < size s)%nat); [done|].
  assert (size s ≠ 0%nat); [|lia]. intros Hz%size_empty_inv. set_solver.
Qed.

(** when a network map arrives and the user has not deselected everything,
    the user's own choices stay as they are, an exit node the user has not chosen
    about is on exactly when the management server wants it applied, every other
    network stays on, and the routes that are then installed are exactly the
    selected ones. *)
Theorem exit_node_policy rs m :
  selector_ok rs → deselectAll rs = false →
  ∃ rs', updateRouteSelectorFromManagement rs m = Ok rs' ∧ selector_ok rs' ∧
    (∀ x, HasUserSelectionForRoute rs x = true → IsSelected rs' x = IsSelected rs x) ∧
    (∀ x, HasUserSelectionForRoute rs x = false → IsSelected rs' x = false ↔ announces m x ∧ ¬ wants m x) ∧
    FilterSelectedExitNodes rs' m = FilterSelected rs' m.
Proof.
  destruct rs as [d0 s0 a]. intros (d & s & Hd & Hs & Hdis & _) Ha. simpl in *. subst d0 s0 a.
  set (rs := mkSelector (Some d) (Some s) false). eexists. split; [apply update_spec|]. fold rs.
  pose proof (λ x, turned_off_spec rs m x) as Hoff. pose proof (λ x, turned_on_spec rs m x) as Hon.
  pose proof (λ x, has_user_false d s false x) as Hu. fold rs in Hu.
  assert (∀ x, x ∈ turned_on rs m → x ∈ turned_off rs m) as Hsub.
  { intros x. rewrite Hon, Hoff. intros [Hw ?]. split; [by apply wants_announces|done]. }
  assert (turned_off rs m ## d) as Hfresh by (intros x; rewrite Hoff, Hu; naive_solver).
  split_and!.
  - eexists _, _. split_and!; [done..| |done]. clear -Hdis Hsub Hfresh. set_solver.
  - intros x Hx. unfold IsSelected. simpl. f_equal. apply bool_decide_ext.
    rewrite elem_of_difference, elem_of_union, Hoff, Hon, Hx. intuition discriminate.
  - intros x Hx. unfold IsSelected. simpl. rewrite negb_false_iff, bool_decide_eq_true.
    rewrite elem_of_difference, elem_of_union, Hoff, Hon, Hx. apply Hu in Hx. tauto.
  - apply filter_exit_selected. intros x Hx.
    destruct (HasUserSelectionForRoute rs x) eqn:Hux.
    + assert (x ∈ s ∨ x ∈ d) as Hsd.
      { destruct (decide (x ∈ s)), (decide (x ∈ d)); auto. by rewrite (proj2 (Hu x)) in Hux. }
      assert (x ∉ turned_off rs m) by (rewrite Hoff; naive_solver). clear -Hsd H Hsub. set_solver.
    + assert (x ∈ turned_off rs m) by (by rewrite Hoff). clear -H. destruct (decide (x ∈ turned_on rs m)); set_solver.
Qed.

(** after the user has deselected all routes, the next network map that
    announces an exit node the management server wants applied turns everything
    on again but the exit nodes that are not to be applied; and a choice of the
    management server is taken for a choice of the user from then on, so a later
    map that no longer wants an exit node applied leaves it on. *)
Theorem exit_node_update_defects rs m x :
  selector_ok rs → wants m x →
  (deselectAll rs = true → ∃ rs', updateRouteSelectorFromManagement rs m = Ok rs' ∧ IsSelected rs' x = true ∧
     ∀ y, ¬ announces m y → IsSelected rs y = false ∧ IsSelected rs' y = true) ∧
  (deselectAll rs = false → HasUserSelectionForRoute rs x = false → ∀ m2 rs' rs2,
     updateRouteSelectorFromManagement rs m = Ok rs' → updateRouteSelectorFromManagement rs' m2 = Ok rs2 →
     IsSelected rs2 x = true).
Proof.
  destruct rs as [d0 s0 a]. intros (d & s & Hd & Hs & Hdis & Ha) Hw. simpl in *. subst d0 s0. split.
  - intros ->. destruct (Ha eq_refl) as [-> ->]. set (rs := mkSelector (Some ∅) (Some ∅) true).
    assert (∀ y, HasUserSelectionForRoute rs y = false) as Hnone by done.
    unfold updateRouteSelectorFromManagement, updateExitNodeSelections. cbv zeta.
    assert (x ∈ allIDs (collectExitNodeInfo rs m)) as Hx by (by apply collect_all, wants_announces).
    assert (x ∈ selectedByManagement (collectExitNodeInfo rs m)) as Hx2 by (by apply collect_selected).
    destruct (allIDs (collectExitNodeInfo rs m)) as [|i l] eqn:E; [by apply elem_of_nil in Hx|]. rewrite <- E in *.
    assert (∀ ids, deselectExitNodes rs ids = Ok rs) as -> by (by intros []). cbn [obind].
    destruct (selectedByManagement (collectExitNodeInfo rs m)) as [|j sel] eqn:E2; [by apply elem_of_nil in Hx2|].
    unfold selectExitNodesByManagement. unfold rs at 1. rewrite select_routes_spec. cbn [obind].
    eexists. split; [done|]. unfold IsSelected. simpl. rewrite <- E2 in *. split.
    + rewrite bool_decide_false; [done|]. rewrite elem_of_difference, available_spec. tauto.
    + intros y Hy. split; [done|]. rewrite bool_decide_false; [done|].
      rewrite elem_of_difference, elem_of_list_to_set, collect_all. tauto.
  - intros -> Hu m2 rs' rs2. rewrite update_spec. intros [= <-]. rewrite update_spec. intros [= <-].
    set (rs := mkSelector (Some d) (Some s) false) in *.
    assert (x ∈ turned_on rs m) as Hon by (by apply turned_on_spec).
    unfold IsSelected. simpl. rewrite bool_decide_false; [done|].
    rewrite elem_of_difference, elem_of_union, turned_off_spec, has_user_false. set_solver.
Qed.

(** ** Examples *)

Definition exit_route (netID : string) (skip : bool) : Route :=
  mkRoute (str "r1") [] (mkPrefix IPv4Unspecified 0) None false (str netID) [] (str "peer") [] [] IPv4Network true 9999 true [] [] skip.

Definition lan_route : Route :=
  mkRoute (str "r2") [] (mkPrefix (Addr4 (10 * 2 ^ 24)) 8) None false (str "lan") [] (str "peer") [] [] IPv4Network true 9999 true [] [] false.

(** Two exit nodes, one to be applied, and a route to a local network. *)
Definition example_map : HAMap :=
  {[ str "exit|0.0.0.0/0" := [exit_route "exit" false];
     str "spare|0.0.0.0/0" := [exit_route "spare" true];
     str "lan|10.0.0.0/8" := [lan_route] ]}.

Lemma example_wants : wants example_map (str "exit").
Proof. by exists (str "exit|0.0.0.0/0"), [exit_route "exit" false]. Qed.

Lemma exit_node_policy_witness : ∃ rs',
  updateRouteSelectorFromManagement NewRouteSelector example_map = Ok rs' ∧ selector_ok rs' ∧
  (∀ x, HasUserSelectionForRoute NewRouteSelector x = true → IsSelected rs' x = IsSelected NewRouteSelector x) ∧
  (∀ x, HasUserSelectionForRoute NewRouteSelector x = false →
     IsSelected rs' x = false ↔ announces example_map x ∧ ¬ wants example_map x) ∧
  FilterSelectedExitNodes rs' example_map = FilterSelected rs' example_map.
Proof.
  apply (exit_node_policy NewRouteSelector example_map); [|reflexivity].
  exists ∅, ∅. split_and!; [done..|set_solver|done].
Defined.

Lemma exit_node_update_defects_witness : ∃ rs',
  updateRouteSelectorFromManagement (DeselectAllRoutes NewRouteSelector) example_map = Ok rs' ∧
  IsSelected rs' (str "exit") = true ∧
  ∀ y, ¬ announces example_map y → IsSelected (DeselectAllRoutes NewRouteSelector) y = false ∧ IsSelected rs' y = true.
Proof.
  apply (exit_node_update_defects (DeselectAllRoutes NewRouteSelector) example_map (str "exit")); [|apply example_wants|reflexivity].
  exists ∅, ∅. split_and!; [done..|set_solver|done].
Defined.
