(* ===== verification/AclManager.v ===== *)
(** * The ACL manager of the client

    client/internal/acl/manager.go: turns the firewall rules of a network map
    into calls of the firewall, and on the next network map adds the new rules
    and deletes the ones that are gone.  The rules come from the management
    server as protobuf messages; an enum of a message can hold any number.

    The firewall is an interface of the code (client/firewall/manager).  The
    class [AclFirewall] has its operations as the manager calls them and the
    promises the manager relies on; the theorems are proved against the class,
    and [AclUpdate.usp_firewall] shows that the rule tables of the userspace firewall keep
    the promises.

    [net.ParseIP], [netip.ParsePrefix], the text form of a port selection and
    [idna.ToUnicode] are arguments: the theorems hold for any of them. *)

From stdpp Require Import base list gmap strings.
From S2P Require Import Prelude GoStd GoStrings NetIP FirewallNAT FirewallRules Routes.

#[local] Open Scope go_scope.

(** ** The messages *)

Definition RuleProtocol_ALL : Z := 1.

Definition RuleProtocol_TCP : Z := 2.

Definition RuleProtocol_UDP : Z := 3.

Definition RuleProtocol_ICMP : Z := 4.

Definition RuleDirection_IN : Z := 0.

Definition RuleDirection_OUT : Z := 1.

Definition RuleAction_ACCEPT : Z := 0.

Definition RuleAction_DROP : Z := 1.

(** The [oneof] of a port selection; a range can be nil. *)
Inductive PortInfo := PortInfo_None | PortInfo_Port (p : Z) | PortInfo_Range (r : option (Z * Z)).

#[global] Instance PortInfo_eq_dec : EqDecision PortInfo.
Proof. solve_decision. Defined.

Record FirewallRule := mkFirewallRule {
  fr_PeerIP : bytes;
  fr_Direction : Z;
  fr_Action : Z;
  fr_Protocol : Z;
  fr_Port : bytes;
  fr_PortInfo : option PortInfo;
  fr_PolicyID : bytes
}.

#[global] Instance FirewallRule_eq_dec : EqDecision FirewallRule.
Proof. solve_decision. Defined.

Record RouteFirewallRule := mkRouteFirewallRule {
  rf_SourceRanges : list bytes;
  rf_Action : Z;
  rf_Destination : bytes;
  rf_Protocol : Z;
  rf_PortInfo : option PortInfo;
  rf_IsDynamic : bool;
  rf_Domains : list bytes;
  rf_PolicyID : bytes
}.

Record NetworkMap := mkNetworkMap {
  nm_FirewallRules : list FirewallRule;
  nm_FirewallRulesIsEmpty : bool;
  nm_RoutesFirewallRules : list RouteFirewallRule
}.

(** ** The firewall *)

(** The arguments of [AddPeerFiltering] without the ipset name. *)
Record peer_args := mkPeerArgs {
  pa_mgmtId : bytes;
  pa_ip : bytes;
  pa_proto : FwProtocol;
  pa_sPort : option Port;
  pa_dPort : option Port;
  pa_action : Action
}.

Class AclFirewall (FW Rule : Type) := {
  fw_IsStateful : FW → bool;
  fw_AddPeer : FW → peer_args → bytes → FW * option (list Rule);
  fw_DeletePeer : FW → Rule → FW * bool;
  fw_AddRoute : FW → bytes → list Prefix → Network → FwProtocol → option Port → option Port → Action → FW * option bytes;
  fw_DeleteRoute : FW → bytes → FW * bool;
  fw_Flush : FW → FW;
  (** what the firewall holds *)
  fw_ok : FW → Prop;
  installed : FW → Rule → Prop;
  implements : Rule → peer_args → Prop;
  route_installed : FW → bytes → Prop;
  (** the operations on one kind of rule leave the other kind alone *)
  same_peers (fw fw' : FW) : Prop := fw_IsStateful fw' = fw_IsStateful fw ∧ ∀ r, installed fw' r ↔ installed fw r;
  same_routes (fw fw' : FW) : Prop := ∀ i, route_installed fw' i ↔ route_installed fw i;
  add_peer_ok fw a s fw' rs : fw_ok fw → fw_AddPeer fw a s = (fw', Some rs) →
    fw_ok fw' ∧ same_routes fw fw' ∧ fw_IsStateful fw' = fw_IsStateful fw ∧ rs ≠ [] ∧ NoDup rs ∧
    (∀ r, r ∈ rs → ¬ installed fw r ∧ implements r a) ∧ (∀ r, installed fw' r ↔ r ∈ rs ∨ installed fw r);
  delete_peer_ok fw r : fw_ok fw → installed fw r →
    ∃ fw', fw_DeletePeer fw r = (fw', true) ∧ fw_ok fw' ∧ same_routes fw fw' ∧
      fw_IsStateful fw' = fw_IsStateful fw ∧ ∀ r', installed fw' r' ↔ installed fw r' ∧ r' ≠ r;
  add_route_ok fw m ss d p sp dp a fw' id : fw_ok fw → fw_AddRoute fw m ss d p sp dp a = (fw', Some id) →
    fw_ok fw' ∧ same_peers fw fw' ∧ (∀ i, route_installed fw' i ↔ i = id ∨ route_installed fw i) ∧
    id = GenerateRouteRuleKey ss d p sp dp a;
  add_route_err fw m ss d p sp dp a fw' : fw_ok fw → fw_AddRoute fw m ss d p sp dp a = (fw', None) →
    fw_ok fw' ∧ same_peers fw fw' ∧ same_routes fw fw';
  delete_route_ok fw id : fw_ok fw → route_installed fw id →
    ∃ fw', fw_DeleteRoute fw id = (fw', true) ∧ fw_ok fw' ∧ same_peers fw fw' ∧
      ∀ i, route_installed fw' i ↔ route_installed fw i ∧ i ≠ id;
  flush_ok fw : fw_ok fw → fw_ok (fw_Flush fw) ∧ same_peers fw (fw_Flush fw) ∧ same_routes fw (fw_Flush fw);
}.

(** ** Conversions *)

Inductive aclErr :=
| errBadIP | errBadProtocol (p : Z) | errBadAction (a : Z) | errBadPort | errBadDirection (d : Z)
| errSourceRangesEmpty | errParseSource | errParseDestination | errFirewall.

#[global] Instance aclErr_eq_dec : EqDecision aclErr.
Proof. solve_decision. Defined.

Definition convertToFirewallProtocol (p : Z) : outcome aclErr FwProtocol :=
  if p =? RuleProtocol_TCP then Ok ProtocolTCP
  else if p =? RuleProtocol_UDP then Ok ProtocolUDP
  else if p =? RuleProtocol_ICMP then Ok ProtocolICMP
  else if p =? RuleProtocol_ALL then Ok ProtocolALL
  else Err (errBadProtocol p).

Definition convertFirewallAction (a : Z) : outcome aclErr Action :=
  if a =? RuleAction_ACCEPT then Ok ActionAccept
  else if a =? RuleAction_DROP then Ok ActionDrop
  else Err (errBadAction a).

Definition shouldSkipInvertedRule (p : FwProtocol) (port : option Port) : bool :=
  bool_decide (p = ProtocolALL) || bool_decide (p = ProtocolICMP) || bool_decide (port = None).

Definition GetPort (i : PortInfo) : Z := match i with PortInfo_Port p => p | _ => 0 end.

Definition GetRange (i : PortInfo) : option (Z * Z) := match i with PortInfo_Range r => r | _ => None end.

Definition portInfoEmpty (i : option PortInfo) : bool :=
  match i with
  | None => true
  | Some (PortInfo_Port p) => p =? 0
  | Some (PortInfo_Range None) => true
  | Some (PortInfo_Range (Some (s, e))) => (s =? 0) || (e =? 0)
  | Some PortInfo_None => true
  end.

Definition convertPortInfo (i : option PortInfo) : option Port :=
  match i with
  | None => None
  | Some i =>
      if negb (GetPort i =? 0) then Some (mkPort false [u16 (GetPort i)])
      else match GetRange i with
           | Some (s, e) => Some (mkPort true [u16 s; u16 e])
           | None => None
           end
  end.

(** [net.IP.String] *)
Definition IP_String (ip : bytes) : bytes :=
  match ip with
  | [] => str "<nil>"
  | _ => match AddrFromSlice ip with
         | Some a => Addr_String (Unmap a)
         | None => str "?" ++ hex_encode ip
         end
  end.

(** The MD5 sum of the empty string: [md5.New().Sum(b)] appends it to [b]. *)
Definition md5_empty : bytes :=
  Z_to_byte <$> [0xd4; 0x1d; 0x8c; 0xd9; 0x8f; 0x00; 0xb2; 0x04; 0xe9; 0x80; 0x09; 0x98; 0xec; 0xf8; 0x42; 0x7e].

Definition rule_text (ip : bytes) (proto : FwProtocol) (direction : Z) (port : option Port) (action : Action) : bytes :=
  IP_String ip ++ FwProtocol_String proto ++ FormatInt direction ++ FormatInt (Action_int action) ++
  match port with Some p => Port_String p | None => [] end.

Definition getPeerRuleID (ip : bytes) (proto : FwProtocol) (direction : Z) (port : option Port) (action : Action) : bytes :=
  hex_encode (rule_text ip proto direction port action ++ md5_empty).

(** [fmt.Sprintf("nb%07d", n)] for a non-negative counter *)
Definition ipset_name (n : Z) : bytes :=
  str "nb" ++ replicate (7 - length (FormatInt n)) Byte.x30 ++ FormatInt n.

Definition getDefault (p : Prefix) : Prefix :=
  if Is6 (pf_addr p) then mkPrefix IPv6Unspecified 0 else mkPrefix IPv4Unspecified 0.

(** ** The manager *)

Section manager.
Context {FW Rule : Type} `{AclFirewall FW Rule}.
Context (parse_ip : bytes → option bytes) (parse_prefix : bytes → option Prefix).
Context (selector : FirewallRule → bytes) (unicode_lower : bytes → bytes) (to_unicode : bytes → option bytes).

Record DefaultManager := mkManager {
  ipsetCounter : Z;
  peerRulesPairs : gmap bytes (list Rule);
  d_routeRules : gset bytes
}.

Definition NewDefaultManager : DefaultManager := mkManager 0 ∅ ∅.

Definition set_pairs (d : DefaultManager) (m : gmap bytes (list Rule)) : DefaultManager :=
  mkManager (ipsetCounter d) m (d_routeRules d).

(** The port of a peer rule: the port selection, or the port text of older
    management servers. *)
Definition rule_port (r : FirewallRule) : outcome aclErr (option Port) :=
  if negb (portInfoEmpty (fr_PortInfo r)) then Ok (convertPortInfo (fr_PortInfo r))
  else if bool_decide (fr_Port r = []) then Ok None
  else match ParseInt (fr_Port r) with
       | None => Err errBadPort
       | Some v => if (v <? 1) || (65535 <? v) then Err errBadPort else Ok (Some (mkPort false [u16 v]))
       end.

Definition addInRules (fw : FW) (id ip : bytes) (proto : FwProtocol) (port : option Port) (action : Action)
    (ipset : bytes) : FW * outcome aclErr (list Rule) :=
  match fw_AddPeer fw (mkPeerArgs id ip proto None port action) ipset with
  | (fw', Some rs) => (fw', Ok rs)
  | (fw', None) => (fw', Err errFirewall)
  end.

Definition addOutRules (fw : FW) (id ip : bytes) (proto : FwProtocol) (port : option Port) (action : Action)
    (ipset : bytes) : FW * outcome aclErr (list Rule) :=
  if shouldSkipInvertedRule proto port then (fw, Ok [])
  else match fw_AddPeer fw (mkPeerArgs id ip proto port None action) ipset with
       | (fw', Some rs) => (fw', Ok rs)
       | (fw', None) => (fw', Err errFirewall)
       end.

(** The converted rule: address, protocol, action and port. *)
Definition convert_rule (r : FirewallRule) : outcome aclErr (bytes * FwProtocol * Action * option Port) :=
  match parse_ip (fr_PeerIP r) with
  | None => Err errBadIP
  | Some ip =>
      let! protocol := convertToFirewallProtocol (fr_Protocol r) in
      let! action := convertFirewallAction (fr_Action r) in
      let! port := rule_port r in
      Ok (ip, protocol, action, port)
  end.

Definition protoRuleToFirewallRule (d : DefaultManager) (fw : FW) (r : FirewallRule) (ipset : bytes) :
    FW * outcome aclErr (bytes * list Rule) :=
  match convert_rule r with
  | Ok (ip, protocol, action, port) =>
      let ruleID := getPeerRuleID ip protocol (fr_Direction r) port action in
      match peerRulesPairs d !! ruleID with
      | Some rulesPair => (fw, Ok (ruleID, rulesPair))
      | None =>
          if fr_Direction r =? RuleDirection_IN then
            let '(fw', res) := addInRules fw (fr_PolicyID r) ip protocol port action ipset in
            (fw', let! rules := res in Ok (ruleID, rules))
          else if fr_Direction r =? RuleDirection_OUT then
            if fw_IsStateful fw then (fw, Ok ([], []))
            else
              let '(fw', res) := addOutRules fw (fr_PolicyID r) ip protocol port action ipset in
              (fw', let! rules := res in Ok (ruleID, rules))
          else (fw, Err (errBadDirection (fr_Direction r)))
      end
  | Err e => (fw, Err e)
  | Panic => (fw, Panic)
  end.

Fixpoint delete_rules (fw : FW) (rs : list Rule) : FW :=
  match rs with [] => fw | r :: rs => delete_rules (fw_DeletePeer fw r).1 rs end.

Definition rollBack (fw : FW) (newRulePairs : gmap bytes (list Rule)) : FW :=
  foldl (λ fw e, delete_rules fw e.2) fw (map_to_list newRulePairs).

(** The name of the ipset of a rule's group, made on its first use. *)
Definition ipset_for (d : DefaultManager) (names : gmap bytes bytes) (r : FirewallRule) :
    DefaultManager * gmap bytes bytes * bytes :=
  match names !! selector r with
  | Some name => (d, names, name)
  | None =>
      let n := ipsetCounter d + 1 in
      (mkManager n (peerRulesPairs d) (d_routeRules d), <[selector r := ipset_name n]> names, ipset_name n)
  end.

(** The loop of [applyPeerACLs]; an error ends it after the rollback. *)
Fixpoint apply_rules (d : DefaultManager) (fw : FW) (new : gmap bytes (list Rule)) (names : gmap bytes bytes)
    (rules : list FirewallRule) : DefaultManager * FW * gmap bytes (list Rule) :=
  match rules with
  | [] => (d, fw, new)
  | r :: rules =>
      let '(d1, names1, name) := ipset_for d names r in
      match protoRuleToFirewallRule d1 fw r name with
      | (fw1, Ok (pairID, rulePair)) =>
          match rulePair with
          | [] => apply_rules d1 fw1 new names1 rules
          | _ => apply_rules (set_pairs d1 (<[pairID := rulePair]> (peerRulesPairs d1))) fw1
                   (<[pairID := rulePair]> new) names1 rules
          end
      | (fw1, _) => (d1, rollBack fw1 new, new)
      end
  end.

(** The pairs that are not among the new ones are deleted. *)
Definition clean_up (fw : FW) (pairs new : gmap bytes (list Rule)) : FW :=
  foldl (λ fw e, delete_rules fw e.2) fw (map_to_list (filter (λ e, new !! e.1 = None) pairs)).

(** What an old management server means by sending no rules. *)
Definition allow_all (direction : Z) : FirewallRule :=
  mkFirewallRule (str "0.0.0.0") direction RuleAction_ACCEPT RuleProtocol_ALL [] None [].

Definition effective_rules (nm : NetworkMap) : list FirewallRule :=
  if bool_decide (nm_FirewallRules nm = []) && negb (nm_FirewallRulesIsEmpty nm)
  then [allow_all RuleDirection_IN; allow_all RuleDirection_OUT]
  else nm_FirewallRules nm.

Definition applyPeerACLs (d : DefaultManager) (fw : FW) (nm : NetworkMap) : DefaultManager * FW :=
  let '(d1, fw1, new) := apply_rules d fw ∅ ∅ (effective_rules nm) in
  (set_pairs d1 new, clean_up fw1 (peerRulesPairs d1) new).

(** *** Route rules *)

(** [NewDomainSet] over [FromPunycodeList]: the hash of the sorted names. *)
Definition NewDomainSet (domains : list bytes) : FwSet :=
  let sorted := sort_by bytes_Compare (ToLower unicode_lower <$> domains) in
  mkSet (take 4 (sha256 (mjoin sorted))) (SafeString to_unicode sorted).

Definition zero_prefix : Prefix := mkPrefix AddrZero 0.

Definition determineDestination (r : RouteFirewallRule) (dynamicResolver : bool) (sources : list Prefix) :
    outcome aclErr Network :=
  if rf_IsDynamic r then
    if dynamicResolver && negb (bool_decide (rf_Domains r = [])) then
      Ok (mkNetwork (NewDomainSet (rf_Domains r)) zero_prefix)
    else let! s := go_index sources 0 in Ok (mkNetwork zero_set (getDefault s))
  else match parse_prefix (rf_Destination r) with
       | Some p => Ok (mkNetwork zero_set p)
       | None => Err errParseDestination
       end.

Definition applyRouteACL (fw : FW) (r : RouteFirewallRule) (dynamicResolver : bool) : FW * outcome aclErr bytes :=
  match rf_SourceRanges r with
  | [] => (fw, Err errSourceRangesEmpty)
  | ranges =>
      match mapM parse_prefix ranges with
      | None => (fw, Err errParseSource)
      | Some sources =>
          match (let! destination := determineDestination r dynamicResolver sources in
                 let! protocol := convertToFirewallProtocol (rf_Protocol r) in
                 let! action := convertFirewallAction (rf_Action r) in
                 Ok (destination, protocol, action)) with
          | Ok (destination, protocol, action) =>
              match fw_AddRoute fw (rf_PolicyID r) sources destination protocol None
                      (convertPortInfo (rf_PortInfo r)) action with
              | (fw', Some id) => (fw', Ok id)
              | (fw', None) => (fw', Err errFirewall)
              end
          | Err e => (fw, Err e)
          | Panic => (fw, Panic)
          end
      end
  end.

(** The errors of single rules are collected, those of empty sources dropped. *)
Fixpoint add_routes (fw : FW) (new : gset bytes) (rules : list RouteFirewallRule) (dynamicResolver : bool) :
    outcome aclErr (FW * gset bytes * list aclErr) :=
  match rules with
  | [] => Ok (fw, new, [])
  | r :: rules =>
      match applyRouteACL fw r dynamicResolver with
      | (fw', Ok id) => add_routes fw' ({[id]} ∪ new) rules dynamicResolver
      | (fw', Err e) =>
          let! (fw2, new2, errs) := add_routes fw' new rules dynamicResolver in
          Ok (fw2, new2, if bool_decide (e = errSourceRangesEmpty) then errs else e :: errs)
      | (_, Panic) => Panic
      end
  end.

Fixpoint delete_routes (fw : FW) (ids : list bytes) : FW * list aclErr :=
  match ids with
  | [] => (fw, [])
  | id :: ids =>
      let '(fw', ok) := fw_DeleteRoute fw id in
      let '(fw2, errs) := delete_routes fw' ids in
      (fw2, if ok then errs else errFirewall :: errs)
  end.

Definition applyRouteACLs (d : DefaultManager) (fw : FW) (rules : list RouteFirewallRule) (dynamicResolver : bool) :
    outcome aclErr (DefaultManager * FW * list aclErr) :=
  let! (fw1, new, errs) := add_routes fw ∅ rules dynamicResolver in
  let '(fw2, errs2) := delete_routes fw1 (elements (d_routeRules d ∖ new)) in
  Ok (mkManager (ipsetCounter d) (peerRulesPairs d) new, fw2, errs ++ errs2).

(** [fw] is [None] when the client has no firewall; the errors are logged. *)
Definition ApplyFiltering (d : DefaultManager) (fw : option FW) (nm : NetworkMap) (dnsRouteFeatureFlag : bool) :
    outcome aclErr (DefaultManager * option FW) :=
  match fw with
  | None => Ok (d, None)
  | Some fw =>
      let '(d1, fw1) := applyPeerACLs d fw nm in
      let! (d2, fw2, _) := applyRouteACLs d1 fw1 (nm_RoutesFirewallRules nm) dnsRouteFeatureFlag in
      Ok (d2, Some (fw_Flush fw2))
  end.

End manager.

(** ** The rule id determines the rule

    The text of a rule has no separators, but the last letter of the protocol is
    the last [l] or [p] in it, since the direction, the action and the ports are
    written without these letters. *)

Definition mark (b : byte) : bool := bool_decide (b = Byte.x6c ∨ b = Byte.x70).

Lemma hex_digit_inj x y : 0 ≤ x < 16 → 0 ≤ y < 16 → hex_digit x = hex_digit y → x = y.
Proof.
  intros Hx Hy E. apply (f_equal byte_to_Z) in E. unfold hex_digit in E. rewrite !byte_to_Z_to_byte in E.
  destruct (x <? 10) eqn:?, (y <? 10) eqn:?; bool_facts; rewrite !Z.mod_small in E; lia.
Qed.

#[global] Instance hex_encode_inj : Inj (=) (=) hex_encode.
Proof.
  intros s. induction s as [|b s IH]; intros [|c t]; cbn; [done..|]. intros [= E1 E2 E3]. apply IH in E3. subst t. f_equal.
  apply byte_to_Z_inj. pose proof (byte_to_Z_range b). pose proof (byte_to_Z_range c).
  apply hex_digit_inj in E1; [|split; [apply Z.div_pos; lia|apply Z.div_lt_upper_bound; lia]..].
  apply hex_digit_inj in E2; [|apply Z.mod_pos_bound; lia..].
  rewrite (Z.div_mod (byte_to_Z b) 16), (Z.div_mod (byte_to_Z c) 16) by done. congruence.
Qed.

Lemma dec_digits_low f n : 0 ≤ n → Forall (λ b, byte_to_Z b ≤ 57) (dec_digits f n).
Proof.
  revert n. induction f as [|f IH]; intros n Hn; cbn [dec_digits]; [constructor|].
  assert (∀ d, 0 ≤ d < 10 → byte_to_Z (digit_byte d) ≤ 57) as Hd
    by (intros d Hd; unfold digit_byte; rewrite byte_to_Z_to_byte, Z.mod_small; lia).
  destruct (n <? 10) eqn:E; bool_facts.
  - apply Forall_singleton, Hd. lia.
  - apply Forall_app; split; [apply IH, Z.div_pos; lia|]. apply Forall_singleton, Hd, Z.mod_pos_bound. lia.
Qed.

Lemma FormatInt_low n : Forall (λ b, mark b = false) (FormatInt n).
Proof.
  assert (∀ l, Forall (λ b, byte_to_Z b ≤ 57) l → Forall (λ b, mark b = false) l) as Himp.
  { intros l Hl. eapply Forall_impl; [exact Hl|]. intros b Hb. unfold mark. apply bool_decide_eq_false.
    intros [-> | ->]; by vm_compute in Hb. }
  unfold FormatInt. destruct (n <? 0) eqn:E; bool_facts.
  - constructor; [done|]. apply Himp, dec_digits_low. lia.
  - apply Himp, dec_digits_low. lia.
Qed.

Lemma Join_Forall (P : byte → Prop) sep l : Forall P sep → Forall (Forall P) l → Forall P (Join sep l).
Proof.
  intros Hs. induction 1 as [|x l Hx Hl IH]; [constructor|]. cbn. destruct l; [done|].
  by rewrite !Forall_app.
Qed.

Lemma Port_String_low p : Forall (λ b, mark b = false) (Port_String p).
Proof.
  unfold Port_String. apply Forall_app; split.
  - destruct (IsRange p); [|constructor]. by repeat constructor.
  - apply Join_Forall; [by repeat constructor|]. apply Forall_fmap, Forall_forall. intros x _. apply FormatInt_low.
Qed.

Definition port_text (port : option Port) : bytes := match port with Some p => Port_String p | None => [] end.

Lemma last_mark_inj l1 l2 c1 c2 t1 t2 :
  mark c1 = true → mark c2 = true → Forall (λ b, mark b = false) t1 → Forall (λ b, mark b = false) t2 →
  l1 ++ c1 :: t1 = l2 ++ c2 :: t2 → l1 = l2 ∧ c1 = c2 ∧ t1 = t2.
Proof.
  intros H1 H2 Ht1 Ht2. revert l2. induction l1 as [|a l1 IH]; intros [|b l2]; simpl; intros [= E1 E2].
  - done.
  - subst t1. rewrite Forall_app, Forall_cons in Ht1. destruct Ht1 as (_ & Hm & _). congruence.
  - subst t2. rewrite Forall_app, Forall_cons in Ht2. destruct Ht2 as (_ & Hm & _). congruence.
  - destruct (IH _ E2) as (-> & -> & ->). by subst.
Qed.

(** The protocols [convertToFirewallProtocol] gives. *)
Definition named (p : FwProtocol) : Prop := p = ProtocolTCP ∨ p = ProtocolUDP ∨ p = ProtocolICMP ∨ p = ProtocolALL.

Lemma named_split p : named p → ∃ init c, FwProtocol_String p = init ++ [c] ∧ mark c = true.
Proof.
  intros [-> |[-> |[-> | ->]]]; eexists _, _; (split; [|]);
    [apply (app_removelast_last Byte.x00); done|done|apply (app_removelast_last Byte.x00); done|done
    |apply (app_removelast_last Byte.x00); done|done|apply (app_removelast_last Byte.x00); done|done].
Qed.

Lemma named_suffix_inj x y p q :
  named p → named q → x ++ FwProtocol_String p = y ++ FwProtocol_String q → x = y ∧ p = q.
Proof.
  intros Hp Hq E. assert (p = q) as ->.
  { apply (f_equal reverse) in E. rewrite !reverse_app in E.
    destruct Hp as [-> |[-> |[-> | ->]]], Hq as [-> |[-> |[-> | ->]]]; try done; by vm_compute in E. }
  split; [|done]. by apply app_inv_tail in E.
Qed.

Lemma digit_text d : d = 0 ∨ d = 1 → ∃ c, FormatInt d = [c].
Proof. intros [-> | ->]; by eexists. Qed.

Lemma rule_id_inj ip1 ip2 p1 p2 d1 d2 port1 port2 a1 a2 :
  named p1 → named p2 → d1 = 0 ∨ d1 = 1 → d2 = 0 ∨ d2 = 1 →
  getPeerRuleID ip1 p1 d1 port1 a1 = getPeerRuleID ip2 p2 d2 port2 a2 →
  IP_String ip1 = IP_String ip2 ∧ p1 = p2 ∧ d1 = d2 ∧ port_text port1 = port_text port2 ∧ a1 = a2.
Proof.
  intros Hp1 Hp2 Hd1 Hd2 E. unfold getPeerRuleID in E. apply (inj hex_encode) in E. apply app_inv_tail in E.
  unfold rule_text in E. fold (port_text port1) (port_text port2) in E.
  set (t1 := FormatInt d1 ++ _) in E. set (t2 := FormatInt d2 ++ _) in E.
  destruct (named_split p1 Hp1) as (i1 & c1 & E1 & Hc1), (named_split p2 Hp2) as (i2 & c2 & E2 & Hc2).
  assert (∀ d a port, Forall (λ b, mark b = false) (FormatInt d ++ FormatInt (Action_int a) ++ port_text port)) as Hlow.
  { intros d a port. rewrite !Forall_app. split_and!; [apply FormatInt_low..|].
    destruct port; [apply Port_String_low|constructor]. }
  assert (IP_String ip1 ++ FwProtocol_String p1 = IP_String ip2 ++ FwProtocol_String p2 ∧ t1 = t2) as [Eh Et].
  { rewrite E1, E2 in *. rewrite <- !app_assoc in E. simpl in E. rewrite !app_assoc in E.
    destruct (last_mark_inj _ _ _ _ _ _ Hc1 Hc2 (Hlow _ _ _) (Hlow _ _ _) E) as (Ha & -> & Hb).
    split; [|exact Hb]. by rewrite !app_assoc, Ha. }
  destruct (named_suffix_inj _ _ _ _ Hp1 Hp2 Eh) as [-> ->]. unfold t1, t2 in Et.
  destruct Hd1 as [-> | ->], Hd2 as [-> | ->], a1, a2; cbn in Et; by simplify_eq.
Qed.

(** ** The promise of an update *)

Section update.
Context {FW Rule : Type} `{AclFirewall FW Rule}.
Context (parse_ip : bytes → option bytes) (selector : FirewallRule → bytes).

(** The rule id and the firewall rule a message asks for: outbound rules only
    matter to a firewall that does not track connections. *)
Definition request (stateful : bool) (r : FirewallRule) : option (bytes * peer_args) :=
  match convert_rule parse_ip r with
  | Ok (ip, proto, action, port) =>
      let key := getPeerRuleID ip proto (fr_Direction r) port action in
      if fr_Direction r =? RuleDirection_IN
      then Some (key, mkPeerArgs (fr_PolicyID r) ip proto None port action)
      else if stateful || shouldSkipInvertedRule proto port then None
      else Some (key, mkPeerArgs (fr_PolicyID r) ip proto port None action)
  | _ => None
  end.

(** A message that converts and has a direction. *)
Definition valid_rule (r : FirewallRule) : Prop :=
  (∃ x, convert_rule parse_ip r = Ok x) ∧ (fr_Direction r = RuleDirection_IN ∨ fr_Direction r = RuleDirection_OUT).

Definition wanted (stateful : bool) (rules : list FirewallRule) : gset bytes :=
  list_to_set (omap (λ r, fst <$> request stateful r) rules).

Record pairs_ok (stateful : bool) (pairs : gmap bytes (list Rule)) : Prop := {
  pairs_rules k rs : pairs !! k = Some rs → rs ≠ [] ∧ NoDup rs ∧
    ∃ r a, valid_rule r ∧ request stateful r = Some (k, a) ∧ Forall (λ x, implements x a) rs;
  pairs_disjoint k1 k2 rs1 rs2 x :
    pairs !! k1 = Some rs1 → pairs !! k2 = Some rs2 → x ∈ rs1 → x ∈ rs2 → k1 = k2;
}.

(** The firewall holds exactly the rules the manager knows of. *)
Definition acl_ok (pairs : gmap bytes (list Rule)) (fw : FW) : Prop :=
  fw_ok fw ∧ pairs_ok (fw_IsStateful fw) pairs ∧
  ∀ x, installed fw x ↔ ∃ k rs, pairs !! k = Some rs ∧ x ∈ rs.

Lemma convert_named p q : convertToFirewallProtocol p = Ok q → named q.
Proof. unfold convertToFirewallProtocol, named. repeat case_if; intros [= <-]; auto. Qed.

Lemma convert_rule_named r ip p a port : convert_rule parse_ip r = Ok (ip, p, a, port) → named p.
Proof.
  unfold convert_rule. destruct (parse_ip _); [|done].
  destruct (convertToFirewallProtocol _) eqn:E; [|done..]. cbn. destruct (convertFirewallAction _); [|done..]. cbn.
  destruct (rule_port r); [|done..]. cbn. intros [= <- <- <- <-]. by eapply convert_named.
Qed.

Lemma FormatInt_nonempty n : FormatInt n ≠ [].
Proof.
  unfold FormatInt. destruct (n <? 0) eqn:E; [done|]. bool_facts.
  by destruct (dec_digits_cons 19 n E) as (d & l & _ & ->).
Qed.

Lemma rule_port_text r p : rule_port r = Ok (Some p) → Port_String p ≠ [].
Proof.
  assert (∀ b x l, Port_String (mkPort b (x :: l)) ≠ []) as Hne.
  { intros b x l. unfold Port_String. cbn [IsRange Values]. destruct b; [done|]. cbn [app fmap list_fmap Join].
    pose proof (FormatInt_nonempty x). destruct (FormatInt x); [done|]. by destruct l. }
  unfold rule_port. destruct (negb (portInfoEmpty (fr_PortInfo r))).
  - intros [= E]. unfold convertPortInfo in E. destruct (fr_PortInfo r) as [i|]; [|done].
    destruct (negb (GetPort i =? 0)); [injection E as <-; apply Hne|].
    destruct (GetRange i) as [[s e]|]; [injection E as <-; apply Hne|done].
  - case_bool_decide; [done|]. destruct (ParseInt _) as [v|]; [|done].
    case_if; [done|]. intros [= <-]. apply Hne.
Qed.

Lemma convert_rule_port r ip p a q : convert_rule parse_ip r = Ok (ip, p, a, Some q) → port_text (Some q) ≠ [].
Proof.
  unfold convert_rule. destruct (parse_ip _); [|done].
  destruct (convertToFirewallProtocol _); [|done..]. cbn. destruct (convertFirewallAction _); [|done..]. cbn.
  destruct (rule_port r) as [po| |] eqn:E; [|done..]. cbn. intros [= <- <- <- ->]. by eapply rule_port_text.
Qed.

Lemma skip_text p port port' :
  shouldSkipInvertedRule p port = true → port_text port = port_text port' →
  (∀ q, port' = Some q → port_text (Some q) ≠ []) → shouldSkipInvertedRule p port' = true.
Proof.
  unfold shouldSkipInvertedRule. intros Hs Ht Hp. bool_facts. destruct Hs as [Hs|Hs]; [by rewrite Hs|].
  bool_facts. subst port. destruct port' as [q|]; [|by rewrite orb_true_r]. by destruct (Hp q eq_refl).
Qed.

(** A message that asks for nothing has the id of none that asks for a rule. *)
Lemma unwanted_key st r r' ip p a port k args :
  valid_rule r → valid_rule r' → convert_rule parse_ip r = Ok (ip, p, a, port) →
  request st r = None → request st r' = Some (k, args) → getPeerRuleID ip p (fr_Direction r) port a ≠ k.
Proof.
  intros [_ Hd] [[[[[ip' p'] a'] port'] Hc'] Hd'] Hc. unfold request. rewrite Hc, Hc'.
  intros Hn Hs Hk. assert (getPeerRuleID ip' p' (fr_Direction r') port' a' = k) as <-.
  { by destruct (_ =? _) in Hs; [|destruct (_ || _) in Hs]; simplify_eq. }
  destruct (rule_id_inj ip ip' p p' _ _ port port' a a' (convert_rule_named _ _ _ _ _ Hc) (convert_rule_named _ _ _ _ _ Hc')
    Hd Hd' Hk) as (_ & Ep & Ed & Ht & _). subst p'. rewrite <- Ed in Hs.
  destruct (fr_Direction r =? RuleDirection_IN); [done|]. destruct st; [done|]. cbn [orb] in *.
  destruct (shouldSkipInvertedRule p port) eqn:E; [|done].
  rewrite (skip_text p port port' E Ht) in Hs; [done|]. intros q ->. by eapply convert_rule_port.
Qed.

(** *** Deleting rules *)

Lemma delete_rules_ok rs fw : fw_ok fw → NoDup rs → (∀ x, x ∈ rs → installed fw x) →
  fw_ok (delete_rules fw rs) ∧ same_routes fw (delete_rules fw rs) ∧
  fw_IsStateful (delete_rules fw rs) = fw_IsStateful fw ∧
  ∀ x, installed (delete_rules fw rs) x ↔ installed fw x ∧ x ∉ rs.
Proof.
  revert fw. induction rs as [|r rs IH]; intros fw Hfw Hnd Hin; cbn [delete_rules].
  { split_and!; [done|by intros i|done|]. intros x. pose proof (not_elem_of_nil x). tauto. }
  apply NoDup_cons in Hnd as [Hr Hnd]. destruct (delete_peer_ok fw r Hfw) as (fw1 & E & Hfw1 & Hrt & Hst & Hi); [set_solver|].
  rewrite E. cbn [fst]. destruct (IH fw1 Hfw1 Hnd) as (H1 & H2 & H3 & H4).
  { intros x Hx. apply Hi. split; [set_solver|]. intros ->. done. }
  split_and!; [done| |congruence|].
  - intros i. by rewrite (H2 i).
  - intros x. rewrite H4, Hi, not_elem_of_cons. tauto.
Qed.

Lemma delete_entries (l : list (bytes * list Rule)) fw :
  foldl (λ fw e, delete_rules fw e.2) fw l = delete_rules fw (l ≫= snd).
Proof.
  revert fw. induction l as [|[k rs] l IH]; intros fw; [done|]. cbn. rewrite IH. clear IH.
  revert fw. induction rs as [|r rs IH]; intros fw; [done|]. cbn. apply IH.
Qed.

Lemma elem_of_entries (m : gmap bytes (list Rule)) x :
  x ∈ (map_to_list m ≫= snd) ↔ ∃ k rs, m !! k = Some rs ∧ x ∈ rs.
Proof.
  rewrite list_elem_of_bind. split.
  - intros ([k rs] & Hx & Hm). apply elem_of_map_to_list in Hm. eauto.
  - intros (k & rs & Hm & Hx). exists (k, rs). by rewrite elem_of_map_to_list.
Qed.

Lemma entries_NoDup st m : pairs_ok st m → NoDup (map_to_list m ≫= snd).
Proof.
  intros [Hr Hd].
  assert (∀ l : list (bytes * list Rule), NoDup l.*1 → (∀ k rs, (k, rs) ∈ l → m !! k = Some rs) → NoDup (l ≫= snd)) as Hg.
  { induction l as [|[k rs] l IH]; intros Hn Hl; cbn; [constructor|].
    apply NoDup_cons in Hn as [Hk Hn]. apply NoDup_app. split_and!.
    - eapply Hr, Hl. constructor.
    - intros x Hx (e & Hxe & He)%list_elem_of_bind. destruct e as [k' rs']. apply Hk, list_elem_of_fmap.
      exists (k', rs'). split; [|done]. cbn. apply (Hd k k' rs rs' x); [apply Hl; constructor|apply Hl; by constructor|done..].
    - apply IH; [done|]. intros k' rs' He. apply Hl. by constructor. }
  apply Hg; [apply NoDup_fst_map_to_list|]. intros k rs. by rewrite elem_of_map_to_list.
Qed.

Lemma pairs_ok_subseteq st m m' : pairs_ok st m → m' ⊆ m → pairs_ok st m'.
Proof.
  intros [Hr Hd] Hs. split.
  - intros k rs Hk. eapply Hr, lookup_weaken; done.
  - intros k1 k2 rs1 rs2 x H1 H2. eapply Hd; by eapply lookup_weaken.
Qed.

(** Deleting the rules of some entries leaves exactly the rules of the others. *)
Lemma delete_others pairs gone kept fw :
  acl_ok pairs fw → gone ⊆ pairs → kept ⊆ pairs →
  (∀ k, is_Some (pairs !! k) → gone !! k = None ↔ is_Some (kept !! k)) →
  let fw' := foldl (λ fw e, delete_rules fw e.2) fw (map_to_list gone) in
  acl_ok kept fw' ∧ same_routes fw fw' ∧ fw_IsStateful fw' = fw_IsStateful fw.
Proof.
  intros (Hfw & Hp & Hi) Hg Hk Hpart. cbv zeta. rewrite delete_entries.
  pose proof (pairs_ok_subseteq _ _ _ Hp Hg) as Hpg.
  destruct (delete_rules_ok (map_to_list gone ≫= snd) fw Hfw (entries_NoDup _ _ Hpg)) as (H1 & H2 & H3 & H4).
  { intros x (k & rs & Hx & Hin)%elem_of_entries. apply Hi. exists k, rs. split; [by eapply lookup_weaken|done]. }
  split_and!; [|done..]. split_and!; [done|rewrite H3; exact (pairs_ok_subseteq _ _ _ Hp Hk)|].
  intros x. rewrite H4, Hi, elem_of_entries. split.
  - intros [(k & rs & Hks & Hx) Hn]. exists k, rs. split; [|done].
    destruct (proj1 (Hpart k (ltac:(eauto)))) as [rs' Hrs'].
    { apply eq_None_not_Some. intros [rs' Hg']. apply Hn. exists k, rs'. split; [done|].
      apply (lookup_weaken _ _ _ _ Hg') in Hg. simplify_eq. done. }
    pose proof (lookup_weaken _ _ _ _ Hrs' Hk). simplify_eq. done.
  - intros (k & rs & Hks & Hx). pose proof (lookup_weaken _ _ _ _ Hks Hk) as Hpk. split; [by eauto|].
    intros (k' & rs' & Hg' & Hx'). pose proof (lookup_weaken _ _ _ _ Hg' Hg) as Hpk'.
    assert (k' = k) as -> by (by eapply (pairs_disjoint _ _ Hp)).
    pose proof (proj2 (Hpart k (ltac:(eauto))) (ltac:(eauto))). simplify_eq.
Qed.

Lemma wanted_cons st r rules :
  wanted st (r :: rules) = (match request st r with Some (k, _) => {[k]} | None => ∅ end) ∪ wanted st rules.
Proof. unfold wanted. cbn. destruct (request st r) as [[k a]|]; cbn; set_solver. Qed.

(** Entries that are not among the new ones. *)
Definition leftover (pairs new : gmap bytes (list Rule)) : gmap bytes (list Rule) :=
  filter (λ e, new !! e.1 = None) pairs.

Lemma leftover_spec pairs new k : is_Some (pairs !! k) → is_Some (leftover pairs new !! k) ↔ new !! k = None.
Proof.
  intros [rs Hk]. unfold leftover. rewrite map_lookup_filter, Hk. cbn.
  destruct (new !! k); cbn; [split; [by intros []|done]|]. split; eauto.
Qed.

(** *** One message *)

Section total.
(** The firewall accepts every rule the manager asks for. *)
Hypothesis add_total : ∀ fw r k a s, fw_ok fw → valid_rule r → request (fw_IsStateful fw) r = Some (k, a) →
  ∃ fw' rs, fw_AddPeer (Rule:=Rule) fw a s = (fw', Some rs).

Lemma add_pair pairs fw fw' k a s rs r :
  acl_ok pairs fw → pairs !! k = None → valid_rule r → request (fw_IsStateful fw) r = Some (k, a) →
  fw_AddPeer fw a s = (fw', Some rs) → acl_ok (<[k := rs]> pairs) fw' ∧ same_routes fw fw' ∧
    fw_IsStateful fw' = fw_IsStateful fw ∧ rs ≠ [].
Proof.
  intros (Hfw & [Hr Hd] & Hi) Hk Hv Hreq Ha. destruct (add_peer_ok _ _ _ _ _ Hfw Ha) as (H1 & H2 & H3 & H4 & H5 & H6 & H7).
  split_and!; [|done..]. split_and!; [done|split|].
  - intros k' rs'. rewrite H3. intros [[<- <-]|[Hne Hk']]%lookup_insert_Some; [|by eapply Hr].
    split_and!; [done..|]. exists r, a. split_and!; [done..|]. apply Forall_forall. intros x Hx. by apply H6.
  - assert (∀ k' rs' x, pairs !! k' = Some rs' → x ∈ rs' → x ∈ rs → False) as Hfresh.
    { intros k' rs' x Hk' Hx' Hx. apply (proj1 (H6 x Hx)), Hi. eauto. }
    intros k1 k2 rs1 rs2 x. rewrite !lookup_insert_Some. naive_solver.
  - intros x. rewrite H7, Hi. split.
    + intros [Hx|(k' & rs' & Hk' & Hx)]; [exists k, rs; by rewrite lookup_insert_eq|].
      exists k', rs'. rewrite lookup_insert_ne; [done|]. congruence.
    + intros (k' & rs' & [[<- <-]|[_ Hk']]%lookup_insert_Some & Hx); [by left|right; eauto].
Qed.

Lemma rule_step d fw r s :
  acl_ok (peerRulesPairs d) fw → valid_rule r →
  ∃ fw' key rs, protoRuleToFirewallRule parse_ip d fw r s = (fw', Ok (key, rs)) ∧
    same_routes fw fw' ∧ fw_IsStateful fw' = fw_IsStateful fw ∧
    match request (fw_IsStateful fw) r with
    | None => rs = [] ∧ fw' = fw
    | Some (k, _) => key = k ∧ rs ≠ [] ∧ acl_ok (<[k := rs]> (peerRulesPairs d)) fw' ∧
        (∀ rs0, peerRulesPairs d !! k = Some rs0 → rs0 = rs)
    end.
Proof.
  intros Hok Hv. pose proof Hv as [[[[[ip p] a] port] Hc] Hd]. pose proof Hok as (Hfw & Hp & Hi).
  unfold protoRuleToFirewallRule. rewrite Hc. set (key := getPeerRuleID ip p (fr_Direction r) port a).
  destruct (peerRulesPairs d !! key) as [rs|] eqn:Hk.
  - exists fw, key, rs. split_and!; [done|by intros i|done|].
    destruct (pairs_rules _ _ Hp _ _ Hk) as (Hne & _ & r' & a' & Hv' & Hr' & _).
    destruct (request (fw_IsStateful fw) r) as [[k args]|] eqn:Er.
    + assert (k = key) as ->.
      { unfold request in Er. rewrite Hc in Er. fold key in Er. by destruct (_ =? _) in Er; [|destruct (_ || _) in Er]; simplify_eq. }
      split_and!; [done..|by rewrite insert_id|congruence].
    + by destruct (unwanted_key _ _ _ _ _ _ _ _ _ Hv Hv' Hc Er Hr').
  - destruct (request (fw_IsStateful fw) r) as [[k args]|] eqn:Er.
    + pose proof Er as Er'. unfold request in Er'. rewrite Hc in Er'. fold key in Er'.
      destruct (add_total fw r k args s Hfw Hv Er) as (fw' & rs & Ha).
      assert (k = key) as -> by (by destruct (_ =? _) in Er'; [|destruct (_ || _) in Er']; simplify_eq).
      destruct (add_pair _ _ _ _ _ _ _ _ Hok Hk Hv Er Ha) as (H1 & H2 & H3 & H4).
      exists fw', key, rs. split_and!; [|done..|congruence].
      destruct (fr_Direction r =? RuleDirection_IN) eqn:Ed; [|destruct (fw_IsStateful fw || _) eqn:Es in Er'; [done|]].
      * injection Er' as <-. unfold addInRules. by rewrite Ha.
      * injection Er' as <-. apply orb_false_iff in Es as [-> Es2]. destruct Hd as [Hd|Hd]; rewrite Hd in *; [done|].
        cbn. unfold addOutRules. by rewrite Es2, Ha.
    + unfold request in Er. rewrite Hc in Er. destruct (fr_Direction r =? RuleDirection_IN) eqn:Ed; [done|].
      destruct Hd as [Hd|Hd]; rewrite Hd in *; [done|]. cbn.
      destruct (fw_IsStateful fw) eqn:Es; [by exists fw, [], []; split_and!; [done|by intros i|..]|].
      cbn [orb] in Er. unfold addOutRules. destruct (shouldSkipInvertedRule p port); [|done].
      exists fw, key, []. split_and!; [done|by intros i|done..].
Qed.

Lemma apply_rules_ok rules rest d fw new names :
  Forall valid_rule rules → acl_ok (peerRulesPairs d) fw → new ⊆ peerRulesPairs d →
  ∃ d' fw' new' names', apply_rules parse_ip selector d fw new names (rules ++ rest) =
      apply_rules parse_ip selector d' fw' new' names' rest ∧
    acl_ok (peerRulesPairs d') fw' ∧ same_routes fw fw' ∧ fw_IsStateful fw' = fw_IsStateful fw ∧
    peerRulesPairs d ⊆ peerRulesPairs d' ∧ new ⊆ new' ∧ new' ⊆ peerRulesPairs d' ∧ d_routeRules d' = d_routeRules d ∧
    dom new' = wanted (fw_IsStateful fw) rules ∪ dom new.
Proof.
  intros Hv. revert d fw new names. induction Hv as [|r rules Hr Hv IH]; intros d fw new names Hok Hsub; cbn [apply_rules app].
  { exists d, fw, new, names. split_and!; try done. unfold wanted. cbn. set_solver. }
  destruct (ipset_for selector d names r) as [[d1 names1] name] eqn:Ei.
  assert (peerRulesPairs d1 = peerRulesPairs d ∧ d_routeRules d1 = d_routeRules d) as [E1 E2].
  { unfold ipset_for in Ei. by destruct (names !! selector r); simplify_eq. }
  rewrite <- E1 in Hok, Hsub. destruct (rule_step d1 fw r name Hok Hr) as (fw1 & key & rs & -> & Hrt & Hst & Hcase).
  rewrite wanted_cons. destruct (request (fw_IsStateful fw) r) as [[k a]|].
  - destruct Hcase as (-> & Hne & Hok1 & Hold). destruct rs as [|x rs]; [done|]. set (rules' := x :: rs) in *.
    assert (peerRulesPairs d1 ⊆ <[k := rules']> (peerRulesPairs d1)) as Hext.
    { apply map_subseteq_spec. intros k' rs'. rewrite lookup_insert_Some. intros Hk'.
      destruct (decide (k = k')) as [<-|]; [left; split; [done|symmetry; by apply Hold]|by right]. }
    destruct (IH (set_pairs d1 (<[k := rules']> (peerRulesPairs d1))) fw1 (<[k := rules']> new) names1)
      as (d' & fw' & new' & names' & -> & H1 & H2 & H3 & H4 & H5 & H6 & H7 & H8); [done|cbn; by apply insert_mono|].
    exists d', fw', new', names'. cbn in H4. split_and!; try done.
    + intros i. by rewrite (H2 i), (Hrt i).
    + congruence.
    + rewrite <- E1. by etrans.
    + etrans; [|exact H5]. apply map_subseteq_spec. intros k' rs' Hk'. rewrite lookup_insert_Some.
      destruct (decide (k = k')) as [<-|]; [left; split; [done|]|by right].
      symmetry. apply Hold. by eapply lookup_weaken.
    + cbn in H7. congruence.
    + rewrite H8, Hst, dom_insert_L. set_solver.
  - destruct Hcase as [-> ->]. destruct (IH d1 fw new names1) as (d' & fw' & new' & names' & -> & H1 & H2 & H3 & H4 & H5 & H6 & H7 & H8); [done..|].
    exists d', fw', new', names'. split_and!; try done; [by rewrite <- E1|congruence|]. rewrite H8. set_solver.
Qed.

(** An update with valid rules only. *)
Lemma apply_peer_ok d fw nm :
  Forall valid_rule (effective_rules nm) → acl_ok (peerRulesPairs d) fw →
  ∃ d' fw', applyPeerACLs parse_ip selector d fw nm = (d', fw') ∧ acl_ok (peerRulesPairs d') fw' ∧
    same_routes fw fw' ∧ d_routeRules d' = d_routeRules d ∧
    dom (peerRulesPairs d') = wanted (fw_IsStateful fw) (effective_rules nm) ∧
    (∀ k rs, peerRulesPairs d !! k = Some rs → k ∈ wanted (fw_IsStateful fw) (effective_rules nm) →
       peerRulesPairs d' !! k = Some rs) ∧
    (∀ k rs k' rs' x, peerRulesPairs d !! k = Some rs → peerRulesPairs d' !! k' = Some rs' →
       x ∈ rs → x ∈ rs' → k = k').
Proof.
  intros Hv Hok. unfold applyPeerACLs.
  destruct (apply_rules_ok (effective_rules nm) [] d fw ∅ ∅ Hv Hok (map_empty_subseteq _))
    as (d1 & fw1 & new & names & E & H1 & H2 & H3 & H4 & _ & H6 & H7 & H8).
  rewrite app_nil_r in E. rewrite E. cbn [apply_rules]. eexists _, _. split; [done|].
  rewrite dom_empty_L, union_empty_r_L in H8. unfold clean_up. destruct (delete_others _ (filter (λ e, new !! e.1 = None) (peerRulesPairs d1)) new _ H1)
    as (Ha & Hb & Hc); [apply map_filter_subseteq|done| |].
  { intros k [rs Hk]. rewrite map_lookup_filter, Hk. cbn.
    destruct (new !! k) as [rs'|]; cbn; [split; eauto|]. split; [done|by intros []]. }
  cbn [peerRulesPairs set_pairs]. split_and!; try done.
  - intros i. by rewrite (Hb i), (H2 i).
  - intros k rs Hk Hw. rewrite <- H8, elem_of_dom in Hw. destruct Hw as [rs' Hn].
    pose proof (lookup_weaken _ _ _ _ Hk H4). pose proof (lookup_weaken _ _ _ _ Hn H6). simplify_eq. done.
  - intros k rs k' rs' x Hk Hk'. destruct H1 as (_ & Hp & _).
    apply (pairs_disjoint _ _ Hp); by eapply lookup_weaken.
Qed.

(** A rule that does not convert leaves the firewall without any peer rule, but
    the manager with the rules that came before it. *)
Lemma failed_update d fw nm good bad rest e :
  effective_rules nm = good ++ bad :: rest → Forall valid_rule good → convert_rule parse_ip bad = Err e →
  acl_ok (peerRulesPairs d) fw →
  ∃ d' fw', applyPeerACLs parse_ip selector d fw nm = (d', fw') ∧ fw_ok fw' ∧ fw_IsStateful fw' = fw_IsStateful fw ∧
    (∀ x, ¬ installed fw' x) ∧ pairs_ok (fw_IsStateful fw) (peerRulesPairs d') ∧
    dom (peerRulesPairs d') = wanted (fw_IsStateful fw) good.
Proof.
  intros En Hv Hbad Hok. unfold applyPeerACLs. rewrite En.
  destruct (apply_rules_ok good (bad :: rest) d fw ∅ ∅ Hv Hok (map_empty_subseteq _))
    as (d1 & fw1 & new & names & -> & H1 & _ & H3 & _ & _ & H6 & _ & H8).
  cbn [apply_rules]. destruct (ipset_for selector d1 names bad) as [[d2 names2] name] eqn:Ei.
  assert (peerRulesPairs d2 = peerRulesPairs d1) as E1.
  { unfold ipset_for in Ei. by destruct (names !! selector bad); simplify_eq. }
  unfold protoRuleToFirewallRule. rewrite Hbad. eexists _, _. split; [done|].
  rewrite E1. unfold rollBack, clean_up. fold (leftover (peerRulesPairs d1) new).
  destruct (delete_others _ new (leftover (peerRulesPairs d1) new) _ H1) as (Ha & _ & Hb);
    [done|apply map_filter_subseteq|intros k Hk; symmetry; by apply leftover_spec|].
  destruct (delete_others _ (leftover (peerRulesPairs d1) new) ∅ _ Ha) as ((Hc1 & Hc2 & Hc3) & _ & Hd);
    [done|apply map_empty_subseteq| |].
  { intros k [rs Hk]. rewrite lookup_empty. split; [by rewrite Hk|by intros []]. }
  cbn [peerRulesPairs set_pairs]. split_and!; [done|congruence| | |].
  - intros x Hx. apply Hc3 in Hx as (k & rs & Hk & _). by rewrite lookup_empty in Hk.
  - rewrite <- H3. eapply pairs_ok_subseteq; [|exact H6]. apply H1.
  - by rewrite H8, dom_empty_L, union_empty_r_L.
Qed.
End total.

(** Rules whose ids the manager knows are not given to the firewall again. *)
Lemma known_rules rules d fw new names :
  Forall valid_rule rules → pairs_ok (fw_IsStateful fw) (peerRulesPairs d) → new ⊆ peerRulesPairs d →
  wanted (fw_IsStateful fw) rules ⊆ dom (peerRulesPairs d) →
  ∃ d' new', apply_rules parse_ip selector d fw new names rules = (d', fw, new') ∧
    peerRulesPairs d' = peerRulesPairs d ∧ new' ⊆ peerRulesPairs d ∧
    dom new' = wanted (fw_IsStateful fw) rules ∪ dom new.
Proof.
  intros Hv. revert d new names. induction Hv as [|r rules Hr Hv IH]; intros d new names Hp Hsub Hw; cbn [apply_rules].
  { exists d, new. split_and!; try done. unfold wanted. cbn. set_solver. }
  destruct (ipset_for selector d names r) as [[d1 names1] name] eqn:Ei.
  assert (peerRulesPairs d1 = peerRulesPairs d) as E1.
  { unfold ipset_for in Ei. by destruct (names !! selector r); simplify_eq. }
  rewrite wanted_cons in Hw |- *. rewrite <- E1 in Hp, Hsub, Hw.
  pose proof Hr as [[[[[ip p] a] port] Hc] Hd]. unfold protoRuleToFirewallRule. rewrite Hc.
  set (key := getPeerRuleID ip p (fr_Direction r) port a) in *.
  assert (∀ k args, request (fw_IsStateful fw) r = Some (k, args) → k = key) as Hkey.
  { intros k args. unfold request. rewrite Hc. fold key. by destruct (_ =? _); [|destruct (_ || _)]; intros; simplify_eq. }
  destruct (peerRulesPairs d1 !! key) as [rs|] eqn:Hk.
  - destruct (pairs_rules _ _ Hp _ _ Hk) as (Hne & _ & r' & a' & Hv' & Hr' & _).
    destruct (request (fw_IsStateful fw) r) as [[k args]|] eqn:Er;
      [|by destruct (unwanted_key _ _ _ _ _ _ _ _ _ Hr Hv' Hc Er Hr')].
    rewrite (Hkey k args eq_refl) in *. destruct rs as [|x rs]; [done|]. rewrite insert_id by done.
    destruct (IH (set_pairs d1 (peerRulesPairs d1)) (<[key := x :: rs]> new) names1) as (d' & new' & -> & H1 & H2 & H3);
      [done|cbn; by apply insert_subseteq_l|set_solver|].
    exists d', new'. cbn in H1, H2. split_and!; [done|by rewrite H1, E1|by rewrite <- E1|].
    rewrite H3, dom_insert_L. set_solver.
  - destruct (request (fw_IsStateful fw) r) as [[k args]|] eqn:Er.
    { rewrite (Hkey k args eq_refl) in Hw. assert (key ∈ dom (peerRulesPairs d1)) as Hin by set_solver.
      apply elem_of_dom in Hin as [? Hin]. congruence. }
    destruct (IH d1 new names1 Hp Hsub) as (d' & new' & E & H1 & H2 & H3); [set_solver|].
    exists d', new'. split_and!; [|congruence|by rewrite <- E1|rewrite H3; clear; set_solver]. rewrite <- E.
    unfold request in Er. rewrite Hc in Er. destruct (fr_Direction r =? RuleDirection_IN) eqn:Ed; [done|].
    destruct Hd as [Hd|Hd]; rewrite Hd in *; [done|]. cbn. destruct (fw_IsStateful fw); [done|]. cbn in Er.
    unfold addOutRules. by destruct (shouldSkipInvertedRule p port).
Qed.
End update.

(** ** Route rules *)

Section routes.
Context {FW Rule : Type} `{AclFirewall FW Rule}.
Context (parse_prefix : bytes → option Prefix) (unicode_lower : bytes → bytes) (to_unicode : bytes → option bytes).

(** What a route rule of the network map asks for: the rule of the firewall is filed
    under the digest of this request. *)
Definition route_request (r : RouteFirewallRule) (dyn : bool) : option bytes :=
  match rf_SourceRanges r with
  | [] => None
  | ranges =>
      sources ← mapM parse_prefix ranges;
      match determineDestination parse_prefix unicode_lower to_unicode r dyn sources, convertToFirewallProtocol (rf_Protocol r),
            convertFirewallAction (rf_Action r) with
      | Ok dst, Ok protocol, Ok action =>
          Some (GenerateRouteRuleKey sources dst protocol None (convertPortInfo (rf_PortInfo r)) action)
      | _, _, _ => None
      end
  end.

Definition wanted_routes (rules : list RouteFirewallRule) (dyn : bool) : gset bytes :=
  list_to_set (omap (λ r, route_request r dyn) rules).

(** The firewall takes every route rule. *)
Definition routes_total : Prop :=
  ∀ fw m ss d p sp dp a, fw_ok fw → (fw_AddRoute (Rule:=Rule) fw m ss d p sp dp a).2 ≠ None.

Lemma apply_route_ok fw r dyn :
  fw_ok fw → ∃ fw' res, applyRouteACL (Rule:=Rule) parse_prefix unicode_lower to_unicode fw r dyn = (fw', res) ∧
    fw_ok fw' ∧ same_peers fw fw' ∧ res ≠ Panic ∧
    (∀ i, route_installed fw' i ↔ res = Ok i ∨ route_installed fw i) ∧
    (∀ i, res = Ok i → route_request r dyn = Some i) ∧ (routes_total → ∀ i, route_request r dyn = Some i → res = Ok i).
Proof.
  intros Hfw. unfold applyRouteACL.
  assert (∀ e : aclErr, route_request r dyn = None → fw_ok fw ∧ same_peers fw fw ∧ Err e ≠ (Panic : outcome aclErr bytes) ∧
    (∀ i, route_installed fw i ↔ Err e = Ok i ∨ route_installed fw i) ∧
    (∀ i, Err e = Ok i → route_request r dyn = Some i) ∧ (routes_total → ∀ i, route_request r dyn = Some i → Err e = Ok i)) as Hsame.
  { intros e Hnone. split_and!; [done|by split|done| |done|congruence]. intros i. split; [by right|]. by intros [|]. }
  unfold route_request in *. destruct (rf_SourceRanges r) as [|s0 ranges] eqn:Es; [eauto|].
  destruct (mapM parse_prefix (s0 :: ranges)) as [sources|] eqn:Em; [|eauto]. cbn [mbind option_bind] in *.
  assert (∃ s, sources !! 0%nat = Some s) as [s Hs].
  { apply mapM_Some, Forall2_length in Em. by destruct sources; [|eexists]. }
  assert (determineDestination parse_prefix unicode_lower to_unicode r dyn sources ≠ Panic) as Hd.
  { unfold determineDestination. destruct (rf_IsDynamic r); [destruct (_ && _); [done|]; unfold go_index; by rewrite Hs|by destruct (parse_prefix _)]. }
  assert (convertToFirewallProtocol (rf_Protocol r) ≠ Panic) as Hp by (unfold convertToFirewallProtocol; by repeat case_if).
  assert (convertFirewallAction (rf_Action r) ≠ Panic) as Ha by (unfold convertFirewallAction; by repeat case_if).
  destruct (determineDestination _ _ _ r dyn sources) as [dst| |]; [|eauto|done]. cbn [obind].
  destruct (convertToFirewallProtocol _) as [p| |]; [|eauto|done]. cbn [obind].
  destruct (convertFirewallAction _) as [a| |]; [|eauto|done]. cbn [obind].
  destruct (fw_AddRoute fw _ _ _ _ _ _ _) as [fw' [id|]] eqn:Ea.
  - destruct (add_route_ok _ _ _ _ _ _ _ _ _ _ Hfw Ea) as (H1 & H2 & H3 & ->). eexists fw', (Ok _).
    split_and!; [done..| |by intros i [= <-]|by intros _ i [= <-]].
    intros i. rewrite H3. split; (intros [Hi|Hi]; [left|by right]); [by subst|by injection Hi].
  - destruct (add_route_err _ _ _ _ _ _ _ _ _ Hfw Ea) as (H1 & H2 & H3). exists fw', (Err errFirewall).
    split_and!; [done..| |done|]; [intros i; rewrite (H3 i); split; [by right|]; by intros [|]|].
    intros Ht. destruct (Ht fw (rf_PolicyID r) sources dst p None (convertPortInfo (rf_PortInfo r)) a Hfw). by rewrite Ea.
Qed.

Lemma same_peers_trans fw1 fw2 fw3 : same_peers fw1 fw2 → same_peers fw2 fw3 → same_peers fw1 fw3.
Proof. intros [A1 A2] [B1 B2]. split; [congruence|]. intros r. by rewrite B2, A2. Qed.

Lemma add_routes_ok rules fw new dyn :
  fw_ok fw → (∀ i, i ∈ new → route_installed fw i) → ∃ fw' new' errs,
    add_routes (Rule:=Rule) parse_prefix unicode_lower to_unicode fw new rules dyn = Ok (fw', new', errs) ∧
    fw_ok fw' ∧ same_peers fw fw' ∧ new ⊆ new' ∧ (∀ i, route_installed fw' i ↔ i ∈ new' ∨ route_installed fw i) ∧
    new' ⊆ new ∪ wanted_routes rules dyn ∧ (routes_total → wanted_routes rules dyn ⊆ new').
Proof.
  assert (∀ r rules, wanted_routes (r :: rules) dyn = match route_request r dyn with Some i => {[i]} | None => ∅ end ∪ wanted_routes rules dyn) as Hw.
  { intros r l. unfold wanted_routes. csimpl. destruct (route_request r dyn); [done|]. by rewrite (left_id_L ∅ (∪)). }
  revert fw new. induction rules as [|r rules IH]; intros fw new Hfw Hnew; cbn [add_routes].
  { exists fw, new, []. split_and!; [done..|by split|done| |set_solver|intros _; apply empty_subseteq]. intros i. specialize (Hnew i). tauto. }
  destruct (apply_route_ok fw r dyn Hfw) as (fw1 & res & -> & H1 & H2 & H3 & H4 & H5 & H6). rewrite Hw. destruct res as [id|e|]; [| |done].
  - destruct (IH fw1 ({[id]} ∪ new) H1) as (fw2 & new2 & errs & E & G1 & G2 & G3 & G4 & G5 & G6).
    { intros i [->%elem_of_singleton|Hi]%elem_of_union; apply H4; [by left|right; by apply Hnew]. }
    rewrite (H5 id eq_refl). exists fw2, new2, errs.
    split_and!; [done..|by eapply same_peers_trans|set_solver| |set_solver|intros Ht; specialize (G6 Ht); set_solver].
    intros i. rewrite G4, H4. split; [|tauto]. intros [Hi|[[= <-]|Hi]]; [by left|left; set_solver|by right].
  - assert (∀ i, route_installed fw1 i ↔ route_installed fw i) as Hsame.
    { intros i. rewrite H4. split; [by intros [|]|by right]. }
    destruct (IH fw1 new H1) as (fw2 & new2 & errs & -> & G1 & G2 & G3 & G4 & G5 & G6); [intros i Hi; by apply Hsame, Hnew|].
    eexists fw2, new2, _. cbn [obind]. split_and!; [done..|by eapply same_peers_trans|done| |set_solver|].
    + intros i. by rewrite G4, Hsame.
    + intros Ht. destruct (route_request r dyn) as [i|]; [by specialize (H6 Ht i eq_refl)|]. specialize (G6 Ht). set_solver.
Qed.

Lemma delete_routes_ok ids fw :
  fw_ok fw → NoDup ids → (∀ i, i ∈ ids → route_installed fw i) →
  ∃ fw', delete_routes (Rule:=Rule) fw ids = (fw', []) ∧ fw_ok fw' ∧ same_peers fw fw' ∧
    ∀ i, route_installed fw' i ↔ route_installed fw i ∧ i ∉ ids.
Proof.
  revert fw. induction ids as [|id ids IH]; intros fw Hfw Hnd Hin; cbn [delete_routes].
  { exists fw. split_and!; [done..|by split|]. intros i. pose proof (not_elem_of_nil i). tauto. }
  apply NoDup_cons in Hnd as [Hid Hnd]. destruct (delete_route_ok fw id Hfw) as (fw1 & -> & H1 & H2 & H3); [set_solver|].
  destruct (IH fw1 H1 Hnd) as (fw2 & -> & G1 & G2 & G3).
  { intros i Hi. apply H3. split; [set_solver|]. by intros ->. }
  exists fw2. split_and!; [done..|by eapply same_peers_trans|]. intros i. rewrite G3, H3, not_elem_of_cons. tauto.
Qed.

(** An update deletes exactly the managed rules that are not asked for again. *)
Lemma apply_routes_ok (d : DefaultManager (Rule:=Rule)) fw rules dyn :
  fw_ok fw → (∀ i, i ∈ d_routeRules d → route_installed fw i) →
  ∃ d' fw' errs, applyRouteACLs parse_prefix unicode_lower to_unicode d fw rules dyn = Ok (d', fw', errs) ∧
    fw_ok fw' ∧ same_peers fw fw' ∧ peerRulesPairs d' = peerRulesPairs d ∧
    (∀ i, route_installed fw' i ↔ i ∈ d_routeRules d' ∨ (route_installed fw i ∧ i ∉ d_routeRules d)) ∧
    d_routeRules d' ⊆ wanted_routes rules dyn ∧ (routes_total → d_routeRules d' = wanted_routes rules dyn).
Proof.
  intros Hfw Hman. unfold applyRouteACLs.
  destruct (add_routes_ok rules fw ∅ dyn Hfw) as (fw1 & new & errs & -> & H1 & H2 & _ & H4 & H5 & H6); [set_solver|]. cbn [obind].
  destruct (delete_routes_ok (elements (d_routeRules d ∖ new)) fw1 H1) as (fw2 & -> & G1 & G2 & G3); [apply NoDup_elements| |].
  { intros i Hi. apply H4. right. apply Hman. set_solver. }
  eexists _, fw2, _. split; [done|]. cbn [d_routeRules].
  split_and!; [done|by eapply same_peers_trans|done| |set_solver|intros Ht; specialize (H6 Ht); set_solver].
  intros i. rewrite G3, H4, elem_of_elements, elem_of_difference. destruct (decide (i ∈ new)); tauto.
Qed.
End routes.

(** ** The claims *)

(** C10: when the firewall holds exactly the rules of the last update and takes every
    peer rule it is given, an update whose peer rules all convert never panics and
    leaves the firewall with exactly the rules the new network map asks for: every
    peer rule asked for is there under its id and implements a message with that id,
    nothing else is, rules that stay are not touched in between.  The managed route
    rules are route rules the network map asks for, identified by the digest of their
    contents, and all of them when the firewall takes every route rule; managed rules
    that are not asked for are deleted, and route rules of others are left alone.
    A network map without rules and without the mark of an empty list asks for
    accepting everything. *)
Theorem acl_update_exact {FW Rule} `{AclFirewall FW Rule} parse_ip parse_prefix selector unicode_lower to_unicode
    (d : DefaultManager (Rule:=Rule)) (fw : FW) nm flag :
  (∀ fw r k a s, fw_ok fw → valid_rule parse_ip r → request parse_ip (fw_IsStateful fw) r = Some (k, a) →
     ∃ fw' rs, fw_AddPeer (Rule:=Rule) fw a s = (fw', Some rs)) →
  Forall (valid_rule parse_ip) (effective_rules nm) →
  acl_ok parse_ip (peerRulesPairs d) fw → (∀ i, i ∈ d_routeRules d → route_installed fw i) →
  ∃ d' fw', ApplyFiltering parse_ip parse_prefix selector unicode_lower to_unicode d (Some fw) nm flag = Ok (d', Some fw') ∧
    acl_ok parse_ip (peerRulesPairs d') fw' ∧
    dom (peerRulesPairs d') = wanted parse_ip (fw_IsStateful fw) (effective_rules nm) ∧
    (∀ k rs x, peerRulesPairs d !! k = Some rs → x ∈ rs →
       (installed fw' x ↔ k ∈ wanted parse_ip (fw_IsStateful fw) (effective_rules nm))) ∧
    (∀ i, route_installed fw' i ↔ i ∈ d_routeRules d' ∨ (route_installed fw i ∧ i ∉ d_routeRules d)) ∧
    let wantedRoutes := wanted_routes parse_prefix unicode_lower to_unicode (nm_RoutesFirewallRules nm) flag in
    d_routeRules d' ⊆ wantedRoutes ∧ (routes_total (FW:=FW) (Rule:=Rule) → d_routeRules d' = wantedRoutes).
Proof.
  intros Ht Hv Hok Hrt. unfold ApplyFiltering.
  destruct (apply_peer_ok parse_ip selector Ht d fw nm Hv Hok) as (d1 & fw1 & -> & H1 & H2 & H3 & H4 & H5 & H6).
  destruct (apply_routes_ok parse_prefix unicode_lower to_unicode d1 fw1 (nm_RoutesFirewallRules nm) flag)
    as (d2 & fw2 & errs & -> & G1 & [G2 G3] & G4 & G5 & G6); [apply H1|intros i; rewrite H3, (H2 i); apply Hrt|].
  destruct (flush_ok fw2 G1) as (F1 & [F2 F3] & F4).
  assert (acl_ok parse_ip (peerRulesPairs d2) (fw_Flush fw2)) as Hacl.
  { destruct H1 as (_ & P2 & P3). split_and!; [done|by rewrite F2, G2, G4|]. intros x. by rewrite F3, G3, G4. }
  exists d2, (fw_Flush fw2). split; [done|]. split; [done|]. split; [by rewrite G4|]. split; [|split; [|exact G6]].
  - intros k rs x Hk Hx. rewrite F3, G3, (proj2 (proj2 H1) x). split.
    + intros (k' & rs' & Hk' & Hx'). rewrite (H6 _ _ _ _ _ Hk Hk' Hx Hx'), <- H4. by eapply elem_of_dom_2.
    + intros Hw. exists k, rs. split; [by apply H5|done].
  - intros i. rewrite (F4 i), G5, (H2 i), H3. done.
Qed.

(** one peer rule that does not convert - the address of a peer that does not
    parse, an unknown protocol - leaves the firewall without any peer rule, and
    for good: the manager keeps the ids of the rules before it although the
    rollback has deleted them, so a later network map with these rules, now
    without the bad one, adds nothing.  The log speaks of a rollback to the
    previous state. *)
Theorem acl_rollback_loses_rules {FW Rule} `{AclFirewall FW Rule} parse_ip selector (d : DefaultManager (Rule:=Rule)) (fw : FW)
    nm good bad rest e nm2 :
  (∀ fw r k a s, fw_ok fw → valid_rule parse_ip r → request parse_ip (fw_IsStateful fw) r = Some (k, a) →
     ∃ fw' rs, fw_AddPeer (Rule:=Rule) fw a s = (fw', Some rs)) →
  effective_rules nm = good ++ bad :: rest → Forall (valid_rule parse_ip) good → convert_rule parse_ip bad = Err e →
  effective_rules nm2 = good → acl_ok parse_ip (peerRulesPairs d) fw →
  ∃ d' fw' d2, applyPeerACLs parse_ip selector d fw nm = (d', fw') ∧ (∀ x, ¬ installed fw' x) ∧
    applyPeerACLs parse_ip selector d' fw' nm2 = (d2, fw').
Proof.
  intros Ht En Hv Hbad En2 Hok.
  destruct (failed_update parse_ip selector Ht d fw nm good bad rest e En Hv Hbad Hok) as (d' & fw' & E & H1 & H2 & H3 & H4 & H5).
  rewrite <- H2 in H4, H5. exists d', fw'. unfold applyPeerACLs at 2. rewrite En2.
  destruct (known_rules parse_ip selector good d' fw' ∅ ∅ Hv H4 (map_empty_subseteq _)) as (d2 & new & -> & H6 & H7 & H8);
    [by rewrite H5|].
  eexists. split_and!; [done..|]. f_equal. unfold clean_up. rewrite H6.
  assert (filter (λ e, new !! e.1 = None) (peerRulesPairs d') = ∅) as ->; [|by rewrite map_to_list_empty].
  apply map_empty. intros k. apply map_lookup_filter_None. right. intros rs Hk Hn. cbn in Hn.
  assert (k ∈ dom new) as Hd; [|apply elem_of_dom in Hd as [? Hd]; congruence].
  rewrite H8, dom_empty_L, union_empty_r_L, <- H5. by eapply elem_of_dom_2.
Qed.
