(* ===== verification/AclUpdate.v ===== *)
(** * Applying network maps to the userspace firewall

    The rule tables of the userspace firewall ([FirewallRules]) implement the
    interface the ACL manager is proved against ([AclManager]), so its claims
    hold for the userspace firewall; the examples apply them to it. *)

From stdpp Require Import base list gmap strings.
From S2P Require Import Prelude GoStd GoStrings NetIP FirewallNAT FirewallRules Routes AclManager.

#[local] Open Scope go_scope.

(** ** The userspace firewall as the manager's firewall

    Rule ids are fresh UUIDs of an external library: the [n]-th one is [uuid n],
    and no two are equal. *)

Record usp := mkUsp { u_rules : rules; u_next : nat; u_stateful : bool }.

Section instance.
Context (uuid : nat → bytes) `{!Inj (=) (=) uuid}.

Definition usp_AddPeer (fw : usp) (a : peer_args) (ipset : bytes) : usp * option (list PeerRule) :=
  match AddPeerFiltering (uuid (u_next fw)) (u_rules fw) (pa_mgmtId a) (pa_ip a) (pa_proto a) (pa_sPort a) (pa_dPort a) (pa_action a) with
  | Ok (m, r) => (mkUsp m (S (u_next fw)) (u_stateful fw), Some [r])
  | _ => (fw, None)
  end.

Definition with_rules (fw : usp) (res : outcome ruleErr rules) : usp * bool :=
  match res with Ok m => (mkUsp m (u_next fw) (u_stateful fw), true) | _ => (fw, false) end.

Definition usp_DeletePeer (fw : usp) (r : PeerRule) : usp * bool := with_rules fw (DeletePeerRule (u_rules fw) r).

Definition usp_AddRoute (fw : usp) (mgmt : bytes) (sources : list Prefix) (dst : Network) (p : FwProtocol)
    (sp dp : option Port) (a : Action) : usp * option bytes :=
  let key := GenerateRouteRuleKey sources dst p sp dp a in
  let '(m, id) := addRouteRule (u_rules fw) key mgmt (SortPrefixes sources) dst p sp dp a in
  (mkUsp m (u_next fw) (u_stateful fw), Some id).

Definition usp_DeleteRoute (fw : usp) (id : bytes) : usp * bool := with_rules fw (removeRouteRule (u_rules fw) id).

(** The rule that is filed at a place: the table, the address and the id. *)
Definition find_rule (m : rules) (drop : bool) (ip : Addr) (id : bytes) : option PeerRule :=
  (if drop then incomingDenyRules m else incomingRules m) !! ip ≫= (.!! id).

Definition at_place (r : PeerRule) (drop : bool) (ip : Addr) (id : bytes) : bool :=
  bool_decide (pe_drop r = drop ∧ pe_ip r = ip ∧ pe_id r = id).

Definition filed (m : rules) (r : PeerRule) : Prop := find_rule m (pe_drop r) (pe_ip r) (pe_id r) = Some r.

Definition usp_ok (fw : usp) : Prop :=
  rules_ok (u_rules fw) ∧ ∀ r, filed (u_rules fw) r → ∃ n, (n < u_next fw)%nat ∧ pe_id r = uuid n.

Definition usp_implements (r : PeerRule) (a : peer_args) : Prop :=
  ∃ i, AddrFromSlice (pa_ip a) = Some i ∧
    r = newPeerRule (pe_id r) (pa_mgmtId a) (Unmap i) (pa_proto a) (pa_sPort a) (pa_dPort a) (pa_action a).

Lemma add_to_find m r ip id :
  add_to m r !! ip ≫= (.!! id) = if bool_decide (pe_ip r = ip ∧ pe_id r = id) then Some r else m !! ip ≫= (.!! id).
Proof.
  unfold add_to. case_bool_decide as E.
  - destruct E as [<- <-]. rewrite lookup_insert_eq. cbn. by rewrite lookup_insert_eq.
  - destruct (decide (pe_ip r = ip)) as [<-|Hi]; [|by rewrite lookup_insert_ne]. rewrite lookup_insert_eq. cbn.
    rewrite lookup_insert_ne by tauto. by destruct (m !! pe_ip r).
Qed.

Lemma delete_from_find m r :
  m !! pe_ip r ≫= (.!! pe_id r) = Some r →
  ∃ m', delete_from m r = Ok m' ∧ ∀ ip id,
    m' !! ip ≫= (.!! id) = if bool_decide (pe_ip r = ip ∧ pe_id r = id) then None else m !! ip ≫= (.!! id).
Proof.
  unfold delete_from. destruct (m !! pe_ip r) as [s|] eqn:Hm; [|done]. cbn. intros Hs. rewrite Hs.
  eexists. split; [done|]. intros ip id. destruct (decide (pe_ip r = ip)) as [<-|Hi].
  - rewrite Hm. cbn. transitivity (delete (pe_id r) s !! id).
    + case_bool_decide as Ee; [by rewrite lookup_delete_eq, Ee, lookup_empty|by rewrite lookup_insert_eq].
    + case_bool_decide as E; [destruct E as [_ <-]; apply lookup_delete_eq|apply lookup_delete_ne; tauto].
  - rewrite (bool_decide_false (pe_ip r = ip ∧ pe_id r = id)) by tauto. f_equal.
    case_bool_decide; [by rewrite lookup_delete_ne|by rewrite lookup_insert_ne].
Qed.

Lemma add_find uuid' m mgmt ip p sp dp a m' r :
  AddPeerFiltering uuid' m mgmt ip p sp dp a = Ok (m', r) →
  routeRules m' = routeRules m ∧ routeRulesMap m' = routeRulesMap m ∧
  ∀ drop i id, find_rule m' drop i id = if at_place r drop i id then Some r else find_rule m drop i id.
Proof.
  unfold AddPeerFiltering. destruct (AddrFromSlice ip) as [i|]; [|done].
  set (q := newPeerRule _ _ _ _ _ _ _). clearbody q.
  destruct (pe_drop q) eqn:E; intros [= <- <-]; (split_and!; [done..|]); intros drop ip' id; unfold find_rule, at_place;
    cbn [incomingDenyRules incomingRules]; rewrite E; destruct drop; rewrite ?add_to_find;
    repeat case_bool_decide; try done; naive_solver.
Qed.

Lemma delete_find m r :
  filed m r → ∃ m', DeletePeerRule m r = Ok m' ∧ routeRules m' = routeRules m ∧ routeRulesMap m' = routeRulesMap m ∧
    ∀ drop i id, find_rule m' drop i id = if at_place r drop i id then None else find_rule m drop i id.
Proof.
  unfold filed, find_rule, DeletePeerRule. destruct (pe_drop r) eqn:E; intros Hf;
    destruct (delete_from_find _ _ Hf) as (m' & -> & Hm'); cbn [obind]; (eexists; split_and!; [done..|]);
    intros drop ip id; unfold at_place; cbn [incomingDenyRules incomingRules]; rewrite E; destruct drop; rewrite ?Hm';
    repeat case_bool_decide; try done; naive_solver.
Qed.

Lemma place_inj m r r' : filed m r' → filed m r → at_place r (pe_drop r') (pe_ip r') (pe_id r') = bool_decide (r' = r).
Proof.
  unfold filed, at_place. intros Hr' Hr. apply bool_decide_ext. split; [|by intros ->].
  intros (E1 & E2 & E3). rewrite E1, E2, E3 in Hr. congruence.
Qed.

(** Operations that do not touch the route rules keep their invariant. *)
Lemma rules_ok_routes m m' : rules_ok m → routeRules m' = routeRules m → routeRulesMap m' = routeRulesMap m → rules_ok m'.
Proof. intros [? ? ?] E1 E2. split; by rewrite ?E1, ?E2. Qed.

Lemma usp_add_peer_ok fw a s fw' rs : usp_ok fw → usp_AddPeer fw a s = (fw', Some rs) →
  usp_ok fw' ∧ (∀ i, i ∈ routeRulesMap (u_rules fw') ↔ i ∈ routeRulesMap (u_rules fw)) ∧
  u_stateful fw' = u_stateful fw ∧ rs ≠ [] ∧ NoDup rs ∧
  (∀ r, r ∈ rs → ¬ filed (u_rules fw) r ∧ usp_implements r a) ∧
  (∀ r, filed (u_rules fw') r ↔ r ∈ rs ∨ filed (u_rules fw) r).
Proof.
  intros [Hrt Hids]. unfold usp_AddPeer. destruct (AddPeerFiltering _ _ _ _ _ _ _ _) as [[m r]|e|] eqn:Ea; [|done..].
  intros [= <- <-]. destruct (add_find _ _ _ _ _ _ _ _ _ _ Ea) as (E1 & E2 & Hf).
  assert (pe_id r = uuid (u_next fw) ∧ usp_implements r a) as [Hid Himp].
  { unfold AddPeerFiltering in Ea. destruct (AddrFromSlice (pa_ip a)) as [i|] eqn:Ei; [|done].
    destruct (pe_drop _) in Ea; injection Ea as _ <-; (split; [done|by exists i]). }
  assert (∀ x, filed (u_rules fw) x → pe_id x ≠ pe_id r) as Hne.
  { intros x Hx Ex. destruct (Hids x Hx) as (n & Hn & En). rewrite Hid, En in Ex. apply (inj uuid) in Ex. lia. }
  assert (∀ x, filed m x ↔ x ∈ [r] ∨ filed (u_rules fw) x) as Hiff.
  { intros x. rewrite list_elem_of_singleton. unfold filed at 1. rewrite Hf. unfold at_place. case_bool_decide as E.
    - split; [intros [= ->]; by left|]. intros [->|Hx]; [done|]. destruct (Hne x Hx); symmetry; apply E.
    - split; [by right|]. intros [->|Hx]; [tauto|done]. }
  cbn [u_rules u_stateful]. split_and!; try done.
  - split; [by eapply rules_ok_routes|]. intros x Hx. cbn in Hx |- *.
    apply Hiff in Hx as [->%list_elem_of_singleton|Hx]; [exists (u_next fw); split; [lia|done]|].
    destruct (Hids x Hx) as (n & ? & ?). exists n. split; [lia|done].
  - intros i. by rewrite E2.
  - apply NoDup_singleton.
  - intros x ->%list_elem_of_singleton. split; [|done]. intros Hx. by apply (Hne r Hx).
Qed.

Lemma usp_delete_peer_ok fw r : usp_ok fw → filed (u_rules fw) r →
  ∃ fw', usp_DeletePeer fw r = (fw', true) ∧ usp_ok fw' ∧
    (∀ i, i ∈ routeRulesMap (u_rules fw') ↔ i ∈ routeRulesMap (u_rules fw)) ∧ u_stateful fw' = u_stateful fw ∧
    ∀ x, filed (u_rules fw') x ↔ filed (u_rules fw) x ∧ x ≠ r.
Proof.
  intros [Hrt Hids] Hr. unfold usp_DeletePeer. destruct (delete_find _ _ Hr) as (m & -> & E1 & E2 & Hf).
  assert (∀ x, filed m x ↔ filed (u_rules fw) x ∧ x ≠ r) as Hiff.
  { intros x. unfold filed at 1. rewrite Hf. split.
    - destruct (at_place r _ _ _) eqn:E; [done|]. intros Hx. split; [done|]. intros ->.
      rewrite (place_inj _ _ _ Hr Hr), bool_decide_true in E; done.
    - intros [Hx Hn]. rewrite (place_inj _ _ _ Hx Hr), bool_decide_false; done. }
  eexists. split; [done|]. cbn [u_rules u_stateful]. split_and!; [split|intros i; by rewrite E2|done|done].
  - by eapply rules_ok_routes.
  - intros x Hx. apply Hiff in Hx as [Hx _]. by apply Hids.
Qed.

Lemma usp_add_route_ok fw mgmt ss d p sp dp a fw' id : usp_ok fw → usp_AddRoute fw mgmt ss d p sp dp a = (fw', Some id) →
  usp_ok fw' ∧ (u_stateful fw' = u_stateful fw ∧ ∀ r, filed (u_rules fw') r ↔ filed (u_rules fw) r) ∧
  (∀ i, i ∈ routeRulesMap (u_rules fw') ↔ i = id ∨ i ∈ routeRulesMap (u_rules fw)) ∧ id = GenerateRouteRuleKey ss d p sp dp a.
Proof.
  intros [Hrt Hids]. unfold usp_AddRoute. set (key := GenerateRouteRuleKey ss d p sp dp a).
  pose proof (addRouteRule_ok (u_rules fw) key mgmt (SortPrefixes ss) d p sp dp a Hrt) as Hok.
  destruct (addRouteRule _ _ _ _ _ _ _ _ _) as [m k] eqn:E. intros [= <- <-]. cbn [fst] in Hok.
  unfold addRouteRule in E. case_bool_decide as Hk; injection E as <- <-.
  - split_and!; [done..| |done]. intros i. cbn [u_rules]. split; [by right|]. intros [->|?]; done.
  - cbn [u_rules u_stateful]. split_and!; [by split|done|done| |done]. intros i. cbn [routeRulesMap]. set_solver.
Qed.

Lemma usp_delete_route_ok fw id : usp_ok fw → id ∈ routeRulesMap (u_rules fw) →
  ∃ fw', usp_DeleteRoute fw id = (fw', true) ∧ usp_ok fw' ∧
    (u_stateful fw' = u_stateful fw ∧ ∀ r, filed (u_rules fw') r ↔ filed (u_rules fw) r) ∧
    ∀ i, i ∈ routeRulesMap (u_rules fw') ↔ i ∈ routeRulesMap (u_rules fw) ∧ i ≠ id.
Proof.
  intros [Hrt Hids] Hin. unfold usp_DeleteRoute. destruct (removeRouteRule_total _ _ Hrt Hin) as [m E]. rewrite E.
  pose proof (removeRouteRule_ok _ _ _ Hrt E) as Hok. unfold removeRouteRule in E.
  rewrite bool_decide_false in E by tauto. destruct (remove_id id _); [|done]. injection E as <-.
  eexists. split; [done|]. cbn [u_rules u_stateful]. split_and!; [by split|done|done|]. cbn [routeRulesMap]. set_solver.
Qed.

#[export] Program Instance usp_firewall : AclFirewall usp PeerRule :=
  {| fw_IsStateful := u_stateful; fw_AddPeer := usp_AddPeer; fw_DeletePeer := usp_DeletePeer;
     fw_AddRoute := usp_AddRoute; fw_DeleteRoute := usp_DeleteRoute; fw_Flush fw := fw;
     fw_ok := usp_ok; installed fw := filed (u_rules fw); implements := usp_implements;
     route_installed fw i := i ∈ routeRulesMap (u_rules fw) |}.
Next Obligation. intros. by eapply usp_add_peer_ok. Qed.
Next Obligation. intros. by apply usp_delete_peer_ok. Qed.
Next Obligation. intros. by eapply usp_add_route_ok. Qed.
Next Obligation.
  intros fw m ss d p sp dp a fw' _. unfold usp_AddRoute. by destruct (addRouteRule _ _ _ _ _ _ _ _ _).
Qed.
Next Obligation. intros. by apply usp_delete_route_ok. Qed.
Next Obligation. done. Qed.

(** A fresh firewall. *)
Definition new_usp (stateful : bool) : usp := mkUsp no_rules 0 stateful.

Lemma new_usp_acl parse_ip stateful : acl_ok parse_ip (∅ : gmap bytes (list PeerRule)) (new_usp stateful).
Proof.
  assert (∀ r, ¬ filed no_rules r) as Hno by (intros r; unfold filed, find_rule; destruct (pe_drop r); by cbn).
  split_and!.
  - split; [apply no_rules_ok|]. intros r Hr. by destruct (Hno r).
  - split; [intros k rs; by rewrite lookup_empty|intros k1 k2 rs1 rs2 x; by rewrite lookup_empty].
  - intros x. cbn. split; [intros Hx; by destruct (Hno x)|]. intros (k & rs & Hk & _). by rewrite lookup_empty in Hk.
Qed.

(** The userspace firewall takes every rule whose address has four or sixteen
    bytes. *)
Lemma usp_add_total parse_ip :
  (∀ s ip, parse_ip s = Some ip → length ip = 4%nat ∨ length ip = 16%nat) →
  ∀ (fw : usp) r k a s, fw_ok fw → valid_rule parse_ip r → request parse_ip (fw_IsStateful fw) r = Some (k, a) →
    ∃ fw' rs, fw_AddPeer fw a s = (fw', Some rs).
Proof.
  intros Hlen fw r k a s _ _ Hr. cbn [fw_AddPeer usp_firewall]. unfold usp_AddPeer, AddPeerFiltering.
  assert (length (pa_ip a) = 4%nat ∨ length (pa_ip a) = 16%nat) as Hl.
  { unfold request, convert_rule in Hr. destruct (parse_ip (fr_PeerIP r)) as [ip|] eqn:E; [|done].
    apply Hlen in E. destruct (convertToFirewallProtocol _); [|done..]. destruct (convertFirewallAction _); [|done..].
    destruct (rule_port r); [|done..]. cbn in Hr. by destruct (_ =? _) in Hr; [|destruct (_ || _) in Hr]; simplify_eq. }
  assert (is_Some (AddrFromSlice (pa_ip a))) as [i ->].
  { unfold AddrFromSlice. repeat case_bool_decide; eauto. tauto. }
  destruct (pe_drop _); eauto.
Qed.

(** And it takes every route rule. *)
Lemma usp_routes_total : routes_total (FW:=usp) (Rule:=PeerRule).
Proof.
  intros fw m ss d p sp dp a _. cbn [fw_AddRoute usp_firewall]. unfold usp_AddRoute. by destruct (addRouteRule _ _ _ _ _ _ _ _ _).
Qed.
End instance.

(** ** Examples *)

(** A parser of dotted decimal addresses. *)
Definition parse_dotted (s : bytes) : option bytes :=
  match mapM ParseInt (SplitByte dot s) with
  | Some [a; b; c; d] => Some (Z_to_byte <$> [a; b; c; d])
  | _ => None
  end.

Lemma parse_dotted_length s ip : parse_dotted s = Some ip → length ip = 4%nat ∨ length ip = 16%nat.
Proof.
  unfold parse_dotted. destruct (mapM ParseInt (SplitByte dot s)) as [[|a [|b [|c [|e [|]]]]]|]; try done.
  intros [= <-]. by left.
Qed.

Definition ssh_rule (ip : string) : FirewallRule :=
  mkFirewallRule (str ip) RuleDirection_IN RuleAction_ACCEPT RuleProtocol_TCP [] (Some (PortInfo_Port 22)) (str "p1").

Lemma ssh_rule_valid ip : is_Some (parse_dotted (str ip)) → valid_rule parse_dotted (ssh_rule ip).
Proof.
  intros [x Hx]. split; [|by left]. unfold convert_rule. cbn [fr_PeerIP ssh_rule]. rewrite Hx. by eexists.
Qed.

Definition example_nm (rules : list FirewallRule) : NetworkMap := mkNetworkMap rules false [].

(** A route that is open to one peer. *)
Definition parse_one (s : bytes) : option Prefix :=
  if bool_decide (s = str "10.0.0.0/8") then Some (mkPrefix (Addr4 (10 * 2 ^ 24)) 8)
  else if bool_decide (s = str "100.64.0.1/32") then Some (mkPrefix (Addr4 (100 * 2 ^ 24 + 64 * 2 ^ 16 + 1)) 32) else None.

Definition routed_nm (rules : list FirewallRule) : NetworkMap :=
  mkNetworkMap rules false
    [mkRouteFirewallRule [str "100.64.0.1/32"] RuleAction_ACCEPT (str "10.0.0.0/8") RuleProtocol_ALL None false [] (str "p1")].

(** Ids for the example: strings of different lengths. *)
Definition example_uuid (n : nat) : bytes := replicate n Byte.x61.

#[export] Instance example_uuid_inj : Inj (=) (=) example_uuid.
Proof. intros n m E. apply (f_equal length) in E. unfold example_uuid in E. by rewrite !length_replicate in E. Qed.

Lemma acl_update_exact_witness : ∃ d' fw',
  ApplyFiltering (H:=usp_firewall example_uuid) parse_dotted parse_one fr_PeerIP id Some (NewDefaultManager (Rule:=PeerRule))
    (Some (new_usp true)) (routed_nm [ssh_rule "100.64.0.1"; ssh_rule "100.64.0.2"]) true = Ok (d', Some fw') ∧
  acl_ok (H:=usp_firewall example_uuid) parse_dotted (peerRulesPairs d') fw' ∧
  dom (peerRulesPairs d') = wanted parse_dotted true [ssh_rule "100.64.0.1"; ssh_rule "100.64.0.2"] ∧ size (d_routeRules d') = 1%nat.
Proof.
  destruct (acl_update_exact (H:=usp_firewall example_uuid) parse_dotted parse_one fr_PeerIP id Some
    NewDefaultManager (new_usp true) (routed_nm [ssh_rule "100.64.0.1"; ssh_rule "100.64.0.2"]) true)
    as (d' & fw' & H1 & H2 & H3 & _ & _ & _ & H4).
  - apply usp_add_total, parse_dotted_length.
  - constructor; [apply ssh_rule_valid; eexists; vm_compute; reflexivity|constructor; [apply ssh_rule_valid; eexists; vm_compute; reflexivity|constructor]].
  - apply new_usp_acl.
  - intros i Hi. by apply not_elem_of_empty in Hi.
  - exists d', fw'. split; [exact H1|]. split; [exact H2|]. split; [exact H3|]. rewrite (H4 (usp_routes_total example_uuid)).
    vm_compute. reflexivity.
Defined.

Lemma acl_rollback_loses_rules_witness : ∃ d' fw' d2,
  applyPeerACLs (H:=usp_firewall example_uuid) parse_dotted fr_PeerIP NewDefaultManager (new_usp true)
    (example_nm [ssh_rule "100.64.0.1"; ssh_rule "bad"]) = (d', fw') ∧
  (∀ x, ¬ installed (AclFirewall:=usp_firewall example_uuid) fw' x) ∧
  applyPeerACLs (H:=usp_firewall example_uuid) parse_dotted fr_PeerIP d' fw' (example_nm [ssh_rule "100.64.0.1"]) = (d2, fw').
Proof.
  apply (acl_rollback_loses_rules (H:=usp_firewall example_uuid) parse_dotted fr_PeerIP NewDefaultManager (new_usp true)
    (example_nm [ssh_rule "100.64.0.1"; ssh_rule "bad"]) [ssh_rule "100.64.0.1"] (ssh_rule "bad") [] errBadIP
    (example_nm [ssh_rule "100.64.0.1"])).
  - apply usp_add_total, parse_dotted_length.
  - reflexivity.
  - constructor; [apply ssh_rule_valid; eexists; vm_compute; reflexivity|constructor].
  - by vm_compute.
  - reflexivity.
  - apply new_usp_acl.
Defined.
