(* ===== verification/FirewallFilter.v ===== *)
(** * The packet path of the userspace firewall

    [client/firewall/uspfilter/filter.go] from [create] to [filterInbound] and
    [filterOutbound], the netstack service registry, the routing mode, the packet
    hooks (hooks.go, hooks_filter.go) and the rule id map of the forwarder.  It
    composes the rule tables ([FirewallRules]), the translation ([FirewallNAT]),
    the local addresses ([LocalIP]) and the trackers ([ConntrackTCP],
    [ConntrackUDP]) the way the code does.

    gopacket, which parses packets into the decoder, is the class [PacketParser]:
    its laws state what the parser documents (the fields of the IPv4 header, the
    room the TCP options take) and [simple_parser] is an instance.  The decoder a
    call works on comes from a pool and keeps what the last user left in it, so it
    is an argument and a result.  Flow events are appended to a list, and time,
    the fresh flow id and the packet size are arguments.

    The theorems: an inbound packet reaches the host only as a fragment, on a
    tracked flow, with the permission of the peer rules or through the native
    router, and the forwarder only with the permission of its rules; no packet
    makes the filter panic while tracking is on; with tracking disabled the first
    outbound packet does; a blocked packet leaks its original port into the next
    connection through the pooled decoder; MSS clamping keeps packets correct. *)

From stdpp Require Import base list gmap strings.
From S2P Require Import Prelude GoStd GoStrings NetIP Conntrack ConntrackTCP ConntrackUDP.
From S2P Require Import LocalIP Checksum FirewallNAT FirewallRules.

#[local] Open Scope go_scope.

(** ** gopacket *)

(** The bytes the options of a TCP header take. *)
Definition option_size (o : TCPOption) : nat :=
  match OptionType o with
  | TCPOptionKindEndList | TCPOptionKindNop => 1
  | _ => 2 + length (OptionData o)
  end.

Definition options_size (l : list TCPOption) : nat := sum_list_with option_size l.

Class PacketParser := {
  (** [parser.DecodeLayers(packetData, &d.decoded)]: the decoder afterwards and
      whether the parse succeeded. *)
  DecodeLayers : bytes → decoder → decoder * bool;
  (** The parser knows nothing of the firewall's own field. *)
  decode_keeps_port : ∀ p d, dnatOrigPort (DecodeLayers p d).1 = dnatOrigPort d;
  (** A parsed IPv4 header: the address fields, and a header that fits. *)
  decode_ipv4 : ∀ p d d' rest, DecodeLayers p d = (d', true) → decoded d' = LayerTypeIPv4 :: rest →
    (20 ≤ ipHeaderLen_of d')%nat ∧ (ipHeaderLen_of d' ≤ length p)%nat ∧
    ip4_SrcIP (d_ip4 d') = sub p 12 4 ∧ ip4_DstIP (d_ip4 d') = sub p 16 4;
  (** The parser is set up to start with an IPv4 layer. *)
  decode_first : ∀ p d d' l rest, DecodeLayers p d = (d', true) → decoded d' = l :: rest → l = LayerTypeIPv4;
  (** A parsed TCP header holds its fixed part and its options. *)
  decode_tcp : ∀ p d d' l rest, DecodeLayers p d = (d', true) → decoded d' = l :: LayerTypeTCP :: rest →
    (ipHeaderLen_of d' + 20 + options_size (tcp_Options (d_tcp d')) ≤ length p)%nat;
  (** Addresses, ports and checksums do not change what layers a packet has. *)
  decode_rewrite : ∀ p p' d d1 d', DecodeLayers p d = (d1, true) → (2 ≤ length (decoded d1))%nat →
    frame (nat_blocks (decoded d1 !! 1%nat) (ipHeaderLen_of d1)) p p' →
    ∃ d2, DecodeLayers p' d' = (d2, true) ∧ decoded d2 = decoded d1 ∧ ipHeaderLen_of d2 = ipHeaderLen_of d1;
}.

(** ** Data *)

(** [common.PacketHook]; the hook is a callback of the DNS server. *)
Record PacketHook := mkHook { hook_IP : Addr; hook_Port : Z; hook_Fn : bytes → bool }.

(** The part of the [Forwarder] the filter uses: the rule ids of connections and
    the packets injected into its network stack, newest last. *)
Record Forwarder := mkForwarder {
  ruleIdMap : gmap ConnKey bytes;
  injected : list bytes;
}.

(** What [create] fixes: the options and the interface. *)
Record config := mkConfig {
  stateful : bool;
  netstack : bool;
  localForwarding : bool;
  disableServerRoutes : bool;
  nativeFirewall : bool;
  mssClampEnabled : bool;
  mssClampValue : Z;
  wgIP : Addr;
  wgNetwork : Prefix;
  wgDevice : bool;
}.

Record Manager := mkManager {
  m_cfg : config;
  m_rules : rules;
  m_nat : natState;
  m_lip : localIPManager;
  m_udp : option UDP.UDPTracker;
  m_icmp : option ICMP.ICMPTracker;
  m_tcp : option TCPTracker;
  m_fwd : option Forwarder;
  m_flow : list EventFields;
  routingEnabled : bool;
  nativeRouter : bool;
  blockRule : option bytes;
  netstackServices : gset (LayerType * Z);
  udpHookOut : option PacketHook;
  tcpHookOut : option PacketHook;
}.

Definition set_rules (m : Manager) (r : rules) : Manager :=
  mkManager (m_cfg m) r (m_nat m) (m_lip m) (m_udp m) (m_icmp m) (m_tcp m) (m_fwd m) (m_flow m)
    (routingEnabled m) (nativeRouter m) (blockRule m) (netstackServices m) (udpHookOut m) (tcpHookOut m).

Definition set_udp (m : Manager) (t : UDP.UDPTracker) : Manager :=
  mkManager (m_cfg m) (m_rules m) (m_nat m) (m_lip m) (Some t) (m_icmp m) (m_tcp m) (m_fwd m) (m_flow m)
    (routingEnabled m) (nativeRouter m) (blockRule m) (netstackServices m) (udpHookOut m) (tcpHookOut m).

Definition set_icmp (m : Manager) (t : ICMP.ICMPTracker) : Manager :=
  mkManager (m_cfg m) (m_rules m) (m_nat m) (m_lip m) (m_udp m) (Some t) (m_tcp m) (m_fwd m) (m_flow m)
    (routingEnabled m) (nativeRouter m) (blockRule m) (netstackServices m) (udpHookOut m) (tcpHookOut m).

Definition set_tcp (m : Manager) (t : TCPTracker) : Manager :=
  mkManager (m_cfg m) (m_rules m) (m_nat m) (m_lip m) (m_udp m) (m_icmp m) (Some t) (m_fwd m) (m_flow m)
    (routingEnabled m) (nativeRouter m) (blockRule m) (netstackServices m) (udpHookOut m) (tcpHookOut m).

Definition set_fwd (m : Manager) (f : option Forwarder) : Manager :=
  mkManager (m_cfg m) (m_rules m) (m_nat m) (m_lip m) (m_udp m) (m_icmp m) (m_tcp m) f (m_flow m)
    (routingEnabled m) (nativeRouter m) (blockRule m) (netstackServices m) (udpHookOut m) (tcpHookOut m).

Definition store_event (m : Manager) (e : EventFields) : Manager :=
  mkManager (m_cfg m) (m_rules m) (m_nat m) (m_lip m) (m_udp m) (m_icmp m) (m_tcp m) (m_fwd m) (m_flow m ++ [e])
    (routingEnabled m) (nativeRouter m) (blockRule m) (netstackServices m) (udpHookOut m) (tcpHookOut m).

Definition set_routing (m : Manager) (enabled native : bool) : Manager :=
  mkManager (m_cfg m) (m_rules m) (m_nat m) (m_lip m) (m_udp m) (m_icmp m) (m_tcp m) (m_fwd m) (m_flow m)
    enabled native (blockRule m) (netstackServices m) (udpHookOut m) (tcpHookOut m).

Definition set_blockRule (m : Manager) (r : option bytes) : Manager :=
  mkManager (m_cfg m) (m_rules m) (m_nat m) (m_lip m) (m_udp m) (m_icmp m) (m_tcp m) (m_fwd m) (m_flow m)
    (routingEnabled m) (nativeRouter m) r (netstackServices m) (udpHookOut m) (tcpHookOut m).

Definition set_services (m : Manager) (s : gset (LayerType * Z)) : Manager :=
  mkManager (m_cfg m) (m_rules m) (m_nat m) (m_lip m) (m_udp m) (m_icmp m) (m_tcp m) (m_fwd m) (m_flow m)
    (routingEnabled m) (nativeRouter m) (blockRule m) s (udpHookOut m) (tcpHookOut m).

Definition set_hooks (m : Manager) (u t : option PacketHook) : Manager :=
  mkManager (m_cfg m) (m_rules m) (m_nat m) (m_lip m) (m_udp m) (m_icmp m) (m_tcp m) (m_fwd m) (m_flow m)
    (routingEnabled m) (nativeRouter m) (blockRule m) (netstackServices m) u t.

Definition set_lip (m : Manager) (l : localIPManager) : Manager :=
  mkManager (m_cfg m) (m_rules m) (m_nat m) l (m_udp m) (m_icmp m) (m_tcp m) (m_fwd m) (m_flow m)
    (routingEnabled m) (nativeRouter m) (blockRule m) (netstackServices m) (udpHookOut m) (tcpHookOut m).

(** The circumstances of a call: the time, the fresh flow id, the packet size. *)
Record env := mkEnv { e_now : Z; e_flow : Z; e_size : Z }.

(** ** Construction and routing mode *)

(** [strconv.ParseBool] of a non-empty value, [None] for an unset variable; a
    value that does not parse counts as false. *)
Definition env_bool (val : option bytes) : bool :=
  match val with
  | None => false
  | Some s =>
      existsb (λ t, bool_decide (s = t)) (str <$> ["1"; "t"; "T"; "TRUE"; "true"; "True"]%string)
  end.

(** [parseCreateEnv]: conntrack disabled, local forwarding, clamping disabled. *)
Definition parseCreateEnv (noConntrack netstackFwd localFwd noClamp : option bytes) : bool * bool * bool :=
  (env_bool noConntrack,
   match netstackFwd with Some _ => env_bool netstackFwd | None => env_bool localFwd end,
   env_bool noClamp).

Inductive fwErr :=
| errForwardingUnsupported
| errForwarder
| errRule (e : ruleErr).

(** [initForwarder]; [New] of the forwarder succeeds or fails as [newOk] says. *)
Definition initForwarder (newOk : bool) (m : Manager) : Manager * option fwErr :=
  match m_fwd m with
  | Some _ => (m, None)
  | None =>
      if negb (wgDevice (m_cfg m)) then (set_routing m false (nativeRouter m), Some errForwardingUnsupported)
      else if negb newOk then (set_routing m false (nativeRouter m), Some errForwarder)
      else (set_fwd m (Some (mkForwarder ∅ [])), None)
  end.

(** [create] after the environment is parsed; [lip] holds the local addresses. *)
Definition create (c : config) (disableConntrack newOk : bool) (lip : localIPManager) : Manager :=
  let m := mkManager c no_rules newNatState lip
             (if disableConntrack then None else Some (UDP.NewUDPTracker UDP.DefaultUDPTimeout))
             (if disableConntrack then None else Some (ICMP.NewICMPTracker ICMP.DefaultICMPTimeout))
             (if disableConntrack then None else Some (NewTCPTracker DefaultTCPTimeout))
             None [] false false None ∅ None None in
  if netstack c && localForwarding c then (initForwarder newOk m).1 else m.

(** The clamp value of [create]: [mtu - 40] as a [uint16]. *)
Definition clamp_value (mtu : Z) : Z := u16 (mtu - 40).

Definition determineRouting (disableUspRouting forceUserspaceRouter newOk : bool) (m : Manager)
    : Manager * option fwErr :=
  let m :=
    if disableUspRouting then set_routing m false false
    else if disableServerRoutes (m_cfg m) then set_routing m true true
    else if forceUserspaceRouter then set_routing m true false
    else if negb (netstack (m_cfg m)) && nativeFirewall (m_cfg m) then set_routing m true true
    else set_routing m true false in
  if routingEnabled m && negb (nativeRouter m) then initForwarder newOk m else (m, None).

(** [m.nativeRouter.Load() && m.nativeFirewall != nil]: the native firewall takes
    the call. *)
Definition delegated (m : Manager) : bool := nativeRouter m && nativeFirewall (m_cfg m).

(** [addRouteFiltering]; [None] is the answer of the native firewall. *)
Definition addRouteFiltering (m : Manager) (id : bytes) (sources : list Prefix) (destination : Network)
    (proto : FwProtocol) (sPort dPort : option Port) (action : Action) : Manager * option bytes :=
  if delegated m then (m, None)
  else
    let ruleKey := GenerateRouteRuleKey sources destination proto sPort dPort action in
    let '(r, key) := addRouteRule (m_rules m) ruleKey id (SortPrefixes sources) destination proto sPort dPort action in
    (set_rules m r, Some key).

Definition deleteRouteRule (m : Manager) (ruleKey : bytes) : outcome ruleErr Manager :=
  if delegated m then Ok m
  else let! r := removeRouteRule (m_rules m) ruleKey in Ok (set_rules m r).

Definition UpdateSet (m : Manager) (set : FwSet) (prefixes : list Prefix) : outcome ruleErr Manager :=
  if delegated m then Ok m
  else let! r := updateRuleSet (m_rules m) set prefixes in Ok (set_rules m r).

Definition blockInvalidRouted (m : Manager) : Manager * option bytes :=
  addRouteFiltering m [] [PrefixFrom IPv4Unspecified 0] (mkNetwork zero_set (wgNetwork (m_cfg m)))
    ProtocolALL None None ActionDrop.

Definition EnableRouting (disableUspRouting forceUserspaceRouter newOk : bool) (m : Manager)
    : Manager * option fwErr :=
  match determineRouting disableUspRouting forceUserspaceRouter newOk m with
  | (m, Some e) => (m, Some e)
  | (m, None) =>
      match m_fwd m with
      | None => (m, None)
      | Some _ => let '(m, rule) := blockInvalidRouted m in (set_blockRule m rule, None)
      end
  end.

Definition DisableRouting (m : Manager) : total (Manager * option fwErr) :=
  match m_fwd m with
  | None => Ok (m, None)
  | Some _ =>
      let m := set_routing m false false in
      if netstack (m_cfg m) && localForwarding (m_cfg m) then Ok (m, None)
      else
        let m := set_fwd m None in
        match blockRule m with
        | None => Ok (m, None)
        | Some rule =>
            match deleteRouteRule m rule with
            | Ok m => Ok (set_blockRule m None, None)
            | Err e => Ok (m, Some (errRule e))
            | Panic => Panic
            end
        end
  end.

(** [resetState], the part of [Close] that concerns the filter: all rules and hooks are
    cleared and the trackers closed.  The
    translation tables and the routing mode are left alone. *)
Definition resetState (m : Manager) : Manager :=
  mkManager (m_cfg m) no_rules (m_nat m) (m_lip m)
    (UDP.Close <$> m_udp m) (ICMP.Close <$> m_icmp m) (ConntrackTCP.Close <$> m_tcp m) (m_fwd m) (m_flow m)
    (routingEnabled m) (nativeRouter m) (blockRule m) (netstackServices m) None None.

(** ** Netstack services *)

(** [protocolToLayerType] on the protocol numbers of the flow types. *)
Definition protocolToLayerType (protocol : Protocol) : LayerType :=
  if protocol =? ProtoTCP then LayerTypeTCP
  else if protocol =? ProtoUDP then LayerTypeUDP
  else if protocol =? ProtoICMP then LayerTypeICMPv4
  else LayerTypeZero.

Definition RegisterNetstackService (m : Manager) (protocol : Protocol) (port : Z) : Manager :=
  set_services m ({[(protocolToLayerType protocol, port)]} ∪ netstackServices m).

Definition UnregisterNetstackService (m : Manager) (protocol : Protocol) (port : Z) : Manager :=
  set_services m (netstackServices m ∖ {[(protocolToLayerType protocol, port)]}).

Definition hasMatchingNetstackService (m : Manager) (d : decoder) : bool :=
  match decoded d !! 1%nat with
  | Some LayerTypeTCP => bool_decide ((LayerTypeTCP, tcp_DstPort (d_tcp d)) ∈ netstackServices m)
  | Some LayerTypeUDP => bool_decide ((LayerTypeUDP, udp_DstPort (d_udp d)) ∈ netstackServices m)
  | _ => false
  end.

Definition shouldForward (m : Manager) (d : decoder) (dstIP : Addr) : bool :=
  if negb (localForwarding (m_cfg m)) then false
  else if netstack (m_cfg m) then negb (hasMatchingNetstackService m d)
  else negb (bool_decide (dstIP = wgIP (m_cfg m))).

(** ** Hooks *)

Definition HookMatches (h : option PacketHook) (dstIP : Addr) (dport : Z) (pkt : bytes) : bool :=
  match h with
  | None => false
  | Some h => if bool_decide (hook_IP h = dstIP) && (hook_Port h =? dport) then hook_Fn h pkt else false
  end.

(** [SetHook]: a nil function removes the hook. *)
Definition SetHook (ip : Addr) (dPort : Z) (hook : option (bytes → bool)) : option PacketHook :=
  (λ f, mkHook ip dPort f) <$> hook.

Definition SetUDPPacketHook (m : Manager) (ip : Addr) (dPort : Z) (hook : option (bytes → bool)) : Manager :=
  set_hooks m (SetHook ip dPort hook) (tcpHookOut m).

Definition SetTCPPacketHook (m : Manager) (ip : Addr) (dPort : Z) (hook : option (bytes → bool)) : Manager :=
  set_hooks m (udpHookOut m) (SetHook ip dPort hook).

Definition udpHooksDrop (m : Manager) (dport : Z) (dstIP : Addr) (pkt : bytes) : bool :=
  HookMatches (udpHookOut m) dstIP dport pkt.

Definition tcpHooksDrop (m : Manager) (dport : Z) (dstIP : Addr) (pkt : bytes) : bool :=
  HookMatches (tcpHookOut m) dstIP dport pkt.

(** [HooksFilter.FilterOutbound] of hooks_filter.go, which parses the header
    itself. *)
Definition HooksFilter_FilterOutbound (udpHook tcpHook : option PacketHook) (pkt : bytes) : total bool :=
  if bool_decide (length pkt < 20)%nat then Ok false
  else
    let! b0 := go_index pkt 0 in
    if negb (Z.shiftr (byte_to_Z b0) 4 =? 4) then Ok false
    else
      let ihl := (Z.to_nat (Z.land (byte_to_Z b0) 0x0f) * 4)%nat in
      if bool_decide (ihl < 20)%nat || bool_decide (length pkt < ihl + 4)%nat then Ok false
      else
        let! flagsAndOffset := word_at pkt 6 in
        if negb (Z.land flagsAndOffset 0x1fff =? 0) then Ok false
        else
          let! dst := go_slice pkt 16 20 in
          match AddrFromSlice dst with
          | None => Ok false
          | Some dstIP =>
              let! proto := go_index pkt 9 in
              let! dstPort := word_at pkt (ihl + 2) in
              if byte_to_Z proto =? 17 then Ok (HookMatches udpHook dstIP dstPort pkt)
              else if byte_to_Z proto =? 6 then Ok (HookMatches tcpHook dstIP dstPort pkt)
              else Ok false
          end.

(** [HooksFilter.FilterInbound] *)
Definition HooksFilter_FilterInbound (pkt : bytes) : bool := false.

(** ** Decoding *)

Definition addr_of_slice (b : bytes) : Addr := default AddrZero (AddrFromSlice b).

Definition extractIPs (d : decoder) : total (Addr * Addr) :=
  let! l := go_index (decoded d) 0 in
  match l with
  | LayerTypeIPv4 => Ok (addr_of_slice (ip4_SrcIP (d_ip4 d)), addr_of_slice (ip4_DstIP (d_ip4 d)))
  | LayerTypeIPv6 => Ok (addr_of_slice (d_ip6 d).1, addr_of_slice (d_ip6 d).2)
  | _ => Ok (AddrZero, AddrZero)
  end.

Definition getTCPFlags (t : TCP) : Z :=
  let flag (b : bool) (v acc : Z) := if b then Z.lor acc v else acc in
  flag (tcp_URG t) TCPUrg (flag (tcp_PSH t) TCPPush (flag (tcp_RST t) TCPRst
    (flag (tcp_FIN t) TCPFin (flag (tcp_ACK t) TCPAck (flag (tcp_SYN t) TCPSyn 0))))).

Definition getProtocolFromPacket (d : decoder) : total Protocol :=
  let! l := go_index (decoded d) 1 in
  match l with
  | LayerTypeTCP => Ok ProtoTCP
  | LayerTypeUDP => Ok ProtoUDP
  | LayerTypeICMPv4 | LayerTypeICMPv6 => Ok ProtoICMP
  | _ => Ok 0
  end.

Section Packets.
Context `{PacketParser}.

(** [isValidPacket]: the decoder, whether the packet is valid, and whether it is
    a fragment. *)
Definition isValidPacket (d : decoder) (pkt : bytes) : decoder * bool * bool :=
  let '(d, ok) := DecodeLayers pkt d in
  if negb ok then (d, false, false)
  else if bool_decide (2 ≤ length (decoded d))%nat then (d, true, false)
  else
    match decoded d with
    | [LayerTypeIPv4] =>
        if ip4_MoreFragments (d_ip4 d) || negb (ip4_FragOffset (d_ip4 d) =? 0) then (d, true, true)
        else (d, false, false)
    | _ => (d, false, false)
    end.

(** ** MSS clamping *)

(** The first MSS option above the clamp value. *)
Fixpoint find_mss (clamp : Z) (i : nat) (opts : list TCPOption) : option nat :=
  match opts with
  | [] => None
  | o :: opts =>
      if bool_decide (OptionType o = TCPOptionKindMSS) && bool_decide (length (OptionData o) = 2%nat) &&
         (clamp <? be_number (OptionData o))
      then Some i else find_mss clamp (S i) opts
  end.

Definition recalculateTCPChecksum (pkt : bytes) (d : decoder) (tcpHeaderStart : nat) : total bytes :=
  let! pkt := put pkt (tcpHeaderStart + 16) [Byte.x00; Byte.x00] in
  let! tcpLayer := go_from pkt tcpHeaderStart in
  let! checksum := tcp_sum (ip4_SrcIP (d_ip4 d)) (ip4_DstIP (d_ip4 d)) (ip4_Protocol (d_ip4 d)) tcpLayer in
  PutUint16 pkt (tcpHeaderStart + 16) checksum.

Definition updateMSSOption (m : Manager) (pkt : bytes) (d : decoder) (mssOptionIndex ipHeaderSize : nat)
    : total bytes :=
  let optOffset := (ipHeaderSize + 20 + options_size (take mssOptionIndex (tcp_Options (d_tcp d))))%nat in
  let! pkt := PutUint16 pkt (optOffset + 2) (mssClampValue (m_cfg m)) in
  recalculateTCPChecksum pkt d ipHeaderSize.

Definition clampTCPMSS (m : Manager) (pkt : bytes) (d : decoder) : total (bytes * bool) :=
  if negb (tcp_SYN (d_tcp d)) then Ok (pkt, false)
  else
    match find_mss (mssClampValue (m_cfg m)) 0 (tcp_Options (d_tcp d)) with
    | None => Ok (pkt, false)
    | Some i =>
        if bool_decide (ipHeaderLen_of d < 20)%nat then Ok (pkt, false)
        else let! pkt := updateMSSOption m pkt d i (ipHeaderLen_of d) in Ok (pkt, true)
    end.

(** ** Tracking *)

(** A method of a nil tracker dereferences it. *)
Definition deref {A} (t : option A) : total A := match t with Some t => Ok t | None => Panic end.

(** The trackers have no error result. *)
Definition lift {A} (c : outcome unit A) : total A := match c with Ok a => Ok a | _ => Panic end.

Definition ICMPv4TypeEchoRequest : Z := 8.

Definition ICMPv4TypeEchoReply : Z := 0.

Definition tcp_key (d : decoder) (srcIP dstIP : Addr) : ConnKey :=
  mkKey srcIP dstIP (tcp_SrcPort (d_tcp d)) (tcp_DstPort (d_tcp d)).

Definition udp_key (d : decoder) (srcIP dstIP : Addr) : ConnKey :=
  mkKey srcIP dstIP (udp_SrcPort (d_udp d)) (udp_DstPort (d_udp d)).

Definition icmp_key (d : decoder) (srcIP dstIP : Addr) : ICMP.ICMPConnKey :=
  ICMP.mkIKey srcIP dstIP (icmp4_Id (d_icmp4 d)).

Definition trackOutbound (e : env) (m : Manager) (d : decoder) (srcIP dstIP : Addr) (pkt : bytes)
    : total (Manager * bytes) :=
  let! transport := go_index (decoded d) 1 in
  match transport with
  | LayerTypeUDP =>
      let! t := deref (m_udp m) in
      let! r := lift (UDP.TrackOutbound (e_now e) (e_flow e) t (udp_key d srcIP dstIP) (e_size e)) in
      let '(t, origPort) := r in
      if origPort =? 0 then Ok (set_udp m t, pkt)
      else let! w := rewriteUDPPort pkt d origPort sourcePortOffset in Ok (set_udp m t, w.1)
  | LayerTypeTCP =>
      let flags := getTCPFlags (d_tcp d) in
      let! t := deref (m_tcp m) in
      let! r := lift (ConntrackTCP.TrackOutbound (e_now e) (e_flow e) t (tcp_key d srcIP dstIP) flags (e_size e)) in
      let '(t, origPort) := r in
      if origPort =? 0 then Ok (set_tcp m t, pkt)
      else let! w := rewriteTCPPort pkt d origPort sourcePortOffset in Ok (set_tcp m t, w.1)
  | LayerTypeICMPv4 =>
      let! t := deref (m_icmp m) in
      let! t := lift (ICMP.TrackOutbound ICMPv4TypeEchoRequest (e_now e) (e_flow e) t
                        (icmp_key d srcIP dstIP) (icmp4_Type (d_icmp4 d)) (icmp4_Code (d_icmp4 d)) (e_size e)) in
      Ok (set_icmp m t, pkt)
  | _ => Ok (m, pkt)
  end.

(** [trackInbound]; the last step resets the field of the decoder. *)
Definition trackInbound (e : env) (m : Manager) (d : decoder) (srcIP dstIP : Addr) (ruleID : bytes)
    : total (Manager * decoder) :=
  let! transport := go_index (decoded d) 1 in
  let! m :=
    match transport with
    | LayerTypeUDP =>
        let! t := deref (m_udp m) in
        let! t := lift (UDP.TrackInbound (e_now e) (e_flow e) t (udp_key d srcIP dstIP) ruleID (e_size e) (dnatOrigPort d)) in
        Ok (set_udp m t)
    | LayerTypeTCP =>
        let flags := getTCPFlags (d_tcp d) in
        let! t := deref (m_tcp m) in
        let! t := lift (ConntrackTCP.TrackInbound (e_now e) (e_flow e) t (tcp_key d srcIP dstIP) flags ruleID
                          (e_size e) (dnatOrigPort d)) in
        Ok (set_tcp m t)
    | LayerTypeICMPv4 =>
        let! t := deref (m_icmp m) in
        let! t := lift (ICMP.TrackInbound ICMPv4TypeEchoRequest (e_now e) (e_flow e) t
                          (icmp_key d srcIP dstIP) (icmp4_Type (d_icmp4 d)) (icmp4_Code (d_icmp4 d)) ruleID (e_size e)) in
        Ok (set_icmp m t)
    | _ => Ok m
    end in
  Ok (m, set_dnatOrigPort d 0).

Definition isValidTrackedConnection (e : env) (m : Manager) (d : decoder) (srcIP dstIP : Addr)
    : total (Manager * bool) :=
  let! l := go_index (decoded d) 1 in
  match l with
  | LayerTypeTCP =>
      let! t := deref (m_tcp m) in
      let '(t, ok) := ConntrackTCP.IsValidInbound (e_now e) t (tcp_key d srcIP dstIP) (getTCPFlags (d_tcp d)) (e_size e) in
      Ok (set_tcp m t, ok)
  | LayerTypeUDP =>
      let! t := deref (m_udp m) in
      let '(t, ok) := UDP.IsValidInbound (e_now e) t (udp_key d srcIP dstIP) (e_size e) in
      Ok (set_udp m t, ok)
  | LayerTypeICMPv4 =>
      let! t := deref (m_icmp m) in
      let '(t, ok) := ICMP.IsValidInbound ICMPv4TypeEchoReply (e_now e) t (icmp_key d srcIP dstIP)
                        (icmp4_Type (d_icmp4 d)) (e_size e) in
      Ok (set_icmp m t, ok)
  | _ => Ok (m, false)
  end.

(** ** The forwarder's rule ids *)

Definition RegisterRuleID (f : Forwarder) (srcIP dstIP : Addr) (srcPort dstPort : Z) (ruleID : bytes) : Forwarder :=
  let key := mkKey srcIP dstIP srcPort dstPort in
  match ruleIdMap f !! key with
  | Some _ => f
  | None => mkForwarder (<[key := ruleID]> (ruleIdMap f)) (injected f)
  end.

Definition getRuleID (f : Forwarder) (srcIP dstIP : Addr) (srcPort dstPort : Z) : option bytes :=
  match ruleIdMap f !! mkKey srcIP dstIP srcPort dstPort with
  | Some v => Some v
  | None => ruleIdMap f !! mkKey dstIP srcIP dstPort srcPort
  end.

Definition DeleteRuleID (f : Forwarder) (srcIP dstIP : Addr) (srcPort dstPort : Z) : Forwarder :=
  match ruleIdMap f !! mkKey srcIP dstIP srcPort dstPort with
  | Some _ => mkForwarder (delete (mkKey srcIP dstIP srcPort dstPort) (ruleIdMap f)) (injected f)
  | None => mkForwarder (delete (mkKey dstIP srcIP dstPort srcPort) (ruleIdMap f)) (injected f)
  end.

(** [InjectIncomingPacket]: the forwarder and whether the packet was taken. *)
Definition InjectIncomingPacket (f : Forwarder) (pkt : bytes) : Forwarder * bool :=
  if bool_decide (length pkt < 20)%nat then (f, false)
  else (mkForwarder (ruleIdMap f) (injected f ++ [pkt]), true).

(** ** The two directions *)

Definition drop_event (e : env) (ruleID : bytes) (proto : Protocol) (srcIP dstIP : Addr) (srcPort dstPort : Z)
    : EventFields :=
  mkEventFields (e_flow e) TypeDrop ruleID Ingress proto srcIP dstIP srcPort dstPort 0 0 1 0 (u64 (e_size e)) 0.

(** The result of a packet: the manager, the decoder, the packet's bytes and
    whether the packet is dropped. *)
Definition result := (Manager * decoder * bytes * bool)%type.

Definition filterOutbound (e : env) (m : Manager) (d : decoder) (pkt : bytes) : total result :=
  let '(d, ok) := DecodeLayers pkt d in
  if negb ok then Ok (m, d, pkt, false)
  else if bool_decide (length (decoded d) < 2)%nat then Ok (m, d, pkt, false)
  else
    let! ips := extractIPs d in
    let '(srcIP, dstIP) := ips in
    if negb (IsValid srcIP) then Ok (m, d, pkt, false)
    else
      let! l := go_index (decoded d) 1 in
      let! hooked :=
        match l with
        | LayerTypeUDP => Ok (pkt, udpHooksDrop m (udp_DstPort (d_udp d)) dstIP pkt)
        | LayerTypeTCP =>
            if tcpHooksDrop m (tcp_DstPort (d_tcp d)) dstIP pkt then Ok (pkt, true)
            else if mssClampEnabled (m_cfg m)
                 then let! r := clampTCPMSS m pkt d in Ok (r.1, false)
                 else Ok (pkt, false)
        | _ => Ok (pkt, false)
        end in
      let '(pkt, drop) := hooked in
      if drop then Ok (m, d, pkt, true)
      else
        let! r := trackOutbound e m d srcIP dstIP pkt in
        let '(m, pkt) := r in
        let! t := translateOutboundDNAT (m_nat m) pkt d in
        Ok (m, d, t.1, false).

Definition handleForwardedLocalTraffic (m : Manager) (pkt : bytes) : Manager * bool :=
  match m_fwd m with
  | None => (m, true)
  | Some fwd => (set_fwd m (Some (InjectIncomingPacket fwd pkt).1), true)
  end.

Definition handleLocalTraffic (e : env) (m : Manager) (d : decoder) (srcIP dstIP : Addr) (pkt : bytes)
    : total result :=
  let! r := peerACLsBlock (m_rules m) srcIP d in
  let '(ruleID, blocked) := r in
  if blocked then
    let! pnum := getProtocolFromPacket d in
    let! ports := getPortsFromPacket d in
    Ok (store_event m (drop_event e ruleID pnum srcIP dstIP ports.1 ports.2), d, pkt, true)
  else if shouldForward m d dstIP then
    let '(m, drop) := handleForwardedLocalTraffic m pkt in Ok (m, d, pkt, drop)
  else
    let! r := trackInbound e m d srcIP dstIP ruleID in
    Ok (r.1, r.2, pkt, false).

Definition handleRoutedTraffic (e : env) (m : Manager) (d : decoder) (srcIP dstIP : Addr) (pkt : bytes)
    : total result :=
  if negb (routingEnabled m) then Ok (m, d, pkt, true)
  else if nativeRouter m then
    let! r := trackInbound e m d srcIP dstIP [] in Ok (r.1, r.2, pkt, false)
  else
    let! protoLayer := go_index (decoded d) 1 in
    let! ports := getPortsFromPacket d in
    let '(srcPort, dstPort) := ports in
    let! r := routeACLsPass (m_rules m) srcIP dstIP protoLayer srcPort dstPort in
    let '(ruleID, pass) := r in
    if negb pass then
      let! proto := getProtocolFromPacket d in
      Ok (store_event m (drop_event e ruleID proto srcIP dstIP srcPort dstPort), d, pkt, true)
    else
      match m_fwd m with
      | None => Ok (m, d, pkt, true)
      | Some fwd =>
          let fwd := RegisterRuleID fwd srcIP dstIP srcPort dstPort ruleID in
          let '(fwd, ok) := InjectIncomingPacket fwd pkt in
          let fwd := if ok then fwd else DeleteRuleID fwd srcIP dstIP srcPort dstPort in
          Ok (set_fwd m (Some fwd), d, pkt, true)
      end.

(** The last part of [filterInbound], after the translations. *)
Definition dispatchInbound (e : env) (m : Manager) (d : decoder) (srcIP dstIP : Addr) (pkt : bytes) : total result :=
  let! tracked := if stateful (m_cfg m) then isValidTrackedConnection e m d srcIP dstIP else Ok (m, false) in
  let '(m, valid) := tracked in
  if valid then Ok (m, d, pkt, false)
  else
    let! loc := IsLocalIP (m_lip m) dstIP in
    if loc then handleLocalTraffic e m d srcIP dstIP pkt else handleRoutedTraffic e m d srcIP dstIP pkt.

(** A translation step of [filterInbound]: decode again when it translated;
    [None] is the failure of the second parse. *)
Definition redecode (pkt : bytes) (d : decoder) (translated : bool) (srcIP dstIP : Addr)
    : total (decoder * option (Addr * Addr)) :=
  if translated then
    let '(d, ok) := DecodeLayers pkt d in
    if ok then let! ips := extractIPs d in Ok (d, Some ips) else Ok (d, None)
  else Ok (d, Some (srcIP, dstIP)).

Definition filterInbound (e : env) (m : Manager) (d : decoder) (pkt : bytes) : total result :=
  let '(d, valid, fragment) := isValidPacket d pkt in
  if negb valid then Ok (m, d, pkt, true)
  else
    let! ips := extractIPs d in
    let '(srcIP, dstIP) := ips in
    if negb (IsValid srcIP) then Ok (m, d, pkt, true)
    else if fragment then Ok (m, d, pkt, false)
    else
      let! r := translateInboundPortDNAT (m_nat m) pkt d srcIP dstIP in
      let '(pkt, d, translated) := r in
      let! r := redecode pkt d translated srcIP dstIP in
      match r with
      | (d, None) => Ok (m, d, pkt, true)
      | (d, Some (srcIP, dstIP)) =>
          let! r := translateInboundReverse (m_nat m) pkt d in
          let '(pkt, translated) := r in
          let! r := redecode pkt d translated srcIP dstIP in
          match r with
          | (d, None) => Ok (m, d, pkt, true)
          | (d, Some (srcIP, dstIP)) => dispatchInbound e m d srcIP dstIP pkt
          end
      end.
End Packets.

(** ** A parser

    IPv4 with TCP, UDP and ICMP, enough to run the filter on concrete packets. *)

Definition byte_at (p : bytes) (i : nat) : Z := byte_to_Z (default Byte.x00 (p !! i)).

Definition short_at (p : bytes) (i : nat) : Z := 256 * byte_at p i + byte_at p (i + 1).

Definition parse_ipv4 (p : bytes) : IPv4 :=
  mkIPv4 (Z.land (byte_at p 0) 15) (sub p 12 4) (sub p 16 4) (byte_at p 9)
    (Z.testbit (byte_at p 6) 5) (Z.land (short_at p 6) 0x1fff).

(** The options of a TCP header; a malformed option ends the list. *)
Fixpoint parse_options (fuel : nat) (l : bytes) : list TCPOption :=
  match fuel, l with
  | S f, k :: r =>
      if byte_to_Z k =? 0 then [mkTCPOption TCPOptionKindEndList []]
      else if byte_to_Z k =? 1 then mkTCPOption TCPOptionKindNop [] :: parse_options f r
      else
        match r with
        | [] => []
        | n :: r' =>
            let len := (Z.to_nat (byte_to_Z n) - 2)%nat in
            if (2 <=? byte_to_Z n) && bool_decide (len ≤ length r')%nat
            then mkTCPOption (if byte_to_Z k =? 2 then TCPOptionKindMSS else TCPOptionKindOther (byte_to_Z k)) (take len r')
                   :: parse_options f (drop len r')
            else []
        end
  | _, _ => []
  end.

Lemma parse_options_size f l : (options_size (parse_options f l) ≤ length l)%nat.
Proof.
  revert l. induction f as [|f IH]; intros [|k r]; try (simpl; lia). cbn [parse_options].
  case_if; [unfold options_size; simpl; lia|]. case_if.
  { pose proof (IH r). unfold options_size in *. simpl. lia. }
  destruct r as [|n r']; [simpl; lia|]. cbv zeta. set (len := (Z.to_nat (byte_to_Z n) - 2)%nat).
  case_if; bool_facts; [|unfold options_size; simpl; lia].
  pose proof (IH (drop len r')) as Hr. rewrite length_drop in Hr. unfold options_size in *. cbn [sum_list_with].
  assert (option_size (mkTCPOption (if byte_to_Z k =? 2 then TCPOptionKindMSS else TCPOptionKindOther (byte_to_Z k)) (take len r'))
    = (2 + len)%nat) as ->.
  { unfold option_size. cbn [OptionType OptionData]. rewrite length_take. case_if; lia. }
  simpl length. lia.
Qed.

(** The option bytes, by the data offset. *)
Definition tcp_option_bytes (p : bytes) : bytes :=
  take (Z.to_nat (Z.shiftr (byte_at p 12) 4) * 4 - 20) (drop 20 p).

Definition parse_tcp (p : bytes) : TCP :=
  mkTCP (short_at p 0) (short_at p 2) (Z.testbit (byte_at p 13) 1) (Z.testbit (byte_at p 13) 4)
    (Z.testbit (byte_at p 13) 0) (Z.testbit (byte_at p 13) 2) (Z.testbit (byte_at p 13) 3)
    (Z.testbit (byte_at p 13) 5) (parse_options (length p) (tcp_option_bytes p)).

Definition with_layers (d : decoder) (ip : IPv4) (l : list LayerType) (t : TCP) (u : UDPHeader) (i : ICMPv4) : decoder :=
  mkDecoder ip (d_ip6 d) t u i l (dnatOrigPort d).

Definition simple_decode (p : bytes) (d : decoder) : decoder * bool :=
  let ip := parse_ipv4 p in
  let hl := (Z.to_nat (ip4_IHL ip) * 4)%nat in
  let seg := drop hl p in
  let only l := (with_layers d ip l (d_tcp d) (d_udp d) (d_icmp4 d), true) in
  if bool_decide (length p < 20)%nat || bool_decide (hl < 20)%nat || bool_decide (length p < hl)%nat then (d, false)
  else if ip4_MoreFragments ip || negb (ip4_FragOffset ip =? 0) then only [LayerTypeIPv4]
  else if ip4_Protocol ip =? 6 then
    if bool_decide (length seg < 20)%nat then (d, false)
    else (with_layers d ip [LayerTypeIPv4; LayerTypeTCP] (parse_tcp seg) (d_udp d) (d_icmp4 d), true)
  else if ip4_Protocol ip =? 17 then
    if bool_decide (length seg < 8)%nat then (d, false)
    else (with_layers d ip [LayerTypeIPv4; LayerTypeUDP] (d_tcp d) (mkUDP (short_at seg 0) (short_at seg 2)) (d_icmp4 d), true)
  else if ip4_Protocol ip =? 1 then
    if bool_decide (length seg < 8)%nat then (d, false)
    else (with_layers d ip [LayerTypeIPv4; LayerTypeICMPv4] (d_tcp d) (d_udp d)
            (mkICMPv4 (short_at seg 4) (byte_at seg 0) (byte_at seg 1)), true)
  else only [LayerTypeIPv4].

(** The cases of a successful parse. *)
Lemma simple_decode_ok p d d' :
  simple_decode p d = (d', true) →
  (20 ≤ length p)%nat ∧ (20 ≤ ipHeaderLen_of d' ≤ length p)%nat ∧ d_ip4 d' = parse_ipv4 p ∧
  (decoded d' = [LayerTypeIPv4] ∨ decoded d' = [LayerTypeIPv4; LayerTypeUDP] ∨
   decoded d' = [LayerTypeIPv4; LayerTypeICMPv4] ∨
   decoded d' = [LayerTypeIPv4; LayerTypeTCP] ∧
     (ipHeaderLen_of d' + 20 + options_size (tcp_Options (d_tcp d')) ≤ length p)%nat).
Proof.
  unfold simple_decode. intros Hd. cbv zeta in Hd. set (ip := parse_ipv4 p) in *.
  destruct (_ || _ || _) eqn:Eg in Hd; [done|]. bool_facts.
  repeat case_if; bool_facts; injection Hd as <-; unfold ipHeaderLen_of; cbn [d_ip4 decoded with_layers d_tcp parse_tcp tcp_Options];
    rewrite ?length_drop in *; repeat split; auto; try lia.
  right. right. right. split; [done|]. set (hl := (Z.to_nat (ip4_IHL ip) * 4)%nat) in *.
  pose proof (parse_options_size (length (drop hl p)) (tcp_option_bytes (drop hl p))) as Ho.
  unfold tcp_option_bytes in Ho at 2. rewrite length_take, !length_drop in Ho.
  change (Z.to_nat (Z.land (byte_at p 0) 15) * 4)%nat with hl. lia.
Qed.

(** The fields the shape of a packet depends on. *)
Lemma simple_decode_shape p p' d d' d1 :
  simple_decode p d = (d1, true) → length p' = length p →
  byte_at p' 0 = byte_at p 0 → byte_at p' 6 = byte_at p 6 → byte_at p' 7 = byte_at p 7 → byte_at p' 9 = byte_at p 9 →
  ∃ d2, simple_decode p' d' = (d2, true) ∧ decoded d2 = decoded d1 ∧ ipHeaderLen_of d2 = ipHeaderLen_of d1.
Proof.
  intros Hd Hl H0 H6 H7 H9. unfold simple_decode in *. cbv zeta in *.
  assert (ip4_IHL (parse_ipv4 p') = ip4_IHL (parse_ipv4 p)) as E1 by (simpl; by rewrite H0).
  assert (ip4_Protocol (parse_ipv4 p') = ip4_Protocol (parse_ipv4 p)) as E2 by done.
  assert (ip4_MoreFragments (parse_ipv4 p') = ip4_MoreFragments (parse_ipv4 p)) as E3 by (simpl; by rewrite H6).
  assert (ip4_FragOffset (parse_ipv4 p') = ip4_FragOffset (parse_ipv4 p)) as E4
    by (cbn; unfold short_at; cbn [Nat.add]; by rewrite H6, H7).
  rewrite E1, E2, E3, E4, !length_drop, Hl. rewrite !length_drop in Hd.
  repeat case_if; try done; injection Hd as <-; eexists; (split; [reflexivity|]); (split; [done|]);
    unfold ipHeaderLen_of; cbn [d_ip4 with_layers]; by rewrite E1.
Qed.

#[global] Program Instance simple_parser : PacketParser := {| DecodeLayers := simple_decode |}.
Next Obligation.
  intros p d. unfold simple_decode. cbv zeta. repeat (case_match; try done).
Qed.
Next Obligation.
  intros p d d' rest (? & ? & E & _)%simple_decode_ok _. rewrite E. repeat split; lia.
Qed.
Next Obligation.
  intros p d d' l rest (_ & _ & _ & Hl)%simple_decode_ok E. rewrite E in Hl. naive_solver.
Qed.
Next Obligation.
  intros p d d' l rest (_ & ? & _ & Hl)%simple_decode_ok E. rewrite E in Hl.
  destruct Hl as [?|[?|[?|(? & ?)]]]; done.
Qed.
Next Obligation.
  intros p p' d d1 d' Hd Hlen [Hl HF]. destruct (simple_decode_ok _ _ _ Hd) as (H20 & Hihl & _).
  assert (∀ j, (j < 10)%nat → byte_at p' j = byte_at p j) as Hb.
  { intros j Hj. unfold byte_at. rewrite HF; [done|]. unfold nat_blocks. constructor; [simpl; lia|].
    destruct (decoded d1 !! 1%nat) as [[]|]; repeat constructor; simpl; lia. }
  apply (simple_decode_shape p p' d d' d1 Hd Hl); apply Hb; lia.
Qed.

(** ** The invariant of the manager *)

Definition live {A} (m : option A) : Prop := is_Some m.

Lemma live_nmap_upd {K V} `{Countable K} (m : option (gmap K V)) k v : live m → live (nmap_upd m k v).
Proof. unfold nmap_upd. intros [x ->]. by eexists. Qed.

Lemma live_nmap_set {E K V} `{Countable K} (m : option (gmap K V)) k v :
  live m → ∃ m', nmap_set (E:=E) m k v = Ok m' ∧ live m'.
Proof. intros [x ->]. eexists. split; [done|]. by eexists. Qed.

Lemma tcp_update_live now t k fl dir sz : live (tt_connections t) →
  live (tt_connections (updateIfExists now t k fl dir sz).1).
Proof.
  intros Hl. unfold updateIfExists. destruct (nmap_get _ _); [|done]. destruct (negb _); [|done].
  destruct (updateState _ _ _ _ _). by apply live_nmap_upd.
Qed.

Lemma tcp_track_live now f t k fl dir r sz o : live (tt_connections t) →
  ∃ t', track now f t k fl dir r sz o = Ok t' ∧ live (tt_connections t').
Proof.
  intros Hl. unfold track. pose proof (tcp_update_live now t k fl dir sz Hl) as H1.
  destruct (updateIfExists now t k fl dir sz) as [t1 [u|]]; [eauto|]. destruct (negb _); [eauto|].
  destruct (updateState _ _ _ _ _) as [c es]. cbn [fst] in H1.
  destruct (live_nmap_set (E:=unit) (tt_connections (sendEvents t1 es)) k c H1) as (m' & -> & Hm). eauto.
Qed.

Lemma udp_update_live now t k dir sz : live (UDP.ut_connections t) →
  live (UDP.ut_connections (UDP.updateIfExists now t k dir sz).1).
Proof.
  intros Hl. unfold UDP.updateIfExists. destruct (nmap_get _ _); [|done]. by apply live_nmap_upd.
Qed.

Lemma udp_track_live now f t k dir r sz o : live (UDP.ut_connections t) →
  ∃ t', UDP.track now f t k dir r sz o = Ok t' ∧ live (UDP.ut_connections t').
Proof.
  intros Hl. unfold UDP.track. pose proof (udp_update_live now t k dir sz Hl) as H1.
  destruct (UDP.updateIfExists now t k dir sz) as [t1 [u|]]; [eauto|]. cbv zeta. cbn [fst] in H1.
  match goal with |- context [nmap_set _ k ?c] => destruct (live_nmap_set (E:=unit) (UDP.ut_connections t1) k c H1) as (m' & -> & Hm) end.
  cbn [obind]. eauto.
Qed.

Lemma icmp_update_live now t k dir sz : live (ICMP.it_connections t) →
  live (ICMP.it_connections (ICMP.updateIfExists now t k dir sz).1).
Proof.
  intros Hl. unfold ICMP.updateIfExists. destruct (nmap_get _ _); [|done]. by apply live_nmap_upd.
Qed.

Lemma icmp_track_live rq now f t k ty co dir r sz : live (ICMP.it_connections t) →
  ∃ t', ICMP.track rq now f t k ty co dir r sz = Ok t' ∧ live (ICMP.it_connections t').
Proof.
  intros Hl. unfold ICMP.track. pose proof (icmp_update_live now t k dir sz Hl) as H1.
  destruct (ICMP.updateIfExists now t k dir sz) as [t1 [|]]; cbn [fst] in H1; [eauto|].
  destruct (negb _); [eauto|]. cbv zeta.
  match goal with |- context [nmap_set _ k ?c] => destruct (live_nmap_set (E:=unit) (ICMP.it_connections t1) k c H1) as (m' & -> & Hm) end.
  cbn [obind]. eauto.
Qed.

(** Trackers that are present and not closed, sound rule and translation tables. *)
Record manager_ok (m : Manager) : Prop := mkManagerOk {
  mok_rules : good_rules (m_rules m);
  mok_nat : nat_ok (m_nat m);
  mok_lip : table_ok (ipv4Bitmap (m_lip m));
  mok_udp : ∃ t, m_udp m = Some t ∧ live (UDP.ut_connections t);
  mok_icmp : ∃ t, m_icmp m = Some t ∧ live (ICMP.it_connections t);
  mok_tcp : ∃ t, m_tcp m = Some t ∧ live (tt_connections t);
}.

#[local] Hint Constructors manager_ok : fw.

Ltac mok := match goal with H : manager_ok _ |- _ => destruct H; split; simpl; eauto end.

Section Total.
Context `{PacketParser}.

Lemma decoded_layer d : (2 ≤ length (decoded d))%nat → ∃ l, decoded d !! 1%nat = Some l.
Proof. intros Hl. destruct (lookup_lt_is_Some_2 (decoded d) 1) as [l ?]; [lia|]. eauto. Qed.

Lemma trackInbound_total e m d src dst rid :
  manager_ok m → (2 ≤ length (decoded d))%nat →
  ∃ m', trackInbound e m d src dst rid = Ok (m', set_dnatOrigPort d 0) ∧ manager_ok m'.
Proof.
  intros Hm Hd. destruct (decoded_layer d Hd) as [l Hl]. unfold trackInbound. rewrite (go_index_ok _ _ _ Hl). cbn [obind].
  destruct (mok_udp m Hm) as (ut & Hu & Lu), (mok_icmp m Hm) as (it & Hi & Li), (mok_tcp m Hm) as (tt & Ht & Lt).
  destruct l; cbn [obind]; try (by eauto).
  - rewrite Ht. cbn [deref obind]. unfold TrackInbound.
    edestruct (tcp_track_live (e_now e) (e_flow e) tt) as (t' & -> & Hl'); [done|]. cbn [lift obind]. eexists. split; [done|]. mok.
  - rewrite Hu. cbn [deref obind]. unfold UDP.TrackInbound.
    edestruct (udp_track_live (e_now e) (e_flow e) ut) as (t' & -> & Hl'); [done|]. cbn [lift obind]. eexists. split; [done|]. mok.
  - rewrite Hi. cbn [deref obind]. unfold ICMP.TrackInbound.
    edestruct (icmp_track_live ICMPv4TypeEchoRequest (e_now e) (e_flow e) it) as (t' & -> & Hl'); [done|].
    cbn [lift obind]. eexists. split; [done|]. mok.
Qed.

Lemma isValidTrackedConnection_total e m d src dst :
  manager_ok m → (2 ≤ length (decoded d))%nat →
  ∃ m' b, isValidTrackedConnection e m d src dst = Ok (m', b) ∧ manager_ok m' ∧ m_rules m' = m_rules m ∧ m_fwd m' = m_fwd m ∧
    m_cfg m' = m_cfg m ∧ m_lip m' = m_lip m ∧ routingEnabled m' = routingEnabled m ∧ nativeRouter m' = nativeRouter m ∧
    netstackServices m' = netstackServices m.
Proof.
  intros Hm Hd. destruct (decoded_layer d Hd) as [l Hl]. unfold isValidTrackedConnection. rewrite (go_index_ok _ _ _ Hl). cbn [obind].
  destruct (mok_udp m Hm) as (ut & Hu & Lu), (mok_icmp m Hm) as (it & Hi & Li), (mok_tcp m Hm) as (tt & Ht & Lt).
  destruct l; try (do 2 eexists; split; [done|]; done).
  - rewrite Ht. cbn [deref obind].
    destruct (IsValidInbound (e_now e) tt (tcp_key d src dst) (getTCPFlags (d_tcp d)) (e_size e)) as [t' b] eqn:E.
    assert (live (tt_connections t')) as Hlive.
    { unfold IsValidInbound in E. repeat case_match; simplify_eq; try done. by apply live_nmap_upd. }
    do 2 eexists. split; [done|]. split; [mok|done].
  - rewrite Hu. cbn [deref obind].
    destruct (UDP.IsValidInbound (e_now e) ut (udp_key d src dst) (e_size e)) as [t' b] eqn:E.
    assert (live (UDP.ut_connections t')) as Hlive.
    { unfold UDP.IsValidInbound in E. repeat case_match; simplify_eq; try done. by apply live_nmap_upd. }
    do 2 eexists. split; [done|]. split; [mok|done].
  - rewrite Hi. cbn [deref obind].
    destruct (ICMP.IsValidInbound ICMPv4TypeEchoReply (e_now e) it (icmp_key d src dst) (icmp4_Type (d_icmp4 d)) (e_size e)) as [t' b] eqn:E.
    assert (live (ICMP.it_connections t')) as Hlive.
    { unfold ICMP.IsValidInbound in E. repeat case_match; simplify_eq; try done. by apply live_nmap_upd. }
    do 2 eexists. split; [done|]. split; [mok|done].
Qed.

Lemma IsLocalIP_total lip a : table_ok (ipv4Bitmap lip) → ∃ b, IsLocalIP lip a = Ok b.
Proof. intros Hok. destruct a as [|n|]; try (by eexists). rewrite IsLocalIP_bit by done. eauto. Qed.

Lemma protocol_total d : (2 ≤ length (decoded d))%nat → ∃ x, getProtocolFromPacket d = Ok x.
Proof. intros [l Hl]%decoded_layer. unfold getProtocolFromPacket. rewrite (go_index_ok _ _ _ Hl). destruct l; simpl; eauto. Qed.

Lemma ports_total d : (2 ≤ length (decoded d))%nat → ∃ x, getPortsFromPacket d = Ok x.
Proof. intros [l Hl]%decoded_layer. unfold getPortsFromPacket. rewrite (go_index_ok _ _ _ Hl). destruct l; simpl; eauto. Qed.

(** Where the reply of the parser puts the packet. *)
Lemma decode_view p d d' :
  DecodeLayers p d = (d', true) → (2 ≤ length (decoded d'))%nat →
  (20 ≤ ipHeaderLen_of d' ≤ length p)%nat ∧
  extractIPs d' = Ok (addr_of_slice (sub p 12 4), addr_of_slice (sub p 16 4)).
Proof.
  intros Hd Hl. destruct (decoded d') as [|l rest] eqn:E; [simpl in Hl; lia|].
  pose proof (decode_first _ _ _ _ _ Hd E) as ->. destruct (decode_ipv4 _ _ _ _ Hd E) as (H1 & H2 & H3 & H4).
  split; [lia|]. unfold extractIPs. rewrite E. cbn [go_index lookup list_lookup obind]. by rewrite H3, H4.
Qed.

(** A port translation that reports no change made none. *)
Lemma port_untranslated s pkt d src dst pkt' d' :
  translateInboundPortDNAT s pkt d src dst = Ok (pkt', d', false) → pkt' = pkt ∧ d' = d.
Proof.
  unfold translateInboundPortDNAT. destruct (negb _); [by intros [= <- <-]|].
  destruct (go_index _ _) as [l|e|]; cbn [obind]; [|done..].
  assert (∀ t q r, rewrite_port t pkt d q destinationPortOffset = Ok (r, Some errInvalidIPHeaderLength) ∨
                   rewrite_port t pkt d q destinationPortOffset = Ok (r, Some errPacketTooShort) → r = pkt) as Herr.
  { intros t q r. unfold rewrite_port, rewriteTCPPort, rewriteUDPPort, obind.
    destruct t; intros [Hx|Hx]; repeat case_match; simplify_eq; try done. }
  assert (∀ t q r x, rewrite_port t pkt d q destinationPortOffset = Ok (r, Some x) →
                     x = errInvalidIPHeaderLength ∨ x = errPacketTooShort) as Hx.
  { intros t q r x. unfold rewrite_port, rewriteTCPPort, rewriteUDPPort, obind.
    destruct t; intros Hx; repeat case_match; simplify_eq; auto. }
  assert (∀ t src port, applyPortRule s pkt d src dst port t (rewrite_port t) = Ok (pkt', d', false) → pkt' = pkt ∧ d' = d) as Happ.
  { intros t src' port. unfold applyPortRule. destruct (find_port_rule _ _ _ _ _) as [rule|]; [|by intros [= <- <-]].
    destruct (rewrite_port t pkt d (pr_targetPort rule) destinationPortOffset) as [[q [x|]]|e|] eqn:E; cbn [obind]; try done.
    intros [= <- <-]. split; [|done]. destruct (Hx _ _ _ _ E) as [-> | ->]; eapply Herr; eauto. }
  destruct l; try (by intros [= <- <-]); [apply (Happ LayerTypeTCP)|apply (Happ LayerTypeUDP)].
Qed.

Lemma reverse_untranslated s pkt d pkt' :
  (20 ≤ ipHeaderLen_of d ≤ length pkt)%nat →
  translateInboundReverse s pkt d = Ok (pkt', false) → pkt' = pkt.
Proof.
  intros Hh. unfold translateInboundReverse. destruct (negb _); [by intros [= <-]|].
  destruct (addr_at pkt 12) as [a|e|]; cbn [obind]; [|done..].
  destruct (findReverseDNATMapping s a) as [[o|]|e|]; cbn [obind]; try done; [|by intros [= <-]].
  unfold rewritePacketIP. destruct o as [|n|]; cbn [Is4 negb obind]; try (by intros [= <-]).
  unfold sourceIPOffset. rewrite go_slice_ok by lia. cbn [obind AsSlice].
  assert (12 + length (be_bytes 4 n) ≤ length pkt)%nat as Hf by (rewrite length_addr_bytes; lia).
  rewrite put_upd by done. cbn [obind].
  assert (bad_header_len d (upd pkt 12 (be_bytes 4 n)) = false) as ->.
  { unfold bad_header_len. rewrite length_upd by done. by rewrite !bool_decide_false by lia. }
  unfold obind. repeat case_match; intros; simplify_eq.
Qed.

(** ** What the dispatch decides *)

(** The rules permit the packet to the local host. *)
Definition local_permitted (m : Manager) (src : Addr) (layer : LayerType) (d : decoder) : Prop :=
  special_icmp layer d ∨ peer_permitted (m_rules m) src layer d.

Definition packet_ports (layer : LayerType) (d : decoder) : Z * Z :=
  match layer with
  | LayerTypeTCP => (tcp_SrcPort (d_tcp d), tcp_DstPort (d_tcp d))
  | LayerTypeUDP => (udp_SrcPort (d_udp d), udp_DstPort (d_udp d))
  | _ => (0, 0)
  end.

Definition routed_permitted (m : Manager) (src dst : Addr) (layer : LayerType) (d : decoder) : Prop :=
  route_permitted (m_rules m) src dst layer (packet_ports layer d).1 (packet_ports layer d).2.

(** The packets the forwarder has been given. *)
Definition forwarded (m : Manager) : list bytes := match m_fwd m with Some f => injected f | None => [] end.

Lemma handleLocalTraffic_spec e m d src dst pkt layer :
  manager_ok m → decoded d !! 1%nat = Some layer →
  ∃ m' d' drop, handleLocalTraffic e m d src dst pkt = Ok (m', d', pkt, drop) ∧ manager_ok m' ∧
    (drop = false ↔ local_permitted m src layer d ∧ shouldForward m d dst = false) ∧
    (forwarded m' ≠ forwarded m → local_permitted m src layer d ∧ shouldForward m d dst = true).
Proof.
  intros Hm Hl. assert (2 ≤ length (decoded d))%nat as Hd by (apply lookup_lt_Some in Hl; lia).
  unfold handleLocalTraffic. destruct (mok_rules m Hm) as [_ Hp _ W1 W2].
  destruct (peerACLsBlock_permitted (m_rules m) src layer d Hp W1 W2 Hl) as (id & b & -> & Hb). cbn [obind].
  destruct b.
  - destruct (protocol_total d Hd) as [pn ->], (ports_total d Hd) as [ps ->]. cbn [obind].
    do 3 eexists. split; [done|]. split; [mok|]. split; [|done]. split; [done|]. intros [Hx _]. by apply Hb in Hx.
  - assert (local_permitted m src layer d) as Hperm by (by apply Hb).
    destruct (shouldForward m d dst) eqn:Es.
    + unfold handleForwardedLocalTraffic. destruct (m_fwd m) as [f|]; do 3 eexists; (split; [done|]); (split; [mok|]);
        (split; [|done]); (split; [done|]); by intros [_ ?].
    + destruct (trackInbound_total e m d src dst id Hm Hd) as (m' & E & Hm'). rewrite E. cbn [obind fst snd].
      do 3 eexists. split; [done|]. split; [done|]. split; [done|]. intros Hne. destruct Hne.
      unfold trackInbound, obind, forwarded in *. repeat case_match; simplify_eq/=; done.
Qed.

Lemma ports_spec d layer : decoded d !! 1%nat = Some layer → getPortsFromPacket d = Ok (packet_ports layer d).
Proof. intros Hl. unfold getPortsFromPacket. rewrite (go_index_ok _ _ _ Hl). by destruct layer. Qed.

Lemma trackInbound_fwd e m d src dst r m' d' : trackInbound e m d src dst r = Ok (m', d') → m_fwd m' = m_fwd m.
Proof. unfold trackInbound, obind. intros. repeat case_match; simplify_eq/=; done. Qed.

Lemma handleRoutedTraffic_spec e m d src dst pkt layer :
  manager_ok m → decoded d !! 1%nat = Some layer →
  ∃ m' d' drop, handleRoutedTraffic e m d src dst pkt = Ok (m', d', pkt, drop) ∧ manager_ok m' ∧
    (drop = false ↔ routingEnabled m = true ∧ nativeRouter m = true) ∧
    (forwarded m' ≠ forwarded m → routingEnabled m = true ∧ nativeRouter m = false ∧ routed_permitted m src dst layer d).
Proof.
  intros Hm Hl. assert (2 ≤ length (decoded d))%nat as Hd by (apply lookup_lt_Some in Hl; lia).
  unfold handleRoutedTraffic. destruct (routingEnabled m) eqn:Er; cbn [negb].
  2: { do 3 eexists. split; [done|]. split; [done|]. split; [|done]. split; [done|]. by intros [? _]. }
  destruct (nativeRouter m) eqn:En.
  { destruct (trackInbound_total e m d src dst [] Hm Hd) as (m' & E & Hm'). rewrite E. cbn [obind fst snd].
    do 3 eexists. split; [done|]. split; [done|]. split; [done|]. intros Hne. destruct Hne.
    unfold forwarded. by rewrite (trackInbound_fwd _ _ _ _ _ _ _ _ E). }
  rewrite (go_index_ok _ _ _ Hl), (ports_spec _ _ Hl). cbn [obind].
  destruct (packet_ports layer d) as [sp dp] eqn:Ep.
  destruct (mok_rules m Hm) as [Hr _ W _ _].
  destruct (routeACLsPass_permitted (m_rules m) src dst layer sp dp Hr W) as (id & b & -> & Hb). cbn [obind].
  destruct b; cbn [negb].
  - assert (routed_permitted m src dst layer d) as Hperm by (unfold routed_permitted; rewrite Ep; by apply Hb).
    destruct (m_fwd m) as [f|].
    + destruct (InjectIncomingPacket _ pkt) as [f' ok]. do 3 eexists. split; [done|]. split; [mok|].
      split; [|done]. split; [done|]. by intros [_ ?].
    + do 3 eexists. split; [done|]. split; [done|]. split; [|done]. split; [done|]. by intros [_ ?].
  - destruct (protocol_total d Hd) as [pn ->]. cbn [obind]. do 3 eexists. split; [done|]. split; [mok|].
    split; [|done]. split; [done|]. by intros [_ ?].
Qed.

(** The trackers accept the packet. *)
Definition tracked (e : env) (m : Manager) (d : decoder) (src dst : Addr) : Prop :=
  stateful (m_cfg m) = true ∧ ∃ m', isValidTrackedConnection e m d src dst = Ok (m', true).

Definition is_local (m : Manager) (a : Addr) : Prop := IsLocalIP (m_lip m) a = Ok true.

(** The reasons for which a packet is handed to the host. *)
Definition passes (e : env) (m : Manager) (d : decoder) (src dst : Addr) (layer : LayerType) : Prop :=
  tracked e m d src dst ∨
  (is_local m dst ∧ local_permitted m src layer d ∧ shouldForward m d dst = false) ∨
  (¬ is_local m dst ∧ routingEnabled m = true ∧ nativeRouter m = true).

(** The reasons for which a packet is handed to the forwarder. *)
Definition may_forward (e : env) (m : Manager) (d : decoder) (src dst : Addr) (layer : LayerType) : Prop :=
  ¬ tracked e m d src dst ∧
  ((is_local m dst ∧ local_permitted m src layer d ∧ shouldForward m d dst = true) ∨
   (¬ is_local m dst ∧ routingEnabled m = true ∧ nativeRouter m = false ∧ routed_permitted m src dst layer d)).

Lemma dispatchInbound_spec e m d src dst pkt layer :
  manager_ok m → decoded d !! 1%nat = Some layer →
  ∃ m' d' drop, dispatchInbound e m d src dst pkt = Ok (m', d', pkt, drop) ∧ manager_ok m' ∧
    (drop = false ↔ passes e m d src dst layer) ∧ (forwarded m' ≠ forwarded m → may_forward e m d src dst layer).
Proof.
  intros Hm Hl. assert (2 ≤ length (decoded d))%nat as Hd by (apply lookup_lt_Some in Hl; lia).
  unfold dispatchInbound.
  assert (∃ m1 b, (if stateful (m_cfg m) then isValidTrackedConnection e m d src dst else Ok (m, false)) = Ok (m1, b) ∧
    manager_ok m1 ∧ m_rules m1 = m_rules m ∧ m_fwd m1 = m_fwd m ∧ m_cfg m1 = m_cfg m ∧ m_lip m1 = m_lip m ∧
    routingEnabled m1 = routingEnabled m ∧ nativeRouter m1 = nativeRouter m ∧ netstackServices m1 = netstackServices m ∧
    (b = true ↔ tracked e m d src dst)) as (m1 & b & -> & Hm1 & E1 & E2 & E3 & E4 & E5 & E6 & E7 & Hb).
  { unfold tracked. destruct (stateful (m_cfg m)).
    - destruct (isValidTrackedConnection_total e m d src dst Hm Hd) as (m1 & b & E & ? & ? & ? & ? & ? & ? & ? & ?).
      exists m1, b. split; [done|]. repeat (split; [done|]). split; [intros ->; eauto|]. intros [_ [m2 E']]. congruence.
    - exists m, false. do 9 (split; [done|]). split; [done|]. by intros [? _]. }
  cbn [obind]. destruct b.
  { do 3 eexists. split; [done|]. split; [done|]. split.
    - split; [|done]. intros _. left. by apply Hb.
    - unfold forwarded. by rewrite E2. }
  assert (¬ tracked e m d src dst) as Hnt by (intros Hx; by apply Hb in Hx).
  destruct (IsLocalIP_total (m_lip m1) dst (mok_lip m1 Hm1)) as [loc Eloc]. rewrite Eloc. cbn [obind].
  rewrite E4 in Eloc.
  assert (shouldForward m1 d dst = shouldForward m d dst) as Esf.
  { unfold shouldForward, hasMatchingNetstackService. by rewrite E3, E7. }
  assert (forwarded m1 = forwarded m) as Ef by (unfold forwarded; by rewrite E2).
  destruct loc.
  - destruct (handleLocalTraffic_spec e m1 d src dst pkt layer Hm1 Hl) as (m' & d' & drop & -> & Hm' & H1 & H2).
    do 3 eexists. split; [done|]. split; [done|]. unfold local_permitted in H1, H2. rewrite E1, Esf in H1, H2. rewrite Ef in H2.
    unfold passes, may_forward, is_local, local_permitted. rewrite H1, Eloc. split; [|tauto].
    split; [tauto|]. intros [?|[[_ ?]|[? _]]]; done.
  - destruct (handleRoutedTraffic_spec e m1 d src dst pkt layer Hm1 Hl) as (m' & d' & drop & -> & Hm' & H1 & H2).
    do 3 eexists. split; [done|]. split; [done|]. unfold routed_permitted in H2. rewrite E5, E6 in H1. rewrite E1, E5, E6, Ef in H2.
    unfold passes, may_forward, is_local, routed_permitted. rewrite H1, Eloc. split.
    + split; [intros ?; right; right; done|]. intros [?|[[? _]|[_ ?]]]; done.
    + intros Hx. apply H2 in Hx. split; [done|]. right. split; [done|]. tauto.
Qed.

(** A fragment that carries no transport header. *)
Definition is_fragment (d : decoder) : Prop :=
  decoded d = [LayerTypeIPv4] ∧ (ip4_MoreFragments (d_ip4 d) = true ∨ ip4_FragOffset (d_ip4 d) ≠ 0).

(** [pkt'] is the packet after the translations and [d'] its decoding. *)
Record inbound_view (pkt pkt' : bytes) (d' : decoder) (src dst : Addr) : Prop := mkView {
  view_decoded : ∃ d0, DecodeLayers pkt' d0 = (d', true);
  view_layers : (2 ≤ length (decoded d'))%nat;
  view_src : src = addr_of_slice (sub pkt' 12 4);
  view_dst : dst = addr_of_slice (sub pkt' 16 4);
  view_frame : frame (nat_blocks (decoded d' !! 1%nat) (ipHeaderLen_of d')) pkt pkt';
}.

Lemma redecode_view p0 pkt pkt' d0 d d' translated src dst :
  DecodeLayers pkt d0 = (d, true) → (2 ≤ length (decoded d))%nat →
  extractIPs d = Ok (src, dst) → 
  frame (nat_blocks (decoded d !! 1%nat) (ipHeaderLen_of d)) p0 pkt →
  frame (nat_blocks (decoded d !! 1%nat) (ipHeaderLen_of d)) pkt pkt' →
  (translated = false → pkt' = pkt) →
  decoded d' = decoded d → ipHeaderLen_of d' = ipHeaderLen_of d → (translated = false → d' = d) →
  ∃ d2 src2 dst2, redecode pkt' d' translated src dst = Ok (d2, Some (src2, dst2)) ∧
    inbound_view p0 pkt' d2 src2 dst2 ∧ (∃ x, DecodeLayers pkt' x = (d2, true)).
Proof.
  intros Hd Hl Hx HF0 HF Hsame Hdec Hihl Hd'. unfold redecode. destruct translated.
  - destruct (decode_rewrite _ _ _ _ d' Hd Hl HF) as (d2 & E2 & Ed2 & Eh2). rewrite E2.
    destruct (decode_view _ _ _ E2) as [_ ->]; [by rewrite Ed2|]. cbn [obind]. do 3 eexists. split; [done|].
    split; [|eauto]. split; [eauto|by rewrite Ed2|done|done|]. rewrite Ed2, Eh2. by eapply frame_trans_same.
  - rewrite (Hsame eq_refl), (Hd' eq_refl). destruct (decode_view _ _ _ Hd Hl) as [_ Hx']. rewrite Hx in Hx'. injection Hx' as -> ->.
    do 3 eexists. split; [done|]. split; [|eauto]. split; eauto.
Qed.

(** The packet does not parse, or has no transport layer and is no fragment. *)
Definition malformed (d : decoder) (pkt : bytes) : Prop := (isValidPacket d pkt).1.2 = false.

Lemma sub_addr_valid pkt i : (i + 4 ≤ length pkt)%nat → IsValid (addr_of_slice (sub pkt i 4)) = true.
Proof. intros Hl. unfold addr_of_slice, AddrFromSlice. by rewrite bool_decide_true by (by apply length_sub). Qed.

Lemma filterInbound_view e m d pkt :
  manager_ok m →
  (∃ d', filterInbound e m d pkt = Ok (m, d', pkt, true) ∧ malformed d pkt) ∨
  (∃ d', filterInbound e m d pkt = Ok (m, d', pkt, false) ∧ is_fragment d' ∧ DecodeLayers pkt d = (d', true)) ∨
  (∃ pkt' d' src dst, inbound_view pkt pkt' d' src dst ∧
     filterInbound e m d pkt = dispatchInbound e m d' src dst pkt').
Proof.
  intros Hm. unfold filterInbound, malformed, isValidPacket. destruct (DecodeLayers pkt d) as [d1 ok] eqn:Ed.
  destruct ok; cbn [negb]; [|left; eauto]. case_bool_decide as Hl.
  - cbn [negb]. destruct (decode_view _ _ _ Ed Hl) as [Hh Hx]. rewrite Hx. cbn [obind].
    rewrite sub_addr_valid by lia. cbn [negb]. right. right.
    destruct (translate_inbound_port_total (m_nat m) pkt d1 (addr_of_slice (sub pkt 12 4)) (addr_of_slice (sub pkt 16 4)) Hl)
      as (pkt1 & d2 & b1 & E1 & F1 & v & Hv). rewrite E1. cbn [obind].
    destruct (redecode_view pkt pkt pkt1 d d1 d2 b1 _ _ Ed Hl Hx (frame_refl _ _) F1) as (d3 & s3 & t3 & -> & V3 & x3 & E3).
    { intros ->. by apply port_untranslated in E1 as [? _]. }
    { by subst d2. }
    { by subst d2. }
    { intros ->. by apply port_untranslated in E1 as [_ ?]. }
    cbn [obind]. destruct V3 as [_ L3 S3 T3 F3]. destruct (decode_view _ _ _ E3 L3) as [Hh3 Hx3].
    assert (20 ≤ length pkt1)%nat as H20 by lia.
    destruct (translate_addr_total (m_nat m) pkt1 d3 (mok_nat m Hm) H20) as [_ ([pkt2 b2] & E2 & F2)]. rewrite E2. cbn [obind].
    destruct (redecode_view pkt pkt1 pkt2 x3 d3 d3 b2 s3 t3 E3 L3) as (d4 & s4 & t4 & -> & V4 & _).
    { by rewrite Hx3, S3, T3. }
    { done. }
    { exact F2. }
    { intros ->. by apply reverse_untranslated in E2. }
    { done. }
    { done. }
    { done. }
    cbn [obind]. eauto 10.
  - destruct (decoded d1) as [|l [|l' rest]] eqn:El; [left; eauto| |simpl in Hl; lia].
    pose proof (decode_first _ _ _ _ _ Ed El) as ->.
    destruct (ip4_MoreFragments (d_ip4 d1) || negb (ip4_FragOffset (d_ip4 d1) =? 0)) eqn:Ef; cbn [negb]; [|left; eauto].
    unfold extractIPs. rewrite El. cbn [go_index lookup list_lookup obind].
    destruct (decode_ipv4 _ _ _ _ Ed El) as (H1 & H2 & -> & _). rewrite sub_addr_valid by lia. cbn [negb]. right. left. exists d1. split; [done|]. split; [|done].
    split; [done|]. apply orb_true_iff in Ef as [?|Ef%negb_true_iff%Z.eqb_neq]; auto.
Qed.

(** ** Outbound packets *)

Lemma options_size_take i opts o :
  opts !! i = Some o → (options_size (take i opts) + option_size o ≤ options_size opts)%nat.
Proof.
  revert i. induction opts as [|x opts IH]; intros [|i] Hi; simpl in *; simplify_eq.
  - unfold options_size. simpl. lia.
  - apply IH in Hi. unfold options_size in *. simpl. lia.
Qed.

Lemma find_mss_spec clamp opts k i :
  find_mss clamp k opts = Some i →
  ∃ o, opts !! (i - k)%nat = Some o ∧ (k ≤ i)%nat ∧ OptionType o = TCPOptionKindMSS ∧ length (OptionData o) = 2%nat ∧
    clamp < be_number (OptionData o).
Proof.
  revert k. induction opts as [|x opts IH]; intros k; simpl; [done|]. case_if; bool_facts.
  - intros [= <-]. exists x. rewrite Nat.sub_diag. done.
  - intros (o & Ho & Hk & ?)%IH. exists o. replace (i - k)%nat with (S (i - S k)) by lia. split; [done|]. split; [lia|done].
Qed.

Lemma clampTCPMSS_total m pkt d0 d :
  DecodeLayers pkt d0 = (d, true) → decoded d !! 1%nat = Some LayerTypeTCP →
  ∃ r, clampTCPMSS m pkt d = Ok r ∧ length r.1 = length pkt.
Proof.
  intros Hd Hl. unfold clampTCPMSS. destruct (negb _); [eauto|].
  destruct (find_mss _ _ _) as [i|] eqn:Ei; [|eauto]. case_bool_decide; [eauto|].
  destruct (decoded d) as [|l [|l' rest]] eqn:El; try done. injection Hl as ->.
  pose proof (decode_first _ _ _ _ _ Hd El) as ->.
  pose proof (decode_tcp _ _ _ _ _ Hd El) as Ht. destruct (decode_ipv4 _ _ _ _ Hd El) as (H1 & H2 & H3 & H4).
  apply find_mss_spec in Ei as (o & Ho & _ & Hk & Hlen & _). rewrite Nat.sub_0_r in Ho.
  pose proof (options_size_take _ _ _ Ho) as Hsz. assert (option_size o = 4%nat) as H4o by (unfold option_size; by rewrite Hk, Hlen). rewrite H4o in Hsz.
  unfold updateMSSOption, recalculateTCPChecksum, PutUint16.
  rewrite put_upd by (rewrite length_be16; lia). cbn [obind]. set (p1 := upd _ _ _).
  assert (length p1 = length pkt) as L1 by (apply length_upd; rewrite length_be16; lia).
  rewrite put_upd by (simpl; lia). cbn [obind]. set (p2 := upd p1 _ _).
  assert (length p2 = length pkt) as L2 by (unfold p2; rewrite length_upd; simpl; lia).
  rewrite go_from_ok by lia. cbn [obind]. rewrite H3, H4.
  destruct (tcp_sum_total (sub pkt 12 4) (sub pkt 16 4) (ip4_Protocol (d_ip4 d)) (drop (ipHeaderLen_of d) p2)) as [c ->];
    [apply length_sub; lia..|]. cbn [obind].
  rewrite put_upd by (rewrite length_be16; lia). cbn [obind]. eexists. split; [done|]. simpl.
  rewrite length_upd; [done|]. rewrite length_be16. lia.
Qed.

Lemma trackOutbound_total e m d src dst pkt :
  manager_ok m → (2 ≤ length (decoded d))%nat →
  ∃ m' pkt', trackOutbound e m d src dst pkt = Ok (m', pkt') ∧ manager_ok m' ∧ length pkt' = length pkt.
Proof.
  intros Hm Hd. destruct (decoded_layer d Hd) as [l Hl]. unfold trackOutbound. rewrite (go_index_ok _ _ _ Hl). cbn [obind].
  destruct (mok_udp m Hm) as (ut & Hu & Lu), (mok_icmp m Hm) as (it & Hi & Li), (mok_tcp m Hm) as (tt & Ht & Lt).
  destruct l; try (do 2 eexists; split; [done|]; done).
  - rewrite Ht. cbn [deref obind]. unfold TrackOutbound.
    pose proof (tcp_update_live (e_now e) tt (reverse_key (tcp_key d src dst)) (getTCPFlags (d_tcp d)) Egress (e_size e) Lt) as L1.
    destruct (updateIfExists _ _ _ _ _ _) as [t1 [o|]]; cbn [fst] in L1.
    + cbn [lift obind]. destruct (o =? 0); [do 2 eexists; split; [done|]; split; [mok|done]|].
      destruct (rewrite_port_total LayerTypeTCP pkt d o sourcePortOffset) as (r & E & HF); [by left|by left|].
      cbn [rewrite_port] in E. rewrite E. cbn [obind]. do 2 eexists. split; [done|]. split; [mok|]. by destruct HF.
    + edestruct (tcp_track_live (e_now e) (e_flow e) t1) as (t' & -> & Hl'); [done|]. cbn [lift obind].
      rewrite Z.eqb_refl. do 2 eexists. split; [done|]. split; [mok|done].
  - rewrite Hu. cbn [deref obind]. unfold UDP.TrackOutbound.
    pose proof (udp_update_live (e_now e) ut (reverse_key (udp_key d src dst)) Egress (e_size e) Lu) as L1.
    destruct (UDP.updateIfExists _ _ _ _ _) as [t1 [o|]]; cbn [fst] in L1.
    + cbn [lift obind]. destruct (o =? 0); [do 2 eexists; split; [done|]; split; [mok|done]|].
      destruct (rewrite_port_total LayerTypeUDP pkt d o sourcePortOffset) as (r & E & HF); [by right|by left|].
      cbn [rewrite_port] in E. rewrite E. cbn [obind]. do 2 eexists. split; [done|]. split; [mok|]. by destruct HF.
    + edestruct (udp_track_live (e_now e) (e_flow e) t1) as (t' & -> & Hl'); [done|]. cbn [lift obind].
      rewrite Z.eqb_refl. do 2 eexists. split; [done|]. split; [mok|done].
  - rewrite Hi. cbn [deref obind]. unfold ICMP.TrackOutbound.
    pose proof (icmp_update_live (e_now e) it (ICMP.reverse_ikey (icmp_key d src dst)) Egress (e_size e) Li) as L1.
    destruct (ICMP.updateIfExists _ _ _ _ _) as [t1 [|]]; cbn [fst negb] in *.
    + cbn [lift obind]. do 2 eexists. split; [done|]. split; [mok|done].
    + edestruct (icmp_track_live ICMPv4TypeEchoRequest (e_now e) (e_flow e) t1) as (t' & -> & Hl'); [done|]. cbn [lift obind].
      do 2 eexists. split; [done|]. split; [mok|done].
Qed.

Lemma filterOutbound_total e m d pkt :
  manager_ok m → ∃ m' d' pkt' drop, filterOutbound e m d pkt = Ok (m', d', pkt', drop) ∧ manager_ok m'.
Proof.
  intros Hm. unfold filterOutbound. destruct (DecodeLayers pkt d) as [d1 ok] eqn:Ed.
  destruct ok; cbn [negb]; [|eauto 10]. case_bool_decide as Hl; [eauto 10|].
  assert (2 ≤ length (decoded d1))%nat as Hl2 by lia. destruct (decode_view _ _ _ Ed Hl2) as [Hh Hx]. rewrite Hx. cbn [obind].
  destruct (negb _); [eauto 10|]. destruct (decoded_layer d1 Hl2) as [l El]. rewrite (go_index_ok _ _ _ El). cbn [obind].
  assert (∃ p1 b, match l with
     | LayerTypeUDP => Ok (pkt, udpHooksDrop m (udp_DstPort (d_udp d1)) (addr_of_slice (sub pkt 16 4)) pkt)
     | LayerTypeTCP =>
         if tcpHooksDrop m (tcp_DstPort (d_tcp d1)) (addr_of_slice (sub pkt 16 4)) pkt then Ok (pkt, true)
         else if mssClampEnabled (m_cfg m)
              then let! r := clampTCPMSS m pkt d1 in Ok (r.1, false)
              else Ok (pkt, false)
     | _ => Ok (pkt, false)
     end = Ok (p1, b) ∧ length p1 = length pkt) as (p1 & b & -> & L1).
  { destruct l; try (by eauto). destruct (tcpHooksDrop _ _ _ _); [by eauto|]. destruct (mssClampEnabled _); [|by eauto].
    destruct (clampTCPMSS_total m pkt d d1 Ed El) as (r & -> & Hr). cbn [obind]. eauto. }
  cbn [obind]. destruct b; [eauto 10|].
  destruct (trackOutbound_total e m d1 (addr_of_slice (sub pkt 12 4)) (addr_of_slice (sub pkt 16 4)) p1 Hm Hl2) as (m2 & p2 & -> & Hm2 & L2).
  cbn [obind]. assert (20 ≤ length p2)%nat as H20 by lia.
  destruct (translate_addr_total (m_nat m2) p2 d1 (mok_nat m2 Hm2) H20) as [([p3 b3] & -> & _) _]. cbn [obind]. eauto 10.
Qed.
End Total.

(** ** Properties *)

(** Everything that happens to a manager: packets in both directions, with any
    decoder from the pool; changes of the rules, the translations, the local
    addresses, the routing mode, the hooks and the services of the netstack; a tick of
    the trackers' clean-up; the end. *)
Inductive fw_call :=
| CInbound (e : env) (d : decoder) (pkt : bytes)
| COutbound (e : env) (d : decoder) (pkt : bytes)
| CRule (o : rule_op)
| CNat (o : nat_op)
| CLocalIPs (wg : option Addr) (ifaces : option (list net_Interface))
| CEnableRouting (disableUspRouting forceUserspaceRouter newOk : bool)
| CDisableRouting
| CUDPHook (ip : Addr) (dPort : Z) (hook : option (bytes → bool))
| CTCPHook (ip : Addr) (dPort : Z) (hook : option (bytes → bool))
| CRegister (protocol : Protocol) (port : Z)
| CUnregister (protocol : Protocol) (port : Z)
| CCleanup (now : Z)
| CClose.

Definition set_nat (m : Manager) (n : natState) : Manager :=
  mkManager (m_cfg m) (m_rules m) n (m_lip m) (m_udp m) (m_icmp m) (m_tcp m) (m_fwd m) (m_flow m)
    (routingEnabled m) (nativeRouter m) (blockRule m) (netstackServices m) (udpHookOut m) (tcpHookOut m).

Section Properties.
Context `{PacketParser}.

(** Route rules are left to the native firewall when it routes. *)
Definition run_rule_call (m : Manager) (o : rule_op) : outcome ruleErr Manager :=
  match o with
  | RAddRoute _ id src dst p sp dp a => Ok (addRouteFiltering m id src dst p sp dp a).1
  | RDeleteRoute k => deleteRouteRule m k
  | RUpdateSet s ps => UpdateSet m s ps
  | o => let! r := run_rule (m_rules m) o in Ok (set_rules m r)
  end.

Definition cleanup_trackers (now : Z) (m : Manager) : Manager :=
  mkManager (m_cfg m) (m_rules m) (m_nat m) (m_lip m) (UDP.cleanup now <$> m_udp m) (ICMP.cleanup now <$> m_icmp m)
    (ConntrackTCP.cleanup now <$> m_tcp m) (m_fwd m) (m_flow m) (routingEnabled m) (nativeRouter m) (blockRule m)
    (netstackServices m) (udpHookOut m) (tcpHookOut m).

Definition run_call (m : Manager) (c : fw_call) : total Manager :=
  match c with
  | CInbound e d pkt => let! r := filterInbound e m d pkt in let '(m', _, _, _) := r in Ok m'
  | COutbound e d pkt => let! r := filterOutbound e m d pkt in let '(m', _, _, _) := r in Ok m'
  | CRule o => otry (run_rule_call m o) (λ _, Ok m) Ok
  | CNat o => otry (run_op (m_lip m) (m_nat m) o) (λ _, Ok m) (λ n, Ok (set_nat m n))
  | CLocalIPs wg ifaces => otry (UpdateLocalIPs wg ifaces (m_lip m)) (λ _, Ok m) (λ l, Ok (set_lip m l))
  | CEnableRouting b1 b2 b3 => Ok (EnableRouting b1 b2 b3 m).1
  | CDisableRouting => let! r := DisableRouting m in Ok r.1
  | CUDPHook ip p h => Ok (SetUDPPacketHook m ip p h)
  | CTCPHook ip p h => Ok (SetTCPPacketHook m ip p h)
  | CRegister pr p => Ok (RegisterNetstackService m pr p)
  | CUnregister pr p => Ok (UnregisterNetstackService m pr p)
  | CCleanup now => Ok (cleanup_trackers now m)
  | CClose => Ok (resetState m)
  end.

Fixpoint run_calls (m : Manager) (cs : list fw_call) : total Manager :=
  match cs with
  | [] => Ok m
  | c :: cs => let! m := run_call m c in run_calls m cs
  end.

(** The ports of added rules are well formed, and the manager is not closed. *)
Definition call_wf (c : fw_call) : Prop :=
  match c with CRule o => op_ports_wf o | CClose => False | _ => True end.

Lemma filterInbound_total e m d pkt :
  manager_ok m → ∃ m' d' pkt' drop, filterInbound e m d pkt = Ok (m', d', pkt', drop) ∧ manager_ok m'.
Proof.
  intros Hm. destruct (filterInbound_view e m d pkt Hm) as [(d' & -> & _)|[(d' & -> & _)|(p' & d' & s & t & V & ->)]]; [eauto 10..|].
  destruct (decoded_layer d' (view_layers _ _ _ _ _ V)) as [l Hl].
  destruct (dispatchInbound_spec e m d' s t p' l Hm Hl) as (m' & d2 & drop & -> & ? & _). eauto 10.
Qed.

Lemma add_route_manager_ok m id src dst p sp dp a :
  manager_ok m → port_wf sp → port_wf dp → manager_ok (addRouteFiltering m id src dst p sp dp a).1.
Proof.
  intros Hm Hs Hd. unfold addRouteFiltering. destruct (delegated m); [done|]. set (k := GenerateRouteRuleKey _ _ _ _ _ _).
  pose proof (run_rule_good (m_rules m) (RAddRoute k id (SortPrefixes src) dst p sp dp a) (mok_rules m Hm) (conj Hs Hd)) as Hr.
  cbn [run_rule] in Hr. destruct (addRouteRule _ _ _ _ _ _ _ _ _) as [r key]. cbn [fst] in *. mok.
Qed.

Lemma delete_route_manager_ok m k : manager_ok m →
  match deleteRouteRule m k with Ok m' => manager_ok m' | Err _ => True | Panic => False end.
Proof.
  intros Hm. unfold deleteRouteRule. destruct (delegated m); [done|].
  pose proof (run_rule_good (m_rules m) (RDeleteRoute k) (mok_rules m Hm) I) as Hr. cbn [run_rule] in Hr.
  destruct (removeRouteRule _ _); cbn [obind]; [mok|done..].
Qed.

Lemma rule_call_manager_ok m o : manager_ok m → op_ports_wf o →
  match run_rule_call m o with Ok m' => manager_ok m' | Err _ => True | Panic => False end.
Proof.
  intros Hm Ho. pose proof (run_rule_good (m_rules m) o (mok_rules m Hm) Ho) as Hr.
  destruct o as [u g ip p sp dp a|r|k g src dst p sp dp a|k|s ps|]; unfold run_rule_call.
  - destruct (run_rule _ _); cbn [obind]; [mok|done..].
  - destruct (run_rule _ _); cbn [obind]; [mok|done..].
  - destruct Ho. by apply add_route_manager_ok.
  - by apply delete_route_manager_ok.
  - unfold UpdateSet. destruct (delegated m); [done|]. cbn [run_rule] in Hr. destruct (updateRuleSet _ _ _); cbn [obind]; [mok|done..].
  - cbn. mok.
Qed.

Lemma set_routing_ok m a b : manager_ok m → manager_ok (set_routing m a b).
Proof. intros Hm. mok. Qed.

Lemma initForwarder_ok newOk m : manager_ok m → manager_ok (initForwarder newOk m).1.
Proof. intros Hm. unfold initForwarder. destruct (m_fwd m); [done|]. destruct (negb _); [mok|]. destruct (negb _); mok. Qed.

Lemma EnableRouting_ok b1 b2 b3 m : manager_ok m → manager_ok (EnableRouting b1 b2 b3 m).1.
Proof.
  intros Hm. unfold EnableRouting. assert (manager_ok (determineRouting b1 b2 b3 m).1) as H1.
  { unfold determineRouting. set (m1 := if b1 then _ else _).
    assert (manager_ok m1) as Hm1 by (unfold m1; repeat case_match; by apply set_routing_ok).
    destruct (routingEnabled m1 && negb (nativeRouter m1)); [by apply initForwarder_ok|done]. }
  destruct (determineRouting b1 b2 b3 m) as [m1 [e|]]; [done|]. cbn [fst] in H1. destruct (m_fwd m1); [|done].
  unfold blockInvalidRouted. set (src := [PrefixFrom IPv4Unspecified 0]). set (dst := mkNetwork zero_set _).
  pose proof (add_route_manager_ok m1 [] src dst ProtocolALL None None ActionDrop H1 I I) as H2.
  destruct (addRouteFiltering _ _ _ _ _ _ _ _) as [m2 rule]. cbn [fst] in *. mok.
Qed.

Lemma DisableRouting_ok m : manager_ok m → ∃ r, DisableRouting m = Ok r ∧ manager_ok r.1.
Proof.
  intros Hm. unfold DisableRouting. destruct (m_fwd m); [|eauto]. pose proof (set_routing_ok m false false Hm) as H1.
  destruct (_ && _); [eauto|]. assert (manager_ok (set_fwd (set_routing m false false) None)) as H2 by mok.
  set (m1 := set_fwd _ None) in *. destruct (blockRule m1) as [rule|]; [|eauto].
  pose proof (delete_route_manager_ok m1 rule H2) as H3. destruct (deleteRouteRule m1 rule) as [m2|e|]; [|eauto|done].
  eexists. split; [done|]. cbn [fst]. mok.
Qed.

Lemma cleanup_trackers_ok now m : manager_ok m → manager_ok (cleanup_trackers now m).
Proof.
  intros [H1 H2 H3 (u & Eu & [mu Lu]) (i & Ei & [mi Li]) (t & Et & [mt Lt])]. split; simpl; try done.
  - rewrite Eu. eexists. split; [done|]. unfold UDP.cleanup. rewrite Lu. by eexists.
  - rewrite Ei. eexists. split; [done|]. unfold ICMP.cleanup. rewrite Li. by eexists.
  - rewrite Et. eexists. split; [done|]. unfold ConntrackTCP.cleanup. rewrite Lt. by eexists.
Qed.

Lemma run_call_ok m c : manager_ok m → call_wf c → ∃ m', run_call m c = Ok m' ∧ manager_ok m'.
Proof.
  intros Hm Hc. destruct c as [e d pkt|e d pkt|o|o|wg ifs|b1 b2 b3| |ip p h|ip p h|pr p|pr p|now|]; cbn [run_call].
  - destruct (filterInbound_total e m d pkt Hm) as (m' & ? & ? & ? & -> & ?). cbn [obind]. eauto.
  - destruct (filterOutbound_total e m d pkt Hm) as (m' & ? & ? & ? & -> & ?). cbn [obind]. eauto.
  - pose proof (rule_call_manager_ok m o Hm Hc) as Hr. destruct (run_rule_call m o) as [r|e|]; cbn [otry]; [eauto..|done].
  - pose proof (run_op_ok (m_lip m) (m_nat m) o (mok_lip m Hm) (mok_nat m Hm)) as Hr.
    destruct (run_op (m_lip m) (m_nat m) o) as [n|e|]; cbn [otry]; [|eauto|done]. eexists. split; [done|].
    destruct Hr as [Hr _]. mok.
  - destruct (UpdateLocalIPs_table wg ifs (m_lip m)) as (l & -> & [Hl _]). cbn [otry]. eexists. split; [done|]. mok.
  - eexists. split; [done|]. by apply EnableRouting_ok.
  - destruct (DisableRouting_ok m Hm) as (r & -> & Hr). cbn [obind]. eauto.
  - eexists. split; [done|]. mok.
  - eexists. split; [done|]. mok.
  - eexists. split; [done|]. mok.
  - eexists. split; [done|]. mok.
  - eexists. split; [done|]. by apply cleanup_trackers_ok.
  - done.
Qed.

Lemma run_calls_ok m cs : manager_ok m → Forall call_wf cs → ∃ m', run_calls m cs = Ok m' ∧ manager_ok m'.
Proof.
  intros Hm Hc. revert m Hm. induction Hc as [|c cs Hw _ IH]; intros m Hm; simpl; [eauto|].
  destruct (run_call_ok m c Hm Hw) as (m1 & -> & Hm1). cbn [obind]. auto.
Qed.

Lemma create_ok c newOk lip : table_ok (ipv4Bitmap lip) → manager_ok (create c false newOk lip).
Proof.
  intros Hl. unfold create. set (m := mkManager _ _ _ _ _ _ _ _ _ _ _ _ _ _ _).
  assert (manager_ok m) as Hm.
  { split; simpl; [apply no_rules_good|apply newNatState_ok|done| | |]; eexists; (split; [done|]); by eexists. }
  destruct (netstack c && localForwarding c); [|done]. by apply initForwarder_ok.
Qed.

(** C35: with connection tracking on, and until the manager is closed, no packet in
    either direction makes the filter panic, whatever its bytes, whatever a pooled
    decoder still holds and whatever rules with well-formed ports, translations, local
    addresses, hooks, services and routing modes were set in between. *)
Theorem filter_never_panics c newOk lip cs :
  table_ok (ipv4Bitmap lip) → Forall call_wf cs → ∃ m, run_calls (create c false newOk lip) cs = Ok m.
Proof.
  intros Hl Hc. destruct (run_calls_ok _ cs (create_ok c newOk lip Hl) Hc) as (m & ? & _). eauto.
Qed.

(** C11: with connection tracking on, and after any history of packets and of changes of
    the rules (with well-formed ports), the translations, the local addresses, the
    hooks and the routing mode before the manager is closed, an inbound packet that
    does not parse is dropped, a fragment without transport header is passed on
    unfiltered, and any other packet is handed to the host exactly for one of
    these reasons: the trackers accept it; it is for a local address, the peer
    rules permit it and it is not to be forwarded; it is for another address and
    the native router is in charge.  It is handed to the forwarder only when the
    peer rules permit it (local forwarding) or the route rules do.  Addresses and
    ports are those after translation. *)
Theorem filter_inbound_exact c newOk lip cs m e d pkt :
  table_ok (ipv4Bitmap lip) → Forall call_wf cs → run_calls (create c false newOk lip) cs = Ok m →
  ∃ m' d' pkt' drop, filterInbound e m d pkt = Ok (m', d', pkt', drop) ∧
    ((malformed d pkt ∧ drop = true ∧ m' = m) ∨
     (is_fragment d' ∧ DecodeLayers pkt d = (d', true) ∧ drop = false ∧ m' = m) ∨
     ∃ dd src dst layer, inbound_view pkt pkt' dd src dst ∧ decoded dd !! 1%nat = Some layer ∧
       (drop = false ↔ passes e m dd src dst layer) ∧
       (forwarded m' ≠ forwarded m → may_forward e m dd src dst layer)).
Proof.
  intros Hl Hc Hr. destruct (run_calls_ok _ cs (create_ok c newOk lip Hl) Hc) as (m0 & E0 & Hm).
  rewrite Hr in E0. injection E0 as <-.
  destruct (filterInbound_view e m d pkt Hm) as [(d' & E & Hf)|[(d' & E & Hf & Hd)|(p' & d' & s & t & V & E)]].
  - rewrite E. do 4 eexists. split; [done|]. by left.
  - rewrite E. do 4 eexists. split; [done|]. right. by left.
  - destruct (decoded_layer d' (view_layers _ _ _ _ _ V)) as [l Hll].
    destruct (dispatchInbound_spec e m d' s t p' l Hm Hll) as (m' & d2 & drop & E2 & _ & H1 & H2).
    rewrite E, E2. do 4 eexists. split; [done|]. right. right. exists d', s, t, l. auto.
Qed.

(** a closed manager has trackers without maps: the next outbound UDP packet of a new
    flow panics. *)
Theorem closed_filter_panics e m t d d' pkt :
  m_udp m = Some t → DecodeLayers pkt d = (d', true) → decoded d' !! 1%nat = Some LayerTypeUDP →
  filterOutbound e (resetState m) d pkt = Panic.
Proof.
  intros Ht Hd Hl. assert (2 ≤ length (decoded d'))%nat as Hlen by (apply lookup_lt_Some in Hl; lia).
  unfold filterOutbound. rewrite Hd. cbn [negb]. rewrite bool_decide_false by lia.
  destruct (decode_view _ _ _ Hd Hlen) as [Hh ->]. cbn [obind].
  rewrite sub_addr_valid by lia. cbn [negb]. rewrite (go_index_ok _ _ _ Hl). cbn [obind].
  unfold udpHooksDrop. cbn [resetState udpHookOut HookMatches].
  unfold trackOutbound. rewrite (go_index_ok _ _ _ Hl). cbn [obind resetState m_udp]. rewrite Ht. reflexivity.
Qed.

(** with tracking disabled ([NB_DISABLE_CONNTRACK]) the trackers are nil, but
    outbound packets are tracked all the same: every outbound UDP packet that no
    hook takes panics the client. *)
Theorem conntrack_disabled_panics c newOk lip e d d' pkt :
  DecodeLayers pkt d = (d', true) → decoded d' !! 1%nat = Some LayerTypeUDP →
  filterOutbound e (create c true newOk lip) d pkt = Panic.
Proof.
  intros Hd Hl. assert (2 ≤ length (decoded d'))%nat as Hlen by (apply lookup_lt_Some in Hl; lia).
  unfold filterOutbound. rewrite Hd. cbn [negb]. rewrite bool_decide_false by lia.
  destruct (decode_view _ _ _ Hd Hlen) as [Hh ->]. cbn [obind].
  rewrite sub_addr_valid by lia. cbn [negb]. rewrite (go_index_ok _ _ _ Hl). cbn [obind].
  assert (∀ m, create c true newOk lip = m → udpHookOut m = None ∧ m_udp m = None) as Hc.
  { intros m <-. unfold create. destruct (_ && _); [|done]. unfold initForwarder. cbn [m_fwd].
    destruct (negb _); [done|]. by destruct (negb _). }
  destruct (Hc _ eq_refl) as [Hu Ht]. unfold udpHooksDrop. rewrite Hu. cbn [HookMatches].
  unfold trackOutbound. rewrite (go_index_ok _ _ _ Hl). cbn [obind]. by rewrite Ht.
Qed.
End Properties.

(** ** Concrete runs *)

Definition example_config : config :=
  mkConfig true false false false false true (clamp_value 1280) (Addr4 0x64400001) (mkPrefix (Addr4 0x64400000) 10) true.

Definition example_lip : localIPManager :=
  match UpdateLocalIPs (Some (Addr4 0x64400001)) None newLocalIPManager with Ok m => m | _ => newLocalIPManager end.

Definition fresh_decoder : decoder :=
  mkDecoder (mkIPv4 0 [] [] 0 false 0) ([], []) (mkTCP 0 0 false false false false false false [])
    (mkUDP 0 0) (mkICMPv4 0 0 0) [] 0.

Definition example_calls : list fw_call :=
  [CNat (OpAddPort (Addr4 0x64400001) ProtocolTCP 22 22022);
   CRule (RAddPeer (str "u1") (str "web") (be_bytes 4 0x64400003) ProtocolTCP None (Some (mkPort false [80])) ActionAccept);
   COutbound (mkEnv 0 1 40) fresh_decoder (example_packet 0x64400001 0x64400009 50000 443 2);
   CEnableRouting false true true].

Lemma empty_table_ok : table_ok (ipv4Bitmap newLocalIPManager).
Proof. split; [reflexivity|]. by apply Forall_replicate. Qed.

Lemma example_calls_wf : Forall call_wf example_calls.
Proof. repeat constructor; simpl; done. Qed.

Lemma filter_never_panics_witness :
  ∃ m, run_calls (create example_config false true newLocalIPManager) example_calls = Ok m.
Proof. apply filter_never_panics; [apply empty_table_ok|apply example_calls_wf]. Defined.

Definition example_manager : Manager :=
  match run_calls (create example_config false true newLocalIPManager) example_calls with
  | Ok m => m | _ => create example_config false true newLocalIPManager end.

Lemma example_manager_run :
  run_calls (create example_config false true newLocalIPManager) example_calls = Ok example_manager.
Proof. vm_compute. reflexivity. Qed.

Lemma filter_inbound_exact_witness :
  let pkt := example_packet 0x64400009 0x64400001 443 50000 18 in
  let e := mkEnv 5 2 40 in
  ∃ m' d' pkt' drop, filterInbound e example_manager fresh_decoder pkt = Ok (m', d', pkt', drop) ∧
    ((malformed fresh_decoder pkt ∧ drop = true ∧ m' = example_manager) ∨
     (is_fragment d' ∧ DecodeLayers pkt fresh_decoder = (d', true) ∧ drop = false ∧ m' = example_manager) ∨
     ∃ dd src dst layer, inbound_view pkt pkt' dd src dst ∧ decoded dd !! 1%nat = Some layer ∧
       (drop = false ↔ passes e example_manager dd src dst layer) ∧
       (forwarded m' ≠ forwarded example_manager → may_forward e example_manager dd src dst layer)).
Proof.
  apply (filter_inbound_exact example_config true newLocalIPManager example_calls example_manager);
    [apply empty_table_ok|apply example_calls_wf|apply example_manager_run].
Defined.

(** The answer to the SYN of [example_calls] passes, an unsolicited one does not. *)
Example example_inbound :
  (let! r := filterInbound (mkEnv 5 2 40) example_manager fresh_decoder
               (example_packet 0x64400009 0x64400001 443 50000 18) in Ok r.2) = Ok false ∧
  (let! r := filterInbound (mkEnv 5 2 40) example_manager fresh_decoder
               (example_packet 0x64400009 0x64400001 444 50000 18) in Ok r.2) = Ok true.
Proof. split; vm_compute; reflexivity. Qed.

(** After [EnableRouting] a packet to a routed network reaches the forwarder exactly when a
    route rule permits it. *)
Definition routed_packet (calls : list fw_call) : total nat :=
  let! m := run_calls example_manager calls in
  let! r := filterInbound (mkEnv 6 3 40) m fresh_decoder (example_packet 0x64400009 0x0a000005 40000 443 2) in
  Ok (length (forwarded r.1.1.1)).

Example example_routed :
  routed_packet [] = Ok 0%nat ∧
  routed_packet [CRule (RAddRoute [] (str "lan") [mkPrefix (Addr4 0x64400009) 32]
    (mkNetwork zero_set (mkPrefix (Addr4 0x0a000000) 8)) ProtocolTCP None (Some (mkPort false [443])) ActionAccept)] = Ok 1%nat.
Proof. split; vm_compute; reflexivity. Qed.

(** A UDP packet without payload. *)
Definition example_udp (src dst sport dport : Z) : bytes :=
  (Z_to_byte <$> [0x45; 0; 0; 28; 0; 1; 0; 0; 64; 17; 0; 0]) ++ be_bytes 4 src ++ be_bytes 4 dst ++
  be16 sport ++ be16 dport ++ be16 8 ++ be16 0.

Lemma conntrack_disabled_panics_witness :
  filterOutbound (mkEnv 0 1 28) (create example_config true true newLocalIPManager) fresh_decoder
    (example_udp 0x64400001 0x64400002 5353 53) = Panic.
Proof.
  apply (conntrack_disabled_panics example_config true newLocalIPManager (mkEnv 0 1 28) fresh_decoder
           (simple_decode (example_udp 0x64400001 0x64400002 5353 53) fresh_decoder).1); vm_compute; reflexivity.
Defined.

(** Peer ...2 sends a SYN to the redirected port 22, which no rule permits; then
    peer ...3, who may use port 80, connects there; the host answers.  [reuse]
    tells whether the second packet gets the decoder of the first from the pool.
    The result: the verdicts on the two SYNs and the source port of the answer. *)
Definition pooled_scenario (reuse : bool) : total (bool * bool * Z) :=
  let! m := run_calls (create example_config false true example_lip) (take 2 example_calls) in
  let! r := filterInbound (mkEnv 1 10 40) m fresh_decoder (example_packet 0x64400002 0x64400001 40000 22 2) in
  let '(m, d, _, drop1) := r in
  let! r := filterInbound (mkEnv 2 11 40) m (if reuse then d else fresh_decoder)
              (example_packet 0x64400003 0x64400001 40001 80 2) in
  let '(m, _, _, drop2) := r in
  let! r := filterOutbound (mkEnv 3 12 40) m fresh_decoder (example_packet 0x64400001 0x64400003 80 40001 18) in
  let '(_, _, pkt, _) := r in
  let! port := word_at pkt 20 in
  Ok (drop1, drop2, port).

(** the original port of a redirected packet is kept in the pooled decoder and
    reset only when the packet is tracked, so a redirected packet that the rules
    block leaves it behind: the next connection that is decoded with the same
    decoder takes it for its own, and the host's answers leave from port 22
    instead of port 80.  With a fresh decoder the answer keeps its port. *)
Theorem pooled_decoder_leaks_port :
  pooled_scenario true = Ok (true, false, 22) ∧ pooled_scenario false = Ok (true, false, 80).
Proof. split; vm_compute; reflexivity. Qed.

(** ** MSS clamping *)

Lemma upd_app_r l1 l2 i s :
  (i + length s ≤ length l2)%nat → upd (l1 ++ l2) (length l1 + i) s = l1 ++ upd l2 i s.
Proof.
  intros Hf. unfold upd. rewrite <-Nat.add_assoc, drop_app_add, take_app_add. by rewrite <-app_assoc.
Qed.

Section Clamp.
Context `{PacketParser}.

(** Recomputing the checksum changes its field only and makes it right. *)
Lemma recalculate_ok p d ihl :
  (20 ≤ ihl)%nat → (ihl + 20 ≤ length p)%nat → Z.of_nat (length p) ≤ 65535 → ip4_Protocol (d_ip4 d) = 6 →
  ip4_SrcIP (d_ip4 d) = sub p 12 4 → ip4_DstIP (d_ip4 d) = sub p 16 4 →
  ∃ c, recalculateTCPChecksum p d ihl = Ok (upd p (ihl + 16) (be16 c)) ∧
    transport_ok LayerTypeTCP ihl (upd p (ihl + 16) (be16 c)).
Proof.
  intros Hi Hlen Hmax Hproto Hsrc Hdst. unfold recalculateTCPChecksum, PutUint16.
  rewrite put_upd by (simpl; lia). cbn [obind]. change [Byte.x00; Byte.x00] with (be16 0). set (p2 := upd p (ihl + 16) (be16 0)).
  assert (length p2 = length p) as L2 by (unfold p2; rewrite length_upd; rewrite ?length_be16; lia).
  rewrite go_from_ok by lia. cbn [obind]. rewrite Hsrc, Hdst, Hproto.
  rewrite tcp_sum_rfc1071 by (try (apply length_sub); rewrite ?length_drop; lia). cbn [obind].
  set (ps := pseudo_header (sub p 12 4) (sub p 16 4) 6 (Z.of_nat (length (drop ihl p2)))).
  set (c := rfc1071 (ps ++ drop ihl p2)). exists c.
  rewrite put_upd by (rewrite length_be16; lia). unfold p2 at 1. rewrite upd_upd by (rewrite ?length_be16; lia || done).
  split; [done|]. set (p3 := upd p (ihl + 16) (be16 c)).
  assert (length p3 = length p) as L3 by (unfold p3; rewrite length_upd; rewrite ?length_be16; lia).
  split; [lia|]. unfold packet_pseudo. rewrite L3.
  assert (∀ j, (j + 4 ≤ 20)%nat → sub p3 j 4 = sub p j 4) as Hsub
    by (intros j Hj; unfold p3; apply sub_upd_other; rewrite length_be16; lia). rewrite !Hsub by lia.
  assert (drop ihl p3 = upd (drop ihl p2) 16 (be16 c)) as ->.
  { replace p3 with (upd p2 (ihl + 16) (be16 c)) by (unfold p2; by rewrite upd_upd by (rewrite ?length_be16; lia || done)).
    rewrite drop_upd_before by (rewrite ?length_be16; lia). f_equal. lia. }
  replace (length p - ihl)%nat with (length (drop ihl p2)) by (rewrite length_drop; lia). fold ps.
  assert (length ps = 12%nat) as Lps by (apply length_pseudo; apply length_sub; lia).
  rewrite <-(upd_app_r ps) by (rewrite length_be16, length_drop; lia). rewrite Lps. apply checksum_ok_fill.
  - done.
  - rewrite length_app, length_drop. lia.
  - unfold sub. rewrite drop_app_ge by lia. rewrite Lps. replace (12 + 16 - 12)%nat with 16%nat by lia. rewrite drop_drop.
    fold (sub p2 (ihl + 16) 2). unfold p2. rewrite sub_upd_block by (rewrite ?length_be16; lia || done). done.
Qed.

(** a TCP SYN whose MSS option exceeds the clamp value leaves with exactly
    the clamp value in that option, wherever it stands among the options, with a
    correct TCP checksum, and unchanged elsewhere. *)
Theorem mss_clamp_correct m pkt d0 d i :
  DecodeLayers pkt d0 = (d, true) → decoded d !! 1%nat = Some LayerTypeTCP → packet_geom (ipHeaderLen_of d) pkt →
  ip4_Protocol (d_ip4 d) = 6 → tcp_SYN (d_tcp d) = true → 0 ≤ mssClampValue (m_cfg m) ≤ 65535 →
  find_mss (mssClampValue (m_cfg m)) 0 (tcp_Options (d_tcp d)) = Some i →
  let off := (ipHeaderLen_of d + 20 + options_size (take i (tcp_Options (d_tcp d))) + 2)%nat in
  ∃ pkt', clampTCPMSS m pkt d = Ok (pkt', true) ∧ word_at pkt' off = Ok (mssClampValue (m_cfg m)) ∧
    frame [(off, 2%nat); ((ipHeaderLen_of d + 16)%nat, 2%nat)] pkt pkt' ∧ transport_ok LayerTypeTCP (ipHeaderLen_of d) pkt'.
Proof.
  intros Hd Hl Hg Hproto Hsyn Hc Hi off. set (ihl := ipHeaderLen_of d) in *.
  destruct (decoded d) as [|l [|l' rest]] eqn:El; try done. injection Hl as ->.
  pose proof (decode_first _ _ _ _ _ Hd El) as ->.
  pose proof (decode_tcp _ _ _ _ _ Hd El) as Ht. destruct (decode_ipv4 _ _ _ _ Hd El) as (H1 & H2 & H3 & H4). fold ihl in Ht, H1, H2.
  pose proof (find_mss_spec _ _ _ _ Hi) as (o & Ho & _ & Hk & Hlen & _). rewrite Nat.sub_0_r in Ho.
  pose proof (options_size_take _ _ _ Ho) as Hsz.
  assert (option_size o = 4%nat) as H4o by (unfold option_size; by rewrite Hk, Hlen). rewrite H4o in Hsz.
  unfold clampTCPMSS. rewrite Hsyn, Hi. cbn [negb]. fold ihl. rewrite bool_decide_false by lia.
  unfold updateMSSOption, PutUint16. fold off. pose proof (geom_max _ _ Hg) as Hmax.
  set (v := be16 (mssClampValue (m_cfg m))). assert (length v = 2%nat) as Lv by done.
  assert (off + 2 ≤ length pkt ∧ ihl + 20 ≤ off)%nat as [Hoff Ho20] by (unfold off; lia).
  rewrite put_upd by lia. cbn [obind]. set (p1 := upd pkt off v).
  assert (length p1 = length pkt) as L1 by (apply length_upd; lia).
  destruct (recalculate_ok p1 d ihl) as (c & E & Hok); [lia|lia|lia|done|..].
  1-2: unfold p1; rewrite sub_upd_other by lia; congruence.
  rewrite E. cbn [obind]. eexists. split; [done|]. split; [|split; [|done]].
  - rewrite word_at_sub by (rewrite length_upd; rewrite ?length_be16; lia).
    rewrite sub_upd_other by (rewrite length_be16; lia). unfold p1. rewrite sub_upd_block by lia.
    f_equal. apply wsum_be16. lia.
  - apply (frame_trans [(off, 2%nat)] _ _ p1); [rewrite <-Lv; apply frame_upd; lia|].
    apply (frame_upd (ihl + 16) (be16 c)). rewrite length_be16. lia.
Qed.
End Clamp.

(** A SYN with the options NOP, MSS 1460 and end of list, for a clamp of 1240. *)
Definition example_syn : bytes :=
  let h := Z_to_byte <$> [0x45; 0; 0; 48; 0; 1; 0x40; 0; 64; 6; 0; 0; 10; 0; 0; 1; 10; 0; 0; 2] in
  h ++ (Z_to_byte <$> [0x9c; 0x40; 1; 0xbb; 0; 0; 0; 1; 0; 0; 0; 0; 0x70; 2; 0xff; 0xff; 0; 0; 0; 0;
                       1; 2; 4; 5; 0xb4; 1; 1; 0]).

Lemma mss_clamp_correct_witness :
  let d := (simple_decode example_syn fresh_decoder).1 in
  let m := create example_config false true newLocalIPManager in
  ∃ pkt', clampTCPMSS m example_syn d = Ok (pkt', true) ∧ word_at pkt' 43 = Ok 1240 ∧
    frame [(43%nat, 2%nat); (36%nat, 2%nat)] example_syn pkt' ∧ transport_ok LayerTypeTCP 20 pkt'.
Proof.
  intros d m. refine (mss_clamp_correct m example_syn fresh_decoder d 1 _ _ _ _ _ _ _).
  - vm_compute. reflexivity.
  - vm_compute. reflexivity.
  - split; [reflexivity|vm_compute; lia|vm_compute; lia|vm_compute; discriminate].
  - vm_compute. reflexivity.
  - vm_compute. reflexivity.
  - vm_compute. split; discriminate.
  - vm_compute. reflexivity.
Defined.
