(* ===== verification/DNSLabel.v ===== *)
(** * DNS labels of machine peers

    [management/internals/shared/mtls/dnslabel.go]: the label a machine peer
    gets from its host name and domain, and the label check.  The label is the
    sanitized host name, a hyphen and sixteen hex digits of an HMAC of the
    FQDN.  The theorems: the sanitizing loop terminates, every generated label
    passes the RFC 1123 check and ends in the fingerprint. *)

From stdpp Require Import base list strings.
From S2P Require Import Prelude GoStd GoStrings.

Definition MaxDNSLabelLength : nat := 63.

Definition HashSuffixLength : nat := 16.

Definition dnsLabelHMACKey : bytes := str "netbird-machine-tunnel-dns-label-v1".

Definition hashSuffixBytes : nat := HashSuffixLength / 2.

Definition fqdnFingerprint (hostname domain : bytes) : bytes :=
  hex_encode (take hashSuffixBytes (hmac_sha256 dnsLabelHMACKey (hostname ++ [dot] ++ domain))).

(** The rune map of [sanitizeForDNS]: [None] drops the rune.  Runes outside
    ASCII, and bytes that are no valid encoding, are dropped, so mapping byte
    by byte gives the same string. *)
Definition sanitize_rune (b : byte) : option byte :=
  if is_lower b then Some b
  else if is_digit b then Some b
  else if bool_decide (b = hyphen) then Some b
  else if is_upper b then Some (Z_to_byte (byte_to_Z b + 32))
  else if bool_decide (b = Byte.x5f) || bool_decide (b = dot) || bool_decide (b = Byte.x20) then Some hyphen
  else None.

(** [for strings.Contains(result, "--") { result = ReplaceAll(...) }] *)
Fixpoint collapse_hyphens (fuel : nat) (s : bytes) : bytes :=
  match fuel with
  | O => s
  | S fuel => if ContainsPair hyphen s then collapse_hyphens fuel (ReplacePairs hyphen s) else s
  end.

Definition sanitizeForDNS (hostname : bytes) : bytes :=
  let result := omap sanitize_rune hostname in
  let result := TrimByte hyphen result in
  let result := collapse_hyphens (length result) result in
  if bool_decide (result = []) then str "peer" else result.

Definition GenerateUniqueDNSLabel (unicode_lower : bytes → bytes) (hostname domain : bytes) : bytes :=
  let hostname := ToLower unicode_lower hostname in
  let domain := ToLower unicode_lower domain in
  let fqdnHash := fqdnFingerprint hostname domain in
  let sanitizedHostname := sanitizeForDNS hostname in
  let label := sanitizedHostname ++ [hyphen] ++ fqdnHash in
  if bool_decide (MaxDNSLabelLength < length label)%nat then
    let maxHostLen := Nat.max 1 (MaxDNSLabelLength - HashSuffixLength - 1) in
    let truncatedHostname :=
      if bool_decide (maxHostLen < length sanitizedHostname)%nat
      then take maxHostLen sanitizedHostname else sanitizedHostname in
    let truncatedHostname := TrimRightByte hyphen truncatedHostname in
    truncatedHostname ++ [hyphen] ++ fqdnHash
  else label.

(** [[a-z0-9]] and [[-a-z0-9]] of [dnsLabelRegex]. *)
Definition label_alnum (b : byte) : bool := is_lower b || is_digit b.

Definition label_char (b : byte) : bool := label_alnum b || bool_decide (b = hyphen).

(** [^[a-z0-9]([-a-z0-9]*[a-z0-9])?$] *)
Definition dnsLabelRegex_match (s : bytes) : bool :=
  match s with
  | [] => false
  | b :: _ => label_alnum b && forallb label_char s && from_option label_alnum false (last s)
  end.

Inductive label_error := LabelEmpty | LabelTooLong | LabelInvalid.

Definition ValidateDNSLabel (label : bytes) : outcome label_error unit :=
  if bool_decide (length label = 0%nat) then Err LabelEmpty
  else if bool_decide (MaxDNSLabelLength < length label)%nat then Err LabelTooLong
  else if negb (dnsLabelRegex_match label) then Err LabelInvalid
  else Ok tt.

Definition CheckDNSLabelCollision (existingPeerID : bytes) : bool := bool_decide (existingPeerID ≠ []).

(** ** Lemmas *)

(** Host names that make good labels. *)
Definition label_like (s : bytes) : Prop :=
  Forall (λ b, label_char b = true) s ∧ (∃ x, head s = Some x ∧ x ≠ hyphen).

Lemma label_like_head s x : label_like s → head s = Some x → label_alnum x = true.
Proof.
  intros [Hs (y & Hy & Hne)] Hx. simplify_eq. destruct s as [|z s]; simplify_eq/=.
  apply Forall_inv in Hs. unfold label_char in Hs. apply orb_true_iff in Hs as [Hs|Hs]; [done|].
  by apply bool_decide_eq_true in Hs.
Qed.

Lemma sanitize_rune_class b c : sanitize_rune b = Some c → label_char c = true.
Proof.
  unfold sanitize_rune, label_char, label_alnum. intros H.
  destruct (is_lower b) eqn:E1; [injection H as <-; by rewrite E1|].
  destruct (is_digit b) eqn:E2; [injection H as <-; by rewrite E2, orb_true_r|].
  destruct (bool_decide (b = hyphen)) eqn:E3; [injection H as <-; by rewrite E3, !orb_true_r|].
  destruct (is_upper b) eqn:E4.
  { injection H as <-. unfold is_upper, is_lower, in_range in *.
    rewrite byte_to_Z_to_byte, Z.mod_small by lia. replace (97 <=? _) with true by lia.
    replace (_ <=? 122) with true by lia. done. }
  destruct (_ || _ || _); [|done]. by injection H as <-.
Qed.

Lemma collapse_Forall (P : byte → Prop) fuel s :
  P hyphen → Forall P s → Forall P (collapse_hyphens fuel s).
Proof.
  intros Hc. revert s. induction fuel as [|f IH]; intros s Hs; simpl; [done|].
  destruct (ContainsPair hyphen s); [|done]. by apply IH, ReplacePairs_Forall.
Qed.

Lemma collapse_head fuel s : head (collapse_hyphens fuel s) = head s.
Proof.
  revert s. induction fuel as [|f IH]; intros s; simpl; [done|].
  destruct (ContainsPair hyphen s); [|done]. by rewrite IH, ReplacePairs_head.
Qed.

Lemma collapse_length fuel s : (length (collapse_hyphens fuel s) ≤ length s)%nat.
Proof.
  revert s. induction fuel as [|f IH]; intros s; simpl; [done|].
  destruct (ContainsPair hyphen s); [|done].
  pose proof (IH (ReplacePairs hyphen s)). pose proof (proj1 (ReplacePairs_length hyphen s)). lia.
Qed.

(** The loop ends within [length s] rounds: the fuel is enough. *)
Lemma collapse_done fuel s : (length s ≤ fuel)%nat → ContainsPair hyphen (collapse_hyphens fuel s) = false.
Proof.
  revert s. induction fuel as [|f IH]; intros s Hf; simpl.
  { by destruct s; simpl in *; [|lia]. }
  destruct (ContainsPair hyphen s) eqn:E; [|done].
  apply IH. pose proof (proj2 (ReplacePairs_length hyphen s) E). lia.
Qed.

Lemma sanitize_like hostname : label_like (sanitizeForDNS hostname).
Proof.
  unfold sanitizeForDNS. set (r0 := omap sanitize_rune hostname).
  assert (Forall (λ b, label_char b = true) r0) as H0.
  { apply Forall_forall. intros c Hc. apply list_elem_of_omap in Hc as (b & _ & Hb).
    by eapply sanitize_rune_class. }
  set (r1 := TrimByte hyphen r0).
  assert (Forall (λ b, label_char b = true) r1) as H1.
  { subst r1. unfold TrimByte. destruct (TrimLeft_suffix hyphen r0) as [p Hp].
    destruct (TrimRight_prefix hyphen (TrimLeftByte hyphen r0)) as [q Hq].
    rewrite Hp, Hq in H0. by apply Forall_app in H0 as [_ [H0 _]%Forall_app]. }
  set (r2 := collapse_hyphens (length r1) r1).
  destruct (bool_decide (r2 = [])) eqn:E.
  { split; [|exists Byte.x70; split; [done|by compute]]. by repeat constructor. }
  apply bool_decide_eq_false in E. split; [by apply collapse_Forall|].
  assert (head r2 = head r1) as Hh by apply collapse_head.
  destruct r2 as [|x r2']; [done|]. exists x. split; [done|]. simpl in Hh. symmetry in Hh.
  subst r1. unfold TrimByte in Hh. destruct (TrimLeftByte hyphen r0) as [|y t] eqn:Et.
  { done. }
  pose proof (TrimLeft_head hyphen r0) as Hy. rewrite Et in Hy. simpl in Hy.
  destruct (TrimRight_prefix hyphen (y :: t)) as [q Hq].
  destruct (TrimRightByte hyphen (y :: t)); simplify_eq/=. congruence.
Qed.

Lemma length_fqdnFingerprint h d : length (fqdnFingerprint h d) = 16%nat.
Proof.
  unfold fqdnFingerprint. rewrite length_hex_encode, length_take, length_hmac_sha256. done.
Qed.

Lemma label_like_label p h d :
  label_like p → dnsLabelRegex_match (p ++ [hyphen] ++ fqdnFingerprint h d) = true.
Proof.
  intros Hp. pose proof (length_fqdnFingerprint h d) as Hl.
  assert (Forall (λ b, label_alnum b = true) (fqdnFingerprint h d)) as Hf by apply hex_encode_class.
  pose proof (label_like_head p) as Ha. pose proof Hp as [Hc (x & Hx & Hne)].
  specialize (Ha x Hp Hx). clear Hp. rename Hc into Hp.
  destruct p as [|x' p]; [done|]. injection Hx as ->. unfold dnsLabelRegex_match. cbn [app].
  rewrite Ha. apply andb_true_iff. split.
  - apply Is_true_true, forallb_True. rewrite app_comm_cons.
    apply Forall_app. split; [|constructor; [done|]].
    + eapply Forall_impl; [exact Hp|]. intros b ->. done.
    + eapply Forall_impl; [exact Hf|]. intros b Hb. unfold label_char. by rewrite Hb.
  - destruct (fqdnFingerprint h d) as [|y f _] using rev_ind; [done|].
    replace (x :: p ++ hyphen :: f ++ [y]) with ((x :: p ++ hyphen :: f) ++ [y])
      by (simpl; by rewrite <-app_assoc).
    rewrite last_snoc. apply Forall_app in Hf as [_ Hf]. by apply Forall_inv in Hf.
Qed.

Lemma generated_label_shape ul hostname domain :
  ValidateDNSLabel (GenerateUniqueDNSLabel ul hostname domain) = Ok tt ∧
  ∃ prefix, GenerateUniqueDNSLabel ul hostname domain =
    prefix ++ [hyphen] ++ fqdnFingerprint (ToLower ul hostname) (ToLower ul domain).
Proof.
  unfold GenerateUniqueDNSLabel. cbv zeta.
  set (h := ToLower ul hostname). set (d := ToLower ul domain).
  pose proof (sanitize_like h) as Hs. pose proof (length_fqdnFingerprint h d) as Hl.
  set (s := sanitizeForDNS h) in *.
  assert (∃ p, label_like p ∧ (length p ≤ 46)%nat ∧
    (if bool_decide (MaxDNSLabelLength < length (s ++ [hyphen] ++ fqdnFingerprint h d))%nat then
       TrimRightByte hyphen (if bool_decide (Nat.max 1 (MaxDNSLabelLength - HashSuffixLength - 1) < length s)%nat
         then take (Nat.max 1 (MaxDNSLabelLength - HashSuffixLength - 1)) s else s)
         ++ [hyphen] ++ fqdnFingerprint h d
     else s ++ [hyphen] ++ fqdnFingerprint h d) = p ++ [hyphen] ++ fqdnFingerprint h d)
    as (p & Hp & Hlen & ->).
  { autorewrite with len. rewrite Hl. cbn [length]. unfold MaxDNSLabelLength, HashSuffixLength.
    replace (Nat.max 1 (63 - 16 - 1)) with 46%nat by done.
    case_bool_decide as E1; [|exists s; split_and!; [done|lia|done]].
    rewrite bool_decide_true by lia. destruct Hs as [Hc (x & Hx & Hne)].
    destruct (TrimRight_prefix hyphen (take 46 s)) as [q Hq].
    eexists. split_and!; [|  |reflexivity].
    - split.
      + apply (Forall_take _ 46%nat) in Hc. rewrite Hq in Hc. by apply Forall_app in Hc as [Hc _].
      + exists x. split; [|done]. apply TrimRight_head; [|done]. by destruct s.
    - apply (f_equal length) in Hq. autorewrite with len in Hq. lia. }
  split; [|by exists p]. unfold ValidateDNSLabel, MaxDNSLabelLength.
  rewrite bool_decide_false by (autorewrite with len; rewrite Hl; simpl; lia).
  rewrite bool_decide_false by (autorewrite with len; rewrite Hl; simpl; lia).
  by rewrite label_like_label.
Qed.

Lemma generated_label_valid ul hostname domain :
  ValidateDNSLabel (GenerateUniqueDNSLabel ul hostname domain) = Ok tt.
Proof. apply generated_label_shape. Qed.

(** every generated label is a valid DNS label (1 to 63 characters,
    lower-case alphanumeric at both ends, hyphens inside) whatever the host
    name and domain are, and it ends in a hyphen and the fingerprint of the
    lower-cased FQDN. *)
Theorem dns_label_valid ul hostname domain :
  ValidateDNSLabel (GenerateUniqueDNSLabel ul hostname domain) = Ok tt ∧
  ∃ prefix, GenerateUniqueDNSLabel ul hostname domain =
    prefix ++ [hyphen] ++ fqdnFingerprint (ToLower ul hostname) (ToLower ul domain).
Proof. apply generated_label_shape. Qed.
