(* ===== verification/MachineAuth.v ===== *)
(** * Machine authentication by client certificate

    The management server's gRPC interceptors
    ([management/internals/server/mtls_auth.go]), the issuer check
    ([management/internals/shared/mtls/identity.go]) and its initialisation
    ([mtls_server.go], [server.go]).  The two package-level configurations are
    a record passed to the functions that read them.  A verified chain is the
    list of certificates [crypto/tls] hands to gRPC; [ToASCII] stands for
    [idna.Lookup.ToASCII], a library outside the repository. *)

From stdpp Require Import base list gmap strings.
From S2P Require Import Prelude GoStd GoStrings.

#[local] Open Scope go_scope.

(** ** Data *)

(** The fields of [x509.Certificate] the code reads. *)
Record Certificate := mkCert {
  DNSNames : list bytes;
  EmailAddresses : list bytes;
  ExtKeyUsage : list Z;
  UnknownExtKeyUsage : list (list Z);
  Extensions : list (list Z * bytes);
  cert_Serial : Z;
  cert_Raw : bytes;
}.

Record Identity := mkIdentity {
  id_DNSName : bytes;
  id_Hostname : bytes;
  id_Domain : bytes;
  id_MatchedDomain : bytes;
  id_AccountID : bytes;
  id_IssuerFingerprint : bytes;
  id_SerialNumber : bytes;
  id_TemplateOID : bytes;
  id_TemplateName : bytes;
  id_PeerType : bytes;
}.

Record MTLSConfig := mkMTLSConfig {
  DomainAccountMapping : gmap bytes bytes;
  AccountAllowedDomains : gmap bytes (list bytes);
  AccountAllowedIssuers : gmap bytes (list bytes);
}.

(** [ValidatorConfig] of package mtls. *)
Record ValidatorConfig := mkValidatorConfig { vc_AccountAllowedIssuers : gmap bytes (list bytes) }.

(** The package-level variables [globalMTLSConfig] and
    [globalValidatorConfig]; [None] is the nil pointer. *)
Record Globals := mkGlobals {
  globalMTLSConfig : option MTLSConfig;
  globalValidatorConfig : option ValidatorConfig;
}.

(** What [peer.FromContext] and the TLS state give. *)
Inductive PeerInfo :=
| NoPeer
| NoTLSInfo
| TLSState (VerifiedChains : list (list Certificate)).

Inductive auth_error :=
| ENotInitialized
| EDomainNotMapped (domain : bytes)
| ENoAllowedDomains (account : bytes)
| EDomainNotAllowed (domain account : bytes)
| ENoAllowedIssuers (account : bytes)
| EIssuerNotAllowed (account : bytes)
| EMultiAccount
| ENoPeer
| ENoTLS
| ENoChains
| EEmptyChain
| ENoSAN
| ENotFQDN
| ENoMatchingSAN
| ENoValidSAN (e : auth_error)
| EInvalidSANFormat (e : auth_error)
| EEmptySAN
| EWildcard
| EIDNA
| ELabelLength
| ELabelStart
| ELabelEnd
| ELabelChar.

(** ** Object identifiers and ASN.1 *)

(** [asn1.ObjectIdentifier.String] *)
Definition oid_String (oid : list Z) : bytes := Join [dot] (FormatInt <$> oid).

Definition decodeOID_first (first : Z) : list Z :=
  if first <? 40 then [0; first] else if first <? 80 then [1; first - 40] else [2; first - 80].

(** The loop of [decodeOID] over the bytes after the first; [int] has 64 bits. *)
Fixpoint decodeOID_rest (data : bytes) (val : Z) (components : list Z) : list Z :=
  match data with
  | [] => components
  | b :: data =>
      let val := i64 (Z.lor (i64 (Z.shiftl val 7)) (Z.land (byte_to_Z b) 0x7f)) in
      if Z.land (byte_to_Z b) 0x80 =? 0 then decodeOID_rest data 0 (components ++ [val])
      else decodeOID_rest data val components
  end.

Definition decodeOID (data : bytes) : bytes :=
  match data with
  | [] => []
  | b :: rest => Join [dot] (FormatInt <$> decodeOID_rest rest 0 (decodeOID_first (byte_to_Z b)))
  end.

Definition parseTemplateExtension {E} (data : bytes) : outcome E bytes :=
  if bool_decide (length data < 4)%nat then Ok []
  else
    let! d0 := go_index data 0 in
    if negb (byte_to_Z d0 =? 0x30) then Ok []
    else
      let! d1 := go_index data 1 in
      let seqLen := byte_to_Z d1 in
      if Z.of_nat (length data) - 2 <? seqLen then Ok []
      else
        let pos := 2%nat in
        if bool_decide (length data ≤ pos)%nat then Ok []
        else
          let! d2 := go_index data pos in
          if negb (byte_to_Z d2 =? 0x06) then Ok []
          else
            let pos := 3%nat in
            if bool_decide (length data ≤ pos)%nat then Ok []
            else
              let! d3 := go_index data pos in
              let oidLen := Z.to_nat (byte_to_Z d3) in
              let pos := 4%nat in
              if bool_decide (length data < pos + oidLen)%nat then Ok []
              else
                let! oidBytes := go_slice data pos (pos + oidLen) in
                Ok (decodeOID oidBytes).

Definition templateExtOID : bytes := str "1.3.6.1.4.1.311.21.7".

Definition templateNameExtOID : bytes := str "1.3.6.1.4.1.311.20.2".

Definition find_extension (oid : bytes) (cert : Certificate) : option bytes :=
  match list_find (λ ext, oid_String ext.1 = oid) (Extensions cert) with
  | Some (_, ext) => Some ext.2
  | None => None
  end.

Definition extractTemplateOID {E} (cert : Certificate) : outcome E bytes :=
  match find_extension templateExtOID cert with
  | Some value => parseTemplateExtension value
  | None => Ok []
  end.

(** UTF-8 encoding of a rune below 0x10000; a surrogate becomes U+FFFD. *)
Definition utf8_rune (r : Z) : bytes :=
  let r := if (0xd800 <=? r) && (r <=? 0xdfff) then 0xfffd else r in
  if r <? 0x80 then [Z_to_byte r]
  else if r <? 0x800 then [Z_to_byte (0xc0 + r / 64); Z_to_byte (0x80 + r mod 64)]
  else [Z_to_byte (0xe0 + r / 4096); Z_to_byte (0x80 + r / 64 mod 64); Z_to_byte (0x80 + r mod 64)].

(** The loop of [decodeBMPString]: pairs of bytes, an odd one is ignored. *)
Fixpoint bmp_runes (data : bytes) : list Z :=
  match data with
  | hi :: lo :: rest =>
      let r := Z.lor (Z.shiftl (byte_to_Z hi) 8) (byte_to_Z lo) in
      if r =? 0 then bmp_runes rest else r :: bmp_runes rest
  | _ => []
  end.

Definition decodeBMPString (data : bytes) : bytes :=
  if bool_decide (length data < 2)%nat then [] else flat_map utf8_rune (bmp_runes data).

Definition tagUTF8String : Z := 12.

Definition tagPrintableString : Z := 19.

Definition tagIA5String : Z := 22.

Definition tagBMPString : Z := 30.

Definition decodeASN1String {E} (data : bytes) : outcome E bytes :=
  if bool_decide (length data < 2)%nat then Ok []
  else
    let! d0 := go_index data 0 in
    let! d1 := go_index data 1 in
    let tag := byte_to_Z d0 in
    let length0 := byte_to_Z d1 in
    let! (len, valueStart) :=
      (if (length0 =? 0x81) && bool_decide (2 < length data)%nat then
         let! d2 := go_index data 2 in Ok (byte_to_Z d2, 3%nat)
       else if (length0 =? 0x82) && bool_decide (3 < length data)%nat then
         let! d2 := go_index data 2 in
         let! d3 := go_index data 3 in
         Ok (Z.lor (Z.shiftl (byte_to_Z d2) 8) (byte_to_Z d3), 4%nat)
       else Ok (length0, 2%nat)) in
    if bool_decide (length data < valueStart + Z.to_nat len)%nat then Ok data
    else
      let! value := go_slice data valueStart (valueStart + Z.to_nat len) in
      if tag =? tagBMPString then Ok (decodeBMPString value) else Ok value.

Definition extractTemplateNameV1 {E} (cert : Certificate) : outcome E bytes :=
  match find_extension templateNameExtOID cert with
  | Some value => decodeASN1String value
  | None => Ok []
  end.

Definition DefaultMachineTemplateNames : list bytes :=
  str <$> ["Machine"; "Computer"; "Workstation"; "NetBirdMachine"; "DomainController"; "WebServer";
           "IPSecIntermediateOffline"].

(** [x509.ExtKeyUsageClientAuth] *)
Definition ExtKeyUsageClientAuth : Z := 2.

(** [SerialNumber.String] of a [big.Int]. *)
Definition big_String (n : Z) : bytes :=
  if n <? 0 then Byte.x2d :: dec_digits (S (Z.to_nat (Z.log2 (- n)))) (- n)
  else dec_digits (S (Z.to_nat (Z.log2 n))) n.

Section MachineAuth.
Context (unicode_lower : bytes → bytes) (ToASCII : bytes → option bytes).

Abbreviation lower := (ToLower unicode_lower).

Definition determinePeerType (templateOID templateName : bytes) (cert : Certificate) : bytes :=
  let nameLower := lower templateName in
  if bool_decide (templateName ≠ []) && existsb (λ mt, bool_decide (nameLower = lower mt)) DefaultMachineTemplateNames
  then str "machine"
  else if bool_decide (templateName ≠ []) &&
    (bool_decide (nameLower = str "user") || bool_decide (nameLower = str "smartcardlogon") ||
     bool_decide (nameLower = str "smartcarduser"))
  then str "user"
  else
    let hasClientAuth := existsb (λ eku, eku =? ExtKeyUsageClientAuth) (ExtKeyUsage cert) in
    let hasSmartCardLogon :=
      existsb (λ oid, bool_decide (oid_String oid = str "1.3.6.1.4.1.311.20.2.2")) (UnknownExtKeyUsage cert) in
    if hasClientAuth && negb hasSmartCardLogon then
      if bool_decide (EmailAddresses cert ≠ []) then str "user" else str "machine"
    else if hasSmartCardLogon then str "user"
    else if bool_decide (EmailAddresses cert ≠ []) then str "user"
    else if bool_decide (DNSNames cert ≠ []) then str "machine"
    else str "unknown".

(** ** Names *)

Definition isAlphanumeric (b : byte) : bool := is_lower b || is_upper b || is_digit b.

(** The checks of [canonicalizeSAN] on one label. *)
Definition check_label (label : bytes) : outcome auth_error unit :=
  if bool_decide (length label = 0%nat) || bool_decide (63 < length label)%nat then Err ELabelLength
  else
    let! first := go_index label 0 in
    if negb (isAlphanumeric first) then Err ELabelStart
    else
      let! lastb := go_index label (length label - 1) in
      if negb (isAlphanumeric lastb) then Err ELabelEnd
      else if forallb (λ b, isAlphanumeric b || bool_decide (b = hyphen)) (take (length label - 2) (drop 1 label))
      then Ok tt else Err ELabelChar.

Fixpoint check_labels (labels : list bytes) : outcome auth_error unit :=
  match labels with
  | [] => Ok tt
  | l :: ls => let! _ := check_label l in check_labels ls
  end.

Definition canonicalizeSAN (dnsName : bytes) : outcome auth_error bytes :=
  if bool_decide (dnsName = []) then Err EEmptySAN
  else if ContainsByte Byte.x2a dnsName then Err EWildcard
  else
    let name := lower dnsName in
    let name := TrimSuffixByte dot name in
    match ToASCII name with
    | None => Err EIDNA
    | Some name =>
        let labels := SplitByte dot name in
        if bool_decide (length labels < 2)%nat then Err ENotFQDN
        else let! _ := check_labels labels in Ok name
    end.

Definition splitDNSName (dnsName : bytes) : outcome auth_error (bytes * bytes) :=
  match CutByte dot dnsName with
  | Some parts => Ok parts
  | None => Err ENotFQDN
  end.

(** ** Domains and accounts *)

Definition getAccountIDFromDomain (g : Globals) (domain : bytes) : outcome auth_error bytes :=
  match globalMTLSConfig g with
  | None => Err ENotInitialized
  | Some cfg =>
      match DomainAccountMapping cfg !! lower domain with
      | Some accountID => Ok accountID
      | None => Err (EDomainNotMapped domain)
      end
  end.

(** The fallback iterates the map in Go's unspecified order, here that of
    [map_to_list]. *)
Definition getAllowedDomainsForAccount (g : Globals) (accountID : bytes) : list bytes :=
  match globalMTLSConfig g with
  | None => []
  | Some cfg =>
      match AccountAllowedDomains cfg !! accountID with
      | Some domains => domains
      | None => (filter (λ da, da.2 = accountID) (map_to_list (DomainAccountMapping cfg))).*1
      end
  end.

Definition validateDomainForAccount (g : Globals) (domain accountID : bytes) : outcome auth_error bytes :=
  let allowedDomains := getAllowedDomainsForAccount g accountID in
  if bool_decide (allowedDomains = []) then Err (ENoAllowedDomains accountID)
  else
    match list_find (λ allowed, lower allowed = lower domain) allowedDomains with
    | Some (_, allowed) => Ok allowed
    | None => Err (EDomainNotAllowed domain accountID)
    end.

(** The loop of [checkMultiAccountSpan]. *)
Fixpoint seenAccounts (g : Globals) (dnsNames : list bytes) (seen : gset bytes)
    : outcome auth_error (gset bytes) :=
  match dnsNames with
  | [] => Ok seen
  | dnsName :: rest =>
      otry (canonicalizeSAN dnsName) (λ _, seenAccounts g rest seen) (λ canonicalName,
      otry (splitDNSName canonicalName) (λ _, seenAccounts g rest seen) (λ '(_, domain),
      otry (getAccountIDFromDomain g domain) (λ _, seenAccounts g rest seen) (λ accountID,
      seenAccounts g rest ({[accountID]} ∪ seen))))
  end.

Definition checkMultiAccountSpan (g : Globals) (dnsNames : list bytes) : outcome auth_error unit :=
  let! seen := seenAccounts g dnsNames ∅ in
  if bool_decide (1 < size seen)%nat then Err EMultiAccount else Ok tt.

(** ** Issuers *)

(** [mtls.ValidateIssuerCA] *)
Definition ValidateIssuerCA (g : Globals) (accountID issuerFingerprint : bytes) : outcome auth_error unit :=
  match globalValidatorConfig g with
  | None => Ok tt
  | Some cfg =>
      let allowedIssuers := default [] (vc_AccountAllowedIssuers cfg !! accountID) in
      if bool_decide (allowedIssuers = []) then Err (ENoAllowedIssuers accountID)
      else if existsb (λ allowed, bool_decide (lower allowed = lower issuerFingerprint)) allowedIssuers
      then Ok tt
      else Err (EIssuerNotAllowed accountID)
  end.

(** [ValidateIssuerCA] of package server, with the slice of its debug line. *)
Definition server_ValidateIssuerCA (g : Globals) (accountID issuerFingerprint : bytes)
    : outcome auth_error unit :=
  match globalMTLSConfig g with
  | None => Err ENotInitialized
  | Some cfg =>
      let allowedIssuers := default [] (AccountAllowedIssuers cfg !! accountID) in
      if bool_decide (allowedIssuers = []) then Err (ENoAllowedIssuers accountID)
      else if existsb (λ allowed, bool_decide (lower allowed = lower issuerFingerprint)) allowedIssuers
      then let! _ := go_slice (lower issuerFingerprint) 0 16 in Ok tt
      else Err (EIssuerNotAllowed accountID)
  end.

Definition SetMTLSConfig (g : Globals) (cfg : MTLSConfig) : Globals :=
  mkGlobals (Some cfg) (globalValidatorConfig g).

Definition SetValidatorConfig (g : Globals) (cfg : option ValidatorConfig) : Globals :=
  mkGlobals (globalMTLSConfig g) cfg.

Definition InitMTLSValidatorConfig (g : Globals) (accountAllowedIssuers : gmap bytes (list bytes)) : Globals :=
  if bool_decide (size accountAllowedIssuers = 0%nat) then g
  else SetValidatorConfig g (Some (mkValidatorConfig accountAllowedIssuers)).

(** The configuration part of [startMTLSServer]. *)
Definition startMTLSServer_config (g : Globals) (cfg : MTLSConfig) : Globals :=
  let g := if bool_decide (0 < size (DomainAccountMapping cfg))%nat then SetMTLSConfig g cfg else g in
  if bool_decide (0 < size (AccountAllowedIssuers cfg))%nat
  then InitMTLSValidatorConfig g (AccountAllowedIssuers cfg) else g.

(** ** Identity extraction *)

Record san_match := mkSanMatch {
  sm_name : bytes;
  sm_hostname : bytes;
  sm_domain : bytes;
  sm_account : bytes;
  sm_matched : bytes;
}.

(** The loop over the SANs: the first one that passes, and the last error of
    the two account checks. *)
Fixpoint find_san (g : Globals) (names : list bytes) (validationErr : option auth_error)
    : outcome auth_error (option san_match * option auth_error) :=
  match names with
  | [] => Ok (None, validationErr)
  | dnsName :: names =>
      otry (canonicalizeSAN dnsName) (λ _, find_san g names validationErr) (λ canonicalName,
      otry (splitDNSName canonicalName) (λ _, find_san g names validationErr) (λ '(hostname, domain),
      otry (getAccountIDFromDomain g domain) (λ e, find_san g names (Some e)) (λ accID,
      otry (validateDomainForAccount g domain accID) (λ e, find_san g names (Some e)) (λ matched,
      Ok (Some (mkSanMatch canonicalName hostname domain accID matched), validationErr)))))
  end.

(** The SAN the identity is built from. *)
Definition select_san (g : Globals) (names : list bytes) : outcome auth_error san_match :=
  let! (found, validationErr) := find_san g names None in
  let m := default (mkSanMatch [] [] [] [] []) found in
  if bool_decide (sm_name m = []) then
    match globalMTLSConfig g with
    | None =>
        let! dnsName := go_index names 0 in
        let! (hostname, domain) := omap_err EInvalidSANFormat (splitDNSName dnsName) in
        Ok (mkSanMatch dnsName hostname domain (sm_account m) (sm_matched m))
    | Some _ =>
        match validationErr with
        | Some e => Err (ENoValidSAN e)
        | None => Err ENoMatchingSAN
        end
    end
  else Ok m.

Definition issuer_fingerprint (chain : list Certificate) : bytes :=
  match chain with
  | _ :: issuerCert :: _ => hex_encode (sha256 (cert_Raw issuerCert))
  | _ => []
  end.

Definition extractMTLSIdentity (g : Globals) (p : PeerInfo) : outcome auth_error Identity :=
  match p with
  | NoPeer => Err ENoPeer
  | NoTLSInfo => Err ENoTLS
  | TLSState [] => Err ENoChains
  | TLSState ([] :: _) => Err EEmptyChain
  | TLSState ((clientCert :: rest) :: _) =>
      if bool_decide (DNSNames clientCert = []) then Err ENoSAN
      else
        let! _ := checkMultiAccountSpan g (DNSNames clientCert) in
        let! m := select_san g (DNSNames clientCert) in
        let issuerFP := issuer_fingerprint (clientCert :: rest) in
        let! templateOID := extractTemplateOID clientCert in
        let! templateName := extractTemplateNameV1 clientCert in
        let peerType := determinePeerType templateOID templateName clientCert in
        Ok (mkIdentity (sm_name m) (sm_hostname m) (sm_domain m) (sm_matched m) (sm_account m) issuerFP
              (big_String (cert_Serial clientCert)) templateOID templateName peerType)
  end.

(** ** Interceptors *)

Inductive grpc_code := Unauthenticated | FailedPrecondition | PermissionDenied | InvalidArgument | NotFound | Internal.

Definition mTLSRequiredMethods (method : bytes) : bool :=
  bool_decide (method ∈ (str <$> ["/management.ManagementService/RegisterMachinePeer";
                                   "/management.ManagementService/SyncMachinePeer";
                                   "/management.ManagementService/GetMachineRoutes";
                                   "/management.ManagementService/ReportMachineStatus"])).

(** The identity the handler finds in its context ([GetIdentity]), or the
    error returned without calling the handler. *)
Definition MTLSUnaryInterceptor (strictMode : bool) (g : Globals) (p : PeerInfo) (method : bytes)
    : outcome grpc_code (option Identity) :=
  match extractMTLSIdentity g p with
  | Panic => Panic
  | Err _ =>
      if mTLSRequiredMethods method then Err Unauthenticated
      else if strictMode then Err Unauthenticated
      else Ok None
  | Ok identity =>
      let! _ := go_slice (id_IssuerFingerprint identity) 0 16 in
      Ok (Some identity)
  end.

Definition MTLSStreamInterceptor (strictMode : bool) (g : Globals) (p : PeerInfo) (method : bytes)
    : outcome grpc_code (option Identity) :=
  match extractMTLSIdentity g p with
  | Panic => Panic
  | Err _ =>
      if mTLSRequiredMethods method then Err Unauthenticated
      else if strictMode then Err Unauthenticated
      else Ok None
  | Ok identity => Ok (Some identity)
  end.

(** The two interceptors, by kind of RPC. *)
Definition interceptor (stream : bool) :=
  if stream then MTLSStreamInterceptor else MTLSUnaryInterceptor.

(** ** Lemmas *)

Lemma check_label_no_panic l : no_panic (check_label l).
Proof.
  unfold no_panic, check_label. destruct l as [|b l]; [done|].
  cbn [length]. rewrite (bool_decide_false (S (length l) = 0%nat)) by done. simpl.
  case_bool_decide; [done|]. destruct (isAlphanumeric b); [|done]. simpl.
  unfold go_index. destruct (lookup_lt_is_Some_2 (b :: l) (length l - 0)) as [x Hx]; [simpl; lia|].
  rewrite Hx. simpl. destruct (isAlphanumeric x); [|done]. simpl. by destruct (forallb _ _).
Qed.

Lemma check_labels_no_panic ls : no_panic (check_labels ls).
Proof.
  induction ls as [|l ls IH]; [done|]. simpl. pose proof (check_label_no_panic l) as Hl.
  unfold no_panic in *. destruct (check_label l); simpl; done.
Qed.

Lemma canonicalizeSAN_no_panic n : no_panic (canonicalizeSAN n).
Proof.
  unfold no_panic, canonicalizeSAN. case_bool_decide; [done|]. destruct (ContainsByte _ _); [done|].
  destruct (ToASCII _) as [name|]; [|done]. case_bool_decide; [done|].
  pose proof (check_labels_no_panic (SplitByte dot name)) as Hl. unfold no_panic in Hl.
  by destruct (check_labels _).
Qed.

Lemma size_le_1_elem (X : gset bytes) x y : (size X ≤ 1)%nat → x ∈ X → y ∈ X → x = y.
Proof.
  intros Hs Hx Hy. destruct (decide (x = y)) as [|Hne]; [done|].
  assert (size ({[x]} ∪ {[y]} : gset bytes) ≤ size X)%nat as Hle by (apply subseteq_size; set_solver).
  rewrite size_union, !size_singleton in Hle by set_solver. lia.
Qed.

(** [n] is a usable name with domain [d]. *)
Definition san_of (n c h d : bytes) : Prop := canonicalizeSAN n = Ok c ∧ splitDNSName c = Ok (h, d).

Lemma seenAccounts_spec g names seen s :
  seenAccounts g names seen = Ok s →
  seen ⊆ s ∧
  ∀ n c h d a, n ∈ names → san_of n c h d → getAccountIDFromDomain g d = Ok a → a ∈ s.
Proof.
  revert seen. induction names as [|n0 names IH]; intros seen Hs; simpl in Hs.
  { inv_ok. split; [done|]. intros n c h d a Hn. by apply not_elem_of_nil in Hn. }
  assert (seenAccounts g names seen = Ok s →
    (∀ c h d a, san_of n0 c h d → getAccountIDFromDomain g d = Ok a → False) →
    seen ⊆ s ∧ ∀ n c h d a, n ∈ n0 :: names → san_of n c h d → getAccountIDFromDomain g d = Ok a → a ∈ s)
    as Hskip.
  { intros [H1 H2]%IH Hno. split; [done|].
    intros n c h d a [-> |Hn]%elem_of_cons Hof Ha; [by destruct (Hno c h d a)|by eapply H2]. }
  destruct (canonicalizeSAN n0) as [c0| |] eqn:E1; simpl in Hs;
    [|apply Hskip; [done|]; intros ? ? ? ? [? ?] ?; congruence|done].
  destruct (splitDNSName c0) as [[h0 d0]| |] eqn:E2; simpl in Hs;
    [|apply Hskip; [done|]; intros ? ? ? ? [? ?] ?; congruence|done].
  destruct (getAccountIDFromDomain g d0) as [a0| |] eqn:E3; simpl in Hs;
    [|apply Hskip; [done|]; intros ? ? ? ? [? ?] ?; congruence|done].
  apply IH in Hs as [H1 H2]. split; [set_solver|].
  intros n c h d a [-> |Hn]%elem_of_cons Hof Ha; [|by eapply H2].
  destruct Hof as [Hc Hsp]. assert (a = a0) as -> by congruence. set_solver.
Qed.

Lemma find_san_spec g names ve m e :
  find_san g names ve = Ok (Some m, e) →
  ∃ n, n ∈ names ∧ san_of n (sm_name m) (sm_hostname m) (sm_domain m) ∧
    getAccountIDFromDomain g (sm_domain m) = Ok (sm_account m) ∧
    validateDomainForAccount g (sm_domain m) (sm_account m) = Ok (sm_matched m).
Proof.
  revert ve. induction names as [|n0 names IH]; intros ve Hs; simpl in Hs; [done|].
  assert (∀ ve', find_san g names ve' = Ok (Some m, e) → ∃ n, n ∈ n0 :: names ∧
    san_of n (sm_name m) (sm_hostname m) (sm_domain m) ∧
    getAccountIDFromDomain g (sm_domain m) = Ok (sm_account m) ∧
    validateDomainForAccount g (sm_domain m) (sm_account m) = Ok (sm_matched m)) as Hrec.
  { intros ve' H%IH. destruct H as (n & Hn & H). exists n. split; [set_solver|done]. }
  destruct (canonicalizeSAN n0) as [c0| |] eqn:E1; simpl in Hs; [|eauto|done].
  destruct (splitDNSName c0) as [[h0 d0]| |] eqn:E2; simpl in Hs; [|eauto|done].
  destruct (getAccountIDFromDomain g d0) as [a0| |] eqn:E3; simpl in Hs; [|eauto|done].
  destruct (validateDomainForAccount g d0 a0) as [m0| |] eqn:E4; simpl in Hs; [|eauto|done].
  simplify_eq. exists n0. split_and!; [set_solver|done|done|done].
Qed.

Lemma select_san_configured g cfg names m :
  globalMTLSConfig g = Some cfg → select_san g names = Ok m →
  ∃ n, n ∈ names ∧ san_of n (sm_name m) (sm_hostname m) (sm_domain m) ∧
    getAccountIDFromDomain g (sm_domain m) = Ok (sm_account m) ∧
    validateDomainForAccount g (sm_domain m) (sm_account m) = Ok (sm_matched m).
Proof.
  intros Hg. unfold select_san. destruct (find_san g names None) as [[[m0|] e]| |] eqn:E; simpl; [| |done..].
  - case_bool_decide; [|intros; inv_ok; by eapply find_san_spec].
    rewrite Hg. by destruct e.
  - rewrite Hg. by destruct e.
Qed.

Lemma validateDomain_spec g d a m :
  validateDomainForAccount g d a = Ok m → m ∈ getAllowedDomainsForAccount g a ∧ lower m = lower d.
Proof.
  unfold validateDomainForAccount. case_bool_decide; [done|].
  destruct (list_find _ _) as [[i x]|] eqn:E; [|done]. intros; inv_ok.
  apply list_find_Some in E as (E & Hx & _). split; [by eapply list_elem_of_lookup_2|done].
Qed.

Lemma getAccountID_configured g cfg d a :
  globalMTLSConfig g = Some cfg → getAccountIDFromDomain g d = Ok a →
  DomainAccountMapping cfg !! lower d = Some a.
Proof. intros Hg. unfold getAccountIDFromDomain. rewrite Hg. case_match; [|done]. intros; inv_ok. done. Qed.

(** What an extracted identity says of the certificate it came from. *)
Definition identity_sound (g : Globals) (cfg : MTLSConfig) (p : PeerInfo) (id : Identity) : Prop :=
  ∃ leaf issuers more,
    p = TLSState ((leaf :: issuers) :: more) ∧
    (∃ san, san ∈ DNSNames leaf ∧ san_of san (id_DNSName id) (id_Hostname id) (id_Domain id)) ∧
    id_DNSName id = id_Hostname id ++ [dot] ++ id_Domain id ∧
    DomainAccountMapping cfg !! lower (id_Domain id) = Some (id_AccountID id) ∧
    id_MatchedDomain id ∈ getAllowedDomainsForAccount g (id_AccountID id) ∧
    lower (id_MatchedDomain id) = lower (id_Domain id) ∧
    (∀ san c h d a, san ∈ DNSNames leaf → san_of san c h d →
       DomainAccountMapping cfg !! lower d = Some a → a = id_AccountID id) ∧
    id_IssuerFingerprint id = issuer_fingerprint (leaf :: issuers).

Lemma issuer_fingerprint_length leaf i rest : length (issuer_fingerprint (leaf :: i :: rest)) = 64%nat.
Proof. simpl. by rewrite length_hex_encode, length_sha256. Qed.

Lemma interceptor_extract stream strict g p method id :
  interceptor stream strict g p method = Ok (Some id) → extractMTLSIdentity g p = Ok id.
Proof.
  unfold interceptor. destruct stream; unfold MTLSStreamInterceptor, MTLSUnaryInterceptor;
    destruct (extractMTLSIdentity g p) as [id'|e|].
  - by intros [= ->].
  - by destruct (mTLSRequiredMethods method), strict.
  - done.
  - unfold go_slice. case_bool_decide; simpl; [by intros [= ->]|done].
  - by destruct (mTLSRequiredMethods method), strict.
  - done.
Qed.

Lemma ValidateIssuerCA_spec g vc a fp :
  globalValidatorConfig g = Some vc →
  ValidateIssuerCA g a fp = Ok tt ↔
  ∃ allowed, allowed ∈ default [] (vc_AccountAllowedIssuers vc !! a) ∧ lower allowed = lower fp.
Proof.
  intros Hg. unfold ValidateIssuerCA. rewrite Hg. set (l := default [] _). clearbody l.
  case_bool_decide as E.
  { subst l. split; [done|]. intros (x & Hx & _). by apply not_elem_of_nil in Hx. }
  destruct (existsb _ l) eqn:Ex.
  - split; [|done]. intros _. apply existsb_exists in Ex as (x & Hx & Hb).
    apply bool_decide_eq_true in Hb. exists x. split; [by apply list_elem_of_In|done].
  - split; [done|]. intros (x & Hx & Hl). exfalso.
    assert (existsb (λ allowed, bool_decide (lower allowed = lower fp)) l = true) as Ex'; [|congruence].
    apply existsb_exists. exists x. split; [by apply list_elem_of_In|by apply bool_decide_eq_true].
Qed.

Lemma extract_sound g cfg p id :
  globalMTLSConfig g = Some cfg → extractMTLSIdentity g p = Ok id → identity_sound g cfg p id.
Proof.
  intros Hg. unfold extractMTLSIdentity.
  destruct p as [| |[|[|leaf issuers] more]]; try done. case_bool_decide; [done|].
  unfold checkMultiAccountSpan. destruct (seenAccounts g _ ∅) as [seen| |] eqn:Es; cbn [obind]; [|done..].
  case_bool_decide as Hsize; [done|]. cbn [obind].
  destruct (select_san g _) as [m| |] eqn:Em; cbn [obind]; [|done..].
  destruct (extractTemplateOID leaf) as [oid| |]; cbn [obind]; [|done..].
  destruct (extractTemplateNameV1 leaf) as [nm| |]; cbn [obind]; [|done..].
  intros; inv_ok. apply (select_san_configured g cfg) in Em as (n & Hn & Hof & Ha & Hv); [|done].
  apply seenAccounts_spec in Es as [_ Hs].
  pose proof (Hs _ _ _ _ _ Hn Hof Ha) as Hin.
  exists leaf, issuers, more. cbn.
  split_and!; [done|by exists n| |by eapply getAccountID_configured|
               by apply validateDomain_spec in Hv as [? ?]..| |done].
  - destruct Hof as [_ Hsp]. unfold splitDNSName in Hsp.
    destruct (CutByte dot (sm_name m)) as [[a b]|] eqn:Ec; [|done]. inv_ok. simplify_eq.
    by apply CutByte_sound in Ec as [-> _].
  - intros san c h d a Hsan Hsof Hmap.
    assert (a ∈ seen) as Hin'.
    { eapply Hs; [done|done|]. unfold getAccountIDFromDomain. by rewrite Hg, Hmap. }
    apply (size_le_1_elem seen); [lia|done|done].
Qed.

(** ** Properties *)

(** C1: tenant isolation.  With a domain mapping configured, the handler of a
    machine method (or of any method in strict mode) runs only with an
    identity, and that identity is the canonical form of a SAN of the verified
    leaf certificate, its account is the one its domain is mapped to, the
    domain is allowed for that account, no SAN of the certificate maps to
    another account, and the issuer fingerprint is that of the verified
    chain. *)
Theorem mtls_tenant_isolation g cfg stream strict p method r :
  globalMTLSConfig g = Some cfg →
  mTLSRequiredMethods method = true ∨ strict = true →
  interceptor stream strict g p method = Ok r →
  ∃ id, r = Some id ∧ identity_sound g cfg p id.
Proof.
  intros Hg Hreq Hi. destruct r as [id|].
  - exists id. split; [done|]. apply extract_sound; [done|]. by eapply interceptor_extract.
  - exfalso. unfold interceptor in Hi.
    destruct stream; unfold MTLSStreamInterceptor, MTLSUnaryInterceptor in Hi;
      destruct (extractMTLSIdentity g p) as [id|e|]; try done.
    + destruct (mTLSRequiredMethods method), strict; try done. by destruct Hreq.
    + unfold go_slice in Hi. by case_bool_decide.
    + destruct (mTLSRequiredMethods method), strict; try done. by destruct Hreq.
Qed.
End MachineAuth.

(** Host [pc1] of domain [corp.local], certified by its domain's CA. *)
Definition example_cfg : MTLSConfig :=
  mkMTLSConfig {[ str "corp.local" := str "acc1" ]} ∅ ∅.

Definition example_leaf : Certificate :=
  mkCert [str "PC1.corp.local"] [] [ExtKeyUsageClientAuth] [] [] 17 [].

Definition example_ca : Certificate := mkCert [] [] [] [] [] 1 (str "ca").

Definition example_globals : Globals := mkGlobals (Some example_cfg) None.

Definition register_method : bytes := str "/management.ManagementService/RegisterMachinePeer".

Definition example_identity : Identity :=
  mkIdentity (str "pc1.corp.local") (str "pc1") (str "corp.local") (str "corp.local") (str "acc1")
    (hex_encode (sha256 (str "ca"))) (str "17") [] [] (str "machine").

Lemma mtls_tenant_isolation_witness :
  ∃ id, Some example_identity = Some id ∧
    identity_sound (λ s, s) Some example_globals example_cfg (TLSState [[example_leaf; example_ca]]) id.
Proof.
  apply (mtls_tenant_isolation (λ s, s) Some example_globals example_cfg false false
    (TLSState [[example_leaf; example_ca]]) register_method (Some example_identity)).
  - reflexivity.
  - left. vm_compute. reflexivity.
  - vm_compute. reflexivity.
Defined.

(** the issuer check fails open.  When the server starts without an issuer
    allowlist, every issuer of every account is accepted, although the comment
    on the check and the log line of [InitMTLSValidatorConfig] say that an
    empty allowlist rejects all certificates. *)
Theorem empty_issuer_allowlist_fails_open ul mapping domains account fingerprint :
  ValidateIssuerCA ul
    (startMTLSServer_config (mkGlobals None None) (mkMTLSConfig mapping domains ∅)) account fingerprint
    = Ok tt ∧
  ValidateIssuerCA ul (InitMTLSValidatorConfig (mkGlobals None None) ∅) account fingerprint = Ok tt.
Proof.
  split; [|done]. unfold startMTLSServer_config. cbn [DomainAccountMapping AccountAllowedIssuers].
  replace (bool_decide (0 < size (∅ : gmap bytes (list bytes)))%nat) with false by done.
  by destruct (bool_decide _).
Qed.

(** a client certificate that is itself a trust anchor, so that the
    verified chain has a single element, makes the unary interceptor panic on
    the slice of the empty issuer fingerprint; the stream interceptor accepts
    the same certificate. *)
Theorem unary_interceptor_panics_without_issuer :
  MTLSUnaryInterceptor (λ s, s) Some true example_globals (TLSState [[example_leaf]]) register_method = Panic ∧
  ∃ id, MTLSStreamInterceptor (λ s, s) Some true example_globals (TLSState [[example_leaf]]) register_method
    = Ok (Some id).
Proof. split; [|eexists]; vm_compute; reflexivity. Qed.
