(* ===== verification/MachineTunnel.v ===== *)
(** * Machine peer RPC handlers

    [management/internals/shared/grpc/machine_tunnel.go] behind the
    interceptors of [MachineAuth], and the label [AddPeer]
    ([management/server/peer.go]) gives to a machine peer.  The account
    manager and the store are Go interfaces; the handlers are written against
    the record [Backend] of the operations they call, over an abstract state.
    WireGuard key parsing is a library outside the repository and an
    argument.  Logging and clocks are not modelled; the sync stream is in [MachineSync].

    The theorems: a registration reaches the account manager only for a
    certificate whose domain is mapped to the account and whose issuer is
    allowed for it; a machine peer is found again under the label it was
    registered with only when the host name the client reported is the one in
    its certificate. *)

From stdpp Require Import base list gmap strings.
From S2P Require Import Prelude GoStd GoStrings DNSLabel MachineAuth.

#[local] Open Scope go_scope.

(** The fields of [nbpeer.PeerSystemMeta] these handlers set or read. *)
Record PeerSystemMeta := mkMeta {
  pm_Hostname : bytes;
  pm_PeerType : bytes;
  pm_AuthMethod : bytes;
  pm_CertDNSName : bytes;
  pm_CertDomain : bytes;
  pm_CertIssuerFP : bytes;
  pm_CertSerial : bytes;
  pm_CertTemplate : bytes;
}.

(** [extractMachinePeerMeta]; [meta] is the metadata of the request. *)
Definition extractMachinePeerMeta (meta : PeerSystemMeta) (identity : Identity) : PeerSystemMeta :=
  mkMeta (pm_Hostname meta)
    (if bool_decide (id_PeerType identity = []) then str "machine" else id_PeerType identity)
    (str "mtls") (id_DNSName identity) (id_Domain identity) (id_IssuerFingerprint identity)
    (id_SerialNumber identity)
    (if bool_decide (id_TemplateName identity = []) then id_TemplateOID identity else id_TemplateName identity).

Record PeerLogin := mkPeerLogin {
  pl_WireGuardPubKey : bytes;
  pl_Meta : PeerSystemMeta;
  pl_SetupKey : bytes;
  pl_UserID : bytes;
}.

(** The fields of a peer the handlers read. *)
Record Peer := mkPeer { pr_ID : bytes; pr_Key : bytes; pr_IP : bytes; pr_DNSLabel : bytes }.

Record Route := mkRoute {
  rt_ID : bytes;
  rt_Network : bytes;
  rt_NetID : bytes;
  rt_Peer : bytes;
  rt_Metric : Z;
  rt_Masquerade : bool;
  rt_NetworkType : Z;
  rt_Enabled : bool;
}.

Record NetworkMap := mkNetworkMap { nm_Peers : list Peer; nm_Routes : list Route; nm_Serial : Z }.

(** Operations of the account manager and the store that the handlers call.
    [None] is an error. *)
Record Backend (St : Type) := mkBackend {
  LoginPeer : St → option Identity → PeerLogin → St * option (Peer * NetworkMap);
  SyncPeer : St → bytes → bytes → St * option NetworkMap;
  MarkPeerConnected : St → bytes → bool → bytes → St * bool;
  GetPeerIdByLabel : St → bytes → bytes → option bytes;
  GetPeerByID : St → bytes → bytes → option Peer;
  GetSettingsDNSDomain : St → bytes → option bytes;
  prepareLoginResponse : St → Peer → NetworkMap → option (bytes * bytes);
}.

Arguments LoginPeer {St}.
Arguments SyncPeer {St}.
Arguments MarkPeerConnected {St}.
Arguments GetPeerIdByLabel {St}.
Arguments GetPeerByID {St}.
Arguments GetSettingsDNSDomain {St}.
Arguments prepareLoginResponse {St}.

(** [proto.MachineRegisterResponse]: the peer and NetBird configurations of the
    login response and the identity of the certificate. *)
Record MachineRegisterResponse := mkRegisterResponse {
  rr_PeerConfig : bytes;
  rr_NetbirdConfig : bytes;
  rr_MachineIdentity : Identity;
}.

Record RemotePeerConfig := mkRemotePeer { rp_WgPubKey : bytes; rp_Fqdn : bytes; rp_AllowedIps : list bytes }.

Record MachineRoutesResponse := mkRoutesResponse {
  mr_Routes : list Route;
  mr_DcNetworks : list bytes;
  mr_RouterPeers : list RemotePeerConfig;
}.

(** [proto.MachineSyncResponse] and the part of [proto.SyncResponse] it uses. *)
Record MachineSyncResponse := mkSyncResponse { ms_NetworkMap : option NetworkMap; ms_Serial : Z }.

Definition toMachineSyncResponse (syncResp : option (option NetworkMap)) (serial : Z) : MachineSyncResponse :=
  match syncResp with
  | None => mkSyncResponse None serial
  | Some nm =>
      match nm with
      | Some m => mkSyncResponse nm (if serial =? 0 then nm_Serial m else serial)
      | None => mkSyncResponse None serial
      end
  end.

(** The response of [GetMachineRoutes] for a network map. *)
Definition machine_routes (netMap : option NetworkMap) (dnsDomain : bytes) : MachineRoutesResponse :=
  match netMap with
  | None => mkRoutesResponse [] [] []
  | Some m =>
      let routes := filter (λ r, rt_Enabled r = true) (nm_Routes m) in
      let routerPeerIDs := list_to_set (C:=gset bytes)
        (filter (λ p, p ≠ []) (rt_Peer <$> routes)) in
      mkRoutesResponse routes (rt_Network <$> routes)
        ((λ p, mkRemotePeer (pr_Key p) (pr_DNSLabel p ++ [dot] ++ dnsDomain) [pr_IP p ++ str "/32"])
           <$> filter (λ p, pr_ID p ∈ routerPeerIDs) (nm_Peers m))
  end.

Section Handlers.
Context (unicode_lower : bytes → bytes).
Context (KeyLen : nat) (NewKey ParseKey : bytes → option bytes).
Context {St : Type} (be : Backend St).

(** The handler of an RPC returns the new state and its result. *)
Definition RegisterMachinePeer (g : Globals) (st : St) (ctx : option Identity) (wgPubKey : bytes)
    (reqMeta : PeerSystemMeta) : St * outcome grpc_code MachineRegisterResponse :=
  match ctx with
  | None => (st, Err Unauthenticated)
  | Some identity =>
      let accountID := id_AccountID identity in
      if bool_decide (accountID = []) then (st, Err FailedPrecondition)
      else
        match ValidateIssuerCA unicode_lower g accountID (id_IssuerFingerprint identity) with
        | Panic => (st, Panic)
        | Err _ => (st, Err PermissionDenied)
        | Ok _ =>
            if bool_decide (length wgPubKey = 0%nat) then (st, Err InvalidArgument)
            else
              let key := if bool_decide (length wgPubKey = KeyLen) then NewKey wgPubKey else ParseKey wgPubKey in
              match key with
              | None => (st, Err InvalidArgument)
              | Some peerKey =>
                  let peerMeta := extractMachinePeerMeta reqMeta identity in
                  let '(st, r) := LoginPeer be st ctx (mkPeerLogin peerKey peerMeta [] []) in
                  match r with
                  | None => (st, Err Internal)
                  | Some (peer, netMap) =>
                      match prepareLoginResponse be st peer netMap with
                      | None => (st, Err Internal)
                      | Some (peerConfig, netbirdConfig) =>
                          (st, Ok (mkRegisterResponse peerConfig netbirdConfig identity))
                      end
                  end
              end
        end
  end.

Definition machine_label (identity : Identity) : bytes :=
  GenerateUniqueDNSLabel unicode_lower (id_Hostname identity) (id_Domain identity).

Definition findMachinePeer (st : St) (identity : Identity) : option Peer :=
  peerID ← GetPeerIdByLabel be st (id_AccountID identity) (machine_label identity);
  GetPeerByID be st (id_AccountID identity) peerID.

Definition GetMachineRoutes (g : Globals) (st : St) (ctx : option Identity)
    : St * outcome grpc_code MachineRoutesResponse :=
  match ctx with
  | None => (st, Err Unauthenticated)
  | Some identity =>
      match ValidateIssuerCA unicode_lower g (id_AccountID identity) (id_IssuerFingerprint identity) with
      | Panic => (st, Panic)
      | Err _ => (st, Err PermissionDenied)
      | Ok _ =>
          match findMachinePeer st identity with
          | None => (st, Err NotFound)
          | Some peer =>
              let '(st, r) := SyncPeer be st (pr_Key peer) (id_AccountID identity) in
              match r with
              | None => (st, Err Internal)
              | Some netMap =>
                  match GetSettingsDNSDomain be st (id_AccountID identity) with
                  | None => (st, Err Internal)
                  | Some dnsDomain => (st, Ok (machine_routes (Some netMap) dnsDomain))
                  end
              end
          end
      end
  end.

Definition ReportMachineStatus (st : St) (ctx : option Identity) (tunnelUp : bool)
    : St * outcome grpc_code unit :=
  match ctx with
  | None => (st, Err Unauthenticated)
  | Some identity =>
      match findMachinePeer st identity with
      | None => (st, Err NotFound)
      | Some peer =>
          let '(st, _) := MarkPeerConnected be st (pr_Key peer) tunnelUp (id_AccountID identity) in
          (st, Ok tt)
      end
  end.

(** The label [AddPeer] chooses for a peer with certificate metadata; the
    fallback for an invalid label is [fallback]. *)
Definition AddPeer_mtls_label (fallback : bytes) (meta : PeerSystemMeta) : option bytes :=
  if bool_decide (pm_CertDNSName meta ≠ []) && bool_decide (pm_CertDomain meta ≠ []) then
    let freeLabel := GenerateUniqueDNSLabel unicode_lower (pm_Hostname meta) (pm_CertDomain meta) in
    match ValidateDNSLabel freeLabel with
    | Ok _ => Some freeLabel
    | _ => Some fallback
    end
  else None.

(** A unary machine RPC: the interceptor, then the handler. *)
Definition register_rpc (ToASCII : bytes → option bytes) (strict : bool) (g : Globals) (st : St) (p : PeerInfo)
    (wgPubKey : bytes) (reqMeta : PeerSystemMeta) : St * outcome grpc_code MachineRegisterResponse :=
  match MTLSUnaryInterceptor unicode_lower ToASCII strict g p register_method with
  | Panic => (st, Panic)
  | Err e => (st, Err e)
  | Ok ctx => RegisterMachinePeer g st ctx wgPubKey reqMeta
  end.

(** ** Lemmas *)

Lemma RegisterMachinePeer_guard g st ctx key meta st' r :
  RegisterMachinePeer g st ctx key meta = (st', r) → st' ≠ st →
  ∃ identity, ctx = Some identity ∧ id_AccountID identity ≠ [] ∧
    ValidateIssuerCA unicode_lower g (id_AccountID identity) (id_IssuerFingerprint identity) = Ok tt.
Proof.
  unfold RegisterMachinePeer. destruct ctx as [identity|]; [|congruence].
  case_bool_decide; [congruence|].
  destruct (ValidateIssuerCA _ _ _ _) as [[]|e|] eqn:E; [|congruence..].
  intros _ _. by exists identity.
Qed.

(** C2: no registration without authorization.  When a register RPC changes
    the state of the account manager, and a domain mapping is configured, the
    caller presented a verified certificate whose SAN domain is mapped to a
    non-empty account; and if the allowlists of issuers are configured too, the
    SHA-256 fingerprint of the certificate that issued it is on the allowlist of
    that account.  Without the allowlists no issuer is refused
    ([MachineAuth.empty_issuer_allowlist_fails_open]). *)
Theorem register_machine_authorized ToASCII strict g cfg st p key meta st' r :
  globalMTLSConfig g = Some cfg →
  register_rpc ToASCII strict g st p key meta = (st', r) → st' ≠ st →
  ∃ id, identity_sound unicode_lower ToASCII g cfg p id ∧ id_AccountID id ≠ [] ∧
    ∀ vc, globalValidatorConfig g = Some vc →
      ∃ allowed, allowed ∈ default [] (vc_AccountAllowedIssuers vc !! id_AccountID id) ∧
        ToLower unicode_lower allowed = ToLower unicode_lower (id_IssuerFingerprint id).
Proof.
  intros Hg. unfold register_rpc.
  destruct (MTLSUnaryInterceptor _ _ _ _ _ _) as [ctx|e|] eqn:Ei; [|congruence..].
  intros Hr Hne. apply RegisterMachinePeer_guard in Hr as (id & -> & Ha & Hi); [|done].
  exists id. split_and!; [|done|intros vc Hv; by eapply ValidateIssuerCA_spec].
  apply extract_sound; [done|]. by apply (interceptor_extract _ _ false strict g p register_method).
Qed.

(** the label a machine peer registers under is the label it is looked up
    by when the reported host name is, up to case, the one of the certificate:
    the reported name, not the certificate's, decides the registered label. *)
Theorem machine_label_lookup fallback identity meta :
  id_DNSName identity ≠ [] → id_Domain identity ≠ [] →
  ToLower unicode_lower (pm_Hostname meta) = ToLower unicode_lower (id_Hostname identity) →
  AddPeer_mtls_label fallback (extractMachinePeerMeta meta identity) = Some (machine_label identity).
Proof.
  intros H1 H2 Hh. unfold AddPeer_mtls_label, extractMachinePeerMeta, machine_label.
  cbn [pm_CertDNSName pm_CertDomain pm_Hostname].
  rewrite !bool_decide_true by done. cbn [andb].
  unfold GenerateUniqueDNSLabel. rewrite Hh.
  pose proof (generated_label_valid unicode_lower (id_Hostname identity) (id_Domain identity)) as Hv.
  unfold GenerateUniqueDNSLabel in Hv. by rewrite Hv.
Qed.
End Handlers.

(** A backend that counts logins, and the issuer of [MachineAuth]'s example on
    the allowlist. *)
Definition counting_backend : Backend nat :=
  mkBackend nat (λ n _ l, (S n, Some (mkPeer (str "p") (pl_WireGuardPubKey l) [] [], mkNetworkMap [] [] 1)))
    (λ n _ _, (n, None)) (λ n _ _ _, (n, true)) (λ _ _ _, None) (λ _ _ _, None) (λ _ _, None)
    (λ _ p _, Some (pr_Key p, [])).

Definition example_vc : ValidatorConfig :=
  mkValidatorConfig {[ str "acc1" := [hex_encode (sha256 (str "ca"))] ]}.

Definition client_meta (hostname : bytes) : PeerSystemMeta := mkMeta hostname [] [] [] [] [] [] [].

Lemma register_machine_authorized_witness :
  ∃ id, identity_sound (λ s, s) Some (mkGlobals (Some example_cfg) (Some example_vc)) example_cfg
      (TLSState [[example_leaf; example_ca]]) id ∧ id_AccountID id ≠ [] ∧
    ∃ allowed, allowed ∈ default [] (vc_AccountAllowedIssuers example_vc !! id_AccountID id) ∧
      ToLower (λ s, s) allowed = ToLower (λ s, s) (id_IssuerFingerprint id).
Proof.
  destruct (register_machine_authorized (λ s, s) 32 Some Some counting_backend Some true
    (mkGlobals (Some example_cfg) (Some example_vc)) example_cfg 0%nat
    (TLSState [[example_leaf; example_ca]]) (str "key") (client_meta (str "pc1")) 1%nat
    (Ok (mkRegisterResponse (str "key") [] example_identity))) as (id & H1 & H2 & H3).
  - reflexivity.
  - vm_compute. reflexivity.
  - discriminate.
  - exists id. exact (conj H1 (conj H2 (H3 example_vc eq_refl))).
Defined.

Lemma machine_label_lookup_witness :
  AddPeer_mtls_label (λ s, s) [] (extractMachinePeerMeta (client_meta (str "PC1")) example_identity)
  = Some (machine_label (λ s, s) example_identity).
Proof.
  apply (machine_label_lookup (λ s, s) [] example_identity (client_meta (str "PC1"))).
  - discriminate.
  - discriminate.
  - vm_compute. reflexivity.
Defined.

(** the registered label follows the host name the client reports.  A
    machine whose certificate is for [pc1.corp.local] and that reports another
    host name registers under a label different from the one its later calls
    look it up by, and it can take the label of another host of the domain. *)
Theorem machine_label_follows_client_hostname :
  AddPeer_mtls_label (λ s, s) [] (extractMachinePeerMeta (client_meta (str "dc01")) example_identity)
    ≠ Some (machine_label (λ s, s) example_identity) ∧
  AddPeer_mtls_label (λ s, s) [] (extractMachinePeerMeta (client_meta (str "dc01")) example_identity)
    = Some (GenerateUniqueDNSLabel (λ s, s) (str "dc01") (id_Domain example_identity)).
Proof. split; [vm_compute; discriminate|vm_compute; reflexivity]. Qed.
