(* ===== verification/MachineSync.v ===== *)
(** * The sync stream of a machine peer

    [SyncMachinePeer], [sendInitialMachineSync] and [handleMachineUpdates] of
    [management/internals/shared/grpc/machine_tunnel.go], with the peer lock and
    [cancelPeerRoutines] of [server.go].  A stream is the sequence of calls it
    makes and the way it ends; what the called components return, and the
    events of the update channel and of the stream, are the arguments.

    The theorems: on the normal path the peer lock is taken and released
    properly, every peer marked connected is disconnected exactly once when the
    stream returns; on the two error paths after the peer was marked connected
    this fails.  A stream makes no call for a caller whose issuer is refused or
    that has no peer ([sync_guard]). *)

From stdpp Require Import base list gmap strings.
From S2P Require Import Prelude GoStd GoStrings DNSLabel MachineAuth MachineTunnel.

#[local] Open Scope go_scope.

(** The calls of a stream, with their results where they matter: the peer lock,
    [SyncAndMarkPeer], [srv.Send], [networkMapController.OnPeerConnected],
    [secretsManager.SetupRefresh], and the three calls of
    [cancelPeerRoutinesWithoutLock]. *)
Inductive sync_call :=
| CLock (key : bytes)
| CUnlock (key : bytes)
| CSyncAndMarkPeer (key : bytes) (ok : bool)
| CSend (resp : MachineSyncResponse) (ok : bool)
| COnPeerConnected (peerID : bytes) (ok : bool)
| CSetupRefresh (peerID : bytes)
| CAccountDisconnected (key : bytes)
| CControllerDisconnected (peerID : bytes)
| CCancelRefresh (peerID : bytes).

Inductive sync_error :=
| EGrpc (code : grpc_code)
| EOnPeerConnected
| ESendUpdate
| EStreamContext.

(** How a stream ends: it returns; the given events leave it waiting in its
    [select]; it waits for a lock that it holds itself; it panics. *)
Inductive stream_end :=
| Returned (e : option sync_error)
| Waiting
| SelfDeadlock
| StreamPanic.

(** What the update loop receives: an update, with the result of sending it;
    the closing of the channel; the end of the stream's context. *)
Inductive stream_event :=
| Update (u : option (option NetworkMap)) (sendOk : bool)
| UpdatesClosed
| StreamDone.

Definition cancelPeerRoutinesWithoutLock (peer : Peer) : list sync_call :=
  [CAccountDisconnected (pr_Key peer); CControllerDisconnected (pr_ID peer); CCancelRefresh (pr_ID peer)].

(** [cancelPeerRoutines] takes the peer lock, which is not reentrant: [held]
    says whether this stream holds it. *)
Definition cancelPeerRoutines (held : bool) (peer : Peer) (e : option sync_error)
    : list sync_call * stream_end :=
  if held then ([CLock (pr_Key peer)], SelfDeadlock)
  else (CLock (pr_Key peer) :: cancelPeerRoutinesWithoutLock peer ++ [CUnlock (pr_Key peer)], Returned e).

(** The calls of [tr], then those of the continuation. *)
Definition after (tr : list sync_call) (k : list sync_call * stream_end) : list sync_call * stream_end :=
  (tr ++ k.1, k.2).

(** The loop of [handleMachineUpdates]. *)
Fixpoint update_loop (peer : Peer) (events : list stream_event) : list sync_call * stream_end :=
  match events with
  | [] => ([], Waiting)
  | Update u sendOk :: events =>
      let machineResp := toMachineSyncResponse u 0 in
      if sendOk then after [CSend machineResp true] (update_loop peer events)
      else after [CSend machineResp false] (cancelPeerRoutines false peer (Some ESendUpdate))
  | UpdatesClosed :: _ => cancelPeerRoutines false peer None
  | StreamDone :: _ => cancelPeerRoutines false peer (Some EStreamContext)
  end.

(** [peer.Key[:8]] of the log lines. *)
Definition key_prefix (peer : Peer) : outcome unit bytes := go_slice (pr_Key peer) 0 8.

Definition handleMachineUpdates (peer : Peer) (events : list stream_event) : list sync_call * stream_end :=
  match key_prefix peer with
  | Ok _ => update_loop peer events
  | _ => ([], StreamPanic)
  end.

(** The results of the calls of one stream. *)
Record sync_env := mkSyncEnv {
  se_SyncAndMarkPeer : option (Peer * option NetworkMap);
  se_GetSettings : option bytes;
  se_GetPeerGroupIDs : option (list bytes);
  se_Send : bool;
  se_OnPeerConnected : bool;
  se_events : list stream_event;
}.

Section Sync.
Context (unicode_lower : bytes → bytes).
Context {St : Type} (be : Backend St).

(** The network map of the response [ToSyncResponse] builds (conversion.go), and
    the serial of a network map's [Network], if it has one. *)
Context (ToSyncResponse : Peer → option NetworkMap → bytes → list bytes → option NetworkMap).
Context (Network_Serial : NetworkMap → option Z).

(** [Ok] when the initial response was sent. *)
Definition sendInitialMachineSync (env : sync_env) (peer : Peer) (netMap : option NetworkMap)
    : list sync_call * outcome sync_error unit :=
  match se_GetSettings env with
  | None => ([], Err (EGrpc Internal))
  | Some dnsDomain =>
      match se_GetPeerGroupIDs env with
      | None => ([], Err (EGrpc Internal))
      | Some peerGroups =>
          let syncResp := ToSyncResponse peer netMap dnsDomain peerGroups in
          let serial := default 0 (netMap ≫= Network_Serial) in
          let machineResp := toMachineSyncResponse (Some syncResp) serial in
          if se_Send env then
            ([CSend machineResp true],
             match key_prefix peer with Ok _ => Ok tt | _ => Panic end)
          else ([CSend machineResp false], Err (EGrpc Internal))
      end
  end.

(** The deferred unlock runs on every return before [unlock = nil]. *)
Definition SyncMachinePeer (g : Globals) (st : St) (ctx : option Identity) (env : sync_env)
    : list sync_call * stream_end :=
  match ctx with
  | None => ([], Returned (Some (EGrpc Unauthenticated)))
  | Some identity =>
      match ValidateIssuerCA unicode_lower g (id_AccountID identity) (id_IssuerFingerprint identity) with
      | Panic => ([], StreamPanic)
      | Err _ => ([], Returned (Some (EGrpc PermissionDenied)))
      | Ok _ =>
          match findMachinePeer unicode_lower be st identity with
          | None => ([], Returned (Some (EGrpc NotFound)))
          | Some peer0 =>
              let key := pr_Key peer0 in
              match se_SyncAndMarkPeer env with
              | None =>
                  ([CLock key; CSyncAndMarkPeer key false; CUnlock key], Returned (Some (EGrpc Internal)))
              | Some (peer, netMap) =>
                  after [CLock key; CSyncAndMarkPeer key true]
                    (let '(tr, r) := sendInitialMachineSync env peer netMap in
                     match r with
                     | Panic => (tr, StreamPanic)
                     | Err e => (tr ++ [CUnlock key], Returned (Some e))
                     | Ok _ =>
                         after (tr ++ [COnPeerConnected (pr_ID peer) (se_OnPeerConnected env)])
                           (if se_OnPeerConnected env then
                              after [CSetupRefresh (pr_ID peer); CUnlock key]
                                (handleMachineUpdates peer (se_events env))
                            else
                              let '(tr, r) := cancelPeerRoutines (bool_decide (pr_Key peer = key)) peer
                                                (Some EOnPeerConnected) in
                              match r with
                              | Returned _ => (tr ++ [CUnlock key], r)
                              | _ => (tr, r)
                              end)
                     end)
              end
          end
      end
  end.
End Sync.

(** ** What a trace shows *)

(** The peer lock along a trace of one stream: [None] when it is taken while
    held or released while not held. *)
Fixpoint lock_run (held : bool) (tr : list sync_call) : option bool :=
  match tr with
  | [] => Some held
  | CLock _ :: tr => if held then None else lock_run true tr
  | CUnlock _ :: tr => if held then lock_run false tr else None
  | _ :: tr => lock_run held tr
  end.

Definition is_mark (c : sync_call) : bool := match c with CSyncAndMarkPeer _ true => true | _ => false end.

Definition is_disconnect (c : sync_call) : bool :=
  match c with CAccountDisconnected _ => true | _ => false end.

Definition is_cancel_refresh (c : sync_call) : bool :=
  match c with CCancelRefresh _ => true | _ => false end.

Definition count (f : sync_call → bool) (tr : list sync_call) : nat := length (List.filter f tr).

Lemma count_app f tr1 tr2 : count f (tr1 ++ tr2) = (count f tr1 + count f tr2)%nat.
Proof. unfold count. by rewrite List.filter_app, length_app. Qed.

Lemma lock_run_app held tr1 tr2 :
  lock_run held (tr1 ++ tr2) = h ← lock_run held tr1; lock_run h tr2.
Proof.
  revert held. induction tr1 as [|c tr1 IH]; intros held; [done|].
  destruct c; simpl; try apply IH; destruct held; simpl; (done || apply IH).
Qed.

(** The loop keeps the lock free and disconnects once, when it returns. *)
Lemma update_loop_spec peer events :
  let '(tr, r) := update_loop peer events in
  lock_run false tr = Some false ∧ count is_mark tr = 0%nat ∧
  match r with
  | Returned _ => count is_disconnect tr = 1%nat ∧ count is_cancel_refresh tr = 1%nat
  | Waiting => count is_disconnect tr = 0%nat ∧ count is_cancel_refresh tr = 0%nat
  | _ => False
  end.
Proof.
  induction events as [|[u []| |] events IH]; simpl; try done.
  destruct (update_loop peer events) as [tr r]. exact IH.
Qed.

Section Properties.
Context (unicode_lower : bytes → bytes).
Context {St : Type} (be : Backend St).
Context (ToSyncResponse : Peer → option NetworkMap → bytes → list bytes → option NetworkMap).
Context (Network_Serial : NetworkMap → option Z).

#[local] Abbreviation sync := (SyncMachinePeer unicode_lower be ToSyncResponse Network_Serial).

(** The caller is authorized: its issuer is accepted and its peer is found. *)
Definition authorized (g : Globals) (st : St) (ctx : option Identity) (peer0 : Peer) : Prop :=
  ∃ identity, ctx = Some identity ∧
    ValidateIssuerCA unicode_lower g (id_AccountID identity) (id_IssuerFingerprint identity) = Ok tt ∧
    findMachinePeer unicode_lower be st identity = Some peer0.

(** A stream makes no call at all unless the caller is authorized. *)
Lemma sync_guard g st ctx env :
  (∃ e, sync g st ctx env = ([], e)) ∨ ∃ peer0, authorized g st ctx peer0.
Proof.
  unfold SyncMachinePeer. destruct ctx as [identity|]; [|left; by eexists].
  destruct (ValidateIssuerCA _ _ _ _) as [[]|e|] eqn:Ev; [|left; by eexists..].
  destruct (findMachinePeer _ _ _ _) as [peer0|] eqn:Ef; [|left; by eexists].
  right. exists peer0, identity. done.
Qed.

Lemma sync_authorized g st ctx env peer0 peer netMap :
  authorized g st ctx peer0 → se_SyncAndMarkPeer env = Some (peer, netMap) →
  sync g st ctx env =
  after [CLock (pr_Key peer0); CSyncAndMarkPeer (pr_Key peer0) true]
    (let '(tr, r) := sendInitialMachineSync ToSyncResponse Network_Serial env peer netMap in
     match r with
     | Panic => (tr, StreamPanic)
     | Err e => (tr ++ [CUnlock (pr_Key peer0)], Returned (Some e))
     | Ok _ =>
         after (tr ++ [COnPeerConnected (pr_ID peer) (se_OnPeerConnected env)])
           (if se_OnPeerConnected env then
              after [CSetupRefresh (pr_ID peer); CUnlock (pr_Key peer0)]
                (handleMachineUpdates peer (se_events env))
            else
              let '(tr, r) := cancelPeerRoutines (bool_decide (pr_Key peer = pr_Key peer0)) peer
                                (Some EOnPeerConnected) in
              match r with
              | Returned _ => (tr ++ [CUnlock (pr_Key peer0)], r)
              | _ => (tr, r)
              end)
     end).
Proof. intros (identity & -> & Hv & Hf) Hs. unfold SyncMachinePeer. by rewrite Hv, Hf, Hs. Qed.

(** The initial response makes one send and touches neither lock nor status. *)
Lemma sendInitial_cases env peer netMap :
  let '(tr, r) := sendInitialMachineSync ToSyncResponse Network_Serial env peer netMap in
  (tr = [] ∨ ∃ m ok, tr = [CSend m ok]) ∧
  (r = Ok tt → ∃ m, tr = [CSend m true]) ∧
  ((8 ≤ length (pr_Key peer))%nat → r ≠ Panic).
Proof.
  unfold sendInitialMachineSync, key_prefix, go_slice.
  destruct (se_GetSettings env); [|naive_solver]. destruct (se_GetPeerGroupIDs env); [|naive_solver].
  destruct (se_Send env); [|naive_solver]. split_and!; [eauto..|].
  intros H. rewrite bool_decide_true by lia. done.
Qed.

(** the lifecycle of a sync stream whose initial response and registration
    for updates succeed.  The stream takes and releases the peer lock properly
    and does not hold it while it waits; when it returns, the peer it marked
    connected has been disconnected exactly once and its credential refresh
    cancelled exactly once; while it waits neither has happened; it never
    deadlocks or panics. *)
Theorem machine_sync_lifecycle g st ctx env peer0 peer netMap
  (Ha : authorized g st ctx peer0) (Hs : se_SyncAndMarkPeer env = Some (peer, netMap))
  (Hk : (8 ≤ length (pr_Key peer))%nat)
  (Hi : (sendInitialMachineSync ToSyncResponse Network_Serial env peer netMap).2 = Ok tt)
  (Hc : se_OnPeerConnected env = true) :
  let '(tr, r) := sync g st ctx env in
  lock_run false tr = Some false ∧ count is_mark tr = 1%nat ∧
  match r with
  | Returned _ => count is_disconnect tr = 1%nat ∧ count is_cancel_refresh tr = 1%nat
  | Waiting => count is_disconnect tr = 0%nat ∧ count is_cancel_refresh tr = 0%nat
  | _ => False
  end.
Proof.
  rewrite (sync_authorized g st ctx env peer0 peer netMap Ha Hs), Hc.
  pose proof (sendInitial_cases env peer netMap) as Hse.
  destruct (sendInitialMachineSync _ _ _ _ _) as [tr1 r1]. simpl in Hi. subst r1.
  destruct Hse as (_ & Hok & _). destruct (Hok eq_refl) as [m ->].
  unfold handleMachineUpdates, key_prefix, go_slice. rewrite bool_decide_true by lia.
  pose proof (update_loop_spec peer (se_events env)) as Hl.
  destruct (update_loop peer (se_events env)) as [tr r]. cbn. destruct Hl as (-> & Hm & Hr).
  split; [done|]. split; [|exact Hr]. unfold count in *. simpl. by rewrite Hm.
Qed.

(** the error paths of a sync stream after the peer was marked connected.
    When the initial response cannot be sent, the stream returns without
    disconnecting the peer.  When the registration for updates fails, the
    stream calls [cancelPeerRoutines], which waits for the peer lock the stream
    itself still holds: it never returns, the peer stays connected and its lock
    stays taken for every later stream of that peer. *)
Theorem machine_sync_error_paths g st ctx env peer0 peer netMap
  (Ha : authorized g st ctx peer0) (Hs : se_SyncAndMarkPeer env = Some (peer, netMap))
  (Hk : (8 ≤ length (pr_Key peer))%nat) (Hp : pr_Key peer = pr_Key peer0) :
  let '(tr, r) := sync g st ctx env in
  ((sendInitialMachineSync ToSyncResponse Network_Serial env peer netMap).2 ≠ Ok tt →
     (∃ e, r = Returned (Some e)) ∧ count is_mark tr = 1%nat ∧ count is_disconnect tr = 0%nat) ∧
  ((sendInitialMachineSync ToSyncResponse Network_Serial env peer netMap).2 = Ok tt →
   se_OnPeerConnected env = false →
     r = SelfDeadlock ∧ count is_mark tr = 1%nat ∧ count is_disconnect tr = 0%nat ∧
     ∃ tr', tr = tr' ++ [CLock (pr_Key peer0)] ∧ lock_run false tr' = Some true).
Proof.
  rewrite (sync_authorized g st ctx env peer0 peer netMap Ha Hs).
  pose proof (sendInitial_cases env peer netMap) as Hse.
  destruct (sendInitialMachineSync _ _ _ _ _) as [tr1 r1]. destruct Hse as (Htr & Hok & Hnp).
  destruct r1 as [[]|e|]; [|destruct Htr as [->|(m & ok & ->)]; naive_solver|by destruct (Hnp Hk)].
  destruct (Hok eq_refl) as [m ->]. split; [done|]. intros _ ->.
  rewrite bool_decide_true by done. cbn. rewrite Hp. split_and!; [done..|].
  by eexists [_; _; _; _].
Qed.
End Properties.

(** A registered machine: the peer of [MachineAuth]'s example identity. *)
Definition example_peer : Peer := mkPeer (str "p1") (str "AAAAAAAAAAAA") (str "100.64.0.1") (str "pc1").

Definition lookup_backend : Backend unit :=
  mkBackend unit (λ st _ _, (st, None)) (λ st _ _, (st, None)) (λ st _ _ _, (st, true))
    (λ _ _ _, Some (str "p1")) (λ _ _ _, Some example_peer) (λ _ _, None) (λ _ _ _, None).

Definition example_globals : Globals := mkGlobals (Some example_cfg) (Some example_vc).

Definition example_env (connected : bool) : sync_env :=
  mkSyncEnv (Some (example_peer, Some (mkNetworkMap [] [] 7))) (Some (str "netbird.cloud")) (Some []) true
    connected [Update (Some (Some (mkNetworkMap [] [] 8))) true; StreamDone].

Definition to_sync (_ : Peer) (nm : option NetworkMap) (_ : bytes) (_ : list bytes) : option NetworkMap := nm.

Lemma machine_sync_lifecycle_witness :
  let '(tr, r) := SyncMachinePeer (λ s, s) lookup_backend to_sync (λ m, Some (nm_Serial m)) example_globals tt
                    (Some example_identity) (example_env true) in
  lock_run false tr = Some false ∧ count is_mark tr = 1%nat ∧
  match r with
  | Returned _ => count is_disconnect tr = 1%nat ∧ count is_cancel_refresh tr = 1%nat
  | Waiting => count is_disconnect tr = 0%nat ∧ count is_cancel_refresh tr = 0%nat
  | _ => False
  end.
Proof.
  apply (machine_sync_lifecycle (λ s, s) lookup_backend to_sync (λ m, Some (nm_Serial m)) example_globals tt
    (Some example_identity) (example_env true) example_peer example_peer (Some (mkNetworkMap [] [] 7))).
  - exists example_identity. split; [reflexivity|]. split; vm_compute; reflexivity.
  - reflexivity.
  - apply Nat.leb_le. reflexivity.
  - vm_compute. reflexivity.
  - reflexivity.
Defined.

Lemma machine_sync_error_paths_witness :
  (SyncMachinePeer (λ s, s) lookup_backend to_sync (λ m, Some (nm_Serial m)) example_globals tt
     (Some example_identity) (example_env false)).2 = SelfDeadlock.
Proof.
  pose proof (machine_sync_error_paths (λ s, s) lookup_backend to_sync (λ m, Some (nm_Serial m))
    example_globals tt (Some example_identity) (example_env false) example_peer example_peer
    (Some (mkNetworkMap [] [] 7))) as H.
  destruct (SyncMachinePeer _ _ _ _ _ _ _ _) as [tr r] eqn:E.
  apply H.
  - exists example_identity. split; [reflexivity|]. split; vm_compute; reflexivity.
  - reflexivity.
  - apply Nat.leb_le. reflexivity.
  - reflexivity.
  - vm_compute. reflexivity.
  - reflexivity.
Defined.
