(* ===== verification/MachineReconnect.v ===== *)
(** * Reconnection of the machine tunnel

    [client/internal/tunnel/reconnect.go]: exponential backoff, the blocking
    [ConnectWithRetry] and the reconnect loop.  The loop is a goroutine that
    meets the exported methods only under the mutex and on channels, so the
    model is a transition system: one transition per critical section or
    channel operation, the connect function's result and the choice of a
    [select] being part of the label.  A stop channel is a number; Go evaluates
    the field [r.stopCh] when a [select] is entered.

    [float64] products are computed on dyadic rationals with rounding to 53
    bits, so [time.Duration(float64(current) * Multiplier)] is executable and
    exact.

    The theorems: the default configuration waits exactly min(2^k s, 5 min)
    before retry k; the blocking variant gives up exactly when the count of failures,
    which a call that gives up does not reset, reaches [MaxRetries]; [Stop] never closes a channel twice; a restart while the old loop
    is connecting leaves two loops running, and cancelling the context leaves
    the manager unable to start again. *)

From stdpp Require Import base list gmap.
From S2P Require Import Prelude GoStd.

(** ** float64 *)

(** A finite non-negative [float64]: [df_m * 2 ^ df_e]. *)
Record dyadic := mkDyadic { df_m : Z; df_e : Z }.

Definition bit_length (m : Z) : Z := if m =? 0 then 0 else Z.log2 m + 1.

(** Round to 53 significant bits, ties to even. *)
Definition round53 (d : dyadic) : dyadic :=
  let s := bit_length (df_m d) - 53 in
  if s <=? 0 then d
  else
    let q := Z.shiftr (df_m d) s in
    let r := df_m d mod 2 ^ s in
    let half := 2 ^ (s - 1) in
    mkDyadic (if (half <? r) || ((half =? r) && Z.odd q) then q + 1 else q) (df_e d + s).

Definition float_of_int (z : Z) : dyadic := round53 (mkDyadic z 0).

Definition float_mul (a b : dyadic) : dyadic := round53 (mkDyadic (df_m a * df_m b) (df_e a + df_e b)).

(** Conversion to [int64] truncates. *)
Definition int_of_float (d : dyadic) : Z :=
  i64 (if 0 <=? df_e d then Z.shiftl (df_m d) (df_e d) else Z.shiftr (df_m d) (- df_e d)).

(** ** Configuration *)

Definition DefaultInitialBackoff : Z := 1 * second.

Definition DefaultMaxBackoff : Z := 5 * minute.

Definition DefaultBackoffMultiplier : dyadic := mkDyadic 1 1.

Definition DefaultMaxRetries : Z := 0.

Record ReconnectConfig := mkReconnectConfig {
  InitialBackoff : Z;
  MaxBackoff : Z;
  Multiplier : dyadic;
  MaxRetries : Z;
  Jitter : bool;
}.

Definition DefaultReconnectConfig : ReconnectConfig :=
  mkReconnectConfig DefaultInitialBackoff DefaultMaxBackoff DefaultBackoffMultiplier DefaultMaxRetries true.

(** The defaults [NewReconnectManager] fills in. *)
Definition with_defaults (c : ReconnectConfig) : ReconnectConfig :=
  mkReconnectConfig
    (if InitialBackoff c =? 0 then DefaultInitialBackoff else InitialBackoff c)
    (if MaxBackoff c =? 0 then DefaultMaxBackoff else MaxBackoff c)
    (if df_m (Multiplier c) =? 0 then DefaultBackoffMultiplier else Multiplier c)
    (MaxRetries c) (Jitter c).

Definition calculateNextBackoff (c : ReconnectConfig) (current : Z) : Z :=
  let next := int_of_float (float_mul (float_of_int current) (Multiplier c)) in
  if MaxBackoff c <? next then MaxBackoff c else next.

(** ** The manager *)

(** Where a loop goroutine is: before the non-blocking select at the top,
    inside [connectFunc], or blocked in one of the two selects, which hold the
    stop channel they evaluated. *)
Inductive loop_pc :=
| AtTop
| Connecting
| WaitDisconnect (stopCh : nat)
| WaitBackoff (stopCh : nat) (backoff : Z).

Record ReconnectManager := mkManager {
  rm_config : ReconnectConfig;
  currentBackoff : Z;
  retryCount : Z;
  disconnectPending : bool;
  stopCh : nat;
  closedChs : list nat;
  running : bool;
  lastError : option Z;
  lastAttempt : Z;
  loops : list loop_pc;
}.

Definition NewReconnectManager (config : ReconnectConfig) : ReconnectManager :=
  let config := with_defaults config in
  mkManager config (InitialBackoff config) 0 false 0 [] false None 0 [].

Definition set_backoff (r : ReconnectManager) (b : Z) : ReconnectManager :=
  mkManager (rm_config r) b (retryCount r) (disconnectPending r) (stopCh r) (closedChs r) (running r)
    (lastError r) (lastAttempt r) (loops r).

Definition set_running (r : ReconnectManager) (b : bool) : ReconnectManager :=
  mkManager (rm_config r) (currentBackoff r) (retryCount r) (disconnectPending r) (stopCh r) (closedChs r) b
    (lastError r) (lastAttempt r) (loops r).

Definition set_loops (r : ReconnectManager) (l : list loop_pc) : ReconnectManager :=
  mkManager (rm_config r) (currentBackoff r) (retryCount r) (disconnectPending r) (stopCh r) (closedChs r)
    (running r) (lastError r) (lastAttempt r) l.

Definition set_pending (r : ReconnectManager) (b : bool) : ReconnectManager :=
  mkManager (rm_config r) (currentBackoff r) (retryCount r) b (stopCh r) (closedChs r) (running r)
    (lastError r) (lastAttempt r) (loops r).

Definition set_lastAttempt (r : ReconnectManager) (now : Z) : ReconnectManager :=
  mkManager (rm_config r) (currentBackoff r) (retryCount r) (disconnectPending r) (stopCh r) (closedChs r)
    (running r) (lastError r) now (loops r).

(** The critical section after a failed attempt. *)
Definition record_failure (r : ReconnectManager) (err : Z) : ReconnectManager :=
  mkManager (rm_config r) (currentBackoff r) (retryCount r + 1) (disconnectPending r) (stopCh r) (closedChs r)
    (running r) (Some err) (lastAttempt r) (loops r).

Definition ResetBackoff (r : ReconnectManager) : ReconnectManager :=
  mkManager (rm_config r) (InitialBackoff (rm_config r)) 0 (disconnectPending r) (stopCh r) (closedChs r)
    (running r) None (lastAttempt r) (loops r).

Inductive reconnect_error := EAlreadyRunning.

(** [Start]; the new channel gets a number not used before. *)
Definition Start (r : ReconnectManager) : outcome reconnect_error ReconnectManager :=
  if running r then Err EAlreadyRunning
  else Ok (mkManager (rm_config r) (currentBackoff r) (retryCount r) (disconnectPending r) (S (stopCh r))
             (closedChs r) true (lastError r) (lastAttempt r) (loops r ++ [AtTop])).

(** [Stop]; closing a closed channel panics. *)
Definition Stop (r : ReconnectManager) : outcome reconnect_error ReconnectManager :=
  if negb (running r) then Ok r
  else if bool_decide (stopCh r ∈ closedChs r) then Panic
  else Ok (mkManager (rm_config r) (currentBackoff r) (retryCount r) (disconnectPending r) (stopCh r)
             (stopCh r :: closedChs r) false (lastError r) (lastAttempt r) (loops r)).

Definition NotifyDisconnect (r : ReconnectManager) : ReconnectManager := set_pending r true.

Record ReconnectStats := mkStats {
  rs_RetryCount : Z;
  rs_CurrentBackoff : Z;
  rs_LastError : option Z;
  rs_LastAttempt : Z;
  rs_IsRunning : bool;
}.

Definition GetStats (r : ReconnectManager) : ReconnectStats :=
  mkStats (retryCount r) (currentBackoff r) (lastError r) (lastAttempt r) (running r).

Definition retries_exhausted (r : ReconnectManager) : bool :=
  (0 <? MaxRetries (rm_config r)) && (MaxRetries (rm_config r) <=? retryCount r).

(** ** The loop *)

Definition set_pc (r : ReconnectManager) (i : nat) (pc : loop_pc) : ReconnectManager :=
  set_loops r (<[i := pc]> (loops r)).

Definition exit_loop (r : ReconnectManager) (i : nat) : ReconnectManager :=
  set_loops r (delete i (loops r)).

(** The select at the top of the loop: leave on a closed stop channel or a
    done context, else record the attempt and connect. *)
Definition loop_top (ctxDone : bool) (now : Z) (r : ReconnectManager) (i : nat) : ReconnectManager :=
  if ctxDone || bool_decide (stopCh r ∈ closedChs r) then exit_loop r i
  else set_pc (set_lastAttempt r now) i Connecting.

(** [connectFunc] returns: success waits for a disconnect, failure counts and
    waits with backoff, or gives up. *)
Definition loop_connected (result : option Z) (r : ReconnectManager) (i : nat) : ReconnectManager :=
  match result with
  | None => set_pc (ResetBackoff r) i (WaitDisconnect (stopCh r))
  | Some err =>
      let backoff := currentBackoff r in
      let r := record_failure r err in
      if retries_exhausted r then exit_loop (set_running r false) i
      else set_pc r i (WaitBackoff (stopCh r) backoff)
  end.

Inductive label :=
| LStart
| LStop
| LNotify
| LReset
| LTop (i : nat) (ctxDone : bool) (now : Z)
| LConnected (i : nat) (result : option Z)
| LCtxDone (i : nat)
| LStopped (i : nat)
| LDisconnect (i : nat)
| LTimer (i : nat).

(** One transition: [None] when the label is not enabled. *)
Definition step (r : ReconnectManager) (l : label) : option (outcome reconnect_error ReconnectManager) :=
  match l with
  | LStart => Some (Start r)
  | LStop => Some (Stop r)
  | LNotify => Some (Ok (NotifyDisconnect r))
  | LReset => Some (Ok (ResetBackoff r))
  | LTop i ctxDone now =>
      match loops r !! i with Some AtTop => Some (Ok (loop_top ctxDone now r i)) | _ => None end
  | LConnected i result =>
      match loops r !! i with Some Connecting => Some (Ok (loop_connected result r i)) | _ => None end
  | LCtxDone i =>
      match loops r !! i with
      | Some (WaitDisconnect _) | Some (WaitBackoff _ _) => Some (Ok (exit_loop r i))
      | _ => None
      end
  | LStopped i =>
      match loops r !! i with
      | Some (WaitDisconnect ch) | Some (WaitBackoff ch _) =>
          if bool_decide (ch ∈ closedChs r) then Some (Ok (exit_loop r i)) else None
      | _ => None
      end
  | LDisconnect i =>
      match loops r !! i with
      | Some (WaitDisconnect _) =>
          if disconnectPending r then Some (Ok (set_pc (set_pending r false) i AtTop)) else None
      | _ => None
      end
  | LTimer i =>
      match loops r !! i with
      | Some (WaitBackoff _ _) =>
          Some (Ok (set_pc (set_backoff r (calculateNextBackoff (rm_config r) (currentBackoff r))) i AtTop))
      | _ => None
      end
  end.

(** A run; an error of [Start] leaves the manager unchanged. *)
Fixpoint run (r : ReconnectManager) (ls : list label) : outcome unit (option ReconnectManager) :=
  match ls with
  | [] => Ok (Some r)
  | l :: ls =>
      match step r l with
      | None => Ok None
      | Some (Ok r') => run r' ls
      | Some (Err _) => run r ls
      | Some Panic => Panic
      end
  end.

(** ** ConnectWithRetry *)

(** One turn of the loop: whether the context is done at the top, the time and
    result of [connectFunc], and whether the context ends the wait after a
    failure. *)
Record round := mkRound { rd_ctxDone : bool; rd_now : Z; rd_result : option Z; rd_waitDone : bool }.

Inductive connect_result := Connected | Cancelled | GaveUp (err : Z).

(** The value is the final manager, the waits made to their end, and the result;
    [None] when the rounds run out before the call returns. *)
Fixpoint ConnectWithRetry (r : ReconnectManager) (rounds : list round) : option (ReconnectManager * list Z * connect_result) :=
  match rounds with
  | [] => None
  | rd :: rounds =>
      if rd_ctxDone rd then Some (r, [], Cancelled)
      else
        let r := set_lastAttempt r (rd_now rd) in
        match rd_result rd with
        | None => Some (ResetBackoff r, [], Connected)
        | Some err =>
            let backoff := currentBackoff r in
            let r := record_failure r err in
            if retries_exhausted r then Some (r, [], GaveUp err)
            else if rd_waitDone rd then Some (r, [], Cancelled)
            else
              '(r', waits, res) ← ConnectWithRetry
                (set_backoff r (calculateNextBackoff (rm_config r) (currentBackoff r))) rounds;
              Some (r', backoff :: waits, res)
        end
  end.

(** ** Lemmas *)

Lemma round53_small m e : 0 ≤ m < 2 ^ 53 → round53 (mkDyadic m e) = mkDyadic m e.
Proof.
  intros Hm. unfold round53, bit_length. cbn [df_m].
  destruct (m =? 0) eqn:E; [done|].
  assert (Z.log2 m < 53) by (apply Z.log2_lt_pow2; lia).
  replace (Z.log2 m + 1 - 53 <=? 0) with true by lia. done.
Qed.

(** Doubling a duration of at most five minutes is exact. *)
Lemma default_next_backoff b :
  0 ≤ b ≤ DefaultMaxBackoff →
  calculateNextBackoff DefaultReconnectConfig b = Z.min (2 * b) DefaultMaxBackoff.
Proof.
  intros Hb. assert (DefaultMaxBackoff = 300000000000) as Hmax by reflexivity. rewrite Hmax in *.
  unfold calculateNextBackoff, float_of_int, float_mul. cbn [Multiplier DefaultReconnectConfig MaxBackoff].
  rewrite (round53_small b 0) by lia. cbn [df_m df_e DefaultBackoffMultiplier].
  rewrite round53_small by lia. unfold int_of_float. cbn [df_m df_e].
  replace (0 <=? 0 + 1) with true by done. rewrite Z.shiftl_mul_pow2 by lia.
  unfold i64. rewrite swrap_small by lia. rewrite Hmax.
  destruct (300000000000 <? _) eqn:E; lia.
Qed.

(** Retry [i] of the default configuration waits this long. *)
Definition default_wait (i : nat) : Z := Z.min (2 ^ Z.of_nat i * second) DefaultMaxBackoff.

Lemma default_wait_S i : default_wait (S i) = Z.min (2 * default_wait i) DefaultMaxBackoff.
Proof.
  unfold default_wait. replace (Z.of_nat (S i)) with (Z.succ (Z.of_nat i)) by lia.
  rewrite Z.pow_succ_r by lia. assert (DefaultMaxBackoff = 300000000000) as -> by reflexivity. lia.
Qed.

Lemma default_wait_range i : 0 ≤ default_wait i ≤ DefaultMaxBackoff.
Proof.
  unfold default_wait. assert (0 < 2 ^ Z.of_nat i) by (apply Z.pow_pos_nonneg; lia).
  assert (DefaultMaxBackoff = 300000000000) as -> by reflexivity.
  assert (second = 1000000000) as -> by reflexivity. lia.
Qed.

(** The manager after a failed attempt and its wait. *)
Definition after_failure (r : ReconnectManager) (t e : Z) : ReconnectManager :=
  set_backoff (record_failure (set_lastAttempt r t) e) (calculateNextBackoff (rm_config r) (currentBackoff r)).

(** A turn that is not cancelled: the time and the result. *)
Definition turn (now : Z) (result : option Z) : round := mkRound false now result false.

Lemma connect_fail r t e rounds :
  (0 <? MaxRetries (rm_config r)) && (MaxRetries (rm_config r) <=? retryCount r + 1) = false →
  ConnectWithRetry r (turn t (Some e) :: rounds) =
    '(r', waits, res) ← ConnectWithRetry (after_failure r t e) rounds;
    Some (r', currentBackoff r :: waits, res).
Proof. intros H. simpl. unfold retries_exhausted. cbn [record_failure set_lastAttempt rm_config retryCount]. by rewrite H. Qed.

Lemma default_retry_waits r i fails now :
  rm_config r = DefaultReconnectConfig → currentBackoff r = default_wait i →
  ∃ r', ConnectWithRetry r (map (λ te, turn te.1 (Some te.2)) fails ++ [turn now None])
        = Some (r', default_wait <$> seq i (length fails), Connected) ∧ currentBackoff r' = DefaultInitialBackoff.
Proof.
  revert r i. induction fails as [|[t e] fails IH]; intros r i Hc Hb.
  { eexists. split; [done|]. simpl. by rewrite Hc. }
  cbn [map app fst snd]. rewrite connect_fail by (by rewrite Hc).
  destruct (IH (after_failure r t e) (S i)) as (r' & -> & Hr).
  - done.
  - cbn. rewrite Hc, Hb, default_next_backoff by apply default_wait_range. by rewrite default_wait_S.
  - exists r'. split; [|done]. cbn [mbind option_bind]. by rewrite Hb.
Qed.

(** The failures that are left before a call gives up; there is always one attempt. *)
Definition attempts_left (r : ReconnectManager) : nat := Z.to_nat (Z.max 1 (MaxRetries (rm_config r) - retryCount r)).

Definition fails_with (rd : round) (err : Z) : Prop := rd_ctxDone rd = false ∧ rd_result rd = Some err.

(** What a call returns: it gives up at the last of the attempts left, if all fail
    and no wait between them is cancelled. *)
Definition returns_well (r : ReconnectManager) (rounds : list round) (r' : ReconnectManager) (waits : list Z)
    (res : connect_result) : Prop :=
  (length waits < attempts_left r)%nat ∧
  (∀ i rd, (i < length waits)%nat → rounds !! i = Some rd → rd_waitDone rd = false ∧ ∃ err, fails_with rd err) ∧
  ∃ rd, rounds !! length waits = Some rd ∧
    match res with
    | Connected => rd_ctxDone rd = false ∧ rd_result rd = None ∧ retryCount r' = 0
    | Cancelled => rd_ctxDone rd = true ∨ (rd_waitDone rd = true ∧ ∃ err, fails_with rd err)
    | GaveUp err => S (length waits) = attempts_left r ∧ fails_with rd err ∧
        retryCount r' = retryCount r + Z.of_nat (attempts_left r) ∧ lastError r' = Some err
    end.

Lemma exhausted_last r t err :
  0 < MaxRetries (rm_config r) →
  if retries_exhausted (record_failure (set_lastAttempt r t) err) then attempts_left r = 1%nat
  else attempts_left r = S (attempts_left (after_failure r t err)).
Proof.
  intros Hm. unfold retries_exhausted, attempts_left, after_failure.
  cbn [record_failure set_lastAttempt set_backoff rm_config retryCount]. destruct (_ && _) eqn:E; lia.
Qed.

Lemma retry_returns r rounds :
  0 < MaxRetries (rm_config r) →
  match ConnectWithRetry r rounds with
  | Some (r', waits, res) => returns_well r rounds r' waits res
  | None => (length rounds < attempts_left r)%nat
  end.
Proof.
  revert r. induction rounds as [|rd rounds IH]; intros r Hm; cbn [ConnectWithRetry].
  { unfold attempts_left. cbn [length]. lia. }
  assert (H1 : (0 < attempts_left r)%nat) by (unfold attempts_left; lia).
  destruct rd as [done_ now [err|] wait]; cbn [rd_ctxDone rd_now rd_result rd_waitDone]; destruct done_.
  1, 3: split; [done|]; split; [simpl; lia|]; eexists; split; [done|]; by left.
  2: { split; [done|]. split; [simpl; lia|]. eexists. by split. }
  pose proof (exhausted_last r now err Hm) as He. destruct (retries_exhausted _).
  { split; [done|]. split; [simpl; lia|]. eexists. split; [done|]. cbn [length record_failure retryCount lastError set_lastAttempt].
    rewrite He. by split_and!. }
  destruct wait; [split; [done|]; split; [simpl; lia|]; eexists; split; [done|]; right; split; [done|]; by exists err|].
  specialize (IH (after_failure r now err) Hm). unfold after_failure at 1 in IH.
  change (set_backoff _ _) with (after_failure r now err) in *.
  destruct (ConnectWithRetry _ rounds) as [[[r' waits] res]|]; cbn [mbind option_bind]; [|cbn [length]; lia].
  destruct IH as (IH1 & IH2 & rd & Hrd & IH3). split; [cbn [length]; lia|]. split.
  - intros [|i] rd' Hi; cbn [lookup list_lookup length] in *; [intros [= <-]; split; [done|by exists err]|].
    apply IH2. lia.
  - exists rd. split; [done|]. destruct res; [done|done|]. cbn [length]. destruct IH3 as (E1 & E2 & E3 & E4).
    split_and!; [lia|done| |done]. rewrite E3, He. change (retryCount (after_failure r now err)) with (retryCount r + 1). lia.
Qed.

Lemma retry_config r rounds :
  match ConnectWithRetry r rounds with Some (r', _, _) => rm_config r' = rm_config r | None => True end.
Proof.
  revert r. induction rounds as [|[[] now [err|] wait] rounds IH]; intros r; cbn; try done.
  destruct (retries_exhausted _); [done|]. destruct wait; [done|].
  specialize (IH (after_failure r now err)). change (set_backoff _ _) with (after_failure r now err).
  by destruct (ConnectWithRetry _ rounds) as [[[]]|].
Qed.

(** The channel [Stop] would close is open, and channel numbers are fresh. *)
Definition stop_ok (r : ReconnectManager) : Prop :=
  (running r = true → stopCh r ∉ closedChs r) ∧ Forall (λ ch, (ch ≤ stopCh r)%nat) (closedChs r).

(** Updates of the other fields, possibly clearing [running]. *)
Lemma stop_ok_frame r r' :
  stopCh r' = stopCh r → closedChs r' = closedChs r → (running r' = true → running r = true) →
  stop_ok r → stop_ok r'.
Proof. intros E1 E2 E3 [H1 H2]. unfold stop_ok. rewrite E1, E2. auto. Qed.

Lemma stop_ok_step r l o :
  stop_ok r → step r l = Some o → o ≠ Panic ∧ ∀ r', o = Ok r' → stop_ok r'.
Proof.
  intros Hok. assert (∀ r1, stopCh r1 = stopCh r → closedChs r1 = closedChs r →
    (running r1 = true → running r = true) →
    Some (Ok r1) = Some o → o ≠ Panic ∧ ∀ r', o = Ok r' → stop_ok r') as Hfr.
  { intros r1 E1 E2 E3 [= <-]. split; [done|]. intros r' [= <-]. by eapply stop_ok_frame. }
  destruct l as [| | | |i d now|i res|i|i|i|i]; simpl.
  - unfold Start. destruct (running r) eqn:Er; intros [= <-]; (split; [done|]); intros r' [= <-].
    destruct Hok as [_ H2]. split; simpl.
    + intros _ Hin. rewrite Forall_forall in H2. apply H2 in Hin. lia.
    + eapply Forall_impl; [exact H2|]. simpl. lia.
  - unfold Stop. destruct (running r) eqn:Er; simpl; [|by apply Hfr; rewrite ?Er].
    destruct Hok as [H1 H2]. rewrite bool_decide_false by auto. intros [= <-]. split; [done|].
    intros r' [= <-]. split; simpl; [done|]. constructor; [lia|done].
  - by apply Hfr.
  - by apply Hfr.
  - destruct (loops r !! i) as [[]|]; try done. unfold loop_top. destruct (d || _); by apply Hfr.
  - destruct (loops r !! i) as [[]|]; try done. unfold loop_connected.
    destruct res as [err|]; [|by apply Hfr]. destruct (retries_exhausted _); by apply Hfr.
  - destruct (loops r !! i) as [[]|]; try done; by apply Hfr.
  - destruct (loops r !! i) as [[]|]; try done; case_bool_decide; try done; by apply Hfr.
  - destruct (loops r !! i) as [[]|]; try done. destruct (disconnectPending r); [|done]. by apply Hfr.
  - destruct (loops r !! i) as [[]|]; try done. by apply Hfr.
Qed.

Lemma stop_ok_run r ls : stop_ok r → no_panic (run r ls).
Proof.
  revert r. induction ls as [|l ls IH]; intros r Hok; simpl; [done|].
  destruct (step r l) as [o|] eqn:E; [|done].
  destruct (stop_ok_step r l o Hok E) as [Hp Hr]. destruct o as [r'| |]; [|by apply IH|done].
  apply IH. by apply Hr.
Qed.

(** ** Properties *)

(** with the default configuration, [ConnectWithRetry] that succeeds after
    [k] failures has waited exactly min(2^i s, 5 min) after failure [i], and
    its backoff is reset to one second. *)
Theorem default_backoff_exact fails now :
  ∃ r', ConnectWithRetry (NewReconnectManager DefaultReconnectConfig)
          (map (λ te, turn te.1 (Some te.2)) fails ++ [turn now None])
        = Some (r', (λ i, Z.min (2 ^ Z.of_nat i * second) (5 * minute)) <$> seq 0 (length fails), Connected) ∧
    currentBackoff r' = 1 * second.
Proof. by apply (default_retry_waits _ 0). Qed.

(** C39: with a retry limit, [ConnectWithRetry] returns after at most the attempts
    that are left, which are [MaxRetries] for a new manager and always at least
    one; it gives up with the last error exactly at the last of them, when they
    have all failed, having waited between them only, and earlier only connects or
    is cancelled.  A call that gives up leaves the count as it is: the next one
    gives up at its first failure. *)
Theorem connect_gives_up_after_max_retries r rounds :
  0 < MaxRetries (rm_config r) →
  attempts_left (NewReconnectManager (rm_config r)) = Z.to_nat (MaxRetries (rm_config r)) ∧
  ((attempts_left r ≤ length rounds)%nat →
     ∃ r' waits res, ConnectWithRetry r rounds = Some (r', waits, res)) ∧
  (∀ r' waits res, ConnectWithRetry r rounds = Some (r', waits, res) →
     returns_well r rounds r' waits res ∧ ∀ err, res = GaveUp err → attempts_left r' = 1%nat).
Proof.
  intros Hm. pose proof (retry_returns r rounds Hm) as Hr. pose proof (retry_config r rounds) as Hc.
  split; [unfold attempts_left; cbn; lia|]. split.
  - intros Hl. destruct (ConnectWithRetry r rounds) as [[[r' waits] res]|]; [by eauto|lia].
  - intros r' waits res E. rewrite E in Hr, Hc. split; [done|]. intros err ->.
    destruct Hr as (_ & _ & rd & _ & _ & _ & Hcount & _). unfold attempts_left in *. rewrite Hc. lia.
Qed.

(** The first attempt fails, the second too. *)
Lemma connect_gives_up_after_max_retries_witness :
  let r := NewReconnectManager (mkReconnectConfig 0 0 (mkDyadic 0 0) 2 true) in
  ∃ r' waits, ConnectWithRetry r [turn 1 (Some 7); turn 2 (Some 8)] = Some (r', waits, GaveUp 8) ∧
    returns_well r [turn 1 (Some 7); turn 2 (Some 8)] r' waits (GaveUp 8).
Proof.
  intros r. destruct (connect_gives_up_after_max_retries r [turn 1 (Some 7); turn 2 (Some 8)]) as (_ & _ & Hr); [done|].
  eexists _, _. split; [vm_compute; reflexivity|]. apply (Hr _ _ (GaveUp 8)). vm_compute. reflexivity.
Defined.

(** whatever the interleaving of [Start], [Stop], disconnect signals and
    loop steps, [Stop] never closes a stop channel twice, so it never
    panics. *)
Theorem reconnect_stop_never_panics c ls : no_panic (run (NewReconnectManager c) ls).
Proof. apply stop_ok_run. split; simpl; [done|constructor]. Qed.

(** two defects of restarting.  A [Stop] followed by a [Start] while the
    old loop is inside [connectFunc] leaves two loops that both wait on the new
    stop channel; and after the loop ended because its context was cancelled,
    the manager still counts as running, so [Start] is refused with no loop
    left. *)
Theorem reconnect_restart_defects :
  (∃ r, run (NewReconnectManager DefaultReconnectConfig)
          [LStart; LTop 0 false 1; LStop; LStart; LConnected 0 None; LTop 1 false 2; LConnected 1 None] = Ok (Some r) ∧
     loops r = [WaitDisconnect 2; WaitDisconnect 2] ∧ closedChs r = [1%nat]) ∧
  (∃ r, run (NewReconnectManager DefaultReconnectConfig) [LStart; LTop 0 true 1] = Ok (Some r) ∧
     loops r = [] ∧ Start r = Err EAlreadyRunning).
Proof. split; eexists; (split; [vm_compute; reflexivity|]); split; reflexivity. Qed.
