(* ===== verification/MachineHealth.v ===== *)
(** * Health checks of the machine tunnel

    [client/internal/tunnel/health.go].  The three configurable checks are
    arguments of a check: [None] is a checker that is not set, otherwise its
    result.  Errors are numbers.  The theorems: what status a check yields on
    every combination of results, when the unhealthy callback fires, and the
    counts of the detailed status. *)

From stdpp Require Import base list gmap strings.
From S2P Require Import Prelude GoStd.

#[local] Open Scope go_scope.

Definition DefaultHealthCheckInterval : Z := 30 * second.

Definition DefaultHandshakeTimeout : Z := 2 * minute.

Definition DefaultGRPCPingTimeout : Z := 10 * second.

Definition DefaultConsecutiveFailures : Z := 3.

Inductive HealthStatus :=
| HealthStatusUnknown
| HealthStatusHealthy
| HealthStatusDegraded
| HealthStatusUnhealthy.

#[global] Instance HealthStatus_eq_dec : EqDecision HealthStatus.
Proof. solve_decision. Defined.

Definition HealthStatus_String (s : HealthStatus) : string :=
  match s with
  | HealthStatusUnknown => "unknown"
  | HealthStatusHealthy => "healthy"
  | HealthStatusDegraded => "degraded"
  | HealthStatusUnhealthy => "unhealthy"
  end.

Record HealthCheckConfig := mkHealthConfig {
  Interval : Z;
  HandshakeTimeout : Z;
  GRPCPingTimeout : Z;
  ConsecutiveFailures : Z;
}.

Definition DefaultHealthCheckConfig : HealthCheckConfig :=
  mkHealthConfig DefaultHealthCheckInterval DefaultHandshakeTimeout DefaultGRPCPingTimeout
    DefaultConsecutiveFailures.

(** The entries of [CheckDetails]. *)
Inductive detail := DError (e : Z) | DDown | DUp | DAlive | DStale (age : Z) | DOk (age : Z) | DNotConfigured.

Record HealthCheckResult := mkResult {
  hr_Status : HealthStatus;
  hr_Timestamp : Z;
  hr_InterfaceUp : bool;
  hr_GRPCAlive : bool;
  hr_HandshakeOK : bool;
  hr_LastError : option Z;
  hr_interface : detail;
  hr_grpc : detail;
  hr_handshake : detail;
}.

(** What the checkers return: [up] and an error; an error; a time or an
    error. *)
Record Checks := mkChecks {
  interfaceChecker : option (bool * option Z);
  grpcChecker : option (option Z);
  handshakeChecker : option (Z + Z);
}.

Record HealthChecker := mkChecker {
  hc_config : HealthCheckConfig;
  consecutiveFailures : Z;
  lastResult : option HealthCheckResult;
  degradedReason : string;
  currentState : string;
  hc_running : bool;
}.

Definition health_defaults (c : HealthCheckConfig) : HealthCheckConfig :=
  mkHealthConfig
    (if Interval c =? 0 then DefaultHealthCheckInterval else Interval c)
    (if HandshakeTimeout c =? 0 then DefaultHandshakeTimeout else HandshakeTimeout c)
    (if GRPCPingTimeout c =? 0 then DefaultGRPCPingTimeout else GRPCPingTimeout c)
    (if ConsecutiveFailures c =? 0 then DefaultConsecutiveFailures else ConsecutiveFailures c).

Definition NewHealthChecker (config : HealthCheckConfig) : HealthChecker :=
  mkChecker (health_defaults config) 0 None "" "" false.

Definition set_lastResult (h : HealthChecker) (r : HealthCheckResult) : HealthChecker :=
  mkChecker (hc_config h) (consecutiveFailures h) (Some r) (degradedReason h) (currentState h) (hc_running h).

Definition set_failures (h : HealthChecker) (n : Z) : HealthChecker :=
  mkChecker (hc_config h) n (lastResult h) (degradedReason h) (currentState h) (hc_running h).

(** [SetDegraded]; the second component tells whether the change is logged. *)
Definition SetDegraded (h : HealthChecker) (reason : string) : HealthChecker * bool :=
  (mkChecker (hc_config h) (consecutiveFailures h) (lastResult h) reason "degraded" (hc_running h),
   bool_decide (currentState h ≠ "degraded"%string)).

(** Only a healthy status is lowered to degraded. *)
Definition degrade (s : HealthStatus) : HealthStatus :=
  if bool_decide (s = HealthStatusHealthy) then HealthStatusDegraded else s.

(** The body of [Check], up to the deferred store of the result. *)
Definition Check_result (now : Z) (c : HealthCheckConfig) (k : Checks) : HealthCheckResult :=
  let '(up, status, err, d1) :=
    match interfaceChecker k with
    | Some (up, Some e) => (up, HealthStatusUnhealthy, Some e, DError e)
    | Some (false, None) => (false, HealthStatusUnhealthy, None, DDown)
    | Some (true, None) => (true, HealthStatusHealthy, None, DUp)
    | None => (true, HealthStatusHealthy, None, DNotConfigured)
    end in
  let '(alive, status, err, d2) :=
    match grpcChecker k with
    | Some (Some e) => (false, degrade status, Some e, DError e)
    | Some None => (true, status, err, DAlive)
    | None => (true, status, err, DNotConfigured)
    end in
  let '(hok, status, d3) :=
    match handshakeChecker k with
    | Some (inl e) => (false, status, DError e)
    | Some (inr lastHandshake) =>
        let age := now - lastHandshake in
        if age <? HandshakeTimeout c then (true, status, DOk age) else (false, degrade status, DStale age)
    | None => (true, status, DNotConfigured)
    end in
  mkResult status now up alive hok err d1 d2 d3.

Definition Check (now : Z) (k : Checks) (h : HealthChecker) : HealthChecker * HealthCheckResult :=
  let r := Check_result now (hc_config h) k in (set_lastResult h r, r).

Definition GetLastResult (h : HealthChecker) : option HealthCheckResult := lastResult h.

Definition GetStatus (h : HealthChecker) : HealthStatus :=
  match lastResult h with None => HealthStatusUnknown | Some r => hr_Status r end.

(** [performCheck]; the second component tells whether [onUnhealthy] is
    called. *)
Definition performCheck (now : Z) (k : Checks) (h : HealthChecker) : HealthChecker * bool :=
  let '(h, result) := Check now k h in
  let h := set_lastResult h result in
  if bool_decide (hr_Status result = HealthStatusUnhealthy) then
    let h := set_failures h (consecutiveFailures h + 1) in
    (h, ConsecutiveFailures (hc_config h) <=? consecutiveFailures h)
  else (set_failures h 0, false).

(** The loop of [healthCheckLoop]: the initial check and one per tick. *)
Fixpoint check_loop (h : HealthChecker) (ticks : list (Z * Checks)) : HealthChecker * list bool :=
  match ticks with
  | [] => (h, [])
  | (now, k) :: ticks =>
      let '(h, fired) := performCheck now k h in
      let '(h, rest) := check_loop h ticks in
      (h, fired :: rest)
  end.

Inductive start_error := EHealthRunning.

Definition set_hrunning (h : HealthChecker) (b : bool) : HealthChecker :=
  mkChecker (hc_config h) (consecutiveFailures h) (lastResult h) (degradedReason h) (currentState h) b.

Definition Health_Start (h : HealthChecker) : outcome start_error HealthChecker :=
  if hc_running h then Err EHealthRunning else Ok (set_hrunning h true).

Definition Health_Stop (h : HealthChecker) : HealthChecker :=
  if hc_running h then set_hrunning h false else h.

(** ** Detailed status *)

Record PeerHealth := mkPeerHealth {
  ph_PeerKey : bytes;
  ph_Connected : bool;
  ph_UseRelay : bool;
  ph_LastSeen : Z;
  ph_FailReason : string;
}.

(** The peer state the recorder returns. *)
Record PeerState := mkPeerState {
  ps_Connected : bool;
  ps_ConnStatus : string;
  ps_Relayed : bool;
  ps_LastWireguardHandshake : Z;
}.

Record Health := mkHealth {
  he_State : string;
  he_PeerCount : Z;
  he_Connected : Z;
  he_Degraded : Z;
  he_Peers : list PeerHealth;
}.

(** One peer of the loop; a missing peer has an error with message [msg]. *)
Definition peer_health (msg : string) (GetPeer : bytes → option PeerState) (key : bytes)
    : outcome unit PeerHealth :=
  let! prefix := go_slice key 0 8 in
  let short := prefix ++ string_to_bytes "..." in
  match GetPeer key with
  | None => Ok (mkPeerHealth short false false 0 msg)
  | Some st =>
      Ok (mkPeerHealth short (ps_Connected st) (ps_Relayed st) (ps_LastWireguardHandshake st)
            (if ps_Connected st then "" else ps_ConnStatus st))
  end.

Fixpoint peers_health (msg : string) (GetPeer : bytes → option PeerState) (keys : list bytes)
    : outcome unit (list PeerHealth) :=
  match keys with
  | [] => Ok []
  | k :: keys =>
      let! p := peer_health msg GetPeer k in
      let! ps := peers_health msg GetPeer keys in
      Ok (p :: ps)
  end.

(** [GetDetailedStatus]; [None] is a recorder that is not set. *)
Definition GetDetailedStatus (msg : string) (statusRecorder : option (bytes → option PeerState))
    (peerKeys : list bytes) : outcome unit Health :=
  match statusRecorder with
  | None => Ok (mkHealth "unknown" 0 0 0 [])
  | Some GetPeer =>
      if bool_decide (length peerKeys = 0%nat) then Ok (mkHealth "unknown" 0 0 0 [])
      else
        let! peers := peers_health msg GetPeer peerKeys in
        let count := Z.of_nat (length peerKeys) in
        let connected := Z.of_nat (length (filter (λ p, ph_Connected p = true) peers)) in
        let degraded := Z.of_nat (length (filter (λ p, ph_Connected p = false) peers)) in
        let state :=
          if (connected =? count) && (0 <? count) then "healthy"%string
          else if 0 <? connected then "degraded"%string
          else if 0 <? count then "failed"%string
          else "unknown"%string in
        Ok (mkHealth state count connected degraded peers)
  end.

(** ** Lemmas *)

(** The number of unhealthy checks at the end of a list of statuses. *)
Fixpoint trailing_unhealthy (acc : Z) (ss : list HealthStatus) : Z :=
  match ss with
  | [] => acc
  | s :: ss => trailing_unhealthy (if bool_decide (s = HealthStatusUnhealthy) then acc + 1 else 0) ss
  end.

Lemma trailing_unhealthy_app acc ss s :
  trailing_unhealthy acc (ss ++ [s]) =
  if bool_decide (s = HealthStatusUnhealthy) then trailing_unhealthy acc ss + 1 else 0.
Proof. revert acc. induction ss as [|s' ss IH]; intros acc; simpl; [done|]. apply IH. Qed.

Lemma trailing_unhealthy_nonneg acc ss : 0 ≤ acc → 0 ≤ trailing_unhealthy acc ss.
Proof. revert acc. induction ss as [|s ss IH]; intros acc Ha; simpl; [done|]. apply IH. case_bool_decide; lia. Qed.

(** The count reaches [n] exactly when the last [n] checks were unhealthy. *)
Lemma trailing_unhealthy_ge n ss :
  Z.of_nat n ≤ trailing_unhealthy 0 ss ↔
  ∃ pre, ss = pre ++ replicate n HealthStatusUnhealthy.
Proof.
  revert n. induction ss as [|s ss IH] using rev_ind; intros n.
  { simpl. split.
    - intros Hn. assert (n = 0%nat) as -> by lia. by exists [].
    - intros [pre Hp]. symmetry in Hp. apply app_eq_nil in Hp as [_ Hp]. destruct n; [lia|done]. }
  rewrite trailing_unhealthy_app. destruct n as [|n].
  { split; [|].
    - intros _. exists (ss ++ [s]). by rewrite app_nil_r.
    - intros _. pose proof (trailing_unhealthy_nonneg 0 ss). case_bool_decide; lia. }
  rewrite replicate_S_end. case_bool_decide as E.
  - subst s. split.
    + intros Hn. destruct (proj1 (IH n)) as [pre ->]; [lia|]. exists pre. by rewrite app_assoc.
    + intros [pre Hp]. rewrite app_assoc in Hp. apply app_inj_tail in Hp as [-> _].
      assert (Z.of_nat n ≤ trailing_unhealthy 0 (pre ++ replicate n HealthStatusUnhealthy)); [|lia].
      apply IH. by exists pre.
  - split; [lia|]. intros [pre Hp]. rewrite app_assoc in Hp. apply app_inj_tail in Hp as [_ ?]. done.
Qed.

(** The statuses the ticks yield. *)
Definition statuses (c : HealthCheckConfig) (ticks : list (Z * Checks)) : list HealthStatus :=
  (λ nk, hr_Status (Check_result nk.1 c nk.2)) <$> ticks.

Lemma performCheck_spec now k h :
  let s := hr_Status (Check_result now (hc_config h) k) in
  let n := if bool_decide (s = HealthStatusUnhealthy) then consecutiveFailures h + 1 else 0 in
  ∃ h', performCheck now k h = (h', bool_decide (s = HealthStatusUnhealthy) && (ConsecutiveFailures (hc_config h) <=? n)) ∧
    hc_config h' = hc_config h ∧ consecutiveFailures h' = n ∧ GetStatus h' = s.
Proof. simpl. unfold performCheck, Check. case_bool_decide; eexists; split; done. Qed.

Lemma check_loop_spec h ticks h' fired :
  0 < ConsecutiveFailures (hc_config h) →
  check_loop h ticks = (h', fired) →
  fired = (λ i, ConsecutiveFailures (hc_config h) <=?
             trailing_unhealthy (consecutiveFailures h) (take (S i) (statuses (hc_config h) ticks)))
          <$> seq 0 (length ticks).
Proof.
  intros HN. revert h HN h' fired. induction ticks as [|[now k] ticks IH]; intros h HN h' fired.
  { by intros [= <- <-]. }
  cbn [check_loop]. destruct (performCheck_spec now k h) as (h1 & -> & Hc & Hn & _).
  destruct (check_loop h1 ticks) as [h2 rest] eqn:E. intros [= <- <-].
  rewrite <-Hc in HN. specialize (IH h1 HN _ _ E) as ->. cbn [length seq fmap list_fmap]. f_equal.
  - cbn. rewrite take_0. simpl. rewrite Hc in HN. case_bool_decide; simpl; [done|]. lia.
  - rewrite <-seq_shift, <-list_fmap_compose. apply list_fmap_ext. intros _ i _. simpl.
    rewrite Hc, Hn. done.
Qed.

Lemma peers_health_length msg gp keys ps : peers_health msg gp keys = Ok ps → length ps = length keys.
Proof.
  revert ps. induction keys as [|k keys IH]; intros ps; simpl; [intros; by inv_ok|].
  destruct (peer_health msg gp k) as [p| |]; simpl; [|done..].
  destruct (peers_health msg gp keys) as [ps'| |]; simpl; [|done..]. intros; inv_ok. simpl. f_equal. auto.
Qed.

(** ** Properties *)

(** the callback that triggers a reconnect fires at tick [i] exactly when
    the last [ConsecutiveFailures] checks up to it were all unhealthy. *)
Theorem health_callback_iff config ticks h' fired i :
  0 < ConsecutiveFailures (health_defaults config) →
  check_loop (NewHealthChecker config) ticks = (h', fired) →
  fired !! i = Some true ↔
  (i < length ticks)%nat ∧
  ∃ pre, take (S i) (statuses (health_defaults config) ticks) =
    pre ++ replicate (Z.to_nat (ConsecutiveFailures (health_defaults config))) HealthStatusUnhealthy.
Proof.
  intros HN Hl. apply check_loop_spec in Hl as ->; [|done]. cbn [hc_config consecutiveFailures NewHealthChecker].
  revert HN. generalize (health_defaults config) as c. intros c HN.
  rewrite <-trailing_unhealthy_ge, Z2Nat.id by lia.
  rewrite list_lookup_fmap. split.
  - intros H. destruct (seq 0 (length ticks) !! i) as [j|] eqn:E; [|done].
    apply lookup_seq in E as [-> Hi]. cbn [fmap option_fmap option_map Nat.add] in H. injection H as H.
    split; [done|lia].
  - intros [Hi Hn]. rewrite lookup_seq_lt by done. cbn [fmap option_fmap option_map Nat.add]. f_equal. lia.
Qed.

(** Three unhealthy checks in a row with the default threshold. *)
Definition down : Checks := mkChecks (Some (false, None)) None None.

Lemma health_callback_iff_witness :
  [false; false; true] !! 2%nat = Some true ↔
  (2 < 3)%nat ∧
  ∃ pre, take 3 (statuses (health_defaults DefaultHealthCheckConfig) [(1, down); (2, down); (3, down)]) =
    pre ++ replicate (Z.to_nat (ConsecutiveFailures (health_defaults DefaultHealthCheckConfig))) HealthStatusUnhealthy.
Proof.
  apply (health_callback_iff DefaultHealthCheckConfig [(1, down); (2, down); (3, down)]
    (check_loop (NewHealthChecker DefaultHealthCheckConfig) [(1, down); (2, down); (3, down)]).1
    [false; false; true] 2); vm_compute; reflexivity.
Defined.

(** the status of a check.  It is unhealthy exactly when the interface
    check fails or reports down, degraded exactly when that does not happen
    and the gRPC check fails or the last handshake is too old, and healthy
    otherwise: an error of the handshake check itself does not lower it. *)
Theorem health_status_spec now c k :
  let r := Check_result now c k in
  let bad_interface := ∃ up e, interfaceChecker k = Some (up, e) ∧ (up = false ∨ e ≠ None) in
  let bad_grpc := ∃ e, grpcChecker k = Some (Some e) in
  let stale := ∃ t, handshakeChecker k = Some (inr t) ∧ HandshakeTimeout c ≤ now - t in
  (hr_Status r = HealthStatusUnhealthy ↔ bad_interface) ∧
  (hr_Status r = HealthStatusDegraded ↔ ¬ bad_interface ∧ (bad_grpc ∨ stale)) ∧
  (hr_Status r = HealthStatusHealthy ↔ ¬ bad_interface ∧ ¬ bad_grpc ∧ ¬ stale) ∧
  (hr_HandshakeOK r = true ↔
     handshakeChecker k = None ∨ ∃ t, handshakeChecker k = Some (inr t) ∧ now - t < HandshakeTimeout c).
Proof.
  cbv zeta. unfold Check_result, degrade.
  destruct (interfaceChecker k) as [[[] [e1|]]|], (grpcChecker k) as [[e2|]|],
    (handshakeChecker k) as [[e3|t]|]; cbn;
    try (destruct (now - t <? HandshakeTimeout c) eqn:Et; cbn); bool_facts; split_and!; naive_solver lia.
Qed.
