(* ===== verification/SecretsManager.v ===== *)
(** * TURN and relay credentials of the management server

    [management/internals/shared/grpc/token_mgr.go].  [SetupRefresh] starts one
    goroutine per peer and credential kind, which pushes fresh credentials on a
    ticker until its cancel channel is closed.  The model keeps the goroutines
    in the state: a channel is a number, [closed] holds the closed ones, and a
    transition is a method call (they hold the mutex) or one step of a
    goroutine.  [time.NewTicker] panics on a non-positive duration.

    The settings and group lookups and the integrations library that extends a
    pushed configuration are the argument [extendNetbirdConfig]; [sha1_New] is
    the hash the TURN token is made with.

    The theorems: no interleaving closes a channel twice, and each peer has at
    most one live refresh of each kind; a relay token pushed by a refresh is
    accepted by a relay server with the same secret until after the next
    refresh is due; an unset TTL, for which the generator falls back to twelve
    hours, makes the refresh goroutine panic. *)

From stdpp Require Import base list gmap strings.
From S2P Require Import Prelude GoStd RelayAuth.

#[local] Open Scope go_scope.

Definition defaultDuration : Z := 12 * hour.

(** [nbconfig.Host]; the protocol is a string of the configuration file. *)
Record TURNHost := mkTURNHost { th_URI : bytes; th_Proto : string }.

Record TURNConfig := mkTURNConfig {
  tu_TimeBasedCredentials : bool;
  tu_CredentialsTTL : Z;
  tu_Secret : string;
  tu_Turns : list TURNHost;
}.

Record RelayCfg := mkRelayCfg {
  rc_Addresses : list bytes;
  rc_CredentialsTTL : Z;
  rc_Secret : string;
}.

(** [proto.ProtectedHostConfig], [proto.RelayConfig] and the pushed
    [proto.NetbirdConfig]. *)
Inductive HostConfig_Protocol :=
| HostConfig_UDP | HostConfig_TCP | HostConfig_HTTP | HostConfig_HTTPS | HostConfig_DTLS.

Record ProtectedHostConfig := mkProtectedHost {
  phc_Uri : bytes;
  phc_Protocol : HostConfig_Protocol;
  phc_User : string;
  phc_Password : string;
}.

Record RelayConfigMsg := mkRelayConfigMsg {
  rcm_Urls : list bytes;
  rcm_TokenPayload : string;
  rcm_TokenSignature : string;
}.

Record NetbirdConfig := mkNetbirdConfig {
  nc_Turns : list ProtectedHostConfig;
  nc_Relay : option RelayConfigMsg;
}.

Inductive kind := KTurn | KRelay.

#[global] Instance kind_eq_dec : EqDecision kind.
Proof. solve_decision. Defined.

(** A refresh goroutine, before or after its ticker was created. *)
Record refresher := mkRefresher {
  rf_kind : kind;
  rf_account : bytes;
  rf_peer : bytes;
  rf_chan : nat;
  rf_ticker : option Z;
}.

Record Manager := mkMgr {
  turnCfg : option TURNConfig;
  relayCfg : option RelayCfg;
  turnHmacToken : option TimedHMAC;
  relayHmacToken : option V2.Generator;
  turnCancelMap : gmap bytes nat;
  relayCancelMap : gmap bytes nat;
  nextChan : nat;
  closed : list nat;
  goroutines : list refresher;
  sent : list (bytes * NetbirdConfig);
}.

Inductive mgr_error := ETurnNotSet | ERelayNotSet.

(** [ToResponseProto] (conversion.go) panics on a protocol it does not know. *)
Definition ToResponseProto (configProto : string) : outcome mgr_error HostConfig_Protocol :=
  if bool_decide (configProto = "udp"%string) then Ok HostConfig_UDP
  else if bool_decide (configProto = "dtls"%string) then Ok HostConfig_DTLS
  else if bool_decide (configProto = "http"%string) then Ok HostConfig_HTTP
  else if bool_decide (configProto = "https"%string) then Ok HostConfig_HTTPS
  else if bool_decide (configProto = "tcp"%string) then Ok HostConfig_TCP
  else Panic.

Definition effective_ttl (ttl : Z) : Z := if ttl <=? 0 then defaultDuration else ttl.

Definition NewTimeBasedAuthSecretsManager (tc : option TURNConfig) (rc : option RelayCfg) : Manager :=
  mkMgr tc rc
    ((λ c, NewTimedHMAC (tu_Secret c) (effective_ttl (tu_CredentialsTTL c))) <$> tc)
    (rc ≫= λ c,
       match V2.NewGenerator V2.AuthAlgoHMACSHA256 (sha256 (string_to_bytes (rc_Secret c)))
               (effective_ttl (rc_CredentialsTTL c)) with
       | Ok g => Some g
       | _ => None
       end)
    ∅ ∅ 0 [] [] [].

Definition cancelMap (m : Manager) (k : kind) : gmap bytes nat :=
  match k with KTurn => turnCancelMap m | KRelay => relayCancelMap m end.

Definition set_cancelMap (m : Manager) (k : kind) (cm : gmap bytes nat) : Manager :=
  mkMgr (turnCfg m) (relayCfg m) (turnHmacToken m) (relayHmacToken m)
    (match k with KTurn => cm | KRelay => turnCancelMap m end)
    (match k with KTurn => relayCancelMap m | KRelay => cm end)
    (nextChan m) (closed m) (goroutines m) (sent m).

Definition close_chan (m : Manager) (ch : nat) : outcome mgr_error Manager :=
  if bool_decide (ch ∈ closed m) then Panic
  else Ok (mkMgr (turnCfg m) (relayCfg m) (turnHmacToken m) (relayHmacToken m) (turnCancelMap m)
             (relayCancelMap m) (nextChan m) (ch :: closed m) (goroutines m) (sent m)).

(** [cancelTURN] and [cancelRelay] are this on the two maps. *)
Definition cancel (k : kind) (m : Manager) (peerID : bytes) : outcome mgr_error Manager :=
  match cancelMap m k !! peerID with
  | Some channel =>
      let! m := close_chan m channel in
      Ok (set_cancelMap m k (delete peerID (cancelMap m k)))
  | None => Ok m
  end.

Definition cancelTURN := cancel KTurn.

Definition cancelRelay := cancel KRelay.

Definition CancelRefresh (m : Manager) (peerID : bytes) : outcome mgr_error Manager :=
  let! m := cancelTURN m peerID in cancelRelay m peerID.

(** [make(chan)], the map entry and [go refresh...]. *)
Definition spawn (k : kind) (m : Manager) (accountID peerID : bytes) : Manager :=
  let m := set_cancelMap m k (<[peerID := nextChan m]> (cancelMap m k)) in
  mkMgr (turnCfg m) (relayCfg m) (turnHmacToken m) (relayHmacToken m) (turnCancelMap m) (relayCancelMap m)
    (S (nextChan m)) (closed m) (goroutines m ++ [mkRefresher k accountID peerID (nextChan m) None]) (sent m).

Definition SetupRefresh (m : Manager) (accountID peerID : bytes) : outcome mgr_error Manager :=
  let! m := cancelTURN m peerID in
  let! m := cancelRelay m peerID in
  let m := match turnCfg m with
           | Some c => if tu_TimeBasedCredentials c then spawn KTurn m accountID peerID else m
           | None => m
           end in
  let m := match relayCfg m with Some _ => spawn KRelay m accountID peerID | None => m end in
  Ok m.

(** The interval of the ticker: integer division, then times three. *)
Definition refresh_interval (ttl : Z) : Z := Z.quot ttl 4 * 3.

Definition NewTicker (d : Z) : outcome mgr_error Z := if d <=? 0 then Panic else Ok d.

Definition set_goroutines (m : Manager) (gs : list refresher) : Manager :=
  mkMgr (turnCfg m) (relayCfg m) (turnHmacToken m) (relayHmacToken m) (turnCancelMap m) (relayCancelMap m)
    (nextChan m) (closed m) gs (sent m).

(** The first statement of [refreshTURNTokens] and [refreshRelayTokens]. *)
Definition start_ticker (m : Manager) (i : nat) (g : refresher) : outcome mgr_error Manager :=
  let ttl := match rf_kind g with
             | KTurn => default 0 (tu_CredentialsTTL <$> turnCfg m)
             | KRelay => default 0 (rc_CredentialsTTL <$> relayCfg m)
             end in
  let! d := NewTicker (refresh_interval ttl) in
  Ok (set_goroutines m (<[i := mkRefresher (rf_kind g) (rf_account g) (rf_peer g) (rf_chan g) (Some d)]>
                          (goroutines m))).

Section Push.
Context (sha1_New : hash_algo).
Context (extendNetbirdConfig : bytes → bytes → NetbirdConfig → NetbirdConfig).

Definition GenerateTurnToken (now : Z) (m : Manager) : outcome mgr_error Token :=
  match turnHmacToken m with
  | None => Err ETurnNotSet
  | Some h => Ok (GenerateToken now h sha1_New)
  end.

Definition GenerateRelayToken (now : Z) (m : Manager) : outcome mgr_error Token :=
  match relayHmacToken m with
  | None => Err ERelayNotSet
  | Some g =>
      let t := V2.Generator_GenerateToken now g in
      Ok (mkToken (bytes_to_string (V2.tok_Payload t)) (bytes_to_string (b64_encode (V2.tok_Signature t))))
  end.

Definition SendUpdate (m : Manager) (accountID peerID : bytes) (c : NetbirdConfig) : Manager :=
  mkMgr (turnCfg m) (relayCfg m) (turnHmacToken m) (relayHmacToken m) (turnCancelMap m) (relayCancelMap m)
    (nextChan m) (closed m) (goroutines m) (sent m ++ [(peerID, extendNetbirdConfig peerID accountID c)]).

Definition relay_msg (now : Z) (m : Manager) : option RelayConfigMsg :=
  match relayCfg m with
  | None => None
  | Some rc =>
      match GenerateRelayToken now m with
      | Ok t => Some (mkRelayConfigMsg (rc_Addresses rc) (Payload t) (Signature t))
      | _ => None
      end
  end.

(** The loop over the TURN hosts of the configuration. *)
Fixpoint turn_hosts (token : Token) (hosts : list TURNHost) : outcome mgr_error (list ProtectedHostConfig) :=
  match hosts with
  | [] => Ok []
  | host :: hosts =>
      let! pr := ToResponseProto (th_Proto host) in
      let! rest := turn_hosts token hosts in
      Ok (mkProtectedHost (th_URI host) pr (Payload token) (Signature token) :: rest)
  end.

(** A nil token generator or configuration is a nil dereference. *)
Definition pushNewTURNAndRelayTokens (now : Z) (m : Manager) (accountID peerID : bytes)
    : outcome mgr_error Manager :=
  match turnHmacToken m, turnCfg m with
  | Some h, Some tc =>
      let turnToken := GenerateToken now h sha1_New in
      let! turns := turn_hosts turnToken (tu_Turns tc) in
      Ok (SendUpdate m accountID peerID (mkNetbirdConfig turns (relay_msg now m)))
  | _, _ => Panic
  end.

Definition pushNewRelayTokens (now : Z) (m : Manager) (accountID peerID : bytes) : outcome mgr_error Manager :=
  match relayHmacToken m, relayCfg m with
  | Some g, Some rc =>
      let t := V2.Generator_GenerateToken now g in
      Ok (SendUpdate m accountID peerID
            (mkNetbirdConfig []
               (Some (mkRelayConfigMsg (rc_Addresses rc) (bytes_to_string (V2.tok_Payload t))
                        (bytes_to_string (b64_encode (V2.tok_Signature t)))))))
  | _, _ => Panic
  end.

(** ** Transitions *)

Inductive label :=
| LSetup (accountID peerID : bytes)
| LCancel (peerID : bytes)
| LTicker (i : nat)
| LTick (i : nat) (now : Z)
| LStopped (i : nat).

(** [None] when the label is not enabled. *)
Definition step (m : Manager) (l : label) : option (outcome mgr_error Manager) :=
  match l with
  | LSetup a p => Some (SetupRefresh m a p)
  | LCancel p => Some (CancelRefresh m p)
  | LTicker i =>
      g ← goroutines m !! i;
      match rf_ticker g with None => Some (start_ticker m i g) | Some _ => None end
  | LTick i now =>
      g ← goroutines m !! i;
      match rf_ticker g with
      | Some _ =>
          Some (match rf_kind g with
                | KTurn => pushNewTURNAndRelayTokens now m (rf_account g) (rf_peer g)
                | KRelay => pushNewRelayTokens now m (rf_account g) (rf_peer g)
                end)
      | None => None
      end
  | LStopped i =>
      g ← goroutines m !! i;
      match rf_ticker g with
      | Some _ => if bool_decide (rf_chan g ∈ closed m)
                  then Some (Ok (set_goroutines m (delete i (goroutines m)))) else None
      | None => None
      end
  end.

Fixpoint run (m : Manager) (ls : list label) : option (outcome mgr_error Manager) :=
  match ls with
  | [] => Some (Ok m)
  | l :: ls =>
      o ← step m l;
      match o with Ok m' => run m' ls | Err e => Some (Err e) | Panic => Some Panic end
  end.
End Push.

(** ** Lemmas *)

Lemma cancelMap_set m k cm k' :
  cancelMap (set_cancelMap m k cm) k' = if decide (k' = k) then cm else cancelMap m k'.
Proof. by destruct k, k'. Qed.

(** The protocols of a TURN host that [ToResponseProto] accepts. *)
Definition known_proto (p : string) : bool :=
  match ToResponseProto p with Ok _ => true | _ => false end.

Lemma turn_hosts_ok token hosts :
  Forall (λ h, known_proto (th_Proto h) = true) hosts → ∃ l, turn_hosts token hosts = Ok l.
Proof.
  induction 1 as [|h hosts Hh _ [l IH]]; [by eexists|]. unfold known_proto in Hh. simpl.
  destruct (ToResponseProto (th_Proto h)); [|done..]. simpl. rewrite IH. by eexists.
Qed.

Section Inv.
Context (tc : option TURNConfig) (rc : option RelayCfg).

Definition cfg_set (k : kind) : Prop :=
  match k with KTurn => is_Some tc | KRelay => is_Some rc end.

Record inv (m : Manager) : Prop := {
  inv_cfg : turnCfg m = tc ∧ relayCfg m = rc ∧
    turnHmacToken m = turnHmacToken (NewTimeBasedAuthSecretsManager tc rc) ∧
    relayHmacToken m = relayHmacToken (NewTimeBasedAuthSecretsManager tc rc);
  inv_map : ∀ k p ch, cancelMap m k !! p = Some ch → (ch < nextChan m)%nat ∧ ch ∉ closed m;
  inv_inj : ∀ k p k' p' ch, cancelMap m k !! p = Some ch → cancelMap m k' !! p' = Some ch → k = k' ∧ p = p';
  inv_closed : ∀ ch, ch ∈ closed m → (ch < nextChan m)%nat;
  inv_go : ∀ g, g ∈ goroutines m → (rf_chan g < nextChan m)%nat ∧ cfg_set (rf_kind g) ∧
    (rf_chan g ∉ closed m → cancelMap m (rf_kind g) !! rf_peer g = Some (rf_chan g));
  inv_nodup : NoDup (rf_chan <$> goroutines m);
}.

Lemma inv_new : inv (NewTimeBasedAuthSecretsManager tc rc).
Proof.
  split; simpl; try done; try (by intros k; destruct k); try (intros ? H; by apply not_elem_of_nil in H).
  constructor.
Qed.

(** Closing the channel of a map entry and removing the entry. *)
Lemma cancel_inv k m p :
  inv m → ∃ m', cancel k m p = Ok m' ∧ inv m' ∧ cancelMap m' k !! p = None ∧
    (∀ k', k' ≠ k → cancelMap m' k' = cancelMap m k') ∧ goroutines m' = goroutines m ∧ nextChan m' = nextChan m.
Proof.
  intros Hi. unfold cancel. destruct (cancelMap m k !! p) as [ch|] eqn:E.
  2: { exists m. split_and!; done. }
  destruct (inv_map m Hi k p ch E) as [Hlt Hnc].
  unfold close_chan. rewrite bool_decide_false by done. cbn [obind].
  set (m1 := mkMgr _ _ _ _ _ _ _ (ch :: closed m) _ _).
  assert (∀ k', cancelMap m1 k' = cancelMap m k') as Hm1 by (by intros []).
  assert (∀ k' p' ch', cancelMap (set_cancelMap m1 k (delete p (cancelMap m1 k))) k' !! p' = Some ch' →
    cancelMap m k' !! p' = Some ch' ∧ ¬ (k' = k ∧ p' = p)) as Hl.
  { intros k' p' ch'. rewrite cancelMap_set. destruct (decide (k' = k)) as [-> |Hk]; [|rewrite Hm1; naive_solver].
    rewrite lookup_delete_Some, Hm1. naive_solver. }
  exists (set_cancelMap m1 k (delete p (cancelMap m1 k))). split; [done|]. split_and!; [split| | |done|done].
  - apply Hi.
  - intros k' p' ch' [H1 H2]%Hl. destruct (inv_map m Hi k' p' ch' H1). split; [done|].
    simpl. apply not_elem_of_cons. split; [|done]. intros ->. apply H2. by apply (inv_inj m Hi k' p' k p ch).
  - intros k1 p1 k2 p2 c [H1 _]%Hl [H2 _]%Hl. by apply (inv_inj m Hi k1 p1 k2 p2 c).
  - intros c [-> |Hc]%elem_of_cons; [done|]. by apply (inv_closed m Hi).
  - intros g Hg. destruct (inv_go m Hi g Hg) as (H1 & H2 & H3). split_and!; [done|done|].
    simpl. intros [Hne Hncl]%not_elem_of_cons. specialize (H3 Hncl).
    rewrite cancelMap_set. destruct (decide (rf_kind g = k)) as [Ek|]; [|by rewrite Hm1].
    rewrite Hm1, lookup_delete_ne; [by rewrite <-Ek|]. intros Ep. rewrite Ek, <-Ep in H3. congruence.
  - apply (inv_nodup m Hi).
  - rewrite cancelMap_set, decide_True by done. by rewrite lookup_delete_eq.
  - intros k' Hk'. rewrite cancelMap_set, decide_False by done. apply Hm1.
Qed.

Lemma spawn_lookup k m a p k' :
  cancelMap (spawn k m a p) k' = if decide (k' = k) then <[p := nextChan m]> (cancelMap m k) else cancelMap m k'.
Proof. by destruct k, k'. Qed.

Lemma spawn_inv k m a p : inv m → cfg_set k → cancelMap m k !! p = None → inv (spawn k m a p).
Proof.
  intros Hi Hc Hn.
  assert (∀ k' p' ch, cancelMap (spawn k m a p) k' !! p' = Some ch →
    (k' = k ∧ p' = p ∧ ch = nextChan m) ∨ (cancelMap m k' !! p' = Some ch ∧ (ch < nextChan m)%nat)) as Hl.
  { intros k' p' ch. rewrite spawn_lookup. destruct (decide (k' = k)) as [-> |Hk].
    - rewrite lookup_insert_Some. intros [[<- <-]|[_ H]]; [by left|]. right. split; [done|]. by apply (inv_map m Hi k p').
    - intros H. right. split; [done|]. by apply (inv_map m Hi k' p'). }
  split.
  - apply Hi.
  - intros k' p' ch [(-> & -> & ->)|[H _]]%Hl; simpl.
    + split; [lia|]. intros Hx%(inv_closed m Hi). lia.
    + destruct (inv_map m Hi k' p' ch H). split; [lia|done].
  - intros k1 p1 k2 p2 c [(-> & -> & ->)|[H1 L1]]%Hl [(-> & -> & E)|[H2 L2]]%Hl; [done|lia|lia|].
    by apply (inv_inj m Hi k1 p1 k2 p2 c).
  - intros c Hx%(inv_closed m Hi). simpl. lia.
  - intros g [Hg|Hg]%elem_of_app.
    + destruct (inv_go m Hi g Hg) as (H1 & H2 & H3). split_and!; [simpl; lia|done|].
      simpl. intros Hncl. specialize (H3 Hncl). rewrite spawn_lookup.
      destruct (decide (rf_kind g = k)) as [Ek|]; [|done].
      rewrite lookup_insert_ne; [by rewrite <-Ek|]. intros Ep. rewrite Ek, <-Ep in H3. congruence.
    + apply list_elem_of_singleton in Hg as ->. split_and!; [simpl; lia|done|]. intros _. simpl.
      rewrite spawn_lookup, decide_True by done. by rewrite lookup_insert_eq.
  - simpl. rewrite fmap_app. apply NoDup_app. split_and!; [apply (inv_nodup m Hi)| |apply NoDup_singleton].
    intros ch (g & -> & Hg)%list_elem_of_fmap Hin. apply list_elem_of_singleton in Hin.
    destruct (inv_go m Hi g Hg). simpl in Hin. lia.
Qed.

Lemma cancel_both_inv m p :
  inv m → ∃ m', obind (cancelTURN m p) (λ m, cancelRelay m p) = Ok m' ∧ inv m' ∧ ∀ k, cancelMap m' k !! p = None.
Proof.
  intros Hi. destruct (cancel_inv KTurn m p Hi) as (m1 & E1 & Hi1 & Hn1 & Ho1 & _).
  destruct (cancel_inv KRelay m1 p Hi1) as (m2 & E2 & Hi2 & Hn2 & Ho2 & _).
  exists m2. unfold cancelTURN, cancelRelay. rewrite E1. cbn [obind]. split_and!; [done|done|].
  intros []; [|done]. by rewrite Ho2.
Qed.

Lemma SetupRefresh_inv m a p :
  inv m → ∃ m', SetupRefresh m a p = Ok m' ∧ inv m' ∧ (is_Some rc → is_Some (relayCancelMap m' !! p)).
Proof.
  intros Hi. destruct (cancel_both_inv m p Hi) as (m1 & E & Hi1 & Hn). unfold SetupRefresh.
  destruct (cancelTURN m p) as [m0| |]; cbn [obind] in E |- *; [|done..]. rewrite E. cbn [obind].
  destruct (inv_cfg m1 Hi1) as (Ht & Hr & _). rewrite Ht.
  set (m2 := match tc with Some c => _ | None => _ end).
  assert (inv m2 ∧ cancelMap m2 KRelay !! p = None) as [Hi2 Hn2].
  { subst m2. destruct tc as [c|] eqn:Etc; [|by rewrite Hn]. destruct (tu_TimeBasedCredentials c); [|by rewrite Hn].
    split; [apply spawn_inv; [done|unfold cfg_set; rewrite Etc; by eexists|apply Hn]|]. rewrite spawn_lookup. simpl. apply (Hn KRelay). }
  destruct (inv_cfg m2 Hi2) as (_ & Hr2 & _). rewrite Hr2.
  eexists. split; [done|]. destruct rc as [c|] eqn:Erc.
  - split; [apply spawn_inv; [done|unfold cfg_set; rewrite Erc; by eexists|done]|]. intros _. simpl. rewrite lookup_insert_eq. by eexists.
  - split; [done|]. by intros [].
Qed.

(** Transitions that keep the maps, the channels and the goroutines' identities. *)
Lemma inv_frame m m' :
  inv m → turnCfg m' = turnCfg m → relayCfg m' = relayCfg m → turnHmacToken m' = turnHmacToken m →
  relayHmacToken m' = relayHmacToken m → (∀ k, cancelMap m' k = cancelMap m k) →
  nextChan m' = nextChan m → closed m' = closed m →
  (∀ g, g ∈ goroutines m' → ∃ g0, g0 ∈ goroutines m ∧ rf_chan g = rf_chan g0 ∧ rf_kind g = rf_kind g0 ∧
     rf_peer g = rf_peer g0) →
  NoDup (rf_chan <$> goroutines m') → inv m'.
Proof.
  intros Hi E1 E2 E3 E4 E5 E6 E7 Hg Hn. split.
  - rewrite E1, E2, E3, E4. apply Hi.
  - intros k p ch. rewrite E5, E6, E7. apply Hi.
  - intros k p k' p' ch. rewrite !E5. apply Hi.
  - rewrite E6, E7. apply Hi.
  - intros g (g0 & H0 & -> & -> & ->)%Hg. rewrite E5, E6, E7. by apply Hi.
  - done.
Qed.

Lemma inv_send ext m a p c : inv m → inv (SendUpdate ext m a p c).
Proof.
  intros Hi. apply (inv_frame m); try done; [|apply Hi]. intros g Hg. by exists g.
Qed.

Lemma inv_ticker m i g d :
  inv m → goroutines m !! i = Some g →
  inv (set_goroutines m (<[i := mkRefresher (rf_kind g) (rf_account g) (rf_peer g) (rf_chan g) d]> (goroutines m))).
Proof.
  intros Hi Hg. apply (inv_frame m); try done.
  - intros g' [j Hj]%list_elem_of_lookup. simpl in Hj.
    apply list_lookup_insert_Some in Hj as [(-> & <- & _)|[_ Hj]].
    + exists g. split; [by eapply list_elem_of_lookup_2|done].
    + exists g'. split; [by eapply list_elem_of_lookup_2|done].
  - simpl. rewrite list_fmap_insert. simpl.
    rewrite list_insert_id; [apply Hi|]. by rewrite list_lookup_fmap, Hg.
Qed.

Lemma inv_delete m i : inv m → inv (set_goroutines m (delete i (goroutines m))).
Proof.
  intros Hi. apply (inv_frame m); try done.
  - intros g Hg. exists g. split; [|done]. by apply list_elem_of_delete_inv in Hg.
  - simpl. eapply sublist_NoDup; [apply (inv_nodup m Hi)|]. apply fmap_sublist, sublist_delete.
Qed.

Lemma tokens_set m :
  inv m → (is_Some tc → is_Some (turnHmacToken m)) ∧ (is_Some rc → is_Some (relayHmacToken m)).
Proof.
  intros Hi. destruct (inv_cfg m Hi) as (_ & _ & -> & ->). split; simpl.
  - intros [c ->]. by eexists.
  - intros [c ->]. simpl. by eexists.
Qed.

Context (ttl_turn : ∀ c, tc = Some c → 4 ≤ tu_CredentialsTTL c).
Context (ttl_relay : ∀ c, rc = Some c → 4 ≤ rc_CredentialsTTL c).
Context (turn_proto : ∀ c, tc = Some c → Forall (λ h, known_proto (th_Proto h) = true) (tu_Turns c)).

Lemma refresh_interval_pos ttl : 4 ≤ ttl → 0 < refresh_interval ttl < ttl.
Proof.
  intros Ht. unfold refresh_interval. rewrite Z.quot_div_nonneg by lia.
  pose proof (Z.div_le_lower_bound ttl 4 1). pose proof (Z.mul_div_le ttl 4). lia.
Qed.

Lemma start_ticker_inv m i g :
  inv m → goroutines m !! i = Some g → ∃ m', start_ticker m i g = Ok m' ∧ inv m'.
Proof using ttl_turn ttl_relay.
  intros Hi Hg. destruct (inv_cfg m Hi) as (Ht & Hr & _).
  destruct (inv_go m Hi g) as (_ & Hc & _); [by eapply list_elem_of_lookup_2|].
  unfold start_ticker, NewTicker. rewrite Ht, Hr.
  set (ttl := match rf_kind g with KTurn => _ | KRelay => _ end).
  assert (4 ≤ ttl) as Hl.
  { subst ttl. unfold cfg_set in Hc. destruct (rf_kind g); destruct Hc as [c Hc]; rewrite Hc; simpl; auto. }
  pose proof (refresh_interval_pos ttl Hl). replace (refresh_interval ttl <=? 0) with false by lia.
  eexists. split; [done|]. by apply inv_ticker.
Qed.

Lemma step_inv sha1 ext m l o :
  inv m → step sha1 ext m l = Some o → ∃ m', o = Ok m' ∧ inv m'.
Proof using ttl_turn ttl_relay turn_proto.
  intros Hi. destruct l as [a p|p|i|i now|i]; simpl.
  - destruct (SetupRefresh_inv m a p Hi) as (m' & -> & Hi' & _). intros [= <-]. by eexists.
  - destruct (cancel_both_inv m p Hi) as (m' & E & Hi' & _). unfold CancelRefresh. rewrite E.
    intros [= <-]. by eexists.
  - destruct (goroutines m !! i) as [g|] eqn:Hg; simpl; [|done]. destruct (rf_ticker g); [done|].
    destruct (start_ticker_inv m i g Hi Hg) as (m' & -> & Hi'). intros [= <-]. by eexists.
  - destruct (goroutines m !! i) as [g|] eqn:Hg; simpl; [|done]. destruct (rf_ticker g); [|done].
    intros [= <-]. destruct (inv_go m Hi g) as (_ & Hc & _); [by eapply list_elem_of_lookup_2|].
    destruct (tokens_set m Hi) as [Ht Hr]. destruct (inv_cfg m Hi) as (Et & Er & _).
    unfold cfg_set in Hc. unfold pushNewTURNAndRelayTokens, pushNewRelayTokens. rewrite Et, Er.
    destruct (rf_kind g).
    + destruct (Ht Hc) as [h ->]. destruct Hc as [c Ec]. rewrite Ec.
      destruct (turn_hosts_ok (GenerateToken now h sha1) (tu_Turns c) (turn_proto c Ec)) as [l ->].
      eexists. split; [done|]. by apply inv_send.
    + destruct (Hr Hc) as [h ->]. destruct Hc as [c ->]. eexists. split; [done|]. by apply inv_send.
  - destruct (goroutines m !! i) as [g|] eqn:Hg; simpl; [|done]. destruct (rf_ticker g); [|done].
    case_bool_decide; [|done]. intros [= <-]. eexists. split; [done|]. by apply inv_delete.
Qed.

Lemma run_inv sha1 ext m ls o :
  inv m → run sha1 ext m ls = Some o → ∃ m', o = Ok m' ∧ inv m'.
Proof using ttl_turn ttl_relay turn_proto.
  revert m. induction ls as [|l ls IH]; intros m Hi; simpl.
  { intros [= <-]. by eexists. }
  destruct (step sha1 ext m l) as [o'|] eqn:E; simpl; [|done].
  destruct (step_inv sha1 ext m l o' Hi E) as (m' & -> & Hi'). by apply IH.
Qed.
End Inv.

(** The goroutines of a peer and kind that were not cancelled. *)
Definition live (m : Manager) (k : kind) (p : bytes) : list refresher :=
  filter (λ g, rf_kind g = k ∧ rf_peer g = p ∧ rf_chan g ∉ closed m) (goroutines m).

Lemma live_le_1 tc rc m k p : inv tc rc m → (length (live m k p) ≤ 1)%nat.
Proof.
  intros Hi.
  assert (NoDup (rf_chan <$> live m k p)) as Hn.
  { eapply sublist_NoDup; [apply (inv_nodup tc rc m Hi)|]. apply fmap_sublist, sublist_filter. }
  assert (∀ g, g ∈ live m k p → cancelMap m k !! p = Some (rf_chan g)) as Hall.
  { intros g Hg. apply list_elem_of_filter in Hg as [(<- & <- & Hc) Hg].
    destruct (inv_go tc rc m Hi g Hg) as (_ & _ & H). auto. }
  destruct (live m k p) as [|g1 [|g2 l]]; simpl; [lia..|]. exfalso.
  assert (rf_chan g1 = rf_chan g2) as E.
  { pose proof (Hall g1 ltac:(set_solver)). pose proof (Hall g2 ltac:(set_solver)). congruence. }
  apply NoDup_cons in Hn as [Hn _]. apply Hn. rewrite E. simpl. set_solver.
Qed.

Lemma SetupRefresh_new rc a p :
  SetupRefresh (NewTimeBasedAuthSecretsManager None (Some rc)) a p =
  Ok (spawn KRelay (NewTimeBasedAuthSecretsManager None (Some rc)) a p).
Proof.
  unfold SetupRefresh, cancelTURN, cancelRelay, cancel.
  cbn [cancelMap NewTimeBasedAuthSecretsManager turnCancelMap]. rewrite lookup_empty. cbn [obind].
  cbn [cancelMap NewTimeBasedAuthSecretsManager relayCancelMap]. by rewrite lookup_empty.
Qed.

(** ** Properties *)

(** with TTLs of at least four nanoseconds and known protocols of the TURN
    hosts, no interleaving of
    [SetupRefresh], [CancelRefresh] and the refresh goroutines panics (no
    channel is closed twice, no ticker has a non-positive period, no token
    generator is missing), and at any time a peer has at most one live refresh
    of each kind. *)
Theorem one_refresh_per_peer sha1 ext tc rc ls o :
  (∀ c, tc = Some c → 4 ≤ tu_CredentialsTTL c) →
  (∀ c, rc = Some c → 4 ≤ rc_CredentialsTTL c) →
  (∀ c, tc = Some c → Forall (λ h, known_proto (th_Proto h) = true) (tu_Turns c)) →
  run sha1 ext (NewTimeBasedAuthSecretsManager tc rc) ls = Some o →
  ∃ m, o = Ok m ∧ ∀ k p, (length (live m k p) ≤ 1)%nat.
Proof.
  intros Ht Hr Hp Hrun. destruct (run_inv tc rc Ht Hr Hp sha1 ext _ ls o (inv_new tc rc) Hrun) as (m & -> & Hi).
  exists m. split; [done|]. intros k p. by apply (live_le_1 tc rc).
Qed.

Definition example_relay : RelayCfg := mkRelayCfg [] (24 * hour) "secret".

Definition example_turn : TURNConfig :=
  mkTURNConfig true hour "turn-secret" [mkTURNHost (string_to_bytes "turn:turn.example") "udp"].

Definition peer1 : bytes := string_to_bytes "peer1".

(** Two logins of a peer: the refreshes of the first are cancelled by the
    second, whose goroutines then push. *)
Definition two_logins : list label :=
  [LSetup [] peer1; LTicker 0; LTicker 1; LSetup [] peer1; LStopped 0; LStopped 0;
   LTicker 0; LTicker 1; LTick 0 (1700000000 * second); LTick 1 (1700000000 * second)].

Definition ext_id (p a : bytes) (c : NetbirdConfig) : NetbirdConfig := c.

Definition two_logins_result : option (outcome mgr_error Manager) :=
  run (λ _ m, m) ext_id (NewTimeBasedAuthSecretsManager (Some example_turn) (Some example_relay)) two_logins.

Lemma two_logins_runs :
  match two_logins_result with Some (Ok m) => (length (sent m) =? 2)%nat | _ => false end = true.
Proof. vm_compute. reflexivity. Qed.

Lemma one_refresh_per_peer_witness :
  ∃ o, two_logins_result = Some o ∧ ∃ m, o = Ok m ∧ ∀ k p, (length (live m k p) ≤ 1)%nat.
Proof.
  pose proof two_logins_runs as H. destruct two_logins_result as [o|] eqn:E; [|discriminate H].
  exists o. split; [reflexivity|].
  apply (one_refresh_per_peer (λ _ m, m) ext_id (Some example_turn) (Some example_relay) two_logins o).
  - intros c Hc. injection Hc as <-. vm_compute. discriminate.
  - intros c Hc. injection Hc as <-. vm_compute. discriminate.
  - intros c Hc. injection Hc as <-. repeat constructor.
  - exact E.
Defined.

(** a relay token pushed at time [t] by a manager whose TTL is at least
    four nanoseconds is accepted by a relay server configured with the same
    secret at any time up to [t] plus the refresh interval, and the interval is
    positive and shorter than the TTL: a peer that receives every push never
    holds an expired token. *)
Theorem relay_refresh_keeps_valid ext rc tc t now accountID peerID :
  let ttl := rc_CredentialsTTL rc in
  4 ≤ ttl → 10 ^ 9 ≤ time_Unix (t + ttl) < 2 ^ 63 → now ≤ t + refresh_interval ttl →
  0 < refresh_interval ttl < ttl ∧
  ∃ m' msg st,
    pushNewRelayTokens ext t (NewTimeBasedAuthSecretsManager tc (Some rc)) accountID peerID = Ok m' ∧
    sent m' = [(peerID, ext peerID accountID (mkNetbirdConfig [] (Some msg)))] ∧
    GenerateRelayToken t (NewTimeBasedAuthSecretsManager tc (Some rc))
      = Ok (mkToken (rcm_TokenPayload msg) (rcm_TokenSignature msg)) ∧
    UpdateToken (mkTokenStore None) (Some (mkToken (rcm_TokenPayload msg) (rcm_TokenSignature msg))) = Ok st ∧
    V2.Validate now (V2.NewValidator (sha256 (string_to_bytes (rc_Secret rc)))) (AnyBytes (TokenBinary st)) = Ok tt.
Proof.
  intros ttl Ht Hu Hn. subst ttl. pose proof (refresh_interval_pos _ Ht) as Hi. split; [done|].
  destruct (issued_token_accept (sha256 (string_to_bytes (rc_Secret rc))) (rc_CredentialsTTL rc) t now
    (mkTokenStore None) Hu) as (g & st & Hg & Hupd & _ & Hv).
  unfold pushNewRelayTokens, GenerateRelayToken, NewTimeBasedAuthSecretsManager.
  cbn [relayHmacToken relayCfg mbind option_bind]. unfold effective_ttl.
  replace (rc_CredentialsTTL rc <=? 0) with false by lia. rewrite Hg.
  eexists _, (mkRelayConfigMsg (rc_Addresses rc)
    (bytes_to_string (V2.tok_Payload (V2.Generator_GenerateToken t g)))
    (bytes_to_string (b64_encode (V2.tok_Signature (V2.Generator_GenerateToken t g))))), st.
  split_and!; [done|done|done|done|].
  rewrite Hv. replace (time_Unix (t + rc_CredentialsTTL rc) <? time_Unix now) with false; [done|].
  symmetry. apply Z.ltb_ge. unfold time_Unix. apply Z.div_le_mono; [done|]. lia.
Qed.

Lemma relay_refresh_keeps_valid_witness :
  0 < refresh_interval (24 * hour) < 24 * hour ∧
  ∃ m' msg st,
    pushNewRelayTokens ext_id (1700000000 * second)
      (NewTimeBasedAuthSecretsManager None (Some example_relay)) [] peer1 = Ok m' ∧
    sent m' = [(peer1, ext_id peer1 [] (mkNetbirdConfig [] (Some msg)))] ∧
    GenerateRelayToken (1700000000 * second) (NewTimeBasedAuthSecretsManager None (Some example_relay))
      = Ok (mkToken (rcm_TokenPayload msg) (rcm_TokenSignature msg)) ∧
    UpdateToken (mkTokenStore None) (Some (mkToken (rcm_TokenPayload msg) (rcm_TokenSignature msg))) = Ok st ∧
    V2.Validate (1700000000 * second + hour) (V2.NewValidator (sha256 (string_to_bytes "secret")))
      (AnyBytes (TokenBinary st)) = Ok tt.
Proof.
  apply (relay_refresh_keeps_valid ext_id example_relay None (1700000000 * second)
    (1700000000 * second + hour) [] peer1).
  - vm_compute. discriminate.
  - split; [vm_compute; discriminate|vm_compute; reflexivity].
  - vm_compute. discriminate.
Defined.

(** a configuration without a TTL (zero or negative) gets a generator with
    the default of twelve hours, but the refresh goroutine computes its ticker
    from the raw value and panics as soon as it runs. *)
Theorem unset_ttl_refresh_panics sha1 ext rc a p :
  let m := NewTimeBasedAuthSecretsManager None (Some (mkRelayCfg [] (- Z.abs rc) "secret")) in
  (∃ g, relayHmacToken m = Some g ∧ V2.gen_timeToLive g = defaultDuration) ∧
  run sha1 ext m [LSetup a p; LTicker 0] = Some Panic.
Proof.
  cbv zeta. assert ((- Z.abs rc <=? 0) = true) as E by lia. split.
  - unfold NewTimeBasedAuthSecretsManager, effective_ttl. cbn -[sha256 Z.leb]. rewrite E. eexists. split; done.
  - cbn [run step]. rewrite SetupRefresh_new.
    cbn -[sha256 Z.leb refresh_interval start_ticker]. unfold start_ticker, NewTicker.
    cbn -[sha256 Z.leb refresh_interval].
    replace (refresh_interval (- Z.abs rc) <=? 0) with true; [done|].
    symmetry. apply Z.leb_le. unfold refresh_interval.
    assert (Z.quot (- Z.abs rc) 4 ≤ 0); [|lia].
    rewrite Z.quot_opp_l by lia. assert (0 ≤ Z.quot (Z.abs rc) 4) by (apply Z.quot_pos; lia). lia.
Qed.
