(* ===== verification/Peers.v ===== *)
(** * Peers of an account

    management/server/peer/peer.go: the record of a peer, the comparison and
    update of its system metadata, and the expiry of its login and of its
    session.

    A nil pointer is [None]; dereferencing it is [Panic].  Times are
    nanoseconds since the Unix epoch; [Sub] saturates as [time.Time.Sub] does.
    [sort.Slice] is insertion sort, which Go runs on up to twelve elements; the
    theorems use only that the result is a sorted permutation, except where they
    are about equal keys. *)

From S2P Require Import Prelude GoStd GoStrings NetIP FirewallRules.

#[local] Open Scope go_scope.

(** ** Data *)

Record NetworkAddress := mkNetworkAddress { na_NetIP : Prefix; na_Mac : bytes }.

#[global] Instance NetworkAddress_eq_dec : EqDecision NetworkAddress.
Proof. solve_decision. Defined.

Record Environment := mkEnvironment { env_Cloud : bytes; env_Platform : bytes }.

Record File := mkFile { f_Path : bytes; f_Exist : bool; f_ProcessIsRunning : bool }.

#[global] Instance File_eq_dec : EqDecision File.
Proof. solve_decision. Defined.

Record Flags := mkFlags {
  RosenpassEnabled : bool;
  RosenpassPermissive : bool;
  ServerSSHAllowed : bool;
  DisableClientRoutes : bool;
  DisableServerRoutes : bool;
  DisableDNS : bool;
  DisableFirewall : bool;
  BlockLANAccess : bool;
  BlockInbound : bool;
  LazyConnectionEnabled : bool
}.

(** The fields the machine tunnel adds. *)
Record CertMeta := mkCertMeta {
  PeerType : bytes;
  AuthMethod : bytes;
  CertDNSName : bytes;
  CertDomain : bytes;
  CertIssuerFP : bytes;
  CertSerial : bytes;
  CertTemplate : bytes;
  FirstAuthTime : bytes;
  LastCertAuthTime : bytes
}.

Record PeerSystemMeta := mkMeta {
  Hostname : bytes;
  GoOS : bytes;
  Kernel : bytes;
  Core : bytes;
  Platform : bytes;
  OS : bytes;
  OSVersion : bytes;
  WtVersion : bytes;
  UIVersion : bytes;
  KernelVersion : bytes;
  NetworkAddresses : list NetworkAddress;
  SystemSerialNumber : bytes;
  SystemProductName : bytes;
  SystemManufacturer : bytes;
  Meta_Environment : Environment;
  Meta_Flags : Flags;
  Files : list File;
  Meta_Cert : CertMeta
}.

Record PeerStatus := mkStatus {
  LastSeen : Z;
  Connected : bool;
  st_LoginExpired : bool;
  RequiresApproval : bool
}.

Record Location := mkLocation {
  ConnectionIP : bytes;
  CountryCode : bytes;
  CityName : bytes;
  GeoNameID : Z
}.

Record ProxyMeta := mkProxyMeta { Embedded : bool; Cluster : bytes }.

Record Peer := mkPeer {
  ID : bytes;
  AccountID : bytes;
  Key : bytes;
  IP : bytes;
  Meta : PeerSystemMeta;
  Peer_ProxyMeta : ProxyMeta;
  Name : bytes;
  DNSLabel : bytes;
  Status : option PeerStatus;
  UserID : bytes;
  SSHKey : bytes;
  SSHEnabled : bool;
  LoginExpirationEnabled : bool;
  InactivityExpirationEnabled : bool;
  LastLogin : option Z;
  CreatedAt : Z;
  Ephemeral : bool;
  Peer_Location : Location;
  ExtraDNSLabels : list bytes;
  AllowExtraDNSLabels : bool
}.

Definition set_Meta (p : Peer) (m : PeerSystemMeta) : Peer :=
  mkPeer (ID p) (AccountID p) (Key p) (IP p) m (Peer_ProxyMeta p) (Name p) (DNSLabel p) (Status p) (UserID p)
    (SSHKey p) (SSHEnabled p) (LoginExpirationEnabled p) (InactivityExpirationEnabled p) (LastLogin p)
    (CreatedAt p) (Ephemeral p) (Peer_Location p) (ExtraDNSLabels p) (AllowExtraDNSLabels p).

Definition set_login (p : Peer) (st : option PeerStatus) (last : option Z) : Peer :=
  mkPeer (ID p) (AccountID p) (Key p) (IP p) (Meta p) (Peer_ProxyMeta p) (Name p) (DNSLabel p) st (UserID p)
    (SSHKey p) (SSHEnabled p) (LoginExpirationEnabled p) (InactivityExpirationEnabled p) last
    (CreatedAt p) (Ephemeral p) (Peer_Location p) (ExtraDNSLabels p) (AllowExtraDNSLabels p).

(** ** Metadata *)

Definition Flags_isEqual (f o : Flags) : bool :=
  eqb (RosenpassEnabled f) (RosenpassEnabled o) &&
  eqb (RosenpassPermissive f) (RosenpassPermissive o) &&
  eqb (ServerSSHAllowed f) (ServerSSHAllowed o) &&
  eqb (DisableClientRoutes f) (DisableClientRoutes o) &&
  eqb (DisableServerRoutes f) (DisableServerRoutes o) &&
  eqb (DisableDNS f) (DisableDNS o) &&
  eqb (DisableFirewall f) (DisableFirewall o) &&
  eqb (BlockLANAccess f) (BlockLANAccess o) &&
  eqb (BlockInbound f) (BlockInbound o) &&
  eqb (LazyConnectionEnabled f) (LazyConnectionEnabled o).

(** [sort.Slice] with the comparison of one string field. *)
Definition by_key {A} (key : A → bytes) (a b : A) : Z := bytes_Compare (key a) (key b).

Definition sort_addresses (l : list NetworkAddress) : list NetworkAddress := sort_by (by_key na_Mac) l.

Definition sort_files (l : list File) : list File := sort_by (by_key f_Path) l.

Definition bytes_eqb (a b : bytes) : bool := bool_decide (a = b).

Definition PeerSystemMeta_isEqual (p o : PeerSystemMeta) : bool :=
  if negb (bool_decide (sort_addresses (NetworkAddresses p) = sort_addresses (NetworkAddresses o))) then false
  else if negb (bool_decide (sort_files (Files p) = sort_files (Files o))) then false
  else
    bytes_eqb (Hostname p) (Hostname o) &&
    bytes_eqb (GoOS p) (GoOS o) &&
    bytes_eqb (Kernel p) (Kernel o) &&
    bytes_eqb (KernelVersion p) (KernelVersion o) &&
    bytes_eqb (Core p) (Core o) &&
    bytes_eqb (Platform p) (Platform o) &&
    bytes_eqb (OS p) (OS o) &&
    bytes_eqb (OSVersion p) (OSVersion o) &&
    bytes_eqb (WtVersion p) (WtVersion o) &&
    bytes_eqb (UIVersion p) (UIVersion o) &&
    bytes_eqb (SystemSerialNumber p) (SystemSerialNumber o) &&
    bytes_eqb (SystemProductName p) (SystemProductName o) &&
    bytes_eqb (SystemManufacturer p) (SystemManufacturer o) &&
    bytes_eqb (env_Cloud (Meta_Environment p)) (env_Cloud (Meta_Environment o)) &&
    bytes_eqb (env_Platform (Meta_Environment p)) (env_Platform (Meta_Environment o)) &&
    Flags_isEqual (Meta_Flags p) (Meta_Flags o).

Definition empty {A} (l : list A) : bool := match l with [] => true | _ => false end.

Definition PeerSystemMeta_isEmpty (p : PeerSystemMeta) : bool :=
  empty (Hostname p) && empty (GoOS p) && empty (Kernel p) && empty (Core p) && empty (Platform p) &&
  empty (OS p) && empty (OSVersion p) && empty (WtVersion p) && empty (UIVersion p) && empty (KernelVersion p) &&
  empty (NetworkAddresses p) && empty (SystemSerialNumber p) && empty (SystemProductName p) &&
  empty (SystemManufacturer p) && empty (env_Cloud (Meta_Environment p)) &&
  empty (env_Platform (Meta_Environment p)) && empty (Files p).

Definition set_UIVersion (m : PeerSystemMeta) (v : bytes) : PeerSystemMeta :=
  mkMeta (Hostname m) (GoOS m) (Kernel m) (Core m) (Platform m) (OS m) (OSVersion m) (WtVersion m) v
    (KernelVersion m) (NetworkAddresses m) (SystemSerialNumber m) (SystemProductName m) (SystemManufacturer m)
    (Meta_Environment m) (Meta_Flags m) (Files m) (Meta_Cert m).

Definition set_slices (m : PeerSystemMeta) (nas : list NetworkAddress) (fs : list File) : PeerSystemMeta :=
  mkMeta (Hostname m) (GoOS m) (Kernel m) (Core m) (Platform m) (OS m) (OSVersion m) (WtVersion m) (UIVersion m)
    (KernelVersion m) nas (SystemSerialNumber m) (SystemProductName m) (SystemManufacturer m)
    (Meta_Environment m) (Meta_Flags m) fs (Meta_Cert m).

(** What [isEqual] leaves in the backing arrays of its receiver and of its
    argument, which the callers share: the addresses are sorted, the files only
    when the addresses were equal. *)
Definition sorted_by_isEqual (p o m : PeerSystemMeta) : PeerSystemMeta :=
  if bool_decide (sort_addresses (NetworkAddresses p) = sort_addresses (NetworkAddresses o))
  then set_slices m (sort_addresses (NetworkAddresses m)) (sort_files (Files m))
  else set_slices m (sort_addresses (NetworkAddresses m)) (Files m).

(** The new peer, [updated] and [versionChanged]. *)
Definition UpdateMetaIfNew (p : Peer) (meta : PeerSystemMeta) : Peer * bool * bool :=
  if PeerSystemMeta_isEmpty meta then (p, false, false)
  else
    let versionChanged := negb (bytes_eqb (WtVersion (Meta p)) (WtVersion meta)) in
    let meta := if empty (UIVersion meta) then set_UIVersion meta (UIVersion (Meta p)) else meta in
    if PeerSystemMeta_isEqual (Meta p) meta
    then (set_Meta p (sorted_by_isEqual (Meta p) meta (Meta p)), false, versionChanged)
    else (set_Meta p (sorted_by_isEqual (Meta p) meta meta), true, versionChanged).

(** ** Login and session *)

Definition AddedWithSSOLogin (p : Peer) : bool := negb (empty (UserID p)).

Definition GetLastLogin (p : Peer) : Z := default time_zero (LastLogin p).

Definition deref (s : option PeerStatus) : total PeerStatus :=
  match s with Some s => Ok s | None => Panic end.

Definition MarkLoginExpired (p : Peer) (expired : bool) : total Peer :=
  let! st := deref (Status p) in
  Ok (set_login p (Some (mkStatus (LastSeen st) (if expired then false else Connected st) expired (RequiresApproval st)))
        (LastLogin p)).

Definition UpdateLastLogin (p : Peer) (now : Z) : total Peer :=
  let! st := deref (Status p) in
  Ok (set_login p (Some (mkStatus (LastSeen st) (Connected st) false (RequiresApproval st))) (Some now)).

Definition SessionExpired (p : Peer) (expiresIn now : Z) : total (bool * Z) :=
  if negb (AddedWithSSOLogin p) || negb (InactivityExpirationEnabled p) then Ok (false, 0)
  else
    let! st := deref (Status p) in
    if Connected st then Ok (false, 0)
    else let timeLeft := Sub (LastSeen st + expiresIn) now in Ok (timeLeft <=? 0, timeLeft).

Definition LoginExpired (p : Peer) (expiresIn now : Z) : bool * Z :=
  if negb (AddedWithSSOLogin p) || negb (LoginExpirationEnabled p) then (false, 0)
  else let timeLeft := Sub (GetLastLogin p + expiresIn) now in (timeLeft <=? 0, timeLeft).

Definition FQDN (p : Peer) (dnsDomain : bytes) : bytes :=
  if empty dnsDomain then [] else DNSLabel p ++ dot :: dnsDomain.

(** [slices.Clone] and [PeerStatus.Copy] copy values: the copy is the peer. *)
Definition Peer_Copy (p : Peer) : Peer :=
  set_login p ((λ st, mkStatus (LastSeen st) (Connected st) (st_LoginExpired st) (RequiresApproval st)) <$> Status p)
    (LastLogin p).

(** ** Sorting twice *)

Lemma bytes_Compare_total s t : 0 < bytes_Compare s t → bytes_Compare t s ≤ 0.
Proof.
  revert t. induction s as [|a s IH]; intros [|b t]; cbn [bytes_Compare]; try lia.
  repeat case_if; bool_facts; try lia. auto.
Qed.

Section SortTwice.
Context {A : Type} (cmp : A → A → Z) (cmp_total : ∀ x y, 0 < cmp x y → cmp y x ≤ 0).

(** Neighbours are in order; no transitivity is needed. *)
Lemma insert_by_Sorted x l :
  Sorted (λ a b, cmp a b ≤ 0) l → Sorted (λ a b, cmp a b ≤ 0) (insert_by cmp x l).
Proof using cmp_total.
  induction 1 as [|y l Hl IH Hy]; simpl; [repeat constructor|]. case_if; bool_facts.
  - repeat (constructor; try done).
  - constructor; [done|]. destruct l as [|z l]; simpl.
    + constructor. apply cmp_total. lia.
    + case_if; bool_facts; constructor; [apply cmp_total; lia|by inversion Hy].
Qed.

Lemma sort_by_Sorted l : Sorted (λ a b, cmp a b ≤ 0) (sort_by cmp l).
Proof using cmp_total. induction l; simpl; [constructor|]. by apply insert_by_Sorted. Qed.

Lemma sort_by_id l : Sorted (λ a b, cmp a b ≤ 0) l → sort_by cmp l = l.
Proof using Type.
  induction 1 as [|y l Hl IH Hy]; simpl; [done|]. rewrite IH.
  destruct Hy as [|z l Hz]; simpl; [done|]. by rewrite (proj2 (Z.leb_le _ _) Hz).
Qed.

Lemma sort_by_idemp l : sort_by cmp (sort_by cmp l) = sort_by cmp l.
Proof using cmp_total. apply sort_by_id, sort_by_Sorted. Qed.
End SortTwice.

Lemma by_key_total {A} (key : A → bytes) x y : 0 < by_key key x y → by_key key y x ≤ 0.
Proof. apply bytes_Compare_total. Qed.

Lemma sort_addresses_idemp l : sort_addresses (sort_addresses l) = sort_addresses l.
Proof. apply sort_by_idemp, by_key_total. Qed.

Lemma sort_files_idemp l : sort_files (sort_files l) = sort_files l.
Proof. apply sort_by_idemp, by_key_total. Qed.

(** ** Metadata *)

(** What [isEqual] compares: the metadata without the order of the two slices
    and without the fields of the machine tunnel. *)
Definition meta_view (m : PeerSystemMeta) : PeerSystemMeta :=
  mkMeta (Hostname m) (GoOS m) (Kernel m) (Core m) (Platform m) (OS m) (OSVersion m) (WtVersion m) (UIVersion m)
    (KernelVersion m) (sort_addresses (NetworkAddresses m)) (SystemSerialNumber m) (SystemProductName m)
    (SystemManufacturer m) (Meta_Environment m) (Meta_Flags m) (sort_files (Files m))
    (mkCertMeta [] [] [] [] [] [] [] [] []).

Lemma Flags_isEqual_spec f o : Flags_isEqual f o = true ↔ f = o.
Proof.
  unfold Flags_isEqual. rewrite !andb_true_iff, !eqb_true_iff. destruct f, o; simpl. split; [naive_solver|].
  intros [= -> -> -> -> -> -> -> -> -> ->]. by repeat split.
Qed.

Lemma bytes_eqb_spec a b : bytes_eqb a b = true ↔ a = b.
Proof. apply bool_decide_eq_true. Qed.

Lemma isEqual_spec p o : PeerSystemMeta_isEqual p o = true ↔ meta_view p = meta_view o.
Proof.
  unfold PeerSystemMeta_isEqual, meta_view. destruct (decide (sort_addresses (NetworkAddresses p) = sort_addresses (NetworkAddresses o))) as [Ha|Ha].
  2:{ rewrite bool_decide_false by done. simpl. split; [done|]. by intros [=]. }
  rewrite (bool_decide_true _ Ha). simpl.
  destruct (decide (sort_files (Files p) = sort_files (Files o))) as [Hf|Hf].
  2:{ rewrite bool_decide_false by done. simpl. split; [done|]. by intros [=]. }
  rewrite (bool_decide_true _ Hf). simpl. rewrite Ha, Hf.
  rewrite !andb_true_iff, !bytes_eqb_spec, Flags_isEqual_spec.
  destruct p as [? ? ? ? ? ? ? ? ? ? ? ? ? ? [? ?] ? ? ?], o as [? ? ? ? ? ? ? ? ? ? ? ? ? ? [? ?] ? ? ?]; simpl in *.
  split; [by intros (((((((((((((((-> & ->) & ->) & ->) & ->) & ->) & ->) & ->) & ->) & ->) & ->) & ->) & ->) & ->) & ->) & ->)|].
  intros [=]. subst. by repeat split.
Qed.

(** The metadata a peer stores for a report: the version of the user interface
    is kept when the report has none. *)
Definition reported (p : Peer) (meta : PeerSystemMeta) : PeerSystemMeta :=
  if empty (UIVersion meta) then set_UIVersion meta (UIVersion (Meta p)) else meta.

Lemma view_sorted p o m : meta_view (sorted_by_isEqual p o m) = meta_view m.
Proof.
  unfold sorted_by_isEqual, meta_view, set_slices. case_bool_decide; simpl;
    by rewrite ?sort_addresses_idemp, ?sort_files_idemp.
Qed.

Lemma cert_sorted p o m : Meta_Cert (sorted_by_isEqual p o m) = Meta_Cert m.
Proof. unfold sorted_by_isEqual. by case_bool_decide. Qed.

Lemma reported_twice p q meta : UIVersion (Meta q) = UIVersion (reported p meta) → reported q meta = reported p meta.
Proof. unfold reported. destruct (UIVersion meta) eqn:E; [|done]. simpl. by intros ->. Qed.

(** One report: nothing for an empty one; otherwise the stored metadata
    becomes the report up to the order of the slices and, only when something
    [isEqual] looks at has changed, with the machine-tunnel fields. *)
Lemma update_meta_cases p meta :
  PeerSystemMeta_isEmpty meta = false →
  ∃ p' upd, UpdateMetaIfNew p meta = (p', upd, negb (bytes_eqb (WtVersion (Meta p)) (WtVersion meta))) ∧
    p' = set_Meta p (Meta p') ∧
    meta_view (Meta p') = meta_view (reported p meta) ∧
    (upd = true ↔ meta_view (Meta p) ≠ meta_view (reported p meta)) ∧
    Meta_Cert (Meta p') = if upd then Meta_Cert meta else Meta_Cert (Meta p).
Proof.
  intros He. unfold UpdateMetaIfNew. rewrite He. fold (reported p meta).
  assert (Hc : Meta_Cert (reported p meta) = Meta_Cert meta) by (unfold reported; by destruct (empty _)).
  destruct (PeerSystemMeta_isEqual _ _) eqn:Eq.
  - apply isEqual_spec in Eq. eexists _, _. split; [done|]. simpl. rewrite view_sorted, cert_sorted.
    by rewrite Eq.
  - assert (meta_view (Meta p) ≠ meta_view (reported p meta)) by (rewrite <- isEqual_spec, Eq; done).
    eexists _, _. split; [done|]. simpl. rewrite view_sorted, cert_sorted, Hc. naive_solver.
Qed.

Definition set_Cert (m : PeerSystemMeta) (c : CertMeta) : PeerSystemMeta :=
  mkMeta (Hostname m) (GoOS m) (Kernel m) (Core m) (Platform m) (OS m) (OSVersion m) (WtVersion m) (UIVersion m)
    (KernelVersion m) (NetworkAddresses m) (SystemSerialNumber m) (SystemProductName m) (SystemManufacturer m)
    (Meta_Environment m) (Meta_Flags m) (Files m) c.

(** A report of system metadata that is not empty is stored, except for the
    order of the addresses and files and for a missing user-interface version,
    and nothing else of the peer changes; the peer counts as updated exactly
    when something the comparison looks at has changed, and reporting the same
    again changes nothing.  The comparison does not look at the fields of the
    machine tunnel: a report that renews only the certificate is dropped, so
    the stored serial number and the time of the last certificate
    authentication stay those of the old certificate. *)
Theorem metadata_update p meta p' upd vc :
  PeerSystemMeta_isEmpty meta = false → UpdateMetaIfNew p meta = (p', upd, vc) →
  p' = set_Meta p (Meta p') ∧
  meta_view (Meta p') = meta_view (reported p meta) ∧
  (upd = true ↔ meta_view (Meta p) ≠ meta_view (reported p meta)) ∧
  (vc = true ↔ WtVersion (Meta p) ≠ WtVersion meta) ∧
  (∃ p'', UpdateMetaIfNew p' meta = (p'', false, false) ∧ meta_view (Meta p'') = meta_view (Meta p')) ∧
  (∀ c p2 upd2 vc2, UpdateMetaIfNew p' (set_Cert (Meta p') c) = (p2, upd2, vc2) →
     upd2 = false ∧ Meta_Cert (Meta p2) = Meta_Cert (Meta p')).
Proof.
  intros He Hu. destruct (update_meta_cases p meta He) as (q & u & E & Hq & Hv & Hup & _).
  rewrite E in Hu. injection Hu as <- <- <-. split_and!; [done..| | |].
  - rewrite negb_true_iff, <- not_true_iff_false. by rewrite bytes_eqb_spec.
  - assert (Hr : reported q meta = reported p meta).
    { apply reported_twice. apply (f_equal UIVersion) in Hv. exact Hv. }
    destruct (update_meta_cases q meta He) as (q' & u' & E' & _ & Hv' & Hup' & _). exists q'.
    rewrite Hr, Hv in Hup'. destruct u'; [naive_solver|]. rewrite E', Hv', Hr, <- Hv. split; [|done].
    apply (f_equal WtVersion) in Hv. change (WtVersion (Meta q) = WtVersion (reported p meta)) in Hv. rewrite Hv.
    replace (WtVersion (reported p meta)) with (WtVersion meta) by (unfold reported; by destruct (empty _)).
    by rewrite (proj2 (bytes_eqb_spec _ _) eq_refl).
  - intros c p2 u2 v2 E2. destruct (PeerSystemMeta_isEmpty (set_Cert (Meta q) c)) eqn:Em.
    { unfold UpdateMetaIfNew in E2. rewrite Em in E2. by injection E2 as <- <- <-. }
    destruct (update_meta_cases q _ Em) as (q2 & w & E3 & _ & _ & Hw & Hc). rewrite E3 in E2.
    injection E2 as <- <- <-. assert (meta_view (reported q (set_Cert (Meta q) c)) = meta_view (Meta q)) as Hr.
    { unfold reported. simpl. destruct (UIVersion (Meta q)) eqn:Eu; [|done]. unfold meta_view. simpl. by rewrite Eu. }
    rewrite Hr in Hw. destruct w; [naive_solver|done].
Qed.

Definition no_flags : Flags := mkFlags false false false false false false false false false false.

Definition no_cert : CertMeta := mkCertMeta [] [] [] [] [] [] [] [] [].

Definition example_meta (host version : string) : PeerSystemMeta :=
  mkMeta (str host) (str "linux") (str "Linux") [] [] (str "Linux") [] (str version) [] (str "6.1.0") [] [] [] []
    (mkEnvironment [] []) no_flags [mkFile (str "/b") true true; mkFile (str "/a") true false] no_cert.

Definition example_peer (id key : string) (ip : bytes) (version : string) : Peer :=
  mkPeer (str id) (str "account") (str key) ip (example_meta id version) (mkProxyMeta false []) (str id) (str id)
    (Some (mkStatus 0 true false false)) (str "user") [] false true true (Some (100 * second)) 0 false
    (mkLocation [] (str "DE") (str "Berlin") 0) [] false.

Lemma metadata_update_witness :
  let p := example_peer "peer-a" "key-a" [] "0.59.0" in
  let r := UpdateMetaIfNew p (example_meta "peer-a" "0.60.0") in
  r.1.2 = true ∧ r.2 = true ∧
  ∃ p'', UpdateMetaIfNew r.1.1 (example_meta "peer-a" "0.60.0") = (p'', false, false) ∧
         meta_view (Meta p'') = meta_view (Meta r.1.1).
Proof.
  intros p r. split; [vm_compute; reflexivity|]. split; [vm_compute; reflexivity|].
  apply (metadata_update p (example_meta "peer-a" "0.60.0") r.1.1 r.1.2 r.2); vm_compute; reflexivity.
Defined.

(** ** Login and session *)

Lemma Sub_sign t u : (Sub t u <=? 0) = (t <=? u).
Proof. unfold Sub. lia. Qed.

Lemma LoginExpired_spec q e n :
  (LoginExpired q e n).1 = AddedWithSSOLogin q && LoginExpirationEnabled q && (GetLastLogin q + e <=? n).
Proof.
  unfold LoginExpired. destruct (AddedWithSSOLogin q), (LoginExpirationEnabled q); simpl; try done. by rewrite Sub_sign.
Qed.

(** When a login counts as expired.  Only a peer a user has added can expire,
    and only when the peer has the check enabled; it expires at the moment of
    its last login plus the period, and a peer that never logged in is expired
    from the start for every period up to the year 1970.  A login resets the
    clock; a peer marked as expired is disconnected, so that its session expires
    as well once the inactivity period after it was last seen is over. *)
Theorem login_expiry p period now :
  (LoginExpired p period now).1 =
    (AddedWithSSOLogin p && LoginExpirationEnabled p && (GetLastLogin p + period <=? now)) ∧
  (LastLogin p = None → period ≤ now + 62135596800 * second →
     (LoginExpired p period now).1 = AddedWithSSOLogin p && LoginExpirationEnabled p) ∧
  (∀ st t, Status p = Some st → ∃ p', UpdateLastLogin p t = Ok p' ∧
     ((LoginExpired p' period now).1 = true ↔
        AddedWithSSOLogin p = true ∧ LoginExpirationEnabled p = true ∧ t + period ≤ now)) ∧
  (∀ st, Status p = Some st → ∃ p', MarkLoginExpired p true = Ok p' ∧
     ∃ left, SessionExpired p' period now =
       Ok (AddedWithSSOLogin p && InactivityExpirationEnabled p && (LastSeen st + period <=? now), left)) ∧
  (Status p = None → UpdateLastLogin p now = Panic ∧ MarkLoginExpired p true = Panic).
Proof.
  split; [apply LoginExpired_spec|]. split; [|split; [|split]].
  - intros Hn Hp. rewrite LoginExpired_spec. unfold GetLastLogin, time_zero. rewrite Hn. cbn [default].
    rewrite (proj2 (Z.leb_le _ _)) by lia. by rewrite andb_true_r.
  - intros st t Hs. unfold UpdateLastLogin. rewrite Hs. eexists. split; [done|]. rewrite LoginExpired_spec.
    rewrite !andb_true_iff, Z.leb_le. unfold AddedWithSSOLogin, GetLastLogin. simpl. tauto.
  - intros st Hs. unfold MarkLoginExpired. rewrite Hs. eexists. split; [done|].
    unfold SessionExpired, AddedWithSSOLogin. simpl.
    destruct (empty (UserID p)), (InactivityExpirationEnabled p); simpl; eauto. eexists. by rewrite Sub_sign.
  - intros Hs. unfold UpdateLastLogin, MarkLoginExpired. by rewrite Hs.
Qed.
