(* ===== verification/Posture.v ===== *)
(** * Posture checks

    management/server/posture: conditions on a peer's system that the policies
    of an account attach to the sources of a rule.

    Parsing and comparing version numbers is the library
    github.com/hashicorp/go-version, the class [GoVersion]: its two parsers, the
    segments, pre-release tag and order of versions and what the library documents
    of the constraint [">= v"], with its rule for pre-releases.  [netip.ParsePrefix] and the text form of a prefix are arguments of
    the conversions to and from the API; their law is a hypothesis of the round
    trip. *)

From S2P Require Import Prelude GoStd GoStrings NetIP FirewallRules Peers.

#[local] Open Scope go_scope.

(** ** The version library *)

Definition sanitizeVersion (version : bytes) : bytes := default [] (head (SplitByte hyphen version)).

(** The rule of go-version for pre-releases in a constraint: a version with a tag
    only meets a bound with a tag and the same segments. *)
Definition prereleaseCheck {V : Type} (Segments : V → list Z) (Prerelease : V → bytes) (v c : V) : bool :=
  empty (Prerelease v) || (negb (empty (Prerelease c)) && bool_decide (Segments v = Segments c)).

Class GoVersion (Version : Type) := {
  NewVersion : bytes → option Version;
  Segments : Version → list Z;
  Prerelease : Version → bytes;
  (** [NewConstraint("..")] and its [Check]. *)
  NewConstraint : bytes → option (Version → bool);
  version_le : Version → Version → bool;
  (** A version parses as the bound of [">= v"], which admits the versions from
      it on that pass the rule for pre-releases. *)
  constraint_ge : ∀ v w, NewVersion v = Some w → ∃ c, NewConstraint (str ">= " ++ v) = Some c ∧
    ∀ x, c x = prereleaseCheck Segments Prerelease x w && version_le w x;
  (** A version begins with its numeric segments; what follows the first hyphen
      belongs to the pre-release tag or to the build metadata. *)
  version_core : ∀ v w, NewVersion v = Some w → is_Some (NewVersion (sanitizeVersion v))
}.

(** ** Data *)

Definition CheckActionAllow : bytes := str "allow".

Definition CheckActionDeny : bytes := str "deny".

Record NBVersionCheck := mkNBVersion { nb_MinVersion : bytes }.

Record MinVersionCheck := mkMinVersion { mv_MinVersion : bytes }.

Record MinKernelVersionCheck := mkMinKernel { mk_MinKernelVersion : bytes }.

Record OSVersionCheck := mkOSVersion {
  Android : option MinVersionCheck;
  Darwin : option MinVersionCheck;
  Ios : option MinVersionCheck;
  Linux : option MinKernelVersionCheck;
  Windows : option MinKernelVersionCheck
}.

Record CheckLocation := mkCheckLocation { loc_CountryCode : bytes; loc_CityName : bytes }.

Record GeoLocationCheck := mkGeo { geo_Locations : list CheckLocation; geo_Action : bytes }.

Record PeerNetworkRangeCheck := mkRange { range_Action : bytes; range_Ranges : list Prefix }.

Record Process := mkProcess { LinuxPath : bytes; MacPath : bytes; WindowsPath : bytes }.

Record ProcessCheck := mkProcessCheck { Processes : list Process }.

Record ChecksDefinition := mkDefinition {
  cd_NBVersionCheck : option NBVersionCheck;
  cd_OSVersionCheck : option OSVersionCheck;
  cd_GeoLocationCheck : option GeoLocationCheck;
  cd_PeerNetworkRangeCheck : option PeerNetworkRangeCheck;
  cd_ProcessCheck : option ProcessCheck
}.

Record Checks := mkChecks {
  pc_ID : bytes;
  pc_Name : bytes;
  pc_Description : bytes;
  pc_AccountID : bytes;
  pc_Checks : ChecksDefinition
}.

(** The interface [Check] and its implementations. *)
Inductive Check :=
| CheckNBVersion (c : NBVersionCheck)
| CheckOSVersion (c : OSVersionCheck)
| CheckGeoLocation (c : GeoLocationCheck)
| CheckPeerNetworkRange (c : PeerNetworkRangeCheck)
| CheckProcess (c : ProcessCheck).

Inductive checkErr :=
| ErrPeerVersion (v : bytes)
| ErrConstraint (v : bytes)
| ErrNoLocation
| ErrAction (a : bytes)
| ErrNoAddresses
| ErrUnsupportedOS (os : bytes)
| ErrEmpty
| ErrInvalidVersion (v : bytes)
| ErrCountryCode (c : bytes)
| ErrPrefix.

(** ** The checks: [Err] stands for the result false with an error *)

Section Checks.
Context `{GoVersion Version}.

(** [version.NewVersion], [version.NewConstraint] and [Check], as all three
    callers use them. *)
Definition check_min (minVer peerVer : bytes) : outcome checkErr bool :=
  match NewVersion peerVer with
  | None => Err (ErrPeerVersion peerVer)
  | Some v =>
      match NewConstraint (str ">= " ++ minVer) with
      | None => Err (ErrConstraint minVer)
      | Some c => Ok (c v)
      end
  end.

Definition MeetsMinVersion (minVer peerVer : bytes) : outcome checkErr bool :=
  check_min (sanitizeVersion minVer) (sanitizeVersion peerVer).

Definition NBVersionCheck_Check (n : NBVersionCheck) (peer : Peer) : outcome checkErr bool :=
  let! meetsMin := MeetsMinVersion (nb_MinVersion n) (WtVersion (Meta peer)) in
  if (meetsMin : bool) then Ok true else Ok false.

Definition checkMinVersion (peerVersion : bytes) (check : option MinVersionCheck) : outcome checkErr bool :=
  match check with
  | None => Ok false
  | Some c => check_min (mv_MinVersion c) peerVersion
  end.

Definition checkMinKernelVersion (peerVersion : bytes) (check : option MinKernelVersionCheck) : outcome checkErr bool :=
  match check with
  | None => Ok false
  | Some c => check_min (mk_MinKernelVersion c) peerVersion
  end.

Definition OSVersionCheck_Check (c : OSVersionCheck) (peer : Peer) : outcome checkErr bool :=
  let os := GoOS (Meta peer) in
  if bytes_eqb os (str "android") then checkMinVersion (OSVersion (Meta peer)) (Android c)
  else if bytes_eqb os (str "darwin") then checkMinVersion (OSVersion (Meta peer)) (Darwin c)
  else if bytes_eqb os (str "ios") then checkMinVersion (OSVersion (Meta peer)) (Ios c)
  else if bytes_eqb os (str "linux") then
    checkMinKernelVersion (default [] (head (SplitByte hyphen (KernelVersion (Meta peer))))) (Linux c)
  else if bytes_eqb os (str "windows") then checkMinKernelVersion (KernelVersion (Meta peer)) (Windows c)
  else Ok true.

Definition loc_matches (peer : Location) (loc : CheckLocation) : bool :=
  bytes_eqb (loc_CountryCode loc) (CountryCode peer) &&
  (empty (loc_CityName loc) || bytes_eqb (loc_CityName loc) (CityName peer)).

(** The [switch] on the action at a match, and the tests after the loop. *)
Definition on_match (action : bytes) : outcome checkErr bool :=
  if bytes_eqb action CheckActionDeny then Ok false
  else if bytes_eqb action CheckActionAllow then Ok true
  else Err (ErrAction action).

Definition on_no_match (action : bytes) : outcome checkErr bool :=
  if bytes_eqb action CheckActionDeny then Ok true
  else if bytes_eqb action CheckActionAllow then Ok false
  else Err (ErrAction action).

Fixpoint geo_loop (peer : Location) (action : bytes) (locs : list CheckLocation) : outcome checkErr bool :=
  match locs with
  | [] => on_no_match action
  | loc :: locs => if loc_matches peer loc then on_match action else geo_loop peer action locs
  end.

Definition GeoLocationCheck_Check (g : GeoLocationCheck) (peer : Peer) : outcome checkErr bool :=
  if empty (CountryCode (Peer_Location peer)) && empty (CityName (Peer_Location peer)) then Err ErrNoLocation
  else geo_loop (Peer_Location peer) (geo_Action g) (geo_Locations g).

Fixpoint range_loop (masked : list Prefix) (action : bytes) (addrs : list NetworkAddress) : outcome checkErr bool :=
  match addrs with
  | [] => on_no_match action
  | a :: addrs =>
      if bool_decide (Masked (na_NetIP a) ∈ masked) then on_match action else range_loop masked action addrs
  end.

Definition PeerNetworkRangeCheck_Check (p : PeerNetworkRangeCheck) (peer : Peer) : outcome checkErr bool :=
  if empty (NetworkAddresses (Meta peer)) then Err ErrNoAddresses
  else range_loop (Masked <$> range_Ranges p) (range_Action p) (NetworkAddresses (Meta peer)).

Definition extractPeerActiveProcesses (files : list File) : list bytes :=
  f_Path <$> List.filter f_ProcessIsRunning files.

Fixpoint areAllProcessesRunning (processes : list Process) (active : list bytes) (pathSelector : Process → bytes) : bool :=
  match processes with
  | [] => true
  | process :: processes =>
      let path := pathSelector process in
      if empty path || negb (bool_decide (path ∈ active)) then false
      else areAllProcessesRunning processes active pathSelector
  end.

Definition ProcessCheck_Check (p : ProcessCheck) (peer : Peer) : outcome checkErr bool :=
  let active := extractPeerActiveProcesses (Files (Meta peer)) in
  let os := GoOS (Meta peer) in
  if bytes_eqb os (str "linux") then Ok (areAllProcessesRunning (Processes p) active LinuxPath)
  else if bytes_eqb os (str "darwin") then Ok (areAllProcessesRunning (Processes p) active MacPath)
  else if bytes_eqb os (str "windows") then Ok (areAllProcessesRunning (Processes p) active WindowsPath)
  else Err (ErrUnsupportedOS os).

Definition Check_Check (c : Check) (peer : Peer) : outcome checkErr bool :=
  match c with
  | CheckNBVersion c => NBVersionCheck_Check c peer
  | CheckOSVersion c => OSVersionCheck_Check c peer
  | CheckGeoLocation c => GeoLocationCheck_Check c peer
  | CheckPeerNetworkRange c => PeerNetworkRangeCheck_Check c peer
  | CheckProcess c => ProcessCheck_Check c peer
  end.

Definition opt_check {A} (f : A → Check) (c : option A) : list Check := match c with Some c => [f c] | None => [] end.

Definition GetChecks (pc : Checks) : list Check :=
  opt_check CheckNBVersion (cd_NBVersionCheck (pc_Checks pc)) ++
  opt_check CheckOSVersion (cd_OSVersionCheck (pc_Checks pc)) ++
  opt_check CheckGeoLocation (cd_GeoLocationCheck (pc_Checks pc)) ++
  opt_check CheckPeerNetworkRange (cd_PeerNetworkRangeCheck (pc_Checks pc)) ++
  opt_check CheckProcess (cd_ProcessCheck (pc_Checks pc)).

(** ** Validation *)

Definition isVersionValid (ver : bytes) : bool := match NewVersion ver with Some _ => true | None => false end.

Definition NBVersionCheck_Validate (n : NBVersionCheck) : outcome checkErr unit :=
  if empty (nb_MinVersion n) then Err ErrEmpty
  else if negb (isVersionValid (nb_MinVersion n)) then Err (ErrInvalidVersion (nb_MinVersion n))
  else Ok tt.

(** A bound that is given has to parse. *)
Definition bound_valid {A} (ver : A → bytes) (c : option A) : outcome checkErr unit :=
  match c with
  | Some c => if isVersionValid (ver c) then Ok tt else Err (ErrInvalidVersion (ver c))
  | None => Ok tt
  end.

Definition OSVersionCheck_Validate (c : OSVersionCheck) : outcome checkErr unit :=
  match c with
  | mkOSVersion None None None None None => Err ErrEmpty
  | _ =>
      let! _ := bound_valid mv_MinVersion (Android c) in
      let! _ := bound_valid mv_MinVersion (Ios c) in
      let! _ := bound_valid mv_MinVersion (Darwin c) in
      let! _ := bound_valid mk_MinKernelVersion (Linux c) in
      bound_valid mk_MinKernelVersion (Windows c)
  end.

Definition action_valid (a : bytes) : bool := bytes_eqb a CheckActionAllow || bytes_eqb a CheckActionDeny.

Definition is_letter (b : byte) : bool := is_lower b || is_upper b.

(** The regular expression ^[a-zA-Z]{2}$. *)
Definition countryCodeRegex (s : bytes) : bool := (length s =? 2)%nat && forallb is_letter s.

Fixpoint locations_valid (locs : list CheckLocation) : outcome checkErr unit :=
  match locs with
  | [] => Ok tt
  | loc :: locs =>
      if empty (loc_CountryCode loc) then Err ErrEmpty
      else if negb (countryCodeRegex (loc_CountryCode loc)) then Err (ErrCountryCode (loc_CountryCode loc))
      else locations_valid locs
  end.

Definition GeoLocationCheck_Validate (g : GeoLocationCheck) : outcome checkErr unit :=
  if empty (geo_Action g) then Err ErrEmpty
  else if negb (action_valid (geo_Action g)) then Err (ErrAction (geo_Action g))
  else if empty (geo_Locations g) then Err ErrEmpty
  else locations_valid (geo_Locations g).

Definition PeerNetworkRangeCheck_Validate (p : PeerNetworkRangeCheck) : outcome checkErr unit :=
  if empty (range_Action p) then Err ErrEmpty
  else if negb (action_valid (range_Action p)) then Err (ErrAction (range_Action p))
  else if empty (range_Ranges p) then Err ErrEmpty
  else Ok tt.

Definition process_empty (p : Process) : bool := empty (LinuxPath p) && empty (MacPath p) && empty (WindowsPath p).

Definition ProcessCheck_Validate (p : ProcessCheck) : outcome checkErr unit :=
  if empty (Processes p) then Err ErrEmpty
  else if existsb process_empty (Processes p) then Err ErrEmpty
  else Ok tt.

Definition Check_Validate (c : Check) : outcome checkErr unit :=
  match c with
  | CheckNBVersion c => NBVersionCheck_Validate c
  | CheckOSVersion c => OSVersionCheck_Validate c
  | CheckGeoLocation c => GeoLocationCheck_Validate c
  | CheckPeerNetworkRange c => PeerNetworkRangeCheck_Validate c
  | CheckProcess c => ProcessCheck_Validate c
  end.

Fixpoint validate_all (cs : list Check) : outcome checkErr unit :=
  match cs with
  | [] => Ok tt
  | c :: cs => let! _ := Check_Validate c in validate_all cs
  end.

Definition Checks_Validate (pc : Checks) : outcome checkErr unit :=
  if empty (pc_Name pc) then Err ErrEmpty
  else if empty (GetChecks pc) then Err ErrEmpty
  else validate_all (GetChecks pc).
End Checks.

(** ** The API *)

Record api_GeoLocation := mkApiLocation { api_CityName : option bytes; api_CountryCode : bytes }.

Record api_Process := mkApiProcess {
  api_LinuxPath : option bytes;
  api_MacPath : option bytes;
  api_WindowsPath : option bytes
}.

Record api_Checks := mkApiChecks {
  api_NbVersionCheck : option bytes;
  api_OsVersionCheck : option (option bytes * option bytes * option bytes * option bytes * option bytes);
  api_GeoLocationCheck : option (bytes * list api_GeoLocation);
  api_PeerNetworkRangeCheck : option (bytes * list bytes);
  api_ProcessCheck : option (list api_Process)
}.

Record api_PostureCheck := mkApiPosture {
  api_Id : bytes;
  api_Name : bytes;
  api_Description : option bytes;
  api_checks : api_Checks
}.

Section Api.
Context (ParsePrefix : bytes → option Prefix) (Prefix_String : Prefix → bytes).

Definition toGeoLocationCheckResponse (g : GeoLocationCheck) : bytes * list api_GeoLocation :=
  (geo_Action g,
   (λ loc, mkApiLocation (if empty (loc_CityName loc) then None else Some (loc_CityName loc)) (loc_CountryCode loc))
     <$> geo_Locations g).

Definition toPostureGeoLocationCheck (g : bytes * list api_GeoLocation) : GeoLocationCheck :=
  mkGeo ((λ loc, mkCheckLocation (api_CountryCode loc) (default [] (api_CityName loc))) <$> g.2) g.1.

Definition toPeerNetworkRangeCheckResponse (c : PeerNetworkRangeCheck) : bytes * list bytes :=
  (range_Action c, Prefix_String <$> range_Ranges c).

Fixpoint parse_ranges (l : list bytes) : outcome checkErr (list Prefix) :=
  match l with
  | [] => Ok []
  | s :: l =>
      match ParsePrefix s with
      | None => Err ErrPrefix
      | Some p => let! ps := parse_ranges l in Ok (p :: ps)
      end
  end.

Definition toPeerNetworkRangeCheck (c : bytes * list bytes) : outcome checkErr PeerNetworkRangeCheck :=
  let! prefixes := parse_ranges c.2 in Ok (mkRange c.1 prefixes).

Definition toProcessCheckResponse (c : ProcessCheck) : list api_Process :=
  (λ p, mkApiProcess (Some (LinuxPath p)) (Some (MacPath p)) (Some (WindowsPath p))) <$> Processes c.

Definition toProcessCheck (c : list api_Process) : ProcessCheck :=
  mkProcessCheck
    ((λ p, mkProcess (default [] (api_LinuxPath p)) (default [] (api_MacPath p)) (default [] (api_WindowsPath p))) <$> c).

Definition ToAPIResponse (pc : Checks) : api_PostureCheck :=
  let cd := pc_Checks pc in
  mkApiPosture (pc_ID pc) (pc_Name pc) (Some (pc_Description pc))
    (mkApiChecks
      (nb_MinVersion <$> cd_NBVersionCheck cd)
      ((λ os, (mv_MinVersion <$> Android os, mv_MinVersion <$> Darwin os, mv_MinVersion <$> Ios os,
               mk_MinKernelVersion <$> Linux os, mk_MinKernelVersion <$> Windows os)) <$> cd_OSVersionCheck cd)
      (toGeoLocationCheckResponse <$> cd_GeoLocationCheck cd)
      (toPeerNetworkRangeCheckResponse <$> cd_PeerNetworkRangeCheck cd)
      (toProcessCheckResponse <$> cd_ProcessCheck cd)).

Definition buildPostureCheck (id name description : bytes) (checks : api_Checks) : outcome checkErr Checks :=
  let! range :=
    match api_PeerNetworkRangeCheck checks with
    | None => Ok None
    | Some c => let! r := toPeerNetworkRangeCheck c in Ok (Some r)
    end in
  Ok (mkChecks id name description []
    (mkDefinition
      (mkNBVersion <$> api_NbVersionCheck checks)
      ((λ '(android, darwin, ios, linux, windows),
          mkOSVersion (mkMinVersion <$> android) (mkMinVersion <$> darwin) (mkMinVersion <$> ios)
            (mkMinKernel <$> linux) (mkMinKernel <$> windows)) <$> api_OsVersionCheck checks)
      (toPostureGeoLocationCheck <$> api_GeoLocationCheck checks)
      range
      (toProcessCheck <$> api_ProcessCheck checks))).

Definition NewChecksFromAPIPostureCheck (source : api_PostureCheck) : outcome checkErr Checks :=
  buildPostureCheck (api_Id source) (api_Name source) (default [] (api_Description source)) (api_checks source).
End Api.

(** ** What a check asks of a peer *)

Section Exact.
Context `{GoVersion Version}.

(** The version is at least the bound; if it is a pre-release, the bound is one of
    the same version. *)
Definition at_least (minVer peerVer : bytes) : Prop :=
  ∃ w x, NewVersion minVer = Some w ∧ NewVersion peerVer = Some x ∧ version_le w x = true ∧
    (Prerelease x ≠ [] → Prerelease w ≠ [] ∧ Segments x = Segments w).

Definition decided (action : bytes) (matched : Prop) : Prop :=
  (action = CheckActionAllow ∧ matched) ∨ (action = CheckActionDeny ∧ ¬ matched).

Definition bounded {A} (ver : A → bytes) (c : option A) (peerVer : bytes) : Prop :=
  ∃ b, c = Some b ∧ at_least (ver b) peerVer.

Definition path_of (os : bytes) : option (Process → bytes) :=
  if bytes_eqb os (str "linux") then Some LinuxPath
  else if bytes_eqb os (str "darwin") then Some MacPath
  else if bytes_eqb os (str "windows") then Some WindowsPath else None.

Definition passes (c : Check) (peer : Peer) : Prop :=
  let m := Meta peer in
  match c with
  | CheckNBVersion c => at_least (sanitizeVersion (nb_MinVersion c)) (sanitizeVersion (WtVersion m))
  | CheckOSVersion c =>
      (GoOS m = str "android" → bounded mv_MinVersion (Android c) (OSVersion m)) ∧
      (GoOS m = str "darwin" → bounded mv_MinVersion (Darwin c) (OSVersion m)) ∧
      (GoOS m = str "ios" → bounded mv_MinVersion (Ios c) (OSVersion m)) ∧
      (GoOS m = str "linux" → bounded mk_MinKernelVersion (Linux c) (sanitizeVersion (KernelVersion m))) ∧
      (GoOS m = str "windows" → bounded mk_MinKernelVersion (Windows c) (KernelVersion m))
  | CheckGeoLocation c =>
      let l := Peer_Location peer in
      ¬ (CountryCode l = [] ∧ CityName l = []) ∧
      decided (geo_Action c) (∃ x, x ∈ geo_Locations c ∧ loc_CountryCode x = CountryCode l ∧
                                   (loc_CityName x = [] ∨ loc_CityName x = CityName l))
  | CheckPeerNetworkRange c =>
      NetworkAddresses m ≠ [] ∧
      decided (range_Action c) (∃ a r, a ∈ NetworkAddresses m ∧ r ∈ range_Ranges c ∧ Masked (na_NetIP a) = Masked r)
  | CheckProcess c =>
      ∃ path, path_of (GoOS m) = Some path ∧
        ∀ p, p ∈ Processes c → path p ≠ [] ∧ ∃ f, f ∈ Files m ∧ f_ProcessIsRunning f = true ∧ f_Path f = path p
  end.

(** The errors that are about the peer and not about the check. *)
Definition peer_fault (e : checkErr) : Prop :=
  match e with ErrPeerVersion _ | ErrNoLocation | ErrNoAddresses | ErrUnsupportedOS _ => True | _ => False end.

(** A check that answers for [P] and whose errors are the peer's. *)
Definition answers (out : outcome checkErr bool) (P : Prop) : Prop :=
  (out = Ok true ↔ P) ∧ (∀ e, out = Err e → peer_fault e) ∧ out ≠ Panic.

Lemma answers_bool b (P : Prop) : (b = true ↔ P) → answers (Ok b) P.
Proof. intros Hb. split_and!; [|done..]. rewrite <- Hb. naive_solver. Qed.

Lemma answers_iff out P Q : answers out P → (P ↔ Q) → answers out Q.
Proof. intros (H1 & H2 & H3) HPQ. split_and!; [by rewrite H1|done..]. Qed.

Lemma answers_fault e (P : Prop) : peer_fault e → ¬ P → answers (Err e) P.
Proof. intros. split_and!; [done| |done]. by intros ? [= <-]. Qed.

Lemma bytes_eqb_false a b : bytes_eqb a b = false ↔ a ≠ b.
Proof. apply bool_decide_eq_false. Qed.

Lemma prereleaseCheck_spec (x w : Version) :
  prereleaseCheck Segments Prerelease x w = true ↔ (Prerelease x ≠ [] → Prerelease w ≠ [] ∧ Segments x = Segments w).
Proof.
  unfold prereleaseCheck. destruct (Prerelease x) as [|b t]; cbn [empty orb]; [split; [by intros|done]|].
  rewrite andb_true_iff, bool_decide_eq_true. destruct (Prerelease w); cbn [empty negb]; naive_solver.
Qed.

Lemma check_min_answers minVer peerVer :
  is_Some (NewVersion minVer) → answers (check_min minVer peerVer) (at_least minVer peerVer).
Proof.
  intros [w Hw]. unfold check_min, at_least. destruct (NewVersion peerVer) as [x|] eqn:Ex.
  - destruct (constraint_ge minVer w Hw) as (c & -> & Hc). apply answers_bool. rewrite Hc, Hw, andb_true_iff, prereleaseCheck_spec.
    split; [intros []; by exists w, x|]. by intros (? & ? & [= <-] & [= <-] & ? & ?).
  - apply answers_fault; [done|]. by intros (? & ? & _ & ? & _).
Qed.

Lemma valid_version v : isVersionValid v = true → is_Some (NewVersion v).
Proof. unfold isVersionValid. destruct (NewVersion v); [eauto|done]. Qed.

Lemma nb_answers n peer :
  NBVersionCheck_Validate n = Ok tt → answers (NBVersionCheck_Check n peer) (passes (CheckNBVersion n) peer).
Proof.
  unfold NBVersionCheck_Validate. destruct (empty _); [done|].
  destruct (isVersionValid (nb_MinVersion n)) eqn:Ev; [|done]. intros _. destruct (valid_version _ Ev) as [w Hw].
  unfold NBVersionCheck_Check, MeetsMinVersion. simpl.
  destruct (check_min_answers _ (sanitizeVersion (WtVersion (Meta peer))) (version_core _ _ Hw)) as (H2 & H3 & H4).
  destruct (check_min _ _) as [[]|e|]; simpl; [done| |done|done].
  split_and!; done.
Qed.

Lemma bounded_answers {A} (ver : A → bytes) c peerVer :
  bound_valid ver c = Ok tt →
  answers (match c with None => Ok false | Some b => check_min (ver b) peerVer end) (bounded ver c peerVer).
Proof.
  unfold bound_valid, bounded. destruct c as [b|]; intros Hv.
  - destruct (isVersionValid (ver b)) eqn:Ev; [|done]. destruct (check_min_answers (ver b) peerVer) as (H2 & H3 & H4); [by apply valid_version|].
    split_and!; [|done..]. rewrite H2. naive_solver.
  - apply answers_bool. naive_solver.
Qed.

Lemma os_valid c : OSVersionCheck_Validate c = Ok tt →
  bound_valid mv_MinVersion (Android c) = Ok tt ∧ bound_valid mv_MinVersion (Ios c) = Ok tt ∧
  bound_valid mv_MinVersion (Darwin c) = Ok tt ∧ bound_valid mk_MinKernelVersion (Linux c) = Ok tt ∧
  bound_valid mk_MinKernelVersion (Windows c) = Ok tt.
Proof.
  assert (Hu : ∀ (x : outcome checkErr unit) y, (let! _ := x in y) = Ok tt → x = Ok tt ∧ y = Ok tt).
  { intros [[]| |] y; simpl; by auto. }
  unfold OSVersionCheck_Validate. intros Hc.
  assert ((let! _ := bound_valid mv_MinVersion (Android c) in
      let! _ := bound_valid mv_MinVersion (Ios c) in
      let! _ := bound_valid mv_MinVersion (Darwin c) in
      let! _ := bound_valid mk_MinKernelVersion (Linux c) in
      bound_valid mk_MinKernelVersion (Windows c)) = Ok tt) as G.
  { destruct c as [[] [] [] [] []]; done. }
  repeat (apply Hu in G as [? G]). done.
Qed.

Lemma os_answers c peer :
  OSVersionCheck_Validate c = Ok tt → answers (OSVersionCheck_Check c peer) (passes (CheckOSVersion c) peer).
Proof.
  intros (Ha & Hi & Hd & Hl & Hw)%os_valid. unfold OSVersionCheck_Check, checkMinVersion, checkMinKernelVersion.
  cbn [passes]. set (os := GoOS (Meta peer)).
  repeat match goal with |- context [bytes_eqb os ?s] =>
    let E := fresh "Eo" in destruct (bytes_eqb os s) eqn:E;
    [apply bytes_eqb_spec in E; rewrite E; eapply answers_iff; [by apply bounded_answers|];
     split; [intros ?; split_and!; by first [intros [=]|intros _]|naive_solver]|apply bytes_eqb_false in E] end.
  apply answers_bool. split; [|done]. by intros _.
Qed.

Lemma action_decides action (matched : Prop) :
  action_valid action = true →
  (matched → answers (on_match action) (decided action matched)) ∧
  (¬ matched → answers (on_no_match action) (decided action matched)).
Proof.
  unfold action_valid, on_match, on_no_match, decided. rewrite orb_true_iff, !bytes_eqb_spec.
  intros [->| ->]; vm_compute bytes_eqb; split; intros; apply answers_bool; naive_solver.
Qed.

Lemma geo_loop_answers l action locs :
  action_valid action = true →
  answers (geo_loop l action locs)
    (decided action (∃ x, x ∈ locs ∧ loc_CountryCode x = CountryCode l ∧ (loc_CityName x = [] ∨ loc_CityName x = CityName l))).
Proof.
  intros Ha. induction locs as [|x locs IH]; simpl.
  - apply action_decides; [done|]. by intros (x & Hx%elem_of_nil & _).
  - destruct (loc_matches l x) eqn:Em; unfold loc_matches in Em.
    + rewrite andb_true_iff, orb_true_iff, !bytes_eqb_spec in Em. apply action_decides; [done|].
      exists x. split; [by left|]. destruct Em as [? [Hc|?]]; [|auto]. split; [done|]. left. by destruct (loc_CityName x).
    + eapply answers_iff; [exact IH|]. unfold decided.
      assert (Hx : ¬ (loc_CountryCode x = CountryCode l ∧ (loc_CityName x = [] ∨ loc_CityName x = CityName l))).
      { intros [Hc Hn]. rewrite (proj2 (bytes_eqb_spec _ _) Hc) in Em. simpl in Em. destruct Hn as [Hn|Hn].
        - by rewrite Hn in Em.
        - rewrite (proj2 (bytes_eqb_spec _ _) Hn), orb_true_r in Em. done. }
      clear -Hx. setoid_rewrite elem_of_cons. naive_solver.
Qed.

Lemma range_loop_answers ranges action addrs :
  action_valid action = true →
  answers (range_loop (Masked <$> ranges) action addrs)
    (decided action (∃ a r, a ∈ addrs ∧ r ∈ ranges ∧ Masked (na_NetIP a) = Masked r)).
Proof.
  intros Ha. induction addrs as [|x addrs IH]; simpl.
  - apply action_decides; [done|]. by intros (a & r & Hx%elem_of_nil & _).
  - case_bool_decide as Em; rewrite list_elem_of_fmap in Em.
    + apply action_decides; [done|]. destruct Em as (r & ? & ?). exists x, r. split_and!; [by left|done..].
    + eapply answers_iff; [exact IH|]. unfold decided. clear -Em. setoid_rewrite elem_of_cons. naive_solver.
Qed.

Lemma geo_answers g peer :
  GeoLocationCheck_Validate g = Ok tt → answers (GeoLocationCheck_Check g peer) (passes (CheckGeoLocation g) peer).
Proof.
  unfold GeoLocationCheck_Validate. destruct (empty (geo_Action g)); [done|].
  destruct (action_valid (geo_Action g)) eqn:Ha; [intros _|done]. unfold GeoLocationCheck_Check. cbn [passes].
  set (l := Peer_Location peer). destruct (empty (CountryCode l) && empty (CityName l)) eqn:El.
  - apply andb_true_iff in El as [E1 E2]. apply answers_fault; [done|].
    intros [Hn _]. apply Hn. by destruct (CountryCode l), (CityName l).
  - eapply answers_iff; [by apply geo_loop_answers|]. split; [|tauto]. intros Hd. split; [|done].
    intros [E1 E2]. by rewrite E1, E2 in El.
Qed.

Lemma range_answers p peer :
  PeerNetworkRangeCheck_Validate p = Ok tt →
  answers (PeerNetworkRangeCheck_Check p peer) (passes (CheckPeerNetworkRange p) peer).
Proof.
  unfold PeerNetworkRangeCheck_Validate. destruct (empty (range_Action p)); [done|].
  destruct (action_valid (range_Action p)) eqn:Ha; [intros _|done]. unfold PeerNetworkRangeCheck_Check. cbn [passes].
  destruct (empty (NetworkAddresses (Meta peer))) eqn:Ee.
  - apply answers_fault; [done|]. intros [Hn _]. by destruct (NetworkAddresses (Meta peer)).
  - eapply answers_iff; [by apply range_loop_answers|]. split; [|tauto]. intros Hd. split; [|done].
    intros E. by rewrite E in Ee.
Qed.

Lemma running_spec ps active path :
  areAllProcessesRunning ps active path = true ↔ ∀ p, p ∈ ps → path p ≠ [] ∧ path p ∈ active.
Proof.
  induction ps as [|p ps IH]; simpl.
  - split; [|done]. intros _ p Hp. by apply elem_of_nil in Hp.
  - setoid_rewrite elem_of_cons. destruct (empty (path p)) eqn:Ee; simpl.
    { split; [done|]. intros Hp. destruct (Hp p) as [? _]; [by left|]. by destruct (path p). }
    case_bool_decide as Hin; simpl.
    + rewrite IH. split; [|naive_solver]. intros Hp q [->|Hq]; [|auto]. split; [|done]. by intros E; rewrite E in Ee.
    + split; [done|]. intros Hp. destruct (Hp p); [by left|done].
Qed.

Lemma active_spec path files :
  path ∈ extractPeerActiveProcesses files ↔ ∃ f, f ∈ files ∧ f_ProcessIsRunning f = true ∧ f_Path f = path.
Proof.
  unfold extractPeerActiveProcesses. rewrite list_elem_of_fmap. setoid_rewrite list_elem_of_In.
  setoid_rewrite filter_In. naive_solver.
Qed.

Lemma process_answers p peer : answers (ProcessCheck_Check p peer) (passes (CheckProcess p) peer).
Proof.
  unfold ProcessCheck_Check. cbn [passes]. unfold path_of.
  repeat match goal with |- context [bytes_eqb ?os ?s] =>
    destruct (bytes_eqb os s);
    [apply answers_bool; rewrite running_spec; setoid_rewrite active_spec;
     split; [eauto|by intros (path & [= <-] & ?)]|] end.
  apply answers_fault; [done|]. by intros (? & ? & _).
Qed.

Lemma check_answers c peer : Check_Validate c = Ok tt → answers (Check_Check c peer) (passes c peer).
Proof.
  destruct c; cbn [Check_Validate Check_Check].
  - apply nb_answers.
  - apply os_answers.
  - apply geo_answers.
  - apply range_answers.
  - intros _. apply process_answers.
Qed.

Lemma validate_all_In cs c : validate_all cs = Ok tt → c ∈ cs → Check_Validate c = Ok tt.
Proof.
  induction cs as [|d cs IH]; simpl; [by intros _ Hc%elem_of_nil|].
  destruct (Check_Validate d) as [[]| |] eqn:E; simpl; try done.
  intros Hv [->|Hc]%elem_of_cons; auto.
Qed.
End Exact.

(** ** A version library *)

(** Dotted numbers, at least three, and a pre-release tag after the first hyphen. *)
Record dotted_version := mkDotted { dv_segments : list Z; dv_tag : bytes }.

Definition dotted (s : bytes) : option (list Z) :=
  (λ l, l ++ replicate (3 - length l) 0) <$> mapM ParseInt (SplitByte dot s).

Fixpoint dotted_le (a b : list Z) : bool :=
  match a, b with
  | [], _ => true
  | x :: a, [] => (x <=? 0) && dotted_le a []
  | x :: a, y :: b => if x =? y then dotted_le a b else x <? y
  end.

(** A release comes after its pre-releases; tags are compared as text. *)
Definition dotted_version_le (a b : dotted_version) : bool :=
  if bool_decide (dv_segments a = dv_segments b)
  then empty (dv_tag b) || (negb (empty (dv_tag a)) && (bytes_Compare (dv_tag a) (dv_tag b) <=? 0))
  else dotted_le (dv_segments a) (dv_segments b).

Definition parse_version (s : bytes) : option dotted_version :=
  (λ l, mkDotted l (drop (length (sanitizeVersion s) + 1) s)) <$> dotted (sanitizeVersion s).

Definition dotted_constraint (s : bytes) : option (dotted_version → bool) :=
  match s with
  | a :: b :: c :: v =>
      if bytes_eqb [a; b; c] (str ">= ")
      then (λ w x, prereleaseCheck dv_segments dv_tag x w && dotted_version_le w x) <$> parse_version v
      else None
  | _ => None
  end.

Lemma sanitize_idemp s : sanitizeVersion (sanitizeVersion s) = sanitizeVersion s.
Proof.
  unfold sanitizeVersion. enough (∀ t, default [] (head (SplitByte hyphen t)) = t ∨ hyphen ∈ t) as Hs.
  { destruct (Hs (default [] (head (SplitByte hyphen s)))) as [->|Hin]; [done|]. exfalso. clear Hs.
    revert Hin. induction s as [|b s IH]; simpl; [set_solver|]. case_bool_decide; simpl; [set_solver|].
    destruct (SplitByte hyphen s) as [|x l]; simpl in *; set_solver. }
  induction t as [|b t IH]; simpl; [by left|]. case_bool_decide; [right; set_solver|].
  destruct (SplitByte hyphen t) as [|x l] eqn:E; simpl in *.
  - destruct IH as [<-|]; [by left|set_solver].
  - destruct IH as [->|]; [by left|set_solver].
Qed.

Lemma dotted_ge v w :
  parse_version v = Some w → ∃ c, dotted_constraint (str ">= " ++ v) = Some c ∧
    ∀ x, c x = prereleaseCheck dv_segments dv_tag x w && dotted_version_le w x.
Proof. intros Hw. eexists. split; [unfold dotted_constraint; simpl; by rewrite Hw|done]. Qed.

Lemma dotted_core v w : parse_version v = Some w → is_Some (parse_version (sanitizeVersion v)).
Proof. unfold parse_version. rewrite sanitize_idemp. by destruct (dotted _). Qed.

#[export] Instance dotted_library : GoVersion dotted_version := {
  NewVersion := parse_version;
  Segments := dv_segments;
  Prerelease := dv_tag;
  NewConstraint := dotted_constraint;
  version_le := dotted_version_le;
  constraint_ge := dotted_ge;
  version_core := dotted_core
}.

(** ** The theorems *)


Definition example_checks : Checks :=
  mkChecks (str "check-1") (str "version and place") [] (str "account")
    (mkDefinition (Some (mkNBVersion (str "0.48.0-rc1"))) None
       (Some (mkGeo [mkCheckLocation (str "DE") []; mkCheckLocation (str "FR") (str "Paris")] CheckActionAllow)) None
       (Some (mkProcessCheck [mkProcess (str "/b") [] []]))).


Definition without_account (pc : Checks) : Checks :=
  mkChecks (pc_ID pc) (pc_Name pc) (pc_Description pc) [] (pc_Checks pc).

Lemma parse_ranges_id parse text ranges :
  Forall (λ p, parse (text p) = Some p) ranges → parse_ranges parse (text <$> ranges) = Ok ranges.
Proof. induction 1 as [|p l Hp _ IH]; csimpl; [done|]. rewrite Hp. by rewrite IH. Qed.

(** Reading back what the API shows of a posture check gives the check, when
    its network ranges have a text form that parses; only the account, which the
    API takes from the session, is not part of it. *)
Theorem posture_api_roundtrip parse text pc :
  Forall (λ p, parse (text p) = Some p) (from_option range_Ranges [] (cd_PeerNetworkRangeCheck (pc_Checks pc))) →
  NewChecksFromAPIPostureCheck parse (ToAPIResponse text pc) = Ok (without_account pc).
Proof.
  destruct pc as [id name desc acc [nb os geo range proc]]. simpl. intros Hr.
  unfold NewChecksFromAPIPostureCheck, buildPostureCheck. simpl.
  assert (Hn : mkNBVersion <$> (nb_MinVersion <$> nb) = nb) by by destruct nb as [[]|].
  assert (Hg : toPostureGeoLocationCheck <$> (toGeoLocationCheckResponse <$> geo) = geo).
  { destruct geo as [[locs act]|]; [|done]. simpl. unfold toPostureGeoLocationCheck, toGeoLocationCheckResponse. simpl.
    do 2 f_equal. induction locs as [|[cc cn] locs IH]; [done|]. csimpl. rewrite IH. by destruct cn. }
  assert (Hp : toProcessCheck <$> (toProcessCheckResponse <$> proc) = proc).
  { destruct proc as [[ps]|]; [|done]. simpl. unfold toProcessCheck, toProcessCheckResponse. simpl.
    do 2 f_equal. induction ps as [|[]]; csimpl; congruence. }
  rewrite Hn, Hg, Hp. unfold without_account. simpl.
  assert (Ho : (λ '(a, d, i, l, w), mkOSVersion (mkMinVersion <$> a) (mkMinVersion <$> d) (mkMinVersion <$> i)
            (mkMinKernel <$> l) (mkMinKernel <$> w)) <$>
          ((λ os, (mv_MinVersion <$> Android os, mv_MinVersion <$> Darwin os, mv_MinVersion <$> Ios os,
               mk_MinKernelVersion <$> Linux os, mk_MinKernelVersion <$> Windows os)) <$> os) = os).
  { destruct os as [[a d i l w]|]; [|done]. simpl. do 2 f_equal; [destruct a as [[]|]|destruct d as [[]|]|
      destruct i as [[]|]|destruct l as [[]|]|destruct w as [[]|]]; done. }
  rewrite Ho. destruct range as [[act ranges]|]; [|done]. simpl in *.
  unfold toPeerNetworkRangeCheck. simpl. by rewrite parse_ranges_id.
Qed.

Definition example_range : Prefix := mkPrefix (Addr4 0) 8.

Definition example_range_checks : Checks :=
  mkChecks (str "check-2") (str "network") [] (str "account")
    (mkDefinition None None None (Some (mkRange CheckActionDeny [example_range])) None).

Lemma posture_api_roundtrip_witness :
  let parse (s : bytes) := if bytes_eqb s (str "0.0.0.0/8") then Some example_range else None in
  NewChecksFromAPIPostureCheck parse (ToAPIResponse FirewallRules.prefix_String example_range_checks) =
    Ok (without_account example_range_checks).
Proof. intros parse. apply posture_api_roundtrip. repeat constructor. Defined.
