(* ===== verification/PolicyTypes.v ===== *)
(** * Policies and groups

    management/server/types: group.go, policy.go, policyrule.go, resource.go
    and firewall_rule.go, the data of access control with its comparisons, and
    the short form of rules that management/server/types/policy.go parses.

    [strings.ToLower] and [strings.TrimSpace] are executable on ASCII strings;
    on others they are arguments.  A sort is insertion sort: the results are
    compared only after sorting by all fields, so every sort gives the same. *)

From stdpp Require Import base list gmap strings sorting.
From S2P Require Import Prelude GoStd GoStrings NetIP FirewallRules Peers.

#[local] Open Scope go_scope.

(** ** Groups *)

Record Resource := mkResource { res_ID : bytes; res_Type : bytes }.

#[global] Instance Resource_eq_dec : EqDecision Resource.
Proof. solve_decision. Defined.

Definition ResourceTypePeer : bytes := str "peer".

Record GroupPeer := mkGroupPeer { gp_AccountID : bytes; gp_GroupID : bytes; gp_PeerID : bytes }.

Record Group := mkGroup {
  g_ID : bytes;
  g_AccountID : bytes;
  g_Name : bytes;
  g_Issued : bytes;
  g_Peers : list bytes;
  g_GroupPeers : list GroupPeer;
  g_Resources : list Resource
}.

Definition set_Peers (g : Group) (peers : list bytes) (gps : list GroupPeer) : Group :=
  mkGroup (g_ID g) (g_AccountID g) (g_Name g) (g_Issued g) peers gps (g_Resources g).

Definition set_Resources (g : Group) (rs : list Resource) : Group :=
  mkGroup (g_ID g) (g_AccountID g) (g_Name g) (g_Issued g) (g_Peers g) (g_GroupPeers g) rs.

Definition LoadGroupPeers (g : Group) : Group := set_Peers g (gp_PeerID <$> g_GroupPeers g) [].

Definition StoreGroupPeers (g : Group) : Group :=
  set_Peers g [] (mkGroupPeer (g_AccountID g) (g_ID g) <$> g_Peers g).

Definition HasPeers (g : Group) : bool := negb (empty (g_Peers g)).

Definition HasResources (g : Group) : bool := negb (empty (g_Resources g)).

Definition IsGroupAll (g : Group) : bool := bytes_eqb (g_Name g) (str "All").

Definition AddPeer (g : Group) (peerID : bytes) : Group * bool :=
  if empty peerID then (g, false)
  else if existsb (bytes_eqb peerID) (g_Peers g) then (g, false)
  else (set_Peers g (g_Peers g ++ [peerID]) (g_GroupPeers g), true).

(** Remove the first element that passes the test: append(l[:i], l[i+1:]...). *)
Fixpoint remove_first {A} (p : A → bool) (l : list A) : option (list A) :=
  match l with
  | [] => None
  | x :: l => if p x then Some l else cons x <$> remove_first p l
  end.

Definition RemovePeer (g : Group) (peerID : bytes) : Group * bool :=
  match remove_first (bytes_eqb peerID) (g_Peers g) with
  | Some peers => (set_Peers g peers (g_GroupPeers g), true)
  | None => (g, false)
  end.

Definition AddResource (g : Group) (r : Resource) : Group * bool :=
  if existsb (λ x, bool_decide (x = r)) (g_Resources g) then (g, false)
  else (set_Resources g (g_Resources g ++ [r]), true).

Definition RemoveResource (g : Group) (r : Resource) : Group * bool :=
  match remove_first (λ x, bool_decide (x = r)) (g_Resources g) with
  | Some rs => (set_Resources g rs, true)
  | None => (g, false)
  end.

(** ** Policies *)

Definition PolicyTrafficActionAccept : bytes := str "accept".

Definition PolicyTrafficActionDrop : bytes := str "drop".

Definition PolicyRuleProtocolALL : bytes := str "all".

Definition PolicyRuleProtocolTCP : bytes := str "tcp".

Definition PolicyRuleProtocolUDP : bytes := str "udp".

Definition PolicyRuleProtocolICMP : bytes := str "icmp".

Definition PolicyRuleProtocolNetbirdSSH : bytes := str "netbird-ssh".

Record RulePortRange := mkPortRange { pr_Start : Z; pr_End : Z }.

#[global] Instance RulePortRange_eq_dec : EqDecision RulePortRange.
Proof. solve_decision. Defined.

Record PolicyRule := mkPolicyRule {
  pr_ID : bytes;
  pr_PolicyID : bytes;
  pr_Name : bytes;
  pr_Description : bytes;
  pr_Enabled : bool;
  pr_Action : bytes;
  pr_Destinations : list bytes;
  pr_DestinationResource : Resource;
  pr_Sources : list bytes;
  pr_SourceResource : Resource;
  pr_Bidirectional : bool;
  pr_Protocol : bytes;
  pr_Ports : list bytes;
  pr_PortRanges : list RulePortRange;
  pr_AuthorizedGroups : gmap bytes (list bytes);
  pr_AuthorizedUser : bytes
}.

Record Policy := mkPolicy {
  po_ID : bytes;
  po_AccountID : bytes;
  po_Name : bytes;
  po_Description : bytes;
  po_Enabled : bool;
  po_Rules : list PolicyRule;
  po_SourcePostureChecks : list bytes
}.

(** *** Comparison *)

Definition stringSlicesEqualUnordered (a b : list bytes) : bool :=
  if negb (length a =? length b)%nat then false
  else if (length a =? 0)%nat then true
  else bool_decide (sort_by bytes_Compare a = sort_by bytes_Compare b).

Definition portRange_cmp (x y : RulePortRange) : Z :=
  if negb (pr_Start x =? pr_Start y) then (if pr_Start x <? pr_Start y then -1 else 1)
  else if negb (pr_End x =? pr_End y) then (if pr_End x <? pr_End y then -1 else 1)
  else 0.

Definition portRangeSlicesEqualUnordered (a b : list RulePortRange) : bool :=
  if negb (length a =? length b)%nat then false
  else if (length a =? 0)%nat then true
  else bool_decide (sort_by portRange_cmp a = sort_by portRange_cmp b).

Definition authorizedGroupsEqual (a b : gmap bytes (list bytes)) : bool :=
  if negb (size a =? size b)%nat then false
  else forallb (λ kv, match b !! kv.1 with
                      | None => false
                      | Some vb => stringSlicesEqualUnordered kv.2 vb
                      end) (map_to_list a).

Definition PolicyRule_Equal (pm other : PolicyRule) : bool :=
  bytes_eqb (pr_ID pm) (pr_ID other) &&
  bytes_eqb (pr_PolicyID pm) (pr_PolicyID other) &&
  bytes_eqb (pr_Name pm) (pr_Name other) &&
  bytes_eqb (pr_Description pm) (pr_Description other) &&
  eqb (pr_Enabled pm) (pr_Enabled other) &&
  bytes_eqb (pr_Action pm) (pr_Action other) &&
  eqb (pr_Bidirectional pm) (pr_Bidirectional other) &&
  bytes_eqb (pr_Protocol pm) (pr_Protocol other) &&
  bool_decide (pr_SourceResource pm = pr_SourceResource other) &&
  bool_decide (pr_DestinationResource pm = pr_DestinationResource other) &&
  bytes_eqb (pr_AuthorizedUser pm) (pr_AuthorizedUser other) &&
  stringSlicesEqualUnordered (pr_Sources pm) (pr_Sources other) &&
  stringSlicesEqualUnordered (pr_Destinations pm) (pr_Destinations other) &&
  stringSlicesEqualUnordered (pr_Ports pm) (pr_Ports other) &&
  portRangeSlicesEqualUnordered (pr_PortRanges pm) (pr_PortRanges other) &&
  authorizedGroupsEqual (pr_AuthorizedGroups pm) (pr_AuthorizedGroups other).

(** The map of rules by id; a later rule replaces an earlier one. *)
Definition rules_by_id (rs : list PolicyRule) : gmap bytes PolicyRule :=
  foldl (λ m r, <[pr_ID r := r]> m) ∅ rs.

Definition Policy_Equal (p other : Policy) : bool :=
  bytes_eqb (po_ID p) (po_ID other) &&
  bytes_eqb (po_AccountID p) (po_AccountID other) &&
  bytes_eqb (po_Name p) (po_Name other) &&
  bytes_eqb (po_Description p) (po_Description other) &&
  eqb (po_Enabled p) (po_Enabled other) &&
  stringSlicesEqualUnordered (po_SourcePostureChecks p) (po_SourcePostureChecks other) &&
  (length (po_Rules p) =? length (po_Rules other))%nat &&
  forallb (λ r, match rules_by_id (po_Rules other) !! pr_ID r with
                | None => false
                | Some otherRule => PolicyRule_Equal r otherRule
                end) (po_Rules p).

(** *** The rest of policy.go *)

Definition upgrade_rule (r : PolicyRule) : PolicyRule :=
  let proto := if empty (pr_Protocol r) then PolicyRuleProtocolALL else pr_Protocol r in
  let bidir := if bytes_eqb proto PolicyRuleProtocolALL && negb (pr_Bidirectional r) then true else pr_Bidirectional r in
  mkPolicyRule (pr_ID r) (pr_PolicyID r) (pr_Name r) (pr_Description r) (pr_Enabled r) (pr_Action r)
    (pr_Destinations r) (pr_DestinationResource r) (pr_Sources r) (pr_SourceResource r) bidir proto (pr_Ports r)
    (pr_PortRanges r) (pr_AuthorizedGroups r) (pr_AuthorizedUser r).

Definition UpgradeAndFix (p : Policy) : Policy :=
  mkPolicy (po_ID p) (po_AccountID p) (po_Name p) (po_Description p) (po_Enabled p) (upgrade_rule <$> po_Rules p)
    (po_SourcePostureChecks p).

Definition RuleGroups (p : Policy) : list bytes := po_Rules p ≫= λ r, pr_Sources r ++ pr_Destinations r.

Definition SourceGroups (p : Policy) : list bytes :=
  match po_Rules p with
  | [r] => pr_Sources r
  | rs => elements (list_to_set (rs ≫= pr_Sources) : gset bytes)
  end.

(** *** The short form of a rule *)

Inductive ruleErr :=
| ErrRuleFormat
| ErrIcmpPorts
| ErrProtocol (p : bytes)
| ErrPortRange (s : bytes)
| ErrEmptyPort
| ErrInvalidPort (s : bytes)
| ErrPortBounds (p : Z)
| ErrPortOrder (s e : Z).

Definition parsePort (portStr : bytes) : outcome ruleErr Z :=
  if empty portStr then Err ErrEmptyPort
  else match ParseInt portStr with
       | None => Err (ErrInvalidPort portStr)
       | Some p => if (p <? 1) || (65535 <? p) then Err (ErrPortBounds p) else Ok p
       end.

Definition is_space (b : byte) : bool :=
  let v := byte_to_Z b in (v =? 32) || ((9 <=? v) && (v <=? 13)).

Fixpoint trim_left (s : bytes) : bytes :=
  match s with b :: s' => if is_space b then trim_left s' else s | [] => [] end.

Definition nativeSSHPortNumber : Z := 22022.

Definition nativeSSHPortString : bytes := str "22022".

Definition defaultSSHPortNumber : Z := 22.

Definition defaultSSHPortString : bytes := str "22".

Section Parse.
Context (unicode_lower unicode_trim : bytes → bytes).

Definition TrimSpace (s : bytes) : bytes :=
  if isASCII s then reverse (trim_left (reverse (trim_left s))) else unicode_trim s.

Definition parsePortRange (portStr : bytes) : outcome ruleErr RulePortRange :=
  if ContainsByte hyphen portStr then
    match SplitByte hyphen portStr with
    | [a; b] =>
        let! s := parsePort (TrimSpace a) in
        let! e := parsePort (TrimSpace b) in
        if e <? s then Err (ErrPortOrder s e) else Ok (mkPortRange (u16 s) (u16 e))
    | _ => Err (ErrPortRange portStr)
    end
  else let! p := parsePort portStr in Ok (mkPortRange (u16 p) (u16 p)).

Definition slash : byte := Byte.x2f.

Definition ParseRuleString (rule : bytes) : outcome ruleErr (bytes * RulePortRange) :=
  let rule := TrimSpace (ToLower unicode_lower rule) in
  if bytes_eqb rule (str "all") then Ok (PolicyRuleProtocolALL, mkPortRange 0 0)
  else if bytes_eqb rule (str "icmp") then Ok (PolicyRuleProtocolICMP, mkPortRange 0 0)
  else
    match SplitByte slash rule with
    | [a; b] =>
        let protoStr := TrimSpace a in
        let portStr := TrimSpace b in
        if bytes_eqb protoStr (str "tcp") then
          let! r := parsePortRange portStr in Ok (PolicyRuleProtocolTCP, r)
        else if bytes_eqb protoStr (str "udp") then
          let! r := parsePortRange portStr in Ok (PolicyRuleProtocolUDP, r)
        else if bytes_eqb protoStr (str "icmp") then Err ErrIcmpPorts
        else if bytes_eqb protoStr (str "netbird-ssh") then
          Ok (PolicyRuleProtocolNetbirdSSH, mkPortRange nativeSSHPortNumber nativeSSHPortNumber)
        else Err (ErrProtocol protoStr)
    | _ => Err ErrRuleFormat
    end.
End Parse.

(** ** Comparison up to order *)

Definition cmp_le {A} (cmp : A → A → Z) (x y : A) : Prop := cmp x y ≤ 0.

(** A comparison function of a total order. *)
Class CmpOrder {A} (cmp : A → A → Z) : Prop := {
  cmp_trans :: Transitive (cmp_le cmp);
  cmp_anti :: AntiSymm (=) (cmp_le cmp);
  cmp_flip : ∀ x y, 0 < cmp x y → cmp_le cmp y x
}.

#[global] Instance bytes_order : CmpOrder bytes_Compare.
Proof.
  split.
  - intros x. unfold cmp_le. induction x as [|a x IH]; intros [|b y] [|c z]; cbn [bytes_Compare]; try lia.
    repeat case_if; bool_facts; try lia. eauto.
  - intros x. unfold cmp_le. induction x as [|a x IH]; intros [|b y]; cbn [bytes_Compare]; try lia; [done|].
    repeat case_if; bool_facts; try lia. intros H1 H2. f_equal; [|auto].
    rewrite <- (Z_to_byte_to_Z a), <- (Z_to_byte_to_Z b). f_equal. lia.
  - intros x y. apply bytes_Compare_total.
Qed.

#[global] Instance portRange_order : CmpOrder portRange_cmp.
Proof.
  split; unfold cmp_le, portRange_cmp.
  - intros [a b] [c d] [e f]; simpl. repeat case_if; bool_facts; lia.
  - intros [a b] [c d]; simpl. repeat case_if; bool_facts; try lia. intros _ _. congruence.
  - intros [a b] [c d]; simpl. repeat case_if; bool_facts; lia.
Qed.

Section UpToOrder.
Context {A} `{EqDecision A} (cmp : A → A → Z) `{!CmpOrder cmp}.

Lemma sort_by_order l : StronglySorted (cmp_le cmp) (sort_by cmp l).
Proof using Type*. apply sort_by_sorted; [apply _|done|apply cmp_flip]. Qed.

Lemma sort_eq_perm a b : sort_by cmp a = sort_by cmp b ↔ a ≡ₚ b.
Proof using Type*.
  split; intros Hab.
  - by rewrite <- (sort_by_perm cmp a), Hab, sort_by_perm.
  - apply (StronglySorted_unique (cmp_le cmp)); [apply sort_by_order..|]. by rewrite !sort_by_perm.
Qed.

Lemma equal_unordered a b :
  (if negb (length a =? length b)%nat then false
   else if (length a =? 0)%nat then true
   else bool_decide (sort_by cmp a = sort_by cmp b)) = true ↔ a ≡ₚ b.
Proof using Type*.
  destruct (Nat.eqb_spec (length a) (length b)) as [Hl|Hl]; simpl.
  2:{ split; [done|]. intros Hp%Permutation_length. lia. }
  destruct (Nat.eqb_spec (length a) 0) as [H0|H0].
  - rewrite H0 in Hl. destruct a, b; try done.
  - rewrite bool_decide_eq_true. apply sort_eq_perm.
Qed.
End UpToOrder.

Lemma stringSlices_perm a b : stringSlicesEqualUnordered a b = true ↔ a ≡ₚ b.
Proof. apply equal_unordered, _. Qed.

Lemma portRanges_perm a b : portRangeSlicesEqualUnordered a b = true ↔ a ≡ₚ b.
Proof. apply equal_unordered, _. Qed.

(** Two maps of lists with the same keys and the same lists up to order. *)
Definition groups_perm (a b : gmap bytes (list bytes)) : Prop := map_relation (λ _, (≡ₚ)) (λ _ _, False) (λ _ _, False) a b.

Lemma groups_perm_dom a b : groups_perm a b → dom a = dom b.
Proof.
  intros Hab. apply set_eq. intros k. rewrite !elem_of_dom. specialize (Hab k).
  unfold is_Some. destruct (a !! k), (b !! k); simpl in Hab; naive_solver.
Qed.

Lemma authorizedGroups_perm a b : authorizedGroupsEqual a b = true ↔ groups_perm a b.
Proof.
  unfold authorizedGroupsEqual. destruct (Nat.eqb_spec (size a) (size b)) as [Hs|Hs]; simpl.
  2:{ split; [done|]. intros Hg%groups_perm_dom. by rewrite <- !size_dom, Hg in Hs. }
  rewrite forallb_forall. setoid_rewrite <- list_elem_of_In. split.
  - intros Hf. assert (Ha : ∀ k va, a !! k = Some va → ∃ vb, b !! k = Some vb ∧ va ≡ₚ vb).
    { intros k va Hk. specialize (Hf (k, va)). rewrite elem_of_map_to_list in Hf. specialize (Hf Hk). simpl in Hf.
      destruct (b !! k) as [vb|]; [|done]. exists vb. by rewrite <- stringSlices_perm. }
    assert (Hd : dom a = dom b).
    { apply set_subseteq_size_eq; [|rewrite !size_dom; lia]. intros k. rewrite !elem_of_dom. intros [va Hk].
      destruct (Ha k va Hk) as (vb & -> & _). eauto. }
    intros k. destruct (a !! k) as [va|] eqn:Ek.
    + destruct (Ha k va Ek) as (vb & -> & Hp). done.
    + apply not_elem_of_dom in Ek. rewrite Hd, not_elem_of_dom in Ek. by rewrite Ek.
  - intros Hg [k va] Hk%elem_of_map_to_list. simpl. specialize (Hg k). rewrite Hk in Hg.
    destruct (b !! k) as [vb|]; [|done]. by apply stringSlices_perm.
Qed.

(** What the comparison of rules means. *)
Record rule_equiv (r s : PolicyRule) : Prop := {
  re_scalars : (pr_ID r, pr_PolicyID r, pr_Name r, pr_Description r, pr_Enabled r, pr_Action r) =
               (pr_ID s, pr_PolicyID s, pr_Name s, pr_Description s, pr_Enabled s, pr_Action s);
  re_flow : (pr_Bidirectional r, pr_Protocol r, pr_SourceResource r, pr_DestinationResource r, pr_AuthorizedUser r) =
            (pr_Bidirectional s, pr_Protocol s, pr_SourceResource s, pr_DestinationResource s, pr_AuthorizedUser s);
  re_sources : pr_Sources r ≡ₚ pr_Sources s;
  re_destinations : pr_Destinations r ≡ₚ pr_Destinations s;
  re_ports : pr_Ports r ≡ₚ pr_Ports s;
  re_ranges : pr_PortRanges r ≡ₚ pr_PortRanges s;
  re_groups : groups_perm (pr_AuthorizedGroups r) (pr_AuthorizedGroups s)
}.

Lemma PolicyRule_Equal_spec r s : PolicyRule_Equal r s = true ↔ rule_equiv r s.
Proof.
  unfold PolicyRule_Equal. rewrite !andb_true_iff, !bytes_eqb_spec, !eqb_true_iff, !bool_decide_eq_true,
    !stringSlices_perm, portRanges_perm, authorizedGroups_perm.
  split.
  - intros (((((((((((((((? & ?) & ?) & ?) & ?) & ?) & ?) & ?) & ?) & ?) & ?) & ?) & ?) & ?) & ?) & ?).
    split; [congruence|congruence|done..].
  - intros [[=] [=] ? ? ? ? ?]. repeat split; done.
Qed.

Lemma rules_by_id_spec rs id r :
  NoDup (pr_ID <$> rs) → rules_by_id rs !! id = Some r ↔ r ∈ rs ∧ pr_ID r = id.
Proof.
  intros Hn. unfold rules_by_id.
  enough (Hg : ∀ m : gmap bytes PolicyRule, (∀ k, k ∈ (pr_ID <$> rs) → m !! k = None) →
            foldl (λ m r, <[pr_ID r := r]> m) m rs !! id = Some r ↔ (r ∈ rs ∧ pr_ID r = id) ∨ m !! id = Some r).
  { rewrite Hg by (intros; apply lookup_empty). rewrite lookup_empty. naive_solver. }
  revert Hn. induction rs as [|x rs IH]; csimpl; intros Hn m Hm.
  { split; [auto|]. intros [[Hr%elem_of_nil _]|?]; done. }
  apply NoDup_cons in Hn as [Hx Hn]. rewrite IH; [|done|].
  2:{ intros k Hk. rewrite lookup_insert_ne; [apply Hm; by right|]. intros E. by rewrite <- E in Hk. }
  rewrite elem_of_cons. destruct (decide (pr_ID x = id)) as [<-|Hne].
  - rewrite lookup_insert_eq, (Hm (pr_ID x)) by by left. split.
    + intros [[? ?]|[= <-]]; auto.
    + intros [[[->|?] ?]|?]; [by right|by auto|done].
  - rewrite lookup_insert_ne by done. split; [naive_solver|]. intros [[[->|?] ?]|?]; by auto.
Qed.

Lemma rules_by_id_elem rs id r : rules_by_id rs !! id = Some r → r ∈ rs.
Proof.
  unfold rules_by_id.
  enough (Hg : ∀ m : gmap bytes PolicyRule, foldl (λ m r, <[pr_ID r := r]> m) m rs !! id = Some r → r ∈ rs ∨ m !! id = Some r).
  { intros Hr. destruct (Hg ∅ Hr) as [?|E]; [done|]. by rewrite lookup_empty in E. }
  induction rs as [|x rs IH]; csimpl; [by right|]. intros m Hm. rewrite elem_of_cons.
  destruct (IH _ Hm) as [?|E]; [auto|]. apply lookup_insert_Some in E as [[_ ->]|[_ ?]]; auto.
Qed.

Lemma matching_rules (l1 l2 : list PolicyRule) :
  NoDup (pr_ID <$> l1) → length l1 = length l2 →
  (∀ r, r ∈ l1 → ∃ s, s ∈ l2 ∧ rule_equiv r s) → ∃ l, l ≡ₚ l2 ∧ Forall2 rule_equiv l1 l.
Proof.
  intros Hn Hl Hex.
  assert (∃ l, Forall2 (λ r s, s ∈ l2 ∧ rule_equiv r s) l1 l) as [l Hf].
  { clear Hn Hl. induction l1 as [|r l1 IH]; [by exists []|].
    destruct (Hex r) as (s & ? & ?); [by left|]. destruct IH as [l ?]; [intros; apply Hex; by right|].
    exists (s :: l). by constructor. }
  exists l. split; [|by eapply Forall2_impl; [exact Hf|]; naive_solver].
  assert (Hid : pr_ID <$> l = pr_ID <$> l1).
  { clear -Hf. induction Hf as [|r s l1 l [_ [He _ _ _ _ _ _]] _ IH]; csimpl; [done|]. f_equal; [congruence|done]. }
  apply submseteq_length_Permutation; [|rewrite <- (Forall2_length _ _ _ Hf); lia].
  apply NoDup_submseteq; [apply (NoDup_fmap_1 pr_ID); by rewrite Hid|].
  intros s Hs. clear -Hf Hs. induction Hf as [|? ? ? ? []]; set_solver.
Qed.

(** Equality of policies is equality up to order: of the rules, which
    correspond by their ids, of the groups, ports and port ranges of each rule,
    of the users of each authorised group and of the posture checks.  The ids of
    the rules are unique in each policy. *)
Theorem policy_equal_up_to_order p q :
  NoDup (pr_ID <$> po_Rules p) → NoDup (pr_ID <$> po_Rules q) →
  Policy_Equal p q = true ↔
  (po_ID p, po_AccountID p, po_Name p, po_Description p, po_Enabled p) =
    (po_ID q, po_AccountID q, po_Name q, po_Description q, po_Enabled q) ∧
  po_SourcePostureChecks p ≡ₚ po_SourcePostureChecks q ∧
  ∃ l, l ≡ₚ po_Rules q ∧ Forall2 rule_equiv (po_Rules p) l.
Proof.
  intros Hp Hq. unfold Policy_Equal.
  rewrite !andb_true_iff, !bytes_eqb_spec, eqb_true_iff, stringSlices_perm, Nat.eqb_eq, forallb_forall.
  setoid_rewrite <- list_elem_of_In. split.
  - intros (((((((? & ?) & ?) & ?) & ?) & ?) & Hl) & Hr). split_and!; [congruence|done|].
    apply matching_rules; [done..|]. intros r Hin. specialize (Hr r Hin).
    destruct (rules_by_id (po_Rules q) !! pr_ID r) as [s|] eqn:Es; [|done].
    apply rules_by_id_spec in Es as [? _]; [|done]. exists s. by rewrite <- PolicyRule_Equal_spec.
  - intros ([=] & Hs & l & Hl & Hf). split.
    { repeat split; try done. rewrite <- Hl. by apply (Forall2_length _ _ _ Hf). }
    intros r Hin. apply list_elem_of_lookup in Hin as [i Hi]. destruct (Forall2_lookup_l _ _ _ _ _ Hf Hi) as (s & Hsi & He).
    assert (Hsq : s ∈ po_Rules q) by (rewrite <- Hl; by eapply list_elem_of_lookup_2).
    assert (rules_by_id (po_Rules q) !! pr_ID r = Some s) as ->; [|by apply PolicyRule_Equal_spec].
    apply rules_by_id_spec; [done|]. split; [done|]. destruct He as [He _ _ _ _ _ _]. congruence.
Qed.

Definition no_resource : Resource := mkResource [] [].

(** A rule of an account: sources, destinations, protocol, ports and ranges. *)
Definition plain_rule (id : string) (src dst : list bytes) (bidir : bool) (proto : bytes) (ports : list bytes)
    (ranges : list RulePortRange) : PolicyRule :=
  mkPolicyRule (str id) (str "policy") (str id) [] true PolicyTrafficActionAccept dst no_resource src no_resource
    bidir proto ports ranges ∅ [].

Definition plain_policy (rules : list PolicyRule) (checks : list bytes) : Policy :=
  mkPolicy (str "policy") (str "account") (str "policy") [] true rules checks.

Lemma policy_equal_up_to_order_witness :
  let r1 := plain_rule "r1" [str "a"; str "b"] [str "c"] false PolicyRuleProtocolTCP [str "80"; str "22"] [] in
  let r1' := plain_rule "r1" [str "b"; str "a"] [str "c"] false PolicyRuleProtocolTCP [str "22"; str "80"] [] in
  let r2 := plain_rule "r2" [str "a"] [str "b"] true PolicyRuleProtocolALL [] [] in
  let p := plain_policy [r1; r2] [str "x"; str "y"] in
  let q := plain_policy [r2; r1'] [str "y"; str "x"] in
  Policy_Equal p q = true ∧ ∃ l, l ≡ₚ po_Rules q ∧ Forall2 rule_equiv (po_Rules p) l.
Proof.
  intros r1 r1' r2 p q. assert (E : Policy_Equal p q = true) by (vm_compute; reflexivity).
  split; [exact E|]. apply (policy_equal_up_to_order p q); [..|exact E];
    apply (bool_decide_eq_true_1 _); vm_compute; reflexivity.
Defined.

(** ** Groups *)

Lemma remove_first_spec {A} (x : A) (p : A → bool) (l : list A) :
  (∀ y, p y = true ↔ x = y) →
  match remove_first p l with
  | Some l' => l ≡ₚ x :: l' ∧ x ∈ l
  | None => x ∉ l
  end.
Proof.
  intros Hp. induction l as [|y l IH]; simpl; [set_solver|]. destruct (p y) eqn:E.
  - apply Hp in E as <-. split; [done|by left].
  - assert (x ≠ y) by (rewrite <- Hp, E; done). destruct (remove_first p l) as [l'|]; simpl.
    + destruct IH as [Hl Hx]. split; [|by right]. rewrite Hl. apply Permutation_swap.
    + rewrite elem_of_cons. naive_solver.
Qed.

(** Membership of a group under its two operations.  The members stay without
    duplicates; adding and removing a peer change the membership of that peer
    only and report whether they did; the empty id is never a member through
    [AddPeer]; adding after removing leads back to the same members; and what is
    written to the database reads back. *)
Theorem group_membership g id :
  NoDup (g_Peers g) →
  let '(g1, added) := AddPeer g id in
  let '(g2, removed) := RemovePeer g id in
  NoDup (g_Peers g1) ∧ NoDup (g_Peers g2) ∧
  (added = true ↔ id ≠ [] ∧ id ∉ g_Peers g) ∧ (removed = true ↔ id ∈ g_Peers g) ∧
  (∀ x, x ∈ g_Peers g1 ↔ x ∈ g_Peers g ∨ (x = id ∧ id ≠ [])) ∧
  (∀ x, x ∈ g_Peers g2 ↔ x ∈ g_Peers g ∧ x ≠ id) ∧
  (id ∈ g_Peers g → id ≠ [] → g_Peers (AddPeer g2 id).1 ≡ₚ g_Peers g) ∧
  g_Peers (LoadGroupPeers (StoreGroupPeers g)) = g_Peers g.
Proof.
  intros Hn. destruct (AddPeer g id) as [g1 added] eqn:E1. destruct (RemovePeer g id) as [g2 removed] eqn:E2.
  assert (He : ∀ l, existsb (bytes_eqb id) l = true ↔ id ∈ l).
  { intros l. rewrite existsb_exists. setoid_rewrite <- list_elem_of_In. setoid_rewrite bytes_eqb_spec. naive_solver. }
  pose proof (remove_first_spec id (bytes_eqb id) (g_Peers g) (bytes_eqb_spec id)) as Hr.
  unfold RemovePeer in E2.
  assert (H2 : NoDup (g_Peers g2) ∧ (removed = true ↔ id ∈ g_Peers g) ∧
            (∀ x, x ∈ g_Peers g2 ↔ x ∈ g_Peers g ∧ x ≠ id) ∧ (id ∈ g_Peers g → g_Peers g ≡ₚ id :: g_Peers g2)).
  { destruct (remove_first _ _) as [l'|]; injection E2 as <- <-; simpl.
    - destruct Hr as [Hl Hx]. rewrite Hl in Hn. apply NoDup_cons in Hn as [Hid Hn']. setoid_rewrite Hl. set_solver.
    - set_solver. }
  assert (H1 : NoDup (g_Peers g1) ∧ (added = true ↔ id ≠ [] ∧ id ∉ g_Peers g) ∧
            (∀ x, x ∈ g_Peers g1 ↔ x ∈ g_Peers g ∨ (x = id ∧ id ≠ []))).
  { unfold AddPeer in E1. destruct id as [|b id]; simpl in E1; [injection E1 as <- <-; set_solver|].
    destruct (existsb _ _) eqn:Ex; injection E1 as <- <-; simpl.
    - apply He in Ex. set_solver.
    - assert (b :: id ∉ g_Peers g) by (rewrite <- He, Ex; done). split; [|set_solver].
      apply NoDup_app. split_and!; [done|set_solver|apply NoDup_singleton]. }
  destruct H1 as (? & ? & ?), H2 as (? & ? & Hm & Hperm). split_and!; try done.
  - intros Hin Hne. rewrite (Hperm Hin). unfold AddPeer. destruct id as [|b id]; [done|]. simpl.
    destruct (existsb _ (g_Peers g2)) eqn:Ex; [apply He, Hm in Ex; naive_solver|]. simpl. by rewrite Permutation_app_comm.
  - unfold LoadGroupPeers, StoreGroupPeers. simpl. rewrite <- list_fmap_compose. apply list_fmap_id.
Qed.

Lemma group_membership_witness :
  let g := mkGroup (str "g") (str "account") (str "ops") (str "api") [str "a"; str "b"] [] [] in
  g_Peers (AddPeer (RemovePeer g (str "a")).1 (str "a")).1 ≡ₚ g_Peers g.
Proof.
  intros g. apply (group_membership g (str "a")); [|by left|done].
  apply (bool_decide_eq_true_1 _). vm_compute. reflexivity.
Defined.

(** ** The short form of a rule *)

(** Characters that neither lower-casing nor trimming changes. *)
Definition plain (b : byte) : Prop := 33 ≤ byte_to_Z b < 128 ∧ is_upper b = false.

Lemma digit_plain d : 0 ≤ d < 10 → plain (digit_byte d) ∧ digit_byte d ≠ hyphen ∧ digit_byte d ≠ slash.
Proof.
  intros Hd. assert (byte_to_Z (digit_byte d) = 48 + d) as E
    by (unfold digit_byte; rewrite byte_to_Z_to_byte, Z.mod_small; lia).
  split_and!.
  - unfold plain, is_upper, in_range. rewrite E. split; [lia|]. apply andb_false_iff. left. lia.
  - intros H. rewrite H in E. change (45 = 48 + d) in E. lia.
  - intros H. rewrite H in E. change (47 = 48 + d) in E. lia.
Qed.

Definition digits_ok (b : byte) : Prop := plain b ∧ b ≠ hyphen ∧ b ≠ slash.

Lemma dec_digits_ok f n : 0 ≤ n → Forall digits_ok (dec_digits f n).
Proof.
  revert n. induction f as [|f IH]; intros n Hn; cbn [dec_digits]; [constructor|].
  destruct (n <? 10) eqn:E; bool_facts.
  - apply Forall_singleton, digit_plain. lia.
  - apply Forall_app; split; [apply IH, Z.div_pos; lia|].
    apply Forall_singleton, digit_plain, Z.mod_pos_bound. lia.
Qed.

Lemma FormatInt_ok n : 0 ≤ n → Forall digits_ok (FormatInt n).
Proof. intros Hn. unfold FormatInt. destruct (n <? 0) eqn:E; [lia|]. by apply dec_digits_ok. Qed.

Lemma plain_not_space b : plain b → is_space b = false.
Proof. intros [Hb _]. unfold is_space. lia. Qed.

Lemma trim_left_plain s : Forall plain s → trim_left s = s.
Proof. destruct 1 as [|b s Hb _]; simpl; [done|]. by rewrite plain_not_space. Qed.

Lemma plain_ASCII s : Forall plain s → isASCII s = true.
Proof. intros Hs. apply forallb_forall. intros b Hb%list_elem_of_In. rewrite Forall_forall in Hs. destruct (Hs b Hb). lia. Qed.

Lemma TrimSpace_plain ut s : Forall plain s → TrimSpace ut s = s.
Proof.
  intros Hs. unfold TrimSpace. rewrite plain_ASCII, (trim_left_plain s) by done.
  rewrite trim_left_plain; [apply reverse_involutive|by apply Forall_reverse].
Qed.

Lemma ToLower_plain ul s : Forall plain s → ToLower ul s = s.
Proof.
  intros Hs. unfold ToLower. rewrite plain_ASCII by done. induction Hs as [|b s [_ Hb] _ IH]; simpl; [done|].
  unfold lower_byte at 1. by rewrite Hb, IH.
Qed.

Lemma SplitByte_none sep s : sep ∉ s → SplitByte sep s = [s].
Proof.
  induction s as [|b s IH]; simpl; [done|]. intros [Hb Hs]%not_elem_of_cons.
  rewrite bool_decide_false by done. by rewrite IH.
Qed.

Lemma SplitByte_app sep s t : sep ∉ s → SplitByte sep (s ++ sep :: t) = s :: SplitByte sep t.
Proof.
  induction s as [|b s IH]; simpl; [by rewrite bool_decide_true|]. intros [Hb Hs]%not_elem_of_cons.
  rewrite bool_decide_false by done. by rewrite IH.
Qed.

Definition port_ok (r : RulePortRange) : Prop := 1 ≤ pr_Start r ∧ pr_Start r ≤ pr_End r ∧ pr_End r ≤ 65535.

Lemma parsePort_ok s p : parsePort s = Ok p → 1 ≤ p ≤ 65535.
Proof. unfold parsePort. repeat case_if; try done. destruct (ParseInt s); [|done]. case_if; [done|]. bool_facts. intros [= <-]. lia. Qed.

Lemma parsePort_format n : 1 ≤ n ≤ 65535 → parsePort (FormatInt n) = Ok n.
Proof.
  intros Hn. unfold parsePort. rewrite ParseInt_FormatInt by lia.
  destruct (FormatInt n) eqn:E; simpl.
  { assert (ParseInt (FormatInt n) = Some n) as H by (apply ParseInt_FormatInt; lia). by rewrite E in H. }
  rewrite (proj2 (Z.ltb_ge n 1)), (proj2 (Z.ltb_ge 65535 n)) by lia. done.
Qed.

Lemma parsePortRange_ok ut s r : parsePortRange ut s = Ok r → port_ok r.
Proof.
  unfold parsePortRange, port_ok. destruct (ContainsByte hyphen s).
  - destruct (SplitByte hyphen s) as [|a [|b []]]; try done.
    destruct (parsePort (TrimSpace ut a)) as [x| |] eqn:Ea; simpl; try done.
    destruct (parsePort (TrimSpace ut b)) as [y| |] eqn:Eb; simpl; try done.
    apply parsePort_ok in Ea, Eb. destruct (y <? x) eqn:E; [done|]. bool_facts. intros [= <-]. simpl.
    unfold u16. rewrite !wrap_small by lia. lia.
  - destruct (parsePort s) as [x| |] eqn:Ea; simpl; try done. apply parsePort_ok in Ea. intros [= <-]. simpl.
    unfold u16. rewrite !wrap_small by lia. lia.
Qed.

Lemma FormatInt_plain n : 0 ≤ n → Forall plain (FormatInt n) ∧ hyphen ∉ FormatInt n ∧ slash ∉ FormatInt n.
Proof.
  intros Hn. pose proof (FormatInt_ok n Hn) as Hf. rewrite Forall_forall in Hf. split_and!.
  - apply Forall_forall. intros b Hb. apply (Hf b Hb).
  - intros Hb. destruct (Hf _ Hb) as (_ & ? & _). done.
  - intros Hb. destruct (Hf _ Hb) as (_ & _ & ?). done.
Qed.

Lemma parsePortRange_format ut s e :
  1 ≤ s → s ≤ e → e ≤ 65535 → parsePortRange ut (FormatInt s ++ hyphen :: FormatInt e) = Ok (mkPortRange s e).
Proof.
  intros H1 H2 H3. destruct (FormatInt_plain s) as (Ps & Hs & _), (FormatInt_plain e) as (Pe & He & _); [lia..|].
  unfold parsePortRange, ContainsByte. rewrite bool_decide_true by set_solver.
  rewrite SplitByte_app, SplitByte_none, !TrimSpace_plain, !parsePort_format by (done || lia). simpl.
  rewrite (proj2 (Z.ltb_ge e s)) by lia. unfold u16. by rewrite !wrap_small by lia.
Qed.

Definition rule_text (proto : bytes) (s e : Z) : bytes := proto ++ slash :: FormatInt s ++ hyphen :: FormatInt e.

(** The short form of a rule.  What parses is one of the five protocols; TCP
    and UDP carry a range of ports between 1 and 65535 whose start is not after
    its end, netbird-ssh the native SSH port whatever the text asks for, and all
    and icmp no ports; and the text of every such range parses back to it. *)
Theorem rule_string_bounds ul ut :
  (∀ text proto r, ParseRuleString ul ut text = Ok (proto, r) →
     ((proto = PolicyRuleProtocolTCP ∨ proto = PolicyRuleProtocolUDP) ∧ port_ok r) ∨
     (proto = PolicyRuleProtocolNetbirdSSH ∧ r = mkPortRange 22022 22022) ∨
     ((proto = PolicyRuleProtocolALL ∨ proto = PolicyRuleProtocolICMP) ∧ r = mkPortRange 0 0)) ∧
  (∀ proto s e, proto = PolicyRuleProtocolTCP ∨ proto = PolicyRuleProtocolUDP → 1 ≤ s → s ≤ e → e ≤ 65535 →
     ParseRuleString ul ut (rule_text proto s e) = Ok (proto, mkPortRange s e)) ∧
  (∀ text, ParseRuleString ul ut text ≠ Panic).
Proof.
  assert (Hp : ∀ s, parsePort s ≠ Panic) by (intros s; unfold parsePort; repeat case_match; done).
  assert (Hr : ∀ s, parsePortRange ut s ≠ Panic).
  { intros s. unfold parsePortRange. repeat case_match; try done.
    - destruct (parsePort (TrimSpace ut l)) eqn:E1; simpl; [|done|by apply Hp in E1].
      destruct (parsePort (TrimSpace ut l1)) eqn:E2; simpl; [|done|by apply Hp in E2]. by case_if.
    - destruct (parsePort s) eqn:E1; simpl; [done|done|by apply Hp in E1]. }
  split_and!.
  - intros text proto r. unfold ParseRuleString. set (rule := TrimSpace _ _).
    do 2 (case_if; [intros [= <- <-]; tauto|]). destruct (SplitByte slash rule) as [|a [|b []]]; try done.
    do 2 (case_if; [destruct (parsePortRange ut _) as [x| |] eqn:E; simpl; try done; intros [= <- <-];
      apply parsePortRange_ok in E; tauto|]).
    case_if; [done|]. case_if; [|done]. intros [= <- <-]. tauto.
  - intros proto s e Hproto H1 H2 H3. destruct (FormatInt_plain s) as (Ps & _ & Ss), (FormatInt_plain e) as (Pe & _ & Se); [lia..|].
    assert (Forall plain (rule_text proto s e)) as Hpl.
    { unfold rule_text. apply Forall_app. split; [destruct Hproto as [->| ->]; repeat constructor; vm_compute; done|].
      constructor; [split; vm_compute; done|]. apply Forall_app. split; [done|]. constructor; [split; vm_compute; done|done]. }
    unfold ParseRuleString. rewrite ToLower_plain, TrimSpace_plain by done. unfold rule_text.
    destruct Hproto as [->| ->]; cbn [app str];
      rewrite (SplitByte_app slash _ (FormatInt s ++ hyphen :: FormatInt e)) by (vm_compute; set_solver);
      rewrite SplitByte_none by (rewrite elem_of_app, elem_of_cons; naive_solver);
      cbn [bytes_eqb]; rewrite (TrimSpace_plain ut (FormatInt s ++ _)) by (apply Forall_app; split; [done|];
        constructor; [split; vm_compute; done|done]);
      rewrite parsePortRange_format by done; vm_compute TrimSpace; done.
  - intros text. unfold ParseRuleString. set (rule := TrimSpace _ _). do 2 (case_if; [done|]).
    destruct (SplitByte slash rule) as [|a [|b []]]; try done.
    do 2 (case_if; [destruct (parsePortRange ut _) eqn:E; simpl; [done|done|by apply Hr in E]|]).
    repeat case_if; done.
Qed.
