(* ===== verification/Account.v ===== *)
(** * Accounts

    management/server/types/account.go: the account of a network and the
    operations that look up or change its peers, groups and routes.  A map of
    pointers is a [gmap]; no entry is nil.  Ranging over a map takes the order of
    [map_to_list]. *)

From stdpp Require Import base list gmap strings.
From S2P Require Import Prelude GoStd GoStrings NetIP FirewallRules Routes Peers Posture PolicyTypes.

#[local] Open Scope go_scope.

(** ** Data *)

(** The records hold the fields that the modelled code reads; what only the
    database or the user interface sees is left out. *)
Record User := mkUser {
  u_Id : bytes;
  u_IsServiceUser : bool;
  u_Blocked : bool;
  u_AutoGroups : list bytes
}.

Definition IsBlocked (u : User) : bool := u_Blocked u.

(** The settings of the expiration of peers. *)
Record Settings := mkSettings {
  PeerLoginExpirationEnabled : bool;
  PeerLoginExpiration : Z;
  PeerInactivityExpirationEnabled : bool;
  PeerInactivityExpiration : Z
}.

Record NameServer := mkNameServer { ns_IP : Addr; ns_NSType : Z; ns_Port : Z }.

Record NameServerGroup := mkNameServerGroup {
  ns_ID : bytes;
  ns_Name : bytes;
  ns_NameServers : list NameServer;
  ns_Groups : list bytes;
  ns_Primary : bool;
  ns_Domains : list bytes;
  ns_Enabled : bool;
  ns_SearchDomainsEnabled : bool
}.

Record NetworkRouter := mkRouter {
  nr_ID : bytes;
  nr_NetworkID : bytes;
  nr_AccountID : bytes;
  nr_Peer : bytes;
  nr_PeerGroups : list bytes;
  nr_Masquerade : bool;
  nr_Metric : Z;
  nr_Enabled : bool
}.

Record NetworkResource := mkNetworkResource {
  nres_ID : bytes;
  nres_NetworkID : bytes;
  nres_AccountID : bytes;
  nres_Name : bytes;
  nres_Description : bytes;
  nres_Type : bytes;
  nres_Domain : bytes;
  nres_Prefix : Prefix;
  nres_Enabled : bool
}.

(** The range of addresses is the argument of the allocation (PeerAddresses.v). *)
Record Network := mkNetwork { nw_Identifier : bytes; nw_Dns : bytes; nw_Serial : Z }.

(** The targets of a reverse-proxy service and the service, as far as the
    account looks at them. *)
Record Target := mkTarget {
  t_TargetId : bytes;
  t_TargetType : bytes;
  t_Path : option bytes;
  t_Port : Z;
  t_Protocol : bytes;
  t_Enabled : bool
}.

Record Service := mkService {
  svc_ID : bytes;
  svc_Name : bytes;
  svc_ProxyCluster : bytes;
  svc_Mode : bytes;
  svc_Enabled : bool;
  svc_Targets : list Target
}.

(** The account without its setup keys, its domain and the copies of the maps
    that the database keeps as lists. *)
Record Account := mkAccount {
  a_Id : bytes;
  a_Network : Network;
  a_Peers : gmap bytes Peer;
  a_Users : gmap bytes User;
  a_Groups : gmap bytes Group;
  a_Policies : list Policy;
  a_Routes : gmap bytes Route;
  a_NameServerGroups : gmap bytes NameServerGroup;
  a_DisabledManagementGroups : list bytes;
  a_PostureChecks : list Checks;
  a_Settings : Settings;
  a_NetworkRouters : list NetworkRouter;
  a_NetworkResources : list NetworkResource;
  a_Services : list Service
}.

(** ** Lookups *)

Definition GetPeer (a : Account) (id : bytes) : option Peer := a_Peers a !! id.

Definition GetGroup (a : Account) (id : bytes) : option Group := a_Groups a !! id.

Definition GetPostureChecks (a : Account) (id : bytes) : option Checks :=
  List.find (λ pc, bytes_eqb (pc_ID pc) id) (a_PostureChecks a).

(** [GetPeerGroups]: the ids of the groups a peer is in. *)
Definition GetPeerGroups (a : Account) (peerID : bytes) : gset bytes :=
  dom (filter (λ kv : bytes * Group, peerID ∈ g_Peers kv.2) (a_Groups a)).

Definition getPeerDNSManagementStatus (a : Account) (peerID : bytes) : bool :=
  forallb (λ g, negb (bool_decide (g ∈ GetPeerGroups a peerID))) (a_DisabledManagementGroups a).

Definition getAllowedUserIDs (a : Account) : gset bytes :=
  list_to_set (u_Id <$> List.filter (λ u, negb (IsBlocked u) && negb (u_IsServiceUser u)) (map_to_list (a_Users a)).*2).

Definition GetGroupAll (a : Account) : option Group :=
  List.find (λ g, bytes_eqb (g_Name g) (str "All")) (map_to_list (a_Groups a)).*2.

(** [groups[id] = append(groups[id], x)] *)
Definition push {A} (m : gmap bytes (list A)) (id : bytes) (x : A) : gmap bytes (list A) :=
  <[id := default [] (m !! id) ++ [x]]> m.

Definition GetActiveGroupUsers (a : Account) : gmap bytes (list bytes) :=
  let allGroupID := from_option g_ID [] (GetGroupAll a) in
  foldl (λ groups user,
    if negb (IsBlocked user) && negb (u_IsServiceUser user)
    then push (foldl (λ m g, push m g (u_Id user)) groups (u_AutoGroups user)) allGroupID (u_Id user)
    else groups) ∅ (map_to_list (a_Users a)).*2.

Definition GetPeersWithExpiration (a : Account) : list Peer :=
  List.filter (λ p, LoginExpirationEnabled p && AddedWithSSOLogin p) (map_to_list (a_Peers a)).*2.

Definition GetExpiredPeers (a : Account) (now : Z) : list Peer :=
  List.filter (λ p, (LoginExpired p (PeerLoginExpiration (a_Settings a)) now).1) (GetPeersWithExpiration a).

(** The loop of [GetNextPeerExpiration]; [Err] stands for its early return. *)
Fixpoint next_expiration (period now : Z) (next : option Z) (peers : list Peer) : outcome Z (option Z) :=
  match peers with
  | [] => Ok next
  | p :: peers =>
      match Status p with
      | None => Panic
      | Some st =>
          if st_LoginExpired st || negb (Connected st) then next_expiration period now next peers
          else
            let duration := (LoginExpired p period now).2 in
            if match next with None => true | Some n => duration <? n end then
              if duration <? second then Err second else next_expiration period now (Some duration) peers
            else next_expiration period now next peers
      end
  end.

Definition GetNextPeerExpiration (a : Account) (now : Z) : total (Z * bool) :=
  match next_expiration (PeerLoginExpiration (a_Settings a)) now None (GetPeersWithExpiration a) with
  | Ok None => Ok (0, false)
  | Ok (Some d) => Ok (d, true)
  | Err d => Ok (d, true)
  | Panic => Panic
  end.

(** The same for peers that are not connected and expire by inactivity. *)
Definition GetPeersWithInactivity (a : Account) : list Peer :=
  List.filter (λ p, InactivityExpirationEnabled p && AddedWithSSOLogin p) (map_to_list (a_Peers a)).*2.

Fixpoint inactive_peers (period now : Z) (peers : list Peer) : total (list Peer) :=
  match peers with
  | [] => Ok []
  | p :: peers =>
      let! (inactive, _) := SessionExpired p period now in
      let! rest := inactive_peers period now peers in
      Ok (if (inactive : bool) then p :: rest else rest)
  end.

Definition GetInactivePeers (a : Account) (now : Z) : total (list Peer) :=
  inactive_peers (PeerInactivityExpiration (a_Settings a)) now (GetPeersWithInactivity a).

Fixpoint next_inactivity (period now : Z) (next : option Z) (peers : list Peer) : total (option Z) :=
  match peers with
  | [] => Ok next
  | p :: peers =>
      let! st := deref (Status p) in
      if st_LoginExpired st || Connected st then next_inactivity period now next peers
      else
        let! (_, duration) := SessionExpired p period now in
        if match next with None => true | Some n => duration <? n end then
          if duration <? second then Ok (Some second) else next_inactivity period now (Some duration) peers
        else next_inactivity period now next peers
  end.

Definition GetNextInactivePeerExpiration (a : Account) (now : Z) : total (Z * bool) :=
  let! next := next_inactivity (PeerInactivityExpiration (a_Settings a)) now None (GetPeersWithInactivity a) in
  Ok (match next with Some d => (d, true) | None => (0, false) end).

(** ** Finders: [None] is the error that nothing was found *)

Definition GetPeers (a : Account) : list Peer := (map_to_list (a_Peers a)).*2.

Definition FindPeerByPubKey (a : Account) (key : bytes) : option Peer :=
  List.find (λ p, bytes_eqb (Key p) key) (GetPeers a).

Definition FindUserPeers (a : Account) (userID : bytes) : list Peer :=
  List.filter (λ p, bytes_eqb (UserID p) userID) (GetPeers a).

Definition FindUser (a : Account) (userID : bytes) : option User := a_Users a !! userID.

Definition FindGroupByName (a : Account) (name : bytes) : option Group :=
  List.find (λ g, bytes_eqb (g_Name g) name) (map_to_list (a_Groups a)).*2.

Definition GetPeerGroupsList (a : Account) (peerID : bytes) : list bytes :=
  (List.filter (λ kg, bool_decide (peerID ∈ g_Peers kg.2)) (map_to_list (a_Groups a))).*1.

Definition GetTakenIPs (a : Account) : list bytes := IP <$> GetPeers a.

(** The strings of the domains and of the network are compared. *)
Definition GetRoutesByPrefixOrDomains (a : Account) (prefix : Prefix) (domains : list bytes) : list Route :=
  List.filter (λ r, if IsDynamic r then bytes_eqb (Join (str ", ") (domains_of r)) (Join (str ", ") domains)
                    else bytes_eqb (prefix_String (rt_Network r)) (prefix_String prefix)) (map_to_list (a_Routes a)).*2.

(** ** Changes *)

Definition set_peers (a : Account) (nw : Network) (ps : gmap bytes Peer) (gs : gmap bytes Group)
    (rs : gmap bytes Route) (nrs : list NetworkRouter) : Account :=
  mkAccount (a_Id a) nw ps (a_Users a) gs (a_Policies a) rs (a_NameServerGroups a)
    (a_DisabledManagementGroups a) (a_PostureChecks a) (a_Settings a) nrs (a_NetworkResources a) (a_Services a).

Definition set_groups (a : Account) (gs : gmap bytes Group) : Account :=
  set_peers a (a_Network a) (a_Peers a) gs (a_Routes a) (a_NetworkRouters a).

Definition set_policies (a : Account) (ps : list Policy) : Account :=
  mkAccount (a_Id a) (a_Network a) (a_Peers a) (a_Users a) (a_Groups a) ps (a_Routes a) (a_NameServerGroups a)
    (a_DisabledManagementGroups a) (a_PostureChecks a) (a_Settings a) (a_NetworkRouters a) (a_NetworkResources a)
    (a_Services a).

Definition UpdateSettings (a : Account) (update : Settings) : Account :=
  mkAccount (a_Id a) (a_Network a) (a_Peers a) (a_Users a) (a_Groups a) (a_Policies a) (a_Routes a) (a_NameServerGroups a)
    (a_DisabledManagementGroups a) (a_PostureChecks a) update (a_NetworkRouters a) (a_NetworkResources a) (a_Services a).

Definition DefaultRuleName : bytes := str "Default".

Definition DefaultRuleDescription : bytes :=
  str "This is a default rule that allows connections between all the resources".

(** The ids are fresh. *)
Definition default_policy (id allGroup : bytes) : Policy :=
  mkPolicy id [] DefaultRuleName DefaultRuleDescription true
    [mkPolicyRule id [] DefaultRuleName DefaultRuleDescription true PolicyTrafficActionAccept [allGroup] (mkResource [] [])
       [allGroup] (mkResource [] []) true PolicyRuleProtocolALL [] [] ∅ []] [].

Definition AddAllGroup (a : Account) (groupID policyID : bytes) (disableDefaultPolicy : bool) : Account :=
  if negb (size (a_Groups a) =? 0)%nat then a
  else
    let allGroup := mkGroup groupID [] (str "All") (str "api") (ID <$> GetPeers a) [] [] in
    let a := set_groups a {[groupID := allGroup]} in
    if disableDefaultPolicy then a else set_policies a [default_policy policyID groupID].

Definition UpdatePeer (a : Account) (update : Peer) : Account :=
  set_peers a (a_Network a) (<[ID update := update]> (a_Peers a)) (a_Groups a) (a_Routes a) (a_NetworkRouters a).

Definition IncSerial (n : Network) : Network := mkNetwork (nw_Identifier n) (nw_Dns n) (u64 (nw_Serial n + 1)).

Definition drop_peer (peerID : bytes) (g : Group) : Group :=
  set_Peers g (default (g_Peers g) (remove_first (bytes_eqb peerID) (g_Peers g))) (g_GroupPeers g).

Definition drop_route_peer (peerID : bytes) (r : Route) : Route :=
  if bytes_eqb (rt_Peer r) peerID
  then mkRoute (rt_ID r) (rt_AccountID r) (rt_Network r) (rt_Domains r) (rt_KeepRoute r) (rt_NetID r)
         (rt_Description r) [] (rt_PeerID r) (rt_PeerGroups r) (rt_NetworkType r) (rt_Masquerade r) (rt_Metric r)
         false (rt_Groups r) (rt_AccessControlGroups r) (rt_SkipAutoApply r)
  else r.

Definition DeletePeer (a : Account) (peerID : bytes) : Account :=
  set_peers a (IncSerial (a_Network a)) (delete peerID (a_Peers a)) (drop_peer peerID <$> a_Groups a)
    (drop_route_peer peerID <$> a_Routes a)
    (default (a_NetworkRouters a) (remove_first (λ r, bytes_eqb (nr_Peer r) peerID) (a_NetworkRouters a))).

Definition DeleteResource (a : Account) (resourceID : bytes) : Account :=
  set_groups a ((λ g, set_Resources g (default (g_Resources g)
    (remove_first (λ r, bytes_eqb (res_ID r) resourceID) (g_Resources g)))) <$> a_Groups a).

Definition Difference (a b : list bytes) : list bytes :=
  List.filter (λ x, negb (bool_decide (x ∈ (list_to_set b : gset bytes)))) a.

Definition user_peers (a : Account) (userID : bytes) : gset bytes :=
  dom (filter (λ kv : bytes * Peer, UserID kv.2 = userID) (a_Peers a)).

(** [UserGroupsAddToPeers] appends the new members to [group.Peers[:0]], the
    array the slice of the old members still points to: what that slice shows
    afterwards. *)
Definition aliased (old new : list bytes) : list bytes := take (length old) (new ++ drop (length new) old).

Definition add_to_group (users : gset bytes) (g : Group) : Group * list bytes :=
  let new := elements (list_to_set (g_Peers g) ∪ users) in
  (set_Peers g new (g_GroupPeers g), Difference new (aliased (g_Peers g) new)).

Definition UserGroupsAddToPeers (a : Account) (userID : bytes) (groups : list bytes) :
    Account * gmap bytes (list bytes) :=
  foldl (λ '(a, updates) gid,
    match a_Groups a !! gid with
    | None => (a, updates)
    | Some g =>
        let '(g', diff) := add_to_group (user_peers a userID) g in
        (set_groups a (<[gid := g']> (a_Groups a)), <[gid := diff]> updates)
    end) (a, ∅) groups.

Definition keep_peer (a : Account) (userID pid : bytes) : bool :=
  match a_Peers a !! pid with Some p => negb (bytes_eqb (UserID p) userID) | None => false end.

Definition UserGroupsRemoveFromPeers (a : Account) (userID : bytes) (groups : list bytes) :
    Account * gmap bytes (list bytes) :=
  foldl (λ '(a, updates) gid,
    match a_Groups a !! gid with
    | None => (a, updates)
    | Some g =>
        if bytes_eqb (g_Name g) (str "All") then (a, updates)
        else
          let update := List.filter (keep_peer a userID) (g_Peers g) in
          (set_groups a (<[gid := set_Peers g update (g_GroupPeers g)]> (a_Groups a)),
           <[gid := Difference (g_Peers g) update]> updates)
    end) (a, ∅) groups.

(** *** Policies of reverse-proxy services *)

Definition GetProxyPeers (a : Account) : gmap bytes (list Peer) :=
  foldl (λ m p, if Embedded (Peer_ProxyMeta p) then push m (Cluster (Peer_ProxyMeta p)) p else m) ∅
    (map_to_list (a_Peers a)).*2.

Definition resolveTargetPort (t : Target) : option Z :=
  if negb (t_Port t =? 0) then Some (t_Port t)
  else if bytes_eqb (t_Protocol t) (str "https") || bytes_eqb (t_Protocol t) (str "tls") then Some 443
  else if bytes_eqb (t_Protocol t) (str "http") then Some 80
  else None.

Definition createProxyPolicy (svc : Service) (t : Target) (proxyPeer : Peer) (port : Z) (path : bytes) : Policy :=
  let policyID := str "proxy-access-" ++ svc_ID svc ++ hyphen :: ID proxyPeer ++ hyphen :: path in
  let protocol := if bytes_eqb (svc_Mode svc) (str "udp") then PolicyRuleProtocolUDP else PolicyRuleProtocolTCP in
  mkPolicy policyID [] (str "Proxy Access to " ++ svc_Name svc) [] true
    [mkPolicyRule policyID policyID (str "Allow access to " ++ svc_Name svc) [] true PolicyTrafficActionAccept
       [] (mkResource (t_TargetId t) (t_TargetType t)) [] (mkResource (ID proxyPeer) ResourceTypePeer)
       false protocol [] [mkPortRange port port] ∅ []] [].

Definition injectTargetProxyPolicies (svc : Service) (t : Target) (proxyPeers : list Peer) : list Policy :=
  match resolveTargetPort t with
  | None => []
  | Some port => (λ p, createProxyPolicy svc t p port (default [] (t_Path t))) <$> proxyPeers
  end.

Definition injectServiceProxyPolicies (svc : Service) (byCluster : gmap bytes (list Peer)) : list Policy :=
  let proxyPeers := default [] (byCluster !! svc_ProxyCluster svc) in
  List.filter t_Enabled (svc_Targets svc) ≫= λ t, injectTargetProxyPolicies svc t proxyPeers.

Definition InjectProxyPolicies (a : Account) : Account :=
  if empty (a_Services a) then a
  else
    let byCluster := GetProxyPeers a in
    if (size byCluster =? 0)%nat then a
    else set_policies a (a_Policies a ++
           (List.filter svc_Enabled (a_Services a) ≫= λ svc, injectServiceProxyPolicies svc byCluster)).

(** ** Host labels *)

(** [SplitDomainName] of the DNS library and [ToASCII] of the IDNA library are
    arguments. *)
Section Labels.
Context (SplitDomainName : bytes → list bytes) (ToASCII : bytes → option bytes).

Definition host_byte (b : byte) : bool := is_lower b || is_upper b || is_digit b || bool_decide (b = hyphen).

(** [ReplaceAllString] for [^a-zA-Z0-9-]+: each run of other bytes becomes a
    hyphen.  All bytes of a rune outside ASCII are in the run. *)
Fixpoint replace_invalid (s : bytes) (in_run : bool) : bytes :=
  match s with
  | [] => []
  | b :: s =>
      if host_byte b then b :: replace_invalid s false
      else if in_run then replace_invalid s true
      else hyphen :: replace_invalid s true
  end.

Definition GetParsedDomainLabel (name : bytes) : option bytes :=
  match SplitDomainName name with
  | [] => None
  | rawLabel :: _ =>
      match ToASCII rawLabel with
      | None => None
      | Some ascii =>
          let validHost := lower_byte <$> replace_invalid ascii false in
          Some (if (58 <? length validHost)%nat then take 59 validHost else validHost)
      end
  end.

(** The suffixes [-1] to [-999]; [n] counts the ones that are left. *)
Fixpoint find_suffix (name : bytes) (labels : gset bytes) (i : Z) (n : nat) : bytes :=
  match n with
  | O => []
  | S n =>
      let nameWithSuffix := name ++ hyphen :: FormatInt i in
      if bool_decide (nameWithSuffix ∈ labels) then find_suffix name labels (i + 1) n else nameWithSuffix
  end.

Definition getUniqueHostLabel (name : bytes) (labels : gset bytes) : bytes :=
  if bool_decide (name ∈ labels) then find_suffix name labels 1 999 else name.

Definition GetPeerHostLabel (name : bytes) (labels : gset bytes) : option bytes :=
  match GetParsedDomainLabel name with
  | None => None
  | Some label =>
      let unique := getUniqueHostLabel label labels in
      if empty unique then None else Some unique
  end.

Definition set_DNSLabel (p : Peer) (label : bytes) : Peer :=
  mkPeer (ID p) (AccountID p) (Key p) (IP p) (Meta p) (Peer_ProxyMeta p) (Name p) label (Status p) (UserID p)
    (SSHKey p) (SSHEnabled p) (LoginExpirationEnabled p) (InactivityExpirationEnabled p) (LastLogin p)
    (CreatedAt p) (Ephemeral p) (Peer_Location p) (ExtraDNSLabels p) (AllowExtraDNSLabels p).

(** One peer: its name, or else its host name. *)
Definition label_for (p : Peer) (labels : gset bytes) : option bytes :=
  match GetPeerHostLabel (Name p) labels with
  | Some label => Some label
  | None => GetPeerHostLabel (Hostname (Meta p)) labels
  end.

Definition label_step (st : gmap bytes Peer * gset bytes) (kp : bytes * Peer) : gmap bytes Peer * gset bytes :=
  match label_for kp.2 st.2 with
  | None => st
  | Some label => (<[kp.1 := set_DNSLabel kp.2 label]> st.1, {[label]} ∪ st.2)
  end.

Definition AddPeerLabelsToAccount (a : Account) (labels : gset bytes) : Account * gset bytes :=
  let '(ps, labels') := foldl label_step (a_Peers a, labels) (map_to_list (a_Peers a)) in
  (set_peers a (a_Network a) ps (a_Groups a) (a_Routes a) (a_NetworkRouters a), labels').
End Labels.

Definition GetPeerDNSLabels (a : Account) : gset bytes :=
  list_to_set (List.filter (λ l, negb (empty l)) (DNSLabel <$> (map_to_list (a_Peers a)).*2)).

(** ** Deleting a peer *)

Lemma drop_peer_members pid g x :
  NoDup (g_Peers g) → x ∈ g_Peers (drop_peer pid g) ↔ x ∈ g_Peers g ∧ x ≠ pid.
Proof.
  intros Hn. unfold drop_peer. simpl.
  pose proof (remove_first_spec pid (bytes_eqb pid) (g_Peers g) (bytes_eqb_spec pid)) as Hr.
  destruct (remove_first _ _) as [l|]; simpl.
  - destruct Hr as [Hl _]. rewrite Hl in Hn |- *. apply NoDup_cons in Hn as [? _]. set_solver.
  - set_solver.
Qed.

Lemma drop_route_spec pid r :
  rt_Peer (drop_route_peer pid r) ≠ pid ∨ pid = [] ∧ rt_Peer r = [].
Proof.
  unfold drop_route_peer. destruct (bytes_eqb (rt_Peer r) pid) eqn:E; simpl.
  - apply bytes_eqb_spec in E. destruct pid; [by right|by left].
  - left. by apply bytes_eqb_false in E.
Qed.

(** Deleting a peer takes it out of the account, of every group and of every
    route, which is disabled, and leaves all other peers, members and routes
    alone; the serial of the network moves on by one, modulo 2^64.  Of the
    routers of networks it removes the first one that runs on the peer: a peer
    that routes for two networks stays the router of the second. *)
Theorem delete_peer_references a pid :
  pid ≠ [] → map_Forall (λ _ g, NoDup (g_Peers g)) (a_Groups a) →
  let a' := DeletePeer a pid in
  a_Peers a' !! pid = None ∧ (∀ k, k ≠ pid → a_Peers a' !! k = a_Peers a !! k) ∧
  (∀ gid g, a_Groups a !! gid = Some g → ∃ g', a_Groups a' !! gid = Some g' ∧
     ∀ x, x ∈ g_Peers g' ↔ x ∈ g_Peers g ∧ x ≠ pid) ∧
  (∀ rid r, a_Routes a !! rid = Some r → ∃ r', a_Routes a' !! rid = Some r' ∧ rt_Peer r' ≠ pid ∧
     (rt_Peer r = pid → rt_Enabled r' = false) ∧ (rt_Peer r ≠ pid → r' = r)) ∧
  nw_Serial (a_Network a') = u64 (nw_Serial (a_Network a) + 1) ∧
  (∀ r1 r2 rest, a_NetworkRouters a = r1 :: r2 :: rest → nr_Peer r1 = pid → nr_Peer r2 = pid →
     r2 ∈ a_NetworkRouters a').
Proof.
  intros Hne Hg. cbn zeta. unfold DeletePeer. simpl. split_and!.
  - apply lookup_delete_eq.
  - intros k Hk. by rewrite lookup_delete_ne.
  - intros gid g Hgid. rewrite lookup_fmap, Hgid. simpl. eexists. split; [done|]. intros x.
    apply drop_peer_members. by apply (Hg gid).
  - intros rid r Hr. rewrite lookup_fmap, Hr. simpl. eexists. split; [done|].
    split; [destruct (drop_route_spec pid r) as [|[? _]]; [done|by destruct pid]|].
    unfold drop_route_peer. destruct (bytes_eqb (rt_Peer r) pid) eqn:E; simpl.
    + apply bytes_eqb_spec in E. done.
    + apply bytes_eqb_false in E. done.
  - done.
  - intros r1 r2 rest -> H1 H2. simpl. rewrite (proj2 (bytes_eqb_spec _ _) H1). simpl. by left.
Qed.

(** ** Members of groups through users *)

Lemma filter_const {A} (b : bool) (f : A → bool) (l : list A) :
  (∀ x, x ∈ l → f x = b) → List.filter f l = if b then l else [].
Proof.
  induction l as [|x l IH]; simpl; intros Hf; [by destruct b|]. rewrite (Hf x) by by left.
  rewrite IH by (intros; apply Hf; by right). by destruct b.
Qed.

Lemma Difference_app l1 l2 : NoDup (l1 ++ l2) → Difference (l1 ++ l2) l1 = l2.
Proof.
  intros (_ & Hd & _)%NoDup_app. unfold Difference. rewrite List.filter_app.
  rewrite (filter_const false _ l1), (filter_const true _ l2); [done|..]; intros x Hx.
  - rewrite bool_decide_false; [done|]. rewrite elem_of_list_to_set. intros H. by apply (Hd x).
  - rewrite bool_decide_true; [done|]. by rewrite elem_of_list_to_set.
Qed.

(** Adding the peers of a user to a group gives exactly the old members and
    those peers; but the report of what was added compares the new members with
    the overwritten slice of the old ones and lists the members from position
    [length (g_Peers g)] on, whoever they are. *)
Theorem user_group_update g users :
  NoDup (g_Peers g) →
  let '(g', diff) := add_to_group users g in
  (∀ x, x ∈ g_Peers g' ↔ x ∈ g_Peers g ∨ x ∈ users) ∧ NoDup (g_Peers g') ∧
  diff = drop (length (g_Peers g)) (g_Peers g') ∧
  length diff = size (users ∖ list_to_set (g_Peers g)).
Proof.
  intros Hn. unfold add_to_group. simpl. set (new := elements _).
  assert (Hnew : NoDup new) by apply NoDup_elements.
  assert (Hlen : length new = (length (g_Peers g) + size (users ∖ list_to_set (g_Peers g)))%nat).
  { unfold new. change (length (elements ?x)) with (size x). rewrite size_union_alt, size_list_to_set by done. done. }
  assert (Hal : aliased (g_Peers g) new = take (length (g_Peers g)) new).
  { unfold aliased. by rewrite take_app_le by lia. }
  assert (Hdiff : ∀ n, Difference new (take n new) = drop n new).
  { intros n. rewrite <- (take_drop n new) at 1. apply Difference_app. by rewrite take_drop. }
  rewrite Hal, Hdiff. split_and!; [|done|done|rewrite length_drop; lia].
  intros x. unfold new. rewrite elem_of_elements, elem_of_union, elem_of_list_to_set. done.
Qed.

Lemma user_group_update_witness :
  let g := mkGroup (str "g") [] (str "ops") [] [str "c"] [] [] in
  let r := add_to_group {[str "a"]} g in
  (∀ x, x ∈ g_Peers r.1 ↔ x ∈ g_Peers g ∨ x ∈ ({[str "a"]} : gset bytes)) ∧ length r.2 = 1%nat.
Proof.
  intros g r. destruct (user_group_update g {[str "a"]}) as (H1 & _ & _ & H4); [apply NoDup_singleton|].
  split; [exact H1|]. exact H4.
Defined.

(** ** Host labels *)

Lemma find_suffix_spec name labels i n :
  (find_suffix name labels i n = [] ∧ ∀ k, i ≤ k < i + Z.of_nat n → name ++ hyphen :: FormatInt k ∈ labels) ∨
  (∃ k, i ≤ k < i + Z.of_nat n ∧ find_suffix name labels i n = name ++ hyphen :: FormatInt k ∧
        find_suffix name labels i n ∉ labels).
Proof.
  revert i. induction n as [|n IH]; intros i; cbn [find_suffix].
  - left. split; [done|]. lia.
  - case_bool_decide as Hin.
    + destruct (IH (i + 1)) as [[He Hall]|(k & Hk & He & Hn)].
      * left. split; [done|]. intros k Hk. destruct (decide (k = i)) as [->|]; [done|]. apply Hall. lia.
      * right. exists k. split; [lia|done].
    + right. exists i. split; [lia|done].
Qed.

Lemma unique_label_spec name labels :
  (getUniqueHostLabel name labels = [] → name = [] ∨
     (name ∈ labels ∧ ∀ k, 1 ≤ k < 1000 → name ++ hyphen :: FormatInt k ∈ labels)) ∧
  (getUniqueHostLabel name labels ≠ [] → getUniqueHostLabel name labels ∉ labels).
Proof.
  unfold getUniqueHostLabel. case_bool_decide as Hin; [|by split; [left|]].
  destruct (find_suffix_spec name labels 1 999) as [[-> Hall]|(k & Hk & -> & Hn)].
  - split; [|done]. intros _. right. split; [done|]. intros k Hk. apply Hall. lia.
  - split; [|done]. intros He. by destruct name.
Qed.

(** A label of at most 63 lower-case letters, digits and hyphens. *)
Definition label_byte (b : byte) : bool := is_lower b || is_digit b || bool_decide (b = hyphen).

Definition host_label (l : bytes) : Prop := (length l ≤ 63)%nat ∧ Forall (λ b, label_byte b = true) l.

Lemma lower_host_byte b : host_byte b = true → label_byte (lower_byte b) = true.
Proof. by destruct b. Qed.

Lemma replace_invalid_host s r : Forall (λ b, host_byte b = true) (replace_invalid s r).
Proof.
  revert r. induction s as [|b s IH]; intros r; simpl; [done|]. destruct (host_byte b) eqn:E; [by constructor|].
  destruct r; [done|]. by constructor.
Qed.

Lemma suffix_bytes k : 1 ≤ k < 1000 → (length (FormatInt k) ≤ 3)%nat ∧ Forall (λ b, label_byte b = true) (FormatInt k).
Proof.
  assert (forallb (λ k, (length (FormatInt k) <=? 3)%nat && forallb label_byte (FormatInt k)) (seqZ 1 999) = true) as H
    by (vm_compute; reflexivity).
  rewrite forallb_forall in H. intros Hk.
  assert (In k (seqZ 1 999)) as Hin by (apply list_elem_of_In, elem_of_seqZ; lia).
  apply H in Hin. rewrite andb_true_iff, Nat.leb_le, forallb_forall in Hin. split; [apply Hin|].
  apply Forall_forall. intros b Hb. by apply Hin, list_elem_of_In.
Qed.

Section LabelFacts.
Context (SplitDomainName : bytes → list bytes) (ToASCII : bytes → option bytes).
#[local] Notation parsed := (GetParsedDomainLabel SplitDomainName ToASCII).
#[local] Notation GetPeerHostLabel := (GetPeerHostLabel SplitDomainName ToASCII).
#[local] Notation label_for := (label_for SplitDomainName ToASCII).
#[local] Notation label_step := (label_step SplitDomainName ToASCII).

Lemma parsed_label name l : parsed name = Some l → (length l ≤ 59)%nat ∧ Forall (λ b, label_byte b = true) l.
Proof using Type.
  unfold GetParsedDomainLabel. destruct (SplitDomainName name) as [|raw ?]; [done|].
  destruct (ToASCII raw) as [ascii|]; [|done].
  assert (Forall (λ b, label_byte b = true) (lower_byte <$> replace_invalid ascii false)) as Hf.
  { apply Forall_fmap, (Forall_impl _ _ _ (replace_invalid_host ascii false)). intros b. apply lower_host_byte. }
  revert Hf. generalize (lower_byte <$> replace_invalid ascii false). intros v Hf [= <-].
  destruct (Nat.ltb_spec 58 (length v)); [|split; [lia|done]].
  split; [rewrite length_take; lia|by apply Forall_take].
Qed.

Lemma unique_label_bytes name labels :
  (length name ≤ 59)%nat → Forall (λ b, label_byte b = true) name → host_label (getUniqueHostLabel name labels).
Proof using Type.
  intros Hl Hf. unfold getUniqueHostLabel. case_bool_decide; [|split; [lia|done]].
  destruct (find_suffix_spec name labels 1 999) as [[-> _]|(k & Hk & -> & _)]; [split; [simpl; lia|done]|].
  destruct (suffix_bytes k) as [H1 H2]; [lia|]. split; [rewrite length_app; simpl; lia|].
  apply Forall_app. split; [done|]. by constructor.
Qed.

Lemma host_label_fresh name labels l : GetPeerHostLabel name labels = Some l → l ≠ [] ∧ l ∉ labels ∧ host_label l.
Proof using Type.
  unfold Account.GetPeerHostLabel. destruct (parsed name) as [x|] eqn:Ep; [|done].
  destruct (empty _) eqn:E; [done|]. intros [= <-].
  assert (getUniqueHostLabel x labels ≠ []) as Hne by (intros H; by rewrite H in E).
  split; [done|]. split; [by apply unique_label_spec|].
  apply parsed_label in Ep as [H1 H2]. by apply unique_label_bytes.
Qed.

Lemma label_for_fresh p labels l : label_for p labels = Some l → l ≠ [] ∧ l ∉ labels ∧ host_label l.
Proof using Type.
  unfold Account.label_for. destruct (GetPeerHostLabel (Name p) labels) eqn:E; [intros [= <-]|intros E2];
    by eapply host_label_fresh.
Qed.

(** The labels [fresh] were given to the peers [ps] when [labels] were taken. *)
Record labelled (ps : gmap bytes Peer) (labels : gset bytes) (fresh : gmap bytes bytes)
    (st : gmap bytes Peer * gset bytes) : Prop := {
  lab_peers : ∀ k, st.1 !! k = match fresh !! k with
                               | Some x => (λ p, set_DNSLabel p x) <$> ps !! k
                               | None => ps !! k
                               end;
  lab_fresh : ∀ k x, fresh !! k = Some x → x ≠ [] ∧ x ∉ labels ∧ host_label x;
  lab_inj : ∀ k1 k2 x, fresh !! k1 = Some x → fresh !! k2 = Some x → k1 = k2;
  lab_taken : ∀ x, x ∈ st.2 ↔ x ∈ labels ∨ ∃ k, fresh !! k = Some x
}.

Lemma label_steps ps labels l :
  NoDup l.*1 → (∀ k p, (k, p) ∈ l → ps !! k = Some p) →
  ∃ fresh, dom fresh ⊆ list_to_set l.*1 ∧ labelled ps labels fresh (foldl label_step (ps, labels) l).
Proof using Type.
  induction l as [|[k p] l IH] using rev_ind; intros Hn Hl.
  { exists ∅. split; [set_solver|]. split; simpl.
    - intros k. by rewrite lookup_empty.
    - intros k x. by rewrite lookup_empty.
    - intros k k2 x. by rewrite lookup_empty.
    - intros x. setoid_rewrite lookup_empty. naive_solver. }
  rewrite fmap_app, NoDup_app in Hn. destruct Hn as (Hn & Hd & _).
  destruct IH as (fresh & Hdom & [H1 H2 H3 H4]); [done|intros; apply Hl; set_solver|].
  rewrite foldl_app. simpl. set (st := foldl _ _ l) in *. unfold Account.label_step. simpl.
  assert (Hk : fresh !! k = None).
  { apply not_elem_of_dom. intros Hin%Hdom%elem_of_list_to_set. apply (Hd k); [done|]. by left. }
  destruct (label_for p st.2) as [x|] eqn:E.
  2:{ exists fresh. split; [set_solver|by split]. }
  apply label_for_fresh in E as (Hne & Hni & Hv). exists (<[k := x]> fresh). split; [rewrite dom_insert; set_solver|].
  assert (Hx : ∀ k', fresh !! k' = Some x → False) by (intros k' Hk'; apply Hni, H4; eauto).
  split; simpl.
  - intros k'. destruct (decide (k = k')) as [<-|Hkk].
    + rewrite !lookup_insert_eq. by rewrite (Hl k p) by set_solver.
    + rewrite !lookup_insert_ne by done. apply H1.
  - intros k' y. rewrite lookup_insert_Some. intros [[<- <-]|[_ Hy]]; [|by apply (H2 k')].
    split; [done|]. split; [|done]. intros ?. apply Hni, H4. by left.
  - intros k1 k2 y. rewrite !lookup_insert_Some. intros [[<- <-]|[? ?]] [[<- ?]|[? ?]]; subst; try done.
    + by exfalso; eapply Hx.
    + by exfalso; eapply Hx.
    + by eapply H3.
  - intros y. rewrite elem_of_union, elem_of_singleton, H4. split.
    + intros [->|[?|[k' ?]]]; [right; exists k; apply lookup_insert_eq|by left|].
      right. exists k'. rewrite lookup_insert_ne; [done|]. intros <-. congruence.
    + intros [?|[k' [[<- <-]|[_ ?]]%lookup_insert_Some]]; [auto..|]. right. right. eauto.
Qed.

End LabelFacts.

(** The labels of the peers of an account.  Every peer that gets a label gets
    one of at most 63 lower-case letters, digits and hyphens that is not empty,
    that was not taken before and that no other peer
    gets; the other peers and all other fields stay as they are, and the labels
    taken afterwards are the old and the new ones.  A name fails to give a label
    only when it has none or when the label and all 999 suffixes are taken. *)
Theorem host_labels_unique SplitDomainName ToASCII a labels :
  let '(a', labels') := AddPeerLabelsToAccount SplitDomainName ToASCII a labels in
  (∃ fresh, labelled (a_Peers a) labels fresh (a_Peers a', labels')) ∧
  (∀ name, GetPeerHostLabel SplitDomainName ToASCII name labels = None →
     match GetParsedDomainLabel SplitDomainName ToASCII name with
     | None => True
     | Some l => l = [] ∨ (l ∈ labels ∧ ∀ k, 1 ≤ k < 1000 → l ++ hyphen :: FormatInt k ∈ labels)
     end).
Proof.
  unfold AddPeerLabelsToAccount.
  destruct (label_steps SplitDomainName ToASCII (a_Peers a) labels (map_to_list (a_Peers a))) as (fresh & _ & Hl).
  { apply NoDup_fst_map_to_list. }
  { intros k p. by rewrite elem_of_map_to_list. }
  destruct (foldl _ _ _) as [ps labels'] eqn:E. split; [by exists fresh|].
  intros name. unfold GetPeerHostLabel. destruct (GetParsedDomainLabel _ _ name) as [l|]; [|done].
  destruct (empty _) eqn:Ee; [|done]. intros _. apply unique_label_spec. by destruct (getUniqueHostLabel l labels).
Qed.

(** ** The next expiration *)

(** The peers [GetNextPeerExpiration] looks at, and their remaining time. *)
Definition pending (a : Account) (p : Peer) : Prop :=
  p ∈ (map_to_list (a_Peers a)).*2 ∧ LoginExpirationEnabled p = true ∧ AddedWithSSOLogin p = true ∧
  ∃ st, Status p = Some st ∧ st_LoginExpired st = false ∧ Connected st = true.

Definition time_left (a : Account) (p : Peer) (now : Z) : Z :=
  Sub (GetLastLogin p + PeerLoginExpiration (a_Settings a)) now.

Definition looked_at (p : Peer) : Prop := ∃ st, Status p = Some st ∧ st_LoginExpired st = false ∧ Connected st = true.

(** The result of the loop: the least remaining time, or one second as soon as
    some remaining time is below it. *)
Lemma next_expiration_spec period now next l :
  (∀ p, p ∈ l → is_Some (Status p)) → (∀ n, next = Some n → second ≤ n) →
  match next_expiration period now next l with
  | Ok None => next = None ∧ ∀ p, p ∈ l → ¬ looked_at p
  | Ok (Some d) => second ≤ d ∧ (next = Some d ∨ ∃ p, p ∈ l ∧ looked_at p ∧ (LoginExpired p period now).2 = d) ∧
      (∀ n, next = Some n → d ≤ n) ∧ (∀ p, p ∈ l → looked_at p → d ≤ (LoginExpired p period now).2)
  | Err d => d = second ∧ ∃ p, p ∈ l ∧ looked_at p ∧ (LoginExpired p period now).2 < second
  | Panic => False
  end.
Proof.
  revert next. induction l as [|p l IH]; intros next Hs Hnext; cbn [next_expiration].
  { destruct next as [n|]; [split_and!; [by apply Hnext|by left|by intros ? [= ->]|set_solver]|set_solver]. }
  destruct (Hs p) as [st Hst]; [by left|]. rewrite Hst.
  assert (Hl : ∀ q, q ∈ l → is_Some (Status q)) by (intros; apply Hs; by right).
  destruct (st_LoginExpired st || negb (Connected st)) eqn:Eo.
  - assert (Hp : ¬ looked_at p).
    { intros (st' & Hst' & ? & ?). rewrite Hst in Hst'. injection Hst' as <-.
      apply orb_true_iff in Eo as [?|?%negb_true_iff]; congruence. }
    specialize (IH next Hl Hnext). destruct (next_expiration _ _ _ _) as [[d|]|d|]; [| |set_solver|done].
    + destruct IH as (? & Hd & ? & Hm). split_and!; [done|set_solver|done|]. intros q [->|Hq]%elem_of_cons; [done|auto].
    + destruct IH as [? Hm]. split; [done|]. intros q [->|Hq]%elem_of_cons; [done|auto].
  - assert (Hp : looked_at p).
    { exists st. apply orb_false_iff in Eo as [? ?%negb_false_iff]. done. }
    set (d0 := (LoginExpired p period now).2).
    destruct (match next with Some n => d0 <? n | None => true end) eqn:En.
    + destruct (d0 <? second) eqn:Ed; bool_facts; [split; [done|]; exists p; set_solver|].
      specialize (IH (Some d0) Hl ltac:(by intros ? [= <-])). destruct (next_expiration _ _ _ _) as [[d|]|d|]; [| |set_solver|done].
      * destruct IH as (? & Hd & Hle & Hm). split_and!; [done| | |].
        -- destruct Hd as [[= <-]|?]; [|set_solver]. right. exists p. set_solver.
        -- intros n ->. specialize (Hle d0 eq_refl). bool_facts. lia.
        -- intros q [->|Hq]%elem_of_cons; [intros _; by apply Hle|auto].
      * by destruct IH.
    + destruct next as [n|]; [|done]. bool_facts. specialize (IH (Some n) Hl Hnext).
      destruct (next_expiration _ _ _ _) as [[d|]|d|]; [| |set_solver|done].
      * destruct IH as (? & Hd & Hle & Hm). split_and!; [done|set_solver|done|].
        intros q [->|Hq]%elem_of_cons; [|auto]. specialize (Hle n eq_refl). unfold d0 in En. lia.
      * by destruct IH.
Qed.

Lemma pending_looked_at a p : pending a p ↔ p ∈ GetPeersWithExpiration a ∧ looked_at p.
Proof.
  unfold pending, GetPeersWithExpiration, looked_at. rewrite !list_elem_of_In, filter_In, andb_true_iff. tauto.
Qed.

Lemma time_left_expired a p now :
  p ∈ GetPeersWithExpiration a → (LoginExpired p (PeerLoginExpiration (a_Settings a)) now).2 = time_left a p now.
Proof.
  unfold GetPeersWithExpiration. rewrite list_elem_of_In, filter_In, andb_true_iff. intros (_ & H1 & H2).
  unfold LoginExpired. by rewrite H1, H2.
Qed.

(** The delay until the next login expires.  There is none exactly when no
    connected peer with an unexpired login has the check; otherwise the delay is
    the least remaining time, but at least a second, and when it is over the
    login of a peer with that time has expired, so that the job that runs then
    finds a peer to expire. *)
Theorem next_expiration_exact a now :
  (∀ p, p ∈ (map_to_list (a_Peers a)).*2 → is_Some (Status p)) →
  ∃ d found, GetNextPeerExpiration a now = Ok (d, found) ∧
  (found = false ↔ ∀ p, ¬ pending a p) ∧
  (found = true → second ≤ d ∧ ∃ p, pending a p ∧ time_left a p now ≤ d ∧
     (∀ q, pending a q → d ≤ Z.max second (time_left a q now)) ∧
     (time_left a p now < 2 ^ 63 - 1 → p ∈ GetExpiredPeers a (now + d))).
Proof.
  intros Hs. unfold GetNextPeerExpiration.
  assert (HE : ∀ p, p ∈ GetPeersWithExpiration a → is_Some (Status p)).
  { intros p. unfold GetPeersWithExpiration. rewrite list_elem_of_In, filter_In, <- list_elem_of_In. intros [? _]. by apply Hs. }
  pose proof (next_expiration_spec (PeerLoginExpiration (a_Settings a)) now None _ HE ltac:(done)) as Hn.
  assert (Hexp : ∀ p d, pending a p → time_left a p now ≤ d → time_left a p now < 2 ^ 63 - 1 → p ∈ GetExpiredPeers a (now + d)).
  { intros p d [Hp _]%pending_looked_at Hd Hsat. unfold GetExpiredPeers. rewrite list_elem_of_In, filter_In, <- list_elem_of_In.
    split; [done|]. rewrite LoginExpired_spec.
    revert Hp. unfold GetPeersWithExpiration. rewrite list_elem_of_In, filter_In, andb_true_iff. intros (_ & -> & ->).
    simpl. apply Z.leb_le. unfold time_left, Sub in *. lia. }
  destruct (next_expiration _ _ _ _) as [[d|]|d|]; [| | |done].
  - destruct Hn as (H1 & [?|(p & Hp & Hlook & Hd)] & _ & H4); [done|].
    rewrite time_left_expired in Hd by done.
    assert (pending a p) by by apply pending_looked_at. exists d, true. split; [done|]. split.
    { split; [done|]. intros Hnone. by apply Hnone in H. }
    intros _. split; [done|]. exists p. split_and!; [done|lia| |intros; apply Hexp; [done|lia|done]].
    intros q [Hq Hlq]%pending_looked_at. specialize (H4 q Hq Hlq). rewrite time_left_expired in H4 by done. lia.
  - destruct Hn as [_ Hnone]. exists 0, false. split; [done|]. split; [|done]. split; [|done].
    intros _ p [Hp Hl]%pending_looked_at. by apply (Hnone p).
  - destruct Hn as (-> & p & Hp & Hl & Hd). rewrite time_left_expired in Hd by done.
    assert (pending a p) by by apply pending_looked_at. exists second, true. split; [done|]. split.
    { split; [done|]. intros Hnone. by apply Hnone in H. }
    intros _. split; [done|]. exists p. split_and!; [done|lia|intros; lia|intros; apply Hexp; [done|lia|done]].
Qed.

Definition example_settings : Settings := mkSettings true (3600 * second) false 0.

Definition empty_account : Account :=
  mkAccount (str "account") (mkNetwork (str "net") [] 1) ∅ ∅ ∅ [] ∅ ∅ [] [] example_settings [] [] [].

Definition example_account : Account :=
  set_peers empty_account (a_Network empty_account)
    {[str "peer-a" := example_peer "peer-a" "key-a" (Z_to_byte <$> [100; 64; 0; 1]) "0.60.0"]} ∅ ∅ [].

Lemma next_expiration_exact_witness :
  GetNextPeerExpiration example_account (200 * second) = Ok (3500 * second, true) ∧
  ∃ d found, GetNextPeerExpiration example_account (200 * second) = Ok (d, found) ∧
    (found = false ↔ ∀ p, ¬ pending example_account p).
Proof.
  split; [vm_compute; reflexivity|].
  destruct (next_expiration_exact example_account (200 * second)) as (d & found & H1 & H2 & _).
  { vm_compute (map_to_list _).*2. intros p Hp. apply list_elem_of_singleton in Hp. subst p. eauto. }
  exists d, found. split; [exact H1|exact H2].
Defined.

Definition example_router (peer network : string) : NetworkRouter :=
  mkRouter (str "router") (str network) (str "account") (str peer) [] true 9999 true.

Lemma delete_peer_references_witness :
  let a := set_peers empty_account (a_Network empty_account) ∅ ∅ ∅
             [example_router "peer-a" "net-1"; example_router "peer-a" "net-2"] in
  example_router "peer-a" "net-2" ∈ a_NetworkRouters (DeletePeer a (str "peer-a")).
Proof.
  intros a.
  eapply (delete_peer_references a (str "peer-a")); [done|apply map_Forall_empty|reflexivity|reflexivity|reflexivity].
Defined.
