(* ===== verification/PeerPolicy.v ===== *)
(** * Who may talk to whom

    management/server/types/account.go, [GetPeerConnectionResources] and what
    it calls: from the policies of an account, the peers a peer connects to, its
    firewall rules and the users that may log in to it over SSH.

    A rule lets its sources reach its destinations, in both directions when it
    is bidirectional: [flow].  The theorems relate the two generated lists to
    that relation. *)

From stdpp Require Import base list gmap strings.
From S2P Require Import Prelude GoStd GoStrings NetIP FirewallRules AclManager Routes Peers Posture PolicyTypes Account.

#[local] Open Scope go_scope.

(** ** Firewall rules *)

Record FirewallRule := mkFwRule {
  fw_PolicyID : bytes;
  fw_PeerIP : bytes;
  fw_Direction : Z;
  fw_Action : bytes;
  fw_Protocol : bytes;
  fw_Port : bytes;
  fw_PortRange : RulePortRange
}.

#[global] Instance fwrule_eq_dec : EqDecision FirewallRule.
Proof. solve_decision. Defined.

Definition FirewallRuleDirectionIN : Z := 0.

Definition FirewallRuleDirectionOUT : Z := 1.

Definition set_Port (r : FirewallRule) (port : bytes) : FirewallRule :=
  mkFwRule (fw_PolicyID r) (fw_PeerIP r) (fw_Direction r) (fw_Action r) (fw_Protocol r) port (fw_PortRange r).

Definition set_PortRange (r : FirewallRule) (pr : RulePortRange) : FirewallRule :=
  mkFwRule (fw_PolicyID r) (fw_PeerIP r) (fw_Direction r) (fw_Action r) (fw_Protocol r) (fw_Port r) pr.

(** [strings.Contains] *)
Fixpoint has_prefix (p s : bytes) : bool :=
  match p, s with
  | [], _ => true
  | a :: p, b :: s => bool_decide (a = b) && has_prefix p s
  | _, [] => false
  end.

Fixpoint Contains (s sub : bytes) : bool :=
  has_prefix sub s || match s with [] => false | _ :: s => Contains s sub end.

Definition firewallRuleMinPortRangesVer : bytes := str "0.48.0".

Definition firewallRuleMinNativeSSHVer : bytes := str "0.60.0".

Record supportedFeatures := mkFeatures { nativeSSH : bool; portRanges : bool }.

Section Policy.
Context `{GoVersion Version}.

Definition meets (minVer peerVer : bytes) : bool := match MeetsMinVersion minVer peerVer with Ok b => b | _ => false end.

Definition peerSupportedFirewallFeatures (peerVer : bytes) : supportedFeatures :=
  if Contains peerVer (str "dev") then mkFeatures true true
  else if meets firewallRuleMinNativeSSHVer peerVer then mkFeatures true true
  else mkFeatures false (meets firewallRuleMinPortRangesVer peerVer).

Definition shouldCheckRulesForNativeSSH (supportsNative : bool) (rule : PolicyRule) (peer : Peer) : bool :=
  supportsNative && SSHEnabled peer && ServerSSHAllowed (Meta_Flags (Meta peer)) &&
  bytes_eqb (pr_Protocol rule) PolicyRuleProtocolTCP.

Definition isPortInRule (portString : bytes) (port : Z) (rule : FirewallRule) : bool :=
  bytes_eqb (fw_Port rule) portString ||
  ((pr_Start (fw_PortRange rule) <=? port) && (port <=? pr_End (fw_PortRange rule))).

(** [addNativeSSHRule]; the loop ends with the list unchanged at the first rule
    that has the native port. *)
Fixpoint should_add (expanded : list FirewallRule) (shouldAdd : bool) : bool :=
  match expanded with
  | [] => shouldAdd
  | fr :: rest =>
      if isPortInRule nativeSSHPortString 22022 fr then false
      else should_add rest (shouldAdd || isPortInRule defaultSSHPortString 22 fr)
  end.

Definition addNativeSSHRule (base : FirewallRule) (expanded : list FirewallRule) : list FirewallRule :=
  if should_add expanded false then expanded ++ [set_Port base nativeSSHPortString] else expanded.

Definition expand_range (features : supportedFeatures) (base : FirewallRule) (pr : RulePortRange) : list FirewallRule :=
  if portRanges features then [set_PortRange base pr]
  else if negb (pr_Start pr =? pr_End pr) then []
  else [set_Port base (FormatInt (pr_Start pr))].

Definition expandPortsAndRanges (base : FirewallRule) (rule : PolicyRule) (peer : Peer) : list FirewallRule :=
  let features := peerSupportedFirewallFeatures (WtVersion (Meta peer)) in
  let expanded :=
    (set_Port base <$> pr_Ports rule) ++
    (if empty (pr_Ports rule) then pr_PortRanges rule ≫= expand_range features base else []) in
  if shouldCheckRulesForNativeSSH (nativeSSH features) rule peer ||
     bytes_eqb (pr_Protocol rule) PolicyRuleProtocolNetbirdSSH
  then addNativeSSHRule base expanded else expanded.

(** ** The generator *)

Record generator := mkGen {
  rulesExists : gset bytes;
  peersExists : gset bytes;
  gen_rules : list FirewallRule;
  gen_peers : list Peer
}.

Definition new_generator : generator := mkGen ∅ ∅ [] [].

Definition base_rule (rule : PolicyRule) (peer : Peer) (direction : Z) : FirewallRule :=
  let protocol := if bytes_eqb (pr_Protocol rule) PolicyRuleProtocolNetbirdSSH then PolicyRuleProtocolTCP
                  else pr_Protocol rule in
  mkFwRule (pr_ID rule) (IP_String (IP peer)) direction (pr_Action rule) protocol [] (mkPortRange 0 0).

Definition comma : bytes := str ",".

Definition gen_ruleID (rule : PolicyRule) (fr : FirewallRule) : bytes :=
  pr_ID rule ++ fw_PeerIP fr ++ FormatInt (fw_Direction fr) ++ fw_Protocol fr ++ fw_Action fr ++ Join comma (pr_Ports rule).

(** The firewall rules of one peer for one rule and direction. *)
Definition rule_for (targetPeer : Peer) (rule : PolicyRule) (peer : Peer) (direction : Z) : list FirewallRule :=
  let fr := base_rule rule peer direction in
  if empty (pr_Ports rule) && empty (pr_PortRanges rule) then [fr]
  else expandPortsAndRanges fr rule targetPeer.

Definition generate_peer (targetPeer : Peer) (rule : PolicyRule) (direction : Z) (g : generator) (peer : Peer) : generator :=
  let '(ps, pe) := if bool_decide (ID peer ∈ peersExists g) then (gen_peers g, peersExists g)
                   else (gen_peers g ++ [peer], {[ID peer]} ∪ peersExists g) in
  let ruleID := gen_ruleID rule (base_rule rule peer direction) in
  if bool_decide (ruleID ∈ rulesExists g) then mkGen (rulesExists g) pe (gen_rules g) ps
  else mkGen ({[ruleID]} ∪ rulesExists g) pe (gen_rules g ++ rule_for targetPeer rule peer direction) ps.

Definition generateResources (targetPeer : Peer) (rule : PolicyRule) (groupPeers : list Peer) (direction : Z)
    (g : generator) : generator :=
  foldl (generate_peer targetPeer rule direction) g groupPeers.

(** ** The two sides of a rule *)

Fixpoint collect_ids (a : Account) (single : bool) (groups : list bytes) (acc : gset bytes) : list bytes :=
  match groups with
  | [] => elements acc
  | gid :: groups =>
      match GetGroup a gid with
      | None => collect_ids a single groups acc
      | Some g =>
          if IsGroupAll g || single then g_Peers g
          else collect_ids a single groups (acc ∪ list_to_set (g_Peers g))
      end
  end.

Definition getUniquePeerIDsFromGroupsIDs (a : Account) (groups : list bytes) : list bytes :=
  collect_ids a (length groups =? 1)%nat groups ∅.

(** All checks of all posture checks of the list; an unknown id is skipped. *)
Definition validatePostureChecksOnPeer (a : Account) (checks : list bytes) (peerID : bytes) : bool :=
  match GetPeer a peerID with
  | None => false
  | Some peer =>
      forallb (λ id, match GetPostureChecks a id with
                     | None => true
                     | Some pc => forallb (λ c, match Check_Check c peer with Ok b => b | _ => false end) (GetChecks pc)
                     end) checks
  end.

(** The peer behind an id of a group, when the loop of [getAllPeersFromGroups]
    does not skip it. *)
Definition admitted (a : Account) (checks : list bytes) (validated : gset bytes) (id : bytes) : option Peer :=
  match GetPeer a id with
  | None => None
  | Some peer =>
      if Embedded (Peer_ProxyMeta peer) then None
      else if negb (validatePostureChecksOnPeer a checks (ID peer)) then None
      else if negb (bool_decide (ID peer ∈ validated)) then None
      else Some peer
  end.

(** Split the peers of a side into the other peers and whether [peerID] is one. *)
Definition split_side (peerID : bytes) (side : list Peer) : list Peer * bool :=
  (List.filter (λ p, negb (bytes_eqb (ID p) peerID)) side, existsb (λ p, bytes_eqb (ID p) peerID) side).

Definition getAllPeersFromGroups (a : Account) (groups : list bytes) (peerID : bytes) (checks : list bytes)
    (validated : gset bytes) : list Peer * bool :=
  split_side peerID (omap (admitted a checks validated) (getUniquePeerIDsFromGroupsIDs a groups)).

Definition getPeerFromResource (a : Account) (r : Resource) (peerID : bytes) : list Peer * bool :=
  match GetPeer a (res_ID r) with
  | None => ([], false)
  | Some peer => if bytes_eqb (ID peer) peerID then ([], true) else ([peer], false)
  end.

Definition is_peer_resource (r : Resource) : bool := bytes_eqb (res_Type r) ResourceTypePeer && negb (empty (res_ID r)).

Definition source_peers (a : Account) (policy : Policy) (rule : PolicyRule) (peerID : bytes) (validated : gset bytes) :
    list Peer * bool :=
  if is_peer_resource (pr_SourceResource rule) then getPeerFromResource a (pr_SourceResource rule) peerID
  else getAllPeersFromGroups a (pr_Sources rule) peerID (po_SourcePostureChecks policy) validated.

Definition destination_peers (a : Account) (rule : PolicyRule) (peerID : bytes) (validated : gset bytes) :
    list Peer * bool :=
  if is_peer_resource (pr_DestinationResource rule) then getPeerFromResource a (pr_DestinationResource rule) peerID
  else getAllPeersFromGroups a (pr_Destinations rule) peerID [] validated.

(** ** SSH *)

Definition portsIncludesSSH (ports : list bytes) : bool :=
  existsb (λ p, bytes_eqb p defaultSSHPortString || bytes_eqb p nativeSSHPortString) ports.

Definition portRangeIncludesSSH (ranges : list RulePortRange) : bool :=
  existsb (λ pr, ((pr_Start pr <=? defaultSSHPortNumber) && (defaultSSHPortNumber <=? pr_End pr)) ||
                 ((pr_Start pr <=? nativeSSHPortNumber) && (nativeSSHPortNumber <=? pr_End pr))) ranges.

Definition policyRuleImpliesLegacySSH (rule : PolicyRule) : bool :=
  bytes_eqb (pr_Protocol rule) PolicyRuleProtocolALL ||
  (bytes_eqb (pr_Protocol rule) PolicyRuleProtocolTCP &&
   (portsIncludesSSH (pr_Ports rule) || portRangeIncludesSSH (pr_PortRanges rule))).

Definition Wildcard : bytes := str "*".

Abbreviation users_map := (gmap bytes (gset bytes)).

Definition authorize (m : users_map) (localUser : bytes) (ids : gset bytes) : users_map :=
  <[localUser := default ∅ (m !! localUser) ∪ ids]> m.

Definition authorize_group (groupUsers : gmap bytes (list bytes)) (m : users_map) (kv : bytes * list bytes) : users_map :=
  match groupUsers !! kv.1 with
  | None => m
  | Some userIDs =>
      foldl (λ m localUser, authorize m localUser (list_to_set userIDs)) m (if empty kv.2 then [Wildcard] else kv.2)
  end.

(** The end of the loop body: the users and whether SSH is enabled. *)
Definition ssh_step (a : Account) (groupUsers : gmap bytes (list bytes)) (peer : Peer) (rule : PolicyRule)
    (peerInDestinations : bool) (st : users_map * bool) : users_map * bool :=
  if peerInDestinations && bytes_eqb (pr_Protocol rule) PolicyRuleProtocolNetbirdSSH then
    (if negb (bool_decide (pr_AuthorizedGroups rule = ∅)) then
       foldl (authorize_group groupUsers) st.1 (map_to_list (pr_AuthorizedGroups rule))
     else if negb (empty (pr_AuthorizedUser rule)) then authorize st.1 Wildcard {[pr_AuthorizedUser rule]}
     else <[Wildcard := getAllowedUserIDs a]> st.1, true)
  else if peerInDestinations && policyRuleImpliesLegacySSH rule && SSHEnabled peer then
    (<[Wildcard := getAllowedUserIDs a]> st.1, true)
  else st.

(** ** The function *)

Definition generate_rule (peer : Peer) (rule : PolicyRule) (src dst : list Peer * bool) (g : generator) : generator :=
  let gen := generateResources peer rule in
  let g := if pr_Bidirectional rule && src.2 then gen dst.1 FirewallRuleDirectionIN g else g in
  let g := if pr_Bidirectional rule && dst.2 then gen src.1 FirewallRuleDirectionOUT g else g in
  let g := if src.2 then gen dst.1 FirewallRuleDirectionOUT g else g in
  if dst.2 then gen src.1 FirewallRuleDirectionIN g else g.

Definition connection_step (a : Account) (peer : Peer) (validated : gset bytes) (groupUsers : gmap bytes (list bytes))
    (policy : Policy) (st : generator * (users_map * bool)) (rule : PolicyRule) : generator * (users_map * bool) :=
  if pr_Enabled rule then
    let src := source_peers a policy rule (ID peer) validated in
    let dst := destination_peers a rule (ID peer) validated in
    (generate_rule peer rule src dst st.1, ssh_step a groupUsers peer rule dst.2 st.2)
  else st.

Definition GetPeerConnectionResources (a : Account) (peer : Peer) (validated : gset bytes)
    (groupUsers : gmap bytes (list bytes)) : list Peer * list FirewallRule * users_map * bool :=
  let '(g, (users, ssh)) :=
    foldl (λ st policy, if po_Enabled policy
                        then foldl (connection_step a peer validated groupUsers policy) st (po_Rules policy) else st)
      (new_generator, (∅, false)) (a_Policies a) in
  (gen_peers g, gen_rules g, users, ssh).

(** ** The specification *)

(** The peer is a member of one of the groups. *)
Definition in_group (a : Account) (groups : list bytes) (id : bytes) : Prop :=
  ∃ gid g, gid ∈ groups ∧ a_Groups a !! gid = Some g ∧ id ∈ g_Peers g.

(** Every check of the posture checks that exist admits the peer. *)
Definition meets_checks (a : Account) (checks : list bytes) (p : Peer) : Prop :=
  ∀ id pc c, id ∈ checks → GetPostureChecks a id = Some pc → c ∈ GetChecks pc → Check_Check c p = Ok true.

(** The peers on a side of a rule: the one it names, or the members of its
    groups that are validated, meet the checks and do not belong to a proxy. *)
Definition on_side (a : Account) (validated : gset bytes) (res : Resource) (groups checks : list bytes) (p : Peer) : Prop :=
  a_Peers a !! ID p = Some p ∧
  if is_peer_resource res then ID p = res_ID res
  else in_group a groups (ID p) ∧ ID p ∈ validated ∧ meets_checks a checks p ∧ Embedded (Peer_ProxyMeta p) = false.

Definition is_source (a : Account) (validated : gset bytes) (policy : Policy) (rule : PolicyRule) : Peer → Prop :=
  on_side a validated (pr_SourceResource rule) (pr_Sources rule) (po_SourcePostureChecks policy).

Definition is_destination (a : Account) (validated : gset bytes) (rule : PolicyRule) : Peer → Prop :=
  on_side a validated (pr_DestinationResource rule) (pr_Destinations rule) [].

(** A rule of an enabled policy that is enabled. *)
Definition active (a : Account) (policy : Policy) (rule : PolicyRule) : Prop :=
  policy ∈ a_Policies a ∧ po_Enabled policy = true ∧ rule ∈ po_Rules policy ∧ pr_Enabled rule = true.

(** The rule lets [p] send to [q]. *)
Definition flow (a : Account) (validated : gset bytes) (policy : Policy) (rule : PolicyRule) (p q : Peer) : Prop :=
  (is_source a validated policy rule p ∧ is_destination a validated rule q) ∨
  (pr_Bidirectional rule = true ∧ is_destination a validated rule p ∧ is_source a validated policy rule q).

(** The rule concerns both peers. *)
Definition linked (a : Account) (validated : gset bytes) (policy : Policy) (rule : PolicyRule) (p q : Peer) : Prop :=
  (is_source a validated policy rule p ∧ is_destination a validated rule q) ∨
  (is_destination a validated rule p ∧ is_source a validated policy rule q).

(** Peers are filed under their ids, and the group All has every peer but those
    of proxies. *)
Record account_wf (a : Account) : Prop := {
  wf_peers : ∀ k p, a_Peers a !! k = Some p → ID p = k;
  wf_all : ∀ gid g id p, a_Groups a !! gid = Some g → IsGroupAll g = true → a_Peers a !! id = Some p →
    Embedded (Peer_ProxyMeta p) = false → id ∈ g_Peers g
}.

(** No rule id is the beginning of another one, as with ids of a fixed length that
    are unique.  Policies that the API stores with several new rules do not meet this
    ([PolicyAPI.new_rules_collide]). *)
Definition rules_distinct (a : Account) : Prop :=
  ∀ r1 r2, r1 ∈ (a_Policies a ≫= po_Rules) → r2 ∈ (a_Policies a ≫= po_Rules) → pr_ID r1 `prefix_of` pr_ID r2 → r1 = r2.

(** *** The sides as the code computes them *)

Definition src_side (a : Account) (validated : gset bytes) (policy : Policy) (rule : PolicyRule) : list Peer :=
  if is_peer_resource (pr_SourceResource rule) then option_list (GetPeer a (res_ID (pr_SourceResource rule)))
  else omap (admitted a (po_SourcePostureChecks policy) validated) (getUniquePeerIDsFromGroupsIDs a (pr_Sources rule)).

Definition dst_side (a : Account) (validated : gset bytes) (rule : PolicyRule) : list Peer :=
  if is_peer_resource (pr_DestinationResource rule) then option_list (GetPeer a (res_ID (pr_DestinationResource rule)))
  else omap (admitted a [] validated) (getUniquePeerIDsFromGroupsIDs a (pr_Destinations rule)).

(** ** The generator on a list of items *)

Abbreviation item := (PolicyRule * Peer * Z)%type.

Definition gen_item (t : Peer) (g : generator) (i : item) : generator := generate_peer t i.1.1 i.2 g i.1.2.

Definition item_key (i : item) : bytes := gen_ruleID i.1.1 (base_rule i.1.1 i.1.2 i.2).

Definition item_rules (t : Peer) (i : item) : list FirewallRule := rule_for t i.1.1 i.1.2 i.2.

Lemma gen_item_eq t g i :
  gen_item t g i =
  mkGen ({[item_key i]} ∪ rulesExists g) ({[ID i.1.2]} ∪ peersExists g)
    (if bool_decide (item_key i ∈ rulesExists g) then gen_rules g else gen_rules g ++ item_rules t i)
    (if bool_decide (ID i.1.2 ∈ peersExists g) then gen_peers g else gen_peers g ++ [i.1.2]).
Proof.
  unfold gen_item, generate_peer. fold (item_key i) (item_rules t i).
  destruct (bool_decide (ID i.1.2 ∈ peersExists g)) eqn:E1, (bool_decide (item_key i ∈ rulesExists g)) eqn:E2;
    bool_facts; f_equal; set_solver.
Qed.

(** What has been generated after a list of items: of the items with a key, the
    rules of the first. *)
Record generated (t : Peer) (items : list item) (g : generator) : Prop := {
  ge_keys : ∀ k, k ∈ rulesExists g ↔ ∃ i, i ∈ items ∧ item_key i = k;
  ge_ids : ∀ id, id ∈ peersExists g ↔ ∃ i, i ∈ items ∧ ID i.1.2 = id;
  ge_rules : ∀ fr, fr ∈ gen_rules g → ∃ i, i ∈ items ∧ fr ∈ item_rules t i;
  ge_first : ∀ i, i ∈ items → ∃ j, j ∈ items ∧ item_key j = item_key i ∧ ∀ fr, fr ∈ item_rules t j → fr ∈ gen_rules g;
  ge_peers : ∀ q, q ∈ gen_peers g ↔ ∃ i, i ∈ items ∧ i.1.2 = q;
  ge_nodup : NoDup (ID <$> gen_peers g)
}.

Lemma generated_items t items :
  (∀ i j, i ∈ items → j ∈ items → ID i.1.2 = ID j.1.2 → i.1.2 = j.1.2) →
  generated t items (foldl (gen_item t) new_generator items).
Proof.
  intros Hi. induction items as [|x items IH] using rev_ind.
  { split; simpl; try (intros; split; [intros []%elem_of_empty|intros (? & []%elem_of_nil & _)]);
      try (intros; split; [intros []%elem_of_nil|intros (? & []%elem_of_nil & _)]); try (by intros ? []%elem_of_nil). constructor. }
  rewrite foldl_app. simpl. rewrite gen_item_eq.
  destruct IH as [H1 H2 H3 H3' H4 H5]; [intros; apply Hi; set_solver|].
  set (g := foldl _ _ items) in *.
  assert (Happ : ∀ (P : item → Prop), (∃ i, i ∈ items ++ [x] ∧ P i) ↔ (∃ i, i ∈ items ∧ P i) ∨ P x).
  { intros P. setoid_rewrite elem_of_app. setoid_rewrite list_elem_of_singleton. naive_solver. }
  split; simpl.
  - intros k. rewrite Happ, elem_of_union, elem_of_singleton, H1. naive_solver.
  - intros id. rewrite Happ, elem_of_union, elem_of_singleton, H2. naive_solver.
  - intros fr. rewrite Happ. case_bool_decide as E; [by intros ?%H3; left|].
    rewrite elem_of_app. intros [?%H3|?]; [by left|by right].
  - intros i [Hin|Ex%list_elem_of_singleton]%elem_of_app; [|subst i]; rewrite Happ.
    + left. destruct (H3' i Hin) as (j & Hj & Ej & Hfr). exists j. split_and!; [done..|]. intros fr Hf.
      case_bool_decide; [|apply elem_of_app; left]; by apply Hfr.
    + case_bool_decide as E.
      * apply H1 in E as (k & Hk & Ek). left. destruct (H3' k Hk) as (j & Hj & Ej & Hfr). exists j. by rewrite Ej, Ek.
      * right. split; [done|]. intros fr Hf. apply elem_of_app. by right.
  - intros q. case_bool_decide as E.
    + apply H2 in E as (j & Hj & Ej). rewrite Happ, H4. split; [by left|]. intros [?|Hq]; [done|].
      exists j. split; [done|]. rewrite <- Hq. apply Hi; set_solver.
    + rewrite Happ, elem_of_app, list_elem_of_singleton, H4. naive_solver.
  - case_bool_decide as E; [done|]. rewrite fmap_app. apply NoDup_app. split_and!; [done| |apply NoDup_singleton].
    intros id (q & -> & Hq)%list_elem_of_fmap. simpl. rewrite list_elem_of_singleton. intros Heq. apply E, H2.
    apply H4 in Hq as (i & ? & <-). eauto.
Qed.

(** When equal keys mean equal rules, nothing is lost. *)
Lemma generated_exact t items g : generated t items g →
  (∀ i j, i ∈ items → j ∈ items → item_key i = item_key j → item_rules t i = item_rules t j) →
  ∀ fr, fr ∈ gen_rules g ↔ ∃ i, i ∈ items ∧ fr ∈ item_rules t i.
Proof.
  intros Hg Hk fr. split; [apply (ge_rules _ _ _ Hg)|]. intros (i & Hi & Hfr).
  destruct (ge_first _ _ _ Hg i Hi) as (j & Hj & Ej & Hall). apply Hall. by rewrite (Hk j i Hj Hi Ej).
Qed.

(** ** The items of an account *)

Definition rule_items (rule : PolicyRule) (src dst : list Peer * bool) : list item :=
  let mk d p := (rule, p, d) in
  (if pr_Bidirectional rule && src.2 then mk FirewallRuleDirectionIN <$> dst.1 else []) ++
  (if pr_Bidirectional rule && dst.2 then mk FirewallRuleDirectionOUT <$> src.1 else []) ++
  (if src.2 then mk FirewallRuleDirectionOUT <$> dst.1 else []) ++
  (if dst.2 then mk FirewallRuleDirectionIN <$> src.1 else []).

Lemma foldl_fmap {A B C} (f : A → B → A) (h : C → B) (l : list C) a : foldl f a (h <$> l) = foldl (λ a c, f a (h c)) a l.
Proof. revert a. induction l; intros; csimpl; [done|]. apply IHl. Qed.

Lemma generate_rule_items t rule src dst g :
  generate_rule t rule src dst g = foldl (gen_item t) g (rule_items rule src dst).
Proof.
  unfold generate_rule, rule_items, generateResources, gen_item.
  destruct (pr_Bidirectional rule), src.2, dst.2; simpl; rewrite ?foldl_app, ?foldl_fmap; simpl;
    rewrite ?app_nil_r, ?foldl_fmap; done.
Qed.

Definition account_items (a : Account) (me : bytes) (validated : gset bytes) : list item :=
  List.filter po_Enabled (a_Policies a) ≫= λ policy,
    List.filter pr_Enabled (po_Rules policy) ≫= λ rule,
      rule_items rule (source_peers a policy rule me validated) (destination_peers a rule me validated).

Lemma rules_fold a t validated gu policy rules st :
  (foldl (connection_step a t validated gu policy) st rules).1 =
  foldl (gen_item t) st.1 (List.filter pr_Enabled rules ≫= λ rule,
    rule_items rule (source_peers a policy rule (ID t) validated) (destination_peers a rule (ID t) validated)).
Proof.
  revert st. induction rules as [|r rules IH]; intros st; [done|]. cbn [foldl List.filter]. rewrite IH.
  unfold connection_step. destruct (pr_Enabled r); [|done]. csimpl. by rewrite foldl_app, generate_rule_items.
Qed.

Lemma account_fold a t validated gu policies st :
  (foldl (λ st policy, if po_Enabled policy
                       then foldl (connection_step a t validated gu policy) st (po_Rules policy) else st) st policies).1 =
  foldl (gen_item t) st.1 (List.filter po_Enabled policies ≫= λ policy,
    List.filter pr_Enabled (po_Rules policy) ≫= λ rule,
      rule_items rule (source_peers a policy rule (ID t) validated) (destination_peers a rule (ID t) validated)).
Proof.
  revert st. induction policies as [|p policies IH]; intros st; [done|]. cbn [foldl List.filter]. rewrite IH.
  destruct (po_Enabled p); [|done]. csimpl. by rewrite foldl_app, rules_fold.
Qed.

Lemma resources_generated a t validated gu :
  let g := foldl (gen_item t) new_generator (account_items a (ID t) validated) in
  (GetPeerConnectionResources a t validated gu).1.1 = (gen_peers g, gen_rules g).
Proof.
  cbn zeta. unfold GetPeerConnectionResources, account_items.
  pose proof (account_fold a t validated gu (a_Policies a) (new_generator, (∅, false))) as Hf. simpl in Hf. rewrite <- Hf.
  by destruct (foldl _ _ (a_Policies a)) as [g [users ssh]].
Qed.

(** ** Membership *)

Lemma resource_split a r me :
  getPeerFromResource a r me = split_side me (option_list (GetPeer a (res_ID r))).
Proof.
  unfold getPeerFromResource, split_side. destruct (GetPeer a (res_ID r)) as [p|]; [|done]. simpl.
  by destruct (bytes_eqb (ID p) me).
Qed.

Lemma source_split a policy rule me validated :
  source_peers a policy rule me validated = split_side me (src_side a validated policy rule).
Proof. unfold source_peers, src_side. case_if; [apply resource_split|done]. Qed.

Lemma destination_split a rule me validated :
  destination_peers a rule me validated = split_side me (dst_side a validated rule).
Proof. unfold destination_peers, dst_side. case_if; [apply resource_split|done]. Qed.

Lemma elem_of_split me side q : q ∈ (split_side me side).1 ↔ q ∈ side ∧ ID q ≠ me.
Proof.
  unfold split_side. simpl. rewrite !list_elem_of_In, filter_In, negb_true_iff. by rewrite bytes_eqb_false.
Qed.

Section WellFormed.
Context (a : Account) (Hwf : account_wf a) (validated : gset bytes).

Definition of_account (side : list Peer) : Prop := ∀ p, p ∈ side → a_Peers a !! ID p = Some p.

Lemma resource_of_account id : of_account (option_list (GetPeer a id)).
Proof using Hwf.
  unfold GetPeer. intros p Hp. destruct (a_Peers a !! id) as [q|] eqn:E; [|by apply elem_of_nil in Hp].
  apply list_elem_of_singleton in Hp as ->. by rewrite (wf_peers a Hwf id q E).
Qed.

Lemma groups_of_account checks ids : of_account (omap (admitted a checks validated) ids).
Proof using Hwf.
  intros p (id & _ & Hp)%list_elem_of_omap. unfold admitted, GetPeer in Hp.
  destruct (a_Peers a !! id) as [q|] eqn:E; [|done]. repeat (case_if; [done|]). injection Hp as ->.
  by rewrite (wf_peers a Hwf id p E).
Qed.

Lemma src_of_account policy rule : of_account (src_side a validated policy rule).
Proof using Hwf. unfold src_side. case_if; [apply resource_of_account|apply groups_of_account]. Qed.

Lemma dst_of_account rule : of_account (dst_side a validated rule).
Proof using Hwf. unfold dst_side. case_if; [apply resource_of_account|apply groups_of_account]. Qed.

Lemma validate_meets checks p :
  a_Peers a !! ID p = Some p → validatePostureChecksOnPeer a checks (ID p) = true ↔ meets_checks a checks p.
Proof using Type.
  intros Hp. unfold validatePostureChecksOnPeer, GetPeer, meets_checks. rewrite Hp, forallb_forall.
  setoid_rewrite <- list_elem_of_In. split.
  - intros Hall id pc c Hid Hpc Hc. specialize (Hall id Hid). rewrite Hpc, forallb_forall in Hall.
    specialize (Hall c (proj1 (list_elem_of_In _ _) Hc)). by destruct (Check_Check c p) as [[]| |].
  - intros Hall id Hid. destruct (GetPostureChecks a id) as [pc|] eqn:Hpc; [|done]. apply forallb_forall.
    intros c Hc%list_elem_of_In. by rewrite (Hall id pc c Hid Hpc Hc).
Qed.

Lemma in_group_cons gid groups id :
  in_group a (gid :: groups) id ↔ (∃ g, a_Groups a !! gid = Some g ∧ id ∈ g_Peers g) ∨ in_group a groups id.
Proof using Type.
  unfold in_group. setoid_rewrite elem_of_cons. split.
  - intros (gid' & g & [->|Hin] & Hg & Hid); [left; eauto|right; eauto].
  - intros [(g & Hg & Hid)|(gid' & g & Hin & Hg & Hid)]; [exists gid, g; auto|exists gid', g; auto].
Qed.

(** A list of one group, or one with the group All, is cut short. *)
Lemma collect_members single groups acc p :
  a_Peers a !! ID p = Some p → Embedded (Peer_ProxyMeta p) = false →
  (single = true → length groups ≤ 1)%nat → (single = true → acc = ∅) →
  ID p ∈ collect_ids a single groups acc ↔ ID p ∈ acc ∨ in_group a groups (ID p).
Proof using Hwf.
  intros Hp He. revert acc. induction groups as [|gid groups IH]; intros acc Hlen Hacc; cbn [collect_ids].
  { rewrite elem_of_elements. unfold in_group. setoid_rewrite elem_of_nil. naive_solver. }
  rewrite in_group_cons. unfold GetGroup. destruct (a_Groups a !! gid) as [g|] eqn:Eg.
  2: { rewrite IH; [|simpl in Hlen; intros; specialize (Hlen ltac:(done)); lia|done]. naive_solver. }
  assert (Hg : (∃ g', Some g = Some g' ∧ ID p ∈ g_Peers g') ↔ ID p ∈ g_Peers g) by naive_solver. rewrite Hg.
  destruct (IsGroupAll g || single) eqn:Ea.
  - apply orb_true_iff in Ea as [Ea| ->].
    + pose proof (wf_all a Hwf gid g (ID p) p Eg Ea Hp He). tauto.
    + rewrite Hacc by done. destruct groups; [|specialize (Hlen eq_refl); simpl in Hlen; lia].
      unfold in_group. setoid_rewrite elem_of_nil. rewrite elem_of_empty. naive_solver.
  - apply orb_false_iff in Ea as [_ ->]. rewrite IH by done. rewrite elem_of_union, elem_of_list_to_set. tauto.
Qed.

Lemma unique_members groups p :
  a_Peers a !! ID p = Some p → Embedded (Peer_ProxyMeta p) = false →
  ID p ∈ getUniquePeerIDsFromGroupsIDs a groups ↔ in_group a groups (ID p).
Proof using Hwf.
  intros Hp He. unfold getUniquePeerIDsFromGroupsIDs.
  rewrite collect_members; [rewrite elem_of_empty; tauto|done..| |done]. intros ?%Nat.eqb_eq. lia.
Qed.

Lemma admitted_side groups checks p :
  p ∈ omap (admitted a checks validated) (getUniquePeerIDsFromGroupsIDs a groups) ↔
  a_Peers a !! ID p = Some p ∧ in_group a groups (ID p) ∧ ID p ∈ validated ∧ meets_checks a checks p ∧
  Embedded (Peer_ProxyMeta p) = false.
Proof using Hwf.
  split.
  - intros Hin. assert (Hp : a_Peers a !! ID p = Some p) by by apply (groups_of_account _ _ _ Hin).
    apply list_elem_of_omap in Hin as (id & Hid & Ha). unfold admitted, GetPeer in Ha.
    destruct (a_Peers a !! id) as [q|] eqn:E; [|done]. assert (ID q = id) as <- by by apply (wf_peers a Hwf).
    destruct (Embedded _) eqn:Ee; [done|]. destruct (validatePostureChecksOnPeer _ _ _) eqn:Ev; [|done]. simpl in Ha.
    case_bool_decide; [|done]. injection Ha as ->.
    split_and!; [done|by apply unique_members|done|by apply validate_meets|done].
  - intros (Hp & Hg & Hv & Hc & He). apply list_elem_of_omap. exists (ID p). split; [by apply unique_members|].
    unfold admitted, GetPeer. rewrite Hp, He, (proj2 (validate_meets checks p Hp) Hc). simpl. by rewrite bool_decide_true.
Qed.

Lemma resource_side res p :
  p ∈ option_list (GetPeer a (res_ID res)) ↔ a_Peers a !! ID p = Some p ∧ ID p = res_ID res.
Proof using Hwf.
  unfold GetPeer. split.
  - intros Hp. destruct (a_Peers a !! res_ID res) as [q|] eqn:Eq; [|by apply elem_of_nil in Hp].
    apply list_elem_of_singleton in Hp as ->. by rewrite (wf_peers a Hwf _ q Eq).
  - intros [Hp <-]. rewrite Hp. by left.
Qed.

Lemma src_side_spec policy rule p : p ∈ src_side a validated policy rule ↔ is_source a validated policy rule p.
Proof using Hwf. unfold src_side, is_source, on_side. case_if; [apply resource_side|apply admitted_side]. Qed.

Lemma dst_side_spec rule p : p ∈ dst_side a validated rule ↔ is_destination a validated rule p.
Proof using Hwf. unfold dst_side, is_destination, on_side. case_if; [apply resource_side|apply admitted_side]. Qed.

Lemma split_has side t :
  of_account side → a_Peers a !! ID t = Some t → (split_side (ID t) side).2 = true ↔ t ∈ side.
Proof using Type.
  intros Hs Ht. unfold split_side. simpl. rewrite existsb_exists. setoid_rewrite <- list_elem_of_In. split.
  - intros (p & Hp & Hid%bytes_eqb_spec). specialize (Hs p Hp). rewrite Hid, Ht in Hs. by injection Hs as ->.
  - intros Hin. exists t. by rewrite bytes_eqb_spec.
Qed.

Lemma elem_of_rule_items rule S D t r q d :
  of_account S → of_account D → a_Peers a !! ID t = Some t →
  (r, q, d) ∈ rule_items rule (split_side (ID t) S) (split_side (ID t) D) ↔
  r = rule ∧ ID q ≠ ID t ∧
  ((d = FirewallRuleDirectionOUT ∧ ((t ∈ S ∧ q ∈ D) ∨ (pr_Bidirectional rule = true ∧ t ∈ D ∧ q ∈ S))) ∨
   (d = FirewallRuleDirectionIN ∧ ((q ∈ S ∧ t ∈ D) ∨ (pr_Bidirectional rule = true ∧ q ∈ D ∧ t ∈ S)))).
Proof using Type.
  intros HS HD Ht. unfold rule_items. rewrite !elem_of_app.
  assert (Hif : ∀ (b : bool) d' l, (r, q, d) ∈ (if b then (λ p, (rule, p, d')) <$> l else []) ↔
            b = true ∧ r = rule ∧ d = d' ∧ q ∈ l).
  { intros b d' l. destruct b; [rewrite list_elem_of_fmap|rewrite elem_of_nil]; naive_solver. }
  rewrite !Hif, !andb_true_iff, !(split_has _ t), !elem_of_split by done. tauto.
Qed.

Lemma elem_of_items t r q d :
  a_Peers a !! ID t = Some t →
  (r, q, d) ∈ account_items a (ID t) validated ↔
  ∃ policy, active a policy r ∧ ID q ≠ ID t ∧
    ((d = FirewallRuleDirectionOUT ∧ flow a validated policy r t q) ∨
     (d = FirewallRuleDirectionIN ∧ flow a validated policy r q t)).
Proof using Hwf.
  intros Ht. unfold account_items, active, flow. rewrite list_elem_of_bind. setoid_rewrite list_elem_of_bind.
  setoid_rewrite source_split. setoid_rewrite destination_split.
  setoid_rewrite list_elem_of_In. setoid_rewrite filter_In. setoid_rewrite <- list_elem_of_In.
  assert (Hitem : ∀ policy rule, (r, q, d) ∈ rule_items rule (split_side (ID t) (src_side a validated policy rule))
      (split_side (ID t) (dst_side a validated rule)) ↔ _) by
    (intros; apply elem_of_rule_items; [apply src_of_account|apply dst_of_account|done]).
  setoid_rewrite Hitem. clear Hitem. setoid_rewrite src_side_spec. setoid_rewrite dst_side_spec. split.
  - intros (policy & (rule & (-> & Hne & Hd) & ? & ?) & ? & ?). exists policy. split_and!; [done..|].
    destruct Hd as [[? Hd]|[? Hd]]; [by left|by right].
  - intros (policy & (? & ? & ? & ?) & ? & Hd). exists policy. split; [|done]. exists r. split; [|done]. by split_and!.
Qed.

Lemma items_rule t i : a_Peers a !! ID t = Some t → i ∈ account_items a (ID t) validated →
  i.1.1 ∈ (a_Policies a ≫= po_Rules) ∧ a_Peers a !! ID i.1.2 = Some i.1.2 ∧
  (i.2 = FirewallRuleDirectionOUT ∨ i.2 = FirewallRuleDirectionIN).
Proof using Hwf.
  intros Ht. destruct i as [[r q] d]. rewrite (elem_of_items t r q d Ht).
  intros (policy & (Hp & _ & Hr & _) & _ & Hd). simpl. split_and!.
  - apply list_elem_of_bind. eauto.
  - destruct Hd as [[_ [[_ Hq]|(_ & _ & Hq)]]|[_ [[Hq _]|(_ & Hq & _)]]]; apply Hq.
  - tauto.
Qed.

(** Two items with the same key generate the same rules. *)
Lemma item_key_rules t u i j :
  rules_distinct a → a_Peers a !! ID t = Some t → i ∈ account_items a (ID t) validated → j ∈ account_items a (ID t) validated →
  item_key i = item_key j → item_rules u i = item_rules u j.
Proof using Hwf.
  intros Hdis Ht Hi Hj Hk. destruct (items_rule t i Ht Hi) as (Hri & _ & Hdi), (items_rule t j Ht Hj) as (Hrj & _ & Hdj).
  destruct i as [[r p] d], j as [[r' q] d']. simpl in *. unfold item_key, gen_ruleID in Hk. simpl in Hk.
  assert (r = r') as <-.
  { match type of Hk with ?l = _ => destruct (prefix_weak_total (pr_ID r) (pr_ID r') l) as [Hx|Hx] end.
    - by eexists.
    - rewrite Hk. by eexists.
    - by apply Hdis.
    - symmetry. by apply Hdis. }
  apply app_inv_head in Hk.
  rewrite !(app_assoc (IP_String _)) in Hk. apply app_inv_tail in Hk.
  assert (∃ c c', FormatInt d = [c] ∧ FormatInt d' = [c'] ∧ (c = c' → d = d')) as (c & c' & Ec & Ec' & Hcc).
  { destruct Hdi as [->| ->], Hdj as [->| ->]; do 2 eexists; (split; [vm_compute; reflexivity|]);
      (split; [vm_compute; reflexivity|]); done. }
  rewrite Ec, Ec' in Hk. apply app_inj_tail in Hk as [Hip Hc]. rewrite (Hcc Hc).
  unfold item_rules, rule_for, base_rule. simpl. by rewrite Hip.
Qed.

Lemma resources_spec t :
  a_Peers a !! ID t = Some t →
  generated t (account_items a (ID t) validated)
    (foldl (gen_item t) new_generator (account_items a (ID t) validated)).
Proof using Hwf.
  intros Ht. apply generated_items. intros i j Hi Hj Hid.
  destruct (items_rule t i Ht Hi) as (_ & Hpi & _), (items_rule t j Ht Hj) as (_ & Hpj & _). rewrite Hid in Hpi. congruence.
Qed.
End WellFormed.

(** ** The theorems *)

(** The peers a peer connects to.  Peer [q] is on the list of peer [t] exactly
    when an active rule has one of them among its sources and the other among
    its destinations; no peer is listed twice, and a peer never lists itself. *)
Lemma connection_peers a validated t gu q :
  account_wf a → a_Peers a !! ID t = Some t →
  q ∈ (GetPeerConnectionResources a t validated gu).1.1.1 ↔
    ID q ≠ ID t ∧ ∃ policy rule, active a policy rule ∧ linked a validated policy rule t q.
Proof.
  intros Hwf Ht. rewrite resources_generated. simpl. rewrite (ge_peers _ _ _ (resources_spec a Hwf validated t Ht) q).
  split.
  - intros ([[r q'] d] & Hi & <-). apply (elem_of_items a Hwf validated t) in Hi as (policy & Hact & Hne & Hd); [|done].
    simpl. split; [done|]. exists policy, r. split; [done|]. unfold linked, flow in *. tauto.
  - intros (Hne & policy & rule & Hact & [[H1 H2]|[H1 H2]]).
    + exists (rule, q, FirewallRuleDirectionOUT). split; [|done]. apply (elem_of_items a Hwf validated t); [done|].
      exists policy. split_and!; [done..|]. left. split; [done|]. by left.
    + exists (rule, q, FirewallRuleDirectionIN). split; [|done]. apply (elem_of_items a Hwf validated t); [done|].
      exists policy. split_and!; [done..|]. right. split; [done|]. by left.
Qed.

Lemma connection_nodup a validated t gu :
  account_wf a → a_Peers a !! ID t = Some t → NoDup (ID <$> (GetPeerConnectionResources a t validated gu).1.1.1).
Proof.
  intros Hwf Ht. rewrite resources_generated. apply (ge_nodup _ _ _ (resources_spec a Hwf validated t Ht)).
Qed.

Lemma connection_of_account a validated t gu q :
  account_wf a → a_Peers a !! ID t = Some t → q ∈ (GetPeerConnectionResources a t validated gu).1.1.1 →
  a_Peers a !! ID q = Some q.
Proof.
  intros Hwf Ht. rewrite connection_peers by done. intros (_ & policy & rule & _ & [[_ Hq]|[_ Hq]]).
  - apply Hq.
  - apply Hq.
Qed.

(** C8: The access lists of an account whose group All is complete agree with its
    policies.  Peer [q] is on the list of peer [t] exactly when an active rule has one
    of them among its sources and the other among its destinations, so that
    connections are symmetric; nobody is listed twice and nobody lists itself. *)
Theorem peer_list_symmetric a validated t gu :
  account_wf a → a_Peers a !! ID t = Some t →
  let peers p := (GetPeerConnectionResources a p validated gu).1.1.1 in
  (∀ q, q ∈ peers t ↔ ID q ≠ ID t ∧ ∃ policy rule, active a policy rule ∧ linked a validated policy rule t q) ∧
  (∀ q, a_Peers a !! ID q = Some q → q ∈ peers t ↔ t ∈ peers q) ∧
  NoDup (ID <$> peers t) ∧ t ∉ peers t.
Proof.
  intros Hwf Ht. cbn zeta. split_and!.
  - intros q. by apply connection_peers.
  - intros q Hq. rewrite !connection_peers by done. unfold linked.
    split; intros (? & policy & rule & ? & ?); (split; [done|]; exists policy, rule; split; [done|]; tauto).
  - by apply connection_nodup.
  - rewrite connection_peers by done. tauto.
Qed.

(** The default policy of a new account connects everyone.  An account without
    groups gets the group All with all its peers and a policy from All to All, is
    well formed then, and any two validated peers, of which none belongs to a proxy,
    list each other. *)
Theorem default_policy_connects_all a gid pid validated p q gu :
  a_Groups a = ∅ → (∀ k x, a_Peers a !! k = Some x → ID x = k) →
  a_Peers a !! ID p = Some p → a_Peers a !! ID q = Some q → ID p ≠ ID q → ID p ∈ validated → ID q ∈ validated →
  Embedded (Peer_ProxyMeta p) = false → Embedded (Peer_ProxyMeta q) = false →
  let a' := AddAllGroup a gid pid false in
  account_wf a' ∧ q ∈ (GetPeerConnectionResources a' p validated gu).1.1.1.
Proof.
  intros Hg Hk Hp Hq Hne Hvp Hvq Hep Heq. unfold AddAllGroup. rewrite Hg, map_size_empty. cbn [Nat.eqb negb].
  set (all := mkGroup _ _ _ _ _ _ _). set (a' := set_policies _ _).
  assert (Hall : ∀ x, a_Peers a !! ID x = Some x → ID x ∈ g_Peers all).
  { intros x Hx. apply list_elem_of_fmap. exists x. split; [done|]. apply list_elem_of_fmap. exists (ID x, x).
    split; [done|]. by apply elem_of_map_to_list. }
  assert (Hwf : account_wf a').
  { split; [exact Hk|].
    - intros g' g id x Hgg _ Hx _. simpl in Hgg. apply lookup_singleton_Some in Hgg as [_ <-].
      rewrite <- (Hk id x Hx). apply Hall. simpl in Hx. by rewrite (Hk id x Hx). }
  split; [done|]. apply connection_peers; [done..|]. split; [done|].
  exists (default_policy pid gid). eexists. split; [split_and!; [by left|done|by left|done]|].
  assert (Hside : ∀ x, a_Peers a !! ID x = Some x → ID x ∈ validated → Embedded (Peer_ProxyMeta x) = false →
            on_side a' validated (mkResource [] []) [gid] [] x).
  { intros x Hx Hv He. split; [done|]. split; [|split; [done|split; [|done]]].
    - exists gid, all. split_and!; [by left|simpl; apply lookup_singleton_eq|by apply Hall].
    - by intros id pc c ?%elem_of_nil. }
  left. split; by apply Hside.
Qed.

(** The packet filter rule [fr] of peer [t] is one of [rule], for packets to [q] that
    the rule lets [t] send or for packets from [q] that it lets [q] send. *)
Definition rule_of_flow (a : Account) (validated : gset bytes) (t : Peer) (policy : Policy) (rule : PolicyRule) (q : Peer)
    (fr : FirewallRule) : Prop :=
  active a policy rule ∧ ID q ≠ ID t ∧
  ((flow a validated policy rule t q ∧ fr ∈ rule_for t rule q FirewallRuleDirectionOUT) ∨
   (flow a validated policy rule q t ∧ fr ∈ rule_for t rule q FirewallRuleDirectionIN)).

Lemma rule_of_flow_item a validated t fr : account_wf a → a_Peers a !! ID t = Some t →
  (∃ policy rule q, rule_of_flow a validated t policy rule q fr) ↔
  ∃ i, i ∈ account_items a (ID t) validated ∧ fr ∈ item_rules t i.
Proof.
  intros Hwf Ht. unfold rule_of_flow. split.
  - intros (policy & rule & q & Hact & Hne & [[Hf Hfr]|[Hf Hfr]]);
      [exists (rule, q, FirewallRuleDirectionOUT)|exists (rule, q, FirewallRuleDirectionIN)];
      (split; [|done]); apply (elem_of_items a Hwf validated t); [done|by exists policy; eauto|done|by exists policy; eauto].
  - intros ([[r q] d] & Hi & Hfr). apply (elem_of_items a Hwf validated t) in Hi as (policy & Hact & Hne & Hd); [|done].
    unfold item_rules in Hfr. simpl in Hfr. exists policy, r, q. split_and!; [done..|].
    destruct Hd as [[-> ?]|[-> ?]]; [by left|by right].
Qed.

(** C7: The firewall rules of a peer are those of its policies, in an account whose
    group All is complete.  Every rule for packets to [q] comes from an active policy
    rule that lets the peer send to [q], every rule for packets from [q] from one that
    lets [q] send to the peer.  Conversely, if no rule id is the beginning of another
    one, the rules of all these flows are generated, though the generator drops rules
    whose text it has seen. *)
Theorem firewall_rules_exact a validated t gu fr :
  account_wf a → a_Peers a !! ID t = Some t →
  let rules := (GetPeerConnectionResources a t validated gu).1.1.2 in
  (fr ∈ rules → ∃ policy rule q, rule_of_flow a validated t policy rule q fr) ∧
  (rules_distinct a → ∀ policy rule q, rule_of_flow a validated t policy rule q fr → fr ∈ rules).
Proof.
  intros Hwf Ht. cbn zeta. rewrite resources_generated. simpl. pose proof (resources_spec a Hwf validated t Ht) as Hg. split.
  - intros Hfr. apply rule_of_flow_item; [done..|]. by apply (ge_rules _ _ _ Hg).
  - intros Hdis policy rule q Hf. apply (generated_exact _ _ _ Hg); [intros i j Hi Hj; by apply (item_key_rules a Hwf validated t t)|].
    apply rule_of_flow_item; eauto.
Qed.

(** ** Ports *)

(** The packets a generated rule is about: all ports when it names none. *)
Definition port_matches (fr : FirewallRule) (p : Z) : Prop :=
  if empty (fw_Port fr) then
    (pr_Start (fw_PortRange fr) = 0 ∧ pr_End (fw_PortRange fr) = 0) ∨
    pr_Start (fw_PortRange fr) ≤ p ≤ pr_End (fw_PortRange fr)
  else ParseInt (fw_Port fr) = Some p.

Definition rule_covers (rule : PolicyRule) (p : Z) : Prop :=
  (pr_Ports rule = [] ∧ pr_PortRanges rule = []) ∨
  (∃ s, s ∈ pr_Ports rule ∧ ParseInt s = Some p) ∨
  (pr_Ports rule = [] ∧ ∃ r, r ∈ pr_PortRanges rule ∧ pr_Start r ≤ p ≤ pr_End r).

Definition valid_ports (rule : PolicyRule) : Prop :=
  (∀ s, s ∈ pr_Ports rule → s ≠ []) ∧ (∀ r, r ∈ pr_PortRanges rule → port_ok r).

(** The peer gets the port of the native SSH server with port 22. *)
Definition native_ssh (t : Peer) (rule : PolicyRule) : Prop :=
  pr_Protocol rule = PolicyRuleProtocolNetbirdSSH ∨
  (pr_Protocol rule = PolicyRuleProtocolTCP ∧ SSHEnabled t = true ∧ ServerSSHAllowed (Meta_Flags (Meta t)) = true ∧
   nativeSSH (peerSupportedFirewallFeatures (WtVersion (Meta t))) = true).

Lemma should_add_spec l b : should_add l b = true →
  b = true ∨ ∃ fr, fr ∈ l ∧ isPortInRule defaultSSHPortString 22 fr = true.
Proof.
  revert b. induction l as [|fr l IH]; intros b; simpl; [by left|]. case_if; [done|].
  intros [[?|?]%orb_true_iff|(x & ? & ?)]%IH; [by left|right; exists fr; set_solver|right; exists x; set_solver].
Qed.

(** The rules before the native SSH port is added. *)
Definition expansion (t : Peer) (rule : PolicyRule) (base : FirewallRule) : list FirewallRule :=
  (set_Port base <$> pr_Ports rule) ++
  (if empty (pr_Ports rule) then pr_PortRanges rule ≫= expand_range (peerSupportedFirewallFeatures (WtVersion (Meta t))) base else []).

Lemma expanded_sound t rule base fr p :
  valid_ports rule → fw_Port base = [] → fw_PortRange base = mkPortRange 0 0 →
  fr ∈ expansion t rule base →
  port_matches fr p ∨ (fw_Port fr = FormatInt p ∧ 0 ≤ p < 2 ^ 16) ∨ (isPortInRule (FormatInt p) p fr = true ∧ 0 < p < 2 ^ 16) →
  rule_covers rule p.
Proof.
  intros [Hs Hr] Hb1 Hb2 [Hfr|Hfr]%elem_of_app.
  - apply list_elem_of_fmap in Hfr as (s & -> & Hin). intros Hm. right. left. exists s. split; [done|].
    unfold port_matches, isPortInRule in Hm. simpl in Hm. specialize (Hs s Hin). rewrite Hb2 in Hm. simpl in Hm.
    destruct s as [|b s]; [done|]. simpl in Hm. destruct Hm as [?|[[-> ?]|[Hm ?]]]; [done|apply ParseInt_FormatInt; lia|].
    apply orb_true_iff in Hm as [Hm|Hm]; [|lia]. apply bytes_eqb_spec in Hm as ->. apply ParseInt_FormatInt. lia.
  - destruct (pr_Ports rule) eqn:Ep; simpl in Hfr; [|by apply elem_of_nil in Hfr].
    apply list_elem_of_bind in Hfr as (r & Hfr & Hin). specialize (Hr r Hin). intros Hm. right. right. split; [done|].
    exists r. split; [done|]. unfold expand_range in Hfr. unfold port_ok in Hr.
    assert (Hinj : ∀ x y, FormatInt x = FormatInt y → 0 ≤ x < 2 ^ 16 → 0 ≤ y < 2 ^ 16 → x = y).
    { intros x y Hxy ? ?. apply (f_equal ParseInt) in Hxy. rewrite !ParseInt_FormatInt in Hxy by lia. congruence. }
    case_if; [|case_if; [by apply elem_of_nil in Hfr|]]; apply list_elem_of_singleton in Hfr as ->;
      unfold port_matches, isPortInRule in Hm; simpl in Hm; rewrite ?Hb1, ?Hb2 in Hm; simpl in Hm.
    + destruct Hm as [[?|?]|[[Hz ?]|[Hm ?]]]; [lia|done| |].
      * exfalso. by apply (FormatInt_nonempty p).
      * apply orb_true_iff in Hm as [Hm|Hm]; [|lia]. apply bytes_eqb_spec in Hm. exfalso. by apply (FormatInt_nonempty p).
    + bool_facts. destruct (empty (FormatInt (pr_Start r))) eqn:Ee.
      { exfalso. apply (FormatInt_nonempty (pr_Start r)). by destruct (FormatInt (pr_Start r)). }
      destruct Hm as [Hm|[[Hz ?]|[Hm ?]]].
      * rewrite ParseInt_FormatInt in Hm by lia. injection Hm as <-. lia.
      * apply Hinj in Hz; lia.
      * apply orb_true_iff in Hm as [Hm|Hm]; [|lia]. apply bytes_eqb_spec in Hm. apply Hinj in Hm; lia.
Qed.

Lemma rule_for_cases t rule q d fr :
  fr ∈ rule_for t rule q d →
  let base := base_rule rule q d in
  (fr = base ∧ pr_Ports rule = [] ∧ pr_PortRanges rule = []) ∨
  fr ∈ expansion t rule base ∨
  (fr = set_Port base nativeSSHPortString ∧ native_ssh t rule ∧
   ∃ x, x ∈ expansion t rule base ∧ isPortInRule defaultSSHPortString 22 x = true).
Proof.
  unfold rule_for. destruct (empty (pr_Ports rule) && empty (pr_PortRanges rule)) eqn:Ee.
  - intros ->%list_elem_of_singleton. left. destruct (pr_Ports rule), (pr_PortRanges rule); done.
  - intros Hfr. right. revert Hfr. unfold expandPortsAndRanges. cbn zeta.
    fold (expansion t rule (base_rule rule q d)). set (ex := expansion _ _ _).
    destruct (shouldCheckRulesForNativeSSH _ rule t || _) eqn:En; [|by left].
    unfold addNativeSSHRule. destruct (should_add ex false) eqn:Es; [|by left].
    intros [?| ->%list_elem_of_singleton]%elem_of_app; [by left|]. right. split; [done|]. split.
    + unfold native_ssh, shouldCheckRulesForNativeSSH in *. rewrite orb_true_iff, !andb_true_iff, !bytes_eqb_spec in En. tauto.
    + by apply should_add_spec in Es as [?|?].
Qed.

(** The expansion of a rule into firewall rules neither opens nor closes ports.
    Every generated rule carries the id, action and direction of its policy rule
    and the address of the other peer; a port it opens is one of the rule, or the
    port of the native SSH server for a rule that has port 22 and a peer that
    runs the server; and a client that understands port ranges gets all ports of
    the rule.  Ports and ranges are those the API accepts. *)
Lemma port_expansion t rule q d :
  valid_ports rule →
  (∀ fr, fr ∈ rule_for t rule q d →
     fw_PolicyID fr = pr_ID rule ∧ fw_PeerIP fr = IP_String (IP q) ∧ fw_Direction fr = d ∧ fw_Action fr = pr_Action rule ∧
     ∀ p, 0 < p < 2 ^ 16 → port_matches fr p →
       rule_covers rule p ∨ (p = 22022 ∧ native_ssh t rule ∧ rule_covers rule 22)) ∧
  (portRanges (peerSupportedFirewallFeatures (WtVersion (Meta t))) = true →
   ∀ p, rule_covers rule p → ∃ fr, fr ∈ rule_for t rule q d ∧ port_matches fr p).
Proof.
  intros Hv. set (base := base_rule rule q d).
  assert (Hex : ∀ fr, fr ∈ expansion t rule base → fw_PolicyID fr = pr_ID rule ∧ fw_PeerIP fr = IP_String (IP q) ∧
            fw_Direction fr = d ∧ fw_Action fr = pr_Action rule).
  { intros fr [(s & -> & _)%list_elem_of_fmap|Hfr]%elem_of_app; [done|].
    destruct (empty _); [|by apply elem_of_nil in Hfr]. apply list_elem_of_bind in Hfr as (r & Hfr & _).
    unfold expand_range in Hfr. repeat case_if; [apply list_elem_of_singleton in Hfr as ->|by apply elem_of_nil in Hfr|
      apply list_elem_of_singleton in Hfr as ->]; done. }
  split.
  - intros fr [(-> & ? & ?)|[Hfr|(-> & Hn & x & Hx & H22)]]%rule_for_cases.
    + split_and!; [done..|]. intros p _ _. left. by left.
    + destruct (Hex fr Hfr) as (? & ? & ? & ?). split_and!; [done..|]. intros p Hp Hm. left.
      eapply expanded_sound; [done| | |exact Hfr|by left]; done.
    + split_and!; [done..|]. intros p Hp Hm. right. unfold port_matches in Hm. vm_compute in Hm. injection Hm as <-.
      split_and!; [done..|]. eapply (expanded_sound t rule base x 22); [done| | |exact Hx|]; [done..|].
      right. right. split; [exact H22|lia].
  - intros Hfeat p Hc. assert (Hsub : ∀ fr, fr ∈ expansion t rule base → pr_Ports rule ≠ [] ∨ pr_PortRanges rule ≠ [] →
        fr ∈ rule_for t rule q d).
    { intros fr Hfr Hne. unfold rule_for. destruct (empty (pr_Ports rule) && empty (pr_PortRanges rule)) eqn:Ee.
      { destruct (pr_Ports rule), (pr_PortRanges rule); naive_solver. }
      unfold expandPortsAndRanges. cbn zeta. fold (expansion t rule (base_rule rule q d)). fold base.
      case_if; [|done]. unfold addNativeSSHRule. case_if; set_solver. }
    destruct Hc as [[E1 E2]|[(s & Hs & Hp)|(E1 & r & Hr & Hp)]].
    + exists base. unfold rule_for. rewrite E1, E2. simpl. split; [by left|]. unfold port_matches. simpl. by left.
    + exists (set_Port base s). split.
      * apply Hsub; [|left; by destruct (pr_Ports rule); [apply elem_of_nil in Hs|]]. apply elem_of_app. left. by apply list_elem_of_fmap_2.
      * unfold port_matches. simpl. destruct Hv as [Hv _]. specialize (Hv s Hs). by destruct s.
    + exists (set_PortRange base r). split.
      * apply Hsub; [|right; by destruct (pr_PortRanges rule); [apply elem_of_nil in Hr|]]. apply elem_of_app. right.
        rewrite E1. simpl. apply list_elem_of_bind. exists r. split; [|done]. unfold expand_range. rewrite Hfeat. by left.
      * unfold port_matches. simpl. by right.
Qed.

(** ** Users *)

Section Users.
Context (a : Account) (gu : gmap bytes (list bytes)) (t : Peer).

Definition local_users (l : list bytes) : list bytes := if empty l then [Wildcard] else l.

(** The rule makes [u] a user of the machine account [l]. *)
Definition grants (rule : PolicyRule) (l u : bytes) : Prop :=
  (pr_Protocol rule = PolicyRuleProtocolNetbirdSSH ∧
   ((∃ gid ls ids, pr_AuthorizedGroups rule !! gid = Some ls ∧ gu !! gid = Some ids ∧ l ∈ local_users ls ∧ u ∈ ids) ∨
    (pr_AuthorizedGroups rule = ∅ ∧ pr_AuthorizedUser rule ≠ [] ∧ u = pr_AuthorizedUser rule ∧ l = Wildcard) ∨
    (pr_AuthorizedGroups rule = ∅ ∧ pr_AuthorizedUser rule = [] ∧ u ∈ getAllowedUserIDs a ∧ l = Wildcard))) ∨
  (pr_Protocol rule ≠ PolicyRuleProtocolNetbirdSSH ∧ policyRuleImpliesLegacySSH rule = true ∧ SSHEnabled t = true ∧
   u ∈ getAllowedUserIDs a ∧ l = Wildcard).

Definition enables_ssh (rule : PolicyRule) : Prop :=
  pr_Protocol rule = PolicyRuleProtocolNetbirdSSH ∨ (policyRuleImpliesLegacySSH rule = true ∧ SSHEnabled t = true).

Definition authorized (m : users_map) (l u : bytes) : Prop := ∃ us, m !! l = Some us ∧ u ∈ us.

Lemma authorized_authorize m x us l u : authorized (authorize m x us) l u ↔ authorized m l u ∨ (l = x ∧ u ∈ us).
Proof using Type.
  unfold authorized, authorize. destruct (decide (x = l)) as [<-|Hne].
  - rewrite lookup_insert_eq. destruct (m !! x) as [s|]; simpl; split.
    + intros (? & [= <-] & [?|?]%elem_of_union); [left; eauto|by right].
    + intros [(? & [= <-] & ?)|[_ ?]]; eexists; (split; [done|]); apply elem_of_union; auto.
    + intros (? & [= <-] & [[]%elem_of_empty|?]%elem_of_union). by right.
    + intros [(? & [=] & _)|[_ ?]]. eexists. split; [done|]. apply elem_of_union. auto.
  - rewrite lookup_insert_ne by done. naive_solver.
Qed.

Lemma authorized_set m us l u :
  authorized (<[Wildcard := us]> m) l u ↔ (l ≠ Wildcard ∧ authorized m l u) ∨ (l = Wildcard ∧ u ∈ us).
Proof using Type.
  unfold authorized. destruct (decide (l = Wildcard)) as [->|Hne].
  - rewrite lookup_insert_eq. naive_solver.
  - rewrite lookup_insert_ne by done. naive_solver.
Qed.

Lemma authorized_locals ids ls m l u :
  authorized (foldl (λ m x, authorize m x (list_to_set ids)) m ls) l u ↔ authorized m l u ∨ (l ∈ ls ∧ u ∈ ids).
Proof using Type.
  revert m. induction ls as [|x ls IH]; intros m; simpl; [rewrite elem_of_nil; tauto|].
  rewrite IH, authorized_authorize, elem_of_list_to_set, elem_of_cons. tauto.
Qed.

Lemma authorized_groups kvs m l u :
  authorized (foldl (authorize_group gu) m kvs) l u ↔
  authorized m l u ∨ ∃ gid ls ids, (gid, ls) ∈ kvs ∧ gu !! gid = Some ids ∧ l ∈ local_users ls ∧ u ∈ ids.
Proof using Type.
  revert m. induction kvs as [|[gid ls] kvs IH]; intros m; simpl.
  { split; [by left|]. intros [?|(? & ? & ? & []%elem_of_nil & _)]; done. }
  rewrite IH. unfold authorize_group at 1. simpl. setoid_rewrite elem_of_cons. destruct (gu !! gid) as [ids|] eqn:E.
  - fold (local_users ls). rewrite authorized_locals. naive_solver.
  - naive_solver.
Qed.

(** One rule with the peer among its destinations: it adds what it grants; the
    entry of the wildcard may be replaced by the allowed users. *)
Lemma ssh_step_spec rule st :
  let st' := ssh_step a gu t rule true st in
  (st'.2 = true ↔ st.2 = true ∨ enables_ssh rule) ∧
  (∀ l u, authorized st'.1 l u → authorized st.1 l u ∨ grants rule l u) ∧
  (∀ l u, (l ≠ Wildcard ∨ u ∈ getAllowedUserIDs a) → authorized st.1 l u ∨ grants rule l u → authorized st'.1 l u).
Proof using Type.
  cbn zeta. unfold ssh_step, grants, enables_ssh. cbn [andb].
  destruct (bytes_eqb (pr_Protocol rule) PolicyRuleProtocolNetbirdSSH) eqn:Ep.
  - apply bytes_eqb_spec in Ep. split; [naive_solver|]. cbn [fst].
    destruct (bool_decide (pr_AuthorizedGroups rule = ∅)) eqn:Eg; bool_facts; simpl.
    + destruct (empty (pr_AuthorizedUser rule)) eqn:Eu; simpl.
      * assert (pr_AuthorizedUser rule = []) by by destruct (pr_AuthorizedUser rule).
        setoid_rewrite authorized_set. rewrite Eg. setoid_rewrite lookup_empty. split; [tauto|].
        intros l u Hor HJ. destruct (decide (l = Wildcard)) as [->|Hl]; [right; by destruct Hor|left; split; [done|]].
        by destruct HJ as [?|[(_ & [(? & ? & ? & ? & _)|[(_ & ? & _)|(_ & _ & _ & ?)]])|(? & _)]].
      * assert (pr_AuthorizedUser rule ≠ []) by by intros E; rewrite E in Eu.
        setoid_rewrite authorized_authorize. setoid_rewrite elem_of_singleton. rewrite Eg. setoid_rewrite lookup_empty.
        split; [tauto|]. intros l u _ HJ.
        destruct HJ as [?|[(_ & [(? & ? & ? & ? & _)|[(_ & ? & ? & ?)|(_ & ? & _)]])|(? & _)]]; [by left|done|by right|done..].
    + setoid_rewrite authorized_groups. setoid_rewrite elem_of_map_to_list. split; [tauto|]. intros l u _ HJ.
      destruct HJ as [?|[(_ & [?|[(? & _)|(? & _)]])|(? & _)]]; [by left|by right|done..].
  - apply bytes_eqb_false in Ep. destruct (policyRuleImpliesLegacySSH rule && SSHEnabled t) eqn:El.
    + apply andb_true_iff in El as [E1 E2]. split; [naive_solver|]. cbn [fst]. setoid_rewrite authorized_set.
      split; [tauto|]. intros l u Hor HJ.
      destruct (decide (l = Wildcard)) as [->|Hl]; [right; by destruct Hor|left; split; [done|]].
      by destruct HJ as [?|[(? & _)|(_ & _ & _ & _ & ?)]].
    + apply andb_false_iff in El. split; [split; [by left|]; intros [?|[?|[? ?]]]; [done..|]; destruct El; congruence|].
      split; [by left|]. intros l u _ [?|[[? _]|(_ & ? & ? & _)]]; [done..|]. destruct El; congruence.
Qed.

(** A list of rules, each with the peer among its destinations or not. *)
Lemma ssh_fold (rules : list (PolicyRule * bool)) :
  let st := foldl (λ st rb, ssh_step a gu t rb.1 rb.2 st) (∅, false) rules in
  (st.2 = true ↔ ∃ rule, (rule, true) ∈ rules ∧ enables_ssh rule) ∧
  (∀ l u, authorized st.1 l u → ∃ rule, (rule, true) ∈ rules ∧ grants rule l u) ∧
  (∀ l u rule, (l ≠ Wildcard ∨ u ∈ getAllowedUserIDs a) → (rule, true) ∈ rules → grants rule l u → authorized st.1 l u).
Proof using Type.
  cbn zeta. induction rules as [|[rule b] rules IH] using rev_ind.
  { simpl. unfold authorized. setoid_rewrite lookup_empty. setoid_rewrite elem_of_nil. naive_solver. }
  rewrite foldl_app. simpl. set (st := foldl _ _ rules) in *. destruct IH as (H1 & H2 & H3).
  setoid_rewrite elem_of_app. setoid_rewrite list_elem_of_singleton. destruct b.
  - destruct (ssh_step_spec rule st) as (G1 & G2 & G3). split_and!.
    + rewrite G1, H1. naive_solver.
    + intros l u [(r & ? & ?)%H2|?]%G2; [exists r; tauto|exists rule; tauto].
    + intros l u r Hor [Hin|[= ->]] Hgr; apply G3; [done|left; by eapply H3|done|by right].
  - unfold ssh_step. cbn [andb]. split_and!; [rewrite H1; naive_solver| |].
    + intros l u (r & ? & ?)%H2. exists r. tauto.
    + intros l u r Hor [Hin|[=]] Hgr. by eapply H3.
Qed.
End Users.

Definition dst_rules (a : Account) (t : Peer) (validated : gset bytes) : list (PolicyRule * bool) :=
  List.filter po_Enabled (a_Policies a) ≫= λ policy,
    (λ rule, (rule, (destination_peers a rule (ID t) validated).2)) <$> List.filter pr_Enabled (po_Rules policy).

Lemma users_fold a t validated gu policies st :
  (foldl (λ st policy, if po_Enabled policy
                       then foldl (connection_step a t validated gu policy) st (po_Rules policy) else st) st policies).2 =
  foldl (λ st rb, ssh_step a gu t rb.1 rb.2 st) st.2 (List.filter po_Enabled policies ≫= λ policy,
    (λ rule, (rule, (destination_peers a rule (ID t) validated).2)) <$> List.filter pr_Enabled (po_Rules policy)).
Proof.
  revert st. induction policies as [|p policies IH]; intros st; [done|]. cbn [foldl List.filter]. rewrite IH.
  destruct (po_Enabled p); [|done]. csimpl. rewrite foldl_app. f_equal. clear.
  revert st. induction (po_Rules p) as [|r rules IH]; intros st; [done|]. cbn [foldl List.filter]. rewrite IH.
  unfold connection_step. destruct (pr_Enabled r); by csimpl.
Qed.

(** The users of the SSH server of a peer.  The server is enabled exactly when
    an active rule of SSH traffic, or of all traffic or port 22 for a peer with
    the older server, has the peer among its destinations.  Every authorised user
    is granted by such a rule; and every user a rule grants is authorised, except
    that a rule for all users replaces the entry of the wildcard and drops from
    it the users of earlier rules that are blocked or service users. *)
Theorem ssh_users_exact a validated t gu :
  account_wf a → a_Peers a !! ID t = Some t →
  let r := GetPeerConnectionResources a t validated gu in
  let concerned rule := ∃ policy, active a policy rule ∧ is_destination a validated rule t in
  (r.2 = true ↔ ∃ rule, concerned rule ∧ enables_ssh t rule) ∧
  (∀ l u, authorized r.1.2 l u → ∃ rule, concerned rule ∧ grants a gu t rule l u) ∧
  (∀ l u rule, (l ≠ Wildcard ∨ u ∈ getAllowedUserIDs a) → concerned rule → grants a gu t rule l u → authorized r.1.2 l u).
Proof.
  intros Hwf Ht. cbn zeta.
  assert (Hr : ((GetPeerConnectionResources a t validated gu).1.2, (GetPeerConnectionResources a t validated gu).2) =
            foldl (λ st rb, ssh_step a gu t rb.1 rb.2 st) (∅, false) (dst_rules a t validated)).
  { unfold dst_rules, GetPeerConnectionResources.
    pose proof (users_fold a t validated gu (a_Policies a) (new_generator, (∅, false))) as Hu. cbn [snd] in Hu. rewrite <- Hu.
    by destruct (foldl _ _ (a_Policies a)) as [g [users ssh]]. }
  destruct (ssh_fold a gu t (dst_rules a t validated)) as (H1 & H2 & H3). rewrite <- Hr in H1, H2, H3. cbn [fst snd] in *.
  assert (Hin : ∀ rule, (rule, true) ∈ dst_rules a t validated ↔ ∃ policy, active a policy rule ∧ is_destination a validated rule t).
  { intros rule. unfold dst_rules, active. rewrite list_elem_of_bind. setoid_rewrite list_elem_of_fmap.
    setoid_rewrite destination_split. setoid_rewrite list_elem_of_In. setoid_rewrite filter_In. setoid_rewrite <- list_elem_of_In.
    setoid_rewrite <- (dst_side_spec a Hwf validated rule t). setoid_rewrite <- (split_has a (dst_side a validated rule) t (dst_of_account a Hwf validated rule) Ht). split.
    - intros (policy & (r & [= -> Hd] & ? & ?) & ? & ?). exists policy. split; [done|]. symmetry. exact Hd.
    - intros (policy & (? & ? & ? & ?) & Hd). exists policy. split; [|done]. exists rule. by rewrite Hd. }
  split_and!.
  - rewrite H1. by setoid_rewrite Hin.
  - intros l u (rule & Hc%Hin & ?)%H2. by exists rule.
  - intros l u rule Hor Hc. apply H3; [done|]. by apply Hin.
Qed.
End Policy.

(** ** Examples *)

Definition ip4 (a b c d : Z) : bytes := Z_to_byte <$> [a; b; c; d].

Definition peer_a : Peer := example_peer "peer-a" "key-a" (ip4 100 64 0 1) "0.60.0".

Definition peer_b : Peer := example_peer "peer-b" "key-b" (ip4 100 64 0 2) "0.60.0".

Definition plain_group (id name : string) (peers : list bytes) : Group :=
  mkGroup (str id) (str "account") (str name) (str "api") peers [] [].

Definition clients_to_servers : PolicyRule :=
  plain_rule "rule-1" [str "clients"] [str "servers"] false PolicyRuleProtocolTCP [str "22"] [].

Definition two_peers : Account :=
  mkAccount (str "account") (mkNetwork (str "net") [] 1)
    {[str "peer-a" := peer_a; str "peer-b" := peer_b]}
    {[str "user" := mkUser (str "user") false false []]}
    {[str "clients" := plain_group "clients" "clients" [str "peer-a"];
      str "servers" := plain_group "servers" "servers" [str "peer-b"]]}
    [plain_policy [clients_to_servers] []] ∅ ∅ [] [] example_settings [] [] [].

Definition both_valid : gset bytes := {[str "peer-a"; str "peer-b"]}.

Lemma no_all_group a : forallb (λ g, negb (IsGroupAll g)) (map_to_list (a_Groups a)).*2 = true →
  ∀ gid g (P : Prop), a_Groups a !! gid = Some g → IsGroupAll g = true → P.
Proof.
  intros Hall gid g P Hg Ha. rewrite forallb_forall in Hall.
  assert (In g (map_to_list (a_Groups a)).*2) as Hin.
  { apply list_elem_of_In, list_elem_of_fmap. exists (gid, g). split; [done|]. by apply elem_of_map_to_list. }
  apply Hall in Hin. by rewrite Ha in Hin.
Qed.

Lemma two_peers_wf : account_wf two_peers.
Proof.
  split.
  - intros k p. simpl. rewrite lookup_insert_Some, lookup_singleton_Some. by intros [[<- <-]|(_ & <- & <-)].
  - intros gid g id p Hg Ha _ _. by apply (no_all_group two_peers eq_refl gid g).
Qed.

Lemma one_rule_distinct a r : (a_Policies a ≫= po_Rules) = [r] → rules_distinct a.
Proof. intros E r1 r2. rewrite E, !list_elem_of_singleton. congruence. Qed.

Lemma peer_list_symmetric_witness :
  let peers p := (GetPeerConnectionResources two_peers p both_valid ∅).1.1.1 in
  peers peer_a = [peer_b] ∧ (peer_b ∈ peers peer_a ↔ peer_a ∈ peers peer_b).
Proof.
  intros peers. split; [vm_compute; reflexivity|].
  apply (peer_list_symmetric two_peers both_valid peer_a ∅ two_peers_wf); vm_compute; reflexivity.
Defined.

Definition in_rule : FirewallRule :=
  mkFwRule (str "rule-1") (str "100.64.0.1") FirewallRuleDirectionIN PolicyTrafficActionAccept PolicyRuleProtocolTCP
    (str "22") (mkPortRange 0 0).

Lemma firewall_rules_exact_witness :
  (GetPeerConnectionResources two_peers peer_b both_valid ∅).1.1.2 = [in_rule] ∧
  (∃ policy rule q, rule_of_flow two_peers both_valid peer_b policy rule q in_rule) ∧
  (∀ policy rule q, rule_of_flow two_peers both_valid peer_b policy rule q in_rule →
     in_rule ∈ (GetPeerConnectionResources two_peers peer_b both_valid ∅).1.1.2).
Proof.
  assert (E : (GetPeerConnectionResources two_peers peer_b both_valid ∅).1.1.2 = [in_rule]) by (vm_compute; reflexivity).
  destruct (firewall_rules_exact two_peers both_valid peer_b ∅ in_rule two_peers_wf) as [H1 H2]; [vm_compute; reflexivity|].
  split; [exact E|]. split; [apply H1; rewrite E; by left|]. apply H2. by eapply one_rule_distinct.
Defined.

Definition ssh_rule : PolicyRule :=
  plain_rule "rule-2" [str "clients"] [str "servers"] false PolicyRuleProtocolNetbirdSSH [str "22"] [].

Definition ssh_account : Account := set_policies two_peers [plain_policy [ssh_rule] []].

Lemma ssh_account_wf : account_wf ssh_account.
Proof.
  split; [apply (wf_peers _ two_peers_wf)|apply (wf_all _ two_peers_wf)].
Qed.

Lemma ssh_users_exact_witness :
  elements <$> ((GetPeerConnectionResources ssh_account peer_b both_valid ∅).1.2 !! Wildcard) = Some [str "user"] ∧
  ((GetPeerConnectionResources ssh_account peer_b both_valid ∅).2 = true ↔
     ∃ rule, (∃ policy, active ssh_account policy rule ∧ is_destination ssh_account both_valid rule peer_b) ∧
             enables_ssh peer_b rule).
Proof.
  split; [vm_compute; reflexivity|].
  apply (ssh_users_exact ssh_account both_valid peer_b ∅ ssh_account_wf). vm_compute. reflexivity.
Defined.

(** A reverse-proxy service with two targets on one peer. *)
Definition proxy_peer : Peer :=
  mkPeer (str "proxy") (str "account") (str "key-p") (ip4 100 64 0 9) (example_meta "proxy" "0.60.0")
    (mkProxyMeta true (str "eu")) (str "proxy") (str "proxy") (Some (mkStatus 0 true false false)) [] [] false false false
    None 0 false (mkLocation [] [] [] 0) [] false.

Definition proxy_target (port : Z) : Target := mkTarget (str "peer-a") (str "peer") None port (str "http") true.

Definition proxied : Account :=
  mkAccount (str "account") (mkNetwork (str "net") [] 1) {[str "peer-a" := peer_a; str "proxy" := proxy_peer]} ∅ ∅
    [] ∅ ∅ [] [] example_settings [] []
    [mkService (str "svc") (str "svc") (str "eu") (str "http") true [proxy_target 8080; proxy_target 9090]].

(** The rules a reverse-proxy service injects get their id from the service,
    the proxy and the path.  Two targets on one peer without a path share it, and
    since the text by which the generator recognises a rule has no port ranges,
    the second target is dropped: the peer opens port 8080 and not 9090. *)
Theorem proxy_targets_collide :
  let a := InjectProxyPolicies proxied in
  let rules := (GetPeerConnectionResources a peer_a {[str "peer-a"; str "proxy"]} ∅).1.1.2 in
  length (a_Policies a) = 2%nat ∧
  (∃ fr, fr ∈ rules ∧ port_matches fr 8080) ∧ (∀ fr, fr ∈ rules → ¬ port_matches fr 9090).
Proof.
  cbn zeta. set (rules := (GetPeerConnectionResources _ _ _ _).1.1.2).
  assert (Er : rules = [mkFwRule (str "proxy-access-svc-proxy-") (str "100.64.0.9") 0 (str "accept") (str "tcp") []
            (mkPortRange 8080 8080)]) by (vm_compute; reflexivity).
  rewrite Er. split; [vm_compute; reflexivity|]. split.
  - eexists. split; [by left|]. unfold port_matches. simpl. lia.
  - intros fr Hfr. apply list_elem_of_singleton in Hfr as ->. unfold port_matches. simpl. lia.
Qed.
