(* ===== verification/NetworkMap.v ===== *)
(** * The network map of a peer

    management/server/types: the part of account.go that turns an account into
    what one peer is told, [GetPeerNetworkMap], with firewall_rule.go for the
    rules of routed networks, networks/resources/types/resource.go and the
    conversion of zones.  The peers and firewall rules of the policies are
    [PeerPolicy].

    [dns.Fqdn], [domain.FromStringList] and [idna.ToUnicode] are arguments, as is
    the time.  A nil route, which [ToRoute] returns for a domain that does not
    parse, is [None]; reading a field of it is [Panic]. *)

From stdpp Require Import base list gmap strings.
From S2P Require Import Prelude GoStd GoStrings NetIP FirewallRules AclManager Routes Peers Posture PolicyTypes Account PeerPolicy.

#[local] Open Scope go_scope.

(** ** Data *)

Record RouteFirewallRule := mkRouteFwRule {
  rfr_PolicyID : bytes;
  rfr_RouteID : bytes;
  rfr_SourceRanges : list bytes;
  rfr_Action : bytes;
  rfr_Destination : bytes;
  rfr_Protocol : bytes;
  rfr_Port : Z;
  rfr_PortRange : RulePortRange;
  rfr_Domains : option (list bytes);
  rfr_IsDynamic : bool
}.

Record SimpleRecord := mkSimpleRecord {
  sr_Name : bytes;
  sr_Type : Z;
  sr_Class : bytes;
  sr_TTL : Z;
  sr_RData : bytes
}.

Record CustomZone := mkCustomZone {
  cz_Domain : bytes;
  cz_Records : list SimpleRecord;
  cz_SearchDomainDisabled : bool;
  cz_NonAuthoritative : bool
}.

(** The fields of records and zones that reach the peers. *)
Record ZoneRecord := mkZoneRecord { zr_Name : bytes; zr_Type : bytes; zr_Content : bytes; zr_TTL : Z }.

Record Zone := mkZone {
  zn_Domain : bytes;
  zn_Enabled : bool;
  zn_EnableSearchDomain : bool;
  zn_DistributionGroups : list bytes;
  zn_Records : list ZoneRecord
}.

(** The forwarder port and the forwarding rules of a network map are filled in
    by code outside of the account. *)
Record DNSConfig := mkDNSConfig {
  dc_ServiceEnable : bool;
  dc_NameServerGroups : list NameServerGroup;
  dc_CustomZones : list CustomZone
}.

Record NetworkMap := mkNetMap {
  nm_Peers : list Peer;
  nm_Network : Network;
  nm_Routes : list (option Route);
  nm_DNSConfig : DNSConfig;
  nm_OfflinePeers : list Peer;
  nm_FirewallRules : list FirewallRule;
  nm_RoutesFirewallRules : list RouteFirewallRule;
  nm_AuthorizedUsers : gmap bytes (gset bytes);
  nm_EnableSSH : bool
}.

Definition no_dns : DNSConfig := mkDNSConfig false [] [].

(** ** Rules of routed networks: firewall_rule.go *)

Definition allowed_ips (peer : Peer) : bytes := IP_String (IP peer) ++ str "/32".

Definition set_rule_port (r : RouteFirewallRule) (port : Z) (range : RulePortRange) : RouteFirewallRule :=
  mkRouteFwRule (rfr_PolicyID r) (rfr_RouteID r) (rfr_SourceRanges r) (rfr_Action r) (rfr_Destination r) (rfr_Protocol r)
    port range (rfr_Domains r) (rfr_IsDynamic r).

Definition generateRuleIDBase (rule : PolicyRule) (base : RouteFirewallRule) : bytes :=
  pr_ID rule ++ Join comma (rfr_SourceRanges base) ++ FormatInt FirewallRuleDirectionIN ++ rfr_Protocol base ++ rfr_Action base.

Fixpoint ranges_loop (base : RouteFirewallRule) (idBase : bytes) (seen : gset bytes) (l : list RulePortRange) :
    list RouteFirewallRule :=
  match l with
  | [] => []
  | pr :: l =>
      let ruleID := idBase ++ FormatInt (pr_Start pr) ++ hyphen :: FormatInt (pr_End pr) in
      if bool_decide (ruleID ∈ seen) then ranges_loop base idBase seen l
      else set_rule_port base (rfr_Port base) pr :: ranges_loop base idBase ({[ruleID]} ∪ seen) l
  end.

Definition generateRulesWithPortRanges (base : RouteFirewallRule) (rule : PolicyRule) : list RouteFirewallRule :=
  if empty (pr_Ports rule) then
    if empty (pr_PortRanges rule) then [base]
    else ranges_loop base (generateRuleIDBase rule base) ∅ (pr_PortRanges rule)
  else [].

(** [strconv.ParseUint(s, 10, 16)] *)
Definition ParseUint16 (s : bytes) : option Z :=
  if empty s then None
  else match parse_digits 0 s with Some v => if v <? 65536 then Some v else None | None => None end.

Fixpoint ports_loop (base : RouteFirewallRule) (idBase : bytes) (seen : gset bytes) (l : list bytes) :
    list RouteFirewallRule :=
  match l with
  | [] => []
  | port :: l =>
      let ruleID := idBase ++ port in
      if bool_decide (ruleID ∈ seen) then ports_loop base idBase seen l
      else match ParseUint16 port with
           | None => ports_loop base idBase ({[ruleID]} ∪ seen) l
           | Some p => set_rule_port base (u16 p) (rfr_PortRange base) :: ports_loop base idBase ({[ruleID]} ∪ seen) l
           end
  end.

Definition generateRulesWithPorts (base : RouteFirewallRule) (rule : PolicyRule) : list RouteFirewallRule :=
  ports_loop base (generateRuleIDBase rule base) ∅ (pr_Ports rule).

Definition generateRouteFirewallRules (route : Route) (rule : PolicyRule) (groupPeers : list Peer) :
    list RouteFirewallRule :=
  let base := mkRouteFwRule (pr_PolicyID rule) (rt_ID route) (allowed_ips <$> groupPeers) (pr_Action rule)
                (prefix_String (rt_Network route)) (pr_Protocol rule) 0 (mkPortRange 0 0) (rt_Domains route)
                (IsDynamic route) in
  if empty (pr_Ports rule) then generateRulesWithPortRanges base rule else generateRulesWithPorts base rule.

Definition getDefaultPermit (route : Route) : list RouteFirewallRule :=
  let sources := if Is6 (pf_addr (rt_Network route)) then [str "::/0"] else [str "0.0.0.0/0"] in
  let rule s := mkRouteFwRule [] (rt_ID route) s PolicyTrafficActionAccept (prefix_String (rt_Network route))
                  PolicyRuleProtocolALL 0 (mkPortRange 0 0) (rt_Domains route) (IsDynamic route) in
  rule sources :: (if IsDynamic route then [rule [str "::/0"]] else []).

(** ** Routes *)

Definition set_route (r : Route) (id peer : bytes) (peerGroups : list bytes) : Route :=
  mkRoute id (rt_AccountID r) (rt_Network r) (rt_Domains r) (rt_KeepRoute r) (rt_NetID r) (rt_Description r) peer
    (rt_PeerID r) peerGroups (rt_NetworkType r) (rt_Masquerade r) (rt_Metric r) (rt_Enabled r) (rt_Groups r)
    (rt_AccessControlGroups r) (rt_SkipAutoApply r).

(** The routes the loop of [getRoutingPeerRoutes] offers to [takeRoute]. *)
Definition offered_routes (get_group : bytes → option Group) (peerID : bytes) (r : Route) : list Route :=
  omap (λ gid, match get_group gid with
               | None => None
               | Some g => if bool_decide (peerID ∈ g_Peers g)
                           then Some (set_route r (rt_ID r ++ Byte.x3a :: peerID) peerID []) else None
               end) (rt_PeerGroups r) ++
  (if bytes_eqb (rt_Peer r) peerID then [r] else []).

(** [takeRoute]: the first route of an id counts; an enabled one gets the key
    of the peer. *)
Fixpoint take_routes (key : bytes) (seen : gset bytes) (l : list Route) : list Route * list Route :=
  match l with
  | [] => ([], [])
  | r :: l =>
      if bool_decide (rt_ID r ∈ seen) then take_routes key seen l
      else
        let '(en, dis) := take_routes key ({[rt_ID r]} ∪ seen) l in
        if rt_Enabled r then (set_route r (rt_ID r) key (rt_PeerGroups r) :: en, dis) else (en, r :: dis)
  end.

Definition getRoutingPeerRoutes (a : Account) (peerID : bytes) : list Route * list Route :=
  match GetPeer a peerID with
  | None => ([], [])
  | Some peer => take_routes (Key peer) ∅ ((map_to_list (a_Routes a)).*2 ≫= offered_routes (GetGroup a) peerID)
  end.

Definition filterRoutesByGroups (routes : list Route) (groups : gset bytes) : list Route :=
  List.filter (λ r, existsb (λ g, bool_decide (g ∈ groups)) (rt_Groups r)) routes.

Section Map.
Context `{GoVersion Version}.
Context (to_unicode : bytes → option bytes) (Fqdn : bytes → bytes) (FromString : bytes → option bytes).

Definition filterRoutesFromPeersOfSameHAGroup (routes : list Route) (memberships : gset bytes) : list Route :=
  List.filter (λ r, negb (bool_decide (GetHAUniqueID to_unicode r ∈ memberships))) routes.

Definition GetRoutesToSync (a : Account) (peerID : bytes) (aclPeers : list Peer) (peerGroups : gset bytes) : list Route :=
  let '(routes, disabled) := getRoutingPeerRoutes a peerID in
  let membership : gset bytes := list_to_set (GetHAUniqueID to_unicode <$> routes ++ disabled) in
  routes ++ (aclPeers ≫= λ peer,
    filterRoutesFromPeersOfSameHAGroup (filterRoutesByGroups (getRoutingPeerRoutes a (ID peer)).1 peerGroups) membership).

(** ** Rules of the routes a peer serves *)

Definition group_members (a : Account) (ids : list bytes) : list bytes :=
  ids ≫= λ id, match GetGroup a id with Some g => g_Peers g | None => [] end.

Definition getDistributionGroupsPeers (a : Account) (route : Route) : gset bytes :=
  list_to_set (group_members a (rt_Groups route)).

(** The sources of a rule that may use a route. *)
Definition getRulePeers (a : Account) (rule : PolicyRule) (checks : list bytes) (peerID : bytes)
    (distribution validated : gset bytes) : list Peer :=
  let ok id := bool_decide (id ∈ distribution) && bool_decide (id ∈ validated) && validatePostureChecksOnPeer a checks id in
  let res := pr_SourceResource rule in
  let ids : gset bytes :=
    list_to_set (List.filter (λ id, negb (bytes_eqb id peerID) && ok id) (group_members a (pr_Sources rule))) ∪
    (if is_peer_resource res && ok (res_ID res) then {[res_ID res]} else ∅) in
  omap (GetPeer a) (elements ids).

Definition getRouteFirewallRules (a : Account) (peerID : bytes) (policies : list Policy) (route : Route)
    (validated distribution : gset bytes) : list RouteFirewallRule :=
  List.filter po_Enabled policies ≫= λ policy,
    List.filter pr_Enabled (po_Rules policy) ≫= λ rule,
      generateRouteFirewallRules route rule
        (getRulePeers a rule (po_SourcePostureChecks policy) peerID distribution validated).

(** A policy is listed once for each of its rules that has the group among its
    destinations. *)
Definition GetAllRoutePoliciesFromGroups (a : Account) (groups : list bytes) : list Policy :=
  groups ≫= λ gid,
    match GetGroup a gid with
    | None => []
    | Some g => a_Policies a ≫= λ policy,
        (λ _, policy) <$> List.filter (λ rule, bool_decide (g_ID g ∈ pr_Destinations rule)) (po_Rules policy)
    end.

Definition GetPeerRoutesFirewallRules (a : Account) (peerID : bytes) (validated : gset bytes) : list RouteFirewallRule :=
  (getRoutingPeerRoutes a peerID).1 ≫= λ route,
    if empty (rt_AccessControlGroups route) then getDefaultPermit route
    else
      rt_AccessControlGroups route ≫= λ accessGroup,
        getRouteFirewallRules a peerID (GetAllRoutePoliciesFromGroups a [accessGroup]) route validated
          (getDistributionGroupsPeers a route).

(** ** Network resources *)

Definition Host : bytes := str "host".

Definition Subnet : bytes := str "subnet".

Definition Domain : bytes := str "domain".

Definition placeholder : Prefix := PrefixFrom (Addr4 (be_number (Z_to_byte <$> [192; 0; 2; 0]))) 32.

Definition ToRoute (n : NetworkResource) (peer : Peer) (router : NetworkRouter) : option Route :=
  let r network domains nt :=
    mkRoute (nres_ID n ++ Byte.x3a :: ID peer) (nres_AccountID n) network domains true (nres_Name n) (nres_Description n)
      (Key peer) (ID peer) [] nt (nr_Masquerade router) (nr_Metric router) (nres_Enabled n) [] [] false in
  if bytes_eqb (nres_Type n) Host || bytes_eqb (nres_Type n) Subnet then
    Some (r (nres_Prefix n) None (if Is6 (pf_addr (nres_Prefix n)) then IPv6Network else IPv4Network))
  else if bytes_eqb (nres_Type n) Domain then
    match FromString (nres_Domain n) with
    | None => None
    | Some d => Some (r placeholder (Some [d]) DomainNetwork)
    end
  else Some (r (mkPrefix AddrZero 0) None InvalidNetwork).

Definition getNetworkResourceGroups (a : Account) (resourceID : bytes) : list Group :=
  (map_to_list (a_Groups a)).*2 ≫= λ g,
    (λ _, g) <$> List.filter (λ r, bytes_eqb (res_ID r) resourceID) (g_Resources g).

(** A rule that names the resource ends the loop over the rules of its policy;
    a rule that names one of its groups does not. *)
Fixpoint applied (resourceID : bytes) (groups : list Group) (policy : Policy) (rules : list PolicyRule) : list Policy :=
  match rules with
  | [] => []
  | rule :: rules =>
      if negb (pr_Enabled rule) then applied resourceID groups policy rules
      else if bytes_eqb (res_ID (pr_DestinationResource rule)) resourceID then [policy]
      else (if existsb (λ g, bool_decide (g_ID g ∈ pr_Destinations rule)) groups then [policy] else []) ++
           applied resourceID groups policy rules
  end.

Definition GetPoliciesForNetworkResource (a : Account) (resourceID : bytes) : list Policy :=
  let groups := getNetworkResourceGroups a resourceID in
  List.filter po_Enabled (a_Policies a) ≫= λ policy, applied resourceID groups policy (po_Rules policy).

Definition getNetworkResources (a : Account) (networkID : bytes) : list NetworkResource :=
  List.filter (λ r, bytes_eqb (nres_NetworkID r) networkID) (a_NetworkResources a).

Definition GetPoliciesAppliedInNetwork (a : Account) (networkID : bytes) : list bytes :=
  elements (list_to_set (getNetworkResources a networkID ≫= λ r, po_ID <$> GetPoliciesForNetworkResource a (nres_ID r)) : gset bytes).

Definition GetResourcePoliciesMap (a : Account) : gmap bytes (list Policy) :=
  foldl (λ m r, if nres_Enabled r then <[nres_ID r := GetPoliciesForNetworkResource a (nres_ID r)]> m else m) ∅
    (a_NetworkResources a).

Definition GetResourceRoutersMap (a : Account) : gmap bytes (gmap bytes NetworkRouter) :=
  foldl (λ m router,
    if nr_Enabled router then
      let rs := default ∅ (m !! nr_NetworkID router) in
      <[nr_NetworkID router :=
          if negb (empty (nr_Peer router)) then <[nr_Peer router := router]> rs
          else foldl (λ rs id, <[id := router]> rs) rs (group_members a (nr_PeerGroups router))]> m
    else m) ∅ (a_NetworkRouters a).

Definition getPoliciesSourcePeers (a : Account) (policies : list Policy) : gset bytes :=
  list_to_set (policies ≫= λ policy, po_Rules policy ≫= λ rule,
    group_members a (pr_Sources rule) ++
    (if is_peer_resource (pr_SourceResource rule) then [res_ID (pr_SourceResource rule)] else [])).

Definition getPostureValidPeers (a : Account) (ids checks : list bytes) : list bytes :=
  List.filter (validatePostureChecksOnPeer a checks) ids.

Definition getNetworkResourcesRoutes (a : Account) (resource : NetworkResource) (peerId : bytes) (router : NetworkRouter)
    (resourcePolicies : gmap bytes (list Policy)) : list (option Route) :=
  if empty (default [] (resourcePolicies !! nres_ID resource)) then []
  else match GetPeer a peerId with
       | None => []
       | Some peer => [ToRoute resource peer router]
       end.

(** The sources of a policy: the peer its first rule names, or the members of
    its source groups.  [policy.Rules[0]] of a policy without rules is a panic. *)
Definition policy_source_ids (a : Account) (policy : Policy) : total (list bytes) :=
  let! rule := go_index (po_Rules policy) 0 in
  Ok (if is_peer_resource (pr_SourceResource rule) then [res_ID (pr_SourceResource rule)]
      else getUniquePeerIDsFromGroupsIDs a (SourceGroups policy)).

(** The loop over the policies of one resource. *)
Fixpoint resource_policies (a : Account) (peerID : bytes) (resource : NetworkResource)
    (resourcePolicies : gmap bytes (list Policy)) (routing : gmap bytes NetworkRouter) (addSourcePeers : bool)
    (policies : list Policy) (sources : gset bytes) : total (list (option Route) * gset bytes) :=
  match policies with
  | [] => Ok ([], sources)
  | policy :: policies =>
      let! peers := policy_source_ids a policy in
      if addSourcePeers then
        resource_policies a peerID resource resourcePolicies routing addSourcePeers policies
          (sources ∪ list_to_set (getPostureValidPeers a peers (po_SourcePostureChecks policy)))
      else if bool_decide (peerID ∈ peers) && validatePostureChecksOnPeer a (po_SourcePostureChecks policy) peerID then
        Ok (map_to_list routing ≫= λ kr, getNetworkResourcesRoutes a resource kr.1 kr.2 resourcePolicies, sources)
      else resource_policies a peerID resource resourcePolicies routing addSourcePeers policies sources
  end.

Fixpoint resources_loop (a : Account) (peerID : bytes) (resourcePolicies : gmap bytes (list Policy))
    (routers : gmap bytes (gmap bytes NetworkRouter)) (resources : list NetworkResource)
    (st : bool * list (option Route) * gset bytes) : total (bool * list (option Route) * gset bytes) :=
  match resources with
  | [] => Ok st
  | resource :: resources =>
      let '(isRouting, routes, sources) := st in
      if negb (nres_Enabled resource) then resources_loop a peerID resourcePolicies routers resources st
      else
        let routing := default ∅ (routers !! nres_NetworkID resource) in
        let '(isRouting, addSource, routes) :=
          match routing !! peerID with
          | Some router => (true, true, routes ++ getNetworkResourcesRoutes a resource peerID router resourcePolicies)
          | None => (isRouting, false, routes)
          end in
        let! (more, sources) := resource_policies a peerID resource resourcePolicies routing addSource
                                  (default [] (resourcePolicies !! nres_ID resource)) sources in
        resources_loop a peerID resourcePolicies routers resources (isRouting, routes ++ more, sources)
  end.

Definition GetNetworkResourcesRoutesToSync (a : Account) (peerID : bytes) (resourcePolicies : gmap bytes (list Policy))
    (routers : gmap bytes (gmap bytes NetworkRouter)) : total (bool * list (option Route) * gset bytes) :=
  resources_loop a peerID resourcePolicies routers (a_NetworkResources a) (false, [], ∅).

(** Reading a field of a list of routes. *)
Fixpoint all_routes (l : list (option Route)) : total (list Route) :=
  match l with
  | [] => Ok []
  | None :: _ => Panic
  | Some r :: l => let! rs := all_routes l in Ok (r :: rs)
  end.

Definition GetPeerNetworkResourceFirewallRules (a : Account) (peer : Peer) (validated : gset bytes)
    (routes : list (option Route)) (resourcePolicies : gmap bytes (list Policy)) : total (list RouteFirewallRule) :=
  let! routes := all_routes routes in
  Ok (List.filter (λ r, bytes_eqb (rt_Peer r) (Key peer)) routes ≫= λ route,
    let policies := default [] (resourcePolicies !! GetResourceID route) in
    List.filter (λ r, negb (empty (rfr_SourceRanges r)))
      (getRouteFirewallRules a (ID peer) policies route validated (getPoliciesSourcePeers a policies))).

Definition addNetworksRoutingPeers (a : Account) (routes : list (option Route)) (peer : Peer)
    (peersToConnect expiredPeers : list Peer) (isRouter : bool) (sourcePeers : gset bytes) : total (list Peer) :=
  let! routes := all_routes routes in
  let known : gset bytes := {[ID peer]} ∪ list_to_set (ID <$> peersToConnect ++ expiredPeers) in
  let missing := ((if isRouter then sourcePeers else ∅) ∪ list_to_set (rt_PeerID <$> routes)) ∖ known in
  Ok (peersToConnect ++ omap (GetPeer a) (elements missing)).

(** ** Names *)

(** [net.IP.Equal]: an IPv4 address and its IPv6-mapped form are equal. *)
Definition v4InV6Prefix : bytes := Z_to_byte <$> [0; 0; 0; 0; 0; 0; 0; 0; 0; 0; 255; 255].

Definition IP_Equal (ip x : bytes) : bool :=
  if (length ip =? length x)%nat then bytes_eqb ip x
  else if (length ip =? 4)%nat && (length x =? 16)%nat then bytes_eqb x (v4InV6Prefix ++ ip)
  else if (length ip =? 16)%nat && (length x =? 4)%nat then bytes_eqb ip (v4InV6Prefix ++ x)
  else false.

Definition peerIsNameserver (peer : Peer) (g : NameServerGroup) : bool :=
  existsb (λ ns, IP_Equal (IP peer) (AsSlice (ns_IP ns))) (ns_NameServers g).

Definition getPeerNSGroups (a : Account) (peer : Peer) : list NameServerGroup :=
  let groups := GetPeerGroups a (ID peer) in
  List.filter (λ g, ns_Enabled g && existsb (λ gid, bool_decide (gid ∈ groups)) (ns_Groups g) &&
                    negb (peerIsNameserver peer g)) (map_to_list (a_NameServerGroups a)).*2.

Definition filterZoneRecordsForPeers (peer : Peer) (zone : CustomZone) (peersToConnect expiredPeers : list Peer) :
    list SimpleRecord :=
  let ips : gset bytes := list_to_set ((λ p, IP_String (IP p)) <$> peer :: peersToConnect ++ expiredPeers) in
  List.filter (λ r, bool_decide (sr_RData r ∈ ips)) (cz_Records zone).

Definition simple_record (r : ZoneRecord) : option SimpleRecord :=
  let mk t data := Some (mkSimpleRecord (Fqdn (zr_Name r)) t (str "IN") (zr_TTL r) data) in
  if bytes_eqb (zr_Type r) (str "A") then mk 1 (zr_Content r)
  else if bytes_eqb (zr_Type r) (str "AAAA") then mk 28 (zr_Content r)
  else if bytes_eqb (zr_Type r) (str "CNAME") then mk 5 (Fqdn (zr_Content r))
  else None.

Definition filterPeerAppliedZones (zones : list Zone) (peerGroups : gset bytes) : list CustomZone :=
  if bool_decide (peerGroups = ∅) then []
  else
    (λ z, mkCustomZone (Fqdn (zn_Domain z)) (omap simple_record (zn_Records z)) (negb (zn_EnableSearchDomain z)) true) <$>
    List.filter (λ z, zn_Enabled z && negb (empty (zn_Records z)) &&
                      existsb (λ g, bool_decide (g ∈ peerGroups)) (zn_DistributionGroups z)) zones.

Definition defaultTTL : Z := 300.

Definition GetPeersCustomZone (a : Account) (dnsDomain : bytes) : CustomZone :=
  if empty dnsDomain then mkCustomZone [] [] false false
  else
    let record ip label := mkSimpleRecord (label ++ dot :: dnsDomain) 1 (str "IN") defaultTTL ip in
    mkCustomZone (Fqdn dnsDomain)
      ((map_to_list (a_Peers a)).*2 ≫= λ p,
         if empty (DNSLabel p) then []
         else record (IP_String (IP p)) <$> DNSLabel p :: ExtraDNSLabels p) false false.

(** ** The map *)

Definition is_expired (s : Settings) (now : Z) (p : Peer) : bool :=
  PeerLoginExpirationEnabled s && (LoginExpired p (PeerLoginExpiration s) now).1.

Definition empty_map (n : Network) : NetworkMap := mkNetMap [] n [] no_dns [] [] [] ∅ false.

Definition GetPeerNetworkMap (a : Account) (peerID : bytes) (zone : CustomZone) (zones : list Zone)
    (validated : gset bytes) (resourcePolicies : gmap bytes (list Policy))
    (routers : gmap bytes (gmap bytes NetworkRouter)) (groupUsers : gmap bytes (list bytes)) (now : Z) :
    total NetworkMap :=
  match a_Peers a !! peerID with
  | None => Ok (empty_map (a_Network a))
  | Some peer =>
      if negb (bool_decide (peerID ∈ validated)) then Ok (empty_map (a_Network a))
      else
        let peerGroups := GetPeerGroups a peerID in
        let '(aclPeers, firewallRules, users, ssh) := GetPeerConnectionResources a peer validated groupUsers in
        let expiredPeers := List.filter (is_expired (a_Settings a) now) aclPeers in
        let peersToConnect := List.filter (λ p, negb (is_expired (a_Settings a) now p)) aclPeers in
        let routesUpdate := GetRoutesToSync a peerID peersToConnect peerGroups in
        let routesRules := GetPeerRoutesFirewallRules a peerID validated in
        let! (isRouter, resourceRoutes, sourcePeers) := GetNetworkResourcesRoutesToSync a peerID resourcePolicies routers in
        let! resourceRules := if (isRouter : bool)
          then GetPeerNetworkResourceFirewallRules a peer validated resourceRoutes resourcePolicies else Ok [] in
        let! peers := addNetworksRoutingPeers a resourceRoutes peer peersToConnect expiredPeers isRouter sourcePeers in
        let enabled := getPeerDNSManagementStatus a peerID in
        let dns :=
          if enabled then
            mkDNSConfig true (getPeerNSGroups a peer)
              ((if empty (cz_Domain zone) then []
                else [mkCustomZone (cz_Domain zone) (filterZoneRecordsForPeers peer zone peers expiredPeers) false false]) ++
               filterPeerAppliedZones zones peerGroups)
          else no_dns in
        Ok (mkNetMap peers (a_Network a) (resourceRoutes ++ (Some <$> routesUpdate)) dns expiredPeers firewallRules
              (resourceRules ++ routesRules) users ssh)
  end.

(** ** Access to routed networks *)

(** The peer may use the route through the rule. *)
Definition may_use (a : Account) (validated distribution : gset bytes) (me : bytes) (policy : Policy) (rule : PolicyRule)
    (p : Peer) : Prop :=
  a_Peers a !! ID p = Some p ∧ ID p ∈ distribution ∧ ID p ∈ validated ∧
  meets_checks a (po_SourcePostureChecks policy) p ∧
  ((ID p ≠ me ∧ in_group a (pr_Sources rule) (ID p)) ∨
   (is_peer_resource (pr_SourceResource rule) = true ∧ res_ID (pr_SourceResource rule) = ID p)).

Lemma elem_of_members a ids x :
  x ∈ group_members a ids ↔ in_group a ids x.
Proof.
  unfold in_group, group_members, GetGroup. rewrite list_elem_of_bind. split.
  - intros (gid & Hx & Hin). destruct (a_Groups a !! gid) as [g|] eqn:E; [eauto 6|by apply elem_of_nil in Hx].
  - intros (gid & g & Hin & E & Hx). exists gid. by rewrite E.
Qed.

Lemma getRulePeers_spec a rule policy me distribution validated p :
  account_wf a →
  p ∈ getRulePeers a rule (po_SourcePostureChecks policy) me distribution validated ↔
  may_use a validated distribution me policy rule p.
Proof.
  intros Hwf. unfold getRulePeers, may_use. rewrite list_elem_of_omap. unfold GetPeer.
  remember (is_peer_resource (pr_SourceResource rule)) as isres eqn:Hisres. clear Hisres.
  setoid_rewrite elem_of_elements. setoid_rewrite elem_of_union. setoid_rewrite elem_of_list_to_set.
  setoid_rewrite list_elem_of_In. setoid_rewrite filter_In. setoid_rewrite <- list_elem_of_In.
  setoid_rewrite andb_true_iff. setoid_rewrite negb_true_iff. setoid_rewrite bytes_eqb_false.
  setoid_rewrite andb_true_iff. setoid_rewrite andb_true_iff. setoid_rewrite bool_decide_eq_true. setoid_rewrite elem_of_members.
  set (res := pr_SourceResource rule). split.
  - intros (id & Hid & Hp). assert (ID p = id) as <- by by apply (wf_peers a Hwf). split; [done|].
    rewrite <- (validate_meets a _ p Hp).
    destruct Hid as [(Hm & Hne & (? & ?) & ?)|Hres]; [split_and!; [done..|]; left; split; [done|exact Hm]|].
    case_if; [|by apply elem_of_empty in Hres]. apply elem_of_singleton in Hres. rewrite !andb_true_iff, !bool_decide_eq_true in Heqb.
    destruct Heqb as (? & (? & ?) & ?). rewrite Hres. split_and!; [done..|]. by right.
  - intros (Hp & ? & ? & Hc & [(Hne & Hm)|[Hr Hid]]); exists (ID p); (split; [|done]);
      rewrite <- (validate_meets a _ p Hp) in Hc.
    + left. split_and!; [exact Hm|done..].
    + right. fold res in Hid. rewrite Hid, Hr, !bool_decide_true by done. simpl.
      destruct (validatePostureChecksOnPeer _ _ _); [|done]. simpl. by apply elem_of_singleton.
Qed.

Lemma generated_sources route rule peers r :
  r ∈ generateRouteFirewallRules route rule peers →
  rfr_SourceRanges r = allowed_ips <$> peers ∧ rfr_RouteID r = rt_ID route ∧ rfr_PolicyID r = pr_PolicyID rule ∧
  rfr_Action r = pr_Action rule ∧ rfr_Destination r = prefix_String (rt_Network route).
Proof.
  unfold generateRouteFirewallRules. set (base := mkRouteFwRule _ _ _ _ _ _ _ _ _ _).
  assert (Hr : ∀ idb seen l, r ∈ ranges_loop base idb seen l → ∃ port range, r = set_rule_port base port range).
  { intros idb seen l. revert seen. induction l as [|x l IH]; intros seen; cbn [ranges_loop]; [by intros ?%elem_of_nil|].
    case_bool_decide; [apply IH|]. intros [->|?]%elem_of_cons; [eauto|by eapply IH]. }
  assert (Hp : ∀ idb seen l, r ∈ ports_loop base idb seen l → ∃ port range, r = set_rule_port base port range).
  { intros idb seen l. revert seen. induction l as [|x l IH]; intros seen; cbn [ports_loop]; [by intros ?%elem_of_nil|].
    case_bool_decide; [apply IH|]. destruct (ParseUint16 x); [|apply IH].
    intros [->|?]%elem_of_cons; [eauto|by eapply IH]. }
  destruct (empty (pr_Ports rule)) eqn:Ee.
  - unfold generateRulesWithPortRanges. rewrite Ee. case_if; [intros ->%list_elem_of_singleton; done|].
    by intros (port & range & ->)%Hr.
  - by intros (port & range & ->)%Hp.
Qed.

(** *** Nothing is lost *)

Lemma parse_digits_hyphen acc l v : parse_digits acc l = Some v → hyphen ∉ l.
Proof.
  revert acc. induction l as [|b l IH]; intros acc; cbn [parse_digits]; [intros _; apply not_elem_of_nil|].
  destruct (byte_digit b) as [d|] eqn:E; [|done]. intros Hl%IH. apply not_elem_of_cons. split; [|done]. intros <-. done.
Qed.

(** Two ports of 16 bits with a hyphen between them can be read back. *)
Lemma range_text_inj a b a' b' : 0 ≤ a < 65536 → 0 ≤ b < 65536 → 0 ≤ a' < 65536 → 0 ≤ b' < 65536 →
  FormatInt a ++ hyphen :: FormatInt b = FormatInt a' ++ hyphen :: FormatInt b' → a = a' ∧ b = b'.
Proof.
  assert (Hf : ∀ n, 0 ≤ n < 65536 → hyphen ∉ FormatInt n).
  { intros n Hn. unfold FormatInt. rewrite (proj2 (Z.ltb_ge n 0)) by lia. apply (parse_digits_hyphen 0 _ n), parse_dec_digits. lia. }
  assert (Hi : ∀ n m, 0 ≤ n < 65536 → 0 ≤ m < 65536 → FormatInt n = FormatInt m → n = m).
  { intros n m Hn Hm E. pose proof (ParseInt_FormatInt n ltac:(lia)) as En. rewrite E, ParseInt_FormatInt in En by lia. congruence. }
  intros Ha Hb Ha' Hb' E. pose proof (CutByte_complete hyphen _ (FormatInt b) (Hf a Ha)) as C.
  rewrite E, CutByte_complete in C by auto. injection C as E1 E2. split; by apply Hi.
Qed.

Lemma ports_loop_complete base idb l : ∀ seen port p, port ∈ l → idb ++ port ∉ seen → ParseUint16 port = Some p →
  set_rule_port base (u16 p) (rfr_PortRange base) ∈ ports_loop base idb seen l.
Proof.
  induction l as [|x l IH]; intros seen port p Hin Hs Hp; [by apply elem_of_nil in Hin|]. cbn [ports_loop].
  destruct (decide (x = port)) as [->|Hne].
  - rewrite bool_decide_false, Hp by done. by left.
  - apply elem_of_cons in Hin as [->|Hin]; [done|]. case_bool_decide; [by eapply IH|].
    assert (idb ++ port ∉ {[idb ++ x]} ∪ seen).
    { rewrite not_elem_of_union, not_elem_of_singleton. split; [|done]. intros E%app_inv_head. congruence. }
    destruct (ParseUint16 x); [right|]; by eapply IH.
Qed.

Definition uint16_range (pr : RulePortRange) : Prop := 0 ≤ pr_Start pr < 65536 ∧ 0 ≤ pr_End pr < 65536.

Lemma ranges_loop_complete base idb l : Forall uint16_range l → ∀ seen pr, pr ∈ l →
  idb ++ FormatInt (pr_Start pr) ++ hyphen :: FormatInt (pr_End pr) ∉ seen →
  set_rule_port base (rfr_Port base) pr ∈ ranges_loop base idb seen l.
Proof.
  induction 1 as [|x l [Hx1 Hx2] Hl IH]; intros seen pr Hin Hs; [by apply elem_of_nil in Hin|]. cbn [ranges_loop].
  destruct (decide (x = pr)) as [->|Hne]; [rewrite bool_decide_false by done; by left|].
  apply elem_of_cons in Hin as [->|Hin]; [done|]. case_bool_decide; [by apply IH|]. right. apply IH; [done|].
  rewrite not_elem_of_union, not_elem_of_singleton. split; [|done]. intros E%app_inv_head.
  rewrite Forall_forall in Hl. destruct (Hl pr Hin) as [H1 H2]. apply range_text_inj in E as [E1 E2]; [|done..].
  destruct x, pr. cbn in *. congruence.
Qed.

(** What the policy rule [rule] is to open: all ports, the ports that are numbers of 16
    bits, or, when there are none, the ranges. *)
Definition rule_ports (rule : PolicyRule) (port : Z) (range : RulePortRange) : Prop :=
  match pr_Ports rule, pr_PortRanges rule with
  | [], [] => port = 0 ∧ range = mkPortRange 0 0
  | [], ranges => port = 0 ∧ range ∈ ranges
  | ports, _ => (∃ s p, s ∈ ports ∧ ParseUint16 s = Some p ∧ port = u16 p) ∧ range = mkPortRange 0 0
  end.

Lemma generated_complete route rule peers port range : Forall uint16_range (pr_PortRanges rule) → rule_ports rule port range →
  ∃ r, r ∈ generateRouteFirewallRules route rule peers ∧ rfr_Port r = port ∧ rfr_PortRange r = range ∧
    rfr_Protocol r = pr_Protocol rule.
Proof.
  intros Hr. unfold rule_ports, generateRouteFirewallRules, generateRulesWithPortRanges, generateRulesWithPorts.
  set (base := mkRouteFwRule _ _ _ _ _ _ _ _ _ _). destruct (pr_Ports rule) as [|s ports].
  - destruct (pr_PortRanges rule) as [|pr ranges]; intros [-> Hp].
    + exists base. subst range. split; [by left|done].
    + exists (set_rule_port base 0 range). split; [|done]. apply (ranges_loop_complete base); [done|done|apply not_elem_of_empty].
  - intros [(x & p & Hx & Hp & ->) ->]. exists (set_rule_port base (u16 p) (mkPortRange 0 0)). split; [|done].
    eapply (ports_loop_complete base); [exact Hx|apply not_elem_of_empty|done].
Qed.

(** The rule lets everybody through. *)
Definition accepts_all (r : RouteFirewallRule) : Prop :=
  (rfr_SourceRanges r = [str "0.0.0.0/0"] ∨ rfr_SourceRanges r = [str "::/0"]) ∧ rfr_Action r = PolicyTrafficActionAccept ∧
  rfr_Protocol r = PolicyRuleProtocolALL ∧ rfr_Port r = 0 ∧ rfr_PortRange r = mkPortRange 0 0.

(** The policy grants access to a group of the route with its rule [rule]. *)
Definition grants_access (a : Account) (route : Route) (policy : Policy) (rule : PolicyRule) : Prop :=
  ∃ gid group rule', gid ∈ rt_AccessControlGroups route ∧ a_Groups a !! gid = Some group ∧
    active a policy rule ∧ rule' ∈ po_Rules policy ∧ g_ID group ∈ pr_Destinations rule'.

(** The firewall rule admits exactly the peers that may use the route through [rule]. *)
Definition admits_sources (a : Account) (validated : gset bytes) (me : bytes) (route : Route) (policy : Policy)
    (rule : PolicyRule) (r : RouteFirewallRule) : Prop :=
  rfr_Action r = pr_Action rule ∧ ∃ peers, rfr_SourceRanges r = allowed_ips <$> peers ∧
    ∀ p, p ∈ peers ↔ may_use a validated (getDistributionGroupsPeers a route) me policy rule p.

Lemma route_rules_elem a me validated r : r ∈ GetPeerRoutesFirewallRules a me validated ↔
  ∃ route, route ∈ (getRoutingPeerRoutes a me).1 ∧
    ((rt_AccessControlGroups route = [] ∧ r ∈ getDefaultPermit route) ∨
     ∃ policy rule, grants_access a route policy rule ∧
       r ∈ generateRouteFirewallRules route rule (getRulePeers a rule (po_SourcePostureChecks policy) me
             (getDistributionGroupsPeers a route) validated)).
Proof.
  unfold GetPeerRoutesFirewallRules, grants_access, active. rewrite list_elem_of_bind. split.
  - intros (route & Hr & Hroute). exists route. split; [done|]. destruct (rt_AccessControlGroups route) as [|g0 gs] eqn:Ee; [by left|].
    cbn [empty] in Hr. rewrite <- Ee in *. right. apply list_elem_of_bind in Hr as (gid & Hr & Hgid).
    apply list_elem_of_bind in Hr as (policy & Hr & Hpol). apply list_elem_of_bind in Hr as (rule & Hr & Hrule).
    apply list_elem_of_In, filter_In in Hpol as [Hpol Hpe]. apply list_elem_of_In, filter_In in Hrule as [Hrule Hre].
    apply list_elem_of_In in Hpol, Hrule. unfold GetAllRoutePoliciesFromGroups in Hpol. simpl in Hpol. rewrite app_nil_r in Hpol.
    destruct (GetGroup a gid) as [group|] eqn:Eg; [|by apply elem_of_nil in Hpol].
    apply list_elem_of_bind in Hpol as (policy' & Hpol & Hin). apply list_elem_of_fmap in Hpol as (rule' & -> & Hrule').
    apply list_elem_of_In, filter_In in Hrule' as [Hrule' Hdest%bool_decide_eq_true]. apply list_elem_of_In in Hrule'.
    exists policy', rule. split; [|done]. exists gid, group, rule'. by split_and!.
  - intros (route & Hroute & [[E Hr]|(policy & rule & (gid & group & rule' & Hgid & Hg & (Hp & Hpe & Hr & Hre) & Hr' & Hd) & Hgen)]);
      exists route; (split; [|done]); [by rewrite E|].
    destruct (rt_AccessControlGroups route) as [|g0 gs] eqn:Ee; [by apply elem_of_nil in Hgid|]. cbn [empty].
    rewrite <- Ee in *. apply list_elem_of_bind. exists gid. split; [|done]. apply list_elem_of_bind. exists policy. split.
    + apply list_elem_of_bind. exists rule. split; [exact Hgen|]. apply list_elem_of_In, filter_In. split; [by apply list_elem_of_In|done].
    + apply list_elem_of_In, filter_In. split; [|done]. apply list_elem_of_In. unfold GetAllRoutePoliciesFromGroups, GetGroup. simpl.
      rewrite Hg, app_nil_r. apply list_elem_of_bind. exists policy. split; [|done]. apply list_elem_of_fmap. exists rule'.
      split; [done|]. apply list_elem_of_In, filter_In. split; [by apply list_elem_of_In|by apply bool_decide_eq_true].
Qed.

Lemma default_permit_spec route :
  (∀ r, r ∈ getDefaultPermit route → accepts_all r ∧ rfr_RouteID r = rt_ID route ∧ rfr_Destination r = prefix_String (rt_Network route)) ∧
  (∃ r, r ∈ getDefaultPermit route ∧ rfr_SourceRanges r = [if Is6 (pf_addr (rt_Network route)) then str "::/0" else str "0.0.0.0/0"]) ∧
  (IsDynamic route = true → ∃ r, r ∈ getDefaultPermit route ∧ rfr_SourceRanges r = [str "::/0"]).
Proof.
  unfold getDefaultPermit, accepts_all. split_and!.
  - intros r [->|Hr]%elem_of_cons; [cbn; by destruct (Is6 _); eauto 10|]. destruct (IsDynamic route); [|by apply elem_of_nil in Hr].
    apply list_elem_of_singleton in Hr as ->. cbn. eauto 10.
  - eexists. split; [by left|]. cbn. by destruct (Is6 _).
  - intros E. rewrite E. eexists. split; [right; by left|done].
Qed.


(** ** The map as a whole *)

(** What the account manager keeps: every policy of a resource has a rule, and
    the domains of resources parse. *)
Record resources_wf (a : Account) (resourcePolicies : gmap bytes (list Policy)) : Prop := {
  rw_rules : ∀ id ps p, resourcePolicies !! id = Some ps → p ∈ ps → po_Rules p ≠ [];
  rw_domains : ∀ n, n ∈ a_NetworkResources a → nres_Type n = Domain → is_Some (FromString (nres_Domain n))
}.

Definition present (l : list (option Route)) : Prop := ∀ r, r ∈ l → is_Some r.

Lemma present_app l1 l2 : present (l1 ++ l2) ↔ present l1 ∧ present l2.
Proof using Type. unfold present. setoid_rewrite elem_of_app. naive_solver. Qed.

Lemma ToRoute_some n peer router :
  (nres_Type n = Domain → is_Some (FromString (nres_Domain n))) →
  ∃ r, ToRoute n peer router = Some r ∧ rt_PeerID r = ID peer.
Proof using Type.
  intros Hd. unfold ToRoute. case_if; [eauto|]. destruct (bytes_eqb (nres_Type n) Domain) eqn:E; [|eauto].
  apply bytes_eqb_spec in E. destruct (Hd E) as [d ->]. eauto.
Qed.

Section Resources.
Context (a : Account) (resourcePolicies : gmap bytes (list Policy)) (Hres : resources_wf a resourcePolicies).

Lemma resource_routes_present n id router :
  n ∈ a_NetworkResources a → present (getNetworkResourcesRoutes a n id router resourcePolicies).
Proof using Hres.
  intros Hn r. unfold getNetworkResourcesRoutes. case_if; [by intros ?%elem_of_nil|].
  destruct (GetPeer a id) as [peer|]; [|by intros ?%elem_of_nil]. intros ->%list_elem_of_singleton.
  destruct (ToRoute_some n peer router) as (r & -> & _); [by apply (rw_domains _ _ Hres)|eauto].
Qed.

(** A source of the policy, as the code finds it: a member of the source groups, or the
    peer that the first rule names, that passes the posture checks. *)
Definition code_source (policy : Policy) (id : bytes) : Prop :=
  ∃ ids, policy_source_ids a policy = Ok ids ∧ id ∈ ids ∧ validatePostureChecksOnPeer a (po_SourcePostureChecks policy) id = true.

Definition policies_of (n : NetworkResource) : list Policy := default [] (resourcePolicies !! nres_ID n).

Lemma policies_rules n p : p ∈ policies_of n → po_Rules p ≠ [].
Proof using Hres.
  unfold policies_of. destruct (resourcePolicies !! nres_ID n) as [ps|] eqn:E; simpl; [|by intros ?%elem_of_nil].
  by apply (rw_rules _ _ Hres (nres_ID n)).
Qed.

(** The peers that the routes of a list are through. *)
Definition through (routes : list (option Route)) (id : bytes) : Prop := ∃ r, Some r ∈ routes ∧ rt_PeerID r = id.

Lemma through_app l1 l2 id : through (l1 ++ l2) id ↔ through l1 id ∨ through l2 id.
Proof using Type. clear to_unicode Fqdn. unfold through. setoid_rewrite elem_of_app. naive_solver. Qed.

Lemma through_resource n pid router id : account_wf a → n ∈ a_NetworkResources a →
  through (getNetworkResourcesRoutes a n pid router resourcePolicies) id ↔
  policies_of n ≠ [] ∧ is_Some (a_Peers a !! pid) ∧ id = pid.
Proof using Hres.
  intros Hwf Hn. unfold through, getNetworkResourcesRoutes, GetPeer. fold (policies_of n).
  destruct (policies_of n) as [|p0 ps]; cbn [empty]; [split; [by intros (r & ?%elem_of_nil & _)|by intros [? _]]|].
  destruct (a_Peers a !! pid) as [peer|] eqn:Ep; [|split; [by intros (r & ?%elem_of_nil & _)|by intros (_ & [? ?] & _)]].
  destruct (ToRoute_some n peer router) as (r & Er & Hr); [by apply (rw_domains _ _ Hres)|]. rewrite Er.
  rewrite (wf_peers a Hwf pid peer Ep) in Hr. split.
  - intros (r' & [= ->]%list_elem_of_singleton & <-). split_and!; [done|eauto|done].
  - intros (_ & _ & ->). exists r. split; [by left|done].
Qed.

(** The loop over the policies of a resource gathers the sources for a router, and the
    routers for a peer that is a source. *)
Lemma resource_policies_spec me n routing add ps sources : account_wf a → n ∈ a_NetworkResources a →
  (∀ p, p ∈ ps → p ∈ policies_of n) →
  ∃ routes sources', resource_policies a me n resourcePolicies routing add ps sources = Ok (routes, sources') ∧ present routes ∧
    (∀ id, id ∈ sources' ↔ id ∈ sources ∨ (add = true ∧ ∃ p, p ∈ ps ∧ code_source p id)) ∧
    (∀ id, through routes id ↔ add = false ∧ (∃ p, p ∈ ps ∧ code_source p me) ∧ is_Some (routing !! id) ∧ is_Some (a_Peers a !! id)).
Proof using Hres.
  clear to_unicode Fqdn. intros Hwf Hn. revert sources. induction ps as [|p ps IH]; intros sources Hps; cbn [resource_policies].
  { eexists _, _. split; [done|]. split; [by intros r Hr%elem_of_nil|]. split.
    - intros id. split; [by left|]. intros [?|(_ & p & ?%elem_of_nil & _)]; done.
    - intros id. split; [by intros (r & ?%elem_of_nil & _)|by intros (_ & (p & ?%elem_of_nil & _) & _)]. }
  assert (∃ ids, policy_source_ids a p = Ok ids) as [ids Eids].
  { unfold policy_source_ids. pose proof (policies_rules n p (Hps p (list_elem_of_here _ _))) as Hr.
    destruct (po_Rules p) as [|rule rules]; [done|]. eexists. reflexivity. }
  rewrite Eids. cbn [obind].
  assert (∀ id, code_source p id ↔ id ∈ ids ∧ validatePostureChecksOnPeer a (po_SourcePostureChecks p) id = true) as Hcs.
  { intros id. unfold code_source. rewrite Eids. split; [intros (? & [= <-] & ?); done|]. intros [? ?]. by exists ids. }
  assert (∀ id, (∃ q, q ∈ p :: ps ∧ code_source q id) ↔ code_source p id ∨ ∃ q, q ∈ ps ∧ code_source q id) as Hcons.
  { intros id. setoid_rewrite elem_of_cons. naive_solver. }
  setoid_rewrite Hcons. assert (Hps' : ∀ p, p ∈ ps → p ∈ policies_of n) by (intros; apply Hps; by right).
  destruct add.
  - destruct (IH (sources ∪ list_to_set (getPostureValidPeers a ids (po_SourcePostureChecks p))) Hps') as (rs & s' & -> & Hp & Hs & Ht).
    exists rs, s'. split; [done|]. split; [done|]. split; [|intros id; rewrite Ht; naive_solver].
    intros id. rewrite Hs, elem_of_union, elem_of_list_to_set, Hcs. unfold getPostureValidPeers.
    rewrite list_elem_of_In, filter_In, <- list_elem_of_In. naive_solver.
  - destruct (bool_decide (me ∈ ids) && _) eqn:Eme.
    + apply andb_true_iff in Eme as [Hme%bool_decide_eq_true Hv]. eexists _, sources. split; [done|]. split.
      { intros r ([id router] & Hr & _)%list_elem_of_bind. by eapply resource_routes_present. }
      split; [intros id; naive_solver|]. intros id. rewrite Hcs. unfold through. setoid_rewrite list_elem_of_bind. split.
      * intros (r & ([pid router] & Hr & Hin%elem_of_map_to_list) & Hid).
        destruct (proj1 (through_resource n pid router id Hwf Hn)) as (_ & ? & ->); [by exists r|].
        split_and!; [done|by left|by exists router|done].
      * intros (_ & _ & [router Hr] & Hp). destruct (proj2 (through_resource n id router id Hwf Hn)) as (r & Hin & Hid).
        { split_and!; [|done|done]. intros E. pose proof (Hps p (list_elem_of_here _ _)) as Hx. rewrite E in Hx. by apply elem_of_nil in Hx. }
        exists r. split; [|done]. exists (id, router). split; [done|by apply elem_of_map_to_list].
    + destruct (IH sources Hps') as (rs & s' & -> & Hp & Hs & Ht). exists rs, s'. split; [done|]. split; [done|].
      assert (¬ code_source p me) as Hno.
      { rewrite Hcs. intros [H1 H2]. by rewrite bool_decide_true, H2 in Eme. }
      split; [intros id; rewrite Hs; naive_solver|]. intros id. rewrite Ht. naive_solver.
Qed.

(** The peer [id] is a router of the network of the resource. *)
Definition serves (routers : gmap bytes (gmap bytes NetworkRouter)) (n : NetworkResource) (id : bytes) : Prop :=
  is_Some (default ∅ (routers !! nres_NetworkID n) !! id).

(** The peer routes the resource, of which [id] is a source. *)
Definition source_for (routers : gmap bytes (gmap bytes NetworkRouter)) (me id : bytes) (n : NetworkResource) : Prop :=
  nres_Enabled n = true ∧ serves routers n me ∧ ∃ p, p ∈ policies_of n ∧ code_source p id.

(** [id] routes the resource, of which the peer is a source and not a router. *)
Definition router_for (routers : gmap bytes (gmap bytes NetworkRouter)) (me id : bytes) (n : NetworkResource) : Prop :=
  nres_Enabled n = true ∧ ¬ serves routers n me ∧ serves routers n id ∧ is_Some (a_Peers a !! id) ∧
  ∃ p, p ∈ policies_of n ∧ code_source p me.

Lemma some_cons {A} (P : A → Prop) x l : (∃ y, y ∈ x :: l ∧ P y) ↔ P x ∨ ∃ y, y ∈ l ∧ P y.
Proof using Type.
  split.
  - intros (y & [->|Hy]%elem_of_cons & Hp); eauto.
  - intros [Hp|(y & Hy & Hp)]; [exists x; split; [by left|done]|exists y; split; [by right|done]].
Qed.

Lemma some_nil {A} (P : A → Prop) : (∃ y, y ∈ [] ∧ P y) ↔ False.
Proof using Type. split; [by intros (y & ?%elem_of_nil & _)|done]. Qed.

Lemma resources_loop_spec me routers ns st : account_wf a → (∀ n, n ∈ ns → n ∈ a_NetworkResources a) → present st.1.2 →
  ∃ st', resources_loop a me resourcePolicies routers ns st = Ok st' ∧ present st'.1.2 ∧
    (st'.1.1 = true ↔ st.1.1 = true ∨ ∃ n, n ∈ ns ∧ (nres_Enabled n = true ∧ serves routers n me)) ∧
    (∀ id, id ∈ st'.2 ↔ id ∈ st.2 ∨ ∃ n, n ∈ ns ∧ source_for routers me id n) ∧
    (∀ id, id ≠ me → through st'.1.2 id ↔ through st.1.2 id ∨ ∃ n, n ∈ ns ∧ router_for routers me id n).
Proof using Hres.
  clear to_unicode Fqdn. intros Hwf. revert st. induction ns as [|n ns IH]; intros [[isr routes] sources] Hns Hst; cbn [resources_loop].
  { eexists. split; [done|]. split; [done|]. cbn. split_and!; intros; rewrite some_nil; tauto. }
  assert (Hn : n ∈ a_NetworkResources a) by (apply Hns; by left).
  assert (Hns' : ∀ n, n ∈ ns → n ∈ a_NetworkResources a) by (intros; apply Hns; by right).
  setoid_rewrite some_cons. destruct (nres_Enabled n) eqn:En; cbn [negb].
  2: { destruct (IH (isr, routes, sources) Hns' Hst) as (st' & E & Hp & H1 & H2 & H3). exists st'. split; [done|]. split; [done|].
       unfold source_for at 1, router_for at 1. rewrite En.
       split_and!; [rewrite H1|intros id; rewrite H2|intros id Hid; rewrite (H3 id Hid)]; intuition congruence. }
  fold (policies_of n). set (routing := default ∅ _). simpl in Hst.
  destruct (resource_policies_spec me n routing (bool_decide (is_Some (routing !! me))) (policies_of n) sources Hwf Hn) as (more & s' & E & Hm & Hs & Ht); [done|].
  unfold source_for at 1, router_for at 1, serves at 1 3 4 5. fold routing. rewrite En.
  destruct (routing !! me) as [router|] eqn:Er.
  - rewrite bool_decide_true in E, Hs, Ht by eauto. rewrite E. cbn [obind].
    destruct (IH (true, (routes ++ getNetworkResourcesRoutes a n me router resourcePolicies) ++ more, s') Hns') as (st' & -> & Hp & H1 & H2 & H3).
    { simpl. rewrite !present_app. split_and!; [done|by apply resource_routes_present|done]. }
    exists st'. split; [done|]. split; [done|]. cbn in H1, H2, H3 |- *.
    assert (is_Some (Some router)) as Hsome by eauto. split_and!.
    + rewrite H1. tauto.
    + intros id. rewrite H2, Hs. tauto.
    + intros id Hid. rewrite (H3 id Hid), !through_app, Ht, through_resource by done. intuition congruence.
  - assert (¬ is_Some (@None NetworkRouter)) as Hnone by (by intros [? ?]).
    rewrite bool_decide_false in E, Hs, Ht by done. rewrite E. cbn [obind].
    destruct (IH (isr, routes ++ more, s') Hns') as (st' & -> & Hp & H1 & H2 & H3); [by apply present_app|].
    exists st'. split; [done|]. split; [done|]. cbn in H1, H2, H3 |- *. split_and!.
    + rewrite H1. tauto.
    + intros id. rewrite H2, Hs. intuition congruence.
    + intros id Hid. rewrite (H3 id Hid), through_app, Ht. tauto.
Qed.

(** *** The sources of a policy *)

Lemma collect_sound single groups acc id : id ∈ collect_ids a single groups acc → id ∈ acc ∨ in_group a groups id.
Proof using Type.
  revert acc. induction groups as [|gid groups IH]; intros acc; cbn [collect_ids]; [rewrite elem_of_elements; by left|].
  rewrite in_group_cons. unfold GetGroup. destruct (a_Groups a !! gid) as [g|] eqn:Eg; [|intros [?|?]%IH; auto].
  case_if; [eauto|]. intros [[?|Hx%elem_of_list_to_set]%elem_of_union|?]%IH; eauto.
Qed.

(** A source of the policy that meets its posture checks. *)
Definition policy_source (policy : Policy) (p : Peer) : Prop :=
  match po_Rules policy with
  | [] => False
  | rule :: _ => if is_peer_resource (pr_SourceResource rule) then ID p = res_ID (pr_SourceResource rule)
                 else in_group a (SourceGroups policy) (ID p)
  end ∧ meets_checks a (po_SourcePostureChecks policy) p.

Lemma code_source_sound policy p : a_Peers a !! ID p = Some p → code_source policy (ID p) → policy_source policy p.
Proof using Type.
  intros Hp (ids & E & Hid & Hv). split; [|by apply validate_meets]. unfold policy_source_ids in E.
  destruct (po_Rules policy) as [|rule rules]; [done|]. cbn in E. injection E as <-.
  destruct (is_peer_resource _); [by apply list_elem_of_singleton in Hid|].
  apply collect_sound in Hid as [?%elem_of_empty|?]; done.
Qed.

Lemma code_source_complete policy p : account_wf a → a_Peers a !! ID p = Some p → Embedded (Peer_ProxyMeta p) = false →
  policy_source policy p → code_source policy (ID p).
Proof using Type.
  intros Hwf Hp He [Hs Hm]. unfold code_source, policy_source_ids.
  destruct (po_Rules policy) as [|rule rules]; [done|]. cbn. eexists. split; [reflexivity|].
  split; [|by apply validate_meets]. destruct (is_peer_resource _); [by apply list_elem_of_singleton|by apply unique_members].
Qed.

End Resources.

Lemma all_routes_ok l : present l → ∃ rs, all_routes l = Ok rs ∧ l = Some <$> rs.
Proof using Type.
  induction l as [|r l IH]; intros Hl; [by exists []|]. destruct (Hl r) as [x ->]; [by left|].
  destruct IH as (rs & E & ->); [intros ? ?; apply Hl; by right|]. exists (x :: rs). simpl. by rewrite E.
Qed.

(** The peers that [addNetworksRoutingPeers] adds. *)
Lemma routing_peers_ok a routes peer conn expired isRouter sources :
  account_wf a → present routes → NoDup (ID <$> conn ++ expired) → (∀ q, q ∈ conn ++ expired → ID q ≠ ID peer) →
  ∃ peers, addNetworksRoutingPeers a routes peer conn expired isRouter sources = Ok peers ∧
    NoDup (ID <$> peers ++ expired) ∧ (∀ q, q ∈ peers ++ expired → ID q ≠ ID peer) ∧
    (∀ q, q ∈ peers → q ∈ conn ∨ a_Peers a !! ID q = Some q ∧
       ((isRouter = true ∧ ID q ∈ sources) ∨ through routes (ID q))) ∧
    (∀ q, q ∈ conn → q ∈ peers) ∧
    (∀ q, a_Peers a !! ID q = Some q → ID q ≠ ID peer → (isRouter = true ∧ ID q ∈ sources) ∨ through routes (ID q) →
       (∀ x, x ∈ conn ++ expired → a_Peers a !! ID x = Some x) → q ∈ peers ++ expired).
Proof using Type.
  intros Hwf Hp Hn Hme. unfold addNetworksRoutingPeers. destruct (all_routes_ok routes Hp) as (rs & -> & ->). simpl.
  set (known := {[ID peer]} ∪ _). set (missing := _ ∖ known). set (extra := omap (GetPeer a) (elements missing)).
  assert (Hextra : ∀ q, q ∈ extra → a_Peers a !! ID q = Some q ∧ ID q ∈ missing).
  { intros q (id & Hid%elem_of_elements & Hq)%list_elem_of_omap. unfold GetPeer in Hq.
    by rewrite (wf_peers a Hwf id q Hq). }
  assert (Hids : ID <$> extra `sublist_of` elements missing).
  { unfold extra. clear -Hwf. induction (elements missing) as [|id l IH]; [done|]. csimpl. unfold GetPeer at 1.
    destruct (a_Peers a !! id) as [q|] eqn:E; csimpl; [|by constructor]. rewrite (wf_peers a Hwf id q E). by constructor. }
  eexists. split; [done|]. split_and!.
  - rewrite !fmap_app in *. apply NoDup_app in Hn as (Hc & Hd & He). rewrite <- app_assoc. apply NoDup_app. split_and!; [done| |].
    + intros x Hx [Hin|?]%elem_of_app; [|by apply (Hd x)]. apply list_elem_of_fmap in Hin as (q & -> & Hq).
      destruct (Hextra q Hq) as [_ Hm]. apply list_elem_of_fmap in Hx as (q' & Hqq & Hq').
      apply elem_of_difference in Hm as [_ Hm]. apply Hm. unfold known. rewrite Hqq.
      apply elem_of_union_r, elem_of_list_to_set, list_elem_of_fmap_2, elem_of_app. by left.
    + apply NoDup_app. split_and!; [by apply (sublist_NoDup _ (elements missing)); [apply NoDup_elements|]| |done].
      intros x (q & -> & Hq)%list_elem_of_fmap Hx. destruct (Hextra q Hq) as [_ Hm].
      apply list_elem_of_fmap in Hx as (q' & Hqq & Hq'). apply elem_of_difference in Hm as [_ Hm]. apply Hm.
      rewrite Hqq. apply elem_of_union_r, elem_of_list_to_set, list_elem_of_fmap_2, elem_of_app. by right.
  - intros q [[Hq|Hq]%elem_of_app|Hq]%elem_of_app.
    + apply Hme, elem_of_app. by left.
    + destruct (Hextra q Hq) as [_ Hm]. intros E. apply elem_of_difference in Hm as [_ Hm]. apply Hm. rewrite E. set_solver.
    + apply Hme, elem_of_app. by right.
  - intros q [Hq|Hq]%elem_of_app; [by left|]. right. destruct (Hextra q Hq) as [? Hm]. split; [done|].
    apply elem_of_difference in Hm as [[Hs|Hr]%elem_of_union _].
    + left. destruct isRouter; [done|set_solver].
    + right. apply elem_of_list_to_set, list_elem_of_fmap in Hr as (r & -> & Hr). exists r. split; [|done]. by apply list_elem_of_fmap_2.
  - intros q Hq. apply elem_of_app. by left.
  - intros q Hq Hne Hwhy Hof. rewrite <- app_assoc. destruct (decide (ID q ∈ known)) as [Hk|Hk].
    + unfold known in Hk. apply elem_of_union in Hk as [?%elem_of_singleton|Hk%elem_of_list_to_set]; [done|].
      apply list_elem_of_fmap in Hk as (x & Ex & Hx). pose proof (Hof x Hx) as Hx'. rewrite <- Ex, Hq in Hx'. injection Hx' as <-.
      apply elem_of_app in Hx as [?|?]; rewrite !elem_of_app; auto.
    + rewrite !elem_of_app. right. left. apply list_elem_of_omap. exists (ID q). split; [|done]. apply elem_of_elements, elem_of_difference.
      split; [|done]. apply elem_of_union. destruct Hwhy as [[-> ?]|(r & Hr & Hid)]; [by left|right].
      apply elem_of_list_to_set, list_elem_of_fmap. exists r. split; [done|]. by apply list_elem_of_fmap in Hr as (? & [= ->] & ?).
Qed.

Lemma partition_nodup {A B} (f : A → B) (b : A → bool) (l : list A) :
  NoDup (f <$> l) → NoDup (f <$> List.filter (λ x, negb (b x)) l ++ List.filter b l).
Proof using Type.
  intros Hn. assert (Hp : List.filter (λ x, negb (b x)) l ++ List.filter b l ≡ₚ l); [|by rewrite Hp]. clear Hn.
  induction l as [|x l IH]; [done|]. simpl. destruct (b x); simpl; [|by constructor].
  rewrite <- Permutation_middle. by constructor.
Qed.

(** Why a peer is told about another one that no policy links it with: it is a source of
    an enabled resource that the peer routes, or it routes an enabled resource of which
    the peer is a source and not a router itself. *)
Definition resource_reason (a : Account) (resourcePolicies : gmap bytes (list Policy))
    (routers : gmap bytes (gmap bytes NetworkRouter)) (t q : Peer) : Prop :=
  ∃ n policy, n ∈ a_NetworkResources a ∧ nres_Enabled n = true ∧ policy ∈ policies_of resourcePolicies n ∧
    ((serves routers n (ID t) ∧ policy_source a policy q) ∨
     (¬ serves routers n (ID t) ∧ serves routers n (ID q) ∧ policy_source a policy t)).

(** The loop finds these reasons, and all of them but for peers of proxies. *)
Lemma resource_reason_spec a resourcePolicies routers t isRouter routes sources :
  account_wf a → resources_wf a resourcePolicies → a_Peers a !! ID t = Some t →
  GetNetworkResourcesRoutesToSync a (ID t) resourcePolicies routers = Ok (isRouter, routes, sources) →
  ∀ q, a_Peers a !! ID q = Some q → ID q ≠ ID t →
  let found := (isRouter = true ∧ ID q ∈ sources) ∨ through routes (ID q) in
  (found → resource_reason a resourcePolicies routers t q) ∧
  (resource_reason a resourcePolicies routers t q → Embedded (Peer_ProxyMeta t) = false → Embedded (Peer_ProxyMeta q) = false → found).
Proof using Type.
  intros Hwf Hres Ht E q Hq Hne found. unfold GetNetworkResourcesRoutesToSync in E.
  destruct (resources_loop_spec a resourcePolicies Hres (ID t) routers (a_NetworkResources a) (false, [], ∅) Hwf)
    as (st' & E' & _ & H1 & H2 & H3); [done|by intros r ?%elem_of_nil|].
  rewrite E in E'. injection E' as <-. cbn in H1, H2, H3. specialize (H3 (ID q) Hne).
  assert (¬ through [] (ID q)) as Hnil by (by intros (r & ?%elem_of_nil & _)). unfold resource_reason, found. split.
  - intros [[_ [?%elem_of_empty|(n & Hn & He & Hs & p & Hp & Hc)]%H2]|[?|(n & Hn & He & Hno & Hs & _ & p & Hp & Hc)]%H3]; [done| |done|].
    + exists n, p. split_and!; [done..|]. left. split; [done|]. by apply code_source_sound.
    + exists n, p. split_and!; [done..|]. right. split_and!; [done..|]. by apply code_source_sound.
  - intros (n & p & Hn & He & Hp & [[Hs Hc]|(Hno & Hs & Hc)]) Et Eq.
    + left. split; [apply H1; right; eauto|]. apply H2. right. exists n. split; [done|]. split_and!; [done..|].
      exists p. split; [done|]. by apply code_source_complete.
    + right. apply H3. right. exists n. split; [done|]. split_and!; [done..|by exists q|]. exists p. split; [done|].
      by apply code_source_complete.
Qed.

End Map.

(** ** Examples *)

Definition peer_c : Peer := example_peer "peer-c" "key-c" (ip4 100 64 0 3) "0.60.0".

Definition lan : Route :=
  mkRoute (str "route") (str "account") (PrefixFrom (Addr4 (be_number (ip4 10 0 0 0))) 8) None false (str "lan") []
    (str "peer-b") [] [] IPv4Network true 9999 true [str "everyone"] [str "lan-access"] false.

Definition clients_to_lan : PolicyRule :=
  plain_rule "rule-1" [str "clients"] [str "lan-access"] false PolicyRuleProtocolTCP [str "443"] [].

Definition guests_to_printers : PolicyRule :=
  plain_rule "rule-2" [str "guests"] [str "printers"] false PolicyRuleProtocolALL [] [].

Definition routed : Account :=
  mkAccount (str "account") (mkNetwork (str "net") [] 1)
    {[str "peer-a" := peer_a; str "peer-b" := peer_b; str "peer-c" := peer_c]} ∅
    {[str "clients" := plain_group "clients" "clients" [str "peer-a"];
      str "guests" := plain_group "guests" "guests" [str "peer-c"];
      str "everyone" := plain_group "everyone" "everyone" [str "peer-a"; str "peer-c"];
      str "lan-access" := plain_group "lan-access" "lan-access" [];
      str "printers" := plain_group "printers" "printers" []]}
    [plain_policy [clients_to_lan; guests_to_printers] []] {[str "route" := lan]} ∅ [] [] example_settings [] [] [].

Definition all_valid : gset bytes := {[str "peer-a"; str "peer-b"; str "peer-c"]}.

Lemma routed_wf : account_wf routed.
Proof.
  split.
  - intros k p. simpl. rewrite !lookup_insert_Some, lookup_singleton_Some.
    by intros [[<- <-]|(_ & [[<- <-]|(_ & <- & <-)])].
  - intros gid g id p Hg Ha _ _. by apply (no_all_group routed eq_refl gid g).
Qed.

Definition guest_rule : RouteFirewallRule :=
  mkRouteFwRule (str "policy") (str "route") [str "100.64.0.3/32"] PolicyTrafficActionAccept (str "10.0.0.0/8")
    PolicyRuleProtocolALL 0 (mkPortRange 0 0) None false.

(** A policy gives access to a route with all its rules as soon as one of them
    has an access group of the route among its destinations: the guests, whose
    rule is for the printers only, may send anything to the routed network. *)
Theorem route_rules_cross :
  let rules := GetPeerRoutesFirewallRules routed (str "peer-b") all_valid in
  guest_rule ∈ rules ∧ rfr_SourceRanges guest_rule = [allowed_ips peer_c] ∧
  ∀ policy rule gid g, active routed policy rule → gid ∈ pr_Sources rule → a_Groups routed !! gid = Some g →
    ID peer_c ∈ g_Peers g → str "lan-access" ∉ pr_Destinations rule.
Proof.
  cbn zeta. split_and!; [|vm_compute; reflexivity|].
  - set (rules := GetPeerRoutesFirewallRules routed (str "peer-b") all_valid).
    assert (E : rules !! 1%nat = Some guest_rule) by (vm_compute; reflexivity). by eapply list_elem_of_lookup_2.
  - intros policy rule gid g (Hp & _ & Hr & _) Hg Eg Hc Hd. apply list_elem_of_singleton in Hp as ->. simpl in Hr.
    rewrite !elem_of_cons, elem_of_nil in Hr. destruct Hr as [->|[->|[]]].
    + apply list_elem_of_singleton in Hg as ->. vm_compute in Eg. injection Eg as <-. by apply list_elem_of_singleton in Hc.
    + by apply list_elem_of_singleton in Hd.
Qed.


(** A network with one host behind [peer-b], which the clients may reach. *)
Definition host : NetworkResource :=
  mkNetworkResource (str "host") (str "office") (str "account") (str "host") [] Host []
    (PrefixFrom (Addr4 (be_number (ip4 10 0 0 5))) 32) true.

Definition office_router : NetworkRouter :=
  mkRouter (str "router") (str "office") (str "account") (str "peer-b") [] true 9999 true.

Definition clients_to_host : PolicyRule :=
  plain_rule "rule-1" [str "clients"] [str "hosts"] false PolicyRuleProtocolTCP [str "443"] [].

Definition host_policy : Policy := plain_policy [clients_to_host] [].

Definition office : Account :=
  mkAccount (str "account") (mkNetwork (str "net") [] 1)
    {[str "peer-a" := peer_a; str "peer-b" := peer_b; str "peer-c" := peer_c]} ∅
    {[str "clients" := plain_group "clients" "clients" [str "peer-a"];
      str "hosts" := mkGroup (str "hosts") (str "account") (str "hosts") (str "api") [] [] [mkResource (str "host") Host]]}
    [host_policy] ∅ ∅ [] [] example_settings [office_router] [host] [].

Definition office_policies : gmap bytes (list Policy) := {[str "host" := [host_policy]]}.

Definition office_map (me : bytes) : total NetworkMap :=
  GetPeerNetworkMap Some id Some office me (mkCustomZone [] [] false false) [] all_valid office_policies
    (GetResourceRoutersMap office) ∅ 0.

Lemma office_wf : account_wf office ∧ resources_wf Some office office_policies.
Proof.
  split; split.
  - intros k p. simpl. rewrite !lookup_insert_Some, lookup_singleton_Some.
    by intros [[<- <-]|(_ & [[<- <-]|(_ & <- & <-)])].
  - intros gid g id p Hg Ha _ _. by apply (no_all_group office eq_refl gid g).
  - unfold office_policies. intros id ps p [_ <-]%lookup_singleton_Some ->%list_elem_of_singleton. done.
  - eauto.
Qed.

