(* ===== verification/NetMapComponents.v ===== *)
(** * The network map from its components

    management/server/types/account_components.go and networkmap_components.go:
    the second way to a network map.  [GetPeerNetworkMapComponents] reduces the
    account to the peers, groups and policies that matter for one peer;
    [Calculate] computes the map of the reduced data, which [NetworkMap] computes
    from the whole account.

    The maps of the components may hold nil pointers, for the ids of peers and
    groups that do not exist: their values are options.  Reading a field of a nil
    group is [Panic]. *)

From stdpp Require Import base list gmap strings.
From S2P Require Import Prelude GoStd GoStrings NetIP FirewallRules AclManager Routes Peers Posture PolicyTypes Account PeerPolicy NetworkMap.

#[local] Open Scope go_scope.

Abbreviation failed_map := (gmap bytes (gset bytes)).

Abbreviation users_map := (gmap bytes (gset bytes)).

(** ** Data *)

Record NetworkMapComponents := mkComponents {
  c_PeerID : bytes;
  c_Network : Network;
  c_AccountSettings : Settings;
  c_DisabledManagementGroups : list bytes;
  c_CustomZoneDomain : bytes;
  c_Peers : gmap bytes (option Peer);
  c_Groups : gmap bytes Group;
  c_Policies : list Policy;
  c_Routes : list Route;
  c_NameServerGroups : list NameServerGroup;
  c_AllDNSRecords : list SimpleRecord;
  c_AccountZones : list CustomZone;
  c_ResourcePoliciesMap : gmap bytes (list Policy);
  c_RoutersMap : gmap bytes (gmap bytes NetworkRouter);
  c_NetworkResources : list NetworkResource;
  c_GroupIDToUserIDs : gmap bytes (list bytes);
  c_AllowedUserIDs : option (gset bytes);
  c_PostureFailedPeers : failed_map;
  c_RouterPeers : gmap bytes Peer
}.

Section Components.
Context `{GoVersion Version}.
Context (to_unicode : bytes → option bytes) (Fqdn : bytes → bytes) (FromString : bytes → option bytes).

(** ** Posture checks *)

Definition passes (a : Account) (id : bytes) (peer : Peer) : bool :=
  match GetPostureChecks a id with
  | None => true
  | Some pc => forallb (λ c, match Check_Check c peer with Ok b => b | _ => false end) (GetChecks pc)
  end.

(** The result with the id of the first posture check that fails. *)
Definition validatePostureChecksOnPeerGetFailed (a : Account) (checks : list bytes) (peerID : bytes) : bool * bytes :=
  match a_Peers a !! peerID with
  | None => (false, [])
  | Some peer =>
      match List.find (λ id, negb (passes a id peer)) checks with
      | Some id => (false, id)
      | None => (true, [])
      end
  end.

Definition save_failed (m : failed_map) (check peerID : bytes) : failed_map :=
  <[check := {[peerID]} ∪ default ∅ (m !! check)]> m.

(** The body of the loops of [getPeersFromGroups]: the ids to keep, whether the
    peer itself is among them, the failures. *)
Abbreviation scan_state := (list bytes * bool * failed_map)%type.

Definition scan_peer (a : Account) (peerID : bytes) (checks : list bytes) (validated : gset bytes) (st : scan_state)
    (pid : bytes) : scan_state :=
  let '(ids, isIn, failed) := st in
  match a_Peers a !! pid with
  | None => st
  | Some peer =>
      if negb (bool_decide (ID peer ∈ validated)) then st
      else
        let '(isValid, pname) := validatePostureChecksOnPeerGetFailed a checks (ID peer) in
        if negb isValid && negb (empty pname) then (ids, isIn, save_failed failed pname (ID peer))
        else if bytes_eqb (ID peer) peerID then (ids, true, failed)
        else (ids ++ [ID peer], isIn, failed)
  end.

(** The members of a group that were not seen before; all of them are seen now. *)
Fixpoint unseen (seen : gset bytes) (l : list bytes) : list bytes :=
  match l with
  | [] => []
  | pid :: l => if bool_decide (pid ∈ seen) then unseen seen l else pid :: unseen ({[pid]} ∪ seen) l
  end.

Fixpoint scan_groups (a : Account) (peerID : bytes) (checks : list bytes) (validated : gset bytes) (single : bool)
    (groups : list bytes) (seen : gset bytes) (st : scan_state) : scan_state :=
  match groups with
  | [] => st
  | gid :: groups =>
      match GetGroup a gid with
      | None => scan_groups a peerID checks validated single groups seen st
      | Some g =>
          if IsGroupAll g || single then foldl (scan_peer a peerID checks validated) ([], false, st.2) (g_Peers g)
          else scan_groups a peerID checks validated single groups (list_to_set (g_Peers g) ∪ seen)
                 (foldl (scan_peer a peerID checks validated) st (unseen seen (g_Peers g)))
      end
  end.

Definition getPeersFromGroups (a : Account) (groups : list bytes) (peerID : bytes) (checks : list bytes)
    (validated : gset bytes) (failed : failed_map) : scan_state :=
  scan_groups a peerID checks validated (length groups =? 1)%nat groups ∅ ([], false, failed).

Definition getPostureValidPeersSaveFailed (a : Account) (ids checks : list bytes) (validated : gset bytes)
    (failed : failed_map) : list bytes * failed_map :=
  foldl (λ st peerID,
    if negb (bool_decide (peerID ∈ validated)) then st
    else let '(valid, pname) := validatePostureChecksOnPeerGetFailed a checks peerID in
         if (valid : bool) then (st.1 ++ [peerID], st.2) else (st.1, save_failed st.2 pname peerID))
    ([], failed) ids.

(** ** What matters for a peer *)

Record relevant := mkRelevant {
  rv_peers : gmap bytes (option Peer);
  rv_groups : gmap bytes (option Group);
  rv_failed : failed_map;
  rv_neededGroupIDs : gset bytes;
  rv_needAllowedUserIDs : bool
}.

(** [relevantPeerIDs[pid] = a.GetPeer(pid)] for the ids of a list *)
Definition add_peers (a : Account) (ids : list bytes) (m : gmap bytes (option Peer)) : gmap bytes (option Peer) :=
  foldl (λ m id, <[id := GetPeer a id]> m) m ids.

Definition add_groups (a : Account) (ids : list bytes) (m : gmap bytes (option Group)) : gmap bytes (option Group) :=
  foldl (λ m id, <[id := GetGroup a id]> m) m ids.

Definition route_groups (r : Route) : list bytes :=
  rt_Groups r ++ rt_PeerGroups r ++ (if rt_Enabled r then rt_AccessControlGroups r else []).

Definition routeAccessControlGroups (a : Account) : gset bytes :=
  list_to_set ((map_to_list (a_Routes a)).*2 ≫= λ r, if rt_Enabled r then rt_AccessControlGroups r else []).

Definition side_ids (a : Account) (res : Resource) (groups : list bytes) (peerID : bytes) (checks : list bytes)
    (validated : gset bytes) (failed : failed_map) : scan_state :=
  if is_peer_resource res then ([res_ID res], bytes_eqb (res_ID res) peerID, failed)
  else getPeersFromGroups a groups peerID checks validated failed.

(** What the SSH server needs for a rule with the peer among its destinations. *)
Definition ssh_needs (rule : PolicyRule) (sshEnabled : bool) (needed : gset bytes) (allowed : bool) : gset bytes * bool :=
  if bytes_eqb (pr_Protocol rule) PolicyRuleProtocolNetbirdSSH then
    if negb (bool_decide (pr_AuthorizedGroups rule = ∅)) then (dom (pr_AuthorizedGroups rule) ∪ needed, allowed)
    else if negb (empty (pr_AuthorizedUser rule)) then (needed, allowed)
    else (needed, true)
  else if policyRuleImpliesLegacySSH rule && sshEnabled then (needed, true)
  else (needed, allowed).

(** With the peer on one side of a rule, the peers and the groups of the other
    side matter. *)
Definition add_side (a : Account) (peerIsIn : bool) (ids groups : list bytes)
    (m : gmap bytes (option Peer) * gmap bytes (option Group)) : gmap bytes (option Peer) * gmap bytes (option Group) :=
  if peerIsIn then (add_peers a ids m.1, add_groups a groups m.2) else m.

(** One enabled rule: the new state and whether the policy matters. *)
Definition relevant_rule (a : Account) (peerID : bytes) (sshEnabled : bool) (validated : gset bytes) (policy : Policy)
    (st : relevant * bool) (rule : PolicyRule) : relevant * bool :=
  if negb (pr_Enabled rule) then st
  else
    let '(rv, isRelevant) := st in
    let byRoute := existsb (λ gid, bool_decide (gid ∈ routeAccessControlGroups a)) (pr_Destinations rule) in
    let groups := if byRoute then add_groups a (pr_Destinations rule) (add_groups a (pr_Sources rule) (rv_groups rv))
                  else rv_groups rv in
    let '(sourcePeers, peerInSources, failed) :=
      side_ids a (pr_SourceResource rule) (pr_Sources rule) peerID (po_SourcePostureChecks policy) validated (rv_failed rv) in
    let '(destinationPeers, peerInDestinations, failed) :=
      side_ids a (pr_DestinationResource rule) (pr_Destinations rule) peerID [] validated failed in
    let '(peers, groups) := add_side a peerInSources destinationPeers (pr_Destinations rule) (rv_peers rv, groups) in
    let '(peers, groups) := add_side a peerInDestinations sourcePeers (pr_Sources rule) (peers, groups) in
    let '(needed, allowed) :=
      if (peerInDestinations : bool) then ssh_needs rule sshEnabled (rv_neededGroupIDs rv) (rv_needAllowedUserIDs rv)
      else (rv_neededGroupIDs rv, rv_needAllowedUserIDs rv) in
    (mkRelevant peers groups failed needed allowed, isRelevant || byRoute || peerInSources || peerInDestinations).

Fixpoint relevant_policies (a : Account) (peerID : bytes) (sshEnabled : bool) (validated : gset bytes)
    (policies : list Policy) (rv : relevant) : list Policy * relevant :=
  match policies with
  | [] => ([], rv)
  | policy :: policies =>
      if negb (po_Enabled policy) then relevant_policies a peerID sshEnabled validated policies rv
      else
        let '(rv, isRelevant) :=
          foldl (relevant_rule a peerID sshEnabled validated policy) (rv, false) (po_Rules policy) in
        let '(more, rv) := relevant_policies a peerID sshEnabled validated policies rv in
        (if (isRelevant : bool) then policy :: more else more, rv)
  end.

Definition first_relevant (a : Account) (peerID : bytes) (failed : failed_map) : relevant :=
  let own := (map_to_list (filter (λ kv : bytes * Group, peerID ∈ g_Peers kv.2) (a_Groups a))).*1 in
  let routes := (map_to_list (a_Routes a)).*2 in
  mkRelevant {[peerID := GetPeer a peerID]} (add_groups a (routes ≫= route_groups) (add_groups a own ∅)) failed ∅ false.

Definition getPeersGroupsPoliciesRoutes (a : Account) (peerID : bytes) (sshEnabled : bool) (validated : gset bytes)
    (failed : failed_map) : list Policy * relevant * list Route :=
  (relevant_policies a peerID sshEnabled validated (a_Policies a) (first_relevant a peerID failed),
   (map_to_list (a_Routes a)).*2).

(** ** Network resources *)

Record gathered := mkGathered {
  ga_peers : gmap bytes (option Peer);
  ga_groups : gmap bytes (option Group);
  ga_failed : failed_map;
  ga_resourcePolicies : gmap bytes (list Policy);
  ga_routers : gmap bytes (gmap bytes NetworkRouter);
  ga_resources : list NetworkResource;
  ga_routerPeers : gmap bytes Peer
}.

(** [if _, exists := m[k]; !exists { m[k] = v }] *)
Definition set_new {A} (m : gmap bytes A) (k : bytes) (v : A) : gmap bytes A :=
  match m !! k with Some _ => m | None => <[k := v]> m end.

Definition add_rule_groups (a : Account) (policy : Policy) (m : gmap bytes (option Group)) : gmap bytes (option Group) :=
  foldl (λ m rule, foldl (λ m gid, match a_Groups a !! gid with Some g => set_new m gid (Some g) | None => m end) m
                     (pr_Sources rule ++ pr_Destinations rule)) m (po_Rules policy).

(** One policy of a resource: [None] when the loop goes on to the next one
    before it stores the groups of the policy. *)
Definition gather_policy (a : Account) (peerID : bytes) (peer : Peer) (validated : gset bytes) (addSourcePeers : bool) (policy : Policy)
    (st : gathered) : total (gathered * bool) :=
  let! rule := go_index (po_Rules policy) 0 in
  let res := pr_SourceResource rule in
  if addSourcePeers then
    let ids := if is_peer_resource res then [res_ID res] else getUniquePeerIDsFromGroupsIDs a (SourceGroups policy) in
    let '(valid, failed) := getPostureValidPeersSaveFailed a ids (po_SourcePostureChecks policy) validated (ga_failed st) in
    Ok (mkGathered (foldl (λ m id, set_new m id (GetPeer a id)) (ga_peers st) valid) (ga_groups st) failed
          (ga_resourcePolicies st) (ga_routers st) (ga_resources st) (ga_routerPeers st), true)
  else
    let peerInSources :=
      if is_peer_resource res then bytes_eqb (res_ID res) peerID
      else existsb (λ gid, match GetGroup a gid with Some g => bool_decide (peerID ∈ g_Peers g) | None => false end)
             (SourceGroups policy) in
    if negb peerInSources then Ok (st, false)
    else
      let '(isValid, pname) := validatePostureChecksOnPeerGetFailed a (po_SourcePostureChecks policy) peerID in
      if negb isValid && negb (empty pname) then
        Ok (mkGathered (ga_peers st) (ga_groups st) (save_failed (ga_failed st) pname (ID peer)) (ga_resourcePolicies st)
              (ga_routers st) (ga_resources st) (ga_routerPeers st), false)
      else Ok (st, true).

Fixpoint gather_policies (a : Account) (peerID : bytes) (peer : Peer) (validated : gset bytes) (resourceID : bytes) (all : list Policy)
    (addSourcePeers : bool) (policies : list Policy) (st : gathered) : total (gathered * bool) :=
  match policies with
  | [] => Ok (st, addSourcePeers)
  | policy :: policies =>
      let! (st, stored) := gather_policy a peerID peer validated addSourcePeers policy st in
      let st := if (stored : bool) then
                  mkGathered (ga_peers st) (add_rule_groups a policy (ga_groups st)) (ga_failed st)
                    (<[resourceID := all]> (ga_resourcePolicies st)) (ga_routers st) (ga_resources st) (ga_routerPeers st)
                else st in
      gather_policies a peerID peer validated resourceID all (addSourcePeers || stored) policies st
  end.

Definition add_router (a : Account) (validated : gset bytes) (st : gathered) (id : bytes) : gathered :=
  match a_Peers a !! id with
  | None => st
  | Some p =>
      mkGathered (if bool_decide (id ∈ validated) then set_new (ga_peers st) id (Some p) else ga_peers st) (ga_groups st)
        (ga_failed st) (ga_resourcePolicies st) (ga_routers st) (ga_resources st) (set_new (ga_routerPeers st) id p)
  end.

Definition gather_resource (a : Account) (peerID : bytes) (peer : Peer) (validated : gset bytes)
    (resourcePolicies : gmap bytes (list Policy)) (routers : gmap bytes (gmap bytes NetworkRouter))
    (resource : NetworkResource) (st : gathered) : total gathered :=
  if negb (nres_Enabled resource) then Ok st
  else match resourcePolicies !! nres_ID resource with
  | None => Ok st
  | Some policies =>
      let routing := default ∅ (routers !! nres_NetworkID resource) in
      let! (st, addSourcePeers) := gather_policies a peerID peer validated (nres_ID resource) policies
                                     (bool_decide (is_Some (routing !! peerID))) policies st in
      let st := foldl (add_router a validated) st (map_to_list routing).*1 in
      Ok (mkGathered (ga_peers st) (ga_groups st) (ga_failed st) (ga_resourcePolicies st)
            (<[nres_NetworkID resource := routing]> (ga_routers st))
            (if (addSourcePeers : bool) then ga_resources st ++ [resource] else ga_resources st) (ga_routerPeers st))
  end.

Fixpoint gather_resources (a : Account) (peerID : bytes) (peer : Peer) (validated : gset bytes)
    (resourcePolicies : gmap bytes (list Policy)) (routers : gmap bytes (gmap bytes NetworkRouter))
    (resources : list NetworkResource) (st : gathered) : total gathered :=
  match resources with
  | [] => Ok st
  | resource :: resources =>
      let! st := gather_resource a peerID peer validated resourcePolicies routers resource st in
      gather_resources a peerID peer validated resourcePolicies routers resources st
  end.

(** ** Reduction *)

Definition set_group_peers (g : Group) (peers : list bytes) : Group :=
  mkGroup (g_ID g) (g_AccountID g) (g_Name g) (g_Issued g) peers (g_GroupPeers g) (g_Resources g).

(** The group without the peers that do not matter; [None] when it is deleted. *)
Definition filter_group (peers : gmap bytes (option Peer)) (g : Group) : option Group :=
  let kept := List.filter (λ pid, bool_decide (is_Some (peers !! pid))) (g_Peers g) in
  if empty kept then None else if (length kept =? length (g_Peers g))%nat then Some g else Some (set_group_peers g kept).

(** A nil group is a panic: [groupInfo.Peers]. *)
Definition filterGroupPeers (groups : gmap bytes (option Group)) (peers : gmap bytes (option Peer)) :
    total (gmap bytes Group) :=
  if forallb (λ kv, bool_decide (is_Some kv.2)) (map_to_list groups)
  then Ok (omap (λ g, match g with Some g => filter_group peers g | None => None end) groups)
  else Panic.

Definition filterPostureFailedPeers (failed : failed_map) (policies : list Policy)
    (resourcePolicies : gmap bytes (list Policy)) (peers : gmap bytes (option Peer)) : failed_map :=
  let referenced : gset bytes :=
    list_to_set ((policies ++ mjoin (map_to_list resourcePolicies).*2) ≫= po_SourcePostureChecks) in
  map_imap (λ check ids,
    let kept := filter (λ id, is_Some (peers !! id)) ids in
    if bool_decide (check ∈ referenced) && negb (bool_decide (kept = ∅)) then Some kept else None) failed.

Definition filterDNSRecordsByPeers (records : list SimpleRecord) (peers : gmap bytes (option Peer)) : list SimpleRecord :=
  let ips : gset bytes := list_to_set ((λ p, IP_String (IP p)) <$> omap id (map_to_list peers).*2) in
  List.filter (λ r, bool_decide (sr_RData r ∈ ips)) records.

Definition filterGroupIDToUserIDs (full : gmap bytes (list bytes)) (needed : gset bytes) : gmap bytes (list bytes) :=
  filter (λ kv : bytes * list bytes, kv.1 ∈ needed) full.

(** ** The components *)

Definition GetPeerNetworkMapComponents (a : Account) (peerID : bytes) (zone : CustomZone) (zones : list Zone)
    (validated : gset bytes) (resourcePolicies : gmap bytes (list Policy))
    (routers : gmap bytes (gmap bytes NetworkRouter)) (groupUsers : gmap bytes (list bytes)) :
    total (option NetworkMapComponents) :=
  match a_Peers a !! peerID with
  | None => Ok None
  | Some peer =>
      if negb (bool_decide (peerID ∈ validated)) then Ok None
      else
        let '(policies, rv, routes) := getPeersGroupsPoliciesRoutes a peerID (SSHEnabled peer) validated ∅ in
        let! ga := gather_resources a peerID peer validated resourcePolicies routers (a_NetworkResources a)
                     (mkGathered (rv_peers rv) (rv_groups rv) (rv_failed rv) ∅ ∅ [] ∅) in
        let! groups := filterGroupPeers (ga_groups ga) (ga_peers ga) in
        Ok (Some (mkComponents peerID (a_Network a) (a_Settings a) (a_DisabledManagementGroups a) (cz_Domain zone)
              (ga_peers ga) groups policies routes
              (List.filter (λ g, ns_Enabled g && existsb (λ gid, bool_decide (is_Some (rv_groups rv !! gid))) (ns_Groups g))
                 (map_to_list (a_NameServerGroups a)).*2)
              (filterDNSRecordsByPeers (cz_Records zone) (rv_peers rv))
              (filterPeerAppliedZones Fqdn zones (GetPeerGroups a peerID)) (ga_resourcePolicies ga) (ga_routers ga)
              (ga_resources ga) (filterGroupIDToUserIDs groupUsers (rv_neededGroupIDs rv))
              (if rv_needAllowedUserIDs rv then Some (getAllowedUserIDs a) else None)
              (filterPostureFailedPeers (ga_failed ga) policies (ga_resourcePolicies ga) (ga_peers ga)) (ga_routerPeers ga)))
  end.

(** ** Calculation: the peers and firewall rules of the policies *)

Definition GetPeerInfo (c : NetworkMapComponents) (peerID : bytes) : option Peer := mjoin (c_Peers c !! peerID).

Definition GetRouterPeerInfo (c : NetworkMapComponents) (peerID : bytes) : option Peer := c_RouterPeers c !! peerID.

Definition GetGroupInfo (c : NetworkMapComponents) (groupID : bytes) : option Group := c_Groups c !! groupID.

Definition IsPeerInGroup (c : NetworkMapComponents) (peerID groupID : bytes) : bool :=
  match GetGroupInfo c groupID with Some g => bool_decide (peerID ∈ g_Peers g) | None => false end.

Definition c_GetPeerGroups (c : NetworkMapComponents) (peerID : bytes) : gset bytes :=
  dom (filter (λ kv : bytes * Group, peerID ∈ g_Peers kv.2) (c_Groups c)).

Definition ValidatePostureChecksOnPeer (c : NetworkMapComponents) (peerID : bytes) (checks : list bytes) : bool :=
  bool_decide (is_Some (c_Peers c !! peerID)) &&
  forallb (λ check, negb (bool_decide (peerID ∈ default ∅ (c_PostureFailedPeers c !! check)))) checks.

Fixpoint c_collect_ids (c : NetworkMapComponents) (single : bool) (groups : list bytes) (acc : gset bytes) : list bytes :=
  match groups with
  | [] => elements acc
  | gid :: groups =>
      match GetGroupInfo c gid with
      | None => c_collect_ids c single groups acc
      | Some g =>
          if IsGroupAll g || single then g_Peers g
          else c_collect_ids c single groups (acc ∪ list_to_set (g_Peers g))
      end
  end.

Definition c_getUniquePeerIDsFromGroupsIDs (c : NetworkMapComponents) (groups : list bytes) : list bytes :=
  c_collect_ids c (length groups =? 1)%nat groups ∅.

Definition c_admitted (c : NetworkMapComponents) (checks : list bytes) (id : bytes) : option (bytes * Peer) :=
  match GetPeerInfo c id with
  | None => None
  | Some peer => if ValidatePostureChecksOnPeer c id checks then Some (id, peer) else None
  end.

Definition c_getAllPeersFromGroups (c : NetworkMapComponents) (groups : list bytes) (peerID : bytes) (checks : list bytes) :
    list Peer * bool :=
  let found := omap (c_admitted c checks) (c_getUniquePeerIDsFromGroupsIDs c groups) in
  ((List.filter (λ ip, negb (bytes_eqb ip.1 peerID)) found).*2, existsb (λ ip, bytes_eqb ip.1 peerID) found).

Definition c_getPeerFromResource (c : NetworkMapComponents) (r : Resource) (peerID : bytes) : list Peer * bool :=
  if bytes_eqb (res_ID r) peerID then ([], true)
  else match GetPeerInfo c (res_ID r) with None => ([], false) | Some peer => ([peer], false) end.

Definition c_source_peers (c : NetworkMapComponents) (policy : Policy) (rule : PolicyRule) (peerID : bytes) :
    list Peer * bool :=
  if is_peer_resource (pr_SourceResource rule) then c_getPeerFromResource c (pr_SourceResource rule) peerID
  else c_getAllPeersFromGroups c (pr_Sources rule) peerID (po_SourcePostureChecks policy).

Definition c_destination_peers (c : NetworkMapComponents) (rule : PolicyRule) (peerID : bytes) : list Peer * bool :=
  if is_peer_resource (pr_DestinationResource rule) then c_getPeerFromResource c (pr_DestinationResource rule) peerID
  else c_getAllPeersFromGroups c (pr_Destinations rule) peerID [].

Definition c_getAllowedUserIDs (c : NetworkMapComponents) : gset bytes := default ∅ (c_AllowedUserIDs c).

Definition c_ssh_step (c : NetworkMapComponents) (peer : Peer) (rule : PolicyRule) (peerInDestinations : bool)
    (st : users_map * bool) : users_map * bool :=
  if peerInDestinations && bytes_eqb (pr_Protocol rule) PolicyRuleProtocolNetbirdSSH then
    (if negb (bool_decide (pr_AuthorizedGroups rule = ∅)) then
       foldl (authorize_group (c_GroupIDToUserIDs c)) st.1 (map_to_list (pr_AuthorizedGroups rule))
     else if negb (empty (pr_AuthorizedUser rule)) then authorize st.1 Wildcard {[pr_AuthorizedUser rule]}
     else <[Wildcard := c_getAllowedUserIDs c]> st.1, true)
  else if peerInDestinations && policyRuleImpliesLegacySSH rule && SSHEnabled peer then
    (<[Wildcard := c_getAllowedUserIDs c]> st.1, true)
  else st.

(** The generator of [connResourcesGenerator] is that of the account. *)
Definition c_connection_step (c : NetworkMapComponents) (peer : Peer) (peerID : bytes) (policy : Policy)
    (st : generator * (users_map * bool)) (rule : PolicyRule) : generator * (users_map * bool) :=
  if pr_Enabled rule then
    let src := c_source_peers c policy rule peerID in
    let dst := c_destination_peers c rule peerID in
    (generate_rule peer rule src dst st.1, c_ssh_step c peer rule dst.2 st.2)
  else st.

Definition getPeerConnectionResources (c : NetworkMapComponents) (peerID : bytes) :
    list Peer * list FirewallRule * users_map * bool :=
  match GetPeerInfo c peerID with
  | None => ([], [], ∅, false)
  | Some peer =>
      let '(g, (users, ssh)) :=
        foldl (λ st policy, if po_Enabled policy then foldl (c_connection_step c peer peerID policy) st (po_Rules policy)
                            else st)
          (new_generator, (∅, false)) (c_Policies c) in
      (gen_peers g, gen_rules g, users, ssh)
  end.

(** ** Calculation: routes *)

Fixpoint c_take_routes (key : bytes) (seen : gset bytes) (l : list Route) : list Route * list Route :=
  match l with
  | [] => ([], [])
  | r :: l =>
      if bool_decide (rt_ID r ∈ seen) then c_take_routes key seen l
      else
        let '(en, dis) := c_take_routes key ({[rt_ID r]} ∪ seen) l in
        let r := set_route r (rt_ID r) key (rt_PeerGroups r) in
        if rt_Enabled r then (r :: en, dis) else (en, r :: dis)
  end.

Definition info (c : NetworkMapComponents) (peerID : bytes) : option Peer :=
  match GetPeerInfo c peerID with Some p => Some p | None => GetRouterPeerInfo c peerID end.

Definition c_getRoutingPeerRoutes (c : NetworkMapComponents) (peerID : bytes) : list Route * list Route :=
  match info c peerID with
  | None => ([], [])
  | Some peer => c_take_routes (Key peer) ∅ (c_Routes c ≫= offered_routes (GetGroupInfo c) peerID)
  end.

Definition c_getRoutesToSync (c : NetworkMapComponents) (peerID : bytes) (aclPeers : list Peer) (peerGroups : gset bytes) :
    list Route :=
  let '(routes, disabled) := c_getRoutingPeerRoutes c peerID in
  let membership : gset bytes := list_to_set (GetHAUniqueID to_unicode <$> routes ++ disabled) in
  routes ++ (aclPeers ≫= λ peer,
    filterRoutesFromPeersOfSameHAGroup to_unicode
      (filterRoutesByGroups (c_getRoutingPeerRoutes c (ID peer)).1 peerGroups) membership).

Definition c_group_members (c : NetworkMapComponents) (ids : list bytes) : list bytes :=
  ids ≫= λ id, match GetGroupInfo c id with Some g => g_Peers g | None => [] end.

Definition c_getDistributionGroupsPeers (c : NetworkMapComponents) (r : Route) : gset bytes :=
  list_to_set (c_group_members c (rt_Groups r)).

Definition c_getAllRoutePoliciesFromGroups (c : NetworkMapComponents) (groups : list bytes) : list Policy :=
  groups ≫= λ gid, c_Policies c ≫= λ policy,
    (λ _, policy) <$> List.filter (λ rule, bool_decide (gid ∈ pr_Destinations rule)) (po_Rules policy).

Definition c_getRulePeers (c : NetworkMapComponents) (rule : PolicyRule) (checks : list bytes) (peerID : bytes)
    (distribution : gset bytes) : list Peer :=
  let ok id := bool_decide (id ∈ distribution) && bool_decide (is_Some (c_Peers c !! id)) &&
               ValidatePostureChecksOnPeer c id checks in
  let res := pr_SourceResource rule in
  let ids : gset bytes :=
    list_to_set (List.filter (λ id, negb (bytes_eqb id peerID) && ok id) (c_group_members c (pr_Sources rule))) ∪
    (if is_peer_resource res && ok (res_ID res) then {[res_ID res]} else ∅) in
  omap (GetPeerInfo c) (elements ids).

Definition c_getRouteFirewallRules (c : NetworkMapComponents) (peerID : bytes) (policies : list Policy) (route : Route)
    (distribution : gset bytes) : list RouteFirewallRule :=
  List.filter po_Enabled policies ≫= λ policy,
    List.filter pr_Enabled (po_Rules policy) ≫= λ rule,
      generateRouteFirewallRules route rule (c_getRulePeers c rule (po_SourcePostureChecks policy) peerID distribution).

Definition c_getPeerRoutesFirewallRules (c : NetworkMapComponents) (peerID : bytes) : list RouteFirewallRule :=
  (c_getRoutingPeerRoutes c peerID).1 ≫= λ r,
    if empty (rt_AccessControlGroups r) then getDefaultPermit r
    else
      rt_AccessControlGroups r ≫= λ accessGroup,
        c_getRouteFirewallRules c peerID (c_getAllRoutePoliciesFromGroups c [accessGroup]) r
          (c_getDistributionGroupsPeers c r).

(** ** Calculation: network resources *)

(** Unlike [ToRoute], a domain that does not parse gives a route without a
    network instead of nil. *)
Definition networkResourceToRoute (n : NetworkResource) (peer : Peer) (router : NetworkRouter) : Route :=
  let r network domains nt :=
    mkRoute (nres_ID n ++ Byte.x3a :: ID peer) (nres_AccountID n) network domains true (nres_Name n) (nres_Description n)
      (Key peer) (ID peer) [] nt (nr_Masquerade router) (nr_Metric router) (nres_Enabled n) [] [] false in
  let invalid := r (mkPrefix AddrZero 0) None InvalidNetwork in
  if bytes_eqb (nres_Type n) Host || bytes_eqb (nres_Type n) Subnet then
    r (nres_Prefix n) None (if Is6 (pf_addr (nres_Prefix n)) then IPv6Network else IPv4Network)
  else if bytes_eqb (nres_Type n) Domain then
    match FromString (nres_Domain n) with
    | None => invalid
    | Some d => r placeholder (Some [d]) DomainNetwork
    end
  else invalid.

Definition c_getNetworkResourcesRoutes (c : NetworkMapComponents) (resource : NetworkResource) (peerID : bytes)
    (router : NetworkRouter) : list Route :=
  if empty (default [] (c_ResourcePoliciesMap c !! nres_ID resource)) then []
  else match GetPeerInfo c peerID with
       | None => []
       | Some peer => [networkResourceToRoute resource peer router]
       end.

Definition c_getPostureValidPeers (c : NetworkMapComponents) (ids checks : list bytes) : list bytes :=
  List.filter (λ id, ValidatePostureChecksOnPeer c id checks) ids.

Fixpoint c_resource_policies (c : NetworkMapComponents) (peerID : bytes) (resource : NetworkResource)
    (routing : gmap bytes NetworkRouter) (addSourcePeers : bool) (policies : list Policy) (sources : gset bytes) :
    total (list Route * gset bytes) :=
  match policies with
  | [] => Ok ([], sources)
  | policy :: policies =>
      let! rule := go_index (po_Rules policy) 0 in
      let peers := if is_peer_resource (pr_SourceResource rule) then [res_ID (pr_SourceResource rule)]
                   else c_getUniquePeerIDsFromGroupsIDs c (SourceGroups policy) in
      if addSourcePeers then
        c_resource_policies c peerID resource routing addSourcePeers policies
          (sources ∪ list_to_set (c_getPostureValidPeers c peers (po_SourcePostureChecks policy)))
      else if bool_decide (peerID ∈ peers) && ValidatePostureChecksOnPeer c peerID (po_SourcePostureChecks policy) then
        Ok (map_to_list routing ≫= λ kr, c_getNetworkResourcesRoutes c resource kr.1 kr.2, sources)
      else c_resource_policies c peerID resource routing addSourcePeers policies sources
  end.

Fixpoint c_resources_loop (c : NetworkMapComponents) (peerID : bytes) (resources : list NetworkResource)
    (st : bool * list Route * gset bytes) : total (bool * list Route * gset bytes) :=
  match resources with
  | [] => Ok st
  | resource :: resources =>
      let '(isRouting, routes, sources) := st in
      if negb (nres_Enabled resource) then c_resources_loop c peerID resources st
      else
        let routing := default ∅ (c_RoutersMap c !! nres_NetworkID resource) in
        let '(isRouting, addSource, routes) :=
          match routing !! peerID with
          | Some router => (true, true, routes ++ c_getNetworkResourcesRoutes c resource peerID router)
          | None => (isRouting, false, routes)
          end in
        let! (more, sources) := c_resource_policies c peerID resource routing addSource
                                  (default [] (c_ResourcePoliciesMap c !! nres_ID resource)) sources in
        c_resources_loop c peerID resources (isRouting, routes ++ more, sources)
  end.

Definition c_getNetworkResourcesRoutesToSync (c : NetworkMapComponents) (peerID : bytes) :
    total (bool * list Route * gset bytes) :=
  c_resources_loop c peerID (c_NetworkResources c) (false, [], ∅).

Definition c_getPoliciesSourcePeers (c : NetworkMapComponents) (policies : list Policy) : gset bytes :=
  list_to_set (policies ≫= λ policy, po_Rules policy ≫= λ rule,
    c_group_members c (pr_Sources rule) ++
    (if is_peer_resource (pr_SourceResource rule) then [res_ID (pr_SourceResource rule)] else [])).

Definition c_getPeerNetworkResourceFirewallRules (c : NetworkMapComponents) (peerID : bytes) (routes : list Route) :
    list RouteFirewallRule :=
  match GetPeerInfo c peerID with
  | None => []
  | Some peer =>
      List.filter (λ r, bytes_eqb (rt_Peer r) (Key peer)) routes ≫= λ route,
        let policies := default [] (c_ResourcePoliciesMap c !! GetResourceID route) in
        List.filter (λ r, negb (empty (rfr_SourceRanges r)))
          (c_getRouteFirewallRules c peerID policies route (c_getPoliciesSourcePeers c policies))
  end.

Definition c_addNetworksRoutingPeers (c : NetworkMapComponents) (routes : list Route) (peerID : bytes)
    (peersToConnect expiredPeers : list Peer) (isRouter : bool) (sourcePeers : gset bytes) : list Peer :=
  let known : gset bytes := {[peerID]} ∪ list_to_set (ID <$> peersToConnect ++ expiredPeers) in
  let missing := ((if isRouter then sourcePeers else ∅) ∪ list_to_set (rt_PeerID <$> routes)) ∖ known in
  peersToConnect ++ omap (info c) (elements missing).

(** ** Calculation: the map *)

Definition getPeerDNSManagementStatusFromGroups (c : NetworkMapComponents) (peerGroups : gset bytes) : bool :=
  forallb (λ g, negb (bool_decide (g ∈ peerGroups))) (c_DisabledManagementGroups c).

(** [peerIsNameserver]: here the addresses are compared as text. *)
Definition c_peerIsNameserver (ip : bytes) (g : NameServerGroup) : bool :=
  existsb (λ ns, bytes_eqb ip (Addr_String (ns_IP ns))) (ns_NameServers g).

Definition getPeerNSGroupsFromGroups (c : NetworkMapComponents) (peerID : bytes) (groups : gset bytes) :
    list NameServerGroup :=
  match GetPeerInfo c peerID with
  | None => []
  | Some peer =>
      List.filter (λ g, ns_Enabled g && existsb (λ gid, bool_decide (gid ∈ groups)) (ns_Groups g) &&
                        negb (c_peerIsNameserver (IP_String (IP peer)) g)) (c_NameServerGroups c)
  end.

Definition Calculate (c : NetworkMapComponents) (now : Z) : total NetworkMap :=
  let peerID := c_PeerID c in
  let peerGroups := c_GetPeerGroups c peerID in
  let '(aclPeers, firewallRules, users, ssh) := getPeerConnectionResources c peerID in
  let expiredPeers := List.filter (is_expired (c_AccountSettings c) now) aclPeers in
  let peersToConnect := List.filter (λ p, negb (is_expired (c_AccountSettings c) now p)) aclPeers in
  let routesUpdate := c_getRoutesToSync c peerID peersToConnect peerGroups in
  let routesRules := c_getPeerRoutesFirewallRules c peerID in
  let! (isRouter, resourceRoutes, sourcePeers) := c_getNetworkResourcesRoutesToSync c peerID in
  let resourceRules := if (isRouter : bool) then c_getPeerNetworkResourceFirewallRules c peerID resourceRoutes else [] in
  let peers := c_addNetworksRoutingPeers c resourceRoutes peerID peersToConnect expiredPeers isRouter sourcePeers in
  let dns :=
    if getPeerDNSManagementStatusFromGroups c peerGroups then
      mkDNSConfig true (getPeerNSGroupsFromGroups c peerID peerGroups)
        ((if negb (empty (c_CustomZoneDomain c)) && negb (empty (c_AllDNSRecords c))
          then [mkCustomZone (c_CustomZoneDomain c) (c_AllDNSRecords c) false false] else []) ++ c_AccountZones c)
    else no_dns in
  Ok (mkNetMap peers (c_Network c) (Some <$> resourceRoutes ++ routesUpdate) dns expiredPeers firewallRules
        (resourceRules ++ routesRules) users ssh).

Definition GetPeerNetworkMapFromComponents (a : Account) (peerID : bytes) (zone : CustomZone) (zones : list Zone)
    (validated : gset bytes) (resourcePolicies : gmap bytes (list Policy))
    (routers : gmap bytes (gmap bytes NetworkRouter)) (groupUsers : gmap bytes (list bytes)) (now : Z) :
    total NetworkMap :=
  let! c := GetPeerNetworkMapComponents a peerID zone zones validated resourcePolicies routers groupUsers in
  match c with
  | None => Ok (empty_map (a_Network a))
  | Some c => Calculate c now
  end.
End Components.
