(* ===== verification/NetMapEquiv.v ===== *)
(** * The components give the same connections

    The reduced data of [NetMapComponents] give a peer the same peers, firewall
    rules and SSH users as the whole account of [PeerPolicy], under the conditions
    of [reducible].  The reduction is followed through its loops with an invariant
    on the gathered peers, groups and posture failures ([sound]), an order in which
    they grow ([grows]) and what is complete after a rule ([covered]). *)

From stdpp Require Import base list gmap strings.
From S2P Require Import Prelude GoStd GoStrings NetIP FirewallRules AclManager Routes Peers Posture PolicyTypes Account PeerPolicy NetworkMap NetMapComponents.

#[local] Open Scope go_scope.

Section Equivalence.
Context `{GoVersion Version}.

(** ** Conditions *)

(** The account is well formed; the groups that rules and routes name exist; no
    peer is the embedded peer of a proxy; a peer that a rule names is validated;
    posture checks have ids. *)
Record reducible (a : Account) (validated : gset bytes) (resourcePolicies : gmap bytes (list Policy)) : Prop := {
  rd_wf : account_wf a;
  rd_rule_groups : ∀ policy rule gid, policy ∈ a_Policies a → rule ∈ po_Rules policy →
    gid ∈ pr_Sources rule ++ pr_Destinations rule → is_Some (a_Groups a !! gid);
  rd_route_groups : ∀ id r gid, a_Routes a !! id = Some r → gid ∈ route_groups r → is_Some (a_Groups a !! gid);
  rd_embedded : ∀ id p, a_Peers a !! id = Some p → Embedded (Peer_ProxyMeta p) = false;
  rd_resources : ∀ policy rule res, policy ∈ a_Policies a → rule ∈ po_Rules policy →
    res = pr_SourceResource rule ∨ res = pr_DestinationResource rule → is_peer_resource res = true →
    is_Some (a_Peers a !! res_ID res) → res_ID res ∈ validated;
  rd_checks : ∀ policy, policy ∈ a_Policies a → [] ∉ po_SourcePostureChecks policy;
  rd_rules : ∀ id ps p, resourcePolicies !! id = Some ps → p ∈ ps → po_Rules p ≠ []
}.

Section Reduction.
Context (a : Account) (validated : gset bytes) (resourcePolicies : gmap bytes (list Policy)).
Context (Hred : reducible a validated resourcePolicies) (me : bytes).

Lemma all_members gid g id :
  a_Groups a !! gid = Some g → IsGroupAll g = true → is_Some (a_Peers a !! id) → id ∈ g_Peers g.
Proof using Hred.
  intros Hg Ha [p Hp]. by apply (wf_all a (rd_wf _ _ _ Hred) gid g id p); [..|apply (rd_embedded _ _ _ Hred id)].
Qed.

(** ** Posture checks *)

Definition good (checks : list bytes) (id : bytes) : Prop :=
  id ∈ validated ∧ validatePostureChecksOnPeer a checks id = true.

Definition has (failed : gmap bytes (gset bytes)) (check id : bytes) : Prop := id ∈ default ∅ (failed !! check).

Lemma has_save failed check id check' id' :
  has (save_failed failed check id) check' id' ↔ (check' = check ∧ id' = id) ∨ has failed check' id'.
Proof using Type.
  unfold has, save_failed. destruct (decide (check = check')) as [<-|Hne].
  - rewrite lookup_insert_eq. simpl. rewrite elem_of_union, elem_of_singleton. naive_solver.
  - rewrite lookup_insert_ne by done. naive_solver.
Qed.

Lemma posture_passes checks id p :
  a_Peers a !! id = Some p →
  validatePostureChecksOnPeer a checks id = true ↔ ∀ c, c ∈ checks → passes a c p = true.
Proof using Type.
  intros Hp. unfold validatePostureChecksOnPeer, GetPeer. rewrite Hp. rewrite forallb_forall.
  by setoid_rewrite <- list_elem_of_In.
Qed.

Lemma good_peer checks id : good checks id → is_Some (a_Peers a !! id).
Proof using Type.
  intros [_ Hv]. unfold validatePostureChecksOnPeer, GetPeer in Hv. by destruct (a_Peers a !! id).
Qed.

(** The first failing check, when there is one. *)
Lemma get_failed checks id p :
  a_Peers a !! id = Some p →
  (validatePostureChecksOnPeer a checks id = true ∧ validatePostureChecksOnPeerGetFailed a checks id = (true, [])) ∨
  (validatePostureChecksOnPeer a checks id = false ∧
   ∃ c, c ∈ checks ∧ passes a c p = false ∧ validatePostureChecksOnPeerGetFailed a checks id = (false, c)).
Proof using Type.
  intros Hp. unfold validatePostureChecksOnPeerGetFailed. rewrite Hp.
  destruct (List.find _ checks) as [c|] eqn:Ef.
  - apply find_some in Ef as [Hc Hf%negb_true_iff]. right. apply list_elem_of_In in Hc. split; [|by exists c].
    apply not_true_iff_false. rewrite (posture_passes _ _ p Hp). intros Hall. by rewrite Hall in Hf.
  - left. split; [|done]. apply (posture_passes _ _ p Hp). intros c Hc%list_elem_of_In.
    apply (find_none _ _ Ef), negb_false_iff in Hc. done.
Qed.

(** ** The members of groups *)

(** [scanned P checks F st]: the state of [getPeersFromGroups] after the ids of
    [P], from the failures [F]. *)
Record scanned (P : bytes → Prop) (checks : list bytes) (F : gmap bytes (gset bytes)) (st : list bytes * bool * gmap bytes (gset bytes)) : Prop := {
  sc_ids : ∀ x, x ∈ st.1.1 ↔ P x ∧ good checks x ∧ x ≠ me;
  sc_in : st.1.2 = true ↔ P me ∧ good checks me;
  sc_grow : ∀ c id, has F c id → has st.2 c id;
  sc_sound : ∀ c id, has st.2 c id → has F c id ∨ ∃ p, a_Peers a !! id = Some p ∧ passes a c p = false;
  sc_complete : ∀ id p, P id → id ∈ validated → a_Peers a !! id = Some p → validatePostureChecksOnPeer a checks id = false →
    ∃ c, c ∈ checks ∧ has st.2 c id
}.

Lemma scanned_ext (P Q : bytes → Prop) checks F st :
  (∀ x, is_Some (a_Peers a !! x) → P x ↔ Q x) → scanned P checks F st → scanned Q checks F st.
Proof using Type.
  intros HPQ [H1 H2 H3 H4 H5]. split; [| |done|done|].
  - intros x. rewrite H1. split; intros (HP & Hg & ?); (split_and!; [|done..]); apply (HPQ x); eauto using good_peer.
  - rewrite H2. split; intros (HP & Hg); (split; [|done]); apply (HPQ me); eauto using good_peer.
  - intros id p HQ Hv Hp. apply (H5 id p); [|done..]. apply HPQ; eauto.
Qed.

Lemma scanned_peer P checks F st pid :
  [] ∉ checks → scanned P checks F st → scanned (λ x, P x ∨ x = pid) checks F (scan_peer a me checks validated st pid).
Proof using Hred.
  intros Hne Hst. destruct st as [[ids isIn] failed]. unfold scan_peer.
  destruct (a_Peers a !! pid) as [p|] eqn:Ep.
  2: { eapply scanned_ext, Hst. intros x Hx. split; [by left|]. intros [?| ->]; [done|]. rewrite Ep in Hx. by destruct Hx. }
  rewrite (wf_peers a (rd_wf _ _ _ Hred) pid p Ep). case_bool_decide as Hv; simpl.
  2: { destruct Hst as [H1 H2 H3 H4 H5]. simpl in *. split; simpl; [..|by eauto|by eauto|].
       - intros x. rewrite H1. split; [naive_solver|]. intros ([?| ->] & [? ?] & ?); [done|contradiction].
       - rewrite H2. split; [naive_solver|]. intros ([?| ->] & [? ?]); [done|contradiction].
       - intros id q [HP| ->] Hval; [by apply (H5 id q)|contradiction]. }
  destruct Hst as [H1 H2 H3 H4 H5]. simpl in *.
  destruct (get_failed checks pid p Ep) as [[Hok ->]|(Hbad & c & Hc & Hf & ->)]; cbn [negb andb].
  - assert (Hcomp : ∀ id q, P id ∨ id = pid → id ∈ validated → a_Peers a !! id = Some q →
        validatePostureChecksOnPeer a checks id = false → ∃ c, c ∈ checks ∧ has failed c id).
    { intros id q [HP| ->] Hval Hq Hp; [by apply (H5 id q)|congruence]. }
    assert (Hg : good checks pid) by done. destruct (bytes_eqb pid me) eqn:Eme.
    + apply bytes_eqb_spec in Eme as ->. split; simpl; [..|done|done|done].
      * intros x. rewrite H1. tauto.
      * split; auto.
    + apply bytes_eqb_false in Eme. split; simpl; [..|done|done|done].
      * intros x. rewrite elem_of_app, list_elem_of_singleton, H1. split; [intros [?| ->]; tauto|tauto].
      * rewrite H2. split; [tauto|]. intros ([?| ->] & ?); tauto.
  - destruct c as [|b c]; [done|]. cbn [empty negb]. assert (Hg : ¬ good checks pid) by (intros [_ ?]; congruence). split; simpl.
    + intros x. rewrite H1. split; [tauto|]. intros ([?| ->] & ?); tauto.
    + rewrite H2. split; [tauto|]. intros ([?| ->] & ?); tauto.
    + intros c' id Hh. apply has_save. auto.
    + intros c' id [[-> ->]|Hh]%has_save; [right; eauto|by apply H4].
    + intros id q [HP| ->] Hval Hq Hp.
      * destruct (H5 id q) as (c' & ? & ?); [done..|]. exists c'. rewrite has_save. auto.
      * exists (b :: c). rewrite has_save. auto.
Qed.

Lemma scanned_peers P checks F st l :
  [] ∉ checks → scanned P checks F st →
  scanned (λ x, P x ∨ x ∈ l) checks F (foldl (scan_peer a me checks validated) st l).
Proof using Hred.
  intros Hne. revert P st. induction l as [|pid l IH]; intros P st Hst; simpl.
  - eapply scanned_ext, Hst. intros x _. rewrite elem_of_nil. tauto.
  - eapply scanned_ext, (IH (λ x, P x ∨ x = pid)), scanned_peer; [|done..]. intros x _. rewrite elem_of_cons. tauto.
Qed.

Lemma elem_of_unseen seen l x : x ∈ unseen seen l ↔ x ∈ l ∧ x ∉ seen.
Proof using Type.
  revert seen. induction l as [|y l IH]; intros seen; simpl; [rewrite elem_of_nil; tauto|].
  case_bool_decide as Hy; rewrite ?elem_of_cons, IH, ?elem_of_cons; [naive_solver|].
  rewrite elem_of_union, elem_of_singleton. destruct (decide (x = y)) as [->|]; tauto.
Qed.

Lemma scanned_reset P checks F st : scanned P checks F st → scanned (λ _, False) checks F ([], false, st.2).
Proof using Type.
  intros [H1 H2 H3 H4 H5]. split; simpl; [..|done|done|done].
  - intros x. rewrite elem_of_nil. tauto.
  - split; [done|tauto].
Qed.

Lemma scanned_groups single checks F groups seen st :
  [] ∉ checks → (single = true → length groups ≤ 1)%nat → (single = true → seen = ∅) →
  scanned (.∈ seen) checks F st →
  scanned (λ x, x ∈ seen ∨ x ∈ group_members a groups) checks F (scan_groups a me checks validated single groups seen st).
Proof using Hred.
  intros Hne. revert seen st. induction groups as [|gid groups IH]; intros seen st Hlen Hseen Hst.
  { eapply scanned_ext, Hst. intros x _. simpl. rewrite elem_of_nil. tauto. }
  cbn [scan_groups]. unfold GetGroup at 1. destruct (a_Groups a !! gid) as [g|] eqn:Eg.
  2: { eapply scanned_ext, IH; [|simpl in Hlen; intros; specialize (Hlen ltac:(done)); lia|done..].
       intros x _. unfold group_members. csimpl. unfold GetGroup at 2. by rewrite Eg. }
  assert (Hm : ∀ x, x ∈ group_members a (gid :: groups) ↔ x ∈ g_Peers g ∨ x ∈ group_members a groups).
  { intros x. unfold group_members. csimpl. unfold GetGroup at 1. rewrite Eg. by rewrite elem_of_app. }
  destruct (IsGroupAll g || single) eqn:Ea.
  - eapply scanned_ext, scanned_peers, scanned_reset; [|done..]. intros x Hx. simpl. rewrite Hm.
    apply orb_true_iff in Ea as [Ea| ->].
    + pose proof (all_members gid g x Eg Ea Hx). tauto.
    + rewrite Hseen by done. simpl in Hlen. destruct groups; [|specialize (Hlen eq_refl); simpl in Hlen; lia].
      unfold group_members. simpl. rewrite elem_of_empty, elem_of_nil. tauto.
  - apply orb_false_iff in Ea as [_ ->].
    eapply scanned_ext, IH; [|done..|].
    + intros x _. rewrite Hm, elem_of_union, elem_of_list_to_set. tauto.
    + eapply scanned_ext, scanned_peers; [|done..]. intros x _. simpl.
      rewrite elem_of_unseen, elem_of_union, elem_of_list_to_set. destruct (decide (x ∈ seen)); tauto.
Qed.

Lemma scanned_from_groups checks F groups :
  [] ∉ checks → scanned (λ x, x ∈ group_members a groups) checks F (getPeersFromGroups a groups me checks validated F).
Proof using Hred.
  intros Hne. eapply scanned_ext, scanned_groups; [|done|..].
  - intros x _. simpl. rewrite elem_of_empty. tauto.
  - intros Hl%Nat.eqb_eq. lia.
  - done.
  - split; simpl; [..|done|by left|].
    + intros x. rewrite elem_of_nil, elem_of_empty. tauto.
    + rewrite elem_of_empty. split; [done|tauto].
    + intros id p Hid. by apply elem_of_empty in Hid.
Qed.

(** ** The sides of a rule *)

(** The ids on a side: the peer it names, or the members of its groups that
    are validated and pass the checks. *)
Definition id_on_side (res : Resource) (groups checks : list bytes) (id : bytes) : Prop :=
  if is_peer_resource res then id = res_ID res else id ∈ group_members a groups ∧ good checks id.

Definition on_src (policy : Policy) (rule : PolicyRule) : bytes → Prop :=
  id_on_side (pr_SourceResource rule) (pr_Sources rule) (po_SourcePostureChecks policy).

Definition on_dst (rule : PolicyRule) : bytes → Prop := id_on_side (pr_DestinationResource rule) (pr_Destinations rule) [].

Lemma side_ids_spec res groups checks q :
  on_side a validated res groups checks q ↔ a_Peers a !! ID q = Some q ∧ id_on_side res groups checks (ID q).
Proof using Hred.
  unfold on_side, id_on_side, good. destruct (is_peer_resource res); [done|]. rewrite elem_of_members.
  split; intros [Hq Hs]; pose proof (rd_embedded _ _ _ Hred _ q Hq); pose proof (validate_meets a checks q Hq); tauto.
Qed.

Lemma src_side_ids policy rule q :
  q ∈ src_side a validated policy rule ↔ a_Peers a !! ID q = Some q ∧ on_src policy rule (ID q).
Proof using Hred.
  rewrite (src_side_spec a (rd_wf _ _ _ Hred)). unfold is_source, on_src. apply side_ids_spec.
Qed.

Lemma dst_side_ids rule q :
  q ∈ dst_side a validated rule ↔ a_Peers a !! ID q = Some q ∧ on_dst rule (ID q).
Proof using Hred.
  rewrite (dst_side_spec a (rd_wf _ _ _ Hred)). unfold is_destination, on_dst. apply side_ids_spec.
Qed.

(** What [side_ids] returns. *)
Record side_found (res : Resource) (groups checks : list bytes) (F : gmap bytes (gset bytes))
    (st : list bytes * bool * gmap bytes (gset bytes)) : Prop := {
  sf_ids : ∀ x, x ∈ st.1.1 → id_on_side res groups checks x;
  sf_all : ∀ x, id_on_side res groups checks x → x ≠ me → x ∈ st.1.1;
  sf_in : st.1.2 = true ↔ id_on_side res groups checks me;
  sf_grow : ∀ c id, has F c id → has st.2 c id;
  sf_sound : ∀ c id, has st.2 c id → has F c id ∨ ∃ p, a_Peers a !! id = Some p ∧ passes a c p = false;
  sf_complete : is_peer_resource res = false → ∀ id p, id ∈ group_members a groups → id ∈ validated →
    a_Peers a !! id = Some p → validatePostureChecksOnPeer a checks id = false → ∃ c, c ∈ checks ∧ has st.2 c id
}.

Lemma side_ids_found res groups checks F :
  [] ∉ checks → side_found res groups checks F (side_ids a res groups me checks validated F).
Proof using Hred.
  intros Hne. unfold side_ids. destruct (is_peer_resource res) eqn:Er.
  - split; simpl; unfold id_on_side; rewrite ?Er; [| | |done|by left|done].
    + by intros x ->%list_elem_of_singleton.
    + intros x -> _. by left.
    + rewrite bytes_eqb_spec. split; congruence.
  - destruct (scanned_from_groups checks F groups Hne) as [H1 H2 H3 H4 H5].
    split; unfold id_on_side; rewrite ?Er; [| |done..|by intros _]; intros x; rewrite H1; tauto.
Qed.

(** ** Invariants of the reduction *)

Abbreviation peer_map := (gmap bytes (option Peer)).

Abbreviation group_map := (gmap bytes (option Group)).

Abbreviation failures := (gmap bytes (gset bytes)).

Definition peers_ok (P : peer_map) : Prop :=
  ∀ id v, P !! id = Some v → v = a_Peers a !! id ∧ (is_Some v → id ∈ validated).

Definition groups_ok (G : group_map) : Prop := ∀ gid v, G !! gid = Some v → v = a_Groups a !! gid ∧ is_Some v.

Definition failed_ok (F : failures) : Prop := ∀ c id p, has F c id → a_Peers a !! id = Some p → passes a c p = false.

Record sound (P : peer_map) (G : group_map) (F : failures) : Prop := {
  so_peers : peers_ok P;
  so_groups : groups_ok G;
  so_failed : failed_ok F
}.

Record grows (P : peer_map) (G : group_map) (F : failures) (P' : peer_map) (G' : group_map) (F' : failures) : Prop := {
  gr_peers : ∀ id, is_Some (P !! id) → is_Some (P' !! id);
  gr_groups : ∀ gid, is_Some (G !! gid) → is_Some (G' !! gid);
  gr_failed : ∀ c id, has F c id → has F' c id
}.

Lemma grows_refl P G F : grows P G F P G F.
Proof using Type. by split. Qed.

Lemma grows_trans P G F P' G' F' P2 G2 F2 : grows P G F P' G' F' → grows P' G' F' P2 G2 F2 → grows P G F P2 G2 F2.
Proof using Type. intros [] []. split; eauto. Qed.

(** What the reduction has for a rule. *)
Record covered (policy : Policy) (rule : PolicyRule) (P : peer_map) (G : group_map) (F : failures) : Prop := {
  cv_src : on_src policy rule me →
    (∀ x, on_dst rule x → is_Some (P !! x)) ∧ (∀ gid, gid ∈ pr_Destinations rule → is_Some (G !! gid));
  cv_dst : on_dst rule me →
    (∀ x, on_src policy rule x → is_Some (P !! x)) ∧ (∀ gid, gid ∈ pr_Sources rule → is_Some (G !! gid));
  cv_failed : is_peer_resource (pr_SourceResource rule) = false → ∀ id p,
    id ∈ group_members a (pr_Sources rule) → id ∈ validated → a_Peers a !! id = Some p →
    validatePostureChecksOnPeer a (po_SourcePostureChecks policy) id = false →
    ∃ c, c ∈ po_SourcePostureChecks policy ∧ has F c id
}.

Lemma covered_grows policy rule P G F P' G' F' :
  covered policy rule P G F → grows P G F P' G' F' → covered policy rule P' G' F'.
Proof using Type.
  intros [H1 H2 H3] [G1 G2 G3]. split.
  - intros [? ?]%H1. split; auto.
  - intros [? ?]%H2. split; auto.
  - intros Hr id p Hm Hv Hp Hf. destruct (H3 Hr id p Hm Hv Hp Hf) as (c & ? & ?). eauto.
Qed.

Lemma lookup_add_peers ids P id : add_peers a ids P !! id = if decide (id ∈ ids) then Some (a_Peers a !! id) else P !! id.
Proof using Type.
  revert P. induction ids as [|x ids IH]; intros P; cbn [add_peers foldl].
  { rewrite decide_False; [done|apply not_elem_of_nil]. }
  fold (add_peers a ids (<[x := GetPeer a x]> P)). rewrite IH. destruct (decide (id ∈ ids)).
  - by rewrite decide_True by (by right).
  - destruct (decide (x = id)) as [<-|Hne].
    + rewrite lookup_insert_eq, decide_True by (by left). done.
    + rewrite lookup_insert_ne by done. rewrite decide_False; [done|]. by intros [?|?]%elem_of_cons.
Qed.

Lemma lookup_add_groups ids G id : add_groups a ids G !! id = if decide (id ∈ ids) then Some (a_Groups a !! id) else G !! id.
Proof using Type.
  revert G. induction ids as [|x ids IH]; intros G; cbn [add_groups foldl].
  { rewrite decide_False; [done|apply not_elem_of_nil]. }
  fold (add_groups a ids (<[x := GetGroup a x]> G)). rewrite IH. destruct (decide (id ∈ ids)).
  - by rewrite decide_True by (by right).
  - destruct (decide (x = id)) as [<-|Hne].
    + rewrite lookup_insert_eq, decide_True by (by left). done.
    + rewrite lookup_insert_ne by done. rewrite decide_False; [done|]. by intros [?|?]%elem_of_cons.
Qed.

Lemma add_peers_ok ids P :
  peers_ok P → (∀ x, x ∈ ids → is_Some (a_Peers a !! x) → x ∈ validated) → peers_ok (add_peers a ids P).
Proof using Type.
  intros HP Hids id v. rewrite lookup_add_peers. destruct (decide (id ∈ ids)); [|apply HP]. intros [= <-]. split; [done|]. by apply Hids.
Qed.

Lemma add_groups_ok ids G :
  groups_ok G → (∀ x, x ∈ ids → is_Some (a_Groups a !! x)) → groups_ok (add_groups a ids G).
Proof using Type.
  intros HG Hids id v. rewrite lookup_add_groups. destruct (decide (id ∈ ids)); [|apply HG]. intros [= <-]. split; [done|]. by apply Hids.
Qed.

Lemma add_peers_some ids P x : is_Some (P !! x) ∨ x ∈ ids → is_Some (add_peers a ids P !! x).
Proof using Type. rewrite lookup_add_peers. destruct (decide (x ∈ ids)); [eauto|by intros [?|?]]. Qed.

Lemma add_groups_some ids G x : is_Some (G !! x) ∨ x ∈ ids → is_Some (add_groups a ids G !! x).
Proof using Type. rewrite lookup_add_groups. destruct (decide (x ∈ ids)); [eauto|by intros [?|?]]. Qed.

Lemma side_validated policy rule res groups checks x :
  policy ∈ a_Policies a → rule ∈ po_Rules policy → res = pr_SourceResource rule ∨ res = pr_DestinationResource rule →
  id_on_side res groups checks x → is_Some (a_Peers a !! x) → x ∈ validated.
Proof using Hred.
  intros Hp Hr Hres Hx Hpeer. unfold id_on_side in Hx. destruct (is_peer_resource res) eqn:E.
  - subst x. by apply (rd_resources _ _ _ Hred policy rule res).
  - by destruct Hx as [_ [? _]].
Qed.

(** ** One rule *)

Definition uses_allowed (sshEnabled : bool) (rule : PolicyRule) : bool :=
  if bytes_eqb (pr_Protocol rule) PolicyRuleProtocolNetbirdSSH
  then bool_decide (pr_AuthorizedGroups rule = ∅) && empty (pr_AuthorizedUser rule)
  else policyRuleImpliesLegacySSH rule && sshEnabled.

(** The users that the SSH server needs for a rule are there. *)
Definition ssh_covered (sshEnabled : bool) (rule : PolicyRule) (needed : gset bytes) (allowed : bool) : Prop :=
  on_dst rule me →
  (pr_Protocol rule = PolicyRuleProtocolNetbirdSSH → dom (pr_AuthorizedGroups rule) ⊆ needed) ∧
  (uses_allowed sshEnabled rule = true → allowed = true).

Lemma ssh_needs_grow sshEnabled rule needed allowed :
  let r := ssh_needs rule sshEnabled needed allowed in needed ⊆ r.1 ∧ (allowed = true → r.2 = true).
Proof using Type. clear Hred. cbn zeta. unfold ssh_needs. repeat case_if; simpl; split; (done || set_solver). Qed.

Lemma ssh_needs_covered sshEnabled rule needed allowed :
  let r := ssh_needs rule sshEnabled needed allowed in ssh_covered sshEnabled rule r.1 r.2.
Proof using Type.
  clear Hred. cbn zeta. intros _. unfold ssh_needs, uses_allowed. destruct (bytes_eqb (pr_Protocol rule) _) eqn:Ep.
  - case_bool_decide as Eg; simpl.
    + rewrite Eg. destruct (empty (pr_AuthorizedUser rule)); simpl; (split; [intros _; rewrite dom_empty_L; set_solver|done]).
    + split; [set_solver|done].
  - apply bytes_eqb_false in Ep. split; [done|]. by intros ->.
Qed.

Abbreviation rv_sound rv := (sound (rv_peers rv) (rv_groups rv) (rv_failed rv)).

Record extends (rv rv' : relevant) : Prop := {
  ex_grows : grows (rv_peers rv) (rv_groups rv) (rv_failed rv) (rv_peers rv') (rv_groups rv') (rv_failed rv');
  ex_needed : rv_neededGroupIDs rv ⊆ rv_neededGroupIDs rv';
  ex_allowed : rv_needAllowedUserIDs rv = true → rv_needAllowedUserIDs rv' = true
}.

Lemma extends_refl rv : extends rv rv.
Proof using Type. split; [apply grows_refl|done..]. Qed.

Lemma extends_trans rv1 rv2 rv3 : extends rv1 rv2 → extends rv2 rv3 → extends rv1 rv3.
Proof using Type. intros [] []. split; [by eapply grows_trans|by etrans|auto]. Qed.

Definition rule_done (sshEnabled : bool) (policy : Policy) (rv : relevant) (rule : PolicyRule) : Prop :=
  covered policy rule (rv_peers rv) (rv_groups rv) (rv_failed rv) ∧
  ssh_covered sshEnabled rule (rv_neededGroupIDs rv) (rv_needAllowedUserIDs rv).

Lemma rule_done_extends sshEnabled policy rv rv' rule :
  rule_done sshEnabled policy rv rule → extends rv rv' → rule_done sshEnabled policy rv' rule.
Proof using Type.
  intros [Hc Hs] [Hg Hn Ha]. split; [by eapply covered_grows|].
  intros Hd. destruct (Hs Hd) as [H1 H2]. split; [intros E; etrans; [exact (H1 E)|done]|auto].
Qed.


Lemma add_side_step policy rule (peerIsIn : bool) res checks ids groups P G F :
  policy ∈ a_Policies a → rule ∈ po_Rules policy → res = pr_SourceResource rule ∨ res = pr_DestinationResource rule →
  (∀ x, x ∈ ids → id_on_side res groups checks x) → (∀ x, x ∈ groups → is_Some (a_Groups a !! x)) → sound P G F →
  let pg := add_side a peerIsIn ids groups (P, G) in
  sound pg.1 pg.2 F ∧ grows P G F pg.1 pg.2 F ∧
  (peerIsIn = true → (∀ x, x ∈ ids → is_Some (pg.1 !! x)) ∧ (∀ gid, gid ∈ groups → is_Some (pg.2 !! gid))).
Proof using Hred.
  intros Hpol Hrule Hres Hids Hgr [HP HG HF]. cbn zeta. unfold add_side. destruct peerIsIn; simpl.
  2: split_and!; [done|apply grows_refl|done].
  split_and!.
  - split; [|by apply add_groups_ok|done]. apply add_peers_ok; [done|].
    intros x Hx. eapply side_validated; eauto.
  - split; [| |done]; intros x Hx; [apply add_peers_some|apply add_groups_some]; by left.
  - intros _. split; intros x Hx; [apply add_peers_some|apply add_groups_some]; by right.
Qed.

Lemma add_route_groups_step rule (b : bool) P G F :
  (∀ gid, gid ∈ pr_Sources rule ++ pr_Destinations rule → is_Some (a_Groups a !! gid)) → sound P G F →
  let G' := if b then add_groups a (pr_Destinations rule) (add_groups a (pr_Sources rule) G) else G in
  sound P G' F ∧ grows P G F P G' F.
Proof using Type.
  intros Hgr [HP HG HF]. cbn zeta. destruct b; [|split; [done|apply grows_refl]]. split; split; [done| |done..| |done].
  - do 2 (apply add_groups_ok; [|intros x Hx; apply Hgr, elem_of_app; tauto]). done.
  - intros x Hx. by do 2 (apply add_groups_some; left).
Qed.

Lemma ssh_needs_step (inD sshEnabled : bool) rule needed allowed :
  (on_dst rule me → inD = true) →
  let r := if inD then ssh_needs rule sshEnabled needed allowed else (needed, allowed) in
  needed ⊆ r.1 ∧ (allowed = true → r.2 = true) ∧ ssh_covered sshEnabled rule r.1 r.2.
Proof using Type.
  intros Hd. cbn zeta. destruct inD; simpl.
  - pose proof (ssh_needs_grow sshEnabled rule needed allowed) as [N1 N2]. split_and!; [done..|]. apply ssh_needs_covered.
  - split_and!; [done..|]. intros Hon. by specialize (Hd Hon).
Qed.

Lemma relevant_rule_step sshEnabled policy rule rv b :
  policy ∈ a_Policies a → rule ∈ po_Rules policy → pr_Enabled rule = true → is_Some (rv_peers rv !! me) → rv_sound rv →
  let st := relevant_rule a me sshEnabled validated policy (rv, b) rule in
  rv_sound st.1 ∧ extends rv st.1 ∧ rule_done sshEnabled policy st.1 rule ∧
  (st.2 = false → b = false ∧ ¬ on_src policy rule me ∧ ¬ on_dst rule me).
Proof using Hred.
  intros Hpol Hrule Hen Hme Hso. cbn zeta. unfold relevant_rule. rewrite Hen. cbn [negb].
  assert (Hgr : ∀ gid, gid ∈ pr_Sources rule ++ pr_Destinations rule → is_Some (a_Groups a !! gid)).
  { intros gid. by apply (rd_rule_groups _ _ _ Hred policy). }
  set (byRoute := existsb _ _).
  destruct (add_route_groups_step rule byRoute _ _ _ Hgr Hso) as [So0 Gr0]. set (G0 := if byRoute then _ else _) in *.
  pose proof (side_ids_found (pr_SourceResource rule) (pr_Sources rule) (po_SourcePostureChecks policy) (rv_failed rv)
    (rd_checks _ _ _ Hred policy Hpol)) as Hsrc.
  destruct (side_ids a (pr_SourceResource rule) _ _ _ _ _) as [[srcs inS] F1].
  pose proof (side_ids_found (pr_DestinationResource rule) (pr_Destinations rule) [] F1 (not_elem_of_nil [])) as Hdst.
  destruct (side_ids a (pr_DestinationResource rule) _ _ _ _ _) as [[dsts inD] F2].
  destruct Hsrc as [S1 S2 S3 S4 S5 S6], Hdst as [D1 D2 D3 D4 D5 _]. cbn [fst snd] in *.
  assert (So1 : sound (rv_peers rv) G0 F2).
  { destruct So0 as [? ? HF]. split; [done..|]. intros c id p [[?|(q & ? & ?)]%S5|(q & ? & ?)]%D5; [by eapply HF|congruence..]. }
  destruct (add_side_step policy rule inS (pr_DestinationResource rule) [] dsts (pr_Destinations rule) (rv_peers rv) G0 F2)
    as (So2 & Gr2 & In2); [by auto..| |done|]; [intros; apply Hgr, elem_of_app; by right|].
  destruct (add_side a inS _ _ _) as [P2 G2]. cbn [fst snd] in So2, Gr2, In2.
  destruct (add_side_step policy rule inD (pr_SourceResource rule) (po_SourcePostureChecks policy) srcs (pr_Sources rule) P2 G2 F2)
    as (So3 & Gr3 & In3); [by auto..| |done|]; [intros; apply Hgr, elem_of_app; by left|].
  destruct (add_side a inD _ _ _) as [P3 G3]. cbn [fst snd] in So3, Gr3, In3.
  destruct (ssh_needs_step inD sshEnabled rule (rv_neededGroupIDs rv) (rv_needAllowedUserIDs rv)) as (N1 & N2 & N3); [by apply D3|].
  destruct (if inD then ssh_needs _ _ _ _ else _) as [needed allowed]. cbn [fst snd] in N1, N2, N3 |- *.
  assert (Gr : grows (rv_peers rv) (rv_groups rv) (rv_failed rv) P3 G3 F2).
  { destruct Gr0, Gr2, Gr3. split; eauto. }
  split_and!; [done|by split| |].
  - split; [|done]. destruct Gr3. split; simpl.
    + intros Hon%S3. destruct (In2 Hon) as [I1 I2]. split; [|auto]. intros x Hx.
      destruct (decide (x = me)) as [->|Hne]; [by apply (gr_peers _ _ _ _ _ _ Gr)|]. by apply gr_peers0, I1, D2.
    + intros Hon%D3. destruct (In3 Hon) as [I1 I2]. split; [|auto]. intros x Hx.
      destruct (decide (x = me)) as [->|Hne]; [by apply (gr_peers _ _ _ _ _ _ Gr)|]. by apply I1, S2.
    + intros Hr id p Hm Hv Hp Hf. destruct (S6 Hr id p Hm Hv Hp Hf) as (c & ? & ?). eauto.
  - simpl. rewrite !orb_false_iff. intros [[[-> _] E1] E2]. subst inS inD. split_and!; [done| |].
    + intros Hon%S3. done.
    + intros Hon%D3. done.
Qed.

(** ** All policies *)

Definition untouched (policy : Policy) : Prop :=
  ∀ rule, rule ∈ po_Rules policy → pr_Enabled rule = true → ¬ on_src policy rule me ∧ ¬ on_dst rule me.

Definition policy_done (sshEnabled : bool) (rv : relevant) (policy : Policy) : Prop :=
  ∀ rule, rule ∈ po_Rules policy → pr_Enabled rule = true → rule_done sshEnabled policy rv rule.

Lemma relevant_rules_fold sshEnabled policy rules rv b :
  policy ∈ a_Policies a → (∀ rule, rule ∈ rules → rule ∈ po_Rules policy) → is_Some (rv_peers rv !! me) → rv_sound rv →
  let st := foldl (relevant_rule a me sshEnabled validated policy) (rv, b) rules in
  rv_sound st.1 ∧ extends rv st.1 ∧
  (∀ rule, rule ∈ rules → pr_Enabled rule = true → rule_done sshEnabled policy st.1 rule) ∧
  (st.2 = false → ∀ rule, rule ∈ rules → pr_Enabled rule = true → ¬ on_src policy rule me ∧ ¬ on_dst rule me).
Proof using Hred.
  intros Hpol Hsub Hme Hso. cbn zeta. induction rules as [|rule rules IH] using rev_ind.
  { simpl. split_and!; [done|apply extends_refl|by intros ? ?%elem_of_nil|by intros _ ? ?%elem_of_nil]. }
  rewrite foldl_app. simpl. destruct IH as (I1 & I2 & I3 & I4); [intros; apply Hsub, elem_of_app; by left|].
  destruct (foldl _ _ rules) as [rv1 b1]. cbn [fst snd] in *.
  assert (Hr : rule ∈ po_Rules policy) by (apply Hsub, elem_of_app; right; by left).
  destruct (pr_Enabled rule) eqn:Een.
  - destruct (relevant_rule_step sshEnabled policy rule rv1 b1) as (J1 & J2 & J3 & J4); [done..| |done|].
    { by apply (gr_peers _ _ _ _ _ _ (ex_grows _ _ I2)). }
    split_and!; [done|by eapply extends_trans| |].
    + intros r [Hin| ->%list_elem_of_singleton]%elem_of_app He; [|done]. eapply rule_done_extends; [by apply I3|done].
    + intros E r [Hin| ->%list_elem_of_singleton]%elem_of_app He; destruct (J4 E) as (-> & ? & ?); [by apply I4|done].
  - unfold relevant_rule. rewrite Een. simpl. split_and!; [done..| |].
    + intros r [Hin| ->%list_elem_of_singleton]%elem_of_app He; [by apply I3|congruence].
    + intros E r [Hin| ->%list_elem_of_singleton]%elem_of_app He; [by apply I4|congruence].
Qed.

(** The policies that matter, in their order: the others do not touch the peer. *)
Inductive kept : list Policy → list Policy → Prop :=
| kept_nil : kept [] []
| kept_keep p ps l : kept ps l → kept (p :: ps) (p :: l)
| kept_drop p ps l : (po_Enabled p = true → untouched p) → kept ps l → kept ps (p :: l).

Lemma relevant_policies_spec sshEnabled policies rv :
  (∀ p, p ∈ policies → p ∈ a_Policies a) → is_Some (rv_peers rv !! me) → rv_sound rv →
  let r := relevant_policies a me sshEnabled validated policies rv in
  rv_sound r.2 ∧ extends rv r.2 ∧ kept r.1 policies ∧
  (∀ p, p ∈ policies → po_Enabled p = true → policy_done sshEnabled r.2 p).
Proof using Hred.
  intros Hsub. revert rv. induction policies as [|p policies IH]; intros rv Hme Hso; cbn [relevant_policies].
  { split_and!; [done|apply extends_refl|constructor|by intros ? ?%elem_of_nil]. }
  assert (Hp : p ∈ a_Policies a) by (apply Hsub; by left).
  specialize (IH ltac:(intros; apply Hsub; by right)). destruct (po_Enabled p) eqn:Een; cbn [negb].
  2: { destruct (IH rv Hme Hso) as (I1 & I2 & I3 & I4). split_and!; [done..| |].
       - apply kept_drop; [congruence|done].
       - intros q [->|Hq]%elem_of_cons E; [congruence|by apply I4]. }
  destruct (relevant_rules_fold sshEnabled p (po_Rules p) rv false) as (J1 & J2 & J3 & J4); [done..|].
  destruct (foldl _ _ (po_Rules p)) as [rv1 b]. cbn [fst snd] in *.
  destruct (IH rv1) as (I1 & I2 & I3 & I4); [by apply (gr_peers _ _ _ _ _ _ (ex_grows _ _ J2))|done|].
  destruct (relevant_policies _ _ _ _ policies rv1) as [more rv2]. cbn [fst snd] in *.
  split_and!; [done|by eapply extends_trans| |].
  - destruct b; [by apply kept_keep|]. apply kept_drop; [|done]. intros _ rule Hr He. by apply J4.
  - intros q [->|Hq]%elem_of_cons E; [|by apply I4]. intros rule Hr He. eapply rule_done_extends; [by apply J3|done].
Qed.

Lemma first_relevant_sound t :
  a_Peers a !! me = Some t → me ∈ validated →
  let rv := first_relevant a me ∅ in
  rv_sound rv ∧ is_Some (rv_peers rv !! me) ∧
  (∀ gid g, a_Groups a !! gid = Some g → me ∈ g_Peers g → is_Some (rv_groups rv !! gid)).
Proof using Hred.
  intros Ht Hv. cbn zeta. unfold first_relevant. simpl. set (own := (map_to_list _).*1).
  assert (Hown : ∀ gid, gid ∈ own ↔ ∃ g, a_Groups a !! gid = Some g ∧ me ∈ g_Peers g).
  { intros gid. unfold own. rewrite list_elem_of_fmap. split.
    - intros ([k g] & -> & Hin%elem_of_map_to_list). apply map_lookup_filter_Some in Hin as [? ?]. eauto.
    - intros (g & Hg & Hm). exists (gid, g). split; [done|]. apply elem_of_map_to_list, map_lookup_filter_Some. done. }
  split_and!.
  - split.
    + intros id v [<- <-]%lookup_singleton_Some. done.
    + apply add_groups_ok; [apply add_groups_ok; [by intros ? ?; rewrite lookup_empty|]|].
      * intros x (g & Hg & _)%Hown. eauto.
      * intros x (r & Hx & Hr)%list_elem_of_bind. apply list_elem_of_fmap in Hr as ([id r'] & -> & Hr%elem_of_map_to_list).
        by apply (rd_route_groups _ _ _ Hred id r').
    + intros c id p Hh. unfold has in Hh. rewrite lookup_empty in Hh. by apply elem_of_empty in Hh.
  - rewrite lookup_singleton_eq. eauto.
  - intros gid g Hg Hm. apply add_groups_some. left. apply add_groups_some. right. apply Hown. eauto.
Qed.

(** ** Network resources *)

Abbreviation ga_sound ga := (sound (ga_peers ga) (ga_groups ga) (ga_failed ga)).

Abbreviation ga_grows ga ga' :=
  (grows (ga_peers ga) (ga_groups ga) (ga_failed ga) (ga_peers ga') (ga_groups ga') (ga_failed ga')).

Lemma set_new_some {A} (m : gmap bytes A) k v x : is_Some (m !! x) → is_Some (set_new m k v !! x).
Proof using Type.
  intros Hx. unfold set_new. destruct (m !! k) eqn:E; [done|]. destruct (decide (k = x)) as [<-|Hne].
  - rewrite lookup_insert_eq. eauto.
  - by rewrite lookup_insert_ne.
Qed.

Lemma set_new_lookup {A} (m : gmap bytes A) k v x y : set_new m k v !! x = Some y → m !! x = Some y ∨ (x = k ∧ y = v).
Proof using Type.
  unfold set_new. destruct (m !! k) eqn:E; [by left|]. intros [[<- <-]|[_ ?]]%lookup_insert_Some; [by right|by left].
Qed.

Lemma failed_save F c id :
  failed_ok F → (∀ p, a_Peers a !! id = Some p → passes a c p = false) → failed_ok (save_failed F c id).
Proof using Type. intros HF Hf c' id' p [[-> ->]|Hh]%has_save Hp; [by apply Hf|by eapply HF]. Qed.

Lemma get_failed_sound checks id c :
  validatePostureChecksOnPeerGetFailed a checks id = (false, c) → ∀ p, a_Peers a !! id = Some p → passes a c p = false.
Proof using Type. intros E p Hp. destruct (get_failed checks id p Hp) as [[_ E']|(_ & c' & _ & ? & E')]; congruence. Qed.

Lemma posture_valid_saved ids checks F :
  failed_ok F →
  let r := getPostureValidPeersSaveFailed a ids checks validated F in
  (∀ x, x ∈ r.1 → x ∈ validated) ∧ failed_ok r.2 ∧ (∀ c id, has F c id → has r.2 c id).
Proof using Type.
  intros HF. cbn zeta. unfold getPostureValidPeersSaveFailed. induction ids as [|x ids IH] using rev_ind.
  { simpl. split_and!; [by intros ? ?%elem_of_nil|done..]. }
  rewrite foldl_app. simpl. set (st := foldl _ _ ids) in *. destruct IH as (I1 & I2 & I3).
  case_bool_decide as Hv; simpl; [|done]. destruct (validatePostureChecksOnPeerGetFailed a checks x) as [[] c] eqn:E; simpl.
  - split_and!; [|done..]. intros y [?| ->%list_elem_of_singleton]%elem_of_app; auto.
  - split_and!; [done| |].
    + apply failed_save; [done|]. by apply (get_failed_sound checks).
    + intros c' id Hh. apply has_save. auto.
Qed.

Lemma add_new_peers_ok ids P :
  peers_ok P → (∀ x, x ∈ ids → x ∈ validated) →
  let P' := foldl (λ m id, set_new m id (GetPeer a id)) P ids in peers_ok P' ∧ ∀ x, is_Some (P !! x) → is_Some (P' !! x).
Proof using Type.
  intros HP Hids. cbn zeta. induction ids as [|x ids IH] using rev_ind; [done|].
  rewrite foldl_app. simpl. set (P' := foldl _ _ ids) in *.
  destruct IH as [I1 I2]; [intros; apply Hids, elem_of_app; by left|]. split; [|intros; by apply set_new_some, I2].
  intros id v [?|[-> ->]]%set_new_lookup; [by apply I1|]. split; [done|]. intros _. apply Hids, elem_of_app. right. by left.
Qed.

Lemma add_rule_groups_ok policy G :
  groups_ok G → groups_ok (add_rule_groups a policy G) ∧ ∀ x, is_Some (G !! x) → is_Some (add_rule_groups a policy G !! x).
Proof using Type.
  unfold add_rule_groups. revert G. induction (po_Rules policy) as [|rule rules IH]; intros G HG; cbn [foldl]; [done|].
  set (G1 := foldl _ G (pr_Sources rule ++ _)).
  assert (groups_ok G1 ∧ ∀ x, is_Some (G !! x) → is_Some (G1 !! x)) as [H1 H2].
  { unfold G1. clear IH G1. induction (pr_Sources rule ++ pr_Destinations rule) as [|gid l IHl] using rev_ind; [done|].
    rewrite foldl_app. simpl. set (G1 := foldl _ _ l) in *. destruct IHl as [I1 I2].
    destruct (a_Groups a !! gid) as [g|] eqn:Eg; [|done]. split; [|intros; by apply set_new_some, I2].
    intros id v [?|[-> ->]]%set_new_lookup; [by apply I1|]. rewrite Eg. eauto. }
  destruct (IH G1 H1) as [I1 I2]. split; [done|auto].
Qed.

Lemma gather_policy_ok peer addSourcePeers policy st :
  me = ID peer → po_Rules policy ≠ [] → ga_sound st →
  ∃ r, gather_policy a me peer validated addSourcePeers policy st = Ok r ∧ ga_sound r.1 ∧ ga_grows st r.1.
Proof using Type.
  intros Hme Hr [HP HG HF]. unfold gather_policy. destruct (po_Rules policy) as [|rule rules]; [done|].
  unfold go_index. simpl. destruct addSourcePeers.
  - set (ids := if is_peer_resource _ then _ else _).
    destruct (posture_valid_saved ids (po_SourcePostureChecks policy) (ga_failed st) HF) as (V1 & V2 & V3).
    destruct (getPostureValidPeersSaveFailed _ _ _ _ _) as [valid failed]. cbn [fst snd] in *.
    destruct (add_new_peers_ok valid (ga_peers st) HP V1) as [A1 A2]. eexists. split; [done|]. by split; split.
  - case_if; [eexists; split; [done|]; by split; [|apply grows_refl]|].
    destruct (validatePostureChecksOnPeerGetFailed a _ me) as [isValid pname] eqn:E.
    case_if; eexists; (split; [done|]); [|by split; [|apply grows_refl]]. simpl.
    destruct isValid; [done|]. split; split; simpl; [done..| |done|done|].
    + apply failed_save; [done|]. rewrite <- Hme. by apply (get_failed_sound (po_SourcePostureChecks policy)).
    + intros c id Hh. apply has_save. auto.
Qed.

Lemma gather_policies_ok peer rid all addSourcePeers policies st :
  me = ID peer → (∀ p, p ∈ policies → po_Rules p ≠ []) → ga_sound st →
  ∃ r, gather_policies a me peer validated rid all addSourcePeers policies st = Ok r ∧ ga_sound r.1 ∧ ga_grows st r.1.
Proof using Type.
  intros Hme. revert addSourcePeers st. induction policies as [|p policies IH]; intros b st Hps Hst; cbn [gather_policies].
  { eexists. split; [done|]. split; [done|apply grows_refl]. }
  destruct (gather_policy_ok peer b p st) as ([st1 stored] & -> & [S1 S2 S3] & [R1 R2 R3]); [done|apply Hps; by left|done|].
  cbn [fst snd obind] in *. set (st2 := if stored then _ else st1).
  assert (ga_sound st2 ∧ ga_grows st st2) as [So2 Gr2].
  { unfold st2. destruct (add_rule_groups_ok p (ga_groups st1) S2) as [A1 A2]. destruct stored; [|done].
    split; split; simpl; auto. }
  destruct (IH (b || stored) st2) as (r & -> & Sr & Gr); [intros; apply Hps; by right|done|].
  eexists. split; [done|]. split; [done|by eapply grows_trans].
Qed.

Lemma add_routers_ok ids st :
  ga_sound st → ga_sound (foldl (add_router a validated) st ids) ∧ ga_grows st (foldl (add_router a validated) st ids).
Proof using Type.
  intros Hst. induction ids as [|id ids IH] using rev_ind; [by split; [|apply grows_refl]|].
  rewrite foldl_app. simpl. set (st' := foldl _ _ ids) in *. destruct IH as [[I1 I2 I3] Ig]. unfold add_router.
  destruct (a_Peers a !! id) as [p|] eqn:Ep; [|done]. case_bool_decide as Hv; simpl; [|done]. split; split; simpl; try done.
  - intros k v [?|[-> ->]]%set_new_lookup; [by apply I1|]. by rewrite Ep.
  - intros x Hx. apply set_new_some. by apply (gr_peers _ _ _ _ _ _ Ig).
  - apply Ig.
  - apply Ig.
Qed.

Lemma gather_resources_ok peer routers resources st :
  me = ID peer → ga_sound st →
  ∃ st', gather_resources a me peer validated resourcePolicies routers resources st = Ok st' ∧ ga_sound st' ∧ ga_grows st st'.
Proof using Hred.
  intros Hme. revert st. induction resources as [|n resources IH]; intros st Hst; cbn [gather_resources].
  { eexists. split; [done|]. split; [done|apply grows_refl]. }
  unfold gather_resource. case_if; [by apply IH|]. destruct (resourcePolicies !! nres_ID n) as [ps|] eqn:Eps; [|by apply IH].
  set (routing := default ∅ _). set (b := bool_decide _).
  destruct (gather_policies_ok peer (nres_ID n) ps b ps st Hme) as ([st1 b1] & -> & So1 & Gr1); [|done|].
  { intros p. by apply (rd_rules _ _ _ Hred (nres_ID n)). }
  cbn [fst snd obind] in *. destruct (add_routers_ok (map_to_list routing).*1 st1 So1) as [So2 Gr2].
  match goal with |- ∃ st', gather_resources _ _ _ _ _ _ _ ?s = _ ∧ _ => destruct (IH s) as (st' & -> & So3 & Gr3); [done|] end.
  eexists. split; [done|]. split; [done|]. eapply grows_trans; [by eapply grows_trans|done].
Qed.

(** ** The components *)

(** The members of the group that matter are in the group of the components. *)
Definition known (c : NetworkMapComponents) (gid : bytes) : Prop :=
  ∀ g x, a_Groups a !! gid = Some g → x ∈ g_Peers g → is_Some (c_Peers c !! x) →
  ∃ g', c_Groups c !! gid = Some g' ∧ x ∈ g_Peers g'.

Record ready (c : NetworkMapComponents) (policy : Policy) (rule : PolicyRule) : Prop := {
  re_src : on_src policy rule me →
    (∀ x, on_dst rule x → is_Some (c_Peers c !! x)) ∧ (∀ gid, gid ∈ pr_Destinations rule → known c gid);
  re_dst : on_dst rule me →
    (∀ x, on_src policy rule x → is_Some (c_Peers c !! x)) ∧ (∀ gid, gid ∈ pr_Sources rule → known c gid);
  re_failed : is_peer_resource (pr_SourceResource rule) = false → ∀ id p,
    id ∈ group_members a (pr_Sources rule) → id ∈ validated → a_Peers a !! id = Some p → is_Some (c_Peers c !! id) →
    validatePostureChecksOnPeer a (po_SourcePostureChecks policy) id = false →
    ∃ ch, ch ∈ po_SourcePostureChecks policy ∧ has (c_PostureFailedPeers c) ch id
}.

Record reduced (t : Peer) (gu : gmap bytes (list bytes)) (c : NetworkMapComponents) : Prop := {
  rc_id : c_PeerID c = me;
  rc_peers : peers_ok (c_Peers c);
  rc_me : c_Peers c !! me = Some (Some t);
  rc_groups : ∀ gid g', c_Groups c !! gid = Some g' → ∃ g, a_Groups a !! gid = Some g ∧ IsGroupAll g' = IsGroupAll g ∧
    ∀ x, x ∈ g_Peers g' ↔ x ∈ g_Peers g ∧ is_Some (c_Peers c !! x);
  rc_own : ∀ gid g, a_Groups a !! gid = Some g → me ∈ g_Peers g → known c gid;
  rc_failed : failed_ok (c_PostureFailedPeers c);
  rc_kept : kept (c_Policies c) (a_Policies a);
  rc_ready : ∀ policy rule, policy ∈ c_Policies c → policy ∈ a_Policies a → po_Enabled policy = true →
    rule ∈ po_Rules policy → pr_Enabled rule = true → ready c policy rule;
  rc_ssh : ∀ policy rule, policy ∈ a_Policies a → po_Enabled policy = true → rule ∈ po_Rules policy →
    pr_Enabled rule = true → on_dst rule me →
    (pr_Protocol rule = PolicyRuleProtocolNetbirdSSH →
       ∀ gid, gid ∈ dom (pr_AuthorizedGroups rule) → c_GroupIDToUserIDs c !! gid = gu !! gid) ∧
    (uses_allowed (SSHEnabled t) rule = true → c_getAllowedUserIDs c = getAllowedUserIDs a)
}.

Lemma elem_of_filter_group P g g' x :
  filter_group P g = Some g' → IsGroupAll g' = IsGroupAll g ∧ (x ∈ g_Peers g' ↔ x ∈ g_Peers g ∧ is_Some (P !! x)).
Proof using Type.
  unfold filter_group. set (kept := List.filter _ (g_Peers g)).
  assert (Hk : ∀ x, x ∈ kept ↔ x ∈ g_Peers g ∧ is_Some (P !! x)).
  { intros y. unfold kept. by rewrite elem_of_lfilter, bool_decide_eq_true. }
  destruct (empty kept); [done|]. destruct (length kept =? length (g_Peers g))%nat eqn:El; intros [= <-].
  - split; [done|]. rewrite <- Hk. apply Nat.eqb_eq in El. unfold kept in *. by rewrite filter_length_eq.
  - split; [done|]. apply Hk.
Qed.

Lemma filter_group_some P g x : x ∈ g_Peers g → is_Some (P !! x) → ∃ g', filter_group P g = Some g' ∧ x ∈ g_Peers g'.
Proof using Type.
  intros Hx HP. destruct (filter_group P g) as [g'|] eqn:E.
  - exists g'. split; [done|]. by apply (elem_of_filter_group P g g' x E).
  - unfold filter_group in E. set (kept := List.filter _ (g_Peers g)) in E.
    assert (Hk : x ∈ kept). { unfold kept. by rewrite elem_of_lfilter, bool_decide_eq_true. }
    destruct kept; [by apply elem_of_nil in Hk|]. cbn [empty] in E. by case_if.
Qed.

Lemma filter_groups_ok G P :
  groups_ok G → ∃ gs, filterGroupPeers G P = Ok gs ∧ ∀ gid, gs !! gid = a_Groups a !! gid ≫= λ g,
    if decide (is_Some (G !! gid)) then filter_group P g else None.
Proof using Type.
  intros HG. unfold filterGroupPeers. rewrite (proj2 (forallb_forall _ _)).
  - eexists. split; [done|]. intros gid. rewrite lookup_omap. destruct (G !! gid) as [v|] eqn:E; simpl.
    + destruct (HG gid v E) as [-> [g Hg]]. by rewrite Hg.
    + by destruct (a_Groups a !! gid).
  - intros [gid v] Hin%list_elem_of_In%elem_of_map_to_list. apply bool_decide_eq_true. by apply (HG gid v).
Qed.

Lemma has_filtered F policies rp P ch id :
  has (filterPostureFailedPeers F policies rp P) ch id → has F ch id.
Proof using Type.
  unfold has, filterPostureFailedPeers. rewrite map_lookup_imap. destruct (F !! ch) as [ids|]; [|done]. simpl.
  case_if; simpl; [|intros ?%elem_of_empty; done]. intros Hid%elem_of_filter. apply Hid.
Qed.

Lemma has_kept F policies rp P policy ch id :
  has F ch id → policy ∈ policies → ch ∈ po_SourcePostureChecks policy → is_Some (P !! id) →
  has (filterPostureFailedPeers F policies rp P) ch id.
Proof using Type.
  unfold has, filterPostureFailedPeers. intros Hh Hpol Hch HP. rewrite map_lookup_imap.
  destruct (F !! ch) as [ids|]; [|by apply elem_of_empty in Hh]. simpl in *.
  assert (Hk : id ∈ filter (λ id, is_Some (P !! id)) ids) by by apply elem_of_filter.
  rewrite bool_decide_true, bool_decide_false; [done|by intros E; rewrite E in Hk; apply elem_of_empty in Hk|].
  apply elem_of_list_to_set, list_elem_of_bind. exists policy. split; [done|]. apply elem_of_app. by left.
Qed.

Lemma components_reduced Fqdn t zone zones routers gu :
  a_Peers a !! me = Some t → me ∈ validated →
  ∃ c, GetPeerNetworkMapComponents Fqdn a me zone zones validated resourcePolicies routers gu = Ok (Some c) ∧ reduced t gu c.
Proof using Hred.
  intros Ht Hv. unfold GetPeerNetworkMapComponents. rewrite Ht, bool_decide_true by done. cbn [negb].
  assert (Hid : me = ID t) by by rewrite (wf_peers a (rd_wf _ _ _ Hred) me t Ht).
  destruct (first_relevant_sound t Ht Hv) as (So0 & Me0 & Own0).
  unfold getPeersGroupsPoliciesRoutes.
  destruct (relevant_policies_spec (SSHEnabled t) (a_Policies a) (first_relevant a me ∅)) as (So1 & [Gr1 _ _] & K & Done); [done..|].
  destruct (relevant_policies _ _ _ _ _ _) as [policies rv]. cbn [fst snd] in *.
  destruct (gather_resources_ok t routers (a_NetworkResources a)
    (mkGathered (rv_peers rv) (rv_groups rv) (rv_failed rv) ∅ ∅ [] ∅) Hid So1) as (ga & -> & [HP HG HF] & Gr2).
  cbn [obind ga_peers ga_groups ga_failed] in *. destruct (filter_groups_ok (ga_groups ga) (ga_peers ga) HG) as (gs & -> & Hgs).
  cbn [obind]. eexists. split; [reflexivity|].
  assert (Hknown : ∀ c gid, c_Peers c = ga_peers ga → c_Groups c = gs → is_Some (ga_groups ga !! gid) → known c gid).
  { intros c gid Ec Egs Hg g x Eg Hx Hp. rewrite Ec in Hp. rewrite Egs, Hgs, Eg. simpl. rewrite decide_True by done.
    by apply filter_group_some. }
  split; simpl; [done|done| | | | |done| |].
  - destruct (gr_peers _ _ _ _ _ _ Gr2 me) as [v Hme]; [by apply (gr_peers _ _ _ _ _ _ Gr1)|].
    destruct (HP me v Hme) as [-> _]. by rewrite Hme, Ht.
  - intros gid g'. rewrite Hgs. destruct (a_Groups a !! gid) as [g|]; [|done]. simpl. case_decide; [|done]. intros E. exists g.
    split; [done|]. split; [by apply (elem_of_filter_group _ _ _ [] E)|]. intros x. by apply (elem_of_filter_group _ _ _ x E).
  - intros gid g Hg Hm. apply Hknown; [done..|]. apply (gr_groups _ _ _ _ _ _ Gr2), (gr_groups _ _ _ _ _ _ Gr1). by apply (Own0 gid g).
  - intros ch id p Hh. apply has_filtered in Hh. by apply HF.
  - intros policy rule Hk Hpol He Hr Hre. destruct (Done policy Hpol He rule Hr Hre) as [Hc _].
    destruct (covered_grows _ _ _ _ _ _ _ _ Hc Gr2) as [C1 C2 C3]. split; simpl.
    + intros [? Hgr]%C1. split; [done|]. intros gid Hin. apply Hknown; auto.
    + intros [? Hgr]%C2. split; [done|]. intros gid Hin. apply Hknown; auto.
    + intros Hres id p Hm Hval Hp Hs Hf. destruct (C3 Hres id p Hm Hval Hp Hf) as (ch & ? & ?). exists ch. split; [done|].
      by apply (has_kept _ _ _ _ policy).
  - intros policy rule Hpol He Hr Hre Hon. destruct (Done policy Hpol He rule Hr Hre) as [_ Hs]. destruct (Hs Hon) as [N1 N2].
    split.
    + intros Hp gid Hin. unfold filterGroupIDToUserIDs. apply N1 in Hin; [|done]. destruct (gu !! gid) as [l|] eqn:El.
      * by apply map_lookup_filter_Some.
      * apply map_lookup_filter_None. by left.
    + intros Hu. unfold c_getAllowedUserIDs. simpl. by rewrite N2.
Qed.

(** ** The sides in the components *)

Section Sides.
Context (t : Peer) (gu : gmap bytes (list bytes)) (c : NetworkMapComponents) (Hc : reduced t gu c).

Lemma info_spec id q : GetPeerInfo c id = Some q ↔ is_Some (c_Peers c !! id) ∧ a_Peers a !! id = Some q.
Proof using Hc.
  unfold GetPeerInfo. destruct (c_Peers c !! id) as [v|] eqn:E; simpl.
  - destruct (rc_peers _ _ _ Hc id v E) as [-> _]. naive_solver.
  - naive_solver.
Qed.

Lemma c_collect_members single groups acc x :
  is_Some (a_Peers a !! x) → is_Some (c_Peers c !! x) → (single = true → length groups ≤ 1)%nat → (single = true → acc = ∅) →
  x ∈ c_collect_ids c single groups acc ↔ x ∈ acc ∨ x ∈ c_group_members c groups.
Proof using Hc Hred.
  intros Hx Hcx. revert acc. induction groups as [|gid groups IH]; intros acc Hlen Hacc; cbn [c_collect_ids].
  { rewrite elem_of_elements. unfold c_group_members. simpl. rewrite elem_of_nil. tauto. }
  unfold c_group_members in *. csimpl. unfold GetGroupInfo at 1 2. destruct (c_Groups c !! gid) as [g|] eqn:Eg.
  2: { simpl. apply IH; [|done]. simpl in Hlen. intros; specialize (Hlen ltac:(done)); lia. }
  rewrite elem_of_app. destruct (IsGroupAll g || single) eqn:Ea.
  - apply orb_true_iff in Ea as [Ea| ->].
    + destruct (rc_groups _ _ _ Hc gid g Eg) as (g0 & Eg0 & Eall & Hm). rewrite Eall in Ea.
      pose proof (all_members gid g0 x Eg0 Ea Hx). rewrite Hm. tauto.
    + rewrite Hacc by done. destruct groups; [|specialize (Hlen eq_refl); simpl in Hlen; lia].
      simpl. rewrite elem_of_empty, elem_of_nil. tauto.
  - apply orb_false_iff in Ea as [_ ->]. rewrite IH by done. rewrite elem_of_union, elem_of_list_to_set. tauto.
Qed.

Lemma elem_of_c_members ids x :
  x ∈ c_group_members c ids ↔ ∃ gid g, gid ∈ ids ∧ c_Groups c !! gid = Some g ∧ x ∈ g_Peers g.
Proof using Type.
  unfold c_group_members, GetGroupInfo. rewrite list_elem_of_bind. split.
  - intros (gid & Hx & Hin). destruct (c_Groups c !! gid) as [g|] eqn:E; [eauto 6|by apply elem_of_nil in Hx].
  - intros (gid & g & Hin & E & Hx). exists gid. by rewrite E.
Qed.

(** A peer that matters is on a side of the components as it is on the side of
    the account, if its groups and failures are known. *)
Lemma side_equiv groups checks x p :
  is_Some (c_Peers c !! x) → a_Peers a !! x = Some p →
  (∀ gid g, gid ∈ groups → a_Groups a !! gid = Some g → x ∈ g_Peers g → known c gid) →
  (x ∈ group_members a groups → validatePostureChecksOnPeer a checks x = false →
   ∃ ch, ch ∈ checks ∧ has (c_PostureFailedPeers c) ch x) →
  x ∈ c_getUniquePeerIDsFromGroupsIDs c groups ∧ ValidatePostureChecksOnPeer c x checks = true ↔
  x ∈ group_members a groups ∧ good checks x.
Proof using Hc Hred.
  intros Hcx Hp Hkn Hfl. unfold c_getUniquePeerIDsFromGroupsIDs.
  rewrite c_collect_members; [|eauto|done|intros ?%Nat.eqb_eq; lia|done]. rewrite elem_of_empty, elem_of_c_members, elem_of_members.
  unfold in_group, ValidatePostureChecksOnPeer. rewrite bool_decide_true by done. cbn [andb]. rewrite forallb_forall.
  setoid_rewrite <- list_elem_of_In. setoid_rewrite negb_true_iff. setoid_rewrite bool_decide_eq_false.
  assert (Hval : x ∈ validated).
  { destruct Hcx as [v Ev]. destruct (rc_peers _ _ _ Hc x v Ev) as [-> Hv]. apply Hv. eauto. }
  split.
  - intros [[[]|(gid & g' & Hin & Eg' & Hx)] Hpo]. destruct (rc_groups _ _ _ Hc gid g' Eg') as (g & Eg & _ & Hm).
    apply Hm in Hx as [Hx _]. split; [eauto 6|]. split; [done|]. apply not_false_iff_true. intros Hf.
    destruct Hfl as (ch & Hch & Hh); [apply elem_of_members; exists gid, g; auto|done|]. by apply (Hpo ch).
  - intros [(gid & g & Hin & Eg & Hx) [_ Hpo]]. split.
    + right. destruct (Hkn gid g Hin Eg Hx g x Eg Hx Hcx) as (g' & ? & ?). eauto.
    + intros ch Hch Hh. rewrite (posture_passes _ _ p Hp) in Hpo.
      pose proof (rc_failed _ _ _ Hc ch x p Hh Hp). by rewrite Hpo in H0.
Qed.

(** A side of the components as [(others, is the peer in)]. *)
Definition agrees (found : list Peer * bool) (on : bytes → Prop) (complete : Prop) : Prop :=
  (found.2 = true ↔ on me) ∧
  (complete → ∀ q, q ∈ found.1 ↔ a_Peers a !! ID q = Some q ∧ on (ID q) ∧ ID q ≠ me).

Lemma c_admitted_spec groups checks id q :
  (∃ x, x ∈ c_getUniquePeerIDsFromGroupsIDs c groups ∧ c_admitted c checks x = Some (id, q)) ↔
  is_Some (c_Peers c !! id) ∧ a_Peers a !! id = Some q ∧
  id ∈ c_getUniquePeerIDsFromGroupsIDs c groups ∧ ValidatePostureChecksOnPeer c id checks = true.
Proof using Hc.
  unfold c_admitted. split.
  - intros (x & Hx & E). destruct (GetPeerInfo c x) as [q'|] eqn:Ei; [|done]. apply info_spec in Ei as [? ?].
    destruct (ValidatePostureChecksOnPeer c x checks) eqn:Ev; [|done]. by injection E as <- <-.
  - intros (Hs & Hq & Hu & Hpo). exists id. split; [done|]. rewrite (proj2 (info_spec id q)) by done. by rewrite Hpo.
Qed.

Lemma groups_agree groups checks (complete : Prop) :
  (∀ x p, x ∈ group_members a groups → x ∈ validated → a_Peers a !! x = Some p → is_Some (c_Peers c !! x) →
     validatePostureChecksOnPeer a checks x = false → ∃ ch, ch ∈ checks ∧ has (c_PostureFailedPeers c) ch x) →
  (complete → (∀ x, x ∈ group_members a groups ∧ good checks x → is_Some (c_Peers c !! x)) ∧ ∀ gid, gid ∈ groups → known c gid) →
  agrees (c_getAllPeersFromGroups c groups me checks) (λ x, x ∈ group_members a groups ∧ good checks x) complete.
Proof using Hc Hred.
  intros Hfl Hco. pose proof (rc_me _ _ _ Hc) as Hme. destruct (rc_peers _ _ _ Hc me _ Hme) as [Ht Hv].
  assert (Hadm := c_admitted_spec groups checks).
  unfold c_getAllPeersFromGroups, agrees. cbn [fst snd]. split.
  - rewrite existsb_exists. setoid_rewrite <- list_elem_of_In.
    assert (Hse : me ∈ c_getUniquePeerIDsFromGroupsIDs c groups ∧ ValidatePostureChecksOnPeer c me checks = true ↔
      me ∈ group_members a groups ∧ good checks me).
    { apply (side_equiv groups checks me t); [eauto|done| |].
      - intros gid g _ Hg Hm. by apply (rc_own _ _ _ Hc gid g).
      - intros Hm Hf. apply (Hfl me t); eauto. }
    rewrite <- Hse. split.
    + intros ([id q] & Hin & Heq%bytes_eqb_spec). simpl in Heq. subst id. apply list_elem_of_omap, Hadm in Hin. tauto.
    + intros Hd. exists (me, t). split; [|by apply bytes_eqb_spec]. apply list_elem_of_omap, Hadm. split_and!; eauto; tauto.
  - intros [Hsome Hkn]%Hco q. rewrite list_elem_of_fmap. setoid_rewrite list_elem_of_In. setoid_rewrite filter_In.
    setoid_rewrite <- list_elem_of_In. setoid_rewrite negb_true_iff. setoid_rewrite bytes_eqb_false.
    assert (Hse : is_Some (c_Peers c !! ID q) → a_Peers a !! ID q = Some q →
      (ID q ∈ c_getUniquePeerIDsFromGroupsIDs c groups ∧ ValidatePostureChecksOnPeer c (ID q) checks = true ↔
       ID q ∈ group_members a groups ∧ good checks (ID q))).
    { intros Hs Hq. apply (side_equiv groups checks (ID q) q); [done..|auto|]. intros Hm Hf. apply (Hfl _ q); [done| |done..].
      destruct Hs as [v Ev]. destruct (rc_peers _ _ _ Hc _ v Ev) as [-> Hval]. apply Hval. eauto. }
    split.
    + intros ([id q'] & -> & Hin & Hne). simpl in *. apply list_elem_of_omap, Hadm in Hin as (Hs & Hq & Hd).
      assert (ID q' = id) as <- by by apply (wf_peers a (rd_wf _ _ _ Hred)). split; [done|]. split; [|done]. by apply Hse.
    + intros (Hq & Hd & Hne). exists (ID q, q). split; [done|]. split; [|done].
      apply list_elem_of_omap, Hadm. pose proof (Hsome _ Hd). split_and!; [done..| |]; by apply Hse.
Qed.

Lemma resource_agrees res (complete : Prop) :
  (complete → is_Some (c_Peers c !! res_ID res)) →
  agrees (c_getPeerFromResource c res me) (λ x, x = res_ID res) complete.
Proof using Hc Hred.
  intros Hco. unfold c_getPeerFromResource, agrees. destruct (bytes_eqb (res_ID res) me) eqn:E.
  - apply bytes_eqb_spec in E. simpl. rewrite E. split; [tauto|]. intros _ q. rewrite elem_of_nil. naive_solver.
  - apply bytes_eqb_false in E. split.
    + destruct (GetPeerInfo c (res_ID res)); simpl; (split; [done|congruence]).
    + intros Hs%Hco q. destruct (GetPeerInfo c (res_ID res)) as [p|] eqn:Ei; simpl.
      * apply info_spec in Ei as [_ Hp]. rewrite list_elem_of_singleton. split.
        -- intros ->. assert (ID p = res_ID res) as -> by by apply (wf_peers a (rd_wf _ _ _ Hred)). done.
        -- intros (Hq & Hid & _). rewrite Hid, Hp in Hq. by injection Hq.
      * rewrite elem_of_nil. split; [done|]. intros (Hq & Hid & _).
        rewrite Hid in Hq. rewrite (proj2 (info_spec (res_ID res) q)) in Ei by done. done.
Qed.

Lemma source_agrees policy rule :
  ready c policy rule → agrees (c_source_peers c policy rule me) (on_src policy rule) (on_dst rule me).
Proof using Hc Hred.
  intros [_ R2 R3]. unfold c_source_peers, on_src, id_on_side in *. destruct (is_peer_resource (pr_SourceResource rule)) eqn:Er.
  - apply resource_agrees. intros [Hs _]%R2. by apply Hs.
  - apply groups_agree; [|done]. intros x p Hm Hv Hp Hs Hf. by apply (R3 eq_refl x p).
Qed.

Lemma destination_agrees policy rule :
  ready c policy rule → agrees (c_destination_peers c rule me) (on_dst rule) (on_src policy rule me).
Proof using Hc Hred.
  intros [R1 _ _]. unfold c_destination_peers, on_dst, id_on_side in *. destruct (is_peer_resource (pr_DestinationResource rule)) eqn:Er.
  - apply resource_agrees. intros [Hs _]%R1. by apply Hs.
  - apply groups_agree; [|done]. intros x p _ _ Hp _ Hf. unfold validatePostureChecksOnPeer, GetPeer in Hf. by rewrite Hp in Hf.
Qed.
End Sides.

(** ** The sides in the account *)

Lemma side_agrees side on (t : Peer) :
  me = ID t → a_Peers a !! me = Some t → (∀ q, q ∈ side ↔ a_Peers a !! ID q = Some q ∧ on (ID q)) →
  agrees (split_side me side) on True.
Proof using Type.
  intros Hid Ht Hs. unfold agrees. rewrite Hid in Ht |- *. split.
  - rewrite (split_has a side t); [|by intros q [? _]%Hs|done]. rewrite Hs. tauto.
  - intros _ q. rewrite elem_of_split, Hs. tauto.
Qed.

Lemma account_agrees policy rule (t : Peer) :
  me = ID t → a_Peers a !! me = Some t →
  agrees (source_peers a policy rule me validated) (on_src policy rule) True ∧
  agrees (destination_peers a rule me validated) (on_dst rule) True.
Proof using Hred.
  intros Hid Ht. rewrite source_split, destination_split.
  split; apply (side_agrees _ _ t); try done; [apply src_side_ids|apply dst_side_ids].
Qed.

(** Two accounts of the sides give the same items. *)
Lemma rule_items_agree rule src dst src' dst' onS onD i :
  agrees src onS (onD me) → agrees dst onD (onS me) → agrees src' onS True → agrees dst' onD True →
  i ∈ rule_items rule src dst ↔ i ∈ rule_items rule src' dst'.
Proof using Type.
  intros [S1 S2] [D1 D2] [S1' S2'] [D1' D2']. destruct i as [[r q] d]. unfold rule_items. rewrite !elem_of_app.
  assert (Hif : ∀ (b : bool) d' l, (r, q, d) ∈ (if b then (λ p, (rule, p, d')) <$> l else []) ↔
            b = true ∧ r = rule ∧ d = d' ∧ q ∈ l).
  { intros b d' l. destruct b; [rewrite list_elem_of_fmap|rewrite elem_of_nil]; naive_solver. }
  rewrite !Hif, !andb_true_iff, S1, S1', D1, D1'.
  assert (E1 : onD me → (q ∈ src.1 ↔ q ∈ src'.1)) by (intros Hd; rewrite S2, S2' by done; done).
  assert (E2 : onS me → (q ∈ dst.1 ↔ q ∈ dst'.1)) by (intros Hd; rewrite D2, D2' by done; done).
  tauto.
Qed.

(** ** Items and users *)

Definition component_items (c : NetworkMapComponents) (policies : list Policy) : list (PolicyRule * Peer * Z) :=
  List.filter po_Enabled policies ≫= λ policy,
    List.filter pr_Enabled (po_Rules policy) ≫= λ rule,
      rule_items rule (c_source_peers c policy rule me) (c_destination_peers c rule me).

Lemma c_rules_fold c t policy rules st :
  (foldl (c_connection_step c t me policy) st rules).1 =
  foldl (gen_item t) st.1 (List.filter pr_Enabled rules ≫= λ rule,
    rule_items rule (c_source_peers c policy rule me) (c_destination_peers c rule me)).
Proof using Type.
  revert st. induction rules as [|r rules IH]; intros st; [done|]. cbn [foldl List.filter]. rewrite IH.
  unfold c_connection_step. destruct (pr_Enabled r); [|done]. csimpl. by rewrite foldl_app, generate_rule_items.
Qed.

Lemma c_account_fold c t policies st :
  (foldl (λ st policy, if po_Enabled policy then foldl (c_connection_step c t me policy) st (po_Rules policy) else st)
     st policies).1 = foldl (gen_item t) st.1 (component_items c policies).
Proof using Type.
  revert st. unfold component_items. induction policies as [|p policies IH]; intros st; [done|]. cbn [foldl List.filter].
  rewrite IH. destruct (po_Enabled p); [|done]. csimpl. by rewrite foldl_app, c_rules_fold.
Qed.

Section Agreement.
Context (t : Peer) (gu : gmap bytes (list bytes)) (c : NetworkMapComponents) (Hc : reduced t gu c).
Context (Hid : me = ID t) (Ht : a_Peers a !! me = Some t).

Lemma items_agree i : i ∈ component_items c (c_Policies c) ↔ i ∈ account_items a me validated.
Proof using Hc Hred Hid Ht.
  unfold component_items, account_items.
  assert (Hall : ∀ ps l, kept ps l → (∀ p, p ∈ ps → p ∈ c_Policies c) → (∀ p, p ∈ l → p ∈ a_Policies a) →
    (i ∈ component_items c ps ↔ i ∈ (List.filter po_Enabled l ≫= λ policy, List.filter pr_Enabled (po_Rules policy) ≫= λ rule,
      rule_items rule (source_peers a policy rule me validated) (destination_peers a rule me validated)))).
  2: { apply (Hall (c_Policies c) (a_Policies a)); [apply (rc_kept _ _ _ Hc)|done..]. }
  unfold component_items. induction 1 as [|p ps l Hk IH|p ps l Hu Hk IH]; intros Hps Hl; [done| |]; cbn [List.filter].
  - specialize (IH ltac:(intros; apply Hps; by right) ltac:(intros; apply Hl; by right)).
    destruct (po_Enabled p) eqn:Een; [|done]. csimpl. rewrite !elem_of_app, IH. clear IH. apply or_iff_compat_r.
    rewrite !list_elem_of_bind. apply exist_proper. intros rule. rewrite !elem_of_lfilter.
    assert (E : rule ∈ po_Rules p → pr_Enabled rule = true →
      i ∈ rule_items rule (c_source_peers c p rule me) (c_destination_peers c rule me) ↔
      i ∈ rule_items rule (source_peers a p rule me validated) (destination_peers a rule me validated)); [|tauto].
    intros Hr He. destruct (account_agrees p rule t Hid Ht) as [A1 A2].
    assert (R : ready c p rule) by (apply (rc_ready _ _ _ Hc); [apply Hps; by left|apply Hl; by left|done..]).
    apply (rule_items_agree _ _ _ _ _ (on_src p rule) (on_dst rule)); [| |done..].
    + by apply (source_agrees t gu).
    + by apply (destination_agrees t gu).
  - specialize (IH Hps ltac:(intros; apply Hl; by right)). destruct (po_Enabled p) eqn:Een; [|done]. csimpl.
    rewrite elem_of_app, IH. split; [by right|]. intros [Hi|?]; [|done]. exfalso.
    apply list_elem_of_bind in Hi as (rule & Hi & [Hr He]%elem_of_lfilter).
    destruct (Hu eq_refl rule Hr He) as [Ns Nd]. destruct (account_agrees p rule t Hid Ht) as [[A1 _] [A2 _]].
    unfold rule_items in Hi. destruct (source_peers a p rule me validated).2; [by apply Ns, A1|].
    destruct (destination_peers a rule me validated).2; [by apply Nd, A2|]. rewrite !andb_false_r in Hi. by apply elem_of_nil in Hi.
Qed.

Lemma authorize_groups_agree gu' kvs m :
  (∀ kv, kv ∈ kvs → gu' !! kv.1 = gu !! kv.1) → foldl (authorize_group gu') m kvs = foldl (authorize_group gu) m kvs.
Proof using Type.
  revert m. induction kvs as [|kv kvs IH]; intros m Hk; [done|]. simpl. rewrite IH by (intros; apply Hk; by right).
  f_equal. unfold authorize_group. by rewrite (Hk kv) by (by left).
Qed.

Lemma ssh_step_agree policy rule b st :
  policy ∈ a_Policies a → po_Enabled policy = true → rule ∈ po_Rules policy → pr_Enabled rule = true →
  (b = true → on_dst rule me) → c_ssh_step c t rule b st = ssh_step a gu t rule b st.
Proof using Hc.
  intros Hpol He Hr Hre Hb. unfold c_ssh_step, ssh_step. destruct b; [|done]. cbn [andb].
  destruct (rc_ssh _ _ _ Hc policy rule) as [N1 N2]; [by auto..|]. unfold uses_allowed in N2.
  destruct (bytes_eqb (pr_Protocol rule) _) eqn:Ep.
  - apply bytes_eqb_spec in Ep. case_bool_decide as Eg; simpl in *.
    + destruct (empty (pr_AuthorizedUser rule)); simpl in *; [by rewrite N2|done].
    + f_equal. apply authorize_groups_agree. intros [gid ls] Hin%elem_of_map_to_list. apply N1; [done|].
      apply elem_of_dom. by exists ls.
  - destruct (policyRuleImpliesLegacySSH rule && SSHEnabled t); [by rewrite N2|done].
Qed.

Lemma policy_users_agree policy st st' :
  policy ∈ c_Policies c → policy ∈ a_Policies a → po_Enabled policy = true → st.2 = st'.2 →
  (foldl (c_connection_step c t me policy) st (po_Rules policy)).2 =
  (foldl (connection_step a t validated gu policy) st' (po_Rules policy)).2.
Proof using Hc Hred Hid Ht.
  intros Hps Hpol He. revert st st'.
  assert (Hsub : ∀ rule, rule ∈ po_Rules policy → rule ∈ po_Rules policy) by done. revert Hsub.
  generalize (po_Rules policy) at 1 3 4. intros rules. induction rules as [|rule rules IH]; intros Hsub st st' Hst; [done|].
  simpl. apply IH; [intros; apply Hsub; by right|]. unfold c_connection_step, connection_step.
  destruct (pr_Enabled rule) eqn:Een; [|done]. simpl. rewrite <- Hid, Hst.
  assert (Hr : rule ∈ po_Rules policy) by (apply Hsub; by left).
  destruct (account_agrees policy rule t Hid Ht) as [_ [A2 _]].
  destruct (destination_agrees t gu c Hc policy rule) as [D _]; [by apply (rc_ready _ _ _ Hc)|].
  assert ((c_destination_peers c rule me).2 = (destination_peers a rule me validated).2) as ->
    by (apply eq_bool_prop_intro; rewrite !Is_true_true, D, A2; done).
  apply (ssh_step_agree policy); [done..|]. by apply A2.
Qed.

Lemma untouched_users policy st :
  untouched policy → (foldl (connection_step a t validated gu policy) st (po_Rules policy)).2 = st.2.
Proof using Hred Hid Ht.
  unfold untouched. intros Hu. revert st Hu. induction (po_Rules policy) as [|rule rules IH]; intros st Hu; [done|]. simpl.
  rewrite IH by (intros; apply Hu; [by right|done]). unfold connection_step. destruct (pr_Enabled rule) eqn:Een; [|done].
  destruct (Hu rule) as [_ Nd]; [by left|done|]. simpl. destruct (account_agrees policy rule t Hid Ht) as [_ [A2 _]].
  rewrite <- Hid. destruct (destination_peers a rule me validated).2; [|done]. by destruct (Nd (proj1 A2 eq_refl)).
Qed.

Lemma users_agree :
  (foldl (λ st policy, if po_Enabled policy then foldl (c_connection_step c t me policy) st (po_Rules policy) else st)
     (new_generator, (∅, false)) (c_Policies c)).2 =
  (foldl (λ st policy, if po_Enabled policy then foldl (connection_step a t validated gu policy) st (po_Rules policy) else st)
     (new_generator, (∅, false)) (a_Policies a)).2.
Proof using Hc Hred Hid Ht.
  set (fc := λ st policy, _). set (fa := λ st policy, if po_Enabled policy then foldl (connection_step _ _ _ _ _) _ _ else _).
  assert (Hall : ∀ ps l, kept ps l → (∀ p, p ∈ ps → p ∈ c_Policies c) → (∀ p, p ∈ l → p ∈ a_Policies a) →
    ∀ st st', st.2 = st'.2 → (foldl fc st ps).2 = (foldl fa st' l).2).
  2: { apply Hall; [apply (rc_kept _ _ _ Hc)|done..]. }
  induction 1 as [|p ps l Hk IH|p ps l Hu Hk IH]; intros Hps Hl st st' Hst; [done| |]; simpl; apply IH;
    try (intros; apply Hps; by right); try (intros; apply Hl; by right); try done.
  - unfold fc, fa. destruct (po_Enabled p) eqn:Een; [|done]. apply policy_users_agree; [apply Hps; by left|apply Hl; by left|done..].
  - unfold fa. destruct (po_Enabled p) eqn:Een; [|done]. by rewrite untouched_users by auto.
Qed.
End Agreement.
End Reduction.

(** C6: The network map from the components connects a peer as the map from the
    account does.  If the peers are filed under their ids and the group All is
    complete, the groups that rules and routes name exist, there is no embedded peer
    of a proxy, the peers that rules name as resources are validated, no posture check
    of a policy has the empty id and the policies of resources have rules, the
    reduction of the account to what matters for a validated peer succeeds, and the
    reduced data give the peer the same peers to connect to (in some order), the same
    SSH users and the same setting of the SSH server; the firewall rules are the same
    if no rule id is the beginning of another one. *)
Theorem components_same_connections Fqdn a validated resourcePolicies me t zone zones routers gu :
  reducible a validated resourcePolicies → a_Peers a !! me = Some t → me ∈ validated →
  ∃ c, GetPeerNetworkMapComponents Fqdn a me zone zones validated resourcePolicies routers gu = Ok (Some c) ∧
    let new := getPeerConnectionResources c me in
    let old := GetPeerConnectionResources a t validated gu in
    new.1.1.1 ≡ₚ old.1.1.1 ∧ (rules_distinct a → ∀ fr, fr ∈ new.1.1.2 ↔ fr ∈ old.1.1.2) ∧ new.1.2 = old.1.2 ∧ new.2 = old.2.
Proof.
  intros Hred Ht Hv. pose proof (rd_wf _ _ _ Hred) as Hwf.
  assert (Hid : me = ID t) by by rewrite (wf_peers a Hwf me t Ht).
  destruct (components_reduced a validated resourcePolicies Hred me Fqdn t zone zones routers gu Ht Hv) as (c & E & Hc).
  exists c. split; [done|]. cbn zeta. assert (Ht' : a_Peers a !! ID t = Some t) by by rewrite <- Hid.
  pose proof (resources_spec a Hwf validated t Ht') as Go. pose proof Go as [_ _ _ _ Po No]. pose proof (resources_generated a t validated gu) as Eo.
  assert (Hitems : ∀ i, i ∈ component_items me c (c_Policies c) ↔ i ∈ account_items a (ID t) validated).
  { intros i. rewrite <- Hid. by apply (items_agree a validated resourcePolicies Hred me t gu c Hc). }
  assert (generated t (component_items me c (c_Policies c))
    (foldl (gen_item t) new_generator (component_items me c (c_Policies c)))) as Gn.
  { apply generated_items. intros i j Hi%Hitems Hj%Hitems Eij.
    destruct (items_rule a Hwf validated t i Ht' Hi) as (_ & Hpi & _), (items_rule a Hwf validated t j Ht' Hj) as (_ & Hpj & _).
    rewrite Eij in Hpi. congruence. }
  assert (rules_distinct a → ∀ fr, fr ∈ gen_rules (foldl (gen_item t) new_generator (component_items me c (c_Policies c))) ↔
    fr ∈ gen_rules (foldl (gen_item t) new_generator (account_items a (ID t) validated))) as Hrules.
  { intros Hdis fr. pose proof (λ i j, item_key_rules a Hwf validated t t i j Hdis Ht') as Hk.
    rewrite (generated_exact _ _ _ Go Hk), (generated_exact _ _ _ Gn) by (intros i j Hi%Hitems Hj%Hitems; by apply Hk).
    by setoid_rewrite Hitems. }
  pose proof Gn as [_ _ _ _ Pn Nn].
  pose proof (users_agree a validated resourcePolicies Hred me t gu c Hc Hid Ht) as Eu.
  unfold getPeerConnectionResources, GetPeerInfo. rewrite (rc_me _ _ _ _ _ _ Hc). simpl.
  pose proof (c_account_fold me c t (c_Policies c) (new_generator, (∅, false))) as En. cbn [fst] in En.
  unfold GetPeerConnectionResources in *. cbn zeta in Eo.
  destruct (foldl _ _ (c_Policies c)) as [gn [un sn]], (foldl _ _ (a_Policies a)) as [go [uo so]].
  cbn [fst snd] in *. subst gn. injection Eo as Ego Ero. injection Eu as -> ->. rewrite Ego, Ero.
  split_and!; [|exact Hrules|done..].
  apply NoDup_Permutation; [by eapply NoDup_fmap_1|by eapply NoDup_fmap_1|].
  intros q. rewrite Pn, Po. by setoid_rewrite Hitems.
Qed.
End Equivalence.

(** ** Examples *)

Lemma ssh_account_reducible : reducible ssh_account both_valid ∅.
Proof.
  assert (Hpol : ∀ policy rule, policy ∈ a_Policies ssh_account → rule ∈ po_Rules policy → rule = ssh_rule).
  { intros policy rule ->%list_elem_of_singleton ->%list_elem_of_singleton. done. }
  split.
  - apply ssh_account_wf.
  - intros policy rule gid Hp Hr. rewrite (Hpol policy rule Hp Hr). cbn [ssh_rule pr_Sources pr_Destinations plain_rule app].
    rewrite !elem_of_cons, elem_of_nil. intros [->|[->|[]]]; vm_compute; eauto.
  - intros id r gid. simpl. by rewrite lookup_empty.
  - intros id p Hp. simpl in Hp. rewrite lookup_insert_Some, lookup_singleton_Some in Hp.
    destruct Hp as [[_ <-]|(_ & _ & <-)]; done.
  - intros policy rule res Hp Hr. rewrite (Hpol policy rule Hp Hr). intros [->| ->]; vm_compute; done.
  - intros policy ->%list_elem_of_singleton. apply not_elem_of_nil.
  - intros id ps p. by rewrite lookup_empty.
Qed.

Lemma components_same_connections_witness :
  ∃ c, GetPeerNetworkMapComponents id ssh_account (str "peer-b") (mkCustomZone [] [] false false) [] both_valid ∅ ∅ ∅ = Ok (Some c) ∧
    let new := getPeerConnectionResources c (str "peer-b") in
    let old := GetPeerConnectionResources ssh_account peer_b both_valid ∅ in
    new.1.1.1 ≡ₚ old.1.1.1 ∧ (∀ fr, fr ∈ new.1.1.2 ↔ fr ∈ old.1.1.2) ∧ new.1.2 = old.1.2 ∧ new.2 = old.2.
Proof.
  destruct (components_same_connections id ssh_account both_valid ∅ (str "peer-b") peer_b (mkCustomZone [] [] false false) [] ∅ ∅)
    as (c & E & H1 & H2 & H3); [apply ssh_account_reducible|vm_compute; reflexivity|set_solver|].
  exists c. split; [exact E|]. split; [exact H1|]. split; [|exact H3]. apply H2. by eapply one_rule_distinct.
Defined.

(** The map of a peer, from the account and from the components. *)
Definition old_map (a : Account) (me : bytes) (validated : gset bytes) : total NetworkMap :=
  GetPeerNetworkMap Some id Some a me (mkCustomZone [] [] false false) [] validated ∅ ∅ ∅ 0.

Definition new_map (a : Account) (me : bytes) (validated : gset bytes) : total NetworkMap :=
  GetPeerNetworkMapFromComponents Some id Some a me (mkCustomZone [] [] false false) [] validated ∅ ∅ ∅ 0.

Definition panics {A} (r : total A) : bool := match r with Panic => true | _ => false end.

Definition listed (r : total NetworkMap) : list bytes := match r with Ok m => ID <$> nm_Peers m | _ => [] end.

Definition rules_of (r : total NetworkMap) : list FirewallRule := match r with Ok m => nm_FirewallRules m | _ => [] end.

Definition lost_group : Account :=
  mkAccount (str "account") (mkNetwork (str "net") [] 1) (a_Peers two_peers) ∅ (a_Groups two_peers) (a_Policies two_peers)
    {[str "route" := mkRoute (str "route") (str "account") (PrefixFrom (Addr4 (be_number (ip4 10 0 0 0))) 8) None false
        (str "lan") [] (str "peer-b") [] [] IPv4Network true 9999 true [str "gone"] [] false]}
    ∅ [] [] example_settings [] [] [].

Definition everyone : PolicyRule := plain_rule "rule-1" [str "all"] [str "all"] true PolicyRuleProtocolALL [] [].

Definition with_proxy : Account :=
  mkAccount (str "account") (mkNetwork (str "net") [] 1) {[str "peer-a" := peer_a; str "proxy" := proxy_peer]} ∅
    {[str "all" := plain_group "all" "All" [str "peer-a"; str "proxy"]]} [plain_policy [everyone] []] ∅ ∅ [] []
    example_settings [] [] [].

Definition ssh_to_b : PolicyRule :=
  mkPolicyRule (str "rule-1") (str "policy") (str "rule-1") [] true PolicyTrafficActionAccept [] (mkResource (str "peer-b") ResourceTypePeer)
    [str "clients"] no_resource false PolicyRuleProtocolTCP [str "22"] [] ∅ [].

Definition all_to_servers : PolicyRule :=
  plain_rule "rule-2" [str "clients"] [str "servers"] false PolicyRuleProtocolALL [] [].

Definition pending_peer : Account := set_policies two_peers [plain_policy [ssh_to_b; all_to_servers] []].

(** The conditions of the equivalence are needed.  A route that names a deleted
    group makes the reduction dereference a nil group, while the account's map
    ignores the name.  The components list the embedded peer of a proxy, which the
    account's map leaves out.  A peer that is not validated and that one rule names
    for SSH gets into the components, where every rule of its groups reaches it:
    the peer opens all traffic to it. *)
Theorem components_diverge :
  panics (new_map lost_group (str "peer-a") both_valid) = true ∧
  listed (old_map lost_group (str "peer-a") both_valid) = [str "peer-b"] ∧
  listed (new_map with_proxy (str "peer-a") {[str "peer-a"; str "proxy"]}) = [str "proxy"] ∧
  listed (old_map with_proxy (str "peer-a") {[str "peer-a"; str "proxy"]}) = [] ∧
  fw_Protocol <$> rules_of (new_map pending_peer (str "peer-a") {[str "peer-a"]}) = [PolicyRuleProtocolTCP; PolicyRuleProtocolALL] ∧
  fw_Protocol <$> rules_of (old_map pending_peer (str "peer-a") {[str "peer-a"]}) = [PolicyRuleProtocolTCP].
Proof. split_and!; vm_compute; reflexivity. Qed.
