(* ===== verification/PolicyAPI.v ===== *)
(** * Policies from the API to the client

    The life of a policy: the request that management/server/http/handlers/policies
    checks ([savePolicy]), the account manager of management/server/policy.go that
    fills in ids and stores it, and the messages of
    management/internals/shared/grpc/conversion.go by which a client learns its
    firewall rules.  [PeerPolicy] computes the firewall rules in between, the
    client's reading of the messages is [AclManager].

    The store is an interface: [PolicyStore] has the operations and [PolicyStoreLaws]
    what the account manager relies on.  The id a policy gets and the answer of the
    permission manager are arguments. *)

From stdpp Require Import base list gmap strings.
From S2P Require Import Prelude GoStd GoStrings NetIP FirewallRules AclManager Routes Peers Posture PolicyTypes Account PeerPolicy NetworkMap.

#[local] Open Scope go_scope.

(** ** Requests *)

Record PolicyRuleUpdate := mkRuleUpdate {
  ru_Id : option bytes;
  ru_Name : bytes;
  ru_Description : option bytes;
  ru_Enabled : bool;
  ru_Action : bytes;
  ru_Bidirectional : bool;
  ru_Protocol : bytes;
  ru_Ports : option (list bytes);
  ru_PortRanges : option (list (Z * Z));
  ru_Sources : option (list bytes);
  ru_SourceResource : option Resource;
  ru_Destinations : option (list bytes);
  ru_DestinationResource : option Resource;
  ru_AuthorizedGroups : option (gmap bytes (list bytes))
}.

Record PolicyUpdate := mkPolicyUpdate {
  pu_Name : bytes;
  pu_Description : option bytes;
  pu_Enabled : bool;
  pu_Rules : list PolicyRuleUpdate;
  pu_SourcePostureChecks : option (list bytes)
}.

(** The errors of the handler and of the account manager. *)
Inductive policyErr :=
| errPolicyName | errNoRules | errSourcesAndResource | errDestinationsAndResource | errNoSides
| errAction | errProtocol | errPortsAndRanges | errPortValue | errAuthorizedGroups | errPortsNotAllowed
| errPermission | errPermissionDenied | errInvalidRuleID (id : bytes) | errStore | errNoRulesInPolicy.

#[global] Instance policyErr_eq_dec : EqDecision policyErr.
Proof. solve_decision. Defined.

(** [if c { return err }] *)
Definition reject (c : bool) (e : policyErr) : outcome policyErr unit := if c then Err e else Ok tt.

Definition isSome {A} (o : option A) : bool := match o with Some _ => true | None => false end.

Definition filled {A} (o : option (list A)) : bool := match o with Some (_ :: _) => true | _ => false end.

Definition known_protocol (p : bytes) : bool :=
  existsb (bytes_eqb p) [PolicyRuleProtocolALL; PolicyRuleProtocolTCP; PolicyRuleProtocolUDP; PolicyRuleProtocolICMP;
                         PolicyRuleProtocolNetbirdSSH].

Definition bad_port (s : bytes) : bool :=
  match ParseInt s with None => true | Some port => (port <? 1) || (65535 <? port) end.

(** The bounds checked are the start from below and the end from above; the
    values are then cut to 16 bits. *)
Definition bad_range (r : Z * Z) : bool := (r.1 <? 1) || (65535 <? r.2).

(** One rule of a request. *)
Definition rule_of_request (policyID : bytes) (rule : PolicyRuleUpdate) : outcome policyErr PolicyRule :=
  let ruleID := match ru_Id rule with Some id => if negb (empty policyID) then id else [] | None => [] end in
  let hasSources := isSome (ru_Sources rule) in
  let hasSourceResource := isSome (ru_SourceResource rule) in
  let hasDestinations := isSome (ru_Destinations rule) in
  let hasDestinationResource := isSome (ru_DestinationResource rule) in
  let! _ := reject (hasSources && hasSourceResource) errSourcesAndResource in
  let! _ := reject (hasDestinations && hasDestinationResource) errDestinationsAndResource in
  let! _ := reject (negb (hasSources || hasSourceResource) || negb (hasDestinations || hasDestinationResource)) errNoSides in
  let! _ := reject (negb (bytes_eqb (ru_Action rule) PolicyTrafficActionAccept ||
                          bytes_eqb (ru_Action rule) PolicyTrafficActionDrop)) errAction in
  let! _ := reject (negb (known_protocol (ru_Protocol rule))) errProtocol in
  let! _ := reject (filled (ru_Ports rule) && filled (ru_PortRanges rule)) errPortsAndRanges in
  let ports := default [] (ru_Ports rule) in
  let! _ := reject (existsb bad_port ports) errPortValue in
  let ranges := default [] (ru_PortRanges rule) in
  let! _ := reject (existsb bad_range ranges) errPortValue in
  let groups := default ∅ (ru_AuthorizedGroups rule) in
  let ssh := bytes_eqb (ru_Protocol rule) PolicyRuleProtocolNetbirdSSH && negb (bool_decide (groups = ∅)) in
  let sources := default [] (ru_Sources rule) in
  let! _ := reject (ssh && existsb (λ g, negb (isSome (groups !! g))) sources) errAuthorizedGroups in
  let! _ := reject ((bytes_eqb (ru_Protocol rule) PolicyRuleProtocolALL || bytes_eqb (ru_Protocol rule) PolicyRuleProtocolICMP) &&
                    negb (empty ports && empty ranges)) errPortsNotAllowed in
  Ok (mkPolicyRule ruleID policyID (ru_Name rule) (default [] (ru_Description rule)) (ru_Enabled rule) (ru_Action rule)
        (default [] (ru_Destinations rule)) (default (mkResource [] []) (ru_DestinationResource rule))
        sources (default (mkResource [] []) (ru_SourceResource rule))
        (ru_Bidirectional rule) (ru_Protocol rule) ports ((λ r, mkPortRange (u16 r.1) (u16 r.2)) <$> ranges)
        (if ssh then groups else ∅) []).

Fixpoint rules_of_request (policyID : bytes) (rules : list PolicyRuleUpdate) : outcome policyErr (list PolicyRule) :=
  match rules with
  | [] => Ok []
  | rule :: rules =>
      let! r := rule_of_request policyID rule in
      let! rs := rules_of_request policyID rules in
      Ok (r :: rs)
  end.

(** The policy that [savePolicy] hands to the account manager. *)
Definition policy_of_request (accountID policyID : bytes) (req : PolicyUpdate) : outcome policyErr Policy :=
  let! _ := reject (empty (pu_Name req)) errPolicyName in
  let! _ := reject (empty (pu_Rules req)) errNoRules in
  let! rules := rules_of_request policyID (pu_Rules req) in
  Ok (mkPolicy policyID accountID (pu_Name req) (default [] (pu_Description req)) (pu_Enabled req) rules
        (default [] (pu_SourcePostureChecks req))).

(** ** Answers *)

Record GroupMinimum := mkGroupMinimum { gm_Id : bytes; gm_Name : bytes; gm_PeersCount : Z; gm_ResourcesCount : Z }.

Record PolicyRuleAnswer := mkRuleAnswer {
  pa_Id : bytes;
  pa_Name : bytes;
  pa_Enabled : bool;
  pa_Description : bytes;
  pa_Bidirectional : bool;
  pa_Protocol : bytes;
  pa_Action : bytes;
  pa_SourceResource : option Resource;
  pa_DestinationResource : option Resource;
  pa_AuthorizedGroups : option (gmap bytes (list bytes));
  pa_Ports : option (list bytes);
  pa_PortRanges : option (list (Z * Z));
  pa_Sources : list GroupMinimum;
  pa_Destinations : list GroupMinimum
}.

Record PolicyAnswer := mkPolicyAnswer {
  an_Id : bytes;
  an_Name : bytes;
  an_Description : bytes;
  an_Enabled : bool;
  an_Rules : list PolicyRuleAnswer;
  an_SourcePostureChecks : list bytes
}.

Definition ToAPIResponse (r : Resource) : option Resource :=
  if empty (res_ID r) && empty (res_Type r) then None else Some r.

(** [None] where the list is empty. *)
Definition unless_empty {A} (l : list A) : option (list A) := if empty l then None else Some l.

(** The groups of the sources; one that is in the cache already is left out. *)
Fixpoint source_groups (groups : gmap bytes Group) (cache : gmap bytes GroupMinimum) (gids : list bytes) :
    list GroupMinimum * gmap bytes GroupMinimum :=
  match gids with
  | [] => ([], cache)
  | gid :: gids =>
      match cache !! gid, groups !! gid with
      | None, Some g =>
          let minimum := mkGroupMinimum (g_ID g) (g_Name g) (Z.of_nat (length (g_Peers g))) 0 in
          let '(l, cache) := source_groups groups (<[gid := minimum]> cache) gids in (minimum :: l, cache)
      | _, _ => source_groups groups cache gids
      end
  end.

Fixpoint destination_groups (groups : gmap bytes Group) (cache : gmap bytes GroupMinimum) (gids : list bytes) :
    list GroupMinimum * gmap bytes GroupMinimum :=
  match gids with
  | [] => ([], cache)
  | gid :: gids =>
      match cache !! gid, groups !! gid with
      | Some cachedMinimum, _ =>
          let '(l, cache) := destination_groups groups cache gids in (cachedMinimum :: l, cache)
      | None, Some g =>
          let minimum := mkGroupMinimum (g_ID g) (g_Name g) (Z.of_nat (length (g_Peers g))) (Z.of_nat (length (g_Resources g))) in
          let '(l, cache) := destination_groups groups (<[gid := minimum]> cache) gids in (minimum :: l, cache)
      | None, None => destination_groups groups cache gids
      end
  end.

Fixpoint rule_answers (groups : gmap bytes Group) (cache : gmap bytes GroupMinimum) (rules : list PolicyRule) :
    list PolicyRuleAnswer :=
  match rules with
  | [] => []
  | r :: rules =>
      let '(sources, cache) := source_groups groups cache (pr_Sources r) in
      let '(destinations, cache) := destination_groups groups cache (pr_Destinations r) in
      mkRuleAnswer (pr_ID r) (pr_Name r) (pr_Enabled r) (pr_Description r) (pr_Bidirectional r) (pr_Protocol r) (pr_Action r)
        (ToAPIResponse (pr_SourceResource r)) (ToAPIResponse (pr_DestinationResource r))
        (if bool_decide (pr_AuthorizedGroups r = ∅) then None else Some (pr_AuthorizedGroups r))
        (unless_empty (pr_Ports r)) (unless_empty ((λ p, (pr_Start p, pr_End p)) <$> pr_PortRanges r)) sources destinations
      :: rule_answers groups cache rules
  end.

Definition toPolicyResponse (groups : list Group) (policy : Policy) : PolicyAnswer :=
  let groupsMap := foldl (λ m g, <[g_ID g := g]> m) ∅ groups in
  mkPolicyAnswer (po_ID policy) (po_Name policy) (po_Description policy) (po_Enabled policy)
    (rule_answers groupsMap ∅ (po_Rules policy)) (po_SourcePostureChecks policy).

(** ** The account manager *)

Class PolicyStore (St : Type) := {
  GetPolicyByID : St → bytes → bytes → option Policy;
  GetGroupsByIDs : St → bytes → list bytes → option (gmap bytes Group);
  GetAccountGroups : St → bytes → option (list Group);
  GetPostureChecksByIDs : St → bytes → list bytes → option (gmap bytes Checks);
  store_SavePolicy : St → Policy → option St;
  store_CreatePolicy : St → Policy → option St;
  store_DeletePolicy : St → bytes → bytes → option St;
  IncrementNetworkSerial : St → bytes → option St
}.

Section Manager.
Context `{PolicyStore St}.

(** A store operation whose error ends the transaction. *)
Definition try {A} (o : option A) : outcome policyErr A := match o with Some a => Ok a | None => Err errStore end.

Definition getValidGroupIDs (groups : gmap bytes Group) (ids : list bytes) : list bytes :=
  List.filter (λ id, isSome (groups !! id)) ids.

Definition getValidPostureCheckIDs (checks : gmap bytes Checks) (ids : list bytes) : list bytes :=
  List.filter (λ id, isSome (checks !! id)) ids.

(** The rule with its id and the groups that exist. *)
Definition complete_rule (policyID : bytes) (groups : gmap bytes Group) (r : PolicyRule) : PolicyRule :=
  mkPolicyRule (if empty (pr_ID r) then policyID else pr_ID r) (if empty (pr_ID r) then policyID else pr_PolicyID r)
    (pr_Name r) (pr_Description r) (pr_Enabled r) (pr_Action r) (getValidGroupIDs groups (pr_Destinations r))
    (pr_DestinationResource r) (getValidGroupIDs groups (pr_Sources r)) (pr_SourceResource r) (pr_Bidirectional r)
    (pr_Protocol r) (pr_Ports r) (pr_PortRanges r) (pr_AuthorizedGroups r) (pr_AuthorizedUser r).

(** [validatePolicy] changes the policy in place: the changed policy is returned
    with the existing one. *)
Definition validatePolicy (newID : bytes) (st : St) (accountID : bytes) (policy : Policy) :
    outcome policyErr (Policy * option Policy) :=
  let! (policyID, policyAccount, existing) :=
    if negb (empty (po_ID policy)) then
      let! e := try (GetPolicyByID st accountID (po_ID policy)) in
      let ids := pr_ID <$> po_Rules e in
      match List.find (λ r, negb (empty (pr_ID r)) && negb (bool_decide (pr_ID r ∈ ids))) (po_Rules policy) with
      | Some r => Err (errInvalidRuleID (pr_ID r))
      | None => Ok (po_ID policy, po_AccountID policy, Some e)
      end
    else Ok (newID, accountID, None) in
  let! groups := try (GetGroupsByIDs st accountID (RuleGroups policy)) in
  let! checks := try (GetPostureChecksByIDs st accountID (po_SourcePostureChecks policy)) in
  Ok (mkPolicy policyID policyAccount (po_Name policy) (po_Description policy) (po_Enabled policy)
        (complete_rule policyID groups <$> po_Rules policy) (getValidPostureCheckIDs checks (po_SourcePostureChecks policy)),
      existing).

Definition anyGroupHasPeersOrResources (st : St) (accountID : bytes) (ids : list bytes) : outcome policyErr bool :=
  let! groups := try (GetGroupsByIDs st accountID ids) in
  Ok (existsb (λ kv, HasPeers kv.2 || HasResources kv.2) (map_to_list groups)).

Definition names_resource (p : Policy) : bool :=
  existsb (λ r, negb (empty (res_Type (pr_SourceResource r))) || negb (empty (res_Type (pr_DestinationResource r)))) (po_Rules p).

Definition arePolicyChangesAffectPeers (st : St) (policy : Policy) : outcome policyErr bool :=
  if names_resource policy then Ok true else anyGroupHasPeersOrResources st (po_AccountID policy) (RuleGroups policy).

Definition arePolicyChangesAffectPeersWithExisting (st : St) (policy existing : Policy) : outcome policyErr bool :=
  if negb (po_Enabled policy) && negb (po_Enabled existing) then Ok false
  else if names_resource existing then Ok true
  else
    let! hasPeers := anyGroupHasPeersOrResources st (po_AccountID policy) (RuleGroups existing) in
    if (hasPeers : bool) then Ok true
    else if names_resource policy then Ok true
    else anyGroupHasPeersOrResources st (po_AccountID policy) (RuleGroups policy).

Definition permitted (allowed : option bool) : outcome policyErr unit :=
  match allowed with
  | None => Err errPermission
  | Some false => Err errPermissionDenied
  | Some true => Ok tt
  end.

(** What a call returns: the policy and whether the peers are notified. *)
Definition save_body (newID : bytes) (st : St) (accountID : bytes) (policy : Policy) : outcome policyErr (St * Policy * bool) :=
  let! (p, existing) := validatePolicy newID st accountID policy in
  match existing with
  | Some e =>
      if Policy_Equal p e then Ok (st, p, false)
      else
        let! update := arePolicyChangesAffectPeersWithExisting st p e in
        let! st := try (store_SavePolicy st p) in
        let! st := try (IncrementNetworkSerial st accountID) in
        Ok (st, p, update)
  | None =>
      let! update := arePolicyChangesAffectPeers st p in
      let! st := try (store_CreatePolicy st p) in
      let! st := try (IncrementNetworkSerial st accountID) in
      Ok (st, p, update)
  end.

(** [SavePolicy]: an error rolls the transaction back. *)
Definition SavePolicy (allowed : option bool) (newID : bytes) (st : St) (accountID : bytes) (policy : Policy) :
    St * outcome policyErr (Policy * bool) :=
  match permitted allowed with
  | Ok _ => match save_body newID st accountID policy with
            | Ok (st', p, update) => (st', Ok (p, update))
            | Err e => (st, Err e)
            | Panic => (st, Panic)
            end
  | Err e => (st, Err e)
  | Panic => (st, Panic)
  end.

Definition DeletePolicy (allowed : option bool) (st : St) (accountID policyID : bytes) : St * outcome policyErr bool :=
  let body :=
    let! _ := permitted allowed in
    let! policy := try (GetPolicyByID st accountID policyID) in
    let! update := arePolicyChangesAffectPeers st policy in
    let! st := try (store_DeletePolicy st accountID policyID) in
    let! st := try (IncrementNetworkSerial st accountID) in
    Ok (st, update) in
  match body with
  | Ok (st', update) => (st', Ok update)
  | Err e => (st, Err e)
  | Panic => (st, Panic)
  end.

(** [GetAllGroups], with the answer of the permission manager on reading groups. *)
Definition GetAllGroups (allowed : option bool) (st : St) (accountID : bytes) : outcome policyErr (list Group) :=
  let! _ := permitted allowed in
  try (GetAccountGroups st accountID).

(** The handler [savePolicy]: the store after it, the policy that the account
    manager has saved with whether it notifies the peers, and the answer.  The
    groups for the answer are read after the policy is saved. *)
Definition savePolicy (allowed groupsAllowed : option bool) (newID : bytes) (st : St) (accountID policyID : bytes)
    (req : PolicyUpdate) : St * option (Policy * bool) * outcome policyErr PolicyAnswer :=
  match policy_of_request accountID policyID req with
  | Ok policy =>
      match SavePolicy allowed newID st accountID policy with
      | (st, Ok (policy, update)) =>
          (st, Some (policy, update),
           let! allGroups := GetAllGroups groupsAllowed st accountID in
           let resp := toPolicyResponse allGroups policy in
           let! _ := reject (empty (an_Rules resp)) errNoRulesInPolicy in
           Ok resp)
      | (st, Err e) => (st, None, Err e)
      | (st, Panic) => (st, None, Panic)
      end
  | Err e => (st, None, Err e)
  | Panic => (st, None, Panic)
  end.
End Manager.

(** ** Messages *)

Definition RuleProtocol_UNKNOWN : Z := 0.

Definition getProtoDirection (direction : Z) : Z :=
  if direction =? FirewallRuleDirectionOUT then RuleDirection_OUT else RuleDirection_IN.

Definition getProtoAction (action : bytes) : Z :=
  if bytes_eqb action PolicyTrafficActionDrop then RuleAction_DROP else RuleAction_ACCEPT.

Definition getProtoProtocol (protocol : bytes) : Z :=
  if bytes_eqb protocol PolicyRuleProtocolALL then RuleProtocol_ALL
  else if bytes_eqb protocol PolicyRuleProtocolTCP then RuleProtocol_TCP
  else if bytes_eqb protocol PolicyRuleProtocolUDP then RuleProtocol_UDP
  else if bytes_eqb protocol PolicyRuleProtocolICMP then RuleProtocol_ICMP
  else RuleProtocol_UNKNOWN.

Definition RulePortRange_ToProto (r : RulePortRange) : PortInfo := PortInfo_Range (Some (pr_Start r, pr_End r)).

Definition shouldUsePortRange (port : bytes) (protocol : Z) : bool :=
  empty port && ((protocol =? RuleProtocol_UDP) || (protocol =? RuleProtocol_TCP)).

Definition toProtocolFirewallRule (r : FirewallRule) : AclManager.FirewallRule :=
  let protocol := getProtoProtocol (fw_Protocol r) in
  mkFirewallRule (fw_PeerIP r) (getProtoDirection (fw_Direction r)) (getProtoAction (fw_Action r)) protocol (fw_Port r)
    (if shouldUsePortRange (fw_Port r) protocol then Some (RulePortRange_ToProto (fw_PortRange r)) else None) (fw_PolicyID r).

Definition toProtocolFirewallRules (rules : list FirewallRule) : list AclManager.FirewallRule :=
  toProtocolFirewallRule <$> rules.

Definition getProtoPortInfo (r : RouteFirewallRule) : PortInfo :=
  if negb (rfr_Port r =? 0) then PortInfo_Port (rfr_Port r)
  else if negb (pr_Start (rfr_PortRange r) =? 0) && negb (pr_End (rfr_PortRange r) =? 0)
  then PortInfo_Range (Some (pr_Start (rfr_PortRange r), pr_End (rfr_PortRange r)))
  else PortInfo_None.

(** [ToPunycodeList] returns the domains as strings. *)
Definition toProtocolRoutesFirewallRules (rules : list RouteFirewallRule) : list AclManager.RouteFirewallRule :=
  (λ r, mkRouteFirewallRule (rfr_SourceRanges r) (getProtoAction (rfr_Action r)) (rfr_Destination r)
          (getProtoProtocol (rfr_Protocol r)) (Some (getProtoPortInfo r)) (rfr_IsDynamic r) (default [] (rfr_Domains r))
          (rfr_PolicyID r)) <$> rules.

(** ** What is stored *)

(** The store returns groups and posture checks it has, and a policy that was
    stored, also after the serial of the network is increased. *)
Class PolicyStoreLaws (St : Type) `{PolicyStore St} := {
  st_groups : St → bytes → gmap bytes Group;
  st_checks : St → bytes → gset bytes;
  law_groups st acc ids m id g : GetGroupsByIDs st acc ids = Some m → m !! id = Some g → st_groups st acc !! id = Some g;
  law_checks st acc ids m id c : GetPostureChecksByIDs st acc ids = Some m → m !! id = Some c → id ∈ st_checks st acc;
  law_save st p st' : store_SavePolicy st p = Some st' → GetPolicyByID st' (po_AccountID p) (po_ID p) = Some p;
  law_create st p st' : store_CreatePolicy st p = Some st' → GetPolicyByID st' (po_AccountID p) (po_ID p) = Some p;
  law_serial st acc st' : IncrementNetworkSerial st acc = Some st' → GetPolicyByID st' = GetPolicyByID st
}.

(** A rule as the API accepts it.  Of a port range the request's start is checked
    from below and its end from above, before both are cut to 16 bits. *)
Record rule_valid (r : PolicyRule) : Prop := {
  rv_action : pr_Action r = PolicyTrafficActionAccept ∨ pr_Action r = PolicyTrafficActionDrop;
  rv_protocol : known_protocol (pr_Protocol r) = true;
  rv_ports : ∀ s, s ∈ pr_Ports r → ∃ v, ParseInt s = Some v ∧ 1 ≤ v ≤ 65535;
  rv_ranges : ∀ pr, pr ∈ pr_PortRanges r → ∃ s e, 1 ≤ s ∧ e ≤ 65535 ∧ pr = mkPortRange (u16 s) (u16 e);
  rv_either : pr_Ports r = [] ∨ pr_PortRanges r = [];
  rv_none : pr_Protocol r = PolicyRuleProtocolALL ∨ pr_Protocol r = PolicyRuleProtocolICMP →
    pr_Ports r = [] ∧ pr_PortRanges r = [];
  rv_authorized : pr_AuthorizedGroups r ≠ ∅ → pr_Protocol r = PolicyRuleProtocolNetbirdSSH
}.

Lemma reject_ok c e u : reject c e = Ok u → c = false.
Proof. unfold reject. by destruct c. Qed.

Lemma filled_false {A} (o : option (list A)) : filled o = false → default [] o = [].
Proof. by destruct o as [[]|]. Qed.

Lemma rule_of_request_valid policyID ru r : rule_of_request policyID ru = Ok r → rule_valid r ∧ pr_PolicyID r = policyID.
Proof.
  unfold rule_of_request. set (groups := default ∅ _). set (ssh := _ && negb (bool_decide (groups = ∅))).
  repeat match goal with |- context [obind (reject ?c ?e) _] =>
    let E := fresh "E" in destruct (reject c e) as [[]| |] eqn:E; [apply reject_ok in E|done..]; cbn [obind] end.
  intros [= <-]. split; [|done]. split; simpl.
  - apply negb_false_iff, orb_true_iff in E2. by rewrite !bytes_eqb_spec in E2.
  - by apply negb_false_iff in E3.
  - intros s Hs. destruct (bad_port s) eqn:Eb.
    { apply not_true_iff_false in E5. destruct E5. apply existsb_exists. exists s. by rewrite <- list_elem_of_In. }
    unfold bad_port in Eb. destruct (ParseInt s) as [v|]; [|done]. bool_facts. exists v. split; [done|lia].
  - intros pr ([s e] & -> & Hs)%list_elem_of_fmap. exists s, e. destruct (bad_range (s, e)) eqn:Eb.
    { apply not_true_iff_false in E6. destruct E6. apply existsb_exists. exists (s, e). by rewrite <- list_elem_of_In. }
    unfold bad_range in Eb. simpl in Eb. bool_facts. split_and!; [lia..|done].
  - apply andb_false_iff in E4 as [E4|E4]; apply filled_false in E4; rewrite E4; [by left|by right].
  - rewrite <- !bytes_eqb_spec, <- orb_true_iff. intros Ep. rewrite Ep in E8. cbn [andb] in E8.
    apply negb_false_iff, andb_true_iff in E8 as [H1 H2]. split; [by destruct (default [] (ru_Ports ru))|].
    by destruct (default [] (ru_PortRanges ru)).
  - destruct ssh eqn:Es; [|done]. intros _. unfold ssh in Es. apply andb_true_iff in Es as [Es _]. by apply bytes_eqb_spec in Es.
Qed.

Lemma rules_of_request_valid policyID rus rs :
  rules_of_request policyID rus = Ok rs →
  length rs = length rus ∧ ∀ r, r ∈ rs → rule_valid r ∧ pr_PolicyID r = policyID.
Proof.
  revert rs. induction rus as [|ru rus IH]; intros rs; cbn [rules_of_request].
  { intros [= <-]. split; [done|]. by intros r ?%elem_of_nil. }
  destruct (rule_of_request policyID ru) as [r| |] eqn:Er; [|done..]. destruct (rules_of_request policyID rus) as [rs'| |]; [|done..].
  cbn. intros [= <-]. destruct (IH rs' eq_refl) as [Hl Hv]. split; [simpl; by rewrite Hl|].
  intros x [->|Hx]%elem_of_cons; [by eapply rule_of_request_valid|auto].
Qed.

Lemma policy_of_request_valid acc pid req p :
  policy_of_request acc pid req = Ok p →
  po_ID p = pid ∧ po_AccountID p = acc ∧ po_Name p ≠ [] ∧ po_Rules p ≠ [] ∧ ∀ r, r ∈ po_Rules p → rule_valid r.
Proof.
  unfold policy_of_request. destruct (pu_Name req) as [|b name] eqn:En; [done|]. cbn [reject empty obind].
  destruct (pu_Rules req) as [|ru rus] eqn:Er; [done|]. cbn [reject empty obind].
  destruct (rules_of_request pid (ru :: rus)) as [rs| |] eqn:Ers; [|done..]. cbn. intros [= <-]. simpl.
  destruct (rules_of_request_valid _ _ _ Ers) as [Hl Hv]. split_and!; [done..| |].
  - by destruct rs.
  - intros r Hr. by apply Hv.
Qed.

Lemma complete_rule_valid pid groups r : rule_valid r → rule_valid (complete_rule pid groups r).
Proof. intros []. by split. Qed.

Lemma complete_rule_id pid groups r : pid ≠ [] → pr_ID (complete_rule pid groups r) ≠ [].
Proof. intros Hp. simpl. by destruct (pr_ID r). Qed.

(** The answer has every rule of the policy. *)
Lemma rule_answers_ids groups cache rules : pa_Id <$> rule_answers groups cache rules = pr_ID <$> rules.
Proof.
  revert cache. induction rules as [|r rules IH]; intros cache; [done|]. cbn [rule_answers].
  destruct (source_groups _ _ _) as [src c1]. destruct (destination_groups _ _ _) as [dst c2]. csimpl. by rewrite IH.
Qed.

Lemma equiv_valid r s : rule_equiv r s → rule_valid r → rule_valid s.
Proof.
  intros [[= ? ? ? ? ? Ea] [= ? Ep ? ? ?] _ _ Hp Hr Hg] [V1 V2 V3 V4 V5 V6 V7].
  assert (Hnil : pr_Ports r = [] → pr_Ports s = []) by (intros E; rewrite E in Hp; by apply Permutation_nil_l in Hp).
  assert (Hnilr : pr_PortRanges r = [] → pr_PortRanges s = []) by (intros E; rewrite E in Hr; by apply Permutation_nil_l in Hr).
  split; rewrite <- ?Ea, <- ?Ep; [done..| | | | |].
  - intros x Hx. apply V3. by rewrite Hp.
  - intros x Hx. apply V4. by rewrite Hr.
  - destruct V5; auto.
  - intros Hproto. destruct (V6 Hproto). auto.
  - intros Hne. apply V7. intros E. apply Hne. apply groups_perm_dom in Hg. rewrite E, dom_empty_L in Hg.
    by apply dom_empty_inv_L.
Qed.

(** What the comparison says when the rules of one policy have different ids. *)
Lemma policy_equal_contents p q :
  Policy_Equal p q = true → NoDup (pr_ID <$> po_Rules p) →
  (po_ID p, po_AccountID p, po_Name p, po_Description p, po_Enabled p) =
    (po_ID q, po_AccountID q, po_Name q, po_Description q, po_Enabled q) ∧
  po_SourcePostureChecks p ≡ₚ po_SourcePostureChecks q ∧
  ∃ l, l ≡ₚ po_Rules q ∧ Forall2 rule_equiv (po_Rules p) l.
Proof.
  unfold Policy_Equal.
  rewrite !andb_true_iff, !bytes_eqb_spec, eqb_true_iff, stringSlices_perm, Nat.eqb_eq, forallb_forall.
  setoid_rewrite <- list_elem_of_In. intros (((((((? & ?) & ?) & ?) & ?) & ?) & Hl) & Hr) Hn.
  split_and!; [congruence|done|]. apply matching_rules; [done..|]. intros r Hin. specialize (Hr r Hin).
  destruct (rules_by_id (po_Rules q) !! pr_ID r) as [s|] eqn:Es; [|done].
  exists s. split; [by eapply rules_by_id_elem|by apply PolicyRule_Equal_spec].
Qed.

(** *** No panic *)

Lemma rule_of_request_total pid ru : rule_of_request pid ru ≠ Panic.
Proof. unfold rule_of_request. repeat (unfold reject at 1; destruct (_ : bool); [done|]; cbn [obind]). done. Qed.

Lemma rules_of_request_total pid rus : rules_of_request pid rus ≠ Panic.
Proof.
  induction rus as [|ru rus IH]; [done|]. cbn [rules_of_request]. pose proof (rule_of_request_total pid ru).
  destruct (rule_of_request pid ru); [|done..]. cbn [obind]. by destruct (rules_of_request pid rus).
Qed.

Lemma policy_of_request_total acc pid req : policy_of_request acc pid req ≠ Panic.
Proof.
  unfold policy_of_request, reject. destruct (empty (pu_Name req)); [done|]. cbn [obind].
  destruct (empty (pu_Rules req)); [done|]. cbn [obind]. pose proof (rules_of_request_total pid (pu_Rules req)).
  by destruct (rules_of_request pid (pu_Rules req)).
Qed.

Section Saved.
Context {St : Type} {Hstore : PolicyStore St} {Hlaws : PolicyStoreLaws St}.

Lemma SavePolicy_total allowed newID (st : St) acc p : (SavePolicy allowed newID st acc p).2 ≠ Panic.
Proof using Type.
  unfold SavePolicy, save_body, validatePolicy, arePolicyChangesAffectPeersWithExisting, arePolicyChangesAffectPeers,
    anyGroupHasPeersOrResources, permitted, try.
  repeat (case_match; cbn [obind snd] in *; simplify_eq; try done).
Qed.

Lemma answer_ok groupsAllowed (st : St) acc p :
  po_Rules p ≠ [] →
  match (let! allGroups := GetAllGroups groupsAllowed st acc in
         let resp := toPolicyResponse allGroups p in
         let! _ := reject (empty (an_Rules resp)) errNoRulesInPolicy in
         Ok resp) with
  | Ok resp => an_Id resp = po_ID p ∧ pa_Id <$> an_Rules resp = pr_ID <$> po_Rules p
  | Err e => groupsAllowed ≠ Some true ∨ GetAccountGroups st acc = None
  | Panic => False
  end.
Proof using Type.
  intros Hr. unfold GetAllGroups, permitted, try. destruct groupsAllowed as [[|]|]; cbn [obind]; [|by left..].
  destruct (GetAccountGroups st acc) as [gs|]; cbn [obind]; [|by right].
  pose proof (rule_answers_ids (foldl (λ m g, <[g_ID g := g]> m) ∅ gs) ∅ (po_Rules p)) as Hids.
  unfold reject. cbn zeta. destruct (an_Rules (toPolicyResponse gs p)) eqn:E; cbn [empty obind].
  - cbn in E. rewrite E in Hids. by destruct (po_Rules p).
  - split; [done|]. exact Hids.
Qed.

Lemma valid_groups (st : St) acc ids m l gid :
  GetGroupsByIDs st acc ids = Some m → gid ∈ getValidGroupIDs m l → is_Some (st_groups st acc !! gid).
Proof using Hlaws.
  intros Hm Hin. unfold getValidGroupIDs in Hin. apply list_elem_of_In, filter_In in Hin as [_ Hin].
  destruct (m !! gid) as [g|] eqn:E; [|done]. rewrite (law_groups st acc ids m gid g Hm E). eauto.
Qed.

Lemma validatePolicy_ok newID (st : St) acc p q e :
  newID ≠ [] → po_AccountID p = acc → (∀ r, r ∈ po_Rules p → rule_valid r) → validatePolicy newID st acc p = Ok (q, e) →
  po_ID q = (if empty (po_ID p) then newID else po_ID p) ∧ po_ID q ≠ [] ∧ po_AccountID q = acc ∧ po_Name q = po_Name p ∧
  length (po_Rules q) = length (po_Rules p) ∧
  (∀ r, r ∈ po_Rules q → rule_valid r ∧ pr_ID r ≠ [] ∧
     ∀ gid, gid ∈ pr_Sources r ++ pr_Destinations r → is_Some (st_groups st acc !! gid)) ∧
  (∀ c, c ∈ po_SourcePostureChecks q → c ∈ st_checks st acc) ∧
  (∀ x, e = Some x → GetPolicyByID st acc (po_ID q) = Some x).
Proof using Hlaws.
  intros Hnew Hacc Hv. unfold validatePolicy.
  destruct (if negb _ then _ else _) as [[[pid pacc] ex]| |] eqn:Eid; [|done..]. cbn [obind].
  assert (Hid : pid = (if empty (po_ID p) then newID else po_ID p) ∧ pid ≠ [] ∧ pacc = acc ∧
    ∀ x, ex = Some x → GetPolicyByID st acc pid = Some x).
  { destruct (po_ID p) as [|b id]; cbn [empty negb] in *; [by injection Eid as <- <- <-|].
    destruct (GetPolicyByID st acc (b :: id)) as [x|] eqn:Ex; [|done]. cbn in Eid.
    destruct (List.find _ _); [done|]. injection Eid as <- <- <-. split_and!; [done..|]. intros y [= <-]. done. }
  clear Eid. destruct Hid as (Hid & Hne & -> & Hex). destruct (GetGroupsByIDs st acc _) as [gs|] eqn:Eg; [|done]. cbn [try obind].
  destruct (GetPostureChecksByIDs st acc _) as [cs|] eqn:Ec; [|done]. cbn [try obind]. intros [= <- <-]. simpl.
  split_and!; try done; [by rewrite length_fmap| |].
  - intros r (r0 & -> & Hr)%list_elem_of_fmap. split_and!; [by apply complete_rule_valid, Hv|by apply complete_rule_id|].
    simpl. intros gid [Hg|Hg]%elem_of_app; by eapply valid_groups.
  - intros c Hc. unfold getValidPostureCheckIDs in Hc. apply list_elem_of_In, filter_In in Hc as [_ Hc].
    destruct (cs !! c) as [x|] eqn:E; [|done]. exact (law_checks st acc _ cs c x Ec E).
Qed.

Lemma save_body_ok newID (st st' : St) acc p q update :
  po_AccountID p = acc →
  save_body newID st acc p = Ok (st', q, update) →
  ∃ e, validatePolicy newID st acc p = Ok (q, e) ∧ (po_AccountID q = acc → (∀ x, e = Some x → GetPolicyByID st acc (po_ID q) = Some x) →
    GetPolicyByID st' acc (po_ID q) = Some q ∨
    (st' = st ∧ ∃ x, GetPolicyByID st acc (po_ID q) = Some x ∧ Policy_Equal q x = true)).
Proof using Hlaws.
  intros Hacc. unfold save_body. destruct (validatePolicy newID st acc p) as [[q' e]| |]; [|done..]. cbn [obind].
  destruct e as [x|].
  - destruct (Policy_Equal q' x) eqn:Eq.
    { intros [= <- <- <-]. eexists. split; [done|]. intros _ He. right. split; [done|]. exists x. split; [by apply He|done]. }
    destruct (arePolicyChangesAffectPeersWithExisting st q' x) as [b| |]; [|done..]. cbn [obind].
    destruct (store_SavePolicy st q') as [st1|] eqn:Es; [|done]. cbn [try obind].
    destruct (IncrementNetworkSerial st1 acc) as [st2|] eqn:Ei; [|done]. cbn [try obind]. intros [= <- <- <-].
    eexists. split; [done|]. intros Ha _. left. rewrite (law_serial _ _ _ Ei), <- Ha. by eapply law_save.
  - destruct (arePolicyChangesAffectPeers st q') as [b| |]; [|done..]. cbn [obind].
    destruct (store_CreatePolicy st q') as [st1|] eqn:Es; [|done]. cbn [try obind].
    destruct (IncrementNetworkSerial st1 acc) as [st2|] eqn:Ei; [|done]. cbn [try obind]. intros [= <- <- <-].
    eexists. split; [done|]. intros Ha _. left. rewrite (law_serial _ _ _ Ei), <- Ha. by eapply law_create.
Qed.

(** A policy that is fit to be stored: what the handler and the account manager
    check. *)
Record policy_wf (st : St) (acc : bytes) (p : Policy) : Prop := {
  pw_id : po_ID p ≠ [];
  pw_account : po_AccountID p = acc;
  pw_name : po_Name p ≠ [];
  pw_rules : po_Rules p ≠ [];
  pw_rule r : r ∈ po_Rules p → rule_valid r ∧ pr_ID r ≠ [] ∧
    ∀ gid, gid ∈ pr_Sources r ++ pr_Destinations r → is_Some (st_groups st acc !! gid);
  pw_checks c : c ∈ po_SourcePostureChecks p → c ∈ st_checks st acc
}.

(** An equal policy is as fit, if the rules of one have different ids. *)
Lemma equal_wf (st : St) acc p e :
  Policy_Equal p e = true → NoDup (pr_ID <$> po_Rules p) → policy_wf st acc p → policy_wf st acc e.
Proof using Type.
  intros Heq Hn [W1 W2 W3 W4 W5 W6]. destruct (policy_equal_contents p e Heq Hn) as ([= E1 E2 E3 E4 E5] & Hc & l & Hl & Hf).
  split; [congruence..| | |].
  - intros E. rewrite E in Hl. apply Permutation_nil_r in Hl as ->. by apply Forall2_nil_inv_r in Hf.
  - intros s Hs. rewrite <- Hl in Hs. apply list_elem_of_lookup in Hs as [i Hi].
    destruct (Forall2_lookup_r _ _ _ _ _ Hf Hi) as (r & Hr%list_elem_of_lookup_2 & He).
    destruct (W5 r Hr) as (Hv & Hid & Hg). split_and!; [by eapply equiv_valid| |].
    + pose proof (re_scalars _ _ He) as [= E]. congruence.
    + intros gid Hgid. apply Hg. by rewrite (re_sources _ _ He), (re_destinations _ _ He).
  - intros c Hcin. apply W6. by rewrite Hc.
Qed.

Lemma SavePolicy_ok allowed newID (st : St) acc pid req p :
  newID ≠ [] → policy_of_request acc pid req = Ok p →
  match SavePolicy allowed newID st acc p with
  | (st', Ok (q, _)) =>
      allowed = Some true ∧ po_ID q = (if empty pid then newID else pid) ∧ policy_wf st acc q ∧
      (GetPolicyByID st' acc (po_ID q) = Some q ∨
       (st' = st ∧ ∃ e, GetPolicyByID st acc (po_ID q) = Some e ∧ Policy_Equal q e = true))
  | (st', _) => st' = st
  end.
Proof using Hlaws.
  intros Hnew Ep. destruct (policy_of_request_valid _ _ _ _ Ep) as (Hpid & Hacc & Hname & Hrules & Hv). unfold SavePolicy.
  destruct (permitted allowed) as [u| |] eqn:Ea; [|done..].
  destruct (save_body newID st acc p) as [[[st' q] update]| |] eqn:Es; [|done..].
  destruct (save_body_ok newID st st' acc p q update Hacc Es) as (e & Eval & Hst).
  destruct (validatePolicy_ok newID st acc p q e Hnew Hacc Hv Eval) as (V1 & V2 & V3 & V4 & V5 & V6 & V7 & V8).
  split_and!; [by destruct allowed as [[]|]|by rewrite V1, Hpid| |by apply Hst].
  split; [done..|by rewrite V4| |done|done]. intros E. rewrite E in V5. by destruct (po_Rules p).
Qed.

End Saved.

(** ** An account as a store *)

Definition account_store : PolicyStore Account := {|
  GetPolicyByID a _ id := List.find (λ p, bytes_eqb (po_ID p) id) (a_Policies a);
  GetGroupsByIDs a _ ids := Some (filter (λ kv : bytes * Group, kv.1 ∈ ids) (a_Groups a));
  GetAccountGroups a _ := Some (map_to_list (a_Groups a)).*2;
  GetPostureChecksByIDs a _ ids :=
    Some (list_to_map ((λ c, (pc_ID c, c)) <$> List.filter (λ c, bool_decide (pc_ID c ∈ ids)) (a_PostureChecks a)));
  store_SavePolicy a p :=
    if isSome (List.find (λ q, bytes_eqb (po_ID q) (po_ID p)) (a_Policies a))
    then Some (set_policies a ((λ q, if bytes_eqb (po_ID q) (po_ID p) then p else q) <$> a_Policies a)) else None;
  store_CreatePolicy a p :=
    if isSome (List.find (λ q, bytes_eqb (po_ID q) (po_ID p)) (a_Policies a))
    then None else Some (set_policies a (a_Policies a ++ [p]));
  store_DeletePolicy a _ id := Some (set_policies a (List.filter (λ p, negb (bytes_eqb (po_ID p) id)) (a_Policies a)));
  IncrementNetworkSerial a _ :=
    Some (set_peers a (mkNetwork (nw_Identifier (a_Network a)) (nw_Dns (a_Network a)) (u64 (nw_Serial (a_Network a) + 1)))
            (a_Peers a) (a_Groups a) (a_Routes a) (a_NetworkRouters a))
|}.

#[export] Existing Instance account_store.

Lemma find_app_none {A} (f : A → bool) l x : List.find f l = None → f x = true → List.find f (l ++ [x]) = Some x.
Proof. intros Hl Hx. induction l as [|y l IH]; simpl in *; [by rewrite Hx|]. destruct (f y); [done|auto]. Qed.

Lemma find_replaced (p : Policy) l :
  isSome (List.find (λ q, bytes_eqb (po_ID q) (po_ID p)) l) = true →
  List.find (λ q, bytes_eqb (po_ID q) (po_ID p)) ((λ q, if bytes_eqb (po_ID q) (po_ID p) then p else q) <$> l) = Some p.
Proof.
  induction l as [|q l IH]; [done|]. csimpl. destruct (bytes_eqb (po_ID q) (po_ID p)) eqn:E.
  - intros _. by rewrite (proj2 (bytes_eqb_spec _ _)).
  - rewrite E. apply IH.
Qed.

#[export] Instance account_store_laws : PolicyStoreLaws Account.
Proof.
  refine {| st_groups a _ := a_Groups a; st_checks a _ := list_to_set (pc_ID <$> a_PostureChecks a) |}.
  - intros st acc ids m id g [= <-] Hm. by apply map_lookup_filter_Some in Hm as [? _].
  - intros st acc ids m id c [= <-] Hm%elem_of_list_to_map_2. apply list_elem_of_fmap in Hm as (x & [= -> ->] & Hx).
    apply list_elem_of_In, filter_In in Hx as [Hx _]. apply elem_of_list_to_set, list_elem_of_fmap_2. by apply list_elem_of_In.
  - intros st p st'. cbn. destruct (isSome _) eqn:E; [|done]. intros [= <-]. by apply find_replaced.
  - intros st p st'. cbn. destruct (List.find _ (a_Policies st)) eqn:E; [done|]. intros [= <-].
    apply find_app_none; [done|]. by apply bytes_eqb_spec.
  - intros st acc st' [= <-]. done.
Defined.

(** ** From the rule to the packet filter *)

(** The port of a firewall rule, as the expansion makes it. *)
Definition port_shape (fr : FirewallRule) : Prop :=
  (fw_Port fr = [] ∧ fw_PortRange fr = mkPortRange 0 0) ∨
  (fw_Port fr = [] ∧ port_ok (fw_PortRange fr) ∧
   (fw_Protocol fr = PolicyRuleProtocolTCP ∨ fw_Protocol fr = PolicyRuleProtocolUDP)) ∨
  (∃ v, fw_Port fr ≠ [] ∧ ParseInt (fw_Port fr) = Some v ∧ 1 ≤ v ≤ 65535).

Definition plain_protocol (p : bytes) : Prop :=
  p = PolicyRuleProtocolALL ∨ p = PolicyRuleProtocolTCP ∨ p = PolicyRuleProtocolUDP ∨ p = PolicyRuleProtocolICMP.

Lemma known_plain rule q d :
  known_protocol (pr_Protocol rule) = true → plain_protocol (fw_Protocol (base_rule rule q d)).
Proof.
  unfold known_protocol, plain_protocol. rewrite existsb_exists. intros (x & Hx%list_elem_of_In & Ex%bytes_eqb_spec).
  unfold base_rule. cbn [fw_Protocol]. rewrite Ex. destruct (bytes_eqb x PolicyRuleProtocolNetbirdSSH) eqn:E; [tauto|]. apply bytes_eqb_false in E.
  rewrite !elem_of_cons, elem_of_nil in Hx. tauto.
Qed.

Lemma convert_protocol p : plain_protocol p → ∃ proto, convertToFirewallProtocol (getProtoProtocol p) = Ok proto.
Proof. intros [->|[->|[->| ->]]]; vm_compute; eauto. Qed.

Lemma convert_action a :
  ∃ action, convertFirewallAction (getProtoAction a) = Ok action ∧ (action = ActionDrop ↔ a = PolicyTrafficActionDrop).
Proof.
  unfold getProtoAction. destruct (bytes_eqb a PolicyTrafficActionDrop) eqn:E.
  - apply bytes_eqb_spec in E. exists ActionDrop. split; [done|tauto].
  - apply bytes_eqb_false in E. exists ActionAccept. split; [done|]. split; [done|congruence].
Qed.

(** The client reads from a message the ports of its firewall rule. *)
Lemma message_port fr :
  port_shape fr → ∃ port, rule_port (toProtocolFirewallRule fr) = Ok port ∧
    ∀ p, 0 < p < 2 ^ 16 → port_in port p ↔ port_matches fr p.
Proof.
  unfold rule_port, port_matches. intros [[E1 E2]|[(E1 & Hok & Hproto)|(v & Hne & Hv & Hr)]].
  - exists None. cbn. rewrite E1, E2. split; [|by intros; simpl; split; auto].
    destruct (shouldUsePortRange [] (getProtoProtocol (fw_Protocol fr))); done.
  - destruct (fw_PortRange fr) as [s e] eqn:Er. unfold port_ok in Hok. simpl in Hok.
    exists (Some (mkPort true [s; e])). cbn. rewrite E1, Er. unfold RulePortRange_ToProto. cbn [pr_Start pr_End].
    assert (shouldUsePortRange [] (getProtoProtocol (fw_Protocol fr)) = true) as -> by (destruct Hproto as [-> | ->]; done).
    cbn. rewrite (proj2 (Z.eqb_neq s 0)), (proj2 (Z.eqb_neq e 0)) by lia. cbn.
    unfold u16. rewrite !wrap_small by lia. split; [done|]. intros p Hp. simpl. split.
    + intros (lo & hi & r & [= <- <- <-] & ?). by right.
    + intros [?|?]; [lia|]. by exists s, e, [].
  - exists (Some (mkPort false [v])). cbn. unfold shouldUsePortRange. destruct (fw_Port fr) as [|b s] eqn:Ep; [done|].
    cbn [empty andb portInfoEmpty negb]. rewrite bool_decide_false by done. rewrite Hv.
    rewrite (proj2 (Z.ltb_ge v 1)), (proj2 (Z.ltb_ge 65535 v)) by lia. cbn. unfold u16. rewrite wrap_small by lia.
    split; [done|]. intros p Hp. rewrite list_elem_of_singleton. split; congruence.
Qed.

Section EndToEnd.
Context `{GoVersion Version} (parse_ip : bytes → option bytes).

(** The ranges that make sense: the API does not check their order. *)
Definition ranges_ok (rule : PolicyRule) : Prop := ∀ r, r ∈ pr_PortRanges rule → port_ok r.

Lemma valid_ports_of rule : rule_valid rule → ranges_ok rule → valid_ports rule.
Proof using Type.
  intros Hv Hr. split; [|done]. intros s Hs ->. destruct (rv_ports _ Hv [] Hs) as (v & Hp & _). done.
Qed.

Lemma range_protocol rule q d :
  rule_valid rule → pr_PortRanges rule ≠ [] →
  fw_Protocol (base_rule rule q d) = PolicyRuleProtocolTCP ∨ fw_Protocol (base_rule rule q d) = PolicyRuleProtocolUDP.
Proof using Type.
  intros Hv Hr. destruct (known_plain rule q d (rv_protocol _ Hv)) as [E|[E|[E|E]]]; [|by left|by right|].
  - destruct (rv_none _ Hv) as [_ ?]; [left|done]. simpl in E. by destruct (bytes_eqb _ PolicyRuleProtocolNetbirdSSH).
  - destruct (rv_none _ Hv) as [_ ?]; [right|done]. simpl in E. by destruct (bytes_eqb _ PolicyRuleProtocolNetbirdSSH).
Qed.

Lemma rule_for_shape t rule q d fr :
  rule_valid rule → ranges_ok rule → fr ∈ rule_for t rule q d →
  port_shape fr ∧ fw_Protocol fr = fw_Protocol (base_rule rule q d).
Proof using Type.
  intros Hv Hr Hfr. set (base := base_rule rule q d).
  destruct (rule_for_cases t rule q d fr Hfr) as [(-> & _)|[Hex|(-> & _)]].
  - split; [by left|done].
  - unfold expansion in Hex. apply elem_of_app in Hex as [Hex|Hex].
    + apply list_elem_of_fmap in Hex as (s & -> & Hs). split; [|done]. right. right.
      destruct (rv_ports _ Hv s Hs) as (v & Hp & ?). exists v. split_and!; [|done|lia..]. simpl. by intros ->.
    + destruct (empty (pr_Ports rule)); [|by apply elem_of_nil in Hex].
      apply list_elem_of_bind in Hex as (r & Hex & Hin). specialize (Hr r Hin). unfold expand_range in Hex.
      assert (Hne : pr_PortRanges rule ≠ []) by (intros E; rewrite E in Hin; by apply elem_of_nil in Hin).
      case_if; [|case_if; [by apply elem_of_nil in Hex|]]; apply list_elem_of_singleton in Hex as ->; (split; [|done]); right.
      * left. split_and!; [done..|]. by apply range_protocol.
      * right. exists (pr_Start r). unfold port_ok in Hr. split_and!; [apply FormatInt_nonempty|apply ParseInt_FormatInt|..]; lia.
  - split; [|done]. right. right. exists 22022. split_and!; [done|vm_compute; reflexivity|done..].
Qed.

(** C13: The ports of a policy rule, from the API to the packet filter.  For a rule
    that the API accepts, with ranges in order, and a client that understands port
    ranges, every message the server sends for another peer is one the client can
    read; it carries the action of the rule, and opens a port only if the rule has
    it, or the native SSH port of a rule with port 22; and every port of the rule
    is opened by one of the messages. *)
Theorem policy_ports_end_to_end t rule q d ip :
  rule_valid rule → ranges_ok rule → portRanges (peerSupportedFirewallFeatures (WtVersion (Meta t))) = true →
  parse_ip (IP_String (IP q)) = Some ip →
  let msgs := toProtocolFirewallRules (rule_for t rule q d) in
  let opens m action port := ∃ proto, convert_rule parse_ip m = Ok (ip, proto, action, port) in
  (∀ m, m ∈ msgs → ∃ action port, opens m action port ∧ (action = ActionDrop ↔ pr_Action rule = PolicyTrafficActionDrop) ∧
     ∀ p, 0 < p < 2 ^ 16 → port_in port p → rule_covers rule p ∨ (p = 22022 ∧ native_ssh t rule ∧ rule_covers rule 22)) ∧
  (∀ p, 0 < p < 2 ^ 16 → rule_covers rule p → ∃ m action port, m ∈ msgs ∧ opens m action port ∧ port_in port p).
Proof using Type.
  intros Hv Hr Hfeat Hip. cbn zeta. destruct (port_expansion t rule q d (valid_ports_of rule Hv Hr)) as [Hsound Hcomplete].
  assert (Hread : ∀ fr, fr ∈ rule_for t rule q d → ∃ proto action port,
    convert_rule parse_ip (toProtocolFirewallRule fr) = Ok (ip, proto, action, port) ∧
    (action = ActionDrop ↔ pr_Action rule = PolicyTrafficActionDrop) ∧
    ∀ p, 0 < p < 2 ^ 16 → port_in port p ↔ port_matches fr p).
  { intros fr Hfr. destruct (rule_for_shape t rule q d fr Hv Hr Hfr) as [Hshape Hproto].
    destruct (Hsound fr Hfr) as (_ & Hpeer & _ & Hact & _).
    destruct (message_port fr Hshape) as (port & Eport & Hport).
    destruct (convert_protocol (fw_Protocol fr)) as (proto & Eproto); [rewrite Hproto; by apply known_plain, rv_protocol|].
    destruct (convert_action (fw_Action fr)) as (action & Eact & Haction).
    exists proto, action, port. split; [|split; [by rewrite Haction, Hact|done]].
    unfold convert_rule. rewrite Eport. cbn [toProtocolFirewallRule fr_PeerIP fr_Protocol fr_Action].
    by rewrite Hpeer, Hip, Eproto, Eact. }
  split.
  - intros m (fr & -> & Hfr)%list_elem_of_fmap. destruct (Hread fr Hfr) as (proto & action & port & E & Ha & Hp).
    exists action, port. split; [by exists proto|]. split; [done|]. intros p Hrange Hin.
    destruct (Hsound fr Hfr) as (_ & _ & _ & _ & Hs). apply Hs; [done|]. by apply Hp.
  - intros p Hrange Hc. destruct (Hcomplete Hfeat p Hc) as (fr & Hfr & Hm).
    destruct (Hread fr Hfr) as (proto & action & port & E & _ & Hp). exists (toProtocolFirewallRule fr), action, port.
    split; [by apply list_elem_of_fmap_2|]. split; [by exists proto|]. by apply Hp.
Qed.
End EndToEnd.

(** ** Examples *)

Definition tcp_request (ports : option (list bytes)) (ranges : option (list (Z * Z))) : PolicyRuleUpdate :=
  mkRuleUpdate None (str "web") None true (str "accept") false (str "tcp") ports ranges (Some [str "clients"; str "gone"]) None
    (Some [str "servers"]) None None.

Definition web_request (rules : list PolicyRuleUpdate) : PolicyUpdate := mkPolicyUpdate (str "web") None true rules None.

Definition no_policies : Account := set_policies two_peers [].

(** The account after a request, the policy saved and the answer. *)
Definition after (rules : list PolicyRuleUpdate) : Account * option (Policy * bool) * outcome policyErr PolicyAnswer :=
  savePolicy (Some true) (Some true) (str "policy-1") no_policies (str "account") [] (web_request rules).

Definition saved_rules (rules : list PolicyRuleUpdate) : list PolicyRule :=
  match (after rules).1.2 with Some (p, _) => po_Rules p | None => [] end.


Definition web_rule : PolicyRule :=
  plain_rule "rule-1" [str "clients"] [str "servers"] false PolicyRuleProtocolTCP [] [mkPortRange 8000 8080].

Lemma policy_ports_end_to_end_witness :
  ∃ m action port, m ∈ toProtocolFirewallRules (rule_for peer_b web_rule peer_a FirewallRuleDirectionIN) ∧
    (∃ proto, convert_rule (λ _, Some (ip4 100 64 0 1)) m = Ok (ip4 100 64 0 1, proto, action, port)) ∧ port_in port 8042.
Proof.
  apply (policy_ports_end_to_end (λ _, Some (ip4 100 64 0 1)) peer_b web_rule peer_a FirewallRuleDirectionIN (ip4 100 64 0 1)).
  - split; simpl; [by left|vm_compute; reflexivity|by intros s ?%elem_of_nil|  |by left|by intros [?|?]|done].
    intros r ->%list_elem_of_singleton. by exists 8000, 8080.
  - intros r Hr. apply list_elem_of_singleton in Hr as ->. unfold port_ok. simpl. lia.
  - vm_compute. reflexivity.
  - reflexivity.
  - lia.
  - right. right. split; [done|]. exists (mkPortRange 8000 8080). split; [by left|simpl; lia].
Defined.

(** A port range is only checked at one end on each side, and a client takes a
    range with a zero for no restriction: the request to open the range 443 to 0
    is accepted, and the client opens every TCP port. *)
Theorem half_range_opens_all :
  let rules := saved_rules [tcp_request None (Some [(443, 0)])] in
  ∃ r fr, rules = [r] ∧ rule_for peer_b r peer_a FirewallRuleDirectionIN = [fr] ∧
    rule_port (toProtocolFirewallRule fr) = Ok None ∧ ∀ p, port_in None p.
Proof. eexists _, _. split_and!; [vm_compute; reflexivity..|done]. Qed.

(** The new rules of a policy all get the id of the policy.  Of two rules for the
    same groups with port ranges the second is then taken for the first and
    dropped: the servers open port 80 and not 443. *)
Theorem new_rules_collide :
  let rules := [tcp_request None (Some [(80, 80)]); tcp_request None (Some [(443, 443)])] in
  let opened := (GetPeerConnectionResources (after rules).1.1 peer_b both_valid ∅).1.1.2 in
  pr_ID <$> saved_rules rules = [str "policy-1"; str "policy-1"] ∧
  (∃ fr, fr ∈ opened ∧ port_matches fr 80) ∧ (∀ fr, fr ∈ opened → ¬ port_matches fr 443).
Proof.
  cbn zeta. set (opened := (GetPeerConnectionResources _ _ _ _).1.1.2).
  assert (Eo : opened = [mkFwRule (str "policy-1") (str "100.64.0.1") 0 (str "accept") (str "tcp") [] (mkPortRange 80 80)])
    by (vm_compute; reflexivity).
  rewrite Eo. split; [vm_compute; reflexivity|]. split.
  - eexists. split; [by left|]. unfold port_matches. simpl. lia.
  - intros fr Hfr. apply list_elem_of_singleton in Hfr as ->. unfold port_matches. simpl. lia.
Qed.

(** An update whose rules all have the id of the policy is compared with the last
    of the stored rules only: the request that takes port 80 away is skipped as
    equal to the stored policy, and port 80 stays open. *)
Theorem equal_update_lost :
  let rules := [tcp_request None (Some [(80, 80)]); tcp_request None (Some [(443, 443)])] in
  let update := [tcp_request None (Some [(443, 443)]); tcp_request None (Some [(443, 443)])] in
  let result := savePolicy (Some true) (Some true) [] (after rules).1.1 (str "account") (str "policy-1") (web_request update) in
  let ranges := λ p, pr_PortRanges <$> po_Rules p in
  (∃ p, result.1.2 = Some (p, false) ∧ ranges p = [[mkPortRange 443 443]; [mkPortRange 443 443]]) ∧
  ∃ q, GetPolicyByID result.1.1 (str "account") (str "policy-1") = Some q ∧ ranges q = [[mkPortRange 80 80]; [mkPortRange 443 443]].
Proof. cbn zeta. split; eexists; split; vm_compute; reflexivity. Qed.

(** The answer leaves out a source group that an earlier rule named: of two rules
    for the same clients the second is shown without sources. *)
Theorem answer_drops_sources :
  let rules := [tcp_request None (Some [(80, 80)]); tcp_request None (Some [(443, 443)])] in
  (pr_Sources <$> saved_rules rules) = [[str "clients"]; [str "clients"]] ∧
  ∃ resp, (after rules).2 = Ok resp ∧ (λ a, gm_Id <$> pa_Sources a) <$> an_Rules resp = [[str "clients"]; []].
Proof. cbn zeta. split; [vm_compute; reflexivity|]. eexists. split; vm_compute; reflexivity. Qed.
