(* ===== verification/PeerAddresses.v ===== *)
(** * Addresses of peers and setup keys

    management/server/types/network.go ([AllocatePeerIP] and its helpers), the
    change of an account's network range (the checks of
    management/server/http/handlers/accounts, [reallocateAccountPeerIPs] and the
    update of one address in management/server/account.go) and
    management/server/types/setupkey.go.

    The draws of the random generator are an argument: [Intn i n] is the result of
    the [i]-th call, with bound [n]. *)

From stdpp Require Import base list gmap strings.
From S2P Require Import Prelude GoStd GoStrings NetIP FirewallRules AclManager Routes Peers Posture PolicyTypes Account PeerPolicy NetworkMap.

#[local] Open Scope go_scope.

(** ** [net.IPNet] *)

(** An address and the size of a canonical mask. *)
Record IPNet := mkIPNet { net_IP : bytes; net_ones : Z; net_bits : Z }.

Definition is_v4_mapped (ip : bytes) : bool :=
  bool_decide (length ip = 16%nat) && bytes_eqb (take 12 ip) v4InV6Prefix.

(** [IP.To4] *)
Definition To4 (ip : bytes) : bytes :=
  if bool_decide (length ip = 4%nat) then ip else if is_v4_mapped ip then drop 12 ip else [].

(** [IP.Mask] with the mask of [ones] bits: nil when the lengths do not fit. *)
Definition IP_Mask (ip : bytes) (ones bits : Z) : bytes :=
  let '(ones, len) := if (bits =? 128) && bool_decide (length ip = 4%nat) && (96 <=? ones) then (ones - 96, 4%nat)
                      else (ones, Z.to_nat (bits / 8)) in
  let ip := if bool_decide (len = 4%nat) && is_v4_mapped ip then drop 12 ip else ip in
  if bool_decide (length ip = len) then be_bytes len (mask_bits (8 * Z.of_nat len) ones (be_number ip)) else [].

(** ** Allocation *)

Inductive addressErr :=
| errOutOfIPs | errLoopback | errMulticast | errLinkLocal | errTooSmall | errCapacity | errNotInRange | errAssigned (peerID : bytes).

Definition ipToUint32 (ip : bytes) : Z := let ip := To4 ip in if (length ip <? 4)%nat then 0 else be_number ip.

Definition uint32ToIP (n : Z) : bytes := be_bytes 4 n.

Definition network_base (n : IPNet) : Z := ipToUint32 (IP_Mask (net_IP n) (net_ones n) (net_bits n)).

(** [uint32(1 << hostBits)] *)
Definition network_total (n : IPNet) : Z := u32 (Z.shiftl 1 (net_bits n - net_ones n)).

(** [rng.Intn(n)] panics for a bound that is not positive. *)
Definition draw (Intn : nat → Z → Z) (i : nat) (n : Z) : total Z := if n <=? 0 then Panic else Ok (Intn i n).

Fixpoint attempts (Intn : nat → Z → Z) (base total_ips : Z) (taken : gset Z) (i n : nat) : total (option Z) :=
  match n with
  | O => Ok None
  | S n =>
      let! r := draw Intn i (u32 (total_ips - 2)) in
      let candidate := u32 (base + u32 (r + 1)) in
      if bool_decide (candidate ∈ taken) then attempts Intn base total_ips taken (S i) n else Ok (Some candidate)
  end.

(** The sweep over the offsets below [limit]; it ends after at most one more
    step than there are taken addresses. *)
Fixpoint sweep (base limit : Z) (taken : gset Z) (offset : Z) (fuel : nat) : option Z :=
  match fuel with
  | O => None
  | S fuel =>
      if offset <? limit then
        let candidate := u32 (base + offset) in
        if bool_decide (candidate ∈ taken) then sweep base limit taken (offset + 1) fuel else Some candidate
      else None
  end.

Definition taken_set (n : IPNet) (takenIps : list bytes) : gset Z :=
  {[network_base n; u32 (network_base n + network_total n - 1)]} ∪ list_to_set (ipToUint32 <$> takenIps).

Definition AllocatePeerIP (Intn : nat → Z → Z) (n : IPNet) (takenIps : list bytes) : outcome addressErr bytes :=
  let base := network_base n in
  let total_ips := network_total n in
  let taken := taken_set n takenIps in
  let maxAttempts := Z.quot (total_ips - Z.of_nat (size taken)) 100 in
  match attempts Intn base total_ips taken 0 (Z.to_nat maxAttempts) with
  | Ok (Some candidate) => Ok (uint32ToIP candidate)
  | Ok None =>
      match sweep base (u32 (total_ips - 1)) taken 1 (S (size taken)) with
      | Some candidate => Ok (uint32ToIP candidate)
      | None => Err errOutOfIPs
      end
  | Err e => match e with end
  | Panic => Panic
  end.

(** No address is known to be free: the caller tries to store the peer. *)
Definition AllocateRandomPeerIP (Intn : nat → Z → Z) (n : IPNet) : total bytes :=
  let! r := draw Intn 0 (u32 (network_total n - 2)) in
  Ok (uint32ToIP (u32 (network_base n + u32 (r + 1)))).

(** ** The range of an account *)

Definition IsLoopback (a : Addr) : bool :=
  match Unmap a with Addr4 n => Z.shiftr n 24 =? 127 | Addr6 n _ => n =? 1 | AddrZero => false end.

Definition IsMulticast (a : Addr) : bool :=
  match Unmap a with Addr4 n => Z.land (Z.shiftr n 24) 0xf0 =? 0xe0 | Addr6 n _ => Z.shiftr n 120 =? 0xff | AddrZero => false end.

Definition IsLinkLocalUnicast (a : Addr) : bool :=
  match Unmap a with
  | Addr4 n => Z.shiftr n 16 =? 0xa9fe
  | Addr6 n _ => Z.land (Z.shiftr n 112) 0xffc0 =? 0xfe80
  | AddrZero => false
  end.

Definition IsLinkLocalMulticast (a : Addr) : bool :=
  match Unmap a with
  | Addr4 n => Z.shiftr n 8 =? 0xe00000
  | Addr6 n _ => Z.land (Z.shiftr n 112) 0xff0f =? 0xff02
  | AddrZero => false
  end.

Definition validateIPAddress (a : Addr) : outcome addressErr unit :=
  if IsLoopback a then Err errLoopback
  else if IsMulticast a then Err errMulticast
  else if IsLinkLocalUnicast a || IsLinkLocalMulticast a then Err errLinkLocal
  else Ok tt.

Definition MinNetworkBitsIPv4 : Z := 28.

Definition MinNetworkBitsIPv6 : Z := 120.

Definition MinRequiredAddresses : Z := 10.

Definition validateMinimumSize (p : Prefix) : outcome addressErr unit :=
  if (Is4 (pf_addr p) && (MinNetworkBitsIPv4 <? pf_bits p)) || (Is6 (pf_addr p) && (MinNetworkBitsIPv6 <? pf_bits p))
  then Err errTooSmall else Ok tt.

(** [int64(1) << n]: zero from 64 bits on, negative for 63. *)
Definition calculateMaxHosts (p : Prefix) : Z :=
  let hosts := i64 (Z.shiftl 1 (BitLen (pf_addr p) - pf_bits p)) in
  if Is4 (pf_addr p) then hosts - 2 else hosts.

(** A half of the peers is added, [int64(float64(n) * 0.5)]. *)
Definition calculateRequiredAddresses (peerCount : Z) : Z :=
  Z.max MinRequiredAddresses (peerCount + peerCount / 2).

Definition validateCapacity (p : Prefix) (peerCount : Z) : outcome addressErr unit :=
  if calculateMaxHosts p <? calculateRequiredAddresses peerCount then Err errCapacity else Ok tt.

Definition validateNetworkRange (p : Prefix) (peerCount : Z) : outcome addressErr unit :=
  if negb (Prefix_IsValid p) then Ok tt
  else
    let! _ := validateIPAddress (pf_addr p) in
    let! _ := validateMinimumSize p in
    validateCapacity p peerCount.

Definition ipnet_of (p : Prefix) : IPNet := mkIPNet (AsSlice (pf_addr (Masked p))) (pf_bits p) (BitLen (pf_addr p)).

(** The addresses of the peers in order; [Intn k] are the draws for the [k]-th
    peer. *)
Fixpoint reallocate (Intn : nat → nat → Z → Z) (n : IPNet) (k : nat) (peers : list Peer) (taken : list bytes) :
    outcome addressErr (list bytes) :=
  match peers with
  | [] => Ok []
  | _ :: peers =>
      let! ip := AllocatePeerIP (Intn k) n taken in
      let! ips := reallocate Intn n (S k) peers (taken ++ [ip]) in
      Ok (ip :: ips)
  end.

Definition set_peer_IP (p : Peer) (ip : bytes) : Peer :=
  mkPeer (ID p) (AccountID p) (Key p) ip (Meta p) (Peer_ProxyMeta p) (Name p) (DNSLabel p) (Status p) (UserID p)
    (SSHKey p) (SSHEnabled p) (LoginExpirationEnabled p) (InactivityExpirationEnabled p) (LastLogin p) (CreatedAt p)
    (Ephemeral p) (Peer_Location p) (ExtraDNSLabels p) (AllowExtraDNSLabels p).

(** [reallocateAccountPeerIPs]: the peers with their new addresses. *)
Definition reallocateAccountPeerIPs (Intn : nat → nat → Z → Z) (range : Prefix) (peers : list Peer) :
    outcome addressErr (list Peer) :=
  if negb (Prefix_IsValid range) then Ok peers
  else
    let! ips := reallocate Intn (ipnet_of range) 0 peers [] in
    Ok (zip_with set_peer_IP peers ips).

(** ** Allocation is right *)

Lemma u32_offset_inj base x y : 0 ≤ x < 2 ^ 32 → 0 ≤ y < 2 ^ 32 → u32 (base + x) = u32 (base + y) → x = y.
Proof.
  unfold u32, wrap. intros Hx Hy E.
  assert ((x - y) mod 2 ^ 32 = 0).
  { replace (x - y) with ((base + x) - (base + y)) by lia. by rewrite Zminus_mod, E, Z.sub_diag. }
  Z.to_euclidean_division_equations. lia.
Qed.

Lemma sweep_some base limit taken offset fuel c :
  0 ≤ offset → sweep base limit taken offset fuel = Some c → ∃ off, offset ≤ off < limit ∧ c = u32 (base + off) ∧ c ∉ taken.
Proof.
  revert offset. induction fuel as [|fuel IH]; intros offset Ho; cbn [sweep]; [done|].
  destruct (offset <? limit) eqn:E; [|done]. bool_facts. case_bool_decide as Hin.
  - intros (off & ? & ? & ?)%IH; [|lia]. exists off. split_and!; [lia..|done|done].
  - intros [= <-]. exists offset. split_and!; [lia..|done|done].
Qed.

(** The sweep misses no free address: it stops early only after as many steps as
    there are taken addresses and one more, and its candidates differ. *)
Lemma sweep_none base limit taken offset fuel (seen : gset Z) :
  0 ≤ offset → limit ≤ 2 ^ 32 → seen ⊆ taken → (size taken < size seen + fuel)%nat →
  (∀ c, c ∈ seen → ∃ off, 0 ≤ off < offset ∧ c = u32 (base + off)) →
  sweep base limit taken offset fuel = None → ∀ off, offset ≤ off < limit → u32 (base + off) ∈ taken.
Proof.
  revert offset seen. induction fuel as [|fuel IH]; intros offset seen Ho Hl Hsub Hfuel Hseen Hs off Hoff; cbn [sweep] in Hs.
  { exfalso. pose proof (subseteq_size _ _ Hsub). lia. }
  rewrite (proj2 (Z.ltb_lt offset limit)) in Hs by lia. case_bool_decide as Hin; [|done].
  destruct (decide (off = offset)) as [->|Hne]; [done|].
  assert (Hnew : u32 (base + offset) ∉ seen).
  { intros (off' & ? & E)%Hseen. apply (u32_offset_inj base offset off') in E; lia. }
  apply (IH (offset + 1) ({[u32 (base + offset)]} ∪ seen)); [lia|done|set_solver| | |done|lia].
  - rewrite size_union by set_solver. rewrite size_singleton. lia.
  - intros c [->%elem_of_singleton|(off' & ? & ?)%Hseen]%elem_of_union; [exists offset|exists off']; (split; [lia|done]).
Qed.
(** The network of an IPv4 range: its first address and its host bits. *)
Record v4net (n : IPNet) (b h : Z) : Prop := {
  vn_base : network_base n = b;
  vn_bits : net_bits n - net_ones n = h;
  vn_h : 0 ≤ h ≤ 32;
  vn_range : 0 ≤ b ∧ b + 2 ^ h ≤ 2 ^ 32
}.

Lemma v4net_numbers n b h :
  v4net n b h → u32 (network_total n - 1) = 2 ^ h - 1 ∧ u32 (b + network_total n - 1) = b + 2 ^ h - 1 ∧
  (0 < network_total n → network_total n = 2 ^ h) ∧ 0 ≤ network_total n.
Proof.
  intros [Hb Hbits Hh Hr]. unfold network_total. rewrite Hbits, Z.shiftl_mul_pow2 by lia. rewrite Z.mul_1_l.
  destruct (decide (h = 32)) as [->|Hne].
  - assert (b = 0) as -> by lia. split_and!; vm_compute; done.
  - assert (1 ≤ 2 ^ h) by (change 1 with (2 ^ 0); apply Z.pow_le_mono_r; lia).
    assert (2 ^ h ≤ 2 ^ 31) by (apply Z.pow_le_mono_r; lia). change (2 ^ 31) with 2147483648 in *.
    unfold u32. rewrite (wrap_small 32 (2 ^ h)) by lia. rewrite !wrap_small by lia. lia.
Qed.

Section Allocate.
Context (Intn : nat → Z → Z) (HIntn : ∀ i n, 0 < n → 0 ≤ Intn i n < n).

Lemma attempts_ok base total_ips taken i n :
  total_ips < 2 ^ 32 → (n = 0%nat ∨ 2 < total_ips) →
  ∃ r, attempts Intn base total_ips taken i n = Ok r ∧
    ∀ c, r = Some c → c ∉ taken ∧ ∃ off, 1 ≤ off < total_ips - 1 ∧ c = u32 (base + off).
Proof using HIntn.
  intros Ht. revert i. induction n as [|n IH]; intros i Hn; cbn [attempts]; [eexists; split; [done|]; done|].
  destruct Hn as [?|Hn]; [done|]. unfold draw. unfold u32 at 1 2. rewrite wrap_small by lia.
  rewrite (proj2 (Z.leb_gt _ _)) by lia. cbn [obind]. pose proof (HIntn i (total_ips - 2)) as Hi.
  case_bool_decide as Hin; [apply IH; by right|]. eexists. split; [done|]. intros c [= <-]. split; [done|].
  exists (Intn i (total_ips - 2) + 1). unfold u32 at 2. rewrite wrap_small by lia. split; [lia|done].
Qed.

Lemma AllocatePeerIP_spec n b h taken :
  v4net n b h →
  match AllocatePeerIP Intn n taken with
  | Ok ip => ∃ off, 1 ≤ off < 2 ^ h - 1 ∧ ip = uint32ToIP (b + off) ∧ b + off ∉ ipToUint32 <$> taken
  | Err e => e = errOutOfIPs ∧ ∀ off, 1 ≤ off < 2 ^ h - 1 → b + off ∈ ipToUint32 <$> taken
  | Panic => False
  end.
Proof using HIntn.
  intros Hn. destruct (v4net_numbers n b h Hn) as (Hlim & Hbc & Htot & Htot0). destruct Hn as [Hb _ Hh Hr].
  assert (Hu : ∀ off, 0 ≤ off < 2 ^ h → u32 (b + off) = b + off) by (intros; unfold u32; apply wrap_small; lia).
  assert (Htaken : ∀ x, x ∈ taken_set n taken ↔ x = b ∨ x = b + 2 ^ h - 1 ∨ x ∈ ipToUint32 <$> taken).
  { intros x. unfold taken_set. rewrite Hb, Hbc, !elem_of_union, !elem_of_singleton, elem_of_list_to_set. tauto. }
  unfold AllocatePeerIP. rewrite Hb, Hlim. set (T := taken_set n taken) in *. set (m := Z.to_nat _).
  assert (Hm : m = 0%nat ∨ 2 < network_total n).
  { destruct (decide (network_total n - Z.of_nat (size T) < 100)) as [Hlt|Hge]; [left|right; lia].
    unfold m. destruct (decide (network_total n - Z.of_nat (size T) < 0)).
    - rewrite Z.quot_div by lia. Z.to_euclidean_division_equations. lia.
    - rewrite Z.quot_small by lia. done. }
  assert (network_total n < 2 ^ 32) by (unfold network_total, u32; apply wrap_range; lia).
  destruct (attempts_ok b (network_total n) T 0 m) as (r & -> & Hr1); [done..|]. destruct r as [c|].
  - destruct (Hr1 c eq_refl) as (Hc & off & Hoff & ->). rewrite Htot in Hoff by lia. rewrite Hu in Hc |- * by lia.
    exists off. split_and!; [lia..|done|]. intros Hin. apply Hc, Htaken. tauto.
  - destruct (sweep b (2 ^ h - 1) T 1 (S (size T))) as [c|] eqn:Es.
    + apply sweep_some in Es as (off & Hoff & -> & Hc); [|lia]. rewrite Hu in Hc |- * by lia.
      exists off. split_and!; [lia..|done|]. intros Hin. apply Hc, Htaken. tauto.
    + split; [done|]. intros off Hoff.
      assert (Hin : u32 (b + off) ∈ T).
      { apply (sweep_none b (2 ^ h - 1) T 1 (S (size T)) ∅); [lia| |set_solver|rewrite size_empty; lia|set_solver|done|lia].
        assert (2 ^ h ≤ 2 ^ 32) by (apply Z.pow_le_mono_r; lia). lia. }
      rewrite Hu in Hin by lia. apply Htaken in Hin as [?|[?|?]]; [lia..|done].
Qed.
End Allocate.

Lemma ipToUint32_of x : 0 ≤ x < 2 ^ 32 → ipToUint32 (uint32ToIP x) = x.
Proof.
  intros Hx. unfold ipToUint32, uint32ToIP, To4. rewrite length_addr_bytes, bool_decide_true, length_addr_bytes by done.
  simpl. by apply be_number_bytes4.
Qed.

Lemma mask_v4 N bits : 0 ≤ N < 2 ^ 32 → 0 ≤ bits ≤ 32 →
  let b := mask_bits 32 bits N in
  0 ≤ b ∧ b + 2 ^ (32 - bits) ≤ 2 ^ 32 ∧
  ∀ off, 0 ≤ off < 2 ^ (32 - bits) → Z.shiftr (b + off) (32 - bits) = Z.shiftr N (32 - bits).
Proof.
  intros HN Hb. cbn zeta. unfold mask_bits. set (h := 32 - bits).
  rewrite Z.shiftl_mul_pow2, !Z.shiftr_div_pow2 by lia.
  assert (Hpow : 2 ^ 32 = 2 ^ bits * 2 ^ h) by (rewrite <- Z.pow_add_r by lia; f_equal; lia).
  assert (0 < 2 ^ h) by (apply Z.pow_pos_nonneg; lia). set (k := N / 2 ^ h).
  assert (Hk : 0 ≤ k < 2 ^ bits).
  { unfold k. split; [apply Z.div_pos; lia|]. apply Z.div_lt_upper_bound; [lia|]. rewrite Z.mul_comm, <- Hpow. lia. }
  split_and!; [lia|nia|]. intros off Hoff. rewrite Z.shiftr_div_pow2 by lia.
  rewrite Z.add_comm, Z.div_add by lia. rewrite Z.div_small by lia. lia.
Qed.

Lemma IP_Mask_v4 ip ones : length ip = 4%nat → IP_Mask ip ones 32 = be_bytes 4 (mask_bits 32 ones (be_number ip)).
Proof.
  intros Hl. unfold IP_Mask. change (32 =? 128) with false. cbn [andb]. change (Z.to_nat (32 / 8)) with 4%nat.
  unfold is_v4_mapped. rewrite Hl, (bool_decide_false (4%nat = 16%nat)), andb_false_r by done. by rewrite Hl, bool_decide_true.
Qed.

(** A valid IPv4 prefix as a network. *)
Lemma v4net_of_prefix p N :
  pf_addr p = Addr4 N → 0 ≤ N < 2 ^ 32 → 0 ≤ pf_bits p ≤ 32 →
  v4net (ipnet_of p) (mask_bits 32 (pf_bits p) N) (32 - pf_bits p).
Proof.
  intros Ea HN Hb. destruct (mask_v4 N (pf_bits p) HN Hb) as (H0 & Hle & Hsh).
  unfold ipnet_of. assert (Em : Masked p = mkPrefix (Addr4 (mask_bits 32 (pf_bits p) N)) (pf_bits p)).
  { unfold Masked, Prefix_IsValid. rewrite Ea, (proj2 (Z.leb_le _ _)) by lia. done. }
  rewrite Em, Ea. cbn [pf_addr AsSlice BitLen]. split; cbn [net_bits net_ones]; [|lia..].
  set (b := mask_bits 32 (pf_bits p) N) in *. assert (Hb32 : 0 ≤ b < 2 ^ 32).
  { split; [done|]. assert (0 < 2 ^ (32 - pf_bits p)) by (apply Z.pow_pos_nonneg; lia). lia. }
  unfold network_base. cbn [net_IP net_ones net_bits]. rewrite IP_Mask_v4 by apply length_addr_bytes.
  rewrite be_number_bytes4 by done.
  fold (uint32ToIP (mask_bits 32 (pf_bits p) b)).
  assert (mask_bits 32 (pf_bits p) b = b) as ->; [|by apply ipToUint32_of].
  unfold mask_bits at 1. specialize (Hsh 0). rewrite Z.add_0_r in Hsh. rewrite Hsh; [done|]. split; [lia|].
  apply Z.pow_pos_nonneg; lia.
Qed.

Lemma capacity_v4 p N peerCount :
  pf_addr p = Addr4 N → 0 ≤ pf_bits p ≤ 32 → 0 ≤ peerCount → validateCapacity p peerCount = Ok tt → peerCount ≤ 2 ^ (32 - pf_bits p) - 2.
Proof.
  intros Ea Hb Hc. unfold validateCapacity, calculateMaxHosts, calculateRequiredAddresses. rewrite Ea. cbn [BitLen Is4].
  case_if; [done|]. bool_facts. intros _. rewrite Z.shiftl_mul_pow2, Z.mul_1_l in Heqb by lia.
  assert (0 < 2 ^ (32 - pf_bits p)) by (apply Z.pow_pos_nonneg; lia).
  assert (2 ^ (32 - pf_bits p) ≤ 2 ^ 32) by (apply Z.pow_le_mono_r; lia). change (2 ^ 32) with 4294967296 in *.
  unfold i64 in Heqb. rewrite swrap_small in Heqb by lia. assert (0 ≤ peerCount / 2) by (apply Z.div_pos; lia). lia.
Qed.

Section Reallocate.
Context (Intn : nat → nat → Z → Z) (HIntn : ∀ k i n, 0 < n → 0 ≤ Intn k i n < n).

Definition host_of (b h : Z) (ip : bytes) : Prop := ∃ off, 1 ≤ off < 2 ^ h - 1 ∧ ip = uint32ToIP (b + off).

(** With fewer taken addresses than hosts one is left. *)
Lemma host_left b h (l : list Z) : (∀ off, 1 ≤ off < 2 ^ h - 1 → b + off ∈ l) → 2 ^ h - 2 ≤ Z.of_nat (length l).
Proof using Type.
  intros Hall. destruct (decide (2 ^ h - 2 ≤ 0)); [lia|].
  assert (Hn : NoDup ((λ off, b + off) <$> seqZ 1 (2 ^ h - 2))).
  { apply NoDup_fmap_2; [|apply NoDup_seqZ]. intros x y E. lia. }
  assert (Hs : (λ off, b + off) <$> seqZ 1 (2 ^ h - 2) ⊆+ l).
  { apply NoDup_submseteq; [done|]. intros x (off & -> & Hoff%elem_of_seqZ)%list_elem_of_fmap. apply Hall. lia. }
  apply submseteq_length in Hs. rewrite length_fmap, length_seqZ in Hs. lia.
Qed.

Lemma reallocate_ok n b h k peers taken :
  v4net n b h → Z.of_nat (length taken) + Z.of_nat (length peers) ≤ 2 ^ h - 2 →
  ∃ ips, reallocate Intn n k peers taken = Ok ips ∧ length ips = length peers ∧ NoDup (ipToUint32 <$> ips) ∧
    (∀ ip, ip ∈ ips → host_of b h ip ∧ ipToUint32 ip ∉ ipToUint32 <$> taken).
Proof using HIntn.
  intros Hn. revert k taken. induction peers as [|p peers IH]; intros k taken Hlen; cbn [reallocate].
  { exists []. split_and!; [done|done|constructor|by intros ? ?%elem_of_nil]. }
  pose proof (AllocatePeerIP_spec (Intn k) (HIntn k) n b h taken Hn) as Ha.
  destruct (AllocatePeerIP (Intn k) n taken) as [ip|e|]; [| |done].
  2: { destruct Ha as [_ Ha%host_left]. rewrite length_fmap in Ha. simpl in Hlen. lia. }
  destruct Ha as (off & Hoff & -> & Hfree). cbn [obind].
  assert (E : ipToUint32 (uint32ToIP (b + off)) = b + off) by (apply ipToUint32_of; destruct Hn as [_ _ ? ?]; lia).
  destruct (IH (S k) (taken ++ [uint32ToIP (b + off)])) as (ips & -> & Hl & Hnd & Hips).
  { rewrite length_app. simpl in Hlen |- *. lia. }
  cbn [obind]. eexists. split; [done|]. split_and!; [simpl; by rewrite Hl| |].
  - csimpl. constructor; [|done]. intros (ip & Eip & Hin)%list_elem_of_fmap. destruct (Hips ip Hin) as [_ Hni]. apply Hni.
    rewrite fmap_app. apply elem_of_app. right. rewrite <- Eip. by left.
  - intros ip [->|Hin]%elem_of_cons.
    + split; [by exists off|]. by rewrite E.
    + destruct (Hips ip Hin) as [Hh Hni]. split; [done|]. intros Hx. apply Hni. rewrite fmap_app. apply elem_of_app. by left.
Qed.

(** C28: A network range that the API accepts for an account, in IPv4, has room for
    its peers: the reallocation succeeds, keeps the peers in order, and gives them
    different addresses of the range, none of them the first or the last. *)
Theorem accepted_range_reallocates p N peers :
  pf_addr p = Addr4 N → 0 ≤ N < 2 ^ 32 → 0 ≤ pf_bits p ≤ 32 →
  validateNetworkRange p (Z.of_nat (length peers)) = Ok tt →
  ∃ ps, reallocateAccountPeerIPs Intn p peers = Ok ps ∧ ID <$> ps = ID <$> peers ∧ NoDup (IP <$> ps) ∧
    ∀ q, q ∈ ps → ∃ x, IP q = uint32ToIP x ∧ NetIP.Contains p (Addr4 x) = true ∧
      let b := mask_bits 32 (pf_bits p) N in b < x < b + 2 ^ (32 - pf_bits p) - 1.
Proof using HIntn.
  intros Ea HN Hb Hval.
  assert (Hvalid : Prefix_IsValid p = true) by (unfold Prefix_IsValid; rewrite Ea, (proj2 (Z.leb_le _ _)) by lia; done).
  unfold validateNetworkRange in Hval. rewrite Hvalid in Hval. cbn [negb] in Hval.
  destruct (validateIPAddress _) as [[]| |]; [|done..]. destruct (validateMinimumSize p) as [[]| |]; [|done..]. cbn [obind] in Hval.
  assert (Hcap : Z.of_nat (length peers) ≤ 2 ^ (32 - pf_bits p) - 2) by (apply (capacity_v4 p N); [done|done|lia|done]).
  destruct (mask_v4 N (pf_bits p) HN Hb) as (_ & _ & Hsh). pose proof (v4net_of_prefix p N Ea HN Hb) as Hn.
  destruct (reallocate_ok _ _ _ 0 peers [] Hn) as (ips & E & Hl & Hnd & Hips); [simpl; lia|].
  unfold reallocateAccountPeerIPs. rewrite Hvalid. cbn [negb]. rewrite E. cbn [obind]. eexists. split; [done|].
  assert (HIP : IP <$> zip_with set_peer_IP peers ips = ips).
  { clear -Hl. revert ips Hl. induction peers as [|q peers IH]; intros [|ip ips]; simpl; try done. intros [= Hl]. csimpl. by rewrite IH. }
  split_and!.
  - clear -Hl. revert ips Hl. induction peers as [|q peers IH]; intros [|ip ips]; simpl; try done. intros [= Hl]. csimpl. by rewrite IH.
  - rewrite HIP. by eapply NoDup_fmap_1.
  - intros q Hq. assert (Hin : IP q ∈ ips) by (rewrite <- HIP; by apply list_elem_of_fmap_2).
    destruct (Hips _ Hin) as [(off & Hoff & Eip) _]. eexists. split; [exact Eip|]. split; [|lia].
    unfold NetIP.Contains. rewrite Hvalid, Ea. cbn [andb]. rewrite Hsh by lia. by apply Z.eqb_refl.
Qed.
End Reallocate.

(** ** Setup keys *)

Record SetupKey := mkSetupKey {
  sk_Id : bytes;
  sk_AccountID : bytes;
  sk_Key : bytes;
  sk_KeySecret : bytes;
  sk_Name : bytes;
  sk_Type : bytes;
  sk_CreatedAt : Z;
  sk_ExpiresAt : option Z;
  sk_UpdatedAt : option Z;
  sk_Revoked : bool;
  sk_UsedTimes : Z;
  sk_LastUsed : option Z;
  sk_AutoGroups : list bytes;
  sk_UsageLimit : Z;
  sk_Ephemeral : bool;
  sk_AllowExtraDNSLabels : bool
}.

Definition SetupKeyReusable : bytes := str "reusable".

Definition SetupKeyOneOff : bytes := str "one-off".

Definition SetupKeyUnlimitedUsage : Z := 0.

(** [Copy] also sets a zero [UpdatedAt] to the time of creation. *)
Definition SetupKey_Copy (k : SetupKey) : SetupKey :=
  mkSetupKey (sk_Id k) (sk_AccountID k) (sk_Key k) (sk_KeySecret k) (sk_Name k) (sk_Type k) (sk_CreatedAt k) (sk_ExpiresAt k)
    (Some (default (sk_CreatedAt k) (sk_UpdatedAt k))) (sk_Revoked k) (sk_UsedTimes k) (sk_LastUsed k) (sk_AutoGroups k)
    (sk_UsageLimit k) (sk_Ephemeral k) (sk_AllowExtraDNSLabels k).

Definition IncrementUsage (k : SetupKey) (now : Z) : SetupKey :=
  let c := SetupKey_Copy k in
  mkSetupKey (sk_Id c) (sk_AccountID c) (sk_Key c) (sk_KeySecret c) (sk_Name c) (sk_Type c) (sk_CreatedAt c) (sk_ExpiresAt c)
    (sk_UpdatedAt c) (sk_Revoked c) (i64 (sk_UsedTimes c + 1)) (Some now) (sk_AutoGroups c) (sk_UsageLimit c) (sk_Ephemeral c)
    (sk_AllowExtraDNSLabels c).

Definition IsExpired (k : SetupKey) (now : Z) : bool :=
  match sk_ExpiresAt k with None => false | Some t => t <? now end.

Definition usage_limit (k : SetupKey) : Z := if bytes_eqb (sk_Type k) SetupKeyOneOff then 1 else sk_UsageLimit k.

Definition IsOverUsed (k : SetupKey) : bool := (0 <? usage_limit k) && (usage_limit k <=? sk_UsedTimes k).

Definition SetupKey_IsValid (k : SetupKey) (now : Z) : bool :=
  negb (sk_Revoked k) && negb (IsExpired k now) && negb (IsOverUsed k).

(** [HiddenKey]: the slice [key[0:5]] panics on a shorter key.  The key is a
    UUID, which has one rune per byte. *)
Definition HiddenKey (key : bytes) (len : Z) : total bytes :=
  let! prefix := go_slice key 0 5 in
  let len := if Z.of_nat (length key) <? len then Z.of_nat (length key) - Z.of_nat (length prefix) else len in
  Ok (prefix ++ replicate (Z.to_nat len) Byte.x2a).

Definition GenerateSetupKey (id uuid name type : bytes) (validFor : Z) (autoGroups : list bytes) (limit : Z)
    (ephemeral allowLabels : bool) (now : Z) : total SetupKey :=
  let! secret := HiddenKey uuid 4 in
  Ok (mkSetupKey id [] (b64_encode (sha256 uuid)) secret name type now
        (if validFor =? 0 then None else Some (now + validFor)) (Some now) false 0 None autoGroups
        (if bytes_eqb type SetupKeyOneOff then 1 else limit) ephemeral allowLabels).

(** Registrations with a key: a client is checked without a lock, and once more
    in the transaction that adds its peer and counts the use. *)
Record key_state := mkKeyState { ks_key : SetupKey; ks_pending : list nat; ks_accepted : list nat }.

(** The update of [IncrementSetupKeyUsage] in the store. *)
Definition IncrementSetupKeyUsage (k : SetupKey) (now : Z) : SetupKey :=
  mkSetupKey (sk_Id k) (sk_AccountID k) (sk_Key k) (sk_KeySecret k) (sk_Name k) (sk_Type k) (sk_CreatedAt k) (sk_ExpiresAt k)
    (sk_UpdatedAt k) (sk_Revoked k) (i64 (sk_UsedTimes k + 1)) (Some now) (sk_AutoGroups k) (sk_UsageLimit k) (sk_Ephemeral k)
    (sk_AllowExtraDNSLabels k).

Inductive saveKeyErr := errKeyPermission | errKeyPermissionDenied | errKeyGroups | errGroupNotFound (id : bytes) | errGroupAll | errUnrevoke.

(** [groups] is what the store has for the ids. *)
Fixpoint validateSetupKeyAutoGroups (groups : gmap bytes Group) (autoGroupIDs : list bytes) : outcome saveKeyErr unit :=
  match autoGroupIDs with
  | [] => Ok tt
  | id :: ids =>
      match groups !! id with
      | None => Err (errGroupNotFound id)
      | Some group => if IsGroupAll group then Err errGroupAll else validateSetupKeyAutoGroups groups ids
      end
  end.

(** [SaveSetupKey] on the stored key: the groups and the revoked flag are those of
    the key to save, the rest stays.  The answers of the permission manager and of
    the store on the groups are arguments. *)
Definition SaveSetupKey (allowed : option bool) (groups : option (gmap bytes Group)) (now : Z) (autoGroups : list bytes)
    (revoked : bool) (oldKey : SetupKey) : outcome saveKeyErr SetupKey :=
  let! _ := match allowed with Some true => Ok tt | Some false => Err errKeyPermissionDenied | None => Err errKeyPermission end in
  let! _ := match groups with Some gs => validateSetupKeyAutoGroups gs autoGroups | None => Err errKeyGroups end in
  if sk_Revoked oldKey && negb revoked then Err errUnrevoke
  else
    let c := SetupKey_Copy oldKey in
    Ok (mkSetupKey (sk_Id c) (sk_AccountID c) (sk_Key c) (sk_KeySecret c) (sk_Name c) (sk_Type c) (sk_CreatedAt c) (sk_ExpiresAt c)
          (Some now) revoked (sk_UsedTimes c) (sk_LastUsed c) autoGroups (sk_UsageLimit c) (sk_Ephemeral c)
          (sk_AllowExtraDNSLabels c)).

(** [handleSetupKeyAddedPeer] *)
Definition first_check (c : nat) (now : Z) (labels : list bytes) (s : key_state) : key_state :=
  if SetupKey_IsValid (ks_key s) now && (sk_AllowExtraDNSLabels (ks_key s) || empty labels)
  then mkKeyState (ks_key s) (c :: ks_pending s) (ks_accepted s) else s.

(** The case of a setup key in the transaction of [AddPeer]. *)
Definition second_check (c : nat) (now : Z) (s : key_state) : key_state :=
  if bool_decide (c ∈ ks_pending s) then
    let pending := List.filter (λ x, negb (x =? c)%nat) (ks_pending s) in
    if SetupKey_IsValid (ks_key s) now
    then mkKeyState (IncrementSetupKeyUsage (ks_key s) now) pending (c :: ks_accepted s)
    else mkKeyState (ks_key s) pending (ks_accepted s)
  else s.

Inductive key_step : key_state → key_state → Prop :=
| step_first c now labels s : key_step s (first_check c now labels s)
| step_second c now s : key_step s (second_check c now s)
| step_save allowed groups now autoGroups revoked k s : SaveSetupKey allowed groups now autoGroups revoked (ks_key s) = Ok k →
    key_step s (mkKeyState k (ks_pending s) (ks_accepted s)).

Definition uses (k : SetupKey) (s : key_state) : Prop :=
  sk_Type (ks_key s) = sk_Type k ∧ sk_UsageLimit (ks_key s) = sk_UsageLimit k ∧
  sk_UsedTimes (ks_key s) = sk_UsedTimes k + Z.of_nat (length (ks_accepted s)) ∧ sk_UsedTimes (ks_key s) ≤ usage_limit k.

(** Saving a key keeps its kind and its uses, and does not undo a revocation. *)
Lemma SaveSetupKey_keeps allowed groups now autoGroups revoked k k' :
  SaveSetupKey allowed groups now autoGroups revoked k = Ok k' →
  sk_Type k' = sk_Type k ∧ sk_UsageLimit k' = sk_UsageLimit k ∧ sk_UsedTimes k' = sk_UsedTimes k ∧
  (sk_Revoked k = true → sk_Revoked k' = true).
Proof.
  unfold SaveSetupKey. destruct allowed as [[|]|]; [|done..]. cbn [obind]. destruct groups as [gs|]; [|done].
  destruct (validateSetupKeyAutoGroups gs autoGroups); [|done..]. cbn [obind].
  destruct (sk_Revoked k), revoked; try done; cbn; by intros [= <-].
Qed.

Lemma key_step_uses k s s' :
  0 < usage_limit k < 2 ^ 63 → 0 ≤ sk_UsedTimes k → uses k s → key_step s s' →
  uses k s' ∧ (sk_Revoked (ks_key s) = true → sk_Revoked (ks_key s') = true ∧ ks_accepted s' = ks_accepted s).
Proof.
  intros Hl Hu (Ht & Hlim & Hn & Hle) Hstep. destruct Hstep as [c now labels s|c now s|allowed groups now autoGroups revoked k' s E].
  - unfold first_check. by case_if.
  - unfold second_check. case_bool_decide; [|done].
    destruct (SetupKey_IsValid (ks_key s) now) eqn:Ev; [|done]. unfold SetupKey_IsValid in Ev.
    apply andb_true_iff in Ev as [Ev Ho%negb_true_iff]. apply andb_true_iff in Ev as [Hr%negb_true_iff _].
    split; [|congruence]. unfold IsOverUsed, usage_limit in Ho. rewrite Ht, Hlim in Ho. fold (usage_limit k) in Ho.
    rewrite (proj2 (Z.ltb_lt 0 (usage_limit k))) in Ho by lia. cbn [andb] in Ho. bool_facts.
    unfold uses. simpl. unfold i64. rewrite swrap_small by (change (2 ^ (64 - 1)) with (2 ^ 63); lia). split_and!; [done..|lia|lia].
  - destruct (SaveSetupKey_keeps _ _ _ _ _ _ _ E) as (E1 & E2 & E3 & E4). unfold uses. cbn [ks_key ks_accepted]. rewrite E1, E2, E3.
    by split_and!; auto.
Qed.

(** C29: A limited setup key never registers more peers than its limit, however
    the checks of the clients interleave: the uses counted are the peers accepted,
    they stay within the limit, and a revoked key accepts no peer any more. *)
Theorem setup_key_limit k s s' :
  0 < usage_limit k < 2 ^ 63 → 0 ≤ sk_UsedTimes k ≤ usage_limit k →
  rtc key_step (mkKeyState k [] []) s → rtc key_step s s' →
  sk_UsedTimes (ks_key s) = sk_UsedTimes k + Z.of_nat (length (ks_accepted s)) ∧
  Z.of_nat (length (ks_accepted s)) ≤ usage_limit k - sk_UsedTimes k ∧
  (sk_Revoked (ks_key s) = true → ks_accepted s' = ks_accepted s).
Proof.
  intros Hl Hu Hs Hs'. assert (Hinv : ∀ x, rtc key_step (mkKeyState k [] []) x → uses k x).
  { intros x Hx. assert (Hi : uses k (mkKeyState k [] [])) by (unfold uses; simpl; split_and!; [done..|lia|lia]).
    revert Hi. clear Hs Hs'. induction Hx as [|x y z Hxy Hyz IH]; [done|]. intros Hi. apply IH.
    by apply (key_step_uses k x y Hl ltac:(lia) Hi). }
  destruct (Hinv s Hs) as (_ & _ & Hn & Hle). split_and!; [done|lia|].
  clear Hn Hle. induction Hs' as [|x y z Hxy Hyz IH]; [done|]. intros Hr.
  destruct (key_step_uses k x y Hl ltac:(lia) (Hinv x Hs) Hxy) as [_ Hkeep]. destruct (Hkeep Hr) as [Hr' <-].
  apply IH; [by eapply rtc_r|done].
Qed.

(** ** Examples *)

Definition office_range : Prefix := PrefixFrom (Addr4 (be_number (ip4 10 1 0 0))) 28.

Lemma accepted_range_reallocates_witness :
  ∃ ps, reallocateAccountPeerIPs (λ _ _ _, 0) office_range [peer_a; peer_b] = Ok ps ∧ ID <$> ps = [str "peer-a"; str "peer-b"] ∧
    NoDup (IP <$> ps).
Proof.
  destruct (accepted_range_reallocates (λ _ _ _, 0) ltac:(intros; lia) office_range (be_number (ip4 10 1 0 0)) [peer_a; peer_b])
    as (ps & H1 & H2 & H3 & _); [reflexivity|vm_compute; split; congruence|vm_compute; split; congruence|vm_compute; reflexivity|].
  exists ps. split; [exact H1|]. split; [exact H2|exact H3].
Defined.

Definition one_off : SetupKey :=
  mkSetupKey (str "key") (str "account") [] [] (str "laptop") SetupKeyOneOff 0 None None false 0 None [] 0 false false.

(** Two clients pass the first check of a one-off key before either is added. *)
Definition race : key_state := second_check 2 20 (second_check 1 10 (first_check 2 5 [] (first_check 1 0 [] (mkKeyState one_off [] [])))).

Lemma setup_key_limit_witness :
  ks_accepted race = [1%nat] ∧ Z.of_nat (length (ks_accepted race)) ≤ usage_limit one_off - sk_UsedTimes one_off.
Proof.
  split; [vm_compute; reflexivity|]. apply (setup_key_limit one_off race race).
  - vm_compute. done.
  - vm_compute. split; congruence.
  - unfold race. repeat (eapply rtc_r; [|constructor]). apply rtc_refl.
  - apply rtc_refl.
Defined.

(** The API accepts IPv6 ranges for an account, but addresses are allocated in
    32 bits: with the range fd00::/120 the first peer gets the address 0.0.0.1. *)
Theorem ipv6_range_misallocates :
  let range := PrefixFrom (Addr6 (Z.shiftl 0xfd 120) "") 120 in
  validateNetworkRange range 1 = Ok tt ∧
  match reallocateAccountPeerIPs (λ _ _ _, 0) range [peer_a] with
  | Ok ps => IP <$> ps = [ip4 0 0 0 1]
  | _ => False
  end.
Proof. split; vm_compute; reflexivity. Qed.
