(* ===== verification/DNSChain.v ===== *)
(** * The handler chain of the client's DNS server

    client/internal/dns/handler_chain.go: handlers are registered for a domain
    pattern with a priority; a query goes to the first handler whose pattern
    matches and that does not ask to continue.

    A handler is an element of a type with the messages it writes for a query
    ([DNSHandler]).  The functions of the DNS library the chain uses are the class
    [DNSLibrary]; case folding of strings that are not ASCII is an argument.  The
    answers of concurrent queries do not touch the chain, so a query is a function
    of it.  Log output is left out. *)

From stdpp Require Import base list gmap strings.
From S2P Require Import Prelude GoStd GoStrings.

(** ** Strings *)

Definition HasSuffix (s suffix : bytes) : bool :=
  (length suffix <=? length s)%nat && bool_decide (drop (length s - length suffix) s = suffix).

Definition HasPrefix (s prefix : bytes) : bool := bool_decide (take (length prefix) s = prefix).

Definition TrimSuffix (s suffix : bytes) : bytes :=
  if HasSuffix s suffix then take (length s - length suffix) s else s.

Definition CountByte (c : byte) (s : bytes) : nat := length (List.filter (λ b, bool_decide (b = c)) s).

Definition EqualFold (unicode_fold : bytes → bytes → bool) (s t : bytes) : bool :=
  if isASCII s && isASCII t then bool_decide (lower_byte <$> s = lower_byte <$> t) else unicode_fold s t.

(** ** Messages and handlers *)

Record Msg := mkMsg {
  m_Id : Z;
  m_Question : list bytes;
  m_Rcode : Z;
  m_Zero : bool;
  m_Truncated : bool;
  m_Answer : list bytes
}.

Definition RcodeNameError : Z := 3.

Definition RcodeRefused : Z := 5.

Definition PriorityMgmtCache : Z := 150.

Definition PriorityDNSRoute : Z := 100.

Definition PriorityLocal : Z := 75.

Definition PriorityUpstream : Z := 50.

Definition PriorityDefault : Z := 1.

Definition PriorityFallback : Z := -100.

(** [Fqdn] and [Msg.SetRcode] of the DNS library. *)
Class DNSLibrary := {
  Fqdn : bytes → bytes;
  SetRcode : Msg → Z → Msg
}.

(** The messages a handler writes for a query, and [MatchSubdomains] of a handler
    that has it. *)
Class DNSHandler (H : Type) := {
  handler_writes : H → Msg → list Msg;
  handler_MatchSubdomains : H → option bool
}.

Section Chain.
Context {lib : DNSLibrary} {H : Type} {hdl : DNSHandler H}.
Context (unicode_lower : bytes → bytes) (unicode_fold : bytes → bytes → bool).

Record HandlerEntry := mkEntry {
  Handler : H;
  Priority : Z;
  Pattern : bytes;
  OrigPattern : bytes;
  IsWildcard : bool;
  MatchSubdomains : bool
}.

Abbreviation HandlerChain := (list HandlerEntry).

Definition NewHandlerChain : HandlerChain := [].

(** The writer a handler gets; [rw_sent] is what reaches the writer of the chain. *)
Record ResponseWriterChain := mkWriter {
  rw_sent : list Msg;
  rw_origPattern : bytes;
  rw_shouldContinue : bool;
  rw_response : option Msg;
  rw_meta : gmap bytes bytes
}.

Definition SetMeta (w : ResponseWriterChain) (key value : bytes) : ResponseWriterChain :=
  mkWriter (rw_sent w) (rw_origPattern w) (rw_shouldContinue w) (rw_response w) (<[key := value]> (rw_meta w)).

(** A name error with the zero bit asks to continue and is not sent. *)
Definition is_continue (m : Msg) : bool := (m_Rcode m =? RcodeNameError) && m_Zero m.

Definition WriteMsg (w : ResponseWriterChain) (m : Msg) : ResponseWriterChain :=
  if is_continue m then mkWriter (rw_sent w) (rw_origPattern w) true (rw_response w) (rw_meta w)
  else
    let w := mkWriter (rw_sent w) (rw_origPattern w) (rw_shouldContinue w) (Some m) (rw_meta w) in
    let w := if m_Truncated m then SetMeta w (str "truncated") (str "true") else w in
    mkWriter (rw_sent w ++ [m]) (rw_origPattern w) (rw_shouldContinue w) (rw_response w) (rw_meta w).

(** ** Registration *)

(** The last entry that passes the test is removed. *)
Fixpoint remove_last (f : HandlerEntry → bool) (l : HandlerChain) : HandlerChain :=
  match l with
  | [] => []
  | e :: l => if existsb f l then e :: remove_last f l else if f e then l else e :: l
  end.

Definition removeEntry (c : HandlerChain) (pattern : bytes) (priority : Z) : HandlerChain :=
  remove_last (λ e, EqualFold unicode_fold (OrigPattern e) pattern && (Priority e =? priority)) c.

Fixpoint findHandlerPosition (c : HandlerChain) (new : HandlerEntry) : nat :=
  match c with
  | [] => O
  | h :: c =>
      if Priority h <? Priority new then O
      else if (Priority h =? Priority new) && (CountByte dot (Pattern h) <? CountByte dot (Pattern new))%nat then O
      else S (findHandlerPosition c new)
  end.

Definition wildcard_prefix : bytes := str "*.".

Definition new_entry (orig : bytes) (handler : H) (priority : Z) : HandlerEntry :=
  let isWildcard := HasPrefix orig wildcard_prefix in
  mkEntry handler priority (if isWildcard then drop 2 orig else orig) orig isWildcard
    (default false (handler_MatchSubdomains handler)).

Definition AddHandler (c : HandlerChain) (pattern : bytes) (handler : H) (priority : Z) : HandlerChain :=
  let orig := ToLower unicode_lower (Fqdn pattern) in
  let c := removeEntry c orig priority in
  let entry := new_entry orig handler priority in
  let pos := findHandlerPosition c entry in
  take pos c ++ entry :: drop pos c.

Definition RemoveHandler (c : HandlerChain) (pattern : bytes) (priority : Z) : HandlerChain :=
  removeEntry c (Fqdn pattern) priority.

Definition root_pattern : bytes := [dot].

Definition HasRootHandlerAtOrBelow (c : HandlerChain) (maxPriority : Z) : bool :=
  existsb (λ h, bool_decide (Pattern h = root_pattern) && (Priority h <=? maxPriority)) c.

(** ** Queries *)

Definition isHandlerMatch (qname : bytes) (entry : HandlerEntry) : bool :=
  if bool_decide (Pattern entry = root_pattern) then true
  else if IsWildcard entry then
    (2 <=? length (SplitByte dot (TrimSuffix qname (Pattern entry))))%nat && HasSuffix qname (Pattern entry)
  else if MatchSubdomains entry then
    EqualFold unicode_fold qname (Pattern entry) || HasSuffix qname (dot :: Pattern entry)
  else EqualFold unicode_fold qname (Pattern entry).

(** The writer after the handler of an entry has served the query. *)
Definition serve (entry : HandlerEntry) (r : Msg) : ResponseWriterChain :=
  foldl WriteMsg (mkWriter [] (OrigPattern entry) false None ∅) (handler_writes (Handler entry) r).

(** The loop over the handlers: the messages sent and the entry that ended it. *)
Fixpoint try_handlers (c : HandlerChain) (qname : bytes) (r : Msg) (maxPriority : Z) : list Msg * option HandlerEntry :=
  match c with
  | [] => ([], None)
  | entry :: c =>
      if maxPriority <? Priority entry then try_handlers c qname r maxPriority
      else if negb (isHandlerMatch qname entry) then try_handlers c qname r maxPriority
      else
        let w := serve entry r in
        if rw_shouldContinue w then
          let '(sent, by_) := try_handlers c qname r maxPriority in (rw_sent w ++ sent, by_)
        else (rw_sent w, Some entry)
  end.

Definition dispatch (c : HandlerChain) (r : Msg) (maxPriority : Z) : list Msg * option HandlerEntry :=
  match m_Question r with
  | [] => ([], None)
  | question :: _ =>
      let qname := ToLower unicode_lower question in
      match try_handlers c qname r maxPriority with
      | (sent, None) => (sent ++ [SetRcode r RcodeRefused], None)
      | (sent, Some entry) => (sent, Some entry)
      end
  end.

Definition ServeDNS (c : HandlerChain) (r : Msg) : list Msg := (dispatch c r (2 ^ 63 - 1)).1.

Inductive resolveErr := errEmptyQuestion | errContext | errNoHandler.

(** [completed]: the goroutine of the query has ended when the result is read.
    The writer keeps the last message. *)
Definition ResolveInternal (c : HandlerChain) (r : Msg) (maxPriority : Z) (completed : bool) : outcome resolveErr Msg :=
  match m_Question r with
  | [] => Err errEmptyQuestion
  | _ :: _ =>
      if negb completed then Err errContext
      else match last (dispatch c r maxPriority).1 with
           | None => Err errNoHandler
           | Some m => if m_Rcode m =? RcodeRefused then Err errNoHandler else Ok m
           end
  end.

(** ** The order of the chain *)

(** [e] comes first or is as good: a higher priority, or the same and at least as
    many labels. *)
Definition before (e f : HandlerEntry) : Prop :=
  Priority f < Priority e ∨
  (Priority f = Priority e ∧ (CountByte dot (Pattern f) ≤ CountByte dot (Pattern e))%nat).

Lemma before_trans e f g : before e f → before f g → before e g.
Proof using Type. unfold before. lia. Qed.

Lemma remove_last_elem f l e : e ∈ remove_last f l → e ∈ l.
Proof using Type.
  induction l as [|x l IH]; [done|]. simpl. case_match; [|case_match]; rewrite !elem_of_cons; tauto.
Qed.

Lemma remove_last_sorted (R : relation HandlerEntry) f l : StronglySorted R l → StronglySorted R (remove_last f l).
Proof using Type.
  induction 1 as [|x l Hs IH Hf]; [constructor|]. simpl. case_match; [|by case_match; [|constructor]].
  constructor; [done|]. rewrite !Forall_forall in *. intros y Hy%remove_last_elem. auto.
Qed.

Lemma insert_sorted c e :
  StronglySorted before c → StronglySorted before (take (findHandlerPosition c e) c ++ e :: drop (findHandlerPosition c e) c).
Proof using Type.
  induction 1 as [|h c Hs IH Hf]; simpl; [by repeat constructor|].
  assert (Hhere : before e h → StronglySorted before (e :: h :: c)).
  { intros Hb. constructor; [by constructor|]. constructor; [done|]. apply (Forall_impl _ _ _ Hf).
    intros x. by apply before_trans. }
  destruct (Z.ltb_spec (Priority h) (Priority e)); [apply Hhere; by left|].
  destruct (_ && _) eqn:E; [apply andb_true_iff in E as [?%Z.eqb_eq ?%Nat.ltb_lt]; apply Hhere; right; lia|].
  simpl. constructor; [done|]. apply Forall_app. rewrite Forall_cons. split; [by apply Forall_take|].
  split; [|by apply Forall_drop]. apply andb_false_iff in E. rewrite Z.eqb_neq, Nat.ltb_ge in E. unfold before. lia.
Qed.

(** ** Histories *)

Inductive chain_op := OpAdd (pattern : bytes) (handler : H) (priority : Z) | OpRemove (pattern : bytes) (priority : Z).

Definition chain_step (c : HandlerChain) (op : chain_op) : HandlerChain :=
  match op with
  | OpAdd pattern handler priority => AddHandler c pattern handler priority
  | OpRemove pattern priority => RemoveHandler c pattern priority
  end.

Definition chain_after (ops : list chain_op) : HandlerChain := foldl chain_step NewHandlerChain ops.

Lemma chain_sorted ops : StronglySorted before (chain_after ops).
Proof using Type.
  unfold chain_after. induction ops as [|op ops IH] using rev_ind; [constructor|]. rewrite foldl_app. simpl.
  destruct op; simpl; [apply insert_sorted|]; by apply remove_last_sorted.
Qed.

(** The registry the chain implements: for a pattern in lower case and a priority,
    the handler that was added last. *)
Abbreviation registry := (gmap (bytes * Z) H).

Definition registered_key (pattern : bytes) (priority : Z) : bytes * Z := (lower_byte <$> Fqdn pattern, priority).

Definition registry_step (m : registry) (op : chain_op) : registry :=
  match op with
  | OpAdd pattern handler priority => <[registered_key pattern priority := handler]> m
  | OpRemove pattern priority => delete (registered_key pattern priority) m
  end.

Definition op_pattern (op : chain_op) : bytes :=
  match op with OpAdd pattern _ _ => pattern | OpRemove pattern _ => pattern end.

Definition entry_key (e : HandlerEntry) : bytes * Z := (OrigPattern e, Priority e).

(** The entry of a registered handler. *)
Definition registered (m : registry) (e : HandlerEntry) : Prop :=
  ∃ h, m !! entry_key e = Some h ∧ e = new_entry (OrigPattern e) h (Priority e).

(** The chain has an entry for every key of the registry and no other, once. *)
Record implements (c : HandlerChain) (m : registry) : Prop := {
  im_nodup : NoDup (entry_key <$> c);
  im_entry : ∀ e, e ∈ c ↔ registered m e;
  im_lower : ∀ e, e ∈ c → isASCII (OrigPattern e) = true ∧ lower_byte <$> OrigPattern e = OrigPattern e
}.

Lemma remove_last_spec f l :
  NoDup (entry_key <$> l) → (∀ x y, x ∈ l → y ∈ l → f x = true → f y = true → entry_key x = entry_key y) →
  NoDup (entry_key <$> remove_last f l) ∧ ∀ e, e ∈ remove_last f l ↔ e ∈ l ∧ f e = false.
Proof using Type.
  induction l as [|x l IH]; intros Hn Hf; [split; [done|]; intros e; set_solver|].
  rewrite fmap_cons, NoDup_cons in Hn. destruct Hn as [Hx Hn].
  assert (Hk : ∀ y, y ∈ l → f x = true → f y = true → False).
  { intros y Hy Fx Fy. apply Hx, list_elem_of_fmap. exists y. split; [|done]. apply Hf; [by left|by right|done..]. }
  destruct IH as [IHn IH]; [done|intros; apply Hf; try done; by right|]. simpl.
  destruct (existsb f l) eqn:E.
  - apply existsb_exists in E as (y & Hy%list_elem_of_In & Fy). split.
    + rewrite fmap_cons, NoDup_cons. split; [|done]. intros (z & Hz & Hzl)%list_elem_of_fmap. apply IH in Hzl as [Hzl _].
      apply Hx, list_elem_of_fmap. eauto.
    + intros e. rewrite !elem_of_cons, IH. split; [intros [->|?]|tauto].
      * split; [by left|]. apply not_true_iff_false. intros Fx. by apply (Hk y).
      * tauto.
  - assert (Hno : ∀ y, y ∈ l → f y = false).
    { intros y Hy. apply not_true_iff_false. intros Fy. rewrite <- not_true_iff_false, existsb_exists in E.
      apply E. exists y. by rewrite <- list_elem_of_In. }
    destruct (f x) eqn:Fx.
    + split; [done|]. intros e. rewrite elem_of_cons. split; [intros He; split; [by right|by apply Hno]|].
      intros [[->|?] ?]; [congruence|done].
    + split; [rewrite fmap_cons; by constructor|]. intros e. rewrite elem_of_cons.
      split; [intros [->|He]; split; auto|tauto].
Qed.

Lemma lower_ASCII s : isASCII s = true → isASCII (lower_byte <$> s) = true ∧ lower_byte <$> (lower_byte <$> s) = lower_byte <$> s.
Proof using Type.
  unfold isASCII. rewrite !forallb_forall. intros Hs. split.
  - intros b Hb%list_elem_of_In. apply list_elem_of_fmap in Hb as (x & -> & Hx%list_elem_of_In%Hs). by destruct x.
  - rewrite <- list_fmap_compose. apply list_fmap_ext. intros i b _. by destruct b.
Qed.

Lemma ToLower_ASCII ul s : isASCII s = true → ToLower ul s = lower_byte <$> s.
Proof using Type. intros Hs. unfold ToLower. by rewrite Hs. Qed.

Lemma fold_lower s t :
  isASCII s = true → lower_byte <$> s = s → isASCII t = true →
  EqualFold unicode_fold s t = bool_decide (s = lower_byte <$> t).
Proof using Type. intros Hs Hl Ht. unfold EqualFold. rewrite Hs, Ht. simpl. by rewrite Hl. Qed.

Lemma removeEntry_implements c m t priority :
  implements c m → isASCII t = true →
  implements (removeEntry c t priority) (delete (lower_byte <$> t, priority) m).
Proof using Type.
  intros [Hn He Hl] Ht. unfold removeEntry. set (f := λ e, _).
  assert (Hf : ∀ e, e ∈ c → f e = true ↔ entry_key e = (lower_byte <$> t, priority)).
  { intros e Hin. destruct (Hl e Hin) as [Ha Hb]. unfold f, entry_key.
    rewrite andb_true_iff, Z.eqb_eq, fold_lower, bool_decide_eq_true by done. split; [by intros [-> ->]|by intros [= -> ->]]. }
  destruct (remove_last_spec f c Hn) as [Hn' Hin].
  { intros x y Hx Hy Fx Fy. apply Hf in Fx, Fy; [congruence|done..]. }
  split; [done| |].
  - intros e. rewrite Hin, He. split.
    + intros [(h & Hm & Heq) Hfe]. exists h. split; [|done]. rewrite lookup_delete_ne; [done|].
      intros Hk. symmetry in Hk. apply Hf in Hk; [congruence|]. apply He. by exists h.
    + intros (h & Hm & Heq). apply lookup_delete_Some in Hm as [Hk Hm]. split; [by exists h|]. apply not_true_iff_false.
      intros Hfe. apply Hk. symmetry. apply Hf; [|done]. apply He. by exists h.
  - intros e [Hce _]%Hin. by apply Hl.
Qed.

Lemma insert_implements c m orig h priority pos :
  implements c m → m !! (orig, priority) = None → isASCII orig = true → lower_byte <$> orig = orig →
  implements (take pos c ++ new_entry orig h priority :: drop pos c) (<[(orig, priority) := h]> m).
Proof using Type.
  intros [Hn He Hl] Hm Ha Hlow. set (e0 := new_entry orig h priority).
  assert (Hp : take pos c ++ e0 :: drop pos c ≡ₚ e0 :: c) by (rewrite <- Permutation_middle; by rewrite take_drop).
  assert (Hk : entry_key e0 ∉ entry_key <$> c).
  { intros (x & Hx & Hxc)%list_elem_of_fmap. apply He in Hxc as (h' & Hh & _). rewrite <- Hx in Hh.
    change (entry_key e0) with (orig, priority) in Hh. congruence. }
  split.
  - rewrite Hp. rewrite fmap_cons. by constructor.
  - intros e. rewrite Hp, elem_of_cons, He. split.
    + intros [->|(h' & Hh & Heq)].
      * exists h. change (entry_key e0) with (orig, priority). by rewrite lookup_insert_eq.
      * exists h'. split; [|done]. rewrite lookup_insert_ne; [done|]. congruence.
    + intros (h' & Hh & Heq). apply lookup_insert_Some in Hh as [[Hkey <-]|[_ Hh]]; [|right; by exists h'].
      left. unfold entry_key in Hkey. injection Hkey as Ho Hpr. by rewrite Heq, <- Ho, <- Hpr.
  - intros e. rewrite Hp, elem_of_cons. intros [->|Hin]; [done|by apply Hl].
Qed.

(** The chain implements its registry.  After any history of additions and
    removals with patterns in ASCII, the chain has exactly one entry for each
    pattern, in lower case, and priority that was added and not removed since, with
    the handler that was added last, and it is sorted by priority and, within a
    priority, by the number of labels. *)
Theorem dns_chain_refines ops :
  Forall (λ op, isASCII (Fqdn (op_pattern op)) = true) ops →
  implements (chain_after ops) (foldl registry_step ∅ ops) ∧ StronglySorted before (chain_after ops).
Proof using Type.
  intros Hops. split; [|apply chain_sorted]. unfold chain_after.
  induction ops as [|op ops IH] using rev_ind; simpl.
  { split; [constructor|intros e; unfold registered; rewrite elem_of_nil; setoid_rewrite lookup_empty; naive_solver|by intros e ?%elem_of_nil]. }
  apply Forall_app in Hops as [Hops Hop]. rewrite !foldl_app. simpl. rewrite Forall_singleton in Hop.
  specialize (IH Hops). destruct op as [p h prio|p prio]; simpl in *.
  - unfold AddHandler. rewrite (ToLower_ASCII _ _ Hop).
    destruct (lower_ASCII _ Hop) as [Ha Hb].
    pose proof (removeEntry_implements _ _ (lower_byte <$> Fqdn p) prio IH Ha) as Hr. rewrite Hb in Hr.
    eapply insert_implements in Hr; [|apply lookup_delete_eq|done..]. unfold registered_key.
    by rewrite insert_delete_eq in Hr.
  - by apply removeEntry_implements.
Qed.

(** ** Queries *)

(** The names an entry is for. *)
Definition covers (e : HandlerEntry) (q : bytes) : Prop :=
  Pattern e = root_pattern ∨
  (Pattern e ≠ root_pattern ∧
   if IsWildcard e then ∃ prefix, q = prefix ++ Pattern e ∧ dot ∈ prefix
   else EqualFold unicode_fold q (Pattern e) = true ∨
        (MatchSubdomains e = true ∧ ∃ prefix, q = prefix ++ dot :: Pattern e)).

Lemma HasSuffix_spec s t : HasSuffix s t = true ↔ ∃ p, s = p ++ t.
Proof using Type.
  unfold HasSuffix. rewrite andb_true_iff, Nat.leb_le, bool_decide_eq_true. split.
  - intros [_ Hd]. exists (take (length s - length t) s). rewrite <- (take_drop (length s - length t) s) at 1. by rewrite Hd.
  - intros [p ->]. rewrite length_app. split; [lia|]. by rewrite Nat.add_sub, drop_app_length.
Qed.

Lemma TrimSuffix_app p t : TrimSuffix (p ++ t) t = p.
Proof using Type.
  unfold TrimSuffix. rewrite (proj2 (HasSuffix_spec (p ++ t) t)) by eauto.
  rewrite length_app, Nat.add_sub. by rewrite take_app_length.
Qed.

Lemma split_parts c s : (2 ≤ length (SplitByte c s))%nat ↔ c ∈ s.
Proof using Type.
  induction s as [|x s IH]; simpl; [rewrite elem_of_nil; split; [lia|done]|].
  assert (1 ≤ length (SplitByte c s))%nat.
  { destruct s as [|y s]; simpl; [lia|]. case_match; simpl; [lia|]. case_match; simpl; lia. }
  rewrite elem_of_cons. case_bool_decide as Hx; [subst; simpl; split; [by left|lia]|].
  destruct (SplitByte c s) as [|y r]; simpl in *; [lia|]. rewrite IH. split; [by right|]. by intros [->|?].
Qed.

Lemma match_covers q e : isHandlerMatch q e = true ↔ covers e q.
Proof using Type.
  clear unicode_lower. unfold isHandlerMatch, covers. case_bool_decide as Hr; [tauto|].
  destruct (IsWildcard e).
  - rewrite andb_true_iff, Nat.leb_le, HasSuffix_spec. split.
    + intros [Hp [p ->]]. rewrite TrimSuffix_app, split_parts in Hp. right. split; [done|]. by exists p.
    + intros [?|[_ (p & -> & Hp)]]; [done|]. rewrite TrimSuffix_app, split_parts. split; [done|]. by exists p.
  - destruct (MatchSubdomains e); [rewrite orb_true_iff, HasSuffix_spec; tauto|].
    split; [tauto|]. by intros [?|[_ [?|[? _]]]].
Qed.

Lemma writes_spec ms w :
  let w' := foldl WriteMsg w ms in
  rw_shouldContinue w' = rw_shouldContinue w || existsb is_continue ms ∧
  rw_sent w' = rw_sent w ++ List.filter (λ m, negb (is_continue m)) ms.
Proof using Type.
  revert w. induction ms as [|m ms IH]; intros w; simpl; [by rewrite orb_false_r, app_nil_r|].
  destruct (IH (WriteMsg w m)) as [-> ->]. unfold WriteMsg. destruct (is_continue m) eqn:E; simpl.
  - by rewrite orb_true_r.
  - case_match; simpl; by rewrite <- app_assoc.
Qed.

(** What an entry sends for a query, and whether it asks to continue. *)
Definition answers (e : HandlerEntry) (r : Msg) : list Msg :=
  List.filter (λ m, negb (is_continue m)) (handler_writes (Handler e) r).

Definition continues (e : HandlerEntry) (r : Msg) : Prop := ∃ m, m ∈ handler_writes (Handler e) r ∧ is_continue m = true.

Lemma serve_spec e r : (rw_shouldContinue (serve e r) = true ↔ continues e r) ∧ rw_sent (serve e r) = answers e r.
Proof using Type.
  unfold serve. destruct (writes_spec (handler_writes (Handler e) r) (mkWriter [] (OrigPattern e) false None ∅)) as [-> ->].
  split; [|done]. simpl. unfold continues. rewrite existsb_exists. by setoid_rewrite <- list_elem_of_In.
Qed.

(** The entries a query may go to. *)
Definition eligible (max : Z) (q : bytes) (e : HandlerEntry) : bool := (Priority e <=? max) && isHandlerMatch q e.

Lemma try_handlers_spec c q r max :
  let '(sent, who) := try_handlers c q r max in
  match who with
  | Some e => ∃ pre post, c = pre ++ e :: post ∧ eligible max q e = true ∧ ¬ continues e r ∧
      (∀ f, f ∈ pre → eligible max q f = true → continues f r) ∧
      sent = (List.filter (eligible max q) pre ≫= λ f, answers f r) ++ answers e r
  | None => (∀ f, f ∈ c → eligible max q f = true → continues f r) ∧
      sent = (List.filter (eligible max q) c ≫= λ f, answers f r)
  end.
Proof using Type.
  induction c as [|e c IH]; simpl; [split; [by intros f ?%elem_of_nil|done]|].
  destruct (serve_spec e r) as [Hc Hs].
  assert (He : eligible max q e = negb (max <? Priority e) && isHandlerMatch q e)
    by (unfold eligible; by rewrite Z.leb_antisym).
  assert (Hskip : eligible max q e = false → ∀ f, f ∈ e :: c → eligible max q f = true → f ∈ c).
  { intros Hn f [->|Hf]%elem_of_cons ?; [congruence|done]. }
  destruct (try_handlers c q r max) as [sent who] eqn:E.
  destruct (eligible max q e) eqn:Hel.
  - symmetry in He. apply andb_true_iff in He as [->%negb_true_iff ->]. simpl.
    destruct (rw_shouldContinue (serve e r)) eqn:Ec.
    2: { exists [], c. rewrite Hs. split_and!; [done|done|by rewrite <- Hc|by intros f ?%elem_of_nil|done]. }
    rewrite Hs. destruct who as [e'|].
    + destruct IH as (pre & post & -> & H1 & H2 & H3 & ->). exists (e :: pre), post. split_and!; [done..| |].
      * intros f [->|Hf]%elem_of_cons ?; [by apply Hc|by apply H3].
      * simpl. rewrite Hel. simpl. by rewrite app_assoc.
    + destruct IH as [H3 ->]. split; [|done]. intros f [->|Hf]%elem_of_cons ?; [by apply Hc|by apply H3].
  - assert (Ht : (if max <? Priority e then (sent, who)
                  else if negb (isHandlerMatch q e) then (sent, who)
                  else if rw_shouldContinue (serve e r) then (rw_sent (serve e r) ++ sent, who)
                  else (rw_sent (serve e r), Some e)) = (sent, who)).
    { symmetry in He. apply andb_false_iff in He as [->%negb_false_iff| ->]; [done|]. simpl. by destruct (max <? Priority e). }
    rewrite Ht. destruct who as [e'|].
    + destruct IH as (pre & post & -> & H1 & H2 & H3 & ->). exists (e :: pre), post. split_and!; [done..| |].
      * intros f [->|Hf]%elem_of_cons ?; [congruence|by apply H3].
      * simpl. by rewrite Hel.
    + destruct IH as [H3 ->]. split; [|done]. intros f Hf ?. apply H3; [by apply Hskip|done].
Qed.

(** C38: A query goes to the best registered handler.  After any history of additions
    and removals with patterns in ASCII, a query for a name is answered by a handler
    that was added last for its pattern and priority and not removed since, covers
    the name, has at most the given priority and does not ask to continue, and every
    other such handler has a lower priority, or the same and not more labels; what was
    sent before comes from registered handlers that cover the name and asked to
    continue.  When there is no such handler the last message is a refusal.  The root
    pattern covers every name, a wildcard the names that end in its text with a dot
    before it, any other pattern the name itself and, if the handler says so, the
    names below it. *)
Theorem dns_dispatch_exact ops r max question rest :
  Forall (λ op, isASCII (Fqdn (op_pattern op)) = true) ops → m_Question r = question :: rest →
  let may e := registered (foldl registry_step ∅ ops) e ∧ covers e (ToLower unicode_lower question) ∧ Priority e ≤ max in
  let '(sent, who) := dispatch (chain_after ops) r max in
  match who with
  | Some e => may e ∧ ¬ continues e r ∧ (∀ f, may f → ¬ continues f r → f = e ∨ before e f) ∧
      ∃ earlier, sent = earlier ++ answers e r ∧ ∀ m, m ∈ earlier → ∃ f, may f ∧ continues f r ∧ m ∈ answers f r
  | None => (∀ f, may f → continues f r) ∧ last sent = Some (SetRcode r RcodeRefused)
  end.
Proof using Type.
  intros Hops Hq. cbn zeta. destruct (dns_chain_refines ops Hops) as [[_ Hreg _] Hsort].
  revert Hreg Hsort. generalize (registered (foldl registry_step ∅ ops)) as reg, (chain_after ops) as c. intros reg c Hreg Hsort.
  unfold dispatch. rewrite Hq. set (q := ToLower unicode_lower question).
  assert (Hel : ∀ e, eligible max q e = true ↔ covers e q ∧ Priority e ≤ max).
  { intros e. unfold eligible. rewrite andb_true_iff, Z.leb_le, match_covers. tauto. }
  pose proof (try_handlers_spec c q r max) as Ht. destruct (try_handlers c q r max) as [sent [e|]].
  - destruct Ht as (pre & post & -> & He & Hn & Hpre & ->).
    apply StronglySorted_app in Hsort as (_ & _ & Hs). apply StronglySorted_cons in Hs as [Hall _].
    split; [split; [apply Hreg, elem_of_app; right; by left|by apply Hel]|]. split; [done|]. split.
    + intros f [[Hf|[->|Hf]%elem_of_cons]%Hreg%elem_of_app Hm] Hnc; [|by left|].
      * exfalso. by apply Hnc, Hpre; [|apply Hel].
      * right. rewrite Forall_forall in Hall. by apply Hall.
    + eexists. split; [done|]. intros m (f & Hm & Hf)%list_elem_of_bind. apply elem_of_lfilter in Hf as [Hf Hfe].
      exists f. split; [split; [apply Hreg, elem_of_app; by left|by apply Hel]|]. split; [by apply Hpre|done].
  - destruct Ht as [Hall ->]. split; [|by rewrite last_snoc]. intros f [Hf%Hreg Hm]. by apply Hall; [|apply Hel].
Qed.

(** The refusal of the library has the code it is asked for. *)
Lemma resolve_internal_spec c r max question rest m :
  (∀ x code, m_Rcode (SetRcode x code) = code) → m_Question r = question :: rest →
  ResolveInternal c r max true = Ok m → ∃ e, (dispatch c r max).2 = Some e ∧ m_Rcode m ≠ RcodeRefused.
Proof using Type.
  intros Hcode Hq. unfold ResolveInternal, dispatch. rewrite Hq. simpl.
  destruct (try_handlers _ _ _ _) as [sent [e|]]; simpl.
  - destruct (last sent); [|done]. destruct (Z.eqb_spec (m_Rcode m0) RcodeRefused); [done|]. intros [= ->]. eauto.
  - rewrite last_snoc, Hcode. done.
Qed.
End Chain.

(** ** Examples *)

(** Names without escaped dots, and replies that copy the question. *)
#[local] Instance plain_dns : DNSLibrary := {|
  Fqdn s := if bool_decide (last s = Some dot) then s else s ++ [dot];
  SetRcode r code := mkMsg (m_Id r) (m_Question r) code false false []
|}.

(** A handler by the answers it gives: [None] asks to continue. *)
#[local] Instance fixed_answer : DNSHandler (option bytes * bool) := {|
  handler_writes h r := match h.1 with
                        | None => [mkMsg (m_Id r) (m_Question r) RcodeNameError true false []]
                        | Some a => [mkMsg (m_Id r) (m_Question r) 0 false false [a]]
                        end;
  handler_MatchSubdomains h := Some h.2
|}.

Abbreviation fold_eq := (λ a b : bytes, bool_decide (a = b)).

Definition query (name : string) : Msg := mkMsg 7 [str name] 0 false false [].

Definition example_ops : list chain_op :=
  [OpAdd (str ".") (Some (str "192.0.2.1"), false) PriorityDefault;
   OpAdd (str "Example.com") (Some (str "192.0.2.2"), true) PriorityUpstream;
   OpAdd (str "www.example.com") (None, false) PriorityLocal].

Lemma dns_chain_refines_witness :
  OrigPattern <$> chain_after id fold_eq example_ops = [str "www.example.com."; str "example.com."; str "."] ∧
  implements (chain_after id fold_eq example_ops) (foldl registry_step ∅ example_ops).
Proof.
  split; [vm_compute; reflexivity|]. apply (dns_chain_refines id fold_eq example_ops).
  repeat constructor; vm_compute; reflexivity.
Defined.

Lemma dns_dispatch_exact_witness :
  let '(sent, who) := dispatch id fold_eq (chain_after id fold_eq example_ops) (query "WWW.example.com.") 100 in
  m_Answer <$> sent = [[str "192.0.2.2"]] ∧
  match who with
  | Some e => ¬ continues e (query "WWW.example.com.")
  | None => False
  end.
Proof.
  pose proof (dns_dispatch_exact id fold_eq example_ops (query "WWW.example.com.") 100 (str "WWW.example.com.") []) as H.
  specialize (H ltac:(repeat constructor; vm_compute; reflexivity) eq_refl). cbn zeta in H. remember (dispatch _ _ _ _ _) as d eqn:E. revert H. vm_compute in E. rewrite E. simpl.
  intros (_ & Hc & _). split; [reflexivity|exact Hc].
Defined.

(** A wildcard also covers the names below other domains that end in the same
    letters: [*.example.com] gets the queries for [www.notexample.com], though not
    for [notexample.com]. *)
Theorem wildcard_covers_siblings :
  let entry := new_entry (str "*.example.com.") (Some (str "192.0.2.3"), false) PriorityDNSRoute in
  isHandlerMatch fold_eq (str "www.example.com.") entry = true ∧
  isHandlerMatch fold_eq (str "notexample.com.") entry = false ∧
  isHandlerMatch fold_eq (str "www.notexample.com.") entry = true.
Proof. split_and!; vm_compute; reflexivity. Qed.
