(* ===== verification/AccessTokens.v ===== *)
(** * Access tokens: base62, personal access tokens and invite tokens

    The encoding of base62/base62.go, the personal access tokens of
    management/server/types/personal_access_token.go with the check of
    management/server/auth/manager.go, and the invite tokens of
    management/server/types/user_invite.go.  A token is a prefix, a random
    secret of thirty characters and the CRC-32 of the secret in base62, padded to
    six characters.

    The random secret of [b.Random] is an argument.  Two points of the Go tool
    chain are arguments too: the character [fmt.Sprintf("%06s", _)] pads strings
    with, which depends on the Go release, and the value of the conversion
    [uint32(math.Pow(62, k))] for [k > 5], where the power does not fit into 32
    bits and Go leaves the result to the implementation. *)

From Stdlib Require Import Strings.Byte Strings.String.
From S2P Require Import Prelude GoStd GoStrings.

Local Open Scope go_scope.
Local Open Scope list_scope.

(** ** CRC-32 (hash/crc32, the IEEE polynomial) *)

Definition crc_poly : Z := 0xEDB88320.

Fixpoint crc_bits (n : nat) (c : Z) : Z :=
  match n with
  | O => c
  | S n => crc_bits n (if Z.odd c then Z.lxor crc_poly (Z.shiftr c 1) else Z.shiftr c 1)
  end.

Definition crc_byte (c : Z) (b : byte) : Z := crc_bits 8 (Z.lxor c (byte_to_Z b)).

Definition crc32 (s : bytes) : Z :=
  Z.lxor (foldl crc_byte (2 ^ 32 - 1) s) (2 ^ 32 - 1).

(** ** base62/base62.go *)

Definition alphabet : bytes := str "0123456789ABCDEFGHIJKLMNOPQRSTUVWXYZabcdefghijklmnopqrstuvwxyz".

Definition base : Z := 62.

Definition alphabet_at (i : Z) : byte := default Byte.x00 (alphabet !! Z.to_nat i).

(** The loop of Encode: the digits in the order they are written. *)
Fixpoint encode_loop (fuel : nat) (num : Z) : bytes :=
  match fuel with
  | O => []
  | S fuel => if 0 <? num then alphabet_at (num mod base) :: encode_loop fuel (num / base) else []
  end.

(** A 32-bit number has at most six digits. *)
Definition Encode (num : Z) : bytes :=
  if num =? 0 then [alphabet_at 0] else reverse (encode_loop 6 num).

(** [strings.IndexRune(alphabet, c)]; no byte of a multi-byte rune is in the
    alphabet, so ranging over bytes stops at the same error. *)
Definition IndexRune (c : byte) : option Z := (λ p, Z.of_nat p.1) <$> list_find (λ x, x = c) alphabet.

Inductive tokenErr :=
| invalidCharacter (c : byte) | tokenLength | tokenPrefix | checksumDecode (e : tokenErr) | checksumMismatch.

Section Decode.
  (** [uint32(math.Pow(62, k))] for [k > 5]. *)
  Context (pow_conv : nat → Z).

Definition pow62 (k : nat) : Z := if bool_decide (k ≤ 5)%nat then base ^ Z.of_nat k else pow_conv k.

Fixpoint decode_loop (strLen i : nat) (s : bytes) (decoded : Z) : outcome tokenErr Z :=
  match s with
  | [] => Ok decoded
  | c :: s =>
      match IndexRune c with
      | None => Err (invalidCharacter c)
      | Some index => decode_loop strLen (S i) s (u32 (decoded + u32 (index * u32 (pow62 (strLen - i - 1)))))
      end
  end.

Definition Decode (encoded : bytes) : outcome tokenErr Z := decode_loop (length encoded) 0 encoded 0.

(** ** Personal access tokens *)

Definition PATPrefix : bytes := str "nbp_".

Definition PATSecretLength : nat := 30.

Definition PATChecksumLength : nat := 6.

Definition PATLength : nat := 40.

(** Left padding to a width: [fmt.Sprintf("%06s", s)] with the padding character
    of the Go release. *)
Definition pad_left (pad : byte) (width : nat) (s : bytes) : bytes := replicate (width - length s) pad ++ s.

Definition hash_token (token : bytes) : bytes := b64_encode (sha256 token).

(** The hashed token and the plain one. *)
Definition generateNewToken (pad : byte) (secret : bytes) : bytes * bytes :=
  let checksum := crc32 secret in
  let plainToken := PATPrefix ++ secret ++ pad_left pad 6 (Encode checksum) in
  (hash_token plainToken, plainToken).

(** The part of extractPATFromToken before the store: it returns the hash to look
    up. *)
Definition check_pat (token : bytes) : outcome tokenErr bytes :=
  require bool_decide (length token = PATLength) else tokenLength;
  let! prefix := go_slice token 0 (length PATPrefix) in
  require bool_decide (prefix = PATPrefix) else tokenPrefix;
  let! secret := go_slice token (length PATPrefix) (length PATPrefix + PATSecretLength) in
  let! encodedChecksum := go_slice token (length PATPrefix + PATSecretLength)
                            (length PATPrefix + PATSecretLength + PATChecksumLength) in
  let! verificationChecksum := omap_err checksumDecode (Decode encodedChecksum) in
  require (crc32 secret =? verificationChecksum) else checksumMismatch;
  Ok (hash_token token).

(** ** Invite tokens *)

Definition InviteTokenPrefix : bytes := str "nbi_".

Definition InviteTokenSecretLength : nat := 30.

Definition InviteTokenChecksumLength : nat := 6.

Definition InviteTokenLength : nat := 40.

Definition GenerateInviteToken (secret : bytes) : bytes * bytes :=
  let encodedChecksum := Encode (crc32 secret) in
  let paddedChecksum :=
    if bool_decide (length encodedChecksum < InviteTokenChecksumLength)%nat
    then replicate (InviteTokenChecksumLength - length encodedChecksum) Byte.x30 ++ encodedChecksum
    else encodedChecksum in
  let plainToken := InviteTokenPrefix ++ secret ++ paddedChecksum in
  (hash_token plainToken, plainToken).

Definition HashInviteToken (token : bytes) : bytes := hash_token token.

Definition ValidateInviteToken (token : bytes) : outcome tokenErr unit :=
  require bool_decide (length token = InviteTokenLength) else tokenLength;
  let! prefix := go_slice token 0 (length InviteTokenPrefix) in
  require bool_decide (prefix = InviteTokenPrefix) else tokenPrefix;
  let! secret := go_slice token (length InviteTokenPrefix)
                   (length InviteTokenPrefix + InviteTokenSecretLength) in
  let! encodedChecksum := go_from token (length InviteTokenPrefix + InviteTokenSecretLength) in
  let! verificationChecksum := omap_err checksumDecode (Decode encodedChecksum) in
  require (crc32 secret =? verificationChecksum) else checksumMismatch;
  Ok ().

End Decode.

(** ** Checks on known values *)

Example crc32_check : crc32 (str "123456789") = 0xCBF43926.
Proof. vm_compute. reflexivity. Qed.

Example Encode_max : Encode (2 ^ 32 - 1) = str "4gfFC3".
Proof. vm_compute. reflexivity. Qed.

(** ** Numbers and their digits, the most significant first *)

Fixpoint digits_value (ds : list Z) : Z :=
  match ds with
  | [] => 0
  | d :: ds => d * base ^ Z.of_nat (length ds) + digits_value ds
  end.

Definition is_base62_digit (d : Z) : Prop := 0 ≤ d < base.

Lemma digits_value_snoc ds d : digits_value (ds ++ [d]) = digits_value ds * base + d.
Proof.
  induction ds as [|e ds IH]; simpl; [lia|].
  rewrite IH, length_app, Nat.add_1_r, Nat2Z.inj_succ, Z.pow_succ_r by lia. ring.
Qed.

Lemma digits_value_nonneg ds : Forall is_base62_digit ds → 0 ≤ digits_value ds.
Proof.
  induction 1 as [|d ds [? _] _ IH]; simpl; [lia|].
  pose proof (Z.pow_nonneg base (Z.of_nat (length ds))). unfold base in *. nia.
Qed.

Lemma digits_value_zeros n ds : digits_value (replicate n 0 ++ ds) = digits_value ds.
Proof. induction n; simpl; lia. Qed.

Fixpoint digits_of (fuel : nat) (num : Z) : list Z :=
  match fuel with
  | O => []
  | S fuel => if 0 <? num then num mod base :: digits_of fuel (num / base) else []
  end.

Lemma encode_loop_digits fuel num : encode_loop fuel num = alphabet_at <$> digits_of fuel num.
Proof.
  revert num. induction fuel as [|fuel IH]; intros num; simpl; [done|].
  destruct (0 <? num); simpl; [|done]. by rewrite IH.
Qed.

Lemma digits_of_digit fuel num : Forall is_base62_digit (digits_of fuel num).
Proof.
  revert num. induction fuel as [|fuel IH]; intros num; simpl; [constructor|].
  destruct (0 <? num); constructor; [|apply IH].
  unfold is_base62_digit. apply Z.mod_pos_bound. done.
Qed.

Lemma digits_of_value fuel num : 0 ≤ num < base ^ Z.of_nat fuel →
  digits_value (reverse (digits_of fuel num)) = num.
Proof.
  revert num. induction fuel as [|fuel IH]; intros num Hn; simpl; [simpl in Hn; lia|].
  destruct (0 <? num) eqn:E; bool_facts; [|simpl; lia].
  rewrite reverse_cons, digits_value_snoc, IH.
  - pose proof (Z.div_mod num base). unfold base in *. lia.
  - rewrite Nat2Z.inj_succ, Z.pow_succ_r in Hn by lia. unfold base in *.
    split; [apply Z.div_pos; lia|]. apply Z.div_lt_upper_bound; lia.
Qed.

Lemma digits_of_length fuel num : 0 ≤ num →
  (length (digits_of (S fuel) num) = S fuel ↔ base ^ Z.of_nat fuel ≤ num) ∧
  (length (digits_of (S fuel) num) ≤ S fuel)%nat.
Proof.
  revert num. induction fuel as [|fuel IH]; intros num Hn.
  - simpl. destruct (0 <? num) eqn:E; bool_facts; simpl; lia.
  - change (digits_of (S (S fuel)) num) with
      (if 0 <? num then num mod base :: digits_of (S fuel) (num / base) else []).
    assert (0 < base ^ Z.of_nat (S fuel)) by (apply Z.pow_pos_nonneg; unfold base; lia).
    destruct (0 <? num) eqn:E; bool_facts; [|simpl; lia].
    destruct (IH (num / base)) as [IH1 IH2]; [apply Z.div_pos; unfold base; lia|].
    change (length (?a :: ?b)) with (S (length b)). split; [|lia].
    rewrite Nat2Z.inj_succ, Z.pow_succ_r by lia.
    rewrite (Nat.succ_inj_wd _ (S fuel)), IH1. unfold base.
    split; intros ?; [pose proof (Z.div_mod num 62); pose proof (Z.mod_pos_bound num 62); lia|].
    apply Z.div_le_lower_bound; lia.
Qed.

(** ** Decoding what was encoded *)

Definition index_ok (d : Z) : bool := bool_decide (IndexRune (alphabet_at d) = Some d).

Lemma IndexRune_at d : is_base62_digit d → IndexRune (alphabet_at d) = Some d.
Proof.
  intros [? ?]. assert (forallb index_ok (Z.of_nat <$> seq 0 62) = true) as Hall by (vm_compute; reflexivity).
  rewrite List.forallb_forall in Hall. specialize (Hall d).
  apply (bool_decide_eq_true_1 _). apply Hall, list_elem_of_In, list_elem_of_fmap.
  exists (Z.to_nat d). unfold base in *. split; [lia|]. apply elem_of_seq. lia.
Qed.

Lemma decode_loop_value conv ds strLen i acc :
  Forall is_base62_digit ds → strLen = (i + length ds)%nat → (length ds ≤ 6)%nat →
  0 ≤ acc → acc + digits_value ds < 2 ^ 32 →
  decode_loop conv strLen i (alphabet_at <$> ds) acc = Ok (acc + digits_value ds).
Proof.
  intros Hds. revert i acc. induction Hds as [|d ds Hd Hds IH]; intros i acc Hl Hle Ha Hv; simpl.
  - f_equal. lia.
  - rewrite IndexRune_at by done. simpl in *.
    replace (strLen - i - 1)%nat with (length ds) by lia.
    pose proof (digits_value_nonneg ds Hds) as Hn. destruct Hd as [Hd _].
    assert (0 ≤ base ^ Z.of_nat (length ds) < 2 ^ 32) as Hp.
    { split; [apply Z.pow_nonneg; done|]. apply Z.le_lt_trans with (base ^ 5); [|done].
      apply Z.pow_le_mono_r; [done|lia]. }
    unfold pow62. rewrite bool_decide_true by lia. unfold u32.
    rewrite (wrap_small 32 (base ^ _)) by done.
    rewrite (wrap_small 32 (d * _)) by nia. rewrite wrap_small by nia.
    rewrite IH; [f_equal; lia| lia | lia | nia | lia].
Qed.

Lemma Encode_value num : 0 ≤ num < 2 ^ 32 →
  ∃ ds, Encode num = alphabet_at <$> ds ∧ Forall is_base62_digit ds ∧ digits_value ds = num ∧
        (length ds ≤ 6)%nat ∧ (length ds = 6%nat ↔ base ^ 5 ≤ num).
Proof.
  intros Hn. unfold Encode. destruct (num =? 0) eqn:E; bool_facts.
  - subst. exists [0]. split_and!; try done; repeat constructor; simpl; try lia; unfold base; lia.
  - exists (reverse (digits_of 6 num)). rewrite encode_loop_digits, fmap_reverse, length_reverse.
    destruct (digits_of_length 5 num) as [H1 H2]; [lia|].
    split_and!; [done|by apply Forall_reverse, digits_of_digit|apply digits_of_value|lia|apply H1].
    unfold base. simpl. lia.
Qed.

Lemma decode_padded conv n num : 0 ≤ num < 2 ^ 32 → (n + length (Encode num) ≤ 6)%nat →
  Decode conv (replicate n Byte.x30 ++ Encode num) = Ok num.
Proof.
  intros Hn Hl. destruct (Encode_value num Hn) as (ds & E & Hds & Hv & _ & _).
  rewrite E, length_fmap in Hl. rewrite E.
  change Byte.x30 with (alphabet_at 0). rewrite <- fmap_replicate, <- fmap_app.
  unfold Decode. rewrite length_fmap, decode_loop_value with (acc := 0).
  - rewrite digits_value_zeros, Hv. done.
  - apply Forall_app. split; [apply Forall_replicate; done|done].
  - done.
  - rewrite length_app, length_replicate. lia.
  - lia.
  - rewrite digits_value_zeros. lia.
Qed.

Lemma length_Encode num : 0 ≤ num < 2 ^ 32 →
  (length (Encode num) ≤ 6)%nat ∧ (length (Encode num) = 6%nat ↔ base ^ 5 ≤ num).
Proof.
  intros Hn. destruct (Encode_value num Hn) as (ds & -> & _ & _ & H1 & H2).
  rewrite length_fmap. done.
Qed.

(** A padded checksum decodes exactly when the padding is the digit zero or there
    is none. *)
Lemma decode_pad_left conv pad num : 0 ≤ num < 2 ^ 32 → pad = Byte.x30 ∨ IndexRune pad = None →
  (Decode conv (pad_left pad 6 (Encode num)) = Ok num ∧ (pad = Byte.x30 ∨ base ^ 5 ≤ num)) ∨
  (Decode conv (pad_left pad 6 (Encode num)) = Err (invalidCharacter pad) ∧ pad ≠ Byte.x30 ∧ num < base ^ 5).
Proof.
  intros Hn Hp. destruct (length_Encode num Hn) as [Hl H6]. unfold pad_left.
  destruct (decide (base ^ 5 ≤ num)) as [Hb|Hb].
  - left. rewrite (proj2 H6 Hb). split; [|by right].
    rewrite Nat.sub_diag. apply (decode_padded conv 0); [done|simpl; lia].
  - destruct (decide (pad = Byte.x30)) as [->|Hne]; [left|right].
    + split; [|by left]. apply decode_padded; [done|lia].
    + destruct Hp as [?|Hp]; [done|]. split; [|split; [done|lia]].
      destruct (6 - length (Encode num))%nat eqn:E; [lia|].
      unfold Decode. simpl. by rewrite Hp.
Qed.

(** ** The checksum is a 32-bit number *)

Lemma lxor_range w a b : 0 ≤ w → 0 ≤ a < 2 ^ w → 0 ≤ b < 2 ^ w → 0 ≤ Z.lxor a b < 2 ^ w.
Proof.
  intros Hw Ha Hb. assert (0 ≤ Z.lxor a b) as Hn by (apply Z.lxor_nonneg; lia).
  split; [done|]. destruct (decide (Z.lxor a b = 0)) as [->|]; [apply Z.pow_pos_nonneg; lia|].
  apply Z.log2_lt_pow2; [lia|].
  destruct (decide (w = 0)) as [->|].
  { assert (a = 0) as -> by lia. assert (b = 0) as -> by lia. done. }
  apply Z.le_lt_trans with (Z.max (Z.log2 a) (Z.log2 b)); [apply Z.log2_lxor; lia|].
  apply Z.max_lub_lt.
  - destruct (decide (a = 0)) as [->|]; [simpl; lia|]. apply Z.log2_lt_pow2; lia.
  - destruct (decide (b = 0)) as [->|]; [simpl; lia|]. apply Z.log2_lt_pow2; lia.
Qed.

Lemma crc_bits_range n c : 0 ≤ c < 2 ^ 32 → 0 ≤ crc_bits n c < 2 ^ 32.
Proof.
  revert c. induction n as [|n IH]; intros c Hc; simpl; [done|]. apply IH.
  assert (0 ≤ Z.shiftr c 1 < 2 ^ 32).
  { rewrite Z.shiftr_div_pow2 by lia. split; [apply Z.div_pos; lia|]. apply Z.div_lt_upper_bound; lia. }
  destruct (Z.odd c); [apply lxor_range; (done || unfold crc_poly; lia)|done].
Qed.

Lemma crc32_range s : 0 ≤ crc32 s < 2 ^ 32.
Proof.
  unfold crc32. apply lxor_range; [lia| |lia].
  assert (0 ≤ 2 ^ 32 - 1 < 2 ^ 32) as H by lia. revert H. generalize (2 ^ 32 - 1).
  induction s as [|b s IH]; intros c Hc; simpl; [done|]. apply IH.
  unfold crc_byte. apply crc_bits_range, lxor_range; [lia|done|].
  pose proof (byte_to_Z_range b). lia.
Qed.

#[export] Hint Resolve crc32_range : go.

(** ** Tokens *)

Lemma take_drop_middle_app {A} (p s c : list A) :
  take (length p) (p ++ s ++ c) = p ∧ take (length s) (drop (length p) (p ++ s ++ c)) = s ∧
  drop (length p + length s) (p ++ s ++ c) = c.
Proof.
  rewrite take_app_length, drop_app_length, take_app_length.
  rewrite app_assoc, <- length_app, drop_app_length. done.
Qed.

(** The slices of a token of the right shape. *)
Lemma check_pat_shape conv secret sum : length secret = PATSecretLength → length sum = PATChecksumLength →
  check_pat conv (PATPrefix ++ secret ++ sum) =
    (let! v := omap_err checksumDecode (Decode conv sum) in
     require (crc32 secret =? v) else checksumMismatch;
     Ok (hash_token (PATPrefix ++ secret ++ sum))).
Proof.
  intros Hs Hc. destruct (take_drop_middle_app PATPrefix secret sum) as (E1 & E2 & E3).
  assert (length (PATPrefix ++ secret ++ sum) = 40%nat) as Hl.
  { rewrite !length_app, Hs, Hc. done. }
  unfold check_pat. rewrite bool_decide_true by (rewrite Hl; done).
  rewrite (go_slice_ok _ 0) by (rewrite ?Hl; unfold PATPrefix; simpl; lia).
  cbn [obind]. rewrite drop_0, Nat.sub_0_r, E1, bool_decide_true by done.
  rewrite go_slice_ok by (rewrite ?Hl; unfold PATPrefix, PATSecretLength; simpl; lia).
  rewrite go_slice_ok by (rewrite ?Hl; unfold PATPrefix, PATSecretLength, PATChecksumLength; simpl; lia).
  cbn [obind]. rewrite <- Hs, E3.
  replace (length PATPrefix + length secret - length PATPrefix)%nat with (length secret) by lia.
  rewrite E2, firstn_all2 by lia. done.
Qed.

Lemma validate_shape conv secret sum :
  length secret = InviteTokenSecretLength → length sum = InviteTokenChecksumLength →
  ValidateInviteToken conv (InviteTokenPrefix ++ secret ++ sum) =
    (let! v := omap_err checksumDecode (Decode conv sum) in
     require (crc32 secret =? v) else checksumMismatch; Ok ()).
Proof.
  intros Hs Hc. destruct (take_drop_middle_app InviteTokenPrefix secret sum) as (E1 & E2 & E3).
  assert (length (InviteTokenPrefix ++ secret ++ sum) = 40%nat) as Hl.
  { rewrite !length_app, Hs, Hc. done. }
  unfold ValidateInviteToken. rewrite bool_decide_true by (rewrite Hl; done).
  rewrite (go_slice_ok _ 0) by (rewrite ?Hl; unfold InviteTokenPrefix; simpl; lia).
  cbn [obind]. rewrite drop_0, Nat.sub_0_r, E1, bool_decide_true by done.
  rewrite go_slice_ok by (rewrite ?Hl; unfold InviteTokenPrefix, InviteTokenSecretLength; simpl; lia).
  rewrite go_from_ok by (rewrite ?Hl; unfold InviteTokenPrefix, InviteTokenSecretLength; simpl; lia).
  cbn [obind]. rewrite <- Hs, E3.
  replace (length InviteTokenPrefix + length secret - length InviteTokenPrefix)%nat
    with (length secret) by lia.
  rewrite E2. done.
Qed.

Lemma length_pad_left pad s : (length s ≤ 6)%nat → length (pad_left pad 6 s) = 6%nat.
Proof. intros. unfold pad_left. rewrite length_app, length_replicate. lia. Qed.

(** A generated personal access token passes the check exactly when the padding is
    the digit zero or none was needed. *)
Lemma generated_pat_check conv pad secret :
  length secret = PATSecretLength → pad = Byte.x30 ∨ IndexRune pad = None →
  check_pat conv (generateNewToken pad secret).2 =
    (if decide (pad = Byte.x30 ∨ base ^ 5 ≤ crc32 secret) then Ok (generateNewToken pad secret).1
     else Err (checksumDecode (invalidCharacter pad))).
Proof.
  intros Hs Hp. pose proof (crc32_range secret) as Hr. unfold generateNewToken. cbn [fst snd].
  rewrite check_pat_shape by (done || apply length_pad_left, length_Encode; done).
  destruct (decode_pad_left conv pad _ Hr Hp) as [[-> H]|(-> & H1 & H2)]; cbn [omap_err obind].
  - rewrite Z.eqb_refl, decide_True by done. done.
  - rewrite decide_False; [done|]. intros [?|?]; [done|lia].
Qed.

(** A generated invite token always passes. *)
Lemma generated_invite_valid conv secret : length secret = InviteTokenSecretLength →
  ValidateInviteToken conv (GenerateInviteToken secret).2 = Ok () ∧
  HashInviteToken (GenerateInviteToken secret).2 = (GenerateInviteToken secret).1.
Proof.
  intros Hs. split; [|done]. pose proof (crc32_range secret) as Hr.
  destruct (length_Encode _ Hr) as [Hl _].
  unfold GenerateInviteToken, InviteTokenChecksumLength. cbn [fst snd].
  assert ((if bool_decide (length (Encode (crc32 secret)) < 6)%nat
           then replicate (6 - length (Encode (crc32 secret))) Byte.x30 ++ Encode (crc32 secret)
           else Encode (crc32 secret)) = pad_left Byte.x30 6 (Encode (crc32 secret))) as ->.
  { unfold pad_left. case_bool_decide; [done|].
    replace (6 - length (Encode (crc32 secret)))%nat with O by lia. done. }
  rewrite validate_shape by (done || apply length_pad_left; done).
  unfold pad_left. rewrite decode_padded by (done || lia). cbn [omap_err obind].
  by rewrite Z.eqb_refl.
Qed.

Lemma check_pat_Ok conv token h : check_pat conv token = Ok h → h = hash_token token.
Proof. unfold check_pat, obind. intros Hz. repeat case_match; congruence. Qed.
