(* ===== verification/Permissions.v ===== *)
(** * Users, roles and permissions

    The user of management/server/types/user.go with its methods and
    constructors, and the permission manager of management/server/permissions:
    modules, operations, the five roles and the check every call of the
    management API starts with.  The table of users is the [users] table of
    management/server/store/sql_store.go; the encryption of names and e-mail
    addresses at rest is not part of the model. *)

From Stdlib Require Import Strings.Byte Strings.String.
From S2P Require Import Prelude GoStd GoStrings.

Local Open Scope go_scope.
Local Open Scope list_scope.

(** ** Errors: shared/management/status/error.go

    An error carries its type and the fixed part of its message; wrapping with
    [%w] keeps the type, which is all [status.FromError] reads. *)

Inductive status_type :=
| UserAlreadyExists | PreconditionFailed | PermissionDenied | NotFound | Internal | InvalidArgument
| AlreadyExists | Unauthorized | BadRequest | Unauthenticated | TooManyRequests.

#[global] Instance status_type_eq_dec : EqDecision status_type.
Proof. solve_decision. Defined.

(** [Plain] is an error that is no status error. *)
Inductive Error :=
| Errorf (t : status_type) (msg : string)
| Plain (msg : string).

#[global] Instance Error_eq_dec : EqDecision Error.
Proof. solve_decision. Defined.

Definition NewUserNotFoundError := Errorf NotFound "user not found".

Definition NewUserBlockedError := Errorf PermissionDenied "user is blocked".

Definition NewUserPendingApprovalError := Errorf PermissionDenied "user is pending approval".

Definition NewUserNotPartOfAccountError := Errorf PermissionDenied "user is not part of this account".

Definition NewUserRoleNotFoundError := Errorf NotFound "user role not found".

Definition NewPermissionDeniedError := Errorf PermissionDenied "permission denied".

(** It keeps the text of the error only, so the type is always PermissionDenied. *)
Definition NewPermissionValidationError (err : Error) := Errorf PermissionDenied "failed to validate user permissions".

(** ** Roles *)

Abbreviation UserRole := bytes.

Definition UserRoleOwner : UserRole := str "owner".

Definition UserRoleAdmin : UserRole := str "admin".

Definition UserRoleUser : UserRole := str "user".

Definition UserRoleUnknown : UserRole := str "unknown".

Definition UserRoleBillingAdmin : UserRole := str "billing_admin".

Definition UserRoleAuditor : UserRole := str "auditor".

Definition UserRoleNetworkAdmin : UserRole := str "network_admin".

Definition UserStatusActive : bytes := str "active".

Definition UserStatusInvited : bytes := str "invited".

Definition UserIssuedAPI : bytes := str "api".

Definition UserIssuedIntegration : bytes := str "integration".

(** [lower] is [strings.ToLower]. *)
Definition StrRoleToUserRole (lower : bytes → bytes) (strRole : bytes) : UserRole :=
  let s := lower strRole in
  if bool_decide (s = str "owner") then UserRoleOwner
  else if bool_decide (s = str "admin") then UserRoleAdmin
  else if bool_decide (s = str "user") then UserRoleUser
  else if bool_decide (s = str "billing_admin") then UserRoleBillingAdmin
  else if bool_decide (s = str "auditor") then UserRoleAuditor
  else if bool_decide (s = str "network_admin") then UserRoleNetworkAdmin
  else UserRoleUnknown.

(** ** types/user.go *)

Record IntegrationReference := mkIntegration { ir_ID : Z; ir_Type : bytes }.

Record User := mkUser {
  Id : bytes;
  AccountID : bytes;
  Role : UserRole;
  IsServiceUser : bool;
  NonDeletable : bool;
  ServiceUserName : bytes;
  AutoGroups : option (list bytes);    (* None is the nil slice *)
  Blocked : bool;
  PendingApproval : bool;
  LastLogin : option Z;
  CreatedAt : Z;
  Issued : bytes;
  Integration : IntegrationReference;
  Name : bytes;
  Email : bytes
}.

Record UserInfo := mkInfo {
  ui_ID : bytes;
  ui_Email : bytes;
  ui_Name : bytes;
  ui_Role : bytes;
  ui_AutoGroups : option (list bytes);
  ui_Status : bytes;
  ui_IsServiceUser : bool;
  ui_IsBlocked : bool;
  ui_NonDeletable : bool;
  ui_LastLogin : Z;
  ui_Issued : bytes;
  ui_PendingApproval : bool;
  ui_Password : bytes;
  ui_Integration : IntegrationReference;
  ui_IdPID : bytes
}.

#[global] Instance IntegrationReference_eq_dec : EqDecision IntegrationReference.
Proof. solve_decision. Defined.

#[global] Instance User_eq_dec : EqDecision User.
Proof. solve_decision. Defined.

Definition IsBlocked (u : User) : bool := Blocked u.

Definition GetLastLogin (u : User) : Z := default time_zero (LastLogin u).

Definition LastDashboardLoginChanged (u : User) (lastLogin : Z) : bool :=
  (GetLastLogin u <? lastLogin) && negb (IsZero (GetLastLogin u)).

Definition HasAdminPower (u : User) : bool :=
  bool_decide (Role u = UserRoleAdmin) || bool_decide (Role u = UserRoleOwner).

Definition IsAdminOrServiceUser (u : User) : bool := HasAdminPower u || IsServiceUser u.

Definition IsRegularUser (u : User) : bool := negb (HasAdminPower u) && negb (IsServiceUser u).

Definition IsRestrictable (u : User) : bool :=
  bool_decide (Role u = UserRoleUser) || bool_decide (Role u = UserRoleBillingAdmin).

(** What the identity provider knows of a user (management/server/idp/idp.go). *)
Record UserData := mkUserData {
  ud_ID : bytes;
  ud_Email : bytes;
  ud_Name : bytes;
  ud_WTPendingInvite : option bool;
  ud_Password : bytes
}.

Definition no_integration := mkIntegration 0 [].

Definition ToUserInfo (u : User) (userData : option UserData) : outcome Error UserInfo :=
  match userData with
  | None =>
      Ok (mkInfo (Id u) (Email u) (if IsServiceUser u then ServiceUserName u else Name u) (Role u) (AutoGroups u)
            UserStatusActive (IsServiceUser u) (Blocked u) false (GetLastLogin u) (Issued u) (PendingApproval u)
            [] no_integration [])
  | Some d =>
      require bool_decide (ud_ID d = Id u) else Plain "wrong UserData provided for user";
      let userStatus := match ud_WTPendingInvite d with Some true => UserStatusInvited | _ => UserStatusActive end in
      Ok (mkInfo (Id u) (ud_Email d) (ud_Name d) (Role u) (Some (default [] (AutoGroups u)))
            userStatus (IsServiceUser u) (Blocked u) false (GetLastLogin u) (Issued u) (PendingApproval u)
            (ud_Password d) no_integration [])
  end.

(** A copy of a user has a non-nil list of groups. *)
Definition Copy (u : User) : User :=
  mkUser (Id u) (AccountID u) (Role u) (IsServiceUser u) (NonDeletable u) (ServiceUserName u)
    (Some (default [] (AutoGroups u))) (Blocked u) (PendingApproval u) (LastLogin u) (CreatedAt u) (Issued u)
    (Integration u) (Name u) (Email u).

Definition NewUser (now : Z) (id : bytes) (role : UserRole) (isServiceUser nonDeletable : bool) (serviceUserName : bytes)
    (autoGroups : option (list bytes)) (issued email name : bytes) : User :=
  mkUser id [] role isServiceUser nonDeletable serviceUserName autoGroups false false None now issued no_integration
    name email.

Definition NewRegularUser (now : Z) (id email name : bytes) : User :=
  NewUser now id UserRoleUser false false [] (Some []) UserIssuedAPI email name.

Definition NewAdminUser (now : Z) (id : bytes) : User :=
  NewUser now id UserRoleAdmin false false [] (Some []) UserIssuedAPI [] [].

Definition NewOwnerUser (now : Z) (id email name : bytes) : User :=
  NewUser now id UserRoleOwner false false [] (Some []) UserIssuedAPI email name.

(** ** permissions/modules, operations and roles *)

Abbreviation Module_ := bytes.

Definition Networks : Module_ := str "networks".

Definition Peers : Module_ := str "peers".

Definition RemoteJobs : Module_ := str "remote_jobs".

Definition Groups : Module_ := str "groups".

Definition Settings : Module_ := str "settings".

Definition Accounts : Module_ := str "accounts".

Definition Dns : Module_ := str "dns".

Definition Nameservers : Module_ := str "nameservers".

Definition Events : Module_ := str "events".

Definition Policies : Module_ := str "policies".

Definition Routes : Module_ := str "routes".

Definition Users : Module_ := str "users".

Definition SetupKeys : Module_ := str "setup_keys".

Definition Pats : Module_ := str "pats".

Definition IdentityProviders : Module_ := str "identity_providers".

Definition Services : Module_ := str "services".

Definition All : list Module_ :=
  [Networks; Peers; RemoteJobs; Groups; Settings; Accounts; Dns; Nameservers; Events; Policies; Routes; Users;
   SetupKeys; Pats; IdentityProviders; Services].

Abbreviation Operation := bytes.

Definition Create : Operation := str "create".

Definition Read : Operation := str "read".

Definition Update : Operation := str "update".

Definition Delete : Operation := str "delete".

Abbreviation OpMap := (gmap bytes bool).

Record RolePermissions := mkRole {
  rp_Role : UserRole;
  rp_Permissions : gmap Module_ OpMap;
  rp_AutoAllowNew : OpMap
}.

Definition op_map (read create update delete : bool) : OpMap :=
  list_to_map [(Read, read); (Create, create); (Update, update); (Delete, delete)].

Definition Owner : RolePermissions := mkRole UserRoleOwner ∅ (op_map true true true true).

Definition Admin : RolePermissions :=
  mkRole UserRoleAdmin {[ Accounts := op_map true false false false ]} (op_map true true true true).

Definition User_role : RolePermissions := mkRole UserRoleUser ∅ (op_map false false false false).

Definition Auditor : RolePermissions := mkRole UserRoleAuditor ∅ (op_map true false false false).

Definition NetworkAdmin : RolePermissions :=
  mkRole UserRoleNetworkAdmin
    (list_to_map
       [(Networks, op_map true true true true); (Groups, op_map true true true true);
        (Settings, op_map true false false false); (Accounts, op_map true false false false);
        (Dns, op_map true true true true); (Nameservers, op_map true true true true);
        (Events, op_map true false false false); (Policies, op_map true true true true);
        (Routes, op_map true true true true); (Users, op_map true false false false);
        (SetupKeys, op_map true false false false); (Pats, op_map true true true true);
        (Peers, op_map true false false false); (IdentityProviders, op_map true false false false)])
    (op_map false false false false).

Definition RolesMap : gmap UserRole RolePermissions :=
  list_to_map [(UserRoleOwner, Owner); (UserRoleAdmin, Admin); (UserRoleUser, User_role);
               (UserRoleAuditor, Auditor); (UserRoleNetworkAdmin, NetworkAdmin)].

(** ** permissions/manager.go *)

Definition SystemInitiator : bytes := str "sys".

(** The table of users, by their primary key. *)
Abbreviation UserTable := (gmap bytes User).

Definition GetUserByUserID (users : UserTable) (userID : bytes) : outcome Error User :=
  match users !! userID with Some u => Ok u | None => Err NewUserNotFoundError end.

Definition ValidateRoleModuleAccess (role : RolePermissions) (module : Module_) (operation : Operation) : bool :=
  match rp_Permissions role !! module with
  | Some permissions => default false (permissions !! operation)
  | None => default false (rp_AutoAllowNew role !! operation)
  end.

Definition ValidateAccountAccess (accountID : bytes) (user : User) : outcome Error unit :=
  if bool_decide (AccountID user = accountID) then Ok () else Err NewUserNotPartOfAccountError.

Definition ValidateUserPermissions (users : UserTable) (accountID userID : bytes) (module : Module_)
    (operation : Operation) : outcome Error bool :=
  if bool_decide (userID = SystemInitiator) then Ok true else
  let! user := GetUserByUserID users userID in
  require negb (IsBlocked user && negb (PendingApproval user)) else NewUserBlockedError;
  require negb (IsBlocked user && PendingApproval user) else NewUserPendingApprovalError;
  let! _ := ValidateAccountAccess accountID user in
  if bool_decide (operation = Read) && IsServiceUser user then Ok true else
  match RolesMap !! Role user with
  | None => Err NewUserRoleNotFoundError
  | Some role => Ok (ValidateRoleModuleAccess role module operation)
  end.

Definition add_module (roleMap : RolePermissions) (permissions : gmap Module_ OpMap) (k : Module_) : gmap Module_ OpMap :=
  match rp_Permissions roleMap !! k with
  | Some rolePermissions => <[k := rolePermissions]> permissions
  | None => <[k := rp_AutoAllowNew roleMap]> permissions
  end.

Definition GetPermissionsByRole (role : UserRole) : outcome Error (gmap Module_ OpMap) :=
  match RolesMap !! role with
  | None => Err NewUserRoleNotFoundError
  | Some roleMap =>
      Ok (foldl (add_module roleMap) ∅ All)
  end.

(** ** What the roles mean *)

Definition known_op (op : Operation) : Prop := op ∈ [Read; Create; Update; Delete].

(** The modules a network administrator manages, and those it may only look at. *)
Definition network_modules : list Module_ := [Networks; Groups; Dns; Nameservers; Policies; Routes; Pats].

Definition network_visible : list Module_ := [Settings; Accounts; Events; Users; SetupKeys; Peers; IdentityProviders].

Inductive role_allows : UserRole → Module_ → Operation → Prop :=
| allows_owner m op : known_op op → role_allows UserRoleOwner m op
| allows_admin m op : known_op op → m ≠ Accounts ∨ op = Read → role_allows UserRoleAdmin m op
| allows_auditor m : role_allows UserRoleAuditor m Read
| allows_network_admin m op : m ∈ network_modules → known_op op → role_allows UserRoleNetworkAdmin m op
| allows_network_visible m : m ∈ network_visible → role_allows UserRoleNetworkAdmin m Read.

(** A user may act in an account: a present, unblocked user of the account whose
    role allows the operation; service users may read everything. *)
Definition may (users : UserTable) (accountID userID : bytes) (m : Module_) (op : Operation) : Prop :=
  ∃ u, users !! userID = Some u ∧ Blocked u = false ∧ AccountID u = accountID ∧
       (role_allows (Role u) m op ∨ (op = Read ∧ IsServiceUser u = true)).

Lemma op_map_allowed r c u d op :
  default false (op_map r c u d !! op) = true ↔
    (op = Read ∧ r = true) ∨ (op = Create ∧ c = true) ∨ (op = Update ∧ u = true) ∨ (op = Delete ∧ d = true).
Proof.
  unfold op_map. cbn [list_to_map foldr fst snd].
  destruct (decide (op = Read)) as [->|H1]; [rewrite lookup_insert_eq; naive_solver|].
  rewrite lookup_insert_ne by done.
  destruct (decide (op = Create)) as [->|H2]; [rewrite lookup_insert_eq; naive_solver|].
  rewrite lookup_insert_ne by done.
  destruct (decide (op = Update)) as [->|H3]; [rewrite lookup_insert_eq; naive_solver|].
  rewrite lookup_insert_ne by done.
  destruct (decide (op = Delete)) as [->|H4]; [rewrite lookup_insert_eq; naive_solver|].
  rewrite lookup_insert_ne, lookup_empty by done. naive_solver.
Qed.

Lemma op_map_all op : default false (op_map true true true true !! op) = true ↔ known_op op.
Proof. rewrite op_map_allowed. unfold known_op. rewrite !elem_of_cons, elem_of_nil. naive_solver. Qed.

Lemma op_map_read op : default false (op_map true false false false !! op) = true ↔ op = Read.
Proof. rewrite op_map_allowed. naive_solver. Qed.

Lemma op_map_none op : default false (op_map false false false false !! op) = true ↔ False.
Proof. rewrite op_map_allowed. naive_solver. Qed.

#[export] Hint Rewrite op_map_all op_map_read op_map_none : perms.

Lemma RolesMap_lookup role : RolesMap !! role =
  if decide (role = UserRoleOwner) then Some Owner
  else if decide (role = UserRoleAdmin) then Some Admin
  else if decide (role = UserRoleUser) then Some User_role
  else if decide (role = UserRoleAuditor) then Some Auditor
  else if decide (role = UserRoleNetworkAdmin) then Some NetworkAdmin else None.
Proof.
  unfold RolesMap. cbn [list_to_map foldr fst snd].
  repeat (case_decide; [subst; apply lookup_insert_eq|rewrite lookup_insert_ne by done]).
  apply lookup_empty.
Qed.

(** The table of the network administrator, module by module. *)
Lemma network_admin_lookup m : rp_Permissions NetworkAdmin !! m =
  if decide (m ∈ network_modules) then Some (op_map true true true true)
  else if decide (m ∈ network_visible) then Some (op_map true false false false) else None.
Proof.
  unfold NetworkAdmin. cbn [rp_Permissions list_to_map foldr fst snd].
  repeat match goal with
  | |- (<[?k:=_]> _ !! m) = _ =>
      destruct (decide (k = m)) as [<-|?]; [rewrite lookup_insert_eq|rewrite lookup_insert_ne by done]
  end.
  all: unfold network_modules, network_visible.
  all: try (rewrite decide_True by (rewrite !elem_of_cons; tauto); done).
  all: try (rewrite decide_False by (apply (bool_decide_unpack _); vm_compute; exact I);
            rewrite decide_True by (rewrite !elem_of_cons; tauto); done).
  rewrite lookup_empty, !decide_False by (rewrite !elem_of_cons, elem_of_nil; naive_solver). done.
Qed.

(** The five roles allow what they are meant to allow. *)
Lemma role_table_exact role r m op : RolesMap !! role = Some r →
  ValidateRoleModuleAccess r m op = true ↔ role_allows role m op.
Proof.
  rewrite RolesMap_lookup. unfold ValidateRoleModuleAccess. intros Hr.
  repeat (case_decide; [injection Hr as <-|]); [subst role..|done].
  - cbn -[op_map]. rewrite lookup_empty. autorewrite with perms.
    split; [by constructor|]. by inversion 1.
  - cbn -[op_map Accounts]. destruct (decide (m = Accounts)) as [->|Hm].
    + rewrite lookup_singleton_eq. autorewrite with perms.
      split; [intros ->; constructor; [set_solver|by right]|].
      inversion 1; subst. naive_solver.
    + rewrite lookup_singleton_ne by done. autorewrite with perms.
      split; [by constructor; [|left]|]. by inversion 1.
  - cbn -[op_map]. rewrite lookup_empty. autorewrite with perms. split; [done|]. by inversion 1.
  - cbn -[op_map]. rewrite lookup_empty. autorewrite with perms.
    split; [intros ->; constructor|]. by inversion 1.
  - rewrite network_admin_lookup. repeat case_decide; autorewrite with perms.
    + split; [by constructor|]. inversion 1; subst; [done|set_solver].
    + split; [intros ->; by apply allows_network_visible|]. by inversion 1.
    + cbn -[op_map]. autorewrite with perms. split; [done|]. by inversion 1.
Qed.

Lemma unknown_role_allows_nothing role m op : RolesMap !! role = None → ¬ role_allows role m op.
Proof. rewrite RolesMap_lookup. intros Hr Ha. destruct Ha; simplify_eq; done. Qed.

(** The check grants exactly what [may] says, and the system everything. *)
Lemma ValidateUserPermissions_granted users acc uid m op :
  ValidateUserPermissions users acc uid m op = Ok true ↔ uid = SystemInitiator ∨ may users acc uid m op.
Proof.
  unfold ValidateUserPermissions, GetUserByUserID, ValidateAccountAccess, IsBlocked, may.
  case_bool_decide as Hs; [split; [by left|done]|].
  destruct (users !! uid) as [u|] eqn:Hu; [|split; [done|intros [?|(?&?&_)]; congruence]]. cbn [obind].
  destruct (Blocked u) eqn:Hb; simpl.
  { destruct (PendingApproval u); simpl; split; (done || intros [?|(?&[= <-]&?&?)]; congruence). }
  case_bool_decide as Ha; cbn [obind]; [|split; [done|intros [?|(?&?&_&?&_)]; congruence]].
  destruct (bool_decide (op = Read) && IsServiceUser u) eqn:Hr; bool_facts.
  { split; [|done]. intros _. right. exists u. auto 10. }
  destruct (RolesMap !! Role u) as [r|] eqn:Hrole.
  - pose proof (role_table_exact _ _ m op Hrole) as Ht. split.
    + intros [= Hv]. right. exists u. rewrite <- Ht. auto 10.
    + intros [?|(?&[= <-]&_&_&Hv)]; [done|]. rewrite <- Ht in Hv. destruct Hv as [->|[-> Hv]]; [done|].
      destruct Hr; bool_facts; congruence.
  - pose proof (unknown_role_allows_nothing _ m op Hrole). split; [done|].
    intros [?|(?&[= <-]&_&_&Hv)]; [done|]. destruct Hv as [?|[-> Hv]]; [done|].
    destruct Hr; bool_facts; congruence.
Qed.

(** The permissions the dashboard shows are the ones the check uses. *)
Lemma GetPermissionsByRole_agrees role perms r m op :
  GetPermissionsByRole role = Ok perms → RolesMap !! role = Some r → m ∈ All →
  default false (perms !! m ≫= (.!! op)) = ValidateRoleModuleAccess r m op.
Proof.
  unfold GetPermissionsByRole. intros Hp Hr Hm. rewrite Hr in Hp.
  assert (perms = foldl (add_module r) ∅ All) as -> by congruence.
  assert (∀ l acc, m ∈ l ∨ acc !! m = Some (default (rp_AutoAllowNew r) (rp_Permissions r !! m)) →
    foldl (add_module r) acc l !! m = Some (default (rp_AutoAllowNew r) (rp_Permissions r !! m))) as Hfold.
  { induction l as [|k l IH]; intros acc Hl; simpl.
    - destruct Hl as [Hl|]; [by apply elem_of_nil in Hl|done].
    - apply IH. unfold add_module. destruct (decide (m = k)) as [->|Hne].
      + right. destruct (rp_Permissions r !! k); by rewrite lookup_insert_eq.
      + destruct Hl as [[?|?]%elem_of_cons|Hl]; [done|by left|right].
        destruct (rp_Permissions r !! k); by rewrite lookup_insert_ne. }
  rewrite Hfold by auto. simpl. unfold ValidateRoleModuleAccess. by destruct (rp_Permissions r !! m).
Qed.
