(* ===== verification/UserStore.v ===== *)
(** * The tables behind the user management

    The rows of management/server/store/sql_store.go that the operations on users
    read and write: users, personal access tokens, invites, groups and their
    members, peers, policies and accounts, each keyed by its primary key, and the
    queries on them.  A query that finds several rows returns them in the order of
    [map_to_list]; a failure of the database itself is not modelled, and the
    encryption of columns is left out. *)

From Stdlib Require Import Strings.Byte Strings.String.
From S2P Require Import Prelude GoStd GoStrings Peers PolicyTypes AccessTokens Permissions.

Local Open Scope go_scope.
Local Open Scope list_scope.

(** ** Rows *)

(** types/personal_access_token.go *)
Record PersonalAccessToken := mkPAT {
  pat_ID : bytes;
  pat_UserID : bytes;
  pat_Name : bytes;
  pat_HashedToken : bytes;
  pat_ExpirationDate : option Z;
  pat_CreatedBy : bytes;
  pat_CreatedAt : Z;
  pat_LastUsed : option Z
}.

Definition GetExpirationDate (t : PersonalAccessToken) : Z := default time_zero (pat_ExpirationDate t).

Definition GetLastUsed (t : PersonalAccessToken) : Z := default time_zero (pat_LastUsed t).

(** types/user_invite.go *)
Record UserInviteRecord := mkInvite {
  inv_ID : bytes;
  inv_AccountID : bytes;
  inv_Email : bytes;
  inv_Name : bytes;
  inv_Role : bytes;
  inv_AutoGroups : option (list bytes);
  inv_HashedToken : bytes;
  inv_ExpiresAt : Z;
  inv_CreatedAt : Z;
  inv_CreatedBy : bytes
}.

Definition IsExpired (now : Z) (i : UserInviteRecord) : bool := inv_ExpiresAt i <? now.

(** The columns of an account that the operations on users read. *)
Record AccountRow := mkAccountRow {
  acc_CreatedBy : bytes;
  acc_Domain : bytes;
  acc_DomainCategory : bytes;
  acc_GroupsPropagationEnabled : bool;
  acc_RegularUsersViewBlocked : bool;
  acc_Serial : Z
}.

Record Store := mkStore {
  users : UserTable;
  pats : gmap bytes PersonalAccessToken;
  invites : gmap bytes UserInviteRecord;
  groups : gmap bytes Group;
  group_peers : gset (bytes * bytes);        (* group and peer *)
  peers : gmap bytes Peer;
  policies : gmap bytes Policy;
  accounts : gmap bytes AccountRow
}.

Definition set_users (s : Store) u := mkStore u (pats s) (invites s) (groups s) (group_peers s) (peers s) (policies s) (accounts s).

Definition set_pats (s : Store) p := mkStore (users s) p (invites s) (groups s) (group_peers s) (peers s) (policies s) (accounts s).

Definition set_invites (s : Store) i := mkStore (users s) (pats s) i (groups s) (group_peers s) (peers s) (policies s) (accounts s).

Definition set_group_peers (s : Store) g := mkStore (users s) (pats s) (invites s) (groups s) g (peers s) (policies s) (accounts s).

Definition set_peers (s : Store) p := mkStore (users s) (pats s) (invites s) (groups s) (group_peers s) p (policies s) (accounts s).

Definition set_policies (s : Store) p := mkStore (users s) (pats s) (invites s) (groups s) (group_peers s) (peers s) p (accounts s).

Definition set_accounts (s : Store) a := mkStore (users s) (pats s) (invites s) (groups s) (group_peers s) (peers s) (policies s) a.

Definition rows {A} (P : A → bool) (t : gmap bytes A) : list A := List.filter P (map_to_list t).*2.

Definition first_row {A} (P : A → bool) (e : Error) (t : gmap bytes A) : outcome Error A :=
  match rows P t with x :: _ => Ok x | [] => Err e end.

(** ** Queries on users *)

(** [db.Save]: insert or replace by primary key; the row is a copy. *)
Definition SaveUser (s : Store) (u : User) : Store := set_users s (<[Id u := Copy u]> (users s)).

Definition SaveUsers (s : Store) (us : list User) : Store := foldl SaveUser s us.

(** The tokens go by the user alone, the user by account and id. *)
Definition DeleteUser (s : Store) (accountID userID : bytes) : Store :=
  let s := set_pats s (filter (λ kv, pat_UserID kv.2 ≠ userID) (pats s)) in
  set_users s (filter (λ kv, ¬ (AccountID kv.2 = accountID ∧ Id kv.2 = userID)) (users s)).

Definition GetAccountUsers (s : Store) (accountID : bytes) : list User :=
  rows (λ u, bool_decide (AccountID u = accountID)) (users s).

Definition GetAccountOwner (s : Store) (accountID : bytes) : outcome Error User :=
  first_row (λ u, bool_decide (AccountID u = accountID ∧ Role u = UserRoleOwner))
    (Errorf NotFound "account owner not found: index lookup failed") (users s).

Definition SaveUserLastLogin (s : Store) (accountID userID : bytes) (lastLogin : Z) : outcome Error Store :=
  match users s !! userID with
  | None => Err NewUserNotFoundError
  | Some u =>
      if bool_decide (AccountID u = accountID) then
        if IsZero lastLogin then Ok s
        else Ok (set_users s (<[userID := mkUser (Id u) (AccountID u) (Role u) (IsServiceUser u) (NonDeletable u) (ServiceUserName u)
                   (AutoGroups u) (Blocked u) (PendingApproval u) (Some lastLogin) (CreatedAt u) (Issued u)
                   (Integration u) (Name u) (Email u)]> (users s)))
      else Err NewUserNotFoundError
  end.

(** ** Queries on tokens *)

Definition NewPATNotFoundError := Errorf NotFound "PAT not found".

Definition SavePAT (s : Store) (p : PersonalAccessToken) : Store := set_pats s (<[pat_ID p := p]> (pats s)).

Definition DeletePAT (s : Store) (userID patID : bytes) : outcome Error Store :=
  match pats s !! patID with
  | Some p => if bool_decide (pat_UserID p = userID) then Ok (set_pats s (delete patID (pats s)))
              else Err NewPATNotFoundError
  | None => Err NewPATNotFoundError
  end.

Definition GetPATByID (s : Store) (userID patID : bytes) : outcome Error PersonalAccessToken :=
  match pats s !! patID with
  | Some p => if bool_decide (pat_UserID p = userID) then Ok p else Err NewPATNotFoundError
  | None => Err NewPATNotFoundError
  end.

Definition GetUserPATs (s : Store) (userID : bytes) : list PersonalAccessToken :=
  rows (λ p, bool_decide (pat_UserID p = userID)) (pats s).

Definition GetPATByHashedToken (s : Store) (hashedToken : bytes) : outcome Error PersonalAccessToken :=
  first_row (λ p, bool_decide (pat_HashedToken p = hashedToken)) NewPATNotFoundError (pats s).

(** The join of the tokens and the users. *)
Definition GetUserByPATID (s : Store) (patID : bytes) : outcome Error User :=
  match pats s !! patID with
  | Some p => match users s !! pat_UserID p with Some u => Ok u | None => Err NewPATNotFoundError end
  | None => Err NewPATNotFoundError
  end.

Definition MarkPATUsed (now : Z) (s : Store) (patID : bytes) : outcome Error Store :=
  match pats s !! patID with
  | Some p => Ok (SavePAT s (mkPAT (pat_ID p) (pat_UserID p) (pat_Name p) (pat_HashedToken p) (pat_ExpirationDate p)
                               (pat_CreatedBy p) (pat_CreatedAt p) (Some now)))
  | None => Err NewPATNotFoundError
  end.

(** ** Queries on invites *)

Definition inviteNotFound := Errorf NotFound "user invite not found".

Definition SaveUserInvite (s : Store) (i : UserInviteRecord) : Store := set_invites s (<[inv_ID i := i]> (invites s)).

Definition GetUserInviteByID (s : Store) (accountID inviteID : bytes) : outcome Error UserInviteRecord :=
  match invites s !! inviteID with
  | Some i => if bool_decide (inv_AccountID i = accountID) then Ok i else Err inviteNotFound
  | None => Err inviteNotFound
  end.

Definition GetUserInviteByHashedToken (s : Store) (hashedToken : bytes) : outcome Error UserInviteRecord :=
  first_row (λ i, bool_decide (inv_HashedToken i = hashedToken)) inviteNotFound (invites s).

Definition GetAccountUserInvites (s : Store) (accountID : bytes) : list UserInviteRecord :=
  rows (λ i, bool_decide (inv_AccountID i = accountID)) (invites s).

Definition GetUserInviteByEmail (EqualFold : bytes → bytes → bool) (s : Store) (accountID email : bytes) :
    outcome Error UserInviteRecord :=
  match List.find (λ i, EqualFold (inv_Email i) email) (GetAccountUserInvites s accountID) with
  | Some i => Ok i
  | None => Err (Errorf NotFound "user invite not found for email")
  end.

Definition DeleteUserInvite (s : Store) (inviteID : bytes) : Store := set_invites s (delete inviteID (invites s)).

(** ** Queries on groups, peers, policies and accounts *)

Definition GetAccountGroups (s : Store) (accountID : bytes) : list Group :=
  rows (λ g, bool_decide (g_AccountID g = accountID)) (groups s).

Definition GetGroupsByIDs (s : Store) (accountID : bytes) (groupIDs : list bytes) : list Group :=
  rows (λ g, bool_decide (g_AccountID g = accountID ∧ g_ID g ∈ groupIDs)) (groups s).

Definition GetUserPeers (s : Store) (accountID userID : bytes) : list Peer :=
  if bool_decide (userID = []) then []
  else rows (λ p, bool_decide (Peers.AccountID p = accountID ∧ UserID p = userID)) (peers s).

Definition AddPeerToGroup (s : Store) (accountID peerID groupID : bytes) : Store :=
  set_group_peers s ({[(groupID, peerID)]} ∪ group_peers s).

Definition RemovePeerFromGroup (s : Store) (peerID groupID : bytes) : Store :=
  set_group_peers s (group_peers s ∖ {[(groupID, peerID)]}).

Definition RemovePeerFromAllGroups (s : Store) (peerID : bytes) : Store :=
  set_group_peers s (filter (λ gp, gp.2 ≠ peerID) (group_peers s)).

Definition SavePeerStatus (s : Store) (accountID peerID : bytes) (st : PeerStatus) : outcome Error Store :=
  match peers s !! peerID with
  | Some p => if bool_decide (Peers.AccountID p = accountID)
              then Ok (set_peers s (<[peerID := set_login p (Some st) (Peers.LastLogin p)]> (peers s)))
              else Err (Errorf NotFound "peer not found")
  | None => Err (Errorf NotFound "peer not found")
  end.

Definition DeletePeer (s : Store) (accountID peerID : bytes) : outcome Error Store :=
  match peers s !! peerID with
  | Some p => if bool_decide (Peers.AccountID p = accountID) then Ok (set_peers s (delete peerID (peers s)))
              else Err (Errorf NotFound "peer not found")
  | None => Err (Errorf NotFound "peer not found")
  end.

(** The query looks for the quoted id in the JSON of the two resources, in the
    rules of every account; ids hold no quotes and no wildcards. *)
Definition GetPolicyRulesByResourceID (s : Store) (resourceID : bytes) : list PolicyRule :=
  List.filter (λ r, bool_decide (res_ID (pr_SourceResource r) = resourceID ∨
                                 res_ID (pr_DestinationResource r) = resourceID))
    (mjoin (po_Rules <$> (map_to_list (policies s)).*2)).

Definition NewPolicyNotFoundError := Errorf NotFound "policy not found".

Definition GetPolicyByID (s : Store) (accountID policyID : bytes) : outcome Error Policy :=
  match policies s !! policyID with
  | Some p => if bool_decide (po_AccountID p = accountID) then Ok p else Err NewPolicyNotFoundError
  | None => Err NewPolicyNotFoundError
  end.

(** The rules are part of the row; a policy of another account stays. *)
Definition DeletePolicy (s : Store) (accountID policyID : bytes) : outcome Error Store :=
  match policies s !! policyID with
  | Some p => if bool_decide (po_AccountID p = accountID) then Ok (set_policies s (delete policyID (policies s)))
              else Err NewPolicyNotFoundError
  | None => Err NewPolicyNotFoundError
  end.

Definition GetAccount (s : Store) (e : Error) (accountID : bytes) : outcome Error AccountRow :=
  match accounts s !! accountID with Some a => Ok a | None => Err e end.

Definition GetAccountSettings (s : Store) (accountID : bytes) : outcome Error AccountRow :=
  GetAccount s (Errorf NotFound "settings not found") accountID.

Definition GetAccountCreatedBy (s : Store) (accountID : bytes) : outcome Error bytes :=
  let! a := GetAccount s (Errorf NotFound "account not found") accountID in Ok (acc_CreatedBy a).

Definition GetAccountDomainAndCategory (s : Store) (accountID : bytes) : outcome Error (bytes * bytes) :=
  let! a := GetAccount s (Errorf NotFound "account not found") accountID in
  Ok (acc_Domain a, acc_DomainCategory a).

Definition IncrementNetworkSerial (s : Store) (accountID : bytes) : Store :=
  set_accounts s (alter (λ a, mkAccountRow (acc_CreatedBy a) (acc_Domain a) (acc_DomainCategory a)
                                (acc_GroupsPropagationEnabled a) (acc_RegularUsersViewBlocked a) (acc_Serial a + 1))
                        accountID (accounts s)).
