(* ===== verification/UserManager.v ===== *)
(** * The operations on users

    management/server/user.go, the account manager's operations on users, personal
    access tokens and invites, with deletePeers of management/server/peer.go, and
    the path of a personal access token through management/server/auth/manager.go
    and management/server/http/middleware/auth_middleware.go.

    An operation is a computation in [M]: it reads and writes the tables of
    [UserStore], appends to the activity log and calls the surroundings (the
    identity provider with its caches, the network map controller, the integrated
    validator), whose state is of any type; it may end with an error and still have
    changed the state.  ExecuteInTransaction undoes the changes of the tables, and
    of nothing else, when its function fails.  The time, new ids and random secrets
    of a request are its [Request] argument. *)

From Stdlib Require Import Strings.Byte Strings.String.
From S2P Require Import Prelude GoStd GoStrings Peers PolicyTypes AccessTokens Permissions UserStore.

Local Open Scope list_scope.

(** ** State and effects *)

Inductive Activity :=
| ServiceUserCreated | UserInvited | UserCreated | DashboardLogin | UserPasswordChanged | ServiceUserDeleted
| PersonalAccessTokenCreated | PersonalAccessTokenDeleted | UserBlocked | UserUnblocked | TransferredOwnerRole
| UserRoleUpdated | GroupAddedToUser | GroupRemovedFromUser | PeerLoginExpired | PolicyRemoved | PeerRemovedByUser
| UserDeleted | UserApproved | UserRejected | UserInviteLinkCreated | UserInviteLinkAccepted
| UserInviteLinkRegenerated | UserInviteLinkDeleted.

(** Who did what to whom; the time and the metadata are left out. *)
Record Event := mkEvent { ev_Initiator : bytes; ev_Target : bytes; ev_Account : bytes; ev_Activity : Activity }.

(** The state of the account manager; [W] is the state of its surroundings. *)
Record AM (W : Type) := mkAM { store : Store; events : list Event; world : W }.

Arguments mkAM {W}. Arguments store {W}. Arguments events {W}. Arguments world {W}.

Definition M (W A : Type) : Type := AM W → outcome Error A * AM W.

#[global] Instance M_ret W : MRet (M W) := λ A x am, (Ok x, am).

#[global] Instance M_bind W : MBind (M W) := λ A B k m am,
  match m am with
  | (Ok x, am) => k x am
  | (Err e, am) => (Err e, am)
  | (Panic, am) => (Panic, am)
  end.

Section Effects.
  Context {W : Type}.

Definition throw {A} (e : Error) : M W A := λ am, (Err e, am).

Definition assert_ (b : bool) (e : Error) : M W unit := λ am, (if b then Ok () else Err e, am).

(** Reading the tables, with and without a result that may be an error. *)
Definition gets {A} (f : Store → A) : M W A := λ am, (Ok (f (store am)), am).

Definition query {A} (f : Store → outcome Error A) : M W A := λ am, (f (store am), am).

Definition update_ (f : Store → Store) : M W unit := λ am, (Ok (), mkAM (f (store am)) (events am) (world am)).

Definition exec (f : Store → outcome Error Store) : M W unit := λ am,
  match f (store am) with
  | Ok s => (Ok (), mkAM s (events am) (world am))
  | Err e => (Err e, am)
  | Panic => (Panic, am)
  end.

(** A call into the surroundings. *)
Definition call {A} (f : W → outcome Error A * W) : M W A := λ am,
  let '(r, w) := f (world am) in (r, mkAM (store am) (events am) w).

Definition lift {A} (r : outcome Error A) : M W A := λ am, (r, am).

(** The error of a call as a value. *)
Definition attempt {A} (m : M W A) : M W (outcome Error A) := λ am,
  match m am with
  | (Panic, am) => (Panic, am)
  | (r, am) => (Ok r, am)
  end.

(** The error replaced by another one. *)
Definition wrap_err {A} (f : Error → Error) (m : M W A) : M W A := λ am,
  match m am with
  | (Err e, am) => (Err (f e), am)
  | r => r
  end.

(** The log is kept in the order of the calls; a goroutine saves each event, unless
    events are disabled. *)
Definition StoreEvent (initiatorID targetID accountID : bytes) (a : Activity) : M W unit := λ am,
  (Ok (), mkAM (store am) (events am ++ [mkEvent initiatorID targetID accountID a]) (world am)).

Definition store_events (l : list Event) : M W unit := λ am, (Ok (), mkAM (store am) (events am ++ l) (world am)).

Definition ExecuteInTransaction {A} (m : M W A) : M W A := λ am,
  match m am with
  | (Ok x, am') => (Ok x, am')
  | (r, am') => (r, mkAM (store am) (events am') (world am'))
  end.

Fixpoint for_each {A} (l : list A) (body : A → M W unit) : M W unit :=
  match l with
  | [] => mret ()
  | x :: l => body x ≫= λ _, for_each l body
  end.

End Effects.

(** ** The surroundings *)

Inductive IdPKind := NoIdP | ExternalIdP | EmbeddedIdP (localAuthDisabled : bool).

Class Surroundings (W : Type) := {
  idpManager : IdPKind;
  userDeleteFromIDPEnabled : bool;
  (** the identity provider *)
  idp_CreateUser : bytes → bytes → bytes → bytes → W → outcome Error UserData * W;
  idp_CreateUserWithPassword : bytes → bytes → bytes → W → outcome Error UserData * W;
  idp_GetUserByEmail : bytes → W → outcome Error (list UserData) * W;
  idp_GetUserDataByID : bytes → bytes → W → outcome Error UserData * W;
  idp_DeleteUser : bytes → W → outcome Error unit * W;
  idp_ClearAppMetadata : bytes → W → outcome Error unit * W;
  idp_InviteUserByID : bytes → W → outcome Error unit * W;
  idp_UpdateUserPassword : bytes → bytes → bytes → bytes → W → outcome Error unit * W;
  (** its caches (management/server/account.go) *)
  lookupUserInCache : bytes → bytes → W → outcome Error (option UserData) * W;
  lookupUserInCacheByEmail : bytes → bytes → W → outcome Error (option UserData) * W;
  lookupAccountUsers : list User → bytes → W → outcome Error (list UserData) * W;
  refreshCache : bytes → W → outcome Error unit * W;
  removeUserFromCache : bytes → bytes → W → outcome Error unit * W;
  (** the network map controller and the integrated validator *)
  UpdateAccountPeers : bytes → W → W;
  OnPeersUpdated : bytes → list bytes → W → outcome Error unit * W;
  OnPeersDeleted : bytes → list bytes → W → outcome Error unit * W;
  DisconnectPeers : bytes → list bytes → W → W;
  PeerDeleted : bytes → bytes → W → outcome Error unit * W;
  (** [dex.DecodeDexUserID]: the connector of an id it can decode *)
  DecodeDexUserID : bytes → option bytes
}.

(** What a request brings with it: the time, new ids, a random secret of thirty
    characters, and how the Go release pads strings. *)
Record Request := mkRequest { now : Z; newID : bytes; secret : bytes; padding : byte }.

Section Users.
  Context {W : Type} `{Surroundings W}.
  (** [strings.ToLower], [strings.EqualFold], decoding of runes and their classes,
      the overflowing powers of base62. *)
  Context (lower : bytes → bytes) (EqualFold : bytes → bytes → bool).
  Context (runes : bytes → list Z) (unicode_IsDigit unicode_IsUpper unicode_IsLetter : Z → bool).
  Context (pow_conv : nat → Z).

  Abbreviation op := (M W).

Definition IsEmbeddedIdp : bool := match idpManager with EmbeddedIdP _ => true | _ => false end.

Definition IsLocalAuthDisabled : bool := match idpManager with EmbeddedIdP d => d | _ => false end.

Definition isNil_idp : bool := match idpManager with NoIdP => true | _ => false end.

(** The permission check at the start of most operations. *)
Definition authorize (accountID userID : bytes) (module : Module_) (operation : Operation) : op unit :=
  allowed ← wrap_err NewPermissionValidationError
              (query (λ s, ValidateUserPermissions (users s) accountID userID module operation));
  assert_ allowed NewPermissionDeniedError.

Definition get_user (userID : bytes) : op User := query (λ s, GetUserByUserID (users s) userID).

(** ** Reading users *)

Definition set_IdPID (i : UserInfo) (c : bytes) : UserInfo :=
  mkInfo (ui_ID i) (ui_Email i) (ui_Name i) (ui_Role i) (ui_AutoGroups i) (ui_Status i) (ui_IsServiceUser i)
    (ui_IsBlocked i) (ui_NonDeletable i) (ui_LastLogin i) (ui_Issued i) (ui_PendingApproval i) (ui_Password i)
    (ui_Integration i) c.

Definition with_connector (userID : bytes) (i : UserInfo) : UserInfo :=
  match DecodeDexUserID userID with
  | Some c => if bool_decide (c = []) then i else set_IdPID i c
  | None => i
  end.

Definition getUserInfo (user : User) (accountID : bytes) : op UserInfo :=
  if negb isNil_idp && negb (IsServiceUser user) && negb IsEmbeddedIdp then
    userData ← call (lookupUserInCache (Id user) accountID);
    lift (ToUserInfo user userData)
  else
    userInfo ← lift (ToUserInfo user None);
    mret (if IsEmbeddedIdp && negb (IsServiceUser user) then with_connector (Id user) userInfo else userInfo).

Definition findUserInIDPUserdata (userID : bytes) (userData : list UserData) : option UserData :=
  List.find (λ d, bool_decide (ud_ID d = userID)) userData.

Definition local_info (u : User) : UserInfo :=
  mkInfo (Id u) (Email u) (if IsServiceUser u then ServiceUserName u else []) (Role u) (AutoGroups u)
    UserStatusActive (IsServiceUser u) false (NonDeletable u) time_zero [] false [] no_integration [].

Fixpoint build_infos (queriedUsers : list UserData) (accountUsers : list User) (acc : gmap bytes UserInfo) :
    outcome Error (gmap bytes UserInfo) :=
  match accountUsers with
  | [] => Ok acc
  | u :: us =>
      let found := if bool_decide (queriedUsers = []) then Some None
                   else Some <$> findUserInIDPUserdata (Id u) queriedUsers in
      let info := match found with
                  | Some d => ToUserInfo u d
                  | None => Ok (local_info u)
                  end in
      obind info (λ info, build_infos queriedUsers us (<[Id u := with_connector (Id u) info]> acc))
  end.

(** The caches answer with the users they know of the account; with no external
    identity provider nobody is asked. *)
Definition BuildUserInfosForAccount (accountID : bytes) (accountUsers : list User) : op (gmap bytes UserInfo) :=
  queriedUsers ← (if negb isNil_idp && negb IsEmbeddedIdp
                  then call (lookupAccountUsers accountUsers accountID) else mret []);
  lift (build_infos queriedUsers accountUsers ∅).

Definition GetUsersFromAccount (accountID initiatorUserID : bytes) : op (gmap bytes UserInfo) :=
  allowed ← wrap_err NewPermissionValidationError
              (query (λ s, ValidateUserPermissions (users s) accountID initiatorUserID Users Read));
  user ← (if bool_decide (initiatorUserID = SystemInitiator) then mret None
          else u ← get_user initiatorUserID; mret (Some u));
  match allowed, user with
  | true, _ =>
      accountUsers ← gets (λ s, GetAccountUsers s accountID);
      BuildUserInfosForAccount accountID accountUsers
  | false, Some u =>
      if bool_decide (AccountID u = accountID) then BuildUserInfosForAccount accountID [u] else mret ∅
  | false, None => mret ∅
  end.

Definition GetOwnerInfo (accountID : bytes) : op UserInfo :=
  owner ← query (λ s, GetAccountOwner s accountID);
  getUserInfo owner accountID.

Record UserAuth := mkUserAuth {
  ua_AccountId : bytes;
  ua_Domain : bytes;
  ua_DomainCategory : bytes;
  ua_UserId : bytes;
  ua_LastLogin : Z;
  ua_IsChild : bool;
  ua_IsPAT : bool
}.

(** A failure to save the login is only logged. *)
Definition GetUserFromUserAuth (ua : UserAuth) : op User :=
  user ← get_user (ua_UserId ua);
  _ ← attempt (exec (λ s, SaveUserLastLogin s (ua_AccountId ua) (ua_UserId ua) (ua_LastLogin ua)));
  _ ← (if LastDashboardLoginChanged user (ua_LastLogin ua)
       then StoreEvent (ua_UserId ua) (ua_UserId ua) (ua_AccountId ua) DashboardLogin else mret ());
  mret user.

Definition GetCurrentUserInfo (ua : UserAuth) : op (UserInfo * bool * option (gmap Module_ OpMap)) :=
  user ← get_user (ua_UserId ua);
  _ ← assert_ (negb (IsBlocked user)) NewUserBlockedError;
  _ ← assert_ (negb (IsServiceUser user)) NewPermissionDeniedError;
  _ ← lift (ValidateAccountAccess (ua_AccountId ua) user);
  settings ← query (λ s, GetAccountSettings s (ua_AccountId ua));
  userInfo ← getUserInfo user (ua_AccountId ua);
  mret (userInfo, negb (ua_IsChild ua) && IsRestrictable user && acc_RegularUsersViewBlocked settings,
        match GetPermissionsByRole (Role user) with Ok p => Some p | _ => None end).

(** ** Creating users *)

Definition createServiceUser (rq : Request) (accountID initiatorUserID : bytes) (role : UserRole)
    (serviceUserName : bytes) (nonDeletable : bool) (autoGroups : option (list bytes)) : op UserInfo :=
  _ ← authorize accountID initiatorUserID Users Create;
  _ ← assert_ (negb (bool_decide (role = UserRoleOwner)))
        (Errorf InvalidArgument "can't create a service user with owner role");
  let u := NewUser (now rq) (newID rq) role true nonDeletable serviceUserName autoGroups UserIssuedAPI [] [] in
  let newUser := mkUser (Id u) accountID (Role u) (IsServiceUser u) (NonDeletable u) (ServiceUserName u) (AutoGroups u)
                   (Blocked u) (PendingApproval u) (LastLogin u) (CreatedAt u) (Issued u) (Integration u) (Name u) (Email u) in
  _ ← update_ (λ s, SaveUser s newUser);
  _ ← StoreEvent initiatorUserID (Id newUser) accountID ServiceUserCreated;
  mret (mkInfo (Id newUser) [] (ServiceUserName newUser) (Role newUser) (AutoGroups newUser) UserStatusActive true
          false false time_zero UserIssuedAPI false [] no_integration []).

Definition validateUserInvite (invite : UserInfo) : outcome Error unit :=
  if bool_decide (ui_Name invite = []) then Err (Errorf InvalidArgument "name can't be empty")
  else if bool_decide (ui_Email invite = []) then Err (Errorf InvalidArgument "email can't be empty")
  else if bool_decide (StrRoleToUserRole lower (ui_Role invite) = UserRoleOwner)
  then Err (Errorf InvalidArgument "can't invite a user with owner role")
  else Ok ().

Definition userExists := Errorf UserAlreadyExists "can't invite a user with an existing NetBird account".

Definition createNewIdpUser (accountID inviterID : bytes) (invite : UserInfo) : op UserData :=
  inviter ← get_user inviterID;
  inviterUser ← wrap_err (λ _, Errorf NotFound "inviter user doesn't exist in IdP")
                  (call (lookupUserInCache inviterID (AccountID inviter)));
  match inviterUser with
  | None => throw (Errorf NotFound "inviter user is empty")
  | Some inviterUser =>
      user ← call (lookupUserInCacheByEmail (ui_Email invite) accountID);
      match user with
      | Some _ => throw userExists
      | None =>
          found ← call (idp_GetUserByEmail (ui_Email invite));
          match found with
          | _ :: _ => throw userExists
          | [] => call (idp_CreateUser (ui_Email invite) (ui_Name invite) accountID (ud_Email inviterUser))
          end
      end
  end.

Definition createEmbeddedIdpUser (accountID inviterID : bytes) (invite : UserInfo) : op UserData :=
  _ ← assert_ (negb IsLocalAuthDisabled)
        (Errorf PreconditionFailed "local user creation is disabled - use an external identity provider");
  inviter ← get_user inviterID;
  existingUsers ← gets (λ s, GetAccountUsers s accountID);
  _ ← assert_ (negb (existsb (λ u, EqualFold (Email u) (ui_Email invite)) existingUsers)) userExists;
  call (idp_CreateUser (ui_Email invite) (ui_Name invite) accountID (Email inviter)).

Definition inviteNewUser (rq : Request) (accountID userID : bytes) (invite : UserInfo) : op UserInfo :=
  _ ← assert_ (negb isNil_idp) (Errorf PreconditionFailed "IdP manager must be enabled to send user invites");
  _ ← lift (validateUserInvite invite);
  _ ← authorize accountID userID Users Create;
  initiatorUser ← get_user userID;
  inviterID ← (if IsServiceUser initiatorUser then query (λ s, GetAccountCreatedBy s accountID) else mret userID);
  idpUser ← (if IsEmbeddedIdp then createEmbeddedIdpUser accountID inviterID invite
             else createNewIdpUser accountID inviterID invite);
  let newUser := mkUser (ud_ID idpUser) accountID (StrRoleToUserRole lower (ui_Role invite)) false false []
                   (ui_AutoGroups invite) false false None (now rq) (ui_Issued invite) (ui_Integration invite)
                   (ui_Name invite) (ui_Email invite) in
  _ ← update_ (λ s, SaveUser s newUser);
  _ ← (if IsEmbeddedIdp then mret () else call (refreshCache accountID));
  _ ← StoreEvent userID (Id newUser) accountID (if IsEmbeddedIdp then UserCreated else UserInvited);
  lift (ToUserInfo newUser (Some idpUser)).

Definition CreateUser (rq : Request) (accountID userID : bytes) (user : UserInfo) : op UserInfo :=
  if ui_IsServiceUser user then
    createServiceUser rq accountID userID (StrRoleToUserRole lower (ui_Role user)) (ui_Name user) (ui_NonDeletable user)
      (ui_AutoGroups user)
  else inviteNewUser rq accountID userID user.

Definition InviteUser (accountID initiatorUserID targetUserID : bytes) : op unit :=
  _ ← assert_ (negb isNil_idp) (Errorf PreconditionFailed "IdP manager must be enabled to send user invites");
  _ ← authorize accountID initiatorUserID Users Create;
  user ← call (lookupUserInCache targetUserID accountID);
  match user with
  | None => throw (Errorf NotFound "user account doesn't exist")
  | Some d =>
      _ ← assert_ (default false (ud_WTPendingInvite d))
            (Errorf PreconditionFailed "can't invite a user with an activated NetBird account");
      _ ← call (idp_InviteUserByID (ud_ID d));
      StoreEvent initiatorUserID (ud_ID d) accountID UserInvited
  end.

Definition UpdateUserPassword (accountID currentUserID targetUserID oldPassword newPassword : bytes) : op unit :=
  _ ← assert_ IsEmbeddedIdp
        (Errorf PreconditionFailed "password change is only available with embedded identity provider");
  _ ← assert_ (negb (bool_decide (oldPassword = []))) (Errorf InvalidArgument "old password is required");
  _ ← assert_ (negb (bool_decide (newPassword = []))) (Errorf InvalidArgument "new password is required");
  _ ← wrap_err (λ _, Errorf InvalidArgument "failed to update password")
        (call (idp_UpdateUserPassword currentUserID targetUserID oldPassword newPassword));
  StoreEvent currentUserID targetUserID accountID UserPasswordChanged.

(** ** Deleting users *)

Definition deleteServiceUser (accountID initiatorUserID : bytes) (targetUser : User) : op unit :=
  _ ← update_ (λ s, DeleteUser s accountID (Id targetUser));
  StoreEvent initiatorUserID (Id targetUser) accountID ServiceUserDeleted.

Definition deleteUserFromIDP (targetUserID accountID : bytes) : op unit :=
  _ ← (if userDeleteFromIDPEnabled then call (idp_DeleteUser targetUserID)
       else call (idp_ClearAppMetadata targetUserID));
  _ ← attempt (call (removeUserFromCache accountID targetUserID));
  mret ().

(** management/server/peer.go: the policies that name the peer go with it. *)
Fixpoint delete_rule_policies (accountID userID peerID : bytes) (rules : list PolicyRule) : op (list Event) :=
  match rules with
  | [] => mret []
  | rule :: rules =>
      _ ← query (λ s, GetPolicyByID s accountID (pr_PolicyID rule));
      _ ← exec (λ s, DeletePolicy s accountID (pr_PolicyID rule));
      evs ← delete_rule_policies accountID userID peerID rules;
      mret (mkEvent userID peerID accountID PolicyRemoved :: evs)
  end.

Fixpoint deletePeers (accountID userID : bytes) (ps : list Peer) : op (list Event) :=
  match ps with
  | [] => mret []
  | peer :: ps =>
      _ ← update_ (λ s, RemovePeerFromAllGroups s (ID peer));
      peerPolicyRules ← gets (λ s, GetPolicyRulesByResourceID s (ID peer));
      evs ← delete_rule_policies accountID userID (ID peer) peerPolicyRules;
      _ ← exec (λ s, DeletePeer s accountID (ID peer));
      more ← deletePeers accountID userID ps;
      mret (evs ++ (if Embedded (Peer_ProxyMeta peer) || bool_decide (KernelVersion (Meta peer) = str "wasm")
                    then [] else [mkEvent userID (ID peer) accountID PeerRemovedByUser]) ++ more)
  end.

Definition deleteRegularUser (accountID initiatorUserID : bytes) (targetUserInfo : UserInfo) : op bool :=
  let target := ui_ID targetUserInfo in
  _ ← (if isNil_idp then mret () else
         r ← attempt (call (idp_GetUserDataByID target accountID));
         match r with
         | Ok _ => deleteUserFromIDP target accountID
         | _ => mret ()
         end);
  r ← ExecuteInTransaction (
        targetUser ← get_user target;
        _ ← query (λ s, GetAccountSettings s accountID);
        userPeers ← gets (λ s, GetUserPeers s accountID target);
        evs ← (if bool_decide (userPeers = []) then mret [] else deletePeers accountID target userPeers);
        _ ← update_ (λ s, DeleteUser s accountID target);
        mret (userPeers, evs));
  let '(userPeers, evs) := r in
  _ ← for_each userPeers (λ p, _ ← attempt (call (PeerDeleted accountID (ID p))); mret ());
  _ ← attempt (call (OnPeersDeleted accountID (ID <$> userPeers)));
  _ ← store_events evs;
  _ ← StoreEvent initiatorUserID target accountID UserDeleted;
  mret (negb (bool_decide (userPeers = []))).

(** The checks on the target that DeleteUser and DeleteRegularUsers share. *)
Definition may_delete (initiatorUser targetUser : User) : outcome Error unit :=
  if bool_decide (Role targetUser = UserRoleOwner)
  then Err (Errorf PermissionDenied "can't delete a user with the owner role")
  else if bool_decide (Issued targetUser = UserIssuedIntegration) && negb (IsServiceUser initiatorUser)
  then Err (Errorf PermissionDenied "only integration service user can delete this user")
  else Ok ().

Definition DeleteUser_op (accountID initiatorUserID targetUserID : bytes) : op unit :=
  _ ← assert_ (negb (bool_decide (initiatorUserID = targetUserID)))
        (Errorf InvalidArgument "self deletion is not allowed");
  initiatorUser ← get_user initiatorUserID;
  _ ← authorize accountID initiatorUserID Users Delete;
  targetUser ← get_user targetUserID;
  _ ← lift (may_delete initiatorUser targetUser);
  if IsServiceUser targetUser then
    _ ← assert_ (negb (NonDeletable targetUser)) (Errorf PermissionDenied "service user is marked as non-deletable");
    deleteServiceUser accountID initiatorUserID targetUser
  else
    userInfo ← getUserInfo targetUser accountID;
    _ ← deleteRegularUser accountID initiatorUserID userInfo;
    mret ().

Definition delete_one (accountID initiatorUserID : bytes) (initiatorUser : User) (userInfos : gmap bytes UserInfo)
    (targetUserID : bytes) : op unit :=
  _ ← assert_ (negb (bool_decide (initiatorUserID = targetUserID))) (Plain "self deletion is not allowed");
  targetUser ← get_user targetUserID;
  _ ← lift (may_delete initiatorUser targetUser);
  match userInfos !! targetUserID with
  | None => throw (Plain "user info not found")
  | Some userInfo => _ ← deleteRegularUser accountID initiatorUserID userInfo; mret ()
  end.

(** The loop of DeleteRegularUsers goes on after an error; [true] is success. *)
Fixpoint delete_all (accountID initiatorUserID : bytes) (initiatorUser : User) (userInfos : gmap bytes UserInfo)
    (targets : list bytes) (ok : bool) : op bool :=
  match targets with
  | [] => mret ok
  | t :: ts =>
      r ← attempt (delete_one accountID initiatorUserID initiatorUser userInfos t);
      delete_all accountID initiatorUserID initiatorUser userInfos ts (match r with Ok _ => ok | _ => false end)
  end.

Definition DeleteRegularUsers (accountID initiatorUserID : bytes) (targetUserIDs : list bytes)
    (userInfos : gmap bytes UserInfo) : op unit :=
  _ ← authorize accountID initiatorUserID Users Delete;
  initiatorUser ← get_user initiatorUserID;
  ok ← delete_all accountID initiatorUserID initiatorUser userInfos targetUserIDs true;
  assert_ ok (Plain "joined errors").

(** ** Updating users *)

Definition set_AccountID (u : User) (a : bytes) : User :=
  mkUser (Id u) a (Role u) (IsServiceUser u) (NonDeletable u) (ServiceUserName u) (AutoGroups u) (Blocked u)
    (PendingApproval u) (LastLogin u) (CreatedAt u) (Issued u) (Integration u) (Name u) (Email u).

Definition set_Role (u : User) (r : UserRole) : User :=
  mkUser (Id u) (AccountID u) r (IsServiceUser u) (NonDeletable u) (ServiceUserName u) (AutoGroups u) (Blocked u)
    (PendingApproval u) (LastLogin u) (CreatedAt u) (Issued u) (Integration u) (Name u) (Email u).

(** The old user, the update (whose account is set when it is new: both are then
    the same object), and whether it is new. *)
Definition getUserOrCreateIfNotExists (accountID : bytes) (update : User) (addIfNotExists : bool) :
    op (User * User * bool) :=
  r ← attempt (get_user (Id update));
  match r with
  | Ok existingUser =>
      _ ← assert_ (bool_decide (AccountID existingUser = accountID))
            (Errorf InvalidArgument "user account ID mismatch");
      mret (existingUser, update, false)
  | Err (Errorf NotFound _) =>
      _ ← assert_ addIfNotExists (Errorf NotFound "user to update doesn't exist");
      let update := set_AccountID update accountID in
      mret (update, update, true)
  | Err e => throw e
  | Panic => lift Panic
  end.

Fixpoint validate_groups (groupsMap : gmap bytes Group) (ids : list bytes) : outcome Error unit :=
  match ids with
  | [] => Ok ()
  | id :: ids =>
      match groupsMap !! id with
      | None => Err (Errorf InvalidArgument "provided group ID in the user update doesn't exist")
      | Some g => if IsGroupAll g then Err (Errorf InvalidArgument "can't add All group to the user")
                  else validate_groups groupsMap ids
      end
  end.

Definition validateUserUpdate (groupsMap : gmap bytes Group) (initiatorUser : option User) (oldUser update : User) :
    outcome Error unit :=
  match initiatorUser with
  | None => Ok ()
  | Some i =>
      let admin := bool_decide (Role i = UserRoleAdmin) in
      let self := HasAdminPower i && bool_decide (Id i = Id update) in
      if self && negb (eqb (Blocked oldUser) (Blocked update))
      then Err (Errorf PermissionDenied "admins can't block or unblock themselves")
      else if self && negb (bool_decide (Role update = Role i))
      then Err (Errorf PermissionDenied "admins can't change their role")
      else if admin && bool_decide (Role oldUser = UserRoleOwner) && negb (bool_decide (Role update = Role oldUser))
      then Err (Errorf PermissionDenied "only owners can remove owner role from their user")
      else if admin && bool_decide (Role oldUser = UserRoleOwner) && IsBlocked update && negb (IsBlocked oldUser)
      then Err (Errorf PermissionDenied "unable to block owner user")
      else if admin && bool_decide (Role update = UserRoleOwner) && negb (bool_decide (Role update = Role oldUser))
      then Err (Errorf PermissionDenied "only owners can add owner role to other users")
      else if IsServiceUser oldUser && bool_decide (Role update = UserRoleOwner)
      then Err (Errorf PermissionDenied "can't update a service user with owner role")
      else validate_groups groupsMap (default [] (AutoGroups update))
  end.

Definition handleOwnerRoleTransfer (initiatorUser : option User) (update : User) : op bool :=
  match initiatorUser with
  | Some i =>
      if bool_decide (Role i = UserRoleOwner) && negb (bool_decide (Id i = Id update)) &&
         bool_decide (Role update = UserRoleOwner)
      then _ ← update_ (λ s, SaveUser s (set_Role (Copy i) UserRoleAdmin)); mret true
      else mret false
  | None => mret false
  end.

Definition updated_user (oldUser update : User) : User :=
  let c := Copy oldUser in
  mkUser (Id c) (AccountID c) (Role update) (IsServiceUser c) (NonDeletable c) (ServiceUserName c) (AutoGroups update)
    (Blocked update) (PendingApproval c) (LastLogin c) (CreatedAt c) (Issued update) (Integration update)
    (if bool_decide (Name update = []) then Name c else Name update)
    (if bool_decide (Email update = []) then Email c else Email update).

(** management/server/util/util.go *)
Definition Difference (a b : list bytes) : list bytes := List.filter (λ x, negb (bool_decide (x ∈ b))) a.

Definition prepareUserUpdateEvents (accountID initiatorUserID : bytes) (oldUser newUser : User)
    (transferredOwnerRole isNewUser : bool) (removedGroupIDs addedGroupIDs : list bytes) : op (list Event) :=
  let ev t a := mkEvent initiatorUserID t accountID a in
  addedGroups ← gets (λ s, GetGroupsByIDs s accountID addedGroupIDs);
  removedGroups ← gets (λ s, GetGroupsByIDs s accountID removedGroupIDs);
  mret ((if isNewUser then [ev (Id newUser) UserCreated] else []) ++
        (if eqb (IsBlocked oldUser) (IsBlocked newUser) then []
         else [ev (Id oldUser) (if IsBlocked newUser then UserBlocked else UserUnblocked)]) ++
        (if transferredOwnerRole then [ev (Id oldUser) TransferredOwnerRole]
         else if bool_decide (Role oldUser = Role newUser) then [] else [ev (Id oldUser) UserRoleUpdated]) ++
        ((λ _, ev (Id oldUser) GroupAddedToUser) <$> addedGroups) ++
        ((λ _, ev (Id oldUser) GroupRemovedFromUser) <$> removedGroups)).

(** The peers of the user follow the change of its groups. *)
Definition propagate_groups (accountID : bytes) (userPeers : list Peer) (removedGroups addedGroups : list bytes) : op unit :=
  for_each userPeers (λ peer,
    _ ← for_each removedGroups (λ g, update_ (λ s, RemovePeerFromGroup s (ID peer) g));
    for_each addedGroups (λ g, update_ (λ s, AddPeerToGroup s accountID (ID peer) g))).

Definition reread_initiator (initiatorUserId : bytes) (initiatorUser : option User) : op (option User) :=
  if bool_decide (initiatorUserId = SystemInitiator) then mret initiatorUser else
  fresh ← get_user initiatorUserId;
  match initiatorUser with
  | None => lift Panic
  | Some i =>
      _ ← assert_ (negb (HasAdminPower i && negb (HasAdminPower fresh)))
            (Errorf PermissionDenied "initiator role was changed during request processing");
      mret (Some fresh)
  end.

Definition processUserUpdate (groupsMap : gmap bytes Group) (accountID initiatorUserId : bytes)
    (initiatorUser : option User) (update : User) (addIfNotExists : bool) (settings : AccountRow) :
    op (User * list Peer * list Event) :=
  initiatorUser ← reread_initiator initiatorUserId initiatorUser;
  r ← getUserOrCreateIfNotExists accountID update addIfNotExists;
  let '(oldUser, update, isNewUser) := r in
  _ ← lift (validateUserUpdate groupsMap initiatorUser oldUser update);
  let updatedUser := updated_user oldUser update in
  transferredOwnerRole ← handleOwnerRoleTransfer initiatorUser update;
  userPeers ← gets (λ s, GetUserPeers s (AccountID updatedUser) (Id update));
  let peersToExpire := if negb (IsBlocked oldUser) && IsBlocked update then userPeers else [] in
  let '(removedGroups, addedGroups) :=
    match AutoGroups update with
    | Some newGroups =>
        if acc_GroupsPropagationEnabled settings
        then (Difference (default [] (AutoGroups oldUser)) newGroups, Difference newGroups (default [] (AutoGroups oldUser)))
        else ([], [])
    | None => ([], [])
    end in
  _ ← propagate_groups accountID userPeers removedGroups addedGroups;
  evs ← prepareUserUpdateEvents (AccountID updatedUser) initiatorUserId oldUser updatedUser transferredOwnerRole isNewUser
          removedGroups addedGroups;
  mret (updatedUser, peersToExpire, evs).

(** A peer whose status is missing makes the code panic; peers of setup keys and
    expired peers are skipped. *)
Fixpoint expire_peers (accountID : bytes) (ps : list Peer) : op (list bytes) :=
  match ps with
  | [] => mret []
  | peer :: ps =>
      if bool_decide (UserID peer = []) then expire_peers accountID ps else
      match Status peer with
      | None => lift Panic
      | Some st =>
          if st_LoginExpired st then expire_peers accountID ps else
          let st' := mkStatus (LastSeen st) false true (RequiresApproval st) in
          _ ← exec (λ s, SavePeerStatus s accountID (ID peer) st');
          _ ← StoreEvent (UserID peer) (ID peer) accountID PeerLoginExpired;
          ids ← expire_peers accountID ps;
          mret (ID peer :: ids)
      end
  end.

Definition expireAndUpdatePeers (accountID : bytes) (ps : list Peer) : op unit :=
  _ ← query (λ s, GetAccountSettings s accountID);
  peerIDs ← expire_peers accountID ps;
  _ ← (if bool_decide (peerIDs = []) then mret () else update_ (λ s, IncrementNetworkSerial s accountID));
  _ ← call (OnPeersUpdated accountID peerIDs);
  if bool_decide (peerIDs = []) then mret ()
  else call (λ w, (Ok (), DisconnectPeers accountID peerIDs w)).

(** One transaction per update; the loop goes on after an error when there are
    several updates. *)
Definition save_one (groupsMap : gmap bytes Group) (accountID initiatorUserID : bytes) (initiatorUser : option User)
    (addIfNotExists : bool) (settings : AccountRow) (update : User) : op (User * list Peer * list Event) :=
  ExecuteInTransaction (
    r ← processUserUpdate groupsMap accountID initiatorUserID initiatorUser update addIfNotExists settings;
    _ ← update_ (λ s, SaveUser s r.1.1);
    mret r).

Fixpoint save_all (groupsMap : gmap bytes Group) (accountID initiatorUserID : bytes) (initiatorUser : option User)
    (addIfNotExists : bool) (settings : AccountRow) (single : bool) (updates : list (option User))
    (acc : list (User * list Peer * list Event)) (ok : bool) : op (list (User * list Peer * list Event) * bool) :=
  match updates with
  | [] => mret (acc, ok)
  | None :: _ => throw (Errorf InvalidArgument "provided user update is nil")
  | Some u :: us =>
      r ← attempt (save_one groupsMap accountID initiatorUserID initiatorUser addIfNotExists settings u);
      match r with
      | Ok x => save_all groupsMap accountID initiatorUserID initiatorUser addIfNotExists settings single us (acc ++ [x]) ok
      | Err e => if single then throw e
                 else save_all groupsMap accountID initiatorUserID initiatorUser addIfNotExists settings single us acc false
      | Panic => lift Panic
      end
  end.

Fixpoint collect_infos (userInfos : gmap bytes UserInfo) (us : list User) : outcome Error (list UserInfo) :=
  match us with
  | [] => Ok []
  | u :: us =>
      match userInfos !! Id u with
      | None => Err (Plain "failed to get updated user info")
      | Some i => obind (collect_infos userInfos us) (λ infos, Ok (i :: infos))
      end
  end.

(** The users that were saved, and whether no update failed. *)
Definition SaveOrAddUsers (accountID initiatorUserID : bytes) (updates : list (option User)) (addIfNotExists : bool) :
    op (list UserInfo * bool) :=
  if bool_decide (updates = []) then mret ([], true) else
  _ ← authorize accountID initiatorUserID Users Create;
  settings ← query (λ s, GetAccountSettings s accountID);
  gs ← gets (λ s, GetAccountGroups s accountID);
  let groupsMap : gmap bytes Group := list_to_map ((λ g, (g_ID g, g)) <$> gs) in
  initiatorUser ← (if bool_decide (initiatorUserID = SystemInitiator) then mret None
                   else u ← get_user initiatorUserID; mret (Some u));
  r ← save_all groupsMap accountID initiatorUserID initiatorUser addIfNotExists settings
        (bool_decide (length updates = 1%nat)) updates [] true;
  let '(saved, ok) := r in
  userInfos ← GetUsersFromAccount accountID initiatorUserID;
  infos ← lift (collect_infos userInfos ((λ x, x.1.1) <$> saved));
  _ ← store_events (mjoin ((λ x, x.2) <$> saved));
  let peersToExpire := mjoin ((λ x : User * list Peer * list Event, x.1.2) <$> saved) in
  _ ← (if negb (bool_decide (peersToExpire = [])) then expireAndUpdatePeers accountID peersToExpire
       else if bool_decide (saved = []) then mret ()
       else _ ← update_ (λ s, IncrementNetworkSerial s accountID);
            call (λ w, (Ok (), UpdateAccountPeers accountID w)));
  mret (infos, ok).

Definition SaveOrAddUser (accountID initiatorUserID : bytes) (update : User) (addIfNotExists : bool) : op UserInfo :=
  r ← SaveOrAddUsers accountID initiatorUserID [Some update] addIfNotExists;
  match r.1 with
  | [] => throw (Errorf Internal "user was not updated")
  | i :: _ => mret i
  end.

Definition SaveUser_op (accountID initiatorUserID : bytes) (update : User) : op UserInfo :=
  SaveOrAddUser accountID initiatorUserID update false.

(** ** Approving and rejecting *)

Definition approved (u : User) : User :=
  mkUser (Id u) (AccountID u) (Role u) (IsServiceUser u) (NonDeletable u) (ServiceUserName u) (AutoGroups u) false
    false (LastLogin u) (CreatedAt u) (Issued u) (Integration u) (Name u) (Email u).

Definition pending_user (accountID targetUserID : bytes) : op User :=
  user ← get_user targetUserID;
  _ ← assert_ (bool_decide (AccountID user = accountID)) NewUserNotFoundError;
  _ ← assert_ (PendingApproval user) (Errorf InvalidArgument "user is not pending approval");
  mret user.

Definition ApproveUser (accountID initiatorUserID targetUserID : bytes) : op UserInfo :=
  _ ← authorize accountID initiatorUserID Users Update;
  user ← pending_user accountID targetUserID;
  _ ← update_ (λ s, SaveUser s (approved user));
  _ ← StoreEvent initiatorUserID targetUserID accountID UserApproved;
  getUserInfo (approved user) accountID.

Definition RejectUser (accountID initiatorUserID targetUserID : bytes) : op unit :=
  _ ← authorize accountID initiatorUserID Users Delete;
  _ ← pending_user accountID targetUserID;
  _ ← DeleteUser_op accountID initiatorUserID targetUserID;
  StoreEvent initiatorUserID targetUserID accountID UserRejected.

(** ** Personal access tokens *)

(** The checks on initiator and target that the four operations share. *)
Definition pat_target (accountID initiatorUserID targetUserID : bytes) : op (User * User) :=
  initiatorUser ← get_user initiatorUserID;
  targetUser ← get_user targetUserID;
  _ ← assert_ (bool_decide (AccountID targetUser = accountID)) NewPermissionDeniedError;
  _ ← assert_ (bool_decide (initiatorUserID = targetUserID) || (HasAdminPower initiatorUser && IsServiceUser targetUser))
        (Errorf PermissionDenied "admin role required to perform this action");
  mret (initiatorUser, targetUser).

Definition day : Z := 24 * hour.

(** types/personal_access_token.go; a token lives for a number of days ([AddDate] of
    days in UTC). *)
Definition CreateNewPAT (rq : Request) (name : bytes) (expirationInDays : Z) (targetID createdBy : bytes) :
    bytes * PersonalAccessToken :=
  let '(hashedToken, plainToken) := generateNewToken (padding rq) (secret rq) in
  (plainToken, mkPAT (newID rq) targetID name hashedToken (Some (now rq + expirationInDays * day)) createdBy (now rq) None).

Definition CreatePAT (rq : Request) (accountID initiatorUserID targetUserID tokenName : bytes) (expiresIn : Z) :
    op (bytes * PersonalAccessToken) :=
  _ ← assert_ (negb (bool_decide (tokenName = []))) (Errorf InvalidArgument "token name can't be empty");
  _ ← assert_ (negb ((expiresIn <? 1) || (365 <? expiresIn)))
        (Errorf InvalidArgument "expiration has to be between 1 and 365");
  _ ← authorize accountID initiatorUserID Pats Create;
  r ← pat_target accountID initiatorUserID targetUserID;
  let pat := CreateNewPAT rq tokenName expiresIn targetUserID (Id r.1) in
  _ ← update_ (λ s, SavePAT s pat.2);
  _ ← StoreEvent initiatorUserID targetUserID accountID PersonalAccessTokenCreated;
  mret pat.

Definition DeletePAT_op (accountID initiatorUserID targetUserID tokenID : bytes) : op unit :=
  _ ← authorize accountID initiatorUserID Pats Delete;
  _ ← pat_target accountID initiatorUserID targetUserID;
  _ ← query (λ s, GetPATByID s targetUserID tokenID);
  _ ← exec (λ s, DeletePAT s targetUserID tokenID);
  StoreEvent initiatorUserID targetUserID accountID PersonalAccessTokenDeleted.

Definition GetPAT (accountID initiatorUserID targetUserID tokenID : bytes) : op PersonalAccessToken :=
  _ ← authorize accountID initiatorUserID Pats Read;
  _ ← pat_target accountID initiatorUserID targetUserID;
  query (λ s, GetPATByID s targetUserID tokenID).

Definition GetAllPATs (accountID initiatorUserID targetUserID : bytes) : op (list PersonalAccessToken) :=
  _ ← authorize accountID initiatorUserID Pats Read;
  _ ← pat_target accountID initiatorUserID targetUserID;
  gets (λ s, GetUserPATs s targetUserID).

(** management/server/auth/manager.go *)
Definition extractPATFromToken (token : bytes) : op (User * PersonalAccessToken) :=
  hashedToken ← lift (omap_err (λ _, Plain "PAT is malformed") (check_pat pow_conv token));
  pat ← query (λ s, GetPATByHashedToken s hashedToken);
  user ← query (λ s, GetUserByPATID s (pat_ID pat));
  mret (user, pat).

Definition GetPATInfo (token : bytes) : op (User * PersonalAccessToken * (bytes * bytes)) :=
  r ← extractPATFromToken token;
  d ← query (λ s, GetAccountDomainAndCategory s (AccountID r.1));
  mret (r.1, r.2, d).

(** http/middleware/auth_middleware.go, after the rate limit: [child] is
    [integrations.IsValidChildAccount], [impersonate] the values of the query
    parameter [account]. *)
Definition checkPATFromRequest (rq : Request) (child : bytes → bytes → bytes → bool) (impersonate : list bytes)
    (authHeaderParts : list bytes) : op UserAuth :=
  match authHeaderParts with
  | [kind; token] =>
      _ ← assert_ (bool_decide (lower kind = str "token")) (Plain "authorization header format must be Token {token}");
      r ← GetPATInfo token;
      let '(user, pat, (accDomain, accCategory)) := r in
      _ ← assert_ (negb (GetExpirationDate pat <? now rq)) (Plain "token expired");
      _ ← exec (λ s, MarkPATUsed (now rq) s (pat_ID pat));
      let ua := mkUserAuth (AccountID user) accDomain accCategory (Id user) time_zero false true in
      mret (match impersonate with
            | [a] => if child (Id user) (AccountID user) a
                     then mkUserAuth a accDomain accCategory (Id user) time_zero true true else ua
            | _ => ua
            end)
  | _ => throw (Plain "authorization header format must be Token {token}")
  end.

(** ** Invites *)

Definition DefaultInviteExpirationSeconds : Z := 259200.

Definition MinInviteExpirationSeconds : Z := 3600.

(** The expiration, with the 64-bit arithmetic of durations. *)
Definition invite_expiration (nw expiresIn : Z) : outcome Error Z :=
  let expiresIn := if expiresIn <=? 0 then DefaultInviteExpirationSeconds else expiresIn in
  if expiresIn <? MinInviteExpirationSeconds
  then Err (Errorf InvalidArgument "invite expiration must be at least 1 hour")
  else Ok (nw + i64 (expiresIn * second)).

Definition onlyEmbedded := Errorf PreconditionFailed "invite links are only available with embedded identity provider".

Definition localDisabled :=
  Errorf PreconditionFailed "local user creation is disabled - use an external identity provider".

Definition invite_info (i : UserInviteRecord) : UserInfo :=
  mkInfo (inv_ID i) (inv_Email i) (inv_Name i) (inv_Role i) (inv_AutoGroups i) UserStatusInvited false false false time_zero
    UserIssuedAPI false [] no_integration [].

(** The information on the invite, the plain token and the expiration. *)
Definition CreateUserInvite (rq : Request) (accountID initiatorUserID : bytes) (invite : UserInfo) (expiresIn : Z) :
    op (UserInfo * bytes * Z) :=
  _ ← assert_ IsEmbeddedIdp onlyEmbedded;
  _ ← assert_ (negb IsLocalAuthDisabled) localDisabled;
  _ ← lift (validateUserInvite invite);
  _ ← authorize accountID initiatorUserID Users Create;
  existingUsers ← gets (λ s, GetAccountUsers s accountID);
  _ ← assert_ (negb (existsb (λ u, EqualFold (Email u) (ui_Email invite)) existingUsers))
        (Errorf UserAlreadyExists "user with this email already exists");
  existingInvite ← gets (λ s, GetUserInviteByEmail EqualFold s accountID (ui_Email invite));
  _ ← assert_ (match existingInvite with Ok _ => false | _ => true end)
        (Errorf AlreadyExists "invite already exists for this email");
  expiresAt ← lift (invite_expiration (now rq) expiresIn);
  let '(hashedToken, plainToken) := GenerateInviteToken (secret rq) in
  let userInvite := mkInvite (newID rq) accountID (ui_Email invite) (ui_Name invite) (ui_Role invite)
                      (ui_AutoGroups invite) hashedToken expiresAt (now rq) initiatorUserID in
  _ ← update_ (λ s, SaveUserInvite s userInvite);
  _ ← StoreEvent initiatorUserID (newID rq) accountID UserInviteLinkCreated;
  mret (invite_info userInvite, plainToken, expiresAt).

Definition find_invite (token : bytes) : op UserInviteRecord :=
  _ ← lift (omap_err (λ _, Errorf InvalidArgument "invalid invite token") (ValidateInviteToken pow_conv token));
  query (λ s, GetUserInviteByHashedToken s (HashInviteToken token)).

(** E-mail, name, expiration, validity and the name of the inviter. *)
Definition GetUserInviteInfo (rq : Request) (token : bytes) : op (bytes * bytes * Z * bool * bytes) :=
  invite ← find_invite token;
  invitedBy ← gets (λ s, if bool_decide (inv_CreatedBy invite = []) then []
                         else match users s !! inv_CreatedBy invite with Some u => Name u | None => [] end);
  mret (inv_Email invite, inv_Name invite, inv_ExpiresAt invite, negb (IsExpired (now rq) invite), invitedBy).

Definition ListUserInvites (accountID initiatorUserID : bytes) : op (list UserInviteRecord) :=
  _ ← assert_ IsEmbeddedIdp onlyEmbedded;
  _ ← authorize accountID initiatorUserID Users Read;
  gets (λ s, GetAccountUserInvites s accountID).

Definition minPasswordLength : nat := 8.

Definition validatePassword (password : bytes) : bool :=
  let rs := runes password in
  let hasDigit := existsb unicode_IsDigit rs in
  let hasUpper := existsb (λ c, negb (unicode_IsDigit c) && unicode_IsUpper c) rs in
  let hasSpecial := existsb (λ c, negb (unicode_IsDigit c) && negb (unicode_IsUpper c) &&
                                  (negb (unicode_IsLetter c) && negb (unicode_IsDigit c))) rs in
  bool_decide (minPasswordLength ≤ length password)%nat && hasDigit && hasUpper && hasSpecial.

(** When the transaction fails the user is removed from the identity provider
    again; in the model the transaction cannot fail. *)
Definition AcceptUserInvite (rq : Request) (token password : bytes) : op unit :=
  _ ← assert_ IsEmbeddedIdp onlyEmbedded;
  _ ← assert_ (negb IsLocalAuthDisabled) localDisabled;
  _ ← assert_ (negb (bool_decide (password = []))) (Errorf InvalidArgument "password is required");
  _ ← assert_ (validatePassword password) (Errorf InvalidArgument "invalid password");
  invite ← find_invite token;
  _ ← assert_ (negb (IsExpired (now rq) invite)) (Errorf InvalidArgument "invite has expired");
  idpUser ← call (idp_CreateUserWithPassword (inv_Email invite) password (inv_Name invite));
  let newUser := mkUser (ud_ID idpUser) (inv_AccountID invite) (StrRoleToUserRole lower (inv_Role invite)) false false []
                   (inv_AutoGroups invite) false false None (now rq) UserIssuedAPI no_integration
                   (inv_Name invite) (inv_Email invite) in
  r ← attempt (ExecuteInTransaction (
        _ ← update_ (λ s, SaveUser s newUser);
        update_ (λ s, DeleteUserInvite s (inv_ID invite))));
  match r with
  | Ok _ => StoreEvent (Id newUser) (Id newUser) (inv_AccountID invite) UserInviteLinkAccepted
  | Err e => _ ← attempt (call (idp_DeleteUser (ud_ID idpUser))); throw e
  | Panic => lift Panic
  end.

Definition renew_invite (i : UserInviteRecord) (hashed : bytes) (expiresAt : Z) (createdBy : bytes) : UserInviteRecord :=
  mkInvite (inv_ID i) (inv_AccountID i) (inv_Email i) (inv_Name i) (inv_Role i) (inv_AutoGroups i) hashed expiresAt
    (inv_CreatedAt i) createdBy.

Definition RegenerateUserInvite (rq : Request) (accountID initiatorUserID inviteID : bytes) (expiresIn : Z) :
    op (UserInfo * bytes * Z) :=
  _ ← assert_ IsEmbeddedIdp onlyEmbedded;
  _ ← authorize accountID initiatorUserID Users Update;
  existingInvite ← query (λ s, GetUserInviteByID s accountID inviteID);
  expiresAt ← lift (invite_expiration (now rq) expiresIn);
  let '(hashedToken, plainToken) := GenerateInviteToken (secret rq) in
  let invite := renew_invite existingInvite hashedToken expiresAt initiatorUserID in
  _ ← update_ (λ s, SaveUserInvite s invite);
  _ ← StoreEvent initiatorUserID (inv_ID invite) accountID UserInviteLinkRegenerated;
  mret (invite_info invite, plainToken, expiresAt).

Definition DeleteUserInvite_op (accountID initiatorUserID inviteID : bytes) : op unit :=
  _ ← assert_ IsEmbeddedIdp onlyEmbedded;
  _ ← authorize accountID initiatorUserID Users Delete;
  invite ← query (λ s, GetUserInviteByID s accountID inviteID);
  _ ← update_ (λ s, DeleteUserInvite s inviteID);
  StoreEvent initiatorUserID inviteID accountID UserInviteLinkDeleted.

End Users.

(** ** Reasoning about operations *)

(** An operation leaves a part of the tables alone. *)
Definition keeps {W A B} (f : Store → B) (m : M W A) : Prop := ∀ am, f (store (m am).2) = f (store am).

Create HintDb keeps discriminated.

Section Keeps.
  Context {W B : Type} (f : Store → B).

Lemma keeps_ret {A} (x : A) : keeps f (mret x : M W A).
Proof. done. Qed.

Lemma keeps_bind {A C} (m : M W A) (k : A → M W C) : keeps f m → (∀ x, keeps f (k x)) → keeps f (m ≫= k).
Proof.
  intros Hm Hk am. unfold mbind, M_bind. specialize (Hm am). destruct (m am) as [[x|e|] am']; simpl in *;
    [rewrite (Hk x am')|..]; done.
Qed.

Lemma keeps_throw {A} e : keeps f (throw e : M W A).
Proof. done. Qed.

Lemma keeps_assert b e : keeps f (assert_ b e : M W unit).
Proof. done. Qed.

Lemma keeps_gets {A} (g : Store → A) : keeps f (gets g : M W A).
Proof. done. Qed.

Lemma keeps_query {A} (g : Store → outcome Error A) : keeps f (query g : M W A).
Proof. done. Qed.

Lemma keeps_lift {A} r : keeps f (lift r : M W A).
Proof. done. Qed.

Lemma keeps_call {A} (g : W → outcome Error A * W) : keeps f (call g).
Proof. intros am. unfold call. destruct (g (world am)); done. Qed.

Lemma keeps_update g : (∀ s, f (g s) = f s) → keeps f (update_ g : M W unit).
Proof. intros Hg am. apply Hg. Qed.

Lemma keeps_exec g : (∀ s s', g s = Ok s' → f s' = f s) → keeps f (exec g : M W unit).
Proof. intros Hg am. unfold exec. destruct (g (store am)) eqn:E; simpl; [by apply Hg|done..]. Qed.

Lemma keeps_attempt {A} (m : M W A) : keeps f m → keeps f (attempt m).
Proof. intros Hm am. unfold attempt. specialize (Hm am). destruct (m am) as [[]]; done. Qed.

Lemma keeps_wrap {A} g (m : M W A) : keeps f m → keeps f (wrap_err g m).
Proof. intros Hm am. unfold wrap_err. specialize (Hm am). destruct (m am) as [[]]; done. Qed.

Lemma keeps_event i t a x : keeps f (StoreEvent i t a x : M W unit).
Proof. done. Qed.

Lemma keeps_events l : keeps f (store_events l : M W unit).
Proof. done. Qed.

Lemma keeps_transaction {A} (m : M W A) : keeps f m → keeps f (ExecuteInTransaction m).
Proof. intros Hm am. unfold ExecuteInTransaction. specialize (Hm am). destruct (m am) as [[]]; done. Qed.

Lemma keeps_for_each {A} (l : list A) body : (∀ x, keeps f (body x)) → keeps f (for_each l body : M W unit).
Proof. intros Hb. induction l as [|x l IH]; simpl; [done|]. by apply keeps_bind. Qed.

End Keeps.

#[export] Hint Resolve keeps_ret keeps_bind keeps_throw keeps_assert keeps_gets keeps_query keeps_lift keeps_call
  keeps_attempt keeps_wrap keeps_event keeps_events keeps_transaction keeps_for_each : keeps.

(** Walk through an operation; tests and tables are opened case by case. *)
Ltac keeps_tac :=
  repeat first
    [ progress intros
    | apply keeps_bind | apply keeps_transaction | apply keeps_attempt | apply keeps_wrap | apply keeps_for_each
    | solve [eauto with keeps]
    | apply keeps_update; done
    | match goal with |- keeps _ (if ?b then _ else _) => destruct b end
    | match goal with |- keeps _ (match ?x with _ => _ end) => destruct x end
    | match goal with |- keeps _ (let '_ := ?x in _) => destruct x end ].
