(* ===== verification/UserSafety.v ===== *)
(** * Who may change users, and the owner of an account

    The operations of [UserManager] against an abstract description of the changes
    the table of users may see: [role_change].  A call of the management API changes
    users only when its initiator is an unblocked owner or administrator of the
    account, changes users of that account only, and every change is one that the
    description allows; hence an account keeps exactly one owner whatever calls are
    made. *)

From Stdlib Require Import Strings.Byte Strings.String.
From S2P Require Import Prelude GoStd GoStrings Peers PolicyTypes AccessTokens Permissions UserStore UserManager.

Local Open Scope list_scope.

(** ** The abstract description *)

Definition same_identity (old new : User) : Prop :=
  Id new = Id old ∧ AccountID new = AccountID old ∧ IsServiceUser new = IsServiceUser old.

Definition owner (u : User) : Prop := Role u = UserRoleOwner.

(** The changes within an account: a user who is no owner comes or goes; a user
    changes and stays what it was as to ownership, and only another owner blocks an
    owner; an owner takes the ownership of another user away, or gives up its own in
    favour of another user. *)
Inductive role_change (acc : bytes) (s : UserTable) : UserTable → Prop :=
| rc_add id u : s !! id = None → Id u = id → AccountID u = acc → ¬ owner u → role_change acc s (<[id := u]> s)
| rc_delete id u : s !! id = Some u → AccountID u = acc → ¬ owner u → role_change acc s (delete id s)
| rc_update id old new : s !! id = Some old → AccountID old = acc → same_identity old new →
    (owner old ↔ owner new) →
    (owner old → Blocked new = true → Blocked old = true ∨
       ∃ i io, s !! i = Some io ∧ AccountID io = acc ∧ owner io ∧ i ≠ id) →
    role_change acc s (<[id := new]> s)
| rc_demote i io id old new : s !! i = Some io → AccountID io = acc → owner io → i ≠ id →
    s !! id = Some old → AccountID old = acc → same_identity old new → owner old → ¬ owner new →
    role_change acc s (<[id := new]> s)
| rc_transfer i io io' id old new : s !! i = Some io → AccountID io = acc → owner io → i ≠ id →
    same_identity io io' → ¬ owner io' →
    s !! id = Some old → AccountID old = acc → same_identity old new → owner new → IsServiceUser old = false →
    role_change acc s (<[id := new]> (<[i := io']> s)).

(** The rows are keyed by the ids of the users. *)
Definition keyed (s : UserTable) : Prop := ∀ id u, s !! id = Some u → Id u = id.

Definition one_owner (acc : bytes) (s : UserTable) : Prop :=
  ∃ id, (∃ u, s !! id = Some u ∧ AccountID u = acc ∧ owner u) ∧
        ∀ id' u', s !! id' = Some u' → AccountID u' = acc → owner u' → id' = id.

(** Only users of the account are touched. *)
Definition within (acc : bytes) (s s' : UserTable) : Prop :=
  ∀ id, s !! id ≠ s' !! id →
    (∀ u, s !! id = Some u → AccountID u = acc) ∧ (∀ u, s' !! id = Some u → AccountID u = acc).

Abbreviation changes acc := (rtc (role_change acc)).

Lemma keyed_insert s id u : keyed s → Id u = id → keyed (<[id := u]> s).
Proof. intros Hk Hid k v [[<- <-]|[_ ?]]%lookup_insert_Some; eauto. Qed.

Lemma keyed_delete s id : keyed s → keyed (delete id s).
Proof. intros Hk k v [_ ?]%lookup_delete_Some; eauto. Qed.

Lemma role_change_keyed acc s s' : role_change acc s s' → keyed s → keyed s'.
Proof.
  intros Hc Hk. destruct Hc as [ | | id old new Ho ? (E & _) | i io id old new ? ? ? ? Ho ? (E & _)
    | i io io' id old new Hi ? ? ? (Ei & _) ? Ho ? (E & _)];
    repeat first [apply keyed_insert | apply keyed_delete]; try done.
  - rewrite E. eauto.
  - rewrite E. eauto.
  - rewrite Ei. eauto.
  - rewrite E. eauto.
Qed.

Lemma within_refl acc s : within acc s s.
Proof. by intros id. Qed.

Lemma within_trans acc s1 s2 s3 : within acc s1 s2 → within acc s2 s3 → within acc s1 s3.
Proof.
  intros H1 H2 id Hne. destruct (decide (s1 !! id = s2 !! id)) as [E|Hn1].
  - destruct (H2 id) as [Ha Hb]; [congruence|]. rewrite E. done.
  - destruct (H1 id Hn1) as [Ha Hb]. split; [done|].
    destruct (decide (s2 !! id = s3 !! id)) as [E|Hn2]; [by rewrite <- E|by apply H2].
Qed.

Lemma within_insert acc s id u : (∀ old, s !! id = Some old → AccountID old = acc) → AccountID u = acc →
  within acc s (<[id := u]> s).
Proof.
  intros Ho Hu k Hne. destruct (decide (k = id)) as [->|Hk]; [|by rewrite lookup_insert_ne in Hne].
  split; [done|]. intros v. rewrite lookup_insert_eq. by intros [= <-].
Qed.

Lemma within_delete acc s id u : s !! id = Some u → AccountID u = acc → within acc s (delete id s).
Proof.
  intros Hs Hu k Hne. destruct (decide (k = id)) as [->|Hk]; [|by rewrite lookup_delete_ne in Hne].
  rewrite lookup_delete_eq. naive_solver.
Qed.

Lemma role_change_within acc s s' : role_change acc s s' → within acc s s'.
Proof.
  intros Hc. destruct Hc as [ | | id old new Ho ? (_ & E & _) | i io id old new ? ? ? ? Ho ? (_ & E & _)
    | i io io' id old new Hi ? ? Hne (_ & Ei & _) ? Ho ? (_ & E & _)];
    eauto using within_delete.
  1-3: apply within_insert; [congruence|]. 1: done. 1-2: by rewrite E.
  apply within_trans with (<[i:=io']> s); apply within_insert; [congruence|by rewrite Ei| |by rewrite E].
  rewrite lookup_insert_ne by done. congruence.
Qed.

(** Exactly one owner stays exactly one owner. *)
Lemma role_change_one_owner acc acc' s s' : role_change acc s s' → one_owner acc' s → one_owner acc' s'.
Proof.
  intros Hc (o & (u & Hu & Hacc & Ho) & Huniq).
  destruct Hc as [id v ???? | id v ??? | id old new ? ? (?&?&?) Hiff _
    | i io id old new ? ? Hio ? ? ? (?&?&?) ? ? | i io io' id old new ? ? Hio ? (?&?&?) ? ? ? (?&?&?) ? ?];
    unfold one_owner, owner in *.
  - exists o. split; [exists u; rewrite lookup_insert_ne; naive_solver|].
    intros id' u'. rewrite lookup_insert_Some. naive_solver.
  - exists o. split; [exists u; rewrite lookup_delete_ne; naive_solver|].
    intros id' u'. rewrite lookup_delete_Some. naive_solver.
  - exists o. split; [destruct (decide (id = o)); subst|].
    + exists new. rewrite lookup_insert_eq. naive_solver.
    + exists u. by rewrite lookup_insert_ne.
    + intros id' u' [[<- <-]|[_ ?]]%lookup_insert_Some ? ?; [|eauto].
      apply (Huniq id old); [done|congruence|by apply Hiff].
  - exists o. destruct (decide (acc' = acc)) as [->|Hne].
    + assert (i = o) by eauto. assert (id = o) by eauto. congruence.
    + split; [exists u; rewrite lookup_insert_ne; naive_solver|].
      intros id' u'. rewrite lookup_insert_Some. naive_solver.
  - destruct (decide (acc' = acc)) as [->|Hne].
    + assert (i = o) as -> by eauto. exists id.
      split; [exists new; rewrite lookup_insert_eq; split_and!; congruence|].
      intros id' u' [[<- <-]|[_ [[<- <-]|[? ?]]%lookup_insert_Some]]%lookup_insert_Some ? ?; [done..|].
      assert (id' = o) by eauto. congruence.
    + exists o. split.
      * exists u. rewrite !lookup_insert_ne by congruence. done.
      * intros id' u' [[<- <-]|[_ [[<- <-]|[? ?]]%lookup_insert_Some]]%lookup_insert_Some ? ?; [congruence..|eauto].
Qed.

Lemma changes_facts acc s s' : changes acc s s' →
  (keyed s → keyed s') ∧ within acc s s' ∧ (∀ acc', one_owner acc' s → one_owner acc' s').
Proof.
  induction 1 as [s|s1 s2 s3 Hc _ (IH1 & IH2 & IH3)]; [split_and!; eauto using within_refl|].
  split_and!.
  - eauto using role_change_keyed.
  - eauto using within_trans, role_change_within.
  - eauto using role_change_one_owner.
Qed.

(** ** Inverting and following operations *)

Section Inversion.
  Context {W : Type}.

Lemma bind_Ok {A B} (m : M W A) (k : A → M W B) am y am2 :
  (m ≫= k) am = (Ok y, am2) → ∃ x am1, m am = (Ok x, am1) ∧ k x am1 = (Ok y, am2).
Proof. unfold mbind, M_bind. destruct (m am) as [[x|e|] am1]; [eauto|done..]. Qed.

Lemma query_Ok {A} (f : Store → outcome Error A) (am am' : AM W) x :
  query f am = (Ok x, am') → f (store am) = Ok x ∧ am' = am.
Proof. unfold query. intros [= ? ?]. done. Qed.

Lemma gets_Ok {A} (f : Store → A) (am am' : AM W) x : gets f am = (Ok x, am') → x = f (store am) ∧ am' = am.
Proof. unfold gets. intros [= ? ?]. done. Qed.

Lemma assert_Ok b e (am am' : AM W) x : assert_ b e am = (Ok x, am') → b = true ∧ am' = am.
Proof. unfold assert_. destruct b; [|done]. by intros [= ? ?]. Qed.

Lemma lift_Ok {A} (r : outcome Error A) (am am' : AM W) x : lift r am = (Ok x, am') → r = Ok x ∧ am' = am.
Proof. unfold lift. intros [= ? ?]. done. Qed.

Lemma wrap_Ok {A} g (m : M W A) am x am' : wrap_err g m am = (Ok x, am') → m am = (Ok x, am').
Proof. unfold wrap_err. by destruct (m am) as [[]]. Qed.

Lemma keeps_eq {A B} (f : Store → B) (m : M W A) am r am' : m am = (r, am') → keeps f m → f (store am') = f (store am).
Proof. intros E Hk. specialize (Hk am). by rewrite E in Hk. Qed.

(** The rows of users after a step that leaves them alone, then the rest. *)
Lemma follow_bind {A B : Type} (Q : UserTable → Prop) (m : M W A) (k : A → M W B) am :
  keeps users m → Q (users (store am)) →
  (∀ x am', m am = (Ok x, am') → users (store am') = users (store am) → Q (users (store (k x am').2))) →
  Q (users (store ((m ≫= k) am).2)).
Proof.
  intros Hm HQ Hk. unfold mbind, M_bind. specialize (Hm am). destruct (m am) as [[x|e|] am']; simpl in *;
    [by apply Hk|by rewrite Hm..].
Qed.

(** A step that changes users, followed by one that does not. *)
Lemma follow_last {A B : Type} (Q : UserTable → Prop) (m : M W A) (k : A → M W B) am :
  (∀ x, keeps users (k x)) → Q (users (store (m am).2)) → Q (users (store ((m ≫= k) am).2)).
Proof.
  intros Hk HQ. unfold mbind, M_bind. destruct (m am) as [[x|e|] am']; simpl in *; [by rewrite (Hk x)|done..].
Qed.

Lemma follow_attempt {A : Type} (Q : UserTable → Prop) (m : M W A) am :
  Q (users (store (m am).2)) → Q (users (store (attempt m am).2)).
Proof. unfold attempt. by destruct (m am) as [[]]. Qed.

Lemma follow_transaction {A : Type} (Q : UserTable → Prop) (m : M W A) am :
  Q (users (store am)) → (∀ x am', m am = (Ok x, am') → Q (users (store am'))) →
  Q (users (store (ExecuteInTransaction m am).2)).
Proof. intros HQ Hm. unfold ExecuteInTransaction. destruct (m am) as [[x|e|] am']; simpl; eauto. Qed.

End Inversion.

Ltac inv_M :=
  repeat match goal with
  | H : (_ ≫= _) _ = (Ok _, _) |- _ =>
      let x := fresh "x" in let a := fresh "am" in let H1 := fresh "E" in
      apply bind_Ok in H as (x & a & H1 & H)
  | H : mret _ _ = (Ok _, _) |- _ => injection H as ? ?; subst
  | H : throw _ _ = (Ok _, _) |- _ => discriminate H
  | H : query _ _ = (Ok _, _) |- _ => apply query_Ok in H as [H ?]; subst
  | H : gets _ _ = (Ok _, _) |- _ => apply gets_Ok in H as [? ?]; subst
  | H : assert_ _ _ _ = (Ok _, _) |- _ => apply assert_Ok in H as [H ?]; subst
  | H : lift _ _ = (Ok _, _) |- _ => apply lift_Ok in H as [H ?]; subst
  | H : wrap_err _ _ _ = (Ok _, _) |- _ => apply wrap_Ok in H
  end.

Section Safety.
  Context {W : Type} `{Surroundings W}.
  Context (lower : bytes → bytes) (EqualFold : bytes → bytes → bool).
  Context (runes : bytes → list Z) (unicode_IsDigit unicode_IsUpper unicode_IsLetter : Z → bool).
  Context (pow_conv : nat → Z).

(** An unblocked owner or administrator of the account. *)
Definition administers (s : UserTable) (acc i : bytes) : Prop :=
  ∃ u, s !! i = Some u ∧ Blocked u = false ∧ AccountID u = acc ∧ HasAdminPower u = true.

Lemma may_users_administers s acc i op : op ≠ Read → may s acc i Users op → administers s acc i.
Proof.
  intros Hop (u & Hu & Hb & Ha & Hr). exists u. split_and!; try done.
  destruct Hr as [Hr|[? _]]; [|done]. unfold HasAdminPower. inversion Hr; subst.
  - rewrite (bool_decide_true (_ = UserRoleOwner)) by congruence. apply orb_true_r.
  - rewrite (bool_decide_true (_ = UserRoleAdmin)) by congruence. done.
  - done.
  - match goal with Hm : Users ∈ network_modules |- _ => exfalso; revert Hm; apply (bool_decide_unpack _); vm_compute; exact I end.
  - done.
Qed.

Lemma authorize_Ok acc i m op (am am' : AM W) x : i ≠ SystemInitiator →
  authorize acc i m op am = (Ok x, am') → may (users (store am)) acc i m op ∧ am' = am.
Proof.
  intros Hi Hz. unfold authorize in Hz. inv_M. split; [|done].
  apply ValidateUserPermissions_granted in E. by destruct E.
Qed.

Lemma get_user_Ok id (am am' : AM W) u :
  get_user id am = (Ok u, am') → users (store am) !! id = Some u ∧ am' = am.
Proof.
  unfold get_user, GetUserByUserID. intros Hz. inv_M. by destruct (_ !! id); simplify_eq.
Qed.

Lemma keeps_authorize {B : Type} (f : Store → B) acc i m op : keeps f (authorize acc i m op : M W unit).
Proof. unfold authorize. keeps_tac. Qed.

Lemma keeps_get_user {B : Type} (f : Store → B) id : keeps f (get_user id : M W User).
Proof. apply keeps_query. Qed.

#[local] Hint Resolve keeps_authorize keeps_get_user : keeps.

Lemma keeps_getUserInfo {B : Type} (f : Store → B) u acc : keeps f (getUserInfo u acc : M W UserInfo).
Proof. unfold getUserInfo. keeps_tac. Qed.

Lemma keeps_GetUsersFromAccount {B : Type} (f : Store → B) acc i : keeps f (GetUsersFromAccount acc i : M W _).
Proof. unfold GetUsersFromAccount, BuildUserInfosForAccount. keeps_tac. Qed.

#[local] Hint Resolve keeps_getUserInfo keeps_GetUsersFromAccount : keeps.

(** ** Updates *)

Definition transfers (i update : User) : bool :=
  bool_decide (Role i = UserRoleOwner) && negb (bool_decide (Id i = Id update)) &&
  bool_decide (Role update = UserRoleOwner).

(** The users after the transaction of one update, before the updated user is
    saved. *)
Definition after_transfer (s : UserTable) (i update : User) : UserTable :=
  if transfers i update then <[Id i := Copy (set_Role (Copy i) UserRoleAdmin)]> s else s.

Lemma keeps_propagate acc ps r a : keeps users (propagate_groups acc ps r a : M W unit).
Proof. unfold propagate_groups. keeps_tac. Qed.

Lemma keeps_prepare {B : Type} (f : Store → B) acc i o n t b r a : keeps f (prepareUserUpdateEvents acc i o n t b r a : M W _).
Proof. unfold prepareUserUpdateEvents. keeps_tac. Qed.

Lemma keeps_reread {B : Type} (f : Store → B) id i0 : keeps f (reread_initiator id i0 : M W _).
Proof. unfold reread_initiator. keeps_tac. Qed.

Lemma keeps_getOrCreate {B : Type} (f : Store → B) acc u b : keeps f (getUserOrCreateIfNotExists acc u b : M W _).
Proof. unfold getUserOrCreateIfNotExists. keeps_tac. Qed.

#[local] Hint Resolve keeps_propagate keeps_prepare keeps_reread keeps_getOrCreate : keeps.

Lemma reread_Ok id i0 (am am' : AM W) r : id ≠ SystemInitiator → HasAdminPower i0 = true →
  reread_initiator id (Some i0) am = (Ok r, am') →
  ∃ fresh, r = Some fresh ∧ users (store am) !! id = Some fresh ∧ HasAdminPower fresh = true ∧ am' = am.
Proof.
  intros Hid Hi Hr. unfold reread_initiator in Hr. rewrite bool_decide_false in Hr by done. inv_M.
  apply get_user_Ok in E as [E ->]. rewrite Hi in E0. simpl in E0. bool_facts. eauto 10.
Qed.

Lemma getOrCreate_Ok acc u (am am' : AM W) r : getUserOrCreateIfNotExists acc u false am = (Ok r, am') →
  ∃ old, r = (old, u, false) ∧ users (store am) !! Id u = Some old ∧ AccountID old = acc ∧ am' = am.
Proof.
  unfold getUserOrCreateIfNotExists. intros Hz. apply bind_Ok in Hz as (x & am1 & E & Hz).
  unfold attempt, get_user, query, GetUserByUserID in E.
  destruct (users (store am) !! Id u) as [old|]; simplify_eq; simpl in Hz; inv_M.
  bool_facts. eauto 10.
Qed.

Lemma handleOwnerRoleTransfer_Ok i u (am am' : AM W) b :
  handleOwnerRoleTransfer (Some i) u am = (Ok b, am') →
  users (store am') = after_transfer (users (store am)) i u.
Proof.
  unfold handleOwnerRoleTransfer, after_transfer, transfers. intros Hz.
  destruct (_ && _ && _); [|by inv_M]. apply bind_Ok in Hz as (x & am1 & E & Hz). inv_M.
  unfold update_ in E. injection E as <- <-. done.
Qed.

(** What a successful update has checked and written. *)
Lemma processUserUpdate_Ok gm acc id i0 u settings (am am' : AM W) x :
  id ≠ SystemInitiator → HasAdminPower i0 = true →
  processUserUpdate gm acc id (Some i0) u false settings am = (Ok x, am') →
  ∃ fresh old, users (store am) !! id = Some fresh ∧ HasAdminPower fresh = true ∧
    users (store am) !! Id u = Some old ∧ AccountID old = acc ∧
    validateUserUpdate gm (Some fresh) old u = Ok () ∧ x.1.1 = updated_user old u ∧
    users (store am') = after_transfer (users (store am)) fresh u.
Proof.
  intros Hid Hi Hz. unfold processUserUpdate in Hz.
  apply bind_Ok in Hz as (r & am1 & E & Hz). apply reread_Ok in E as (fresh & -> & Hf & Hfa & ->); [|done..].
  apply bind_Ok in Hz as (r & am1 & E & Hz). apply getOrCreate_Ok in E as (old & -> & Ho & Hoa & ->).
  apply bind_Ok in Hz as ([] & am1 & E & Hz). apply lift_Ok in E as [Hv ->].
  apply bind_Ok in Hz as (b & am1 & E & Hz). apply handleOwnerRoleTransfer_Ok in E.
  apply bind_Ok in Hz as (ps & am2 & E2 & Hz). apply gets_Ok in E2 as [-> ->].
  destruct (match AutoGroups u with Some _ => _ | None => _ end) as [rg ag].
  apply bind_Ok in Hz as ([] & am2 & E2 & Hz).
  apply (keeps_eq users) in E2; [|apply keeps_propagate].
  apply bind_Ok in Hz as (evs & am3 & E3 & Hz).
  apply (keeps_eq users) in E3; [|apply keeps_prepare].
  inv_M. exists fresh, old. split_and!; try done. congruence.
Qed.

Lemma HasAdminPower_cases u : HasAdminPower u = true → Role u = UserRoleAdmin ∨ owner u.
Proof. unfold HasAdminPower. intros Ha. bool_facts. destruct Ha; bool_facts; auto. Qed.

(** The checks of validateUserUpdate as propositions. *)
Lemma validateUserUpdate_Ok gm i old u : validateUserUpdate gm (Some i) old u = Ok () →
  (HasAdminPower i = true → Id i = Id u → Blocked old = Blocked u ∧ Role u = Role i) ∧
  (Role i = UserRoleAdmin → owner old → owner u ∧ (Blocked u = true → Blocked old = true)) ∧
  (Role i = UserRoleAdmin → owner u → owner old) ∧
  (IsServiceUser old = true → ¬ owner u) ∧
  validate_groups gm (default [] (AutoGroups u)) = Ok ().
Proof.
  unfold validateUserUpdate, owner, IsBlocked. intros Hv.
  repeat match type of Hv with (if ?b then _ else _) = _ => destruct b eqn:?; [done|] end.
  repeat match goal with
  | Hc : _ && _ = false |- _ => rewrite ?andb_false_iff, ?negb_false_iff, ?bool_decide_eq_false, ?bool_decide_eq_true in Hc
  end.
  split_and!; try done; intros.
  - destruct_or?; try done; try congruence; split; try congruence.
    all: try match goal with Hb : eqb _ _ = true |- _ => apply eqb_prop in Hb; done end.
  - destruct_or?; try done; try congruence; split; try congruence; intros; destruct (Blocked old), (Blocked u); congruence.
  - destruct_or?; try done; congruence.
  - destruct_or?; try done; congruence.
Qed.

Lemma update_role_change s acc fresh id u old gm : keyed s → s !! id = Some fresh → HasAdminPower fresh = true →
  AccountID fresh = acc → s !! Id u = Some old → AccountID old = acc →
  validateUserUpdate gm (Some fresh) old u = Ok () →
  role_change acc s (<[Id u := Copy (updated_user old u)]> (after_transfer s fresh u)).
Proof.
  intros Hk Hf Hfa Hacc Ho Hoa Hv. apply validateUserUpdate_Ok in Hv as (Hself & Hadm & Hadm' & Hsvc & _).
  pose proof (Hk _ _ Hf) as <-. pose proof (Hk _ _ Ho) as Hid.
  assert (same_identity old (Copy (updated_user old u))) as Hsame by done.
  unfold after_transfer, transfers. destruct (_ && _ && _) eqn:Ht; bool_facts.
  - apply rc_transfer with fresh old; try done. destruct (IsServiceUser old); [by exfalso; apply Hsvc|done].
  - change (owner (Copy (updated_user old u))) with (owner u) in *.
    assert (owner u ↔ owner (Copy (updated_user old u))) as Hown by done.
    destruct (decide (Role old = UserRoleOwner)) as [Hoo|Hoo], (decide (Role u = UserRoleOwner)) as [Hnu|Hnu].
    + apply rc_update with old; try done. intros _ Hbl. change (Blocked u = true) in Hbl.
      destruct (HasAdminPower_cases _ Hfa) as [Hra|Hro]; [left; by apply (Hadm Hra Hoo)|].
      destruct (decide (Id fresh = Id u)) as [E|Hne]; [left; destruct (Hself Hfa E); congruence|].
      right. by exists (Id fresh), fresh.
    + destruct (HasAdminPower_cases _ Hfa) as [Hra|Hro]; [by destruct (Hadm Hra Hoo)|].
      destruct (decide (Id fresh = Id u)) as [E|Hne]; [destruct (Hself Hfa E); unfold owner in Hro; congruence|].
      by apply rc_demote with (Id fresh) fresh old.
    + exfalso. destruct (HasAdminPower_cases _ Hfa) as [Hra|Hro]; [by apply Hoo, Hadm'|].
      destruct (decide (Id fresh = Id u)) as [E|Hne]; [rewrite E in Hf; unfold owner in Hro; congruence|].
      destruct Ht as [Ht|Ht]; bool_facts; [destruct Ht; bool_facts; done|done].
    + apply rc_update with old; try done.
Qed.

(** One update in its transaction: nothing, or an allowed change; nobody
    disappears and nobody changes the account. *)
Lemma save_one_refines gm acc id i0 settings u (am : AM W) fresh :
  id ≠ SystemInitiator → HasAdminPower i0 = true → keyed (users (store am)) →
  users (store am) !! id = Some fresh → AccountID fresh = acc →
  let s := users (store am) in
  let s' := users (store (save_one gm acc id (Some i0) false settings u am).2) in
  (s' = s ∨ role_change acc s s') ∧
  (∀ k v, s !! k = Some v → ∃ v', s' !! k = Some v' ∧ AccountID v' = AccountID v).
Proof.
  intros Hid Hi Hk Hf Hacc s s'. subst s.
  enough (s' = users (store am) ∨ ∃ fresh old, users (store am) !! id = Some fresh ∧ HasAdminPower fresh = true ∧ users (store am) !! Id u = Some old ∧
            AccountID old = acc ∧ validateUserUpdate gm (Some fresh) old u = Ok () ∧
            s' = <[Id u := Copy (updated_user old u)]> (after_transfer (users (store am)) fresh u)) as Hs'.
  { destruct Hs' as [->|(f & old & Hf' & Hfa & Ho & Hoa & Hv & ->)]; [split; [by left|eauto]|].
    assert (f = fresh) as -> by congruence. split; [right; by eapply update_role_change|].
    intros k v Hv'. destruct (decide (k = Id u)) as [->|Hne].
    - rewrite lookup_insert_eq. eexists. split; [done|]. assert (v = old) as -> by congruence. done.
    - rewrite lookup_insert_ne by done. unfold after_transfer. destruct (transfers _ _); [|eauto].
      destruct (decide (k = Id fresh)) as [->|Hne']; [|rewrite lookup_insert_ne by done; eauto].
      rewrite lookup_insert_eq. eexists. split; [done|]. rewrite (Hk _ _ Hf), Hf in Hv'. by injection Hv' as <-. }
  unfold s', save_one. apply follow_transaction; [by left|]. intros x am' Hx. right.
  apply bind_Ok in Hx as (r & am1 & E & Hx).
  apply processUserUpdate_Ok in E as (f & old & ? & ? & Ho & ? & ? & Er & Es); [|done..].
  apply bind_Ok in Hx as ([] & am2 & E2 & Hx). unfold update_ in E2. injection E2 as <-. inv_M.
  exists f, old. split_and!; try done. simpl. rewrite Er, Es. simpl. by rewrite (Hk _ _ Ho).
Qed.

Lemma save_all_refines gm acc id i0 settings single updates saved ok (am : AM W) fresh :
  id ≠ SystemInitiator → HasAdminPower i0 = true → keyed (users (store am)) →
  users (store am) !! id = Some fresh → AccountID fresh = acc →
  changes acc (users (store am))
    (users (store (save_all gm acc id (Some i0) false settings single updates saved ok am).2)).
Proof.
  intros Hid Hi. revert am fresh saved ok. induction updates as [|[u|] us IH]; intros am fresh saved ok Hk Hf Ha; simpl;
    [done| |done].
  destruct (save_one_refines gm acc id i0 settings u am fresh) as [Hc Hstay]; [done..|].
  set (am1 := (save_one gm acc id (Some i0) false settings u am).2) in *.
  assert (changes acc (users (store am)) (users (store am1))) as Hc1.
  { destruct Hc as [->|Hc]; [done|by apply rtc_once]. }
  destruct (Hstay _ _ Hf) as (fresh1 & Hf1 & Ha1). destruct (changes_facts _ _ _ Hc1) as (Hk1 & _ & _).
  unfold mbind, M_bind, attempt. subst am1. destruct (save_one _ _ _ _ _ _ _ am) as [[x|e|] am1]; simpl in *.
  - etrans; [exact Hc1|]. eapply IH; [auto|exact Hf1|congruence].
  - destruct single; [done|]. etrans; [exact Hc1|]. eapply IH; [auto|exact Hf1|congruence].
  - done.
Qed.

Lemma SavePeerStatus_users s acc id st s' : SavePeerStatus s acc id st = Ok s' → users s' = users s.
Proof. unfold SavePeerStatus. destruct (peers s !! id); [case_bool_decide|]; intros; by simplify_eq. Qed.

Lemma DeletePeer_users s acc id s' : DeletePeer s acc id = Ok s' → users s' = users s.
Proof. unfold DeletePeer. destruct (peers s !! id); [case_bool_decide|]; intros; by simplify_eq. Qed.

Lemma DeletePolicy_users s acc id s' : DeletePolicy s acc id = Ok s' → users s' = users s.
Proof. unfold DeletePolicy. destruct (policies s !! id); [case_bool_decide|]; intros; by simplify_eq. Qed.

Lemma DeletePAT_users s u id s' : DeletePAT s u id = Ok s' → users s' = users s.
Proof. unfold DeletePAT. destruct (pats s !! id); [case_bool_decide|]; intros; by simplify_eq. Qed.

#[local] Hint Resolve SavePeerStatus_users DeletePeer_users DeletePolicy_users DeletePAT_users : keeps.
#[local] Hint Extern 2 (keeps _ (exec _)) => apply keeps_exec; intros; eauto with keeps : keeps.

Lemma keeps_expire acc ps : keeps users (expire_peers acc ps : M W _).
Proof. induction ps as [|p ps IH]; simpl; keeps_tac. Qed.

#[local] Hint Resolve keeps_expire : keeps.

Lemma keeps_expireAndUpdate acc ps : keeps users (expireAndUpdatePeers acc ps : M W _).
Proof. unfold expireAndUpdatePeers. keeps_tac. Qed.

#[local] Hint Resolve keeps_expireAndUpdate : keeps.

(** What a call does to the users of a table: nothing, or allowed changes in the
    account of an initiator who administers it. *)
Definition administered (acc i : bytes) (s s' : UserTable) : Prop :=
  s' = s ∨ (administers s acc i ∧ changes acc s s').

Lemma SaveOrAddUsers_refines acc i updates (am : AM W) : i ≠ SystemInitiator → keyed (users (store am)) →
  administered acc i (users (store am)) (users (store (SaveOrAddUsers acc i updates false am).2)).
Proof.
  intros Hi Hk. unfold SaveOrAddUsers. case_bool_decide; [by left|].
  apply (follow_bind (administered acc i _)); [auto with keeps|by left|]. intros x am1 E Hs.
  apply authorize_Ok in E as [Hm ->]; [|done]. apply may_users_administers in Hm; [|done].
  apply (follow_bind (administered acc i _)); [auto with keeps|by left|]. intros settings am1 E _. apply query_Ok in E as [_ ->].
  apply (follow_bind (administered acc i _)); [auto with keeps|by left|]. intros gs am1 E _. apply gets_Ok in E as [_ ->].
  rewrite (bool_decide_false (i = SystemInitiator)) by done.
  apply (follow_bind (administered acc i _)); [keeps_tac|by left|]. intros i0 am1 E _. inv_M. apply get_user_Ok in E0 as [Hu ->].
  destruct Hm as (u & Hu' & Hb & Ha & Hp). assert (x0 = u) as -> by congruence.
  apply (follow_last (administered acc i _)); [|right; split; [exists u; auto|by eapply save_all_refines]].
  keeps_tac.
Qed.

(** ** Creating users *)

Ltac follow acc i := apply (follow_bind (administered acc i _)); [keeps_tac|by left|].

(** The ids of new users are not taken. *)
Definition fresh_ids (rq : Request) (s : UserTable) : Prop :=
  s !! newID rq = None ∧
  ∀ email name acc inviter w d w', idp_CreateUser email name acc inviter w = (Ok d, w') → s !! ud_ID d = None.

Lemma add_administered acc i s u : administers s acc i → s !! Id u = None → AccountID u = acc → ¬ owner u →
  administered acc i s (<[Id u := Copy u]> s).
Proof. intros Ha Hn Hacc Ho. right. split; [done|]. apply rtc_once, rc_add; done. Qed.

Lemma createServiceUser_refines rq acc i role name nd gs (am : AM W) :
  i ≠ SystemInitiator → fresh_ids rq (users (store am)) →
  administered acc i (users (store am)) (users (store (createServiceUser rq acc i role name nd gs am).2)).
Proof.
  intros Hi [Hf _]. unfold createServiceUser. follow acc i. intros x am1 E _.
  apply authorize_Ok in E as [Hm ->]; [|done]. apply may_users_administers in Hm; [|done].
  follow acc i. intros y am1 E _. apply assert_Ok in E as [Hr ->]. bool_facts.
  apply (follow_last (administered acc i _)); [keeps_tac|].
  apply add_administered; done.
Qed.

Lemma keeps_createNewIdpUser {B : Type} (f : Store → B) acc inviter invite : keeps f (createNewIdpUser acc inviter invite : M W _).
Proof. unfold createNewIdpUser. keeps_tac. Qed.

Lemma keeps_createEmbedded {B : Type} (f : Store → B) acc inviter invite : keeps f (createEmbeddedIdpUser EqualFold acc inviter invite : M W _).
Proof. unfold createEmbeddedIdpUser. keeps_tac. Qed.

#[local] Hint Resolve keeps_createNewIdpUser keeps_createEmbedded : keeps.

Lemma call_Ok {A} (f : W → outcome Error A * W) (am am' : AM W) x :
  call f am = (Ok x, am') → ∃ w, f (world am) = (Ok x, w).
Proof. unfold call. destruct (f (world am)) as [r w]. intros [= -> _]. eauto. Qed.

(** The user both kinds of identity provider return comes from CreateUser. *)
Lemma idp_user_created acc inviter invite (am am' : AM W) d :
  (if IsEmbeddedIdp then createEmbeddedIdpUser EqualFold acc inviter invite
   else createNewIdpUser acc inviter invite) am = (Ok d, am') →
  ∃ email name inv w w', idp_CreateUser email name acc inv w = (Ok d, w').
Proof.
  destruct IsEmbeddedIdp.
  - unfold createEmbeddedIdpUser. intros Hz. inv_M. apply call_Ok in Hz as [w' Hz]. eauto 10.
  - unfold createNewIdpUser. intros Hz.
    apply bind_Ok in Hz as (? & ? & _ & Hz). apply bind_Ok in Hz as ([v|] & ? & _ & Hz); [|done].
    apply bind_Ok in Hz as ([v'|] & ? & _ & Hz); [done|].
    apply bind_Ok in Hz as ([|] & ? & _ & Hz); [|done]. apply call_Ok in Hz as [w' Hz]. eauto 10.
Qed.

Lemma validateUserInvite_Ok invite x : validateUserInvite lower invite = Ok x →
  StrRoleToUserRole lower (ui_Role invite) ≠ UserRoleOwner.
Proof. unfold validateUserInvite. by repeat case_bool_decide. Qed.

Lemma inviteNewUser_refines rq acc i invite (am : AM W) : i ≠ SystemInitiator → fresh_ids rq (users (store am)) →
  administered acc i (users (store am)) (users (store (inviteNewUser lower EqualFold rq acc i invite am).2)).
Proof.
  intros Hi [_ Hf]. unfold inviteNewUser. follow acc i. intros x am1 E _. apply assert_Ok in E as [_ ->].
  follow acc i. intros y am1 E _. apply lift_Ok in E as [Hv%validateUserInvite_Ok ->].
  follow acc i. intros z am1 E _. apply authorize_Ok in E as [Hm ->]; [|done].
  apply may_users_administers in Hm; [|done].
  follow acc i. intros u am1 E _. apply get_user_Ok in E as [_ ->].
  follow acc i. intros inviter am1 E Hs1. rewrite <- Hs1 in *.
  follow acc i. intros d am2 E2 Hs2. apply idp_user_created in E2 as (?&?&?&?&?&Hd). rewrite <- Hs2 in *.
  apply (follow_last (administered acc i _)); [keeps_tac|].
  apply add_administered; try done. simpl. eauto.
Qed.

(** ** Deleting users *)

Lemma delete_user_table s acc target u : keyed s → s !! target = Some u → ¬ owner u →
  let s' := filter (λ kv : bytes * User, ¬ (AccountID kv.2 = acc ∧ Id kv.2 = target)) s in
  s' = s ∨ role_change acc s s'.
Proof.
  intros Hk Hu Ho s'. destruct (decide (AccountID u = acc)) as [Ha|Ha].
  - right. assert (s' = delete target s) as ->; [|by eapply rc_delete].
    apply map_eq. intros k. subst s'. destruct (decide (k = target)) as [->|Hne].
    + rewrite lookup_delete_eq. apply map_lookup_filter_None. right. intros v Hv Hn. apply Hn.
      rewrite Hu in Hv. injection Hv as <-. eauto.
    + rewrite lookup_delete_ne by done. apply option_eq. intros v. rewrite map_lookup_filter_Some. simpl.
      split; [by intros [? _]|]. intros Hv. split; [done|]. intros [_ Hid]. pose proof (Hk _ _ Hv). congruence.
  - left. apply map_filter_id. intros k v Hv [? Hid]. simpl in *. pose proof (Hk _ _ Hv). congruence.
Qed.

Lemma keeps_delete_rules acc u p rs : keeps users (delete_rule_policies acc u p rs : M W _).
Proof. induction rs as [|r rs IH]; simpl; keeps_tac. Qed.

#[local] Hint Resolve keeps_delete_rules : keeps.

Lemma keeps_deletePeers acc u ps : keeps users (deletePeers acc u ps : M W _).
Proof. induction ps as [|p ps IH]; simpl; keeps_tac. Qed.

Lemma keeps_deleteUserFromIDP {B : Type} (f : Store → B) t acc : keeps f (deleteUserFromIDP t acc : M W _).
Proof. unfold deleteUserFromIDP. keeps_tac. Qed.

#[local] Hint Resolve keeps_deletePeers keeps_deleteUserFromIDP : keeps.

(** Deleting a regular user deletes its row if it is one of the account, and no
    other. *)
Lemma deleteRegularUser_refines acc i info u (am : AM W) : keyed (users (store am)) →
  users (store am) !! ui_ID info = Some u → ¬ owner u →
  let s' := users (store (deleteRegularUser acc i info am).2) in
  s' = users (store am) ∨ role_change acc (users (store am)) s'.
Proof.
  intros Hk Hu Ho. unfold deleteRegularUser.
  apply (follow_bind (λ s', s' = users (store am) ∨ role_change acc (users (store am)) s')); [keeps_tac|by left|].
  intros x am1 E Hs1. rewrite <- Hs1 in *. apply (follow_last (λ s', s' = _ ∨ role_change acc _ s')); [keeps_tac|].
  apply (follow_transaction (λ s', s' = _ ∨ role_change acc _ s')); [by left|]. intros y am' Hz.
  apply bind_Ok in Hz as (tu & am2 & E1 & Hz). apply get_user_Ok in E1 as [Htu ->].
  apply bind_Ok in Hz as (st & am2 & E2 & Hz). apply query_Ok in E2 as [_ ->].
  apply bind_Ok in Hz as (ps & am2 & E3 & Hz). apply gets_Ok in E3 as [-> ->].
  apply bind_Ok in Hz as (evs & am2 & E4 & Hz).
  assert (users (store am2) = users (store am1)) as Hs2.
  { eapply keeps_eq; [exact E4|]. case_bool_decide; auto with keeps. }
  apply bind_Ok in Hz as ([] & am3 & E5 & Hz). unfold update_ in E5. injection E5 as <-. inv_M.
  simpl. rewrite Hs2. by apply delete_user_table with u.
Qed.

Lemma may_delete_Ok iu tu x : may_delete iu tu = Ok x → ¬ owner tu.
Proof. unfold may_delete, owner. by case_bool_decide. Qed.

Lemma administered_change acc i s s' : administers s acc i → s' = s ∨ role_change acc s s' → administered acc i s s'.
Proof. intros Ha [->|Hc]; [by left|right]. split; [done|by apply rtc_once]. Qed.

Lemma ToUserInfo_ID u d info : ToUserInfo u d = Ok info → ui_ID info = Id u.
Proof. unfold ToUserInfo. destruct d as [d|]; [case_bool_decide|]; intros; by simplify_eq. Qed.

Lemma with_connector_ID id (i : UserInfo) : ui_ID (with_connector id i) = ui_ID i.
Proof. unfold with_connector. destruct (DecodeDexUserID id); [case_bool_decide|]; done. Qed.

Lemma getUserInfo_ID u acc (am am' : AM W) info : getUserInfo u acc am = (Ok info, am') → ui_ID info = Id u.
Proof.
  unfold getUserInfo. destruct (_ && _ && _); intros Hz.
  - apply bind_Ok in Hz as (d & am1 & _ & Hz). apply lift_Ok in Hz as [Hz _]. by eapply ToUserInfo_ID.
  - apply bind_Ok in Hz as (d & am1 & E & Hz). apply lift_Ok in E as [E%ToUserInfo_ID _]. inv_M.
    destruct (_ && _); rewrite ?with_connector_ID; done.
Qed.

Lemma DeleteUser_op_refines acc i t (am : AM W) : i ≠ SystemInitiator → keyed (users (store am)) →
  administered acc i (users (store am)) (users (store (DeleteUser_op acc i t am).2)).
Proof.
  intros Hi Hk. unfold DeleteUser_op. follow acc i. intros x am1 E _. apply assert_Ok in E as [_ ->].
  follow acc i. intros iu am1 E _. apply get_user_Ok in E as [_ ->].
  follow acc i. intros y am1 E _. apply authorize_Ok in E as [Hm ->]; [|done].
  apply may_users_administers in Hm; [|done].
  follow acc i. intros tu am1 E _. apply get_user_Ok in E as [Ht ->].
  follow acc i. intros z am1 E _. apply lift_Ok in E as [Hd%may_delete_Ok ->].
  pose proof (Hk _ _ Ht) as Hid. destruct (IsServiceUser tu).
  - follow acc i. intros z' am1 E _. apply assert_Ok in E as [_ ->].
    apply (follow_last (administered acc i _)); [keeps_tac|]. apply administered_change; [done|].
    simpl. rewrite Hid. by apply delete_user_table with tu.
  - follow acc i. intros info am1 E Hs. apply getUserInfo_ID in E. rewrite <- Hs in *.
    apply (follow_last (administered acc i _)); [keeps_tac|]. apply administered_change; [done|].
    apply deleteRegularUser_refines with tu; [done|by rewrite E, Hid|done].
Qed.

(** Infos are keyed by the ids of their users. *)
Definition infos_keyed (infos : gmap bytes UserInfo) : Prop := ∀ k i, infos !! k = Some i → ui_ID i = k.

Lemma delete_one_refines acc i iu infos t (am : AM W) : keyed (users (store am)) → infos_keyed infos →
  let s' := users (store (delete_one acc i iu infos t am).2) in
  s' = users (store am) ∨ role_change acc (users (store am)) s'.
Proof.
  intros Hk Hinf. unfold delete_one.
  apply (follow_bind (λ s', s' = _ ∨ role_change acc _ s')); [keeps_tac|by left|].
  intros x am1 E _. apply assert_Ok in E as [_ ->].
  apply (follow_bind (λ s', s' = _ ∨ role_change acc _ s')); [keeps_tac|by left|].
  intros tu am1 E _. apply get_user_Ok in E as [Ht ->].
  apply (follow_bind (λ s', s' = _ ∨ role_change acc _ s')); [keeps_tac|by left|].
  intros z am1 E _. apply lift_Ok in E as [Hd%may_delete_Ok ->].
  destruct (infos !! t) as [info|] eqn:Ei; [|by left].
  apply (follow_last (λ s', s' = _ ∨ role_change acc _ s')); [keeps_tac|].
  apply deleteRegularUser_refines with tu; [done| |done]. by rewrite (Hinf _ _ Ei).
Qed.

Lemma delete_all_refines acc i iu infos ts ok (am : AM W) : keyed (users (store am)) → infos_keyed infos →
  changes acc (users (store am)) (users (store (delete_all acc i iu infos ts ok am).2)).
Proof.
  intros Hk Hinf. revert am ok Hk. induction ts as [|t ts IH]; intros am ok Hk; simpl; [done|].
  pose proof (delete_one_refines acc i iu infos t am Hk Hinf) as Hc.
  assert (changes acc (users (store am)) (users (store (delete_one acc i iu infos t am).2))) as Hc1.
  { destruct Hc as [->|Hc]; [done|by apply rtc_once]. }
  destruct (changes_facts _ _ _ Hc1) as (Hk1 & _ & _).
  unfold mbind, M_bind, attempt. destruct (delete_one acc i iu infos t am) as [[x|e|] am1]; simpl in *; [| |done];
    (etrans; [exact Hc1|]; auto).
Qed.

Lemma DeleteRegularUsers_refines acc i ts infos (am : AM W) : i ≠ SystemInitiator → keyed (users (store am)) →
  infos_keyed infos →
  administered acc i (users (store am)) (users (store (DeleteRegularUsers acc i ts infos am).2)).
Proof.
  intros Hi Hk Hinf. unfold DeleteRegularUsers. follow acc i. intros y am1 E _.
  apply authorize_Ok in E as [Hm ->]; [|done]. apply may_users_administers in Hm; [|done].
  follow acc i. intros iu am1 E _. apply get_user_Ok in E as [_ ->].
  apply (follow_last (administered acc i _)); [keeps_tac|]. right. split; [done|]. by apply delete_all_refines.
Qed.

(** ** Approvals, tokens and invites *)

Lemma pending_user_Ok acc t (am am' : AM W) u : pending_user acc t am = (Ok u, am') →
  users (store am) !! t = Some u ∧ AccountID u = acc ∧ am' = am.
Proof.
  unfold pending_user. intros Hz. inv_M. apply get_user_Ok in E as [Hu ->]. bool_facts. done.
Qed.

Lemma keeps_pending {B : Type} (f : Store → B) acc t : keeps f (pending_user acc t : M W _).
Proof. unfold pending_user. keeps_tac. Qed.

#[local] Hint Resolve keeps_pending : keeps.

Lemma ApproveUser_refines acc i t (am : AM W) : i ≠ SystemInitiator → keyed (users (store am)) →
  administered acc i (users (store am)) (users (store (ApproveUser acc i t am).2)).
Proof.
  intros Hi Hk. unfold ApproveUser. follow acc i. intros y am1 E _. apply authorize_Ok in E as [Hm ->]; [|done].
  apply may_users_administers in Hm; [|done].
  follow acc i. intros u am1 E _. apply pending_user_Ok in E as (Hu & Ha & ->).
  apply (follow_last (administered acc i _)); [keeps_tac|]. right. split; [done|]. apply rtc_once.
  simpl. pose proof (Hk _ _ Hu) as ->. apply rc_update with u; done.
Qed.

Lemma RejectUser_refines acc i t (am : AM W) : i ≠ SystemInitiator → keyed (users (store am)) →
  administered acc i (users (store am)) (users (store (RejectUser acc i t am).2)).
Proof.
  intros Hi Hk. unfold RejectUser. follow acc i. intros y am1 E _. apply authorize_Ok in E as [Hm ->]; [|done].
  follow acc i. intros u am1 E _. apply pending_user_Ok in E as (_ & _ & ->).
  apply (follow_last (administered acc i _)); [keeps_tac|]. by apply DeleteUser_op_refines.
Qed.

Lemma keeps_pat_target {B : Type} (f : Store → B) acc i t : keeps f (pat_target acc i t : M W _).
Proof. unfold pat_target. keeps_tac. Qed.

#[local] Hint Resolve keeps_pat_target : keeps.

Lemma keeps_CreatePAT rq acc i t n e : keeps users (CreatePAT rq acc i t n e : M W _).
Proof. unfold CreatePAT. keeps_tac. Qed.

Lemma keeps_DeletePAT acc i t n : keeps users (DeletePAT_op acc i t n : M W _).
Proof. unfold DeletePAT_op. keeps_tac. Qed.

Lemma keeps_CreateUserInvite rq acc i inv e : keeps users (CreateUserInvite lower EqualFold rq acc i inv e : M W _).
Proof. unfold CreateUserInvite. keeps_tac. Qed.

Lemma keeps_RegenerateUserInvite rq acc i id e : keeps users (RegenerateUserInvite rq acc i id e : M W _).
Proof. unfold RegenerateUserInvite. keeps_tac. Qed.

Lemma keeps_DeleteUserInvite acc i id : keeps users (DeleteUserInvite_op acc i id : M W _).
Proof. unfold DeleteUserInvite_op. keeps_tac. Qed.

Lemma keeps_InviteUser {B : Type} (f : Store → B) acc i t : keeps f (InviteUser acc i t : M W _).
Proof. unfold InviteUser. keeps_tac. Qed.

Lemma keeps_UpdateUserPassword {B : Type} (f : Store → B) acc i t o n : keeps f (UpdateUserPassword acc i t o n : M W _).
Proof. unfold UpdateUserPassword. keeps_tac. Qed.

(** ** Invites never make an owner *)

Definition invites_ok (s : Store) : Prop :=
  ∀ id inv, invites s !! id = Some inv → StrRoleToUserRole lower (inv_Role inv) ≠ UserRoleOwner.

Lemma SavePeerStatus_invites s acc id st s' : SavePeerStatus s acc id st = Ok s' → invites s' = invites s.
Proof. unfold SavePeerStatus. destruct (peers s !! id); [case_bool_decide|]; intros; by simplify_eq. Qed.

Lemma DeletePeer_invites s acc id s' : DeletePeer s acc id = Ok s' → invites s' = invites s.
Proof. unfold DeletePeer. destruct (peers s !! id); [case_bool_decide|]; intros; by simplify_eq. Qed.

Lemma DeletePolicy_invites s acc id s' : DeletePolicy s acc id = Ok s' → invites s' = invites s.
Proof. unfold DeletePolicy. destruct (policies s !! id); [case_bool_decide|]; intros; by simplify_eq. Qed.

Lemma DeletePAT_invites s u id s' : DeletePAT s u id = Ok s' → invites s' = invites s.
Proof. unfold DeletePAT. destruct (pats s !! id); [case_bool_decide|]; intros; by simplify_eq. Qed.

#[local] Hint Resolve SavePeerStatus_invites DeletePeer_invites DeletePolicy_invites DeletePAT_invites : keeps.

Lemma invites_delete_rules acc u p rs : keeps invites (delete_rule_policies acc u p rs : M W _).
Proof. induction rs as [|r rs IH]; simpl; keeps_tac. Qed.

#[local] Hint Resolve invites_delete_rules : keeps.

Lemma invites_deletePeers acc u ps : keeps invites (deletePeers acc u ps : M W _).
Proof. induction ps as [|p ps IH]; simpl; keeps_tac. Qed.

#[local] Hint Resolve invites_deletePeers : keeps.

Lemma invites_deleteRegularUser acc i info : keeps invites (deleteRegularUser acc i info : M W _).
Proof. unfold deleteRegularUser. keeps_tac. Qed.

#[local] Hint Resolve invites_deleteRegularUser : keeps.

Lemma invites_DeleteUser acc i t : keeps invites (DeleteUser_op acc i t : M W _).
Proof. unfold DeleteUser_op, deleteServiceUser. keeps_tac. Qed.

Lemma invites_delete_all acc i iu infos ts ok : keeps invites (delete_all acc i iu infos ts ok : M W _).
Proof. revert ok. induction ts as [|t ts IH]; intros ok; simpl; [done|]. unfold delete_one. keeps_tac. Qed.

Lemma invites_save_all gm acc i i0 b st single us saved ok :
  keeps invites (save_all gm acc i i0 b st single us saved ok : M W _).
Proof.
  revert saved ok. induction us as [|[u|] us IH]; intros saved ok; simpl; [done| |done].
  unfold save_one, processUserUpdate, handleOwnerRoleTransfer, propagate_groups. keeps_tac.
Qed.

Lemma invites_expire acc ps : keeps invites (expire_peers acc ps : M W _).
Proof. induction ps as [|p ps IH]; simpl; keeps_tac. Qed.

#[local] Hint Resolve invites_DeleteUser invites_delete_all invites_save_all invites_expire : keeps.

Lemma invites_SaveOrAddUsers acc i us b : keeps invites (SaveOrAddUsers acc i us b : M W _).
Proof. unfold SaveOrAddUsers, expireAndUpdatePeers. keeps_tac. Qed.

Lemma invites_CreateUser rq acc i info : keeps invites (CreateUser lower EqualFold rq acc i info : M W _).
Proof. unfold CreateUser, createServiceUser, inviteNewUser. keeps_tac. Qed.

(** ** The calls of the management API *)

Inductive Call :=
| CallCreateUser (rq : Request) (info : UserInfo)
| CallSaveUsers (updates : list (option User))
| CallDeleteUser (target : bytes)
| CallDeleteUsers (targets : list bytes) (infos : gmap bytes UserInfo)
| CallApprove (target : bytes)
| CallReject (target : bytes)
| CallInvite (target : bytes)
| CallPassword (target old new : bytes)
| CallCreatePAT (rq : Request) (target name : bytes) (expiresIn : Z)
| CallDeletePAT (target token : bytes)
| CallCreateInvite (rq : Request) (info : UserInfo) (expiresIn : Z)
| CallRegenerate (rq : Request) (invite : bytes) (expiresIn : Z)
| CallDeleteInvite (invite : bytes).

Definition done_ {A} (m : M W A) : M W unit := m ≫= λ _, mret ().

Definition run (acc i : bytes) (c : Call) : M W unit :=
  match c with
  | CallCreateUser rq info => done_ (CreateUser lower EqualFold rq acc i info)
  | CallSaveUsers us => done_ (SaveOrAddUsers acc i us false)
  | CallDeleteUser t => DeleteUser_op acc i t
  | CallDeleteUsers ts infos => DeleteRegularUsers acc i ts infos
  | CallApprove t => done_ (ApproveUser acc i t)
  | CallReject t => RejectUser acc i t
  | CallInvite t => InviteUser acc i t
  | CallPassword t o n => UpdateUserPassword acc i t o n
  | CallCreatePAT rq t n e => done_ (CreatePAT rq acc i t n e)
  | CallDeletePAT t id => DeletePAT_op acc i t id
  | CallCreateInvite rq info e => done_ (CreateUserInvite lower EqualFold rq acc i info e)
  | CallRegenerate rq id e => done_ (RegenerateUserInvite rq acc i id e)
  | CallDeleteInvite id => DeleteUserInvite_op acc i id
  end.

(** New ids are new, and the infos given to a mass deletion belong to their ids. *)
Definition call_ok (c : Call) (s : UserTable) : Prop :=
  match c with
  | CallCreateUser rq _ => fresh_ids rq s
  | CallDeleteUsers _ infos => infos_keyed infos
  | _ => True
  end.

Lemma administered_keeps {A} acc i (m : M W A) am : keeps users m →
  administered acc i (users (store am)) (users (store (m am).2)).
Proof. intros Hm. left. apply Hm. Qed.

Lemma administered_done {A} acc i (m : M W A) am :
  administered acc i (users (store am)) (users (store (m am).2)) →
  administered acc i (users (store am)) (users (store (done_ m am).2)).
Proof. intros Hm. unfold done_. apply (follow_last (administered acc i _)); [keeps_tac|done]. Qed.

Lemma run_refines acc i c (am : AM W) : i ≠ SystemInitiator → keyed (users (store am)) →
  call_ok c (users (store am)) → administered acc i (users (store am)) (users (store (run acc i c am).2)).
Proof.
  intros Hi Hk Hok. destruct c; simpl in *; try apply administered_done.
  - unfold CreateUser. destruct (ui_IsServiceUser info).
    + by apply createServiceUser_refines.
    + by apply inviteNewUser_refines.
  - by apply SaveOrAddUsers_refines.
  - by apply DeleteUser_op_refines.
  - by apply DeleteRegularUsers_refines.
  - by apply ApproveUser_refines.
  - by apply RejectUser_refines.
  - apply administered_keeps, keeps_InviteUser.
  - apply administered_keeps, keeps_UpdateUserPassword.
  - apply administered_keeps, keeps_CreatePAT.
  - apply administered_keeps, keeps_DeletePAT.
  - apply administered_keeps, keeps_CreateUserInvite.
  - apply administered_keeps, keeps_RegenerateUserInvite.
  - apply administered_keeps, keeps_DeleteUserInvite.
Qed.

(** ** Accepted invites and logins *)

Lemma rows_elem {A : Type} (P : A → bool) (t : gmap bytes A) (x : A) : x ∈ rows P t → P x = true ∧ ∃ k, t !! k = Some x.
Proof.
  unfold rows. rewrite elem_of_lfilter, list_elem_of_fmap. intros [([k v] & -> & Hin) HP].
  apply elem_of_map_to_list in Hin. eauto.
Qed.

Lemma first_row_Ok {A : Type} (P : A → bool) (e : Error) (t : gmap bytes A) (x : A) : first_row P e t = Ok x →
  P x = true ∧ ∃ k, t !! k = Some x.
Proof.
  unfold first_row. intros Hz. apply rows_elem. destruct (rows P t); [done|]. injection Hz as ->. constructor.
Qed.

Lemma find_invite_Ok token (am am' : AM W) inv : find_invite pow_conv token am = (Ok inv, am') →
  (∃ k, invites (store am) !! k = Some inv) ∧ inv_HashedToken inv = HashInviteToken token ∧
  ValidateInviteToken pow_conv token = Ok () ∧ am' = am.
Proof.
  unfold find_invite. intros Hz. inv_M. apply first_row_Ok in Hz as [Hh Hk]. bool_facts.
  destruct (ValidateInviteToken pow_conv token) as [[]| |]; simpl in *; [done|done|done].
Qed.

Lemma keeps_find_invite {B : Type} (f : Store → B) token : keeps f (find_invite pow_conv token : M W _).
Proof. unfold find_invite. keeps_tac. Qed.

#[local] Hint Resolve keeps_find_invite : keeps.

Abbreviation accept := (AcceptUserInvite lower runes unicode_IsDigit unicode_IsUpper unicode_IsLetter pow_conv).

(** An accepted invite adds at most one user, with the account and role of a
    stored, unexpired invite whose token was presented. *)
Lemma AcceptUserInvite_refines rq token pw (am : AM W) : invites_ok (store am) →
  (∀ e p n w d w', idp_CreateUserWithPassword e p n w = (Ok d, w') → users (store am) !! ud_ID d = None) →
  let s' := users (store (accept rq token pw am).2) in
  s' = users (store am) ∨
  ∃ k inv, invites (store am) !! k = Some inv ∧ inv_HashedToken inv = HashInviteToken token ∧
           now rq ≤ inv_ExpiresAt inv ∧ role_change (inv_AccountID inv) (users (store am)) s'.
Proof.
  intros Hok Hf. cbv zeta.
  pattern (users (store (accept rq token pw am).2)).
  match goal with |- ?q _ => set (Q := q) end. assert (Q (users (store am))) as HQ by by left.
  unfold AcceptUserInvite.
  do 4 (apply (follow_bind Q); [keeps_tac|exact HQ|]; intros ? ? E _; apply assert_Ok in E as [_ ->]).
  apply (follow_bind Q); [keeps_tac|exact HQ|]. intros inv am1 E _.
  apply find_invite_Ok in E as ([k Hk] & Hh & _ & ->).
  apply (follow_bind Q); [keeps_tac|exact HQ|]. intros ? ? E _. apply assert_Ok in E as [Hx ->].
  apply (follow_bind Q); [keeps_tac|exact HQ|]. intros d am1 E Hs.
  apply call_Ok in E as [w Hd]. apply Hf in Hd.
  apply (follow_last Q); [keeps_tac|]. right. exists k, inv. split_and!; try done.
  - unfold IsExpired in Hx. bool_facts. lia.
  - simpl. rewrite Hs. apply rc_add; try done. by apply Hok in Hk.
Qed.

Lemma login_refines ua (am : AM W) :
  let s' := users (store (GetUserFromUserAuth ua am).2) in
  s' = users (store am) ∨ role_change (ua_AccountId ua) (users (store am)) s'.
Proof.
  cbv zeta. pattern (users (store (GetUserFromUserAuth ua am).2)).
  match goal with |- ?q _ => set (Q := q) end. assert (Q (users (store am))) as HQ by by left.
  unfold GetUserFromUserAuth. apply (follow_bind Q); [keeps_tac|exact HQ|]. intros u am1 E _.
  apply get_user_Ok in E as [Hu ->]. apply (follow_last Q); [keeps_tac|]. apply (follow_attempt Q).
  unfold exec, SaveUserLastLogin. rewrite Hu. case_bool_decide as Ha; [|exact HQ].
  destruct (IsZero (ua_LastLogin ua)); [exact HQ|]. right. simpl. apply rc_update with u; try done. by left.
Qed.

(** *** Invites through the calls *)

Lemma invites_ok_update (s : Store) inv : invites_ok s → StrRoleToUserRole lower (inv_Role inv) ≠ UserRoleOwner →
  invites_ok (SaveUserInvite s inv).
Proof. intros Hs Hi id i'. simpl. intros [[_ <-]|[_ Hl]]%lookup_insert_Some; [done|by apply Hs in Hl]. Qed.

(** The store after a step that keeps the invites and a last one. *)
Lemma follow_invites {A B : Type} (m : M W A) (k : A → M W B) am :
  keeps invites m → invites_ok (store am) →
  (∀ x am', m am = (Ok x, am') → invites_ok (store am') → invites_ok (store (k x am').2)) →
  invites_ok (store ((m ≫= k) am).2).
Proof.
  intros Hm Hok Hk. assert (∀ am' : AM W, invites (store am') = invites (store am) → invites_ok (store am')) as Hsame.
  { intros am' E id inv. rewrite E. apply Hok. }
  unfold mbind, M_bind. specialize (Hm am). destruct (m am) as [[x|e|] am']; simpl in *; eauto.
Qed.

Lemma keeps_invites_ok {A : Type} (m : M W A) am : keeps invites m → invites_ok (store am) → invites_ok (store (m am).2).
Proof. intros Hm Hok id inv. rewrite (Hm am). apply Hok. Qed.

Lemma invites_ok_create rq acc i info e (am : AM W) : invites_ok (store am) →
  invites_ok (store (CreateUserInvite lower EqualFold rq acc i info e am).2).
Proof.
  intros Hok. unfold CreateUserInvite.
  do 2 (apply follow_invites; [keeps_tac|done|]; intros ? ? E _; apply assert_Ok in E as [_ ->]).
  apply follow_invites; [keeps_tac|done|]. intros ? ? E _. apply lift_Ok in E as [Hv%validateUserInvite_Ok ->].
  do 6 (apply follow_invites; [keeps_tac|done|]; intros ? ? _ ?).
  destruct (GenerateInviteToken (secret rq)) as [h t].
  unfold mbind, M_bind, update_, StoreEvent, mret, M_ret. simpl. by apply invites_ok_update.
Qed.

Lemma invites_ok_regenerate rq acc i id e (am : AM W) : invites_ok (store am) →
  invites_ok (store (RegenerateUserInvite rq acc i id e am).2).
Proof.
  intros Hok. unfold RegenerateUserInvite. do 2 (apply follow_invites; [keeps_tac|done|]; intros ? ? _ ?).
  apply follow_invites; [keeps_tac|done|]. intros inv am2 E _. apply query_Ok in E as [E ->].
  unfold GetUserInviteByID in E. destruct (invites _ !! id) as [i'|] eqn:Hi; [|done].
  case_bool_decide; [|done]. injection E as ->. assert (StrRoleToUserRole lower (inv_Role inv) ≠ UserRoleOwner) by eauto.
  apply follow_invites; [keeps_tac|done|]. intros ? ? _ ?.
  destruct (GenerateInviteToken (secret rq)) as [h t].
  unfold mbind, M_bind, update_, StoreEvent, mret, M_ret. simpl. by apply invites_ok_update.
Qed.

Lemma invites_ok_remove s id : invites_ok s → invites_ok (DeleteUserInvite s id).
Proof. intros Hok k inv. simpl. intros [_ Hl]%lookup_delete_Some. by apply Hok in Hl. Qed.

Lemma invites_ok_delete acc i id (am : AM W) : invites_ok (store am) →
  invites_ok (store (DeleteUserInvite_op acc i id am).2).
Proof.
  intros Hok. unfold DeleteUserInvite_op. do 3 (apply follow_invites; [keeps_tac|done|]; intros ? ? _ ?).
  unfold mbind, M_bind, update_, StoreEvent. simpl. by apply invites_ok_remove.
Qed.

Lemma invites_ok_accept rq token pw (am : AM W) : invites_ok (store am) → invites_ok (store (accept rq token pw am).2).
Proof.
  intros Hok. unfold AcceptUserInvite. do 7 (apply follow_invites; [keeps_tac|done|]; intros ? ? _ ?).
  by apply invites_ok_remove.
Qed.

Lemma run_invites acc i c (am : AM W) : invites_ok (store am) → invites_ok (store (run acc i c am).2).
Proof.
  intros Hok. assert (∀ A (m : M W A), invites_ok (store (m am).2) → invites_ok (store (done_ m am).2)) as Hd.
  { intros A m Hm. unfold done_, mbind, M_bind. by destruct (m am) as [[]]. }
  destruct c; simpl; try apply Hd.
  - apply keeps_invites_ok; [apply invites_CreateUser|done].
  - apply keeps_invites_ok; [apply invites_SaveOrAddUsers|done].
  - apply keeps_invites_ok; [apply invites_DeleteUser|done].
  - apply keeps_invites_ok; [unfold DeleteRegularUsers; keeps_tac|done].
  - apply keeps_invites_ok; [unfold ApproveUser; keeps_tac|done].
  - apply keeps_invites_ok; [unfold RejectUser; keeps_tac|done].
  - apply keeps_invites_ok; [apply keeps_InviteUser|done].
  - apply keeps_invites_ok; [apply keeps_UpdateUserPassword|done].
  - apply keeps_invites_ok; [unfold CreatePAT; keeps_tac|done].
  - apply keeps_invites_ok; [unfold DeletePAT_op; keeps_tac|done].
  - by apply invites_ok_create.
  - by apply invites_ok_regenerate.
  - by apply invites_ok_delete.
Qed.

(** ** Theorems *)

(** C3: Every call of the management API by a user leaves the table of users as it is,
    or its initiator is an unblocked owner or administrator of the account, only
    users of the account change, and they change as [role_change] allows. *)
Theorem user_changes_authorized acc i c (am : AM W) : i ≠ SystemInitiator → keyed (users (store am)) →
  call_ok c (users (store am)) →
  let s := users (store am) in
  let s' := users (store (run acc i c am).2) in
  keyed s' ∧ (s' = s ∨ (administers s acc i ∧ within acc s s' ∧ changes acc s s')).
Proof.
  intros Hi Hk Hok. cbv zeta. destruct (run_refines acc i c am Hi Hk Hok) as [->|[Ha Hc]]; [auto|].
  destruct (changes_facts _ _ _ Hc) as (Hk' & Hw & _). auto.
Qed.

(** A step of the server: a call of the API by a user, an accepted invite, a
    login, or anything that happens outside of the tables. *)
Inductive user_step : AM W → AM W → Prop :=
| step_call acc i c am : i ≠ SystemInitiator → call_ok c (users (store am)) → user_step am (run acc i c am).2
| step_accept rq token pw am :
    (∀ e p n w d w', idp_CreateUserWithPassword e p n w = (Ok d, w') → users (store am) !! ud_ID d = None) →
    user_step am (accept rq token pw am).2
| step_login ua am : user_step am (GetUserFromUserAuth ua am).2
| step_other am evs w : user_step am (mkAM (store am) evs w).

Definition user_inv (am : AM W) : Prop := keyed (users (store am)) ∧ invites_ok (store am).

Lemma user_step_inv am am' : user_step am am' → user_inv am →
  user_inv am' ∧ (∀ acc, one_owner acc (users (store am)) → one_owner acc (users (store am'))).
Proof.
  intros Hst [Hk Hinv]. unfold user_inv. destruct Hst as [acc i c am Hi Hok|rq token pw am Hf|ua am|am evs w].
  - destruct (run_refines acc i c am Hi Hk Hok) as [->|[_ Hc]]; [auto using run_invites|].
    destruct (changes_facts _ _ _ Hc) as (Hk' & _ & Ho). auto using run_invites.
  - assert (invites_ok (store (accept rq token pw am).2)) by auto using invites_ok_accept.
    destruct (AcceptUserInvite_refines rq token pw am Hinv Hf) as [->|(k & inv & _ & _ & _ & Hc)]; [auto|].
    split_and!; eauto using role_change_keyed, role_change_one_owner.
  - assert (invites_ok (store (GetUserFromUserAuth ua am).2)).
    { apply keeps_invites_ok; [|done]. unfold GetUserFromUserAuth. keeps_tac. apply keeps_exec. intros s s'.
      unfold SaveUserLastLogin. repeat case_match; intros; by simplify_eq. }
    destruct (login_refines ua am) as [->|Hc]; [auto|].
    split_and!; eauto using role_change_keyed, role_change_one_owner.
  - auto.
Qed.

(** C9: Whatever calls, accepted invites and logins happen, in any order, an account
    with exactly one owner keeps exactly one owner. *)
Theorem account_keeps_one_owner (am am' : AM W) acc : rtc user_step am am' → user_inv am →
  one_owner acc (users (store am)) → user_inv am' ∧ one_owner acc (users (store am')).
Proof.
  intros Hst. induction Hst as [am|am1 am2 am3 Hst _ IH]; [auto|]. intros Hi Ho.
  destruct (user_step_inv _ _ Hst Hi) as [Hi2 Ho2]. auto.
Qed.

(** *** Personal access tokens *)

Lemma first_row_unique {A : Type} (P : A → bool) (e : Error) (t : gmap bytes A) k (x : A) : t !! k = Some x → P x = true →
  (∀ k' y, t !! k' = Some y → P y = true → y = x) → first_row P e t = Ok x.
Proof.
  intros Hk HP Hu. unfold first_row. assert (x ∈ rows P t) as Hin.
  { unfold rows. rewrite elem_of_lfilter, list_elem_of_fmap. split; [|done].
    exists (k, x). split; [done|]. by apply elem_of_map_to_list. }
  assert (∀ y, y ∈ rows P t → y = x) as Hall. { intros y (Hy & k' & Hk')%rows_elem. eauto. }
  destruct (rows P t) as [|y l]; [by apply elem_of_nil in Hin|]. f_equal. apply Hall. constructor.
Qed.

Lemma pat_target_Ok acc i t (am am' : AM W) x : pat_target acc i t am = (Ok x, am') →
  ∃ iu tu, x = (iu, tu) ∧ users (store am) !! i = Some iu ∧ users (store am) !! t = Some tu ∧ AccountID tu = acc ∧
    (i = t ∨ (HasAdminPower iu = true ∧ IsServiceUser tu = true)) ∧ am' = am.
Proof.
  unfold pat_target. intros Hz. inv_M. apply get_user_Ok in E as [Hi ->]. apply get_user_Ok in E0 as [Ht ->].
  eexists _, _. split_and!; try done; bool_facts; [done|].
  destruct E2; bool_facts; auto.
Qed.

(** What CreatePAT has checked and stored. *)
Lemma CreatePAT_Ok rq acc i t name e plain pat (am am1 : AM W) : i ≠ SystemInitiator →
  CreatePAT rq acc i t name e am = (Ok (plain, pat), am1) →
  may (users (store am)) acc i Pats Create ∧
  ∃ iu tu, users (store am) !! i = Some iu ∧ users (store am) !! t = Some tu ∧ AccountID tu = acc ∧
    (i = t ∨ (HasAdminPower iu = true ∧ IsServiceUser tu = true)) ∧
    (plain, pat) = CreateNewPAT rq name e t (Id iu) ∧ store am1 = SavePAT (store am) pat.
Proof.
  intros Hi. unfold CreatePAT. intros Hz.
  apply bind_Ok in Hz as ([] & am' & E & Hz). apply assert_Ok in E as [_ ->].
  apply bind_Ok in Hz as ([] & am' & E & Hz). apply assert_Ok in E as [_ ->].
  apply bind_Ok in Hz as ([] & am' & E & Hz). apply authorize_Ok in E as [Hm ->]; [|done].
  apply bind_Ok in Hz as (r & am' & E & Hz). apply pat_target_Ok in E as (iu & tu & -> & ? & ? & ? & ? & ->).
  apply bind_Ok in Hz as ([] & am' & E & Hz). unfold update_ in E. injection E as <-.
  apply bind_Ok in Hz as ([] & am'' & E & Hz). unfold StoreEvent in E. injection E as <-.
  unfold mret, M_ret in Hz. cbn [fst snd] in Hz.
  assert ((plain, pat) = CreateNewPAT rq name e t (Id iu)) as En by congruence.
  assert (store am1 = SavePAT (store am) (CreateNewPAT rq name e t (Id iu)).2) as Es.
  { apply (f_equal snd) in Hz. cbn [snd] in Hz. by rewrite <- Hz. }
  split; [done|]. exists iu, tu. rewrite Es, <- En. done.
Qed.

(** C18: A token is created by a user for himself, or by an administrator for a
    service user of the account.  It authenticates as its user until it expires,
    exactly when its checksum needed no padding or the padding is the digit zero. *)
Theorem created_pat_authenticates rq rq' child acc i t name e plain pat kind (am am1 : AM W) :
  i ≠ SystemInitiator → keyed (users (store am)) →
  CreatePAT rq acc i t name e am = (Ok (plain, pat), am1) →
  length (secret rq) = PATSecretLength → padding rq = Byte.x30 ∨ padding rq = Byte.x20 →
  (∀ id p, pats (store am) !! id = Some p → pat_HashedToken p ≠ pat_HashedToken pat) →
  is_Some (accounts (store am) !! acc) → lower kind = str "token" → now rq' ≤ now rq + e * day →
  may (users (store am)) acc i Pats Create ∧
  (∃ iu tu, users (store am) !! i = Some iu ∧ users (store am) !! t = Some tu ∧ AccountID tu = acc ∧
     (i = t ∨ HasAdminPower iu = true ∧ IsServiceUser tu = true)) ∧
  (if decide (padding rq = Byte.x30 ∨ base ^ 5 ≤ crc32 (secret rq)) then
     ∃ ua am2, checkPATFromRequest lower pow_conv rq' child [] [kind; plain] am1 = (Ok ua, am2) ∧
               ua_UserId ua = t ∧ ua_AccountId ua = acc ∧ users (store am2) = users (store am)
   else ∃ err, checkPATFromRequest lower pow_conv rq' child [] [kind; plain] am1 = (Err err, am1)).
Proof.
  intros Hi Hk Hc Hlen Hpad Huniq [row Hrow] Hkind Hexp.
  apply CreatePAT_Ok in Hc as (Hm & iu & tu & Hiu & Htu & Hacc & Hwho & Hnew & Hst); [|done].
  split; [done|]. split; [by exists iu, tu|].
  unfold CreateNewPAT in Hnew. destruct (generateNewToken (padding rq) (secret rq)) as [h p] eqn:Hgen.
  injection Hnew as -> ->. simpl in Huniq.
  pose proof (generated_pat_check pow_conv (padding rq) (secret rq) Hlen) as Hck.
  rewrite Hgen in Hck. cbn [fst snd] in Hck.
  unfold checkPATFromRequest. rewrite bool_decide_true by done. unfold GetPATInfo, extractPATFromToken.
  unfold mbind, M_bind, assert_, lift. rewrite Hck by (destruct Hpad as [->| ->]; [by left|right; by vm_compute]).
  destruct (decide _) as [Hd|Hd]; cbn [omap_err]; [|by eexists].
  unfold query, GetPATByHashedToken. rewrite Hst. set (pat := mkPAT _ _ _ _ _ _ _ _).
  rewrite (first_row_unique _ _ _ (newID rq) pat).
  2: { simpl. apply lookup_insert_eq. }
  2: { by apply bool_decide_true. }
  2: { intros k y. simpl. intros [[_ <-]|[_ Hy]]%lookup_insert_Some Hb; [done|]. bool_facts. exfalso. by apply (Huniq k y). }
  unfold GetUserByPATID, GetAccountDomainAndCategory, GetAccount, exec, MarkPATUsed. simpl.
  rewrite lookup_insert_eq. change (pat_UserID pat) with t. rewrite Htu. unfold mret, M_ret. cbn [fst snd].
  rewrite Hst. simpl. rewrite Hacc, Hrow. simpl.
  unfold GetExpirationDate. simpl. rewrite (proj2 (Z.ltb_ge _ _)) by done. simpl.
  rewrite Hst. simpl. rewrite lookup_insert_eq.
  eexists _, _. split_and!; [done| |done..]. simpl. eauto.
Qed.


(** A request is authenticated by a stored, unexpired token of a present user, and
    acts as that user. *)
Theorem pat_request_sound rq child impersonate parts ua (am am2 : AM W) :
  checkPATFromRequest lower pow_conv rq child impersonate parts am = (Ok ua, am2) →
  ∃ kind token k pat user, parts = [kind; token] ∧ pats (store am) !! k = Some pat ∧
    pat_HashedToken pat = hash_token token ∧ now rq ≤ GetExpirationDate pat ∧
    (∃ p, pats (store am) !! pat_ID pat = Some p ∧ users (store am) !! pat_UserID p = Some user) ∧
    ua_UserId ua = Id user ∧
    (ua_AccountId ua = AccountID user ∨ child (Id user) (AccountID user) (ua_AccountId ua) = true) ∧
    users (store am2) = users (store am).
Proof.
  unfold checkPATFromRequest. destruct parts as [|kind [|token [|]]]; try done. intros Hz.
  apply bind_Ok in Hz as ([] & am' & E & Hz). apply assert_Ok in E as [_ ->].
  apply bind_Ok in Hz as (x & am' & E & Hz).
  apply bind_Ok in E as ([user pat] & am1 & E1 & E). unfold extractPATFromToken in E1.
  apply bind_Ok in E1 as (h & ? & Eh & E1). apply lift_Ok in Eh as [Eh ->].
  apply bind_Ok in E1 as (pat' & ? & Ep & E1). apply query_Ok in Ep as [Ep ->].
  apply bind_Ok in E1 as (user' & ? & Eu & E1). apply query_Ok in Eu as [Eu ->].
  injection E1 as -> -> <-. apply bind_Ok in E as (d & ? & Ed & E). apply query_Ok in Ed as [_ ->].
  injection E as <- <-. destruct d as [dom cat].
  assert (h = hash_token token) as ->.
  { destruct (check_pat pow_conv token) eqn:Hc; simpl in Eh; inv_ok. by eapply check_pat_Ok. }
  apply first_row_Ok in Ep as [Hh [k Hk]]. bool_facts.
  apply bind_Ok in Hz as ([] & ? & Ee & Hz). apply assert_Ok in Ee as [Ee ->]. bool_facts.
  apply bind_Ok in Hz as ([] & am3 & Em & Hz). injection Hz as <- <-. exists kind, token, k, pat, user. simpl in *.
  assert (∃ p, pats (store am) !! pat_ID pat = Some p ∧ users (store am) !! pat_UserID p = Some user) as Huser.
  { unfold GetUserByPATID in Eu. destruct (pats (store am) !! pat_ID pat) as [p|]; [|done]. exists p. split; [done|].
    by destruct (users (store am) !! pat_UserID p); simplify_eq. }
  assert (users (store am3) = users (store am)).
  { eapply (keeps_eq users); [exact Em|]. apply keeps_exec. intros s s'. unfold MarkPATUsed.
    destruct (pats s !! pat_ID pat); intros; by simplify_eq. }
  split_and!; try done; destruct impersonate as [|a [|]]; simpl; auto; destruct (child _ _ a) eqn:Hch; simpl; auto.
Qed.

(** *** Where deletion goes wrong *)

Lemma administers_may s acc i : administers s acc i → may s acc i Users Delete.
Proof.
  intros (u & Hu & Hb & Ha & Hp). exists u. split_and!; try done. left.
  assert (known_op Delete) by (unfold known_op; repeat constructor).
  destruct (HasAdminPower_cases _ Hp) as [-> | ->]; constructor; (done || by left).
Qed.

Lemma authorize_granted acc i m op (am : AM W) : may (users (store am)) acc i m op → authorize acc i m op am = (Ok (), am).
Proof.
  intros Hm. unfold authorize, mbind, M_bind, wrap_err, query, assert_.
  by rewrite (proj2 (ValidateUserPermissions_granted (users (store am)) acc i m op) (or_intror Hm)).
Qed.

Lemma run_bind {A B : Type} (m : M W A) (k : A → M W B) am x am' : m am = (Ok x, am') → (m ≫= k) am = k x am'.
Proof. unfold mbind, M_bind. by intros ->. Qed.

(** DeleteUser does not look at the account of its target: for a service user of
    another account the call succeeds, the user stays, and all its access tokens are
    gone. *)
Theorem delete_user_strips_foreign_tokens acc i t iu tu (am : AM W) :
  keyed (users (store am)) → i ≠ t → administers (users (store am)) acc i →
  users (store am) !! i = Some iu → users (store am) !! t = Some tu → AccountID tu ≠ acc →
  IsServiceUser tu = true → NonDeletable tu = false → Role tu ≠ UserRoleOwner → Issued tu ≠ UserIssuedIntegration →
  let '(r, am') := DeleteUser_op acc i t am in
  r = Ok () ∧ users (store am') = users (store am) ∧
  ∀ k p, pats (store am') !! k = Some p ↔ pats (store am) !! k = Some p ∧ pat_UserID p ≠ t.
Proof.
  intros Hk Hne Ha Hi Ht Hacc Hs Hn Hr His. unfold DeleteUser_op.
  rewrite (run_bind _ _ am () am) by (unfold assert_; by rewrite bool_decide_false).
  rewrite (run_bind _ _ am iu am) by (unfold get_user, query, GetUserByUserID; by rewrite Hi).
  rewrite (run_bind _ _ am () am) by (apply authorize_granted, administers_may, Ha).
  rewrite (run_bind _ _ am tu am) by (unfold get_user, query, GetUserByUserID; by rewrite Ht).
  rewrite (run_bind _ _ am () am) by (unfold lift, may_delete; by rewrite !bool_decide_false).
  rewrite Hs. rewrite (run_bind _ _ am () am) by (unfold assert_; by rewrite Hn).
  unfold deleteServiceUser, mbind, M_bind, update_, StoreEvent. simpl. rewrite (Hk _ _ Ht).
  split; [done|]. split.
  - apply map_filter_id. intros k v Hv [Hva Hvi]. simpl in *. pose proof (Hk _ _ Hv) as E. rewrite Hvi in E. congruence.
  - intros k p. by rewrite map_lookup_filter_Some.
Qed.

Lemma delete_rules_Ok acc u pid rules (am am' : AM W) evs :
  delete_rule_policies acc u pid rules am = (Ok evs, am') →
  NoDup (pr_PolicyID <$> rules) ∧ Forall (λ r, is_Some (policies (store am) !! pr_PolicyID r)) rules.
Proof.
  revert am am' evs. induction rules as [|r rules IH]; intros am am' evs Hz; simpl in *; [split; constructor|].
  apply bind_Ok in Hz as (p & ? & Ep & Hz). apply query_Ok in Ep as [Ep ->].
  assert (is_Some (policies (store am) !! pr_PolicyID r)) as Hr.
  { unfold GetPolicyByID in Ep. destruct (policies (store am) !! pr_PolicyID r); [eauto|done]. }
  apply bind_Ok in Hz as ([] & am1 & Ed & Hz). apply bind_Ok in Hz as (evs' & am2 & Ei & _).
  destruct (IH _ _ _ Ei) as [Hnd Hall].
  assert (policies (store am1) = delete (pr_PolicyID r) (policies (store am))) as Hdel.
  { unfold exec, DeletePolicy in Ed. destruct (policies (store am) !! pr_PolicyID r); [|done].
    case_bool_decide; [|done]. injection Ed as <-. done. }
  rewrite Forall_forall in Hall. split.
  - constructor; [|done]. intros (r' & Er & Hin)%list_elem_of_fmap. destruct (Hall _ Hin) as [q Hq].
    by rewrite Hdel, <- Er, lookup_delete_eq in Hq.
  - constructor; [done|]. apply Forall_forall. intros r' Hin. destruct (Hall _ Hin) as [q Hq]. rewrite Hdel in Hq.
    apply lookup_delete_Some in Hq as [_ ?]. eauto.
Qed.

(** A user cannot be deleted while two rules of one policy name one of its peers:
    the policy is gone after the first rule and looking it up for the second fails. *)
Theorem shared_policy_blocks_deletion acc u p ps (am : AM W) :
  ¬ NoDup (pr_PolicyID <$> GetPolicyRulesByResourceID (store am) (ID p)) →
  ∀ evs am', deletePeers acc u (p :: ps) am ≠ (Ok evs, am').
Proof.
  intros Hnd evs am' Hz. simpl in Hz. apply bind_Ok in Hz as ([] & am1 & E & Hz). unfold update_ in E.
  injection E as <-. apply bind_Ok in Hz as (rules & ? & Er & Hz). apply gets_Ok in Er as [-> ->].
  apply bind_Ok in Hz as (evs' & am2 & Ed & _). by apply delete_rules_Ok in Ed as [? _].
Qed.

End Safety.

(** ** Witnesses *)

(** A server with the embedded identity provider, whose next user gets the id
    [new]. *)
#[local] Instance sample_surroundings : Surroundings unit := {|
  idpManager := EmbeddedIdP false;
  userDeleteFromIDPEnabled := true;
  idp_CreateUser e n _ _ w := (Ok (mkUserData (str "new") e n None []), w);
  idp_CreateUserWithPassword e p n w := (Ok (mkUserData (str "new") e n None p), w);
  idp_GetUserByEmail _ w := (Ok [], w);
  idp_GetUserDataByID id _ w := (Ok (mkUserData id [] [] None []), w);
  idp_DeleteUser _ w := (Ok (), w);
  idp_ClearAppMetadata _ w := (Ok (), w);
  idp_InviteUserByID _ w := (Ok (), w);
  idp_UpdateUserPassword _ _ _ _ w := (Ok (), w);
  lookupUserInCache _ _ w := (Ok None, w);
  lookupUserInCacheByEmail _ _ w := (Ok None, w);
  lookupAccountUsers _ _ w := (Ok [], w);
  refreshCache _ w := (Ok (), w);
  removeUserFromCache _ _ w := (Ok (), w);
  UpdateAccountPeers _ w := w;
  OnPeersUpdated _ _ w := (Ok (), w);
  OnPeersDeleted _ _ w := (Ok (), w);
  DisconnectPeers _ _ w := w;
  PeerDeleted _ _ w := (Ok (), w);
  DecodeDexUserID _ := None
|}.

Definition sample_user (id acc : bytes) (role : UserRole) (service : bool) : User :=
  mkUser id acc role service false [] (Some []) false false None 0 UserIssuedAPI no_integration [] [].

(** Two accounts: a with its owner o and an administrator m, b with a service user. *)
Definition sample_users : UserTable :=
  list_to_map ((λ u, (Id u, u)) <$>
    [sample_user (str "o") (str "a") UserRoleOwner false; sample_user (str "m") (str "a") UserRoleAdmin false;
     sample_user (str "s") (str "b") UserRoleAdmin true]).

Definition sample_pat : PersonalAccessToken := mkPAT (str "p") (str "s") (str "ci") (str "h") (Some 1) (str "s") 0 None.

Definition sample_am : AM unit :=
  mkAM (mkStore sample_users {[ str "p" := sample_pat ]} ∅ ∅ ∅ ∅ ∅
          {[ str "a" := mkAccountRow (str "o") [] [] true true 0 ]}) [] ().

Definition sample_request : Request := mkRequest 0 (str "x") (replicate 30 Byte.x41) Byte.x30.

Definition transfer_call : Call := CallSaveUsers [Some (sample_user (str "m") (str "a") UserRoleOwner false)].

Lemma sample_keyed : keyed sample_users.
Proof.
  intros id u Hu. apply elem_of_list_to_map_2, list_elem_of_fmap in Hu as (v & [= -> ->] & _). done.
Qed.

Lemma sample_administers : administers sample_users (str "a") (str "o").
Proof. eexists. split; [vm_compute; reflexivity|done]. Qed.

Abbreviation eq_bytes := (λ a b : bytes, bool_decide (a = b)).

Definition role_of (am : AM unit) (id : bytes) : option UserRole := Role <$> users (store am) !! id.

(** The owner hands the account over: [m] is the owner afterwards. *)
Example transfer_runs :
  role_of (run id eq_bytes (str "a") (str "o") transfer_call sample_am).2 <$> [str "o"; str "m"; str "s"]
    = [Some UserRoleAdmin; Some UserRoleOwner; Some UserRoleAdmin].
Proof. vm_compute. reflexivity. Qed.

Lemma user_changes_authorized_witness :
  let s := users (store sample_am) in
  let s' := users (store (run id eq_bytes (str "a") (str "o") transfer_call sample_am).2) in
  keyed s' ∧ (s' = s ∨ (administers s (str "a") (str "o") ∧ within (str "a") s s' ∧ changes (str "a") s s')).
Proof. apply user_changes_authorized; [done|apply sample_keyed|done]. Defined.

Lemma sample_one_owner : one_owner (str "a") sample_users.
Proof.
  exists (str "o"). split; [eexists; split; [vm_compute; reflexivity|done]|].
  intros id' u' Hu. apply elem_of_list_to_map_2, list_elem_of_fmap in Hu as (v & [= -> ->] & Hin).
  rewrite !elem_of_cons, elem_of_nil in Hin. destruct_or?; subst; try done.
Qed.

Lemma account_keeps_one_owner_witness :
  let am' := (run id eq_bytes (str "a") (str "o") transfer_call sample_am).2 in
  user_inv id am' ∧ one_owner (str "a") (users (store am')).
Proof.
  apply (account_keeps_one_owner id eq_bytes (λ _, []) (λ _, true) (λ _, true) (λ _, true) (λ _, 0) sample_am).
  - apply rtc_once. apply step_call; done.
  - split; [apply sample_keyed|]. intros k inv Hk. change ((∅ : gmap bytes UserInviteRecord) !! k = Some inv) in Hk. by rewrite lookup_empty in Hk.
  - apply sample_one_owner.
Defined.

Definition created := CreatePAT sample_request (str "a") (str "o") (str "o") (str "ci") 30 sample_am.

(** The token of the owner and the row stored for it. *)
Definition created_pat : bytes * PersonalAccessToken := CreateNewPAT sample_request (str "ci") 30 (str "o") (str "o").

Lemma created_pat_authenticates_witness :
  ∃ ua am2, checkPATFromRequest id (λ _, 0) sample_request (λ _ _ _, false) [] [str "token"; created_pat.1] created.2
              = (Ok ua, am2) ∧ ua_UserId ua = str "o" ∧ ua_AccountId ua = str "a" ∧
            users (store am2) = users (store sample_am).
Proof.
  destruct (created_pat_authenticates id (λ _, 0) sample_request sample_request (λ _ _ _, false) (str "a") (str "o")
              (str "o") (str "ci") 30 created_pat.1 created_pat.2 (str "token") sample_am created.2) as (_ & _ & Hok).
  - done.
  - apply sample_keyed.
  - vm_compute. reflexivity.
  - done.
  - by left.
  - intros k p. change (pats (store sample_am)) with ({[ str "p" := sample_pat ]} : gmap bytes PersonalAccessToken).
    intros [_ <-]%lookup_singleton_Some. vm_compute. discriminate.
  - eexists. vm_compute. reflexivity.
  - done.
  - vm_compute. discriminate.
  - exact Hok.
Defined.

(** The owner's request with the new token. *)
Definition authenticated :=
  checkPATFromRequest id (λ _, 0) sample_request (λ _ _ _, false) [] [str "token"; created_pat.1] created.2.

Lemma pat_request_sound_witness : ∃ k pat, pats (store created.2) !! k = Some pat ∧
  pat_HashedToken pat = hash_token created_pat.1 ∧ now sample_request ≤ GetExpirationDate pat.
Proof.
  destruct (pat_request_sound id (λ _, 0) sample_request (λ _ _ _, false) [] [str "token"; created_pat.1]
              (mkUserAuth (str "a") [] [] (str "o") time_zero false true) created.2 authenticated.2)
    as (kind & token & k & pat & user & Ep & Hk & Hh & Hn & _).
  - vm_compute. reflexivity.
  - exists k, pat. injection Ep as _ <-. exact (conj Hk (conj Hh Hn)).
Defined.

Lemma delete_user_strips_foreign_tokens_witness :
  let '(r, am') := DeleteUser_op (str "a") (str "o") (str "s") sample_am in
  r = Ok () ∧ users (store am') = users (store sample_am) ∧
  ∀ k p, pats (store am') !! k = Some p ↔ pats (store sample_am) !! k = Some p ∧ pat_UserID p ≠ str "s".
Proof.
  apply (delete_user_strips_foreign_tokens (str "a") (str "o") (str "s")
           (sample_user (str "o") (str "a") UserRoleOwner false) (sample_user (str "s") (str "b") UserRoleAdmin true)
           sample_am sample_keyed); try done. apply sample_administers.
Defined.

(** A policy of account a with two rules for the peer [q]. *)
Definition sample_rule (id : bytes) : PolicyRule :=
  mkPolicyRule id (str "pol") [] [] true (str "accept") [] (mkResource (str "q") (str "peer")) [] (mkResource [] [])
    true (str "all") [] [] ∅ [].

Definition sample_meta : PeerSystemMeta :=
  mkMeta [] [] [] [] [] [] [] [] [] [] [] [] [] [] (mkEnvironment [] [])
    (mkFlags false false false false false false false false false false) []
    (mkCertMeta [] [] [] [] [] [] [] [] []).

Definition sample_peer : Peer :=
  mkPeer (str "q") (str "a") [] [] sample_meta (mkProxyMeta false []) [] [] None (str "m") [] false false false None 0
    false (mkLocation [] [] [] 0) [] false.

Definition sample_policies_am : AM unit :=
  mkAM (mkStore sample_users ∅ ∅ ∅ ∅ {[ str "q" := sample_peer ]}
          {[ str "pol" := mkPolicy (str "pol") (str "a") [] [] true [sample_rule (str "r1"); sample_rule (str "r2")] [] ]}
          ∅) [] ().

Lemma shared_policy_blocks_deletion_witness :
  ∀ evs am', deletePeers (str "a") (str "m") [sample_peer] sample_policies_am ≠ (Ok evs, am').
Proof.
  apply shared_policy_blocks_deletion.
  replace (pr_PolicyID <$> _) with [str "pol"; str "pol"] by (vm_compute; reflexivity).
  intros Hnd. apply NoDup_cons_1_1 in Hnd. apply Hnd. constructor.
Defined.
