(* ===== verification/UpdateSign.v ===== *)
(** * Signed updates

    client/internal/updater/reposign: the chain of trust of the client's updates.
    Root keys, embedded in the client, sign bundles of artifact keys and the list of
    revoked keys; artifact keys sign the artifacts.  The signing side (key
    generation, bundles, revocation lists, signatures) and the verifying side up to
    ArtifactVerify.Verify with its downloads are modelled.

    Ed25519, BLAKE2s, PEM and JSON are the operations of a class; [SignLaws] states
    what their documentation promises and the code relies on.  Verifying or signing
    with a key of the wrong size panics, as in crypto/ed25519.  Times are arguments,
    one for each call of [time.Now]. *)

From Stdlib Require Import Strings.Byte Strings.String.
From S2P Require Import Prelude GoStd GoStrings.

Local Open Scope go_scope.
Local Open Scope list_scope.

(** ** key.go *)

Abbreviation KeyID := bytes.

Definition maxClockSkew : Z := 5 * minute.

Definition computeKeyID (pub : bytes) : KeyID := take 8 (sha256 pub).

Inductive signErr :=
| keyIDLength | keyIDHex | pemDecode | pemType | pemTrailing | jsonDecode | jsonEncode | keySize | emptyBundle
| payloadTooLarge | rootExpired | keyExpired | emptyArtifact | noKeysToBundle | signatureFuture | signatureTooOld
| signatureInvalid | allRevoked | signingKeyExpired | signingKeyUnknown | missingLastUpdated | missingExpiresAt
| listFuture | listExpired | listTooLong | listTimestamp | download | artifactRead.

Definition hex_val (b : byte) : option Z :=
  let z := byte_to_Z b in
  if (48 <=? z) && (z <=? 57) then Some (z - 48)
  else if (97 <=? z) && (z <=? 102) then Some (z - 87)
  else if (65 <=? z) && (z <=? 70) then Some (z - 55)
  else None.

(** [hex.DecodeString] *)
Fixpoint hex_decode (s : bytes) : option bytes :=
  match s with
  | [] => Some []
  | [_] => None
  | a :: b :: s =>
      match hex_val a, hex_val b, hex_decode s with
      | Some x, Some y, Some r => Some (Z_to_byte (16 * x + y) :: r)
      | _, _, _ => None
      end
  end.

Definition ParseKeyID (s : bytes) : outcome signErr KeyID :=
  require bool_decide (length s = 16%nat) else keyIDLength;
  match hex_decode s with
  | None => Err keyIDHex
  | Some b => Ok b
  end.

Definition KeyID_String (k : KeyID) : bytes := hex_encode k.

Record KeyMetadata := mkKeyMetadata { km_ID : KeyID; km_CreatedAt : Z; km_ExpiresAt : Z }.

Record PublicKey := mkPublicKey { pk_Key : bytes; pk_Metadata : KeyMetadata }.

Record PrivateKey := mkPrivateKey { sk_Key : bytes; sk_Metadata : KeyMetadata }.

#[global] Instance KeyMetadata_eq_dec : EqDecision KeyMetadata.
Proof. solve_decision. Defined.

#[global] Instance PublicKey_eq_dec : EqDecision PublicKey.
Proof. solve_decision. Defined.

(** ** signature.go and revocation.go *)

Record Signature := mkSignature {
  sig_Signature : bytes;
  sig_Timestamp : Z;
  sig_KeyID : KeyID;
  sig_Algorithm : bytes;
  sig_HashAlgo : bytes
}.

Record RevocationList := mkRevocationList { Revoked : gmap KeyID Z; LastUpdated : Z; rl_ExpiresAt : Z }.

(** What UnmarshalJSON reads before it parses the key ids. *)
Record RawRevocationList := mkRaw { raw_Revoked : list (bytes * Z); raw_LastUpdated : Z; raw_ExpiresAt : Z }.

(** ** The libraries *)

Definition PublicKeySize : nat := 32.

Definition PrivateKeySize : nat := 64.

Class SignLib := {
  ed25519_verify : bytes → bytes → bytes → bool;
  ed25519_sign : bytes → bytes → bytes;
  ed25519_public : bytes → bytes;
  blake2s : bytes → bytes;
  pem_Decode : bytes → option (bytes * bytes * bytes);        (* type, bytes and rest *)
  pem_Encode : bytes → bytes → bytes;
  json_PublicKey : bytes → option PublicKey;
  json_of_PublicKey : PublicKey → option bytes;
  json_PrivateKey : bytes → option PrivateKey;
  json_of_PrivateKey : PrivateKey → option bytes;
  json_Signature : bytes → option Signature;
  json_of_Signature : Signature → option bytes;
  json_Revocation : bytes → option RawRevocationList;
  json_of_Revocation : RawRevocationList → option bytes
}.

Class SignLaws `{SignLib} := {
  verify_sign priv msg : length priv = PrivateKeySize →
    ed25519_verify (ed25519_public priv) msg (ed25519_sign priv msg) = true;
  public_size priv : length priv = PrivateKeySize → length (ed25519_public priv) = PublicKeySize;
  pem_roundtrip ty b rest : pem_Decode (pem_Encode ty b ++ rest) = Some (ty, b, rest);
  pem_shorter d ty b rest : pem_Decode d = Some (ty, b, rest) → (length rest < length d)%nat;
  json_public_roundtrip k b : json_of_PublicKey k = Some b → json_PublicKey b = Some k;
  json_signature_roundtrip s b : json_of_Signature s = Some b → json_Signature b = Some s;
  json_revocation_roundtrip r b : json_of_Revocation r = Some b → json_Revocation b = Some r
}.

Section Sign.
  Context `{SignLib}.

Definition Verify_ed25519 (key msg sig : bytes) : outcome signErr bool :=
  if bool_decide (length key = PublicKeySize) then Ok (ed25519_verify key msg sig) else Panic.

Definition Sign_ed25519 (key msg : bytes) : outcome signErr bytes :=
  if bool_decide (length key = PrivateKeySize) then Ok (ed25519_sign key msg) else Panic.

Definition from_option (e : signErr) {A} (o : option A) : outcome signErr A :=
  match o with Some x => Ok x | None => Err e end.

(** ** Parsing keys *)

Definition tagRootPrivate : bytes := str "ROOT PRIVATE KEY".

Definition tagRootPublic : bytes := str "ROOT PUBLIC KEY".

Definition tagArtifactPrivate : bytes := str "ARTIFACT PRIVATE KEY".

Definition tagArtifactPublic : bytes := str "ARTIFACT PUBLIC KEY".

Definition parsePublicKey (data typeTag : bytes) : outcome signErr (PublicKey * bytes) :=
  let! r := from_option pemDecode (pem_Decode data) in let '(ty, b, rest) := r in
  require bool_decide (ty = typeTag) else pemType;
  let! pub := from_option jsonDecode (json_PublicKey b) in
  require bool_decide (length (pk_Key pub) = PublicKeySize) else keySize;
  Ok (mkPublicKey (pk_Key pub)
        (mkKeyMetadata (computeKeyID (pk_Key pub)) (km_CreatedAt (pk_Metadata pub)) (km_ExpiresAt (pk_Metadata pub))), rest).

(** Every key shortens the bundle, so its length bounds the rounds; running out of
    fuel would show as a panic. *)
Fixpoint parse_keys (fuel : nat) (bundle typeTag : bytes) : outcome signErr (list PublicKey) :=
  if bool_decide (bundle = []) then Ok [] else
  match fuel with
  | O => Panic
  | S fuel =>
      let! r := parsePublicKey bundle typeTag in let '(keyInfo, rest) := r in
      let! keys := parse_keys fuel rest typeTag in
      Ok (keyInfo :: keys)
  end.

Definition parsePublicKeyBundle (bundle typeTag : bytes) : outcome signErr (list PublicKey) :=
  let! keys := parse_keys (length bundle) bundle typeTag in
  require negb (bool_decide (keys = [])) else emptyBundle;
  Ok keys.

Definition parsePrivateKey (data typeTag : bytes) : outcome signErr PrivateKey :=
  let! r := from_option pemDecode (pem_Decode data) in let '(ty, b, rest) := r in
  require bool_decide (rest = []) else pemTrailing;
  require bool_decide (ty = typeTag) else pemType;
  let! pk := from_option jsonDecode (json_PrivateKey b) in
  require bool_decide (length (sk_Key pk) = PrivateKeySize) else keySize;
  Ok pk.

Definition ParseRootKey (privKeyPEM : bytes) : outcome signErr PrivateKey := parsePrivateKey privKeyPEM tagRootPrivate.

Definition ParseArtifactKey (privKeyPEM : bytes) : outcome signErr PrivateKey := parsePrivateKey privKeyPEM tagArtifactPrivate.

Definition ParseRootPublicKey (pubKeyPEM : bytes) : outcome signErr PublicKey :=
  let! r := parsePublicKey pubKeyPEM tagRootPublic in let '(pk, _) := r in Ok pk.

Definition ParseArtifactPubKey (data : bytes) : outcome signErr PublicKey :=
  let! r := parsePublicKey data tagArtifactPublic in let '(pk, _) := r in Ok pk.

Fixpoint verifyAny (publicRootKeys : list PublicKey) (msg sig : bytes) : outcome signErr bool :=
  match publicRootKeys with
  | [] => Ok false
  | k :: ks => let! ok := Verify_ed25519 (pk_Key k) msg sig in if ok then Ok true else verifyAny ks msg sig
  end.

Definition ParseSignature (data : bytes) : outcome signErr Signature := from_option jsonDecode (json_Signature data).

(** ** Messages *)

(** [binary.LittleEndian.AppendUint64] of the conversion to uint64. *)
Fixpoint le_bytes (n : nat) (z : Z) : bytes :=
  match n with O => [] | S n => Z_to_byte z :: le_bytes n (z / 256) end.

Definition AppendUint64 (b : bytes) (v : Z) : bytes := b ++ le_bytes 8 (u64 v).

Definition signatureTimestampSize : Z := 8.

Definition maxInt : Z := 2 ^ 63 - 1.

Definition signatureMessage (data : bytes) (timestamp : Z) : outcome signErr bytes :=
  require negb (maxInt - signatureTimestampSize <? Z.of_nat (length data)) else payloadTooLarge;
  Ok (AppendUint64 data (time_Unix timestamp)).

(** hash, length and timestamp *)
Definition artifact_message (data : bytes) (timestamp : Z) : bytes :=
  AppendUint64 (AppendUint64 (blake2s data) (Z.of_nat (length data))) (time_Unix timestamp).

(** ** Signing *)

(** The time and the key pair of [ed25519.GenerateKey]. *)
Definition new_metadata (now expiration : Z) (priv : bytes) : KeyMetadata :=
  mkKeyMetadata (computeKeyID (ed25519_public priv)) now (now + expiration).

(** The key and the two PEM blocks. *)
Definition GenerateRootKey (now expiration : Z) (priv : bytes) : outcome signErr (PrivateKey * bytes * bytes) :=
  let metadata := new_metadata now expiration priv in
  let rk := mkPrivateKey priv metadata in
  let! privJSON := from_option jsonEncode (json_of_PrivateKey rk) in
  let! pubJSON := from_option jsonEncode (json_of_PublicKey (mkPublicKey (ed25519_public priv) metadata)) in
  Ok (rk, pem_Encode tagRootPrivate privJSON, pem_Encode tagRootPublic pubJSON).

Definition SignArtifactKey (now : Z) (rootKey : PrivateKey) (data : bytes) : outcome signErr bytes :=
  let! msg := signatureMessage data now in
  let! sig := Sign_ed25519 (sk_Key rootKey) msg in
  from_option jsonEncode (json_of_Signature
    (mkSignature sig now (km_ID (sk_Metadata rootKey)) (str "ed25519") (str "sha512"))).

(** [n0], [n1] and [n2] are the three readings of the clock. *)
Definition GenerateArtifactKey (n0 n1 n2 : Z) (rootKey : PrivateKey) (expiration : Z) (priv : bytes) :
    outcome signErr (PrivateKey * bytes * bytes * bytes) :=
  let exp := km_ExpiresAt (sk_Metadata rootKey) in
  require negb (negb (IsZero exp) && (exp <? n0)) else rootExpired;
  let metadata := new_metadata n1 expiration priv in
  let ak := mkPrivateKey priv metadata in
  let! privJSON := from_option jsonEncode (json_of_PrivateKey ak) in
  let! pubJSON := from_option jsonEncode (json_of_PublicKey (mkPublicKey (ed25519_public priv) metadata)) in
  let pubPEM := pem_Encode tagArtifactPublic pubJSON in
  let! signature := SignArtifactKey n2 rootKey pubPEM in
  Ok (ak, pem_Encode tagArtifactPrivate privJSON, pubPEM, signature).

Fixpoint bundle_keys (keys : list PublicKey) : outcome signErr bytes :=
  match keys with
  | [] => Ok []
  | pk :: keys =>
      let! pubJSON := from_option jsonEncode (json_of_PublicKey pk) in
      let! rest := bundle_keys keys in
      Ok (pem_Encode tagArtifactPublic pubJSON ++ rest)
  end.

Definition BundleArtifactKeys (now : Z) (rootKey : PrivateKey) (keys : list PublicKey) : outcome signErr (bytes * bytes) :=
  require negb (bool_decide (keys = [])) else noKeysToBundle;
  let! pubBundle := bundle_keys keys in
  let! signature := SignArtifactKey now rootKey pubBundle in
  Ok (pubBundle, signature).

Definition SignData (now : Z) (artifactKey : PrivateKey) (data : bytes) : outcome signErr bytes :=
  require negb (bool_decide (data = [])) else emptyArtifact;
  let exp := km_ExpiresAt (sk_Metadata artifactKey) in
  require negb (negb (IsZero exp) && (exp <? now)) else keyExpired;
  let! sig := Sign_ed25519 (sk_Key artifactKey) (artifact_message data now) in
  from_option jsonEncode (json_of_Signature
    (mkSignature sig now (km_ID (sk_Metadata artifactKey)) (str "ed25519") (str "blake2s"))).

(** ** Revocation lists *)

Definition marshal_revocation (rl : RevocationList) : outcome signErr bytes :=
  from_option jsonEncode (json_of_Revocation
    (mkRaw ((λ kv, (KeyID_String kv.1, kv.2)) <$> map_to_list (Revoked rl)) (LastUpdated rl) (rl_ExpiresAt rl))).

Fixpoint parse_revoked (l : list (bytes * Z)) (acc : gmap KeyID Z) : outcome signErr (gmap KeyID Z) :=
  match l with
  | [] => Ok acc
  | (k, v) :: l => let! kid := ParseKeyID k in parse_revoked l (<[kid := v]> acc)
  end.

Definition ParseRevocationList (data : bytes) : outcome signErr RevocationList :=
  let! raw := from_option jsonDecode (json_Revocation data) in
  let! revoked := parse_revoked (raw_Revoked raw) ∅ in
  require negb (IsZero (raw_LastUpdated raw)) else missingLastUpdated;
  require negb (IsZero (raw_ExpiresAt raw)) else missingExpiresAt;
  Ok (mkRevocationList revoked (raw_LastUpdated raw) (raw_ExpiresAt raw)).

Definition signRevocationList (now : Z) (privateRootKey : PrivateKey) (rl : RevocationList) : outcome signErr Signature :=
  let! data := marshal_revocation rl in
  let! msg := signatureMessage data now in
  let! sig := Sign_ed25519 (sk_Key privateRootKey) msg in
  Ok (mkSignature sig now (km_ID (sk_Metadata privateRootKey)) (str "ed25519") (str "sha512")).

(** The list and its signature as files; [now'] is the clock of the signature. *)
Definition publish_revocation (now' : Z) (privateRootKey : PrivateKey) (rl : RevocationList) : outcome signErr (bytes * bytes) :=
  let! signature := signRevocationList now' privateRootKey rl in
  let! rlData := marshal_revocation rl in
  let! signData := from_option jsonEncode (json_of_Signature signature) in
  Ok (rlData, signData).

Definition CreateRevocationList (now now' : Z) (privateRootKey : PrivateKey) (expiration : Z) : outcome signErr (bytes * bytes) :=
  publish_revocation now' privateRootKey (mkRevocationList ∅ now (now + expiration)).

Definition ExtendRevocationList (now now' : Z) (privateRootKey : PrivateKey) (rl : RevocationList) (kid : KeyID)
    (expiration : Z) : outcome signErr (bytes * bytes) :=
  publish_revocation now' privateRootKey (mkRevocationList (<[kid := now]> (Revoked rl)) now (now + expiration)).

Definition year : Z := 365 * 24 * hour.

Definition maxRevocationSignatureAge : Z := 10 * year.

Definition ValidateRevocationList (now : Z) (publicRootKeys : list PublicKey) (data : bytes) (signature : Signature) :
    outcome signErr RevocationList :=
  let! revoList := ParseRevocationList data in
  let ts := sig_Timestamp signature in
  require negb (now + maxClockSkew <? ts) else signatureFuture;
  require negb (maxRevocationSignatureAge <? Sub now ts) else signatureTooOld;
  require negb (now + maxClockSkew <? LastUpdated revoList) else listFuture;
  require negb (rl_ExpiresAt revoList <? now) else listExpired;
  require negb (now + maxRevocationSignatureAge <? rl_ExpiresAt revoList) else listTooLong;
  require negb (maxClockSkew <? Z.abs (Sub ts (LastUpdated revoList))) else listTimestamp;
  let msg := AppendUint64 data (time_Unix ts) in
  let! ok := verifyAny publicRootKeys msg (sig_Signature signature) in
  require ok else signatureInvalid;
  Ok revoList.

(** ** artifact.go: validation *)

Definition maxArtifactKeySignatureAge : Z := 10 * year.

Definition maxArtifactSignatureAge : Z := 10 * year.

Definition key_usable (now : Z) (revocationList : option RevocationList) (pubKey : PublicKey) : bool :=
  let exp := km_ExpiresAt (pk_Metadata pubKey) in
  if negb (IsZero exp) && (exp <? now) then false
  else match revocationList with
       | None => true
       | Some rl => match Revoked rl !! km_ID (pk_Metadata pubKey) with Some _ => false | None => true end
       end.

Definition ValidateArtifactKeys (now : Z) (publicRootKeys : list PublicKey) (data : bytes) (signature : Signature)
    (revocationList : option RevocationList) : outcome signErr (list PublicKey) :=
  let ts := sig_Timestamp signature in
  require negb (now + maxClockSkew <? ts) else signatureFuture;
  require negb (maxArtifactKeySignatureAge <? Sub now ts) else signatureTooOld;
  let msg := AppendUint64 data (time_Unix ts) in
  let! ok := verifyAny publicRootKeys msg (sig_Signature signature) in
  require ok else signatureInvalid;
  let! pubKeys := parsePublicKeyBundle data tagArtifactPublic in
  let validKeys := List.filter (key_usable now revocationList) pubKeys in
  require negb (bool_decide (validKeys = [])) else allRevoked;
  Ok validKeys.

(** The loop stops at the first key with the id of the signature. *)
Fixpoint check_artifact (artifactPubKeys : list PublicKey) (msg : bytes) (signature : Signature) : outcome signErr unit :=
  match artifactPubKeys with
  | [] => Err signingKeyUnknown
  | k :: ks =>
      if bool_decide (km_ID (pk_Metadata k) = sig_KeyID signature) then
        let exp := km_ExpiresAt (pk_Metadata k) in
        require negb (negb (IsZero exp) && (exp <? sig_Timestamp signature)) else signingKeyExpired;
        let! ok := Verify_ed25519 (pk_Key k) msg (sig_Signature signature) in
        require ok else signatureInvalid;
        Ok ()
      else check_artifact ks msg signature
  end.

Definition ValidateArtifact (now : Z) (artifactPubKeys : list PublicKey) (data : bytes) (signature : Signature) :
    outcome signErr unit :=
  let ts := sig_Timestamp signature in
  require negb (now + maxClockSkew <? ts) else signatureFuture;
  require negb (maxArtifactSignatureAge <? Sub now ts) else signatureTooOld;
  check_artifact artifactPubKeys (artifact_message data ts) signature.

(** ** verify.go *)

Definition keySizeLimit : nat := Z.to_nat (5 * 1024 * 1024).

Definition signatureLimit : nat := 1024.

Definition revocationLimit : nat := Z.to_nat (10 * 1024 * 1024).

(** What the repository serves: the files of the keys directory and, per version
    and artifact, the signature; the disk holds the artifact. *)
Record Repository := mkRepository {
  revocationFile : option bytes;
  revocationSignFile : option bytes;
  artifactPubKeysFile : option bytes;
  artifactPubKeysSigFile : option bytes;
  artifactSigFile : bytes → bytes → option bytes;
  artifactOnDisk : bytes → option bytes
}.

(** [downloader.DownloadToMemory]: no more than the limit is read. *)
Definition DownloadToMemory (file : option bytes) (limit : nat) : outcome signErr bytes :=
  match file with Some b => Ok (take limit b) | None => Err download end.

Definition loadRevocationList (now : Z) (rootKeys : list PublicKey) (repo : Repository) : outcome signErr RevocationList :=
  let! data := DownloadToMemory (revocationFile repo) revocationLimit in
  let! sigData := DownloadToMemory (revocationSignFile repo) signatureLimit in
  let! signature := ParseSignature sigData in
  ValidateRevocationList now rootKeys data signature.

Definition loadArtifactKeys (now : Z) (rootKeys : list PublicKey) (revocationList : option RevocationList)
    (repo : Repository) : outcome signErr (list PublicKey) :=
  let! data := DownloadToMemory (artifactPubKeysFile repo) keySizeLimit in
  let! sigData := DownloadToMemory (artifactPubKeysSigFile repo) signatureLimit in
  let! signature := ParseSignature sigData in
  ValidateArtifactKeys now rootKeys data signature revocationList.

(** [filepath.Base] on Windows, where slashes of both kinds separate; a volume name right before
    the last element, without a slash, does not occur. *)
Definition is_slash (b : byte) : bool := bool_decide (b = Byte.x2f) || bool_decide (b = Byte.x5c).

Fixpoint drop_while (f : byte → bool) (s : bytes) : bytes :=
  match s with [] => [] | b :: s' => if f b then drop_while f s' else s end.

Fixpoint take_while (f : byte → bool) (s : bytes) : bytes :=
  match s with [] => [] | b :: s' => if f b then b :: take_while f s' else [] end.

Definition filepath_Base (path : bytes) : bytes :=
  if bool_decide (path = []) then str "."
  else match drop_while is_slash (rev path) with
       | [] => [Byte.x5c]
       | p => rev (take_while (λ b, negb (is_slash b)) p)
       end.

Definition loadArtifactSignature (repo : Repository) (version artifact : bytes) : outcome signErr Signature :=
  let! data := DownloadToMemory (artifactSigFile repo version (filepath_Base artifact)) signatureLimit in
  ParseSignature data.

Definition TrimPrefix_v (version : bytes) : bytes :=
  match version with Byte.x76 :: v => v | _ => version end.

(** The clock is read once in each of the three validations. *)
Definition Verify (n1 n2 n3 : Z) (rootKeys : list PublicKey) (repo : Repository) (version artifact : bytes) :
    outcome signErr unit :=
  let version := TrimPrefix_v version in
  let! revocationList := loadRevocationList n1 rootKeys repo in
  let! artifactPubKeys := loadArtifactKeys n2 rootKeys (Some revocationList) repo in
  let! signature := loadArtifactSignature repo version artifact in
  let! artifactData := from_option artifactRead (artifactOnDisk repo artifact) in
  ValidateArtifact n3 artifactPubKeys artifactData signature.

(** The files of the embedded directory. *)
Fixpoint load_files (files : list bytes) : outcome signErr (list PublicKey) :=
  match files with
  | [] => Ok []
  | f :: fs =>
      let! keys := parsePublicKeyBundle f tagRootPublic in
      let! rest := load_files fs in
      Ok (keys ++ rest)
  end.

Definition loadEmbeddedPublicKeys (files : list bytes) : outcome signErr (list PublicKey) :=
  let! allKeys := load_files files in
  require negb (bool_decide (allKeys = [])) else emptyBundle;
  Ok allKeys.

End Sign.

(** ** Hexadecimal key ids *)

Lemma hex_val_digit v : 0 ≤ v < 16 → hex_val (hex_digit v) = Some v.
Proof.
  intros Hv. assert (v ∈ Z.of_nat <$> seq 0 16) as Hin.
  { apply list_elem_of_fmap. exists (Z.to_nat v). split; [lia|]. apply elem_of_seq. lia. }
  revert Hin. simpl. rewrite !elem_of_cons, elem_of_nil. intros. destruct_or?; subst; done.
Qed.

Lemma hex_roundtrip s : hex_decode (hex_encode s) = Some s.
Proof.
  induction s as [|b s IH]; [done|].
  change (hex_encode (b :: s)) with
    (hex_digit (byte_to_Z b / 16) :: hex_digit (byte_to_Z b mod 16) :: hex_encode s).
  cbn [hex_decode]. pose proof (byte_to_Z_range b).
  rewrite (hex_val_digit (byte_to_Z b / 16)) by (split; [apply Z.div_pos|apply Z.div_lt_upper_bound]; lia).
  rewrite (hex_val_digit (byte_to_Z b mod 16)) by (apply Z.mod_pos_bound; lia).
  rewrite IH. rewrite <- (Z_div_mod_eq_full (byte_to_Z b) 16).
  by rewrite Z_to_byte_to_Z.
Qed.

Lemma ParseKeyID_String k : length k = 8%nat → ParseKeyID (KeyID_String k) = Ok k.
Proof.
  intros Hk. unfold ParseKeyID, KeyID_String. rewrite bool_decide_true by (rewrite length_hex_encode; lia).
  by rewrite hex_roundtrip.
Qed.

Lemma parse_revoked_app l acc : Forall (λ kv, length kv.1 = 8%nat) l →
  parse_revoked ((λ kv, (KeyID_String kv.1, kv.2)) <$> l) acc = Ok (foldl (λ m kv, <[kv.1 := kv.2]> m) acc l).
Proof.
  revert acc. induction l as [|[k v] l IH]; intros acc Hl; [done|]. apply Forall_cons in Hl as [Hk Hl].
  cbn -[KeyID_String]. rewrite ParseKeyID_String by done. cbn [obind]. by rewrite IH.
Qed.

Lemma foldl_insert_notin {V} (l : list (KeyID * V)) (acc : gmap KeyID V) k :
  k ∉ l.*1 → foldl (λ m kv, <[kv.1 := kv.2]> m) acc l !! k = acc !! k.
Proof.
  revert acc. induction l as [|[k' v'] l IH]; intros acc Hn; [done|]. simpl in *.
  apply not_elem_of_cons in Hn as [? ?]. rewrite IH by done. by rewrite lookup_insert_ne.
Qed.

Lemma foldl_insert_map_to_list (m : gmap KeyID Z) :
  foldl (λ m kv, <[kv.1 := kv.2]> m) ∅ (map_to_list m) = m.
Proof.
  assert (∀ (l : list (KeyID * Z)) (acc : gmap KeyID Z) k v, NoDup l.*1 → (k, v) ∈ l →
    foldl (λ m kv, <[kv.1 := kv.2]> m) acc l !! k = Some v) as Hin.
  { induction l as [|[k' v'] l IH]; intros acc k v Hnd Hkv; [by apply elem_of_nil in Hkv|]. simpl in *.
    apply NoDup_cons in Hnd as [Hn Hnd]. apply elem_of_cons in Hkv as [[= -> ->]|Hkv].
    - rewrite foldl_insert_notin by done. apply lookup_insert_eq.
    - by apply IH. }
  apply map_eq. intros k. destruct (m !! k) as [v|] eqn:E.
  - apply Hin; [apply NoDup_fst_map_to_list|by apply elem_of_map_to_list].
  - rewrite foldl_insert_notin; [apply lookup_empty|].
    intros ([k' v] & -> & Hkv)%list_elem_of_fmap. apply elem_of_map_to_list in Hkv. simpl in *. congruence.
Qed.

Section Trust.
  Context `{SignLib}.

(** ** Signatures of the roots *)

Definition sized (k : PublicKey) : Prop := length (pk_Key k) = PublicKeySize.

(** One of the root keys has signed the message. *)
Definition root_signed (roots : list PublicKey) (msg sig : bytes) : Prop :=
  ∃ r, r ∈ roots ∧ ed25519_verify (pk_Key r) msg sig = true.

Lemma verifyAny_exact roots msg sig : Forall sized roots →
  ∃ b, verifyAny roots msg sig = Ok b ∧ (b = true ↔ root_signed roots msg sig).
Proof.
  unfold root_signed. induction 1 as [|k ks Hk _ IH]; simpl.
  - exists false. split; [done|]. split; [done|]. by intros (? & ?%elem_of_nil & _).
  - unfold Verify_ed25519. rewrite bool_decide_true by done. simpl.
    destruct (ed25519_verify (pk_Key k) msg sig) eqn:E.
    + exists true. split; [done|]. split; [|done]. intros _. exists k. split; [constructor|done].
    + destruct IH as (b & -> & Hb). exists b. split; [done|]. rewrite Hb. split.
      * intros (r & Hr & ?). exists r. split; [by constructor|done].
      * intros (r & [->|?]%elem_of_cons & ?); [congruence|eauto].
Qed.

(** The expiry and the id of a root key play no part in verification. *)
Lemma verifyAny_keys roots roots' msg sig : pk_Key <$> roots = pk_Key <$> roots' →
  verifyAny roots msg sig = verifyAny roots' msg sig.
Proof.
  revert roots'. induction roots as [|k ks IH]; intros [|k' ks'] E; try done. injection E as E1 E2. simpl.
  by rewrite E1, (IH _ E2).
Qed.

(** ** Parsed keys *)

(** The id of a parsed key is the hash of the key. *)
Definition well_formed (k : PublicKey) : Prop := sized k ∧ km_ID (pk_Metadata k) = computeKeyID (pk_Key k).

Lemma parsePublicKey_Ok data tag k rest : parsePublicKey data tag = Ok (k, rest) → well_formed k.
Proof.
  unfold parsePublicKey. destruct (pem_Decode data) as [[[ty b] r]|]; [|done]. simpl.
  case_bool_decide; [|done]. destruct (json_PublicKey b); [|done]. simpl. case_bool_decide; [|done].
  intros [= <- <-]. done.
Qed.

Lemma parse_keys_Ok fuel bundle tag keys : parse_keys fuel bundle tag = Ok keys → Forall well_formed keys.
Proof.
  revert bundle keys. induction fuel as [|fuel IH]; intros bundle keys; simpl; case_bool_decide; try done;
    try (intros [= <-]; constructor).
  destruct (parsePublicKey bundle tag) as [[k rest]| |] eqn:E; try done. simpl.
  destruct (parse_keys fuel rest tag) as [ks| |] eqn:E'; try done. simpl. intros [= <-].
  constructor; [by eapply parsePublicKey_Ok|eauto].
Qed.

Lemma parsePublicKeyBundle_Ok bundle tag keys : parsePublicKeyBundle bundle tag = Ok keys → Forall well_formed keys.
Proof.
  unfold parsePublicKeyBundle. destruct (parse_keys _ _ _) as [ks| |] eqn:E; try done. simpl.
  destruct (negb _); [|done]. intros [= <-]. by eapply parse_keys_Ok.
Qed.

(** The embedded keys are of the right size. *)
Lemma loadEmbedded_sized files keys : loadEmbeddedPublicKeys files = Ok keys → Forall sized keys.
Proof.
  unfold loadEmbeddedPublicKeys. destruct (load_files files) as [ks| |] eqn:E; try done. simpl.
  destruct (negb _); [|done]. intros [= <-]. revert ks E.
  induction files as [|f fs IH]; simpl; intros ks E; [injection E as <-; constructor|].
  destruct (parsePublicKeyBundle f tagRootPublic) as [ks1| |] eqn:E1; try done. simpl in E.
  destruct (load_files fs) as [ks2| |] eqn:E2; try done. simpl in E. injection E as <-.
  apply Forall_app. split; [|by apply IH].
  eapply Forall_impl; [by eapply parsePublicKeyBundle_Ok|]. by intros k [? _].
Qed.

(** ** What a validation has checked *)

Lemma ValidateRevocationList_Ok now roots data s rl : Forall sized roots →
  ValidateRevocationList now roots data s = Ok rl →
  ParseRevocationList data = Ok rl ∧ now ≤ rl_ExpiresAt rl ∧
  root_signed roots (AppendUint64 data (time_Unix (sig_Timestamp s))) (sig_Signature s).
Proof.
  intros Hr. unfold ValidateRevocationList. destruct (ParseRevocationList data) as [l| |]; try done. cbn [obind].
  intros Hz. repeat match type of Hz with (if ?b then _ else _) = _ => destruct b eqn:?; [|done] end.
  destruct (verifyAny_exact roots (AppendUint64 data (time_Unix (sig_Timestamp s))) (sig_Signature s) Hr)
    as (b & E & Hb). rewrite E in Hz. cbn [obind] in Hz. destruct b; [|done]. injection Hz as <-.
  bool_facts. split_and!; [done|lia|by apply Hb].
Qed.

Lemma ValidateArtifactKeys_Ok now roots data s rl keys : Forall sized roots →
  ValidateArtifactKeys now roots data s rl = Ok keys →
  root_signed roots (AppendUint64 data (time_Unix (sig_Timestamp s))) (sig_Signature s) ∧
  ∃ all, parsePublicKeyBundle data tagArtifactPublic = Ok all ∧ keys = List.filter (key_usable now rl) all.
Proof.
  intros Hr. unfold ValidateArtifactKeys. intros Hz.
  repeat match type of Hz with (if ?b then _ else _) = _ => destruct b eqn:?; [|done] end.
  destruct (verifyAny_exact roots (AppendUint64 data (time_Unix (sig_Timestamp s))) (sig_Signature s) Hr)
    as (b & E & Hb). rewrite E in Hz. cbn [obind] in Hz. destruct b; [|done].
  destruct (parsePublicKeyBundle data tagArtifactPublic) as [all| |]; try done. cbn [obind] in Hz.
  case_match; [|done]. injection Hz as <-. split; [by apply Hb|eauto].
Qed.

Lemma check_artifact_Ok keys msg s : Forall sized keys → check_artifact keys msg s = Ok () →
  ∃ k, k ∈ keys ∧ km_ID (pk_Metadata k) = sig_KeyID s ∧ ed25519_verify (pk_Key k) msg (sig_Signature s) = true ∧
       (km_ExpiresAt (pk_Metadata k) = time_zero ∨ sig_Timestamp s ≤ km_ExpiresAt (pk_Metadata k)).
Proof.
  induction 1 as [|k ks Hk _ IH]; [done|]. cbn [check_artifact]. case_bool_decide as Hid.
  - unfold IsZero. destruct (negb (negb _ && _)) eqn:Hexp; [|done]. unfold Verify_ed25519.
    rewrite bool_decide_true by done. cbn [obind]. destruct (ed25519_verify _ _ _) eqn:E; [|done]. intros _.
    exists k. split_and!; try done; [constructor|]. bool_facts.
    destruct Hexp as [He|He]; bool_facts; [by left|right; lia].
  - intros (k' & ? & ?)%IH. exists k'. split; [by constructor|done].
Qed.

(** ** The chain of trust *)

(** The artifact was signed, no later than the clock tolerates and no longer than ten
    years ago, by an artifact key that is valid: it is in a bundle signed by a root
    key, it has not expired, neither now nor at the time of the signature, its id is
    the hash of the key itself, and the id is not in an unexpired revocation list that
    a root key has signed. *)
Definition trusted (n1 n2 n3 : Z) (roots : list PublicKey) (data : bytes) : Prop :=
  ∃ rlData rlSig rl keysData keysSig allKeys k s,
    (** the revocation list *)
    root_signed roots (AppendUint64 rlData (time_Unix (sig_Timestamp rlSig))) (sig_Signature rlSig) ∧
    ParseRevocationList rlData = Ok rl ∧ n1 ≤ rl_ExpiresAt rl ∧
    (** the key *)
    root_signed roots (AppendUint64 keysData (time_Unix (sig_Timestamp keysSig))) (sig_Signature keysSig) ∧
    parsePublicKeyBundle keysData tagArtifactPublic = Ok allKeys ∧ k ∈ allKeys ∧ well_formed k ∧
    Revoked rl !! km_ID (pk_Metadata k) = None ∧
    (km_ExpiresAt (pk_Metadata k) = time_zero ∨
       (n2 ≤ km_ExpiresAt (pk_Metadata k) ∧ sig_Timestamp s ≤ km_ExpiresAt (pk_Metadata k))) ∧
    (** the artifact *)
    sig_KeyID s = km_ID (pk_Metadata k) ∧
    ed25519_verify (pk_Key k) (artifact_message data (sig_Timestamp s)) (sig_Signature s) = true ∧
    sig_Timestamp s ≤ n3 + maxClockSkew ∧ n3 - sig_Timestamp s ≤ maxArtifactSignatureAge.

Lemma Verify_trusted n1 n2 n3 roots repo version artifact : Forall sized roots →
  Verify n1 n2 n3 roots repo version artifact = Ok () →
  ∃ data, artifactOnDisk repo artifact = Some data ∧ trusted n1 n2 n3 roots data.
Proof.
  intros Hr. unfold Verify, loadRevocationList, loadArtifactKeys, loadArtifactSignature. intros Hz.
  destruct (DownloadToMemory (revocationFile repo) _) as [rlData| |]; try done. cbn [obind] in Hz.
  destruct (DownloadToMemory (revocationSignFile repo) _) as [rlS| |]; try done. cbn [obind] in Hz.
  destruct (ParseSignature rlS) as [rlSig| |]; try done. cbn [obind] in Hz.
  destruct (ValidateRevocationList n1 roots rlData rlSig) as [rl| |] eqn:Erl; try done. cbn [obind] in Hz.
  destruct (DownloadToMemory (artifactPubKeysFile repo) _) as [keysData| |]; try done. cbn [obind] in Hz.
  destruct (DownloadToMemory (artifactPubKeysSigFile repo) _) as [kS| |]; try done. cbn [obind] in Hz.
  destruct (ParseSignature kS) as [keysSig| |]; try done. cbn [obind] in Hz.
  destruct (ValidateArtifactKeys n2 roots keysData keysSig (Some rl)) as [keys| |] eqn:Ek; try done. cbn [obind] in Hz.
  destruct (DownloadToMemory (artifactSigFile repo _ _) _) as [sS| |]; try done. cbn [obind] in Hz.
  destruct (ParseSignature sS) as [s| |]; try done. cbn [obind] in Hz.
  destruct (artifactOnDisk repo artifact) as [data|] eqn:Ed; [|done]. cbn [from_option obind] in Hz.
  apply ValidateRevocationList_Ok in Erl as (Hp & He & Hs); [|done].
  apply ValidateArtifactKeys_Ok in Ek as (Hks & all & Ha & ->); [|done].
  pose proof (parsePublicKeyBundle_Ok _ _ _ Ha) as Hwf. rewrite Forall_forall in Hwf.
  unfold ValidateArtifact in Hz. destruct (negb (n3 + _ <? _)) eqn:E1; [|done].
  destruct (negb (_ <? Sub n3 _)) eqn:E2; [|done]. bool_facts.
  apply check_artifact_Ok in Hz as (k & Hk & Hid & Hv & Hexp).
  2: { apply Forall_forall. intros k [Hk _]%elem_of_lfilter. by apply Hwf. }
  apply elem_of_lfilter in Hk as [Hk Hu]. unfold key_usable in Hu.
  destruct (negb (IsZero _) && _) eqn:Hne; [done|].
  exists data. split; [done|]. exists rlData, rlSig, rl, keysData, keysSig, all, k, s.
  assert (Revoked rl !! km_ID (pk_Metadata k) = None) as Hrev by by destruct (Revoked rl !! _).
  assert (n3 - sig_Timestamp s ≤ maxArtifactSignatureAge).
  { revert E2. unfold Sub, maxArtifactSignatureAge, year, hour, minute, second. lia. }
  split_and!; try done; [by apply Hwf|]. destruct Hexp as [?|?]; [by left|].
  unfold IsZero in Hne. bool_facts. destruct Hne as [Hne|Hne]; bool_facts; [by left|right; lia].
Qed.

(** A verification looks at the root keys, not at their expiry: the metadata of the
    roots is never read. *)
Lemma Verify_roots n1 n2 n3 roots roots' repo version artifact : pk_Key <$> roots = pk_Key <$> roots' →
  Verify n1 n2 n3 roots repo version artifact = Verify n1 n2 n3 roots' repo version artifact.
Proof.
  intros E. assert (∀ msg sig, verifyAny roots msg sig = verifyAny roots' msg sig) as Hv.
  { intros. by apply verifyAny_keys. }
  assert (∀ now d s, ValidateRevocationList now roots d s = ValidateRevocationList now roots' d s) as H1.
  { intros. unfold ValidateRevocationList. by rewrite Hv. }
  assert (∀ now d s r, ValidateArtifactKeys now roots d s r = ValidateArtifactKeys now roots' d s r) as H2.
  { intros. unfold ValidateArtifactKeys. by rewrite Hv. }
  unfold Verify, loadRevocationList, loadArtifactKeys.
  destruct (DownloadToMemory (revocationFile repo) _) as [d| |]; try done. cbn [obind].
  destruct (DownloadToMemory (revocationSignFile repo) _) as [sd| |]; try done. cbn [obind].
  destruct (ParseSignature sd) as [sg| |]; try done. cbn [obind]. rewrite H1.
  destruct (ValidateRevocationList n1 roots' d sg) as [rl| |]; try done. cbn [obind].
  destruct (DownloadToMemory (artifactPubKeysFile repo) _) as [d'| |]; try done. cbn [obind].
  destruct (DownloadToMemory (artifactPubKeysSigFile repo) _) as [sd'| |]; try done. cbn [obind].
  destruct (ParseSignature sd') as [sg'| |]; try done. cbn [obind]. by rewrite H2.
Qed.

(** ** What is signed verifies *)

Context `{!SignLaws}.

Definition public_of (k : PrivateKey) : PublicKey := mkPublicKey (ed25519_public (sk_Key k)) (sk_Metadata k).

(** A private key as the generators make it. *)
Definition private_ok (k : PrivateKey) : Prop :=
  length (sk_Key k) = PrivateKeySize ∧ km_ID (sk_Metadata k) = computeKeyID (ed25519_public (sk_Key k)).

Lemma parse_bundled pk b rest : well_formed pk → json_of_PublicKey pk = Some b →
  parsePublicKey (pem_Encode tagArtifactPublic b ++ rest) tagArtifactPublic = Ok (pk, rest).
Proof.
  intros [Hs Hid] Hb. unfold parsePublicKey. rewrite pem_roundtrip. cbn [from_option obind].
  rewrite bool_decide_true by done. rewrite (json_public_roundtrip _ _ Hb). cbn [from_option obind].
  rewrite bool_decide_true by done. rewrite <- Hid. by destruct pk as [? []].
Qed.

Lemma pem_Encode_nonempty ty b rest : pem_Encode ty b ++ rest ≠ [].
Proof. intros E. pose proof (pem_shorter _ _ _ _ (pem_roundtrip ty b rest)) as Hl. rewrite E in Hl. simpl in Hl. lia. Qed.

(** The bundle that was written is the bundle that is read. *)
Lemma bundle_roundtrip fuel keys bundle : Forall well_formed keys → bundle_keys keys = Ok bundle →
  (length bundle ≤ fuel)%nat → parse_keys fuel bundle tagArtifactPublic = Ok keys.
Proof.
  intros Hk. revert fuel bundle. induction Hk as [|k ks Hwf _ IH]; intros fuel bundle; cbn [bundle_keys].
  { intros [= <-] _. by destruct fuel. }
  destruct (json_of_PublicKey k) as [b|] eqn:Hb; [|done]. cbn [from_option obind].
  destruct (bundle_keys ks) as [rest| |]; try done. cbn [obind]. intros [= <-] Hf.
  pose proof (pem_shorter _ _ _ _ (pem_roundtrip tagArtifactPublic b rest)) as Hl.
  destruct fuel as [|fuel]; [lia|]. cbn [parse_keys]. rewrite bool_decide_false by apply pem_Encode_nonempty.
  rewrite (parse_bundled k) by done. cbn [obind]. rewrite (IH fuel rest) by (done || lia). done.
Qed.

Lemma root_signs roots rk msg : Forall sized roots → private_ok rk → ed25519_public (sk_Key rk) ∈ pk_Key <$> roots →
  verifyAny roots msg (ed25519_sign (sk_Key rk) msg) = Ok true.
Proof.
  intros Hs [Hk _] (r & Hr & Hin)%list_elem_of_fmap.
  destruct (verifyAny_exact roots msg (ed25519_sign (sk_Key rk) msg) Hs) as (b & -> & Hb). f_equal. apply Hb.
  exists r. split; [done|]. rewrite <- Hr. by apply verify_sign.
Qed.

Lemma SignArtifactKey_Ok t rk data out : SignArtifactKey t rk data = Ok out → private_ok rk →
  json_Signature out = Some (mkSignature (ed25519_sign (sk_Key rk) (AppendUint64 data (time_Unix t))) t
    (km_ID (sk_Metadata rk)) (str "ed25519") (str "sha512")).
Proof.
  unfold SignArtifactKey, signatureMessage, Sign_ed25519. intros Hs [Hk _].
  case_match; [|done]. cbn [obind] in Hs. rewrite bool_decide_true in Hs by done. cbn [obind] in Hs.
  destruct (json_of_Signature _) eqn:E; [|done]. injection Hs as <-. by apply json_signature_roundtrip.
Qed.

Lemma publish_revocation_Ok t rk rl out sd : publish_revocation t rk rl = Ok (out, sd) → private_ok rk →
  Forall (λ kv, length kv.1 = 8%nat) (map_to_list (Revoked rl)) →
  LastUpdated rl ≠ time_zero → rl_ExpiresAt rl ≠ time_zero →
  ParseRevocationList out = Ok rl ∧
  json_Signature sd = Some (mkSignature (ed25519_sign (sk_Key rk) (AppendUint64 out (time_Unix t))) t
    (km_ID (sk_Metadata rk)) (str "ed25519") (str "sha512")).
Proof.
  unfold publish_revocation, signRevocationList, signatureMessage, Sign_ed25519. intros Hs [Hk _] Hids Hlu Hexp.
  destruct (marshal_revocation rl) as [d| |] eqn:Em; try done. cbn [obind] in Hs.
  case_match; [|done]. cbn [obind] in Hs. rewrite bool_decide_true in Hs by done. cbn [obind] in Hs.
  destruct (json_of_Signature _) eqn:E; [|done]. injection Hs as <- <-.
  split; [|by apply json_signature_roundtrip].
  unfold marshal_revocation in Em. destruct (json_of_Revocation _) eqn:Er; [|done]. injection Em as <-.
  unfold ParseRevocationList. rewrite (json_revocation_roundtrip _ _ Er). cbn [from_option obind raw_Revoked].
  rewrite parse_revoked_app, foldl_insert_map_to_list by done. cbn [obind raw_LastUpdated raw_ExpiresAt].
  unfold IsZero. rewrite !(proj2 (Z.eqb_neq _ _)) by done. by destruct rl.
Qed.

Lemma check_artifact_signed keys k msg s : NoDup ((λ k, km_ID (pk_Metadata k)) <$> keys) → Forall sized keys →
  k ∈ keys → sig_KeyID s = km_ID (pk_Metadata k) →
  (km_ExpiresAt (pk_Metadata k) = time_zero ∨ sig_Timestamp s ≤ km_ExpiresAt (pk_Metadata k)) →
  ed25519_verify (pk_Key k) msg (sig_Signature s) = true → check_artifact keys msg s = Ok ().
Proof.
  intros Hnd Hs Hk Hid Hexp Hv. induction Hs as [|k' ks Hk' _ IH]; [by apply elem_of_nil in Hk|].
  rewrite fmap_cons in Hnd. apply NoDup_cons in Hnd as [Hn Hnd]. cbn [check_artifact]. case_bool_decide as E.
  - apply elem_of_cons in Hk as [->|Hk].
    2: { exfalso. apply Hn. rewrite E, Hid. by apply (list_elem_of_fmap_2 (λ k, km_ID (pk_Metadata k))). }
    assert (negb (IsZero (km_ExpiresAt (pk_Metadata k'))) && (km_ExpiresAt (pk_Metadata k') <? sig_Timestamp s) = false) as ->.
    { unfold IsZero. destruct Hexp as [->|He]; [by rewrite Z.eqb_refl|].
         rewrite (proj2 (Z.ltb_ge _ _)) by lia. by rewrite andb_false_r. }
    unfold Verify_ed25519. rewrite bool_decide_true by done. cbn [obind]. by rewrite Hv.
  - apply elem_of_cons in Hk as [->|Hk]; [congruence|]. by apply IH.
Qed.

(** The list was published with the root key at [t], and is still good at [n]. *)
Definition list_published (rk : PrivateKey) (rl : RevocationList) (t n : Z) (rlData rlSig : bytes) : Prop :=
  publish_revocation t rk rl = Ok (rlData, rlSig) ∧ Forall (λ kv, length kv.1 = 8%nat) (map_to_list (Revoked rl)) ∧
  LastUpdated rl ≠ time_zero ∧ rl_ExpiresAt rl ≠ time_zero ∧
  t ≤ n ≤ t + maxRevocationSignatureAge ∧ LastUpdated rl ≤ t ≤ LastUpdated rl + maxClockSkew ∧
  n ≤ rl_ExpiresAt rl ≤ n + maxRevocationSignatureAge ∧
  (length rlData ≤ revocationLimit)%nat ∧ (length rlSig ≤ signatureLimit)%nat.

(** The keys were bundled with the root key at [t], and the bundle is good at [n]. *)
Definition keys_published (rk : PrivateKey) (keys : list PublicKey) (t n : Z) (bundle bundleSig : bytes) : Prop :=
  BundleArtifactKeys t rk keys = Ok (bundle, bundleSig) ∧ Forall well_formed keys ∧
  NoDup ((λ k, km_ID (pk_Metadata k)) <$> keys) ∧ t ≤ n ≤ t + maxArtifactKeySignatureAge ∧
  (length bundle ≤ keySizeLimit)%nat ∧ (length bundleSig ≤ signatureLimit)%nat.

Lemma Sub_within n t d : 0 ≤ d < 2 ^ 63 → t ≤ n ≤ t + d → (d <? Sub n t) = false.
Proof. intros. apply Z.ltb_ge. unfold Sub. lia. Qed.

Lemma load_list roots rk rl t n rlData rlSig repo : Forall sized roots → private_ok rk →
  ed25519_public (sk_Key rk) ∈ pk_Key <$> roots → list_published rk rl t n rlData rlSig →
  revocationFile repo = Some rlData → revocationSignFile repo = Some rlSig →
  loadRevocationList n roots repo = Ok rl.
Proof.
  intros Hs Hk Hin (Hp & Hids & Hlu & He & Ht & Hsk & Hx & Hl1 & Hl2) E1 E2.
  destruct (publish_revocation_Ok _ _ _ _ _ Hp Hk Hids Hlu He) as [Hparse Hsig].
  unfold loadRevocationList. rewrite E1, E2. cbn [DownloadToMemory obind]. rewrite !take_ge by done.
  unfold ParseSignature. rewrite Hsig. cbn [from_option obind]. unfold ValidateRevocationList.
  rewrite Hparse. cbn [obind sig_Timestamp sig_Signature].
  assert (0 ≤ maxClockSkew) by done.
  rewrite (proj2 (Z.ltb_ge (n + maxClockSkew) t)), Sub_within by (done || lia).
  rewrite (proj2 (Z.ltb_ge (n + maxClockSkew) (LastUpdated rl))), (proj2 (Z.ltb_ge (rl_ExpiresAt rl) n)),
    (proj2 (Z.ltb_ge (n + maxRevocationSignatureAge) (rl_ExpiresAt rl))) by lia.
  rewrite (proj2 (Z.ltb_ge maxClockSkew _)) by (unfold Sub; lia). cbn [negb].
  by rewrite root_signs.
Qed.

Lemma load_keys roots rk keys rl t n bundle bundleSig repo : Forall sized roots → private_ok rk →
  ed25519_public (sk_Key rk) ∈ pk_Key <$> roots → keys_published rk keys t n bundle bundleSig →
  artifactPubKeysFile repo = Some bundle → artifactPubKeysSigFile repo = Some bundleSig →
  List.filter (key_usable n rl) keys ≠ [] →
  loadArtifactKeys n roots rl repo = Ok (List.filter (key_usable n rl) keys).
Proof.
  intros Hs Hk Hin (Hb & Hwf & _ & Ht & Hl1 & Hl2) E1 E2 Hne. unfold BundleArtifactKeys in Hb.
  destruct (negb _) eqn:Hnil in Hb; [|done]. destruct (bundle_keys keys) as [bd| |] eqn:Ebd; try done. cbn [obind] in Hb.
  destruct (SignArtifactKey t rk bd) as [sd| |] eqn:Esd; try done. injection Hb as <- <-.
  unfold loadArtifactKeys. rewrite E1, E2. cbn [DownloadToMemory obind]. rewrite !take_ge by done.
  unfold ParseSignature. rewrite (SignArtifactKey_Ok _ _ _ _ Esd Hk). cbn [from_option obind]. unfold ValidateArtifactKeys.
  cbn [sig_Timestamp sig_Signature]. assert (0 ≤ maxClockSkew) by done.
  rewrite (proj2 (Z.ltb_ge (n + maxClockSkew) t)), Sub_within by (done || lia). cbn [negb].
  rewrite root_signs by done. cbn [obind]. unfold parsePublicKeyBundle.
  rewrite (bundle_roundtrip _ keys) by done. cbn [obind]. rewrite Hnil. cbn [obind].
  by rewrite bool_decide_false.
Qed.

Lemma lfilter_sublist {A} (f : A → bool) (l : list A) : List.filter f l `sublist_of` l.
Proof. induction l as [|x l IH]; simpl; [constructor|]. destruct (f x); by constructor. Qed.

(** A key that has not expired. *)
Definition unexpired (now : Z) (k : KeyMetadata) : Prop := km_ExpiresAt k = time_zero ∨ now ≤ km_ExpiresAt k.

(** C17: What the tools sign, the client accepts: with an unexpired root key among the
    embedded keys, the revocation list and the bundle published with that root key
    and a signature made with an artifact key of the bundle that is neither revoked
    nor expired, an artifact verifies, as long as the files are within the download
    limits and the times within the tolerances. *)
Theorem signed_update_verifies roots rk ak rl keys data t1 t2 t3 n1 n2 n3 rlData rlSig bundle bundleSig asig repo version
    artifact :
  Forall sized roots → private_ok rk → public_of rk ∈ roots → unexpired n1 (sk_Metadata rk) → unexpired n2 (sk_Metadata rk) →
  list_published rk rl t1 n1 rlData rlSig → keys_published rk keys t2 n2 bundle bundleSig →
  (** the artifact *)
  SignData t3 ak data = Ok asig → private_ok ak → public_of ak ∈ keys →
  Revoked rl !! km_ID (sk_Metadata ak) = None →
  unexpired n2 (sk_Metadata ak) →
  t3 ≤ n3 ≤ t3 + maxArtifactSignatureAge → (length asig ≤ signatureLimit)%nat →
  (** the repository *)
  repo = mkRepository (Some rlData) (Some rlSig) (Some bundle) (Some bundleSig)
    (λ v a, if bool_decide (v = TrimPrefix_v version ∧ a = filepath_Base artifact) then Some asig else None) (λ _, Some data) →
  Verify n1 n2 n3 roots repo version artifact = Ok ().
Proof.
  intros Hs Hk Hroot _ _ Hrl Hkeys Hsd Hak Hpub Hrev Hexp Ht Hlen ->.
  assert (Hin : ed25519_public (sk_Key rk) ∈ pk_Key <$> roots) by (apply list_elem_of_fmap; by exists (public_of rk)).
  assert (key_usable n2 (Some rl) (public_of ak) = true) as Hus.
  { unfold key_usable, IsZero. cbn [public_of pk_Metadata]. rewrite Hrev. destruct Hexp as [->|He]; [by rewrite Z.eqb_refl|].
    rewrite (proj2 (Z.ltb_ge _ _)) by lia. by rewrite andb_false_r. }
  assert (public_of ak ∈ List.filter (key_usable n2 (Some rl)) keys) as Hin' by by apply elem_of_lfilter.
  unfold Verify. rewrite (load_list roots rk rl t1 n1 rlData rlSig) by done. cbn [obind].
  rewrite (load_keys roots rk keys (Some rl) t2 n2 bundle bundleSig); try done.
  2: { intros E. rewrite E in Hin'. by apply elem_of_nil in Hin'. }
  cbn [obind]. unfold loadArtifactSignature. cbn [artifactSigFile artifactOnDisk]. rewrite bool_decide_true by done.
  cbn [DownloadToMemory obind]. rewrite take_ge by done. unfold SignData in Hsd.
  destruct (negb (bool_decide (data = []))) in Hsd; [|done]. destruct (negb (_ && _)) eqn:He3 in Hsd; [|done].
  unfold Sign_ed25519 in Hsd. rewrite bool_decide_true in Hsd by apply Hak. cbn [obind] in Hsd.
  destruct (json_of_Signature _) eqn:Ej; [|done]. injection Hsd as <-.
  unfold ParseSignature. rewrite (json_signature_roundtrip _ _ Ej). cbn [from_option obind].
  unfold ValidateArtifact. cbn [sig_Timestamp]. assert (0 ≤ maxClockSkew) by done.
  rewrite (proj2 (Z.ltb_ge (n3 + maxClockSkew) t3)), Sub_within by (done || lia). cbn [negb].
  destruct Hkeys as (_ & Hwf & Hnd & _).
  apply (check_artifact_signed _ (public_of ak)); try done.
  - eapply sublist_NoDup; [exact Hnd|]. apply fmap_sublist, lfilter_sublist.
  - apply Forall_forall. intros k [Hkin _]%elem_of_lfilter. rewrite Forall_forall in Hwf. by apply Hwf.
  - cbn [sig_Timestamp]. unfold IsZero in He3. bool_facts. destruct He3; bool_facts; auto.
  - by apply verify_sign, Hak.
Qed.

(** ** No input makes the verifier panic *)

Lemma parsePublicKey_rest data tag k rest : parsePublicKey data tag = Ok (k, rest) → (length rest < length data)%nat.
Proof.
  unfold parsePublicKey. destruct (pem_Decode data) as [[[ty b] r]|] eqn:E; [|done]. simpl.
  case_bool_decide; [|done]. destruct (json_PublicKey b); [|done]. simpl. case_bool_decide; [|done].
  intros [= _ <-]. by eapply pem_shorter.
Qed.

Lemma parsePublicKey_total data tag : parsePublicKey data tag ≠ Panic.
Proof.
  unfold parsePublicKey. destruct (pem_Decode data) as [[[ty b] r]|]; [|done]. simpl.
  case_bool_decide; [|done]. destruct (json_PublicKey b); [|done]. simpl. by case_bool_decide.
Qed.

(** The length of the bundle is fuel enough. *)
Lemma parse_keys_total fuel bundle tag : (length bundle ≤ fuel)%nat → parse_keys fuel bundle tag ≠ Panic.
Proof.
  revert bundle. induction fuel as [|fuel IH]; intros bundle Hf; cbn [parse_keys]; case_bool_decide; try done.
  { destruct bundle; [done|]. simpl in Hf. lia. }
  destruct (parsePublicKey bundle tag) as [[k rest]| |] eqn:E; [|done|by apply parsePublicKey_total in E].
  cbn [obind]. apply parsePublicKey_rest in E. specialize (IH rest ltac:(lia)).
  by destruct (parse_keys fuel rest tag).
Qed.

Lemma parsePublicKeyBundle_total bundle tag : parsePublicKeyBundle bundle tag ≠ Panic.
Proof.
  unfold parsePublicKeyBundle. pose proof (parse_keys_total (length bundle) bundle tag ltac:(lia)).
  destruct (parse_keys _ _ _); try done. cbn [obind]. by destruct (negb _).
Qed.

Lemma parse_revoked_total l acc : parse_revoked l acc ≠ Panic.
Proof.
  revert acc. induction l as [|[k v] l IH]; intros acc; [done|]. cbn [parse_revoked]. unfold ParseKeyID.
  case_bool_decide; [|done]. destruct (hex_decode k); [|done]. cbn [obind]. apply IH.
Qed.

Lemma ParseRevocationList_total data : ParseRevocationList data ≠ Panic.
Proof.
  unfold ParseRevocationList. destruct (json_Revocation data); [|done]. cbn [from_option obind].
  pose proof (parse_revoked_total (raw_Revoked r) ∅). destruct (parse_revoked _ _); try done. cbn [obind].
  by repeat case_match.
Qed.

Lemma check_artifact_total keys msg s : Forall sized keys → check_artifact keys msg s ≠ Panic.
Proof.
  induction 1 as [|k ks Hk _ IH]; [done|]. cbn [check_artifact]. case_bool_decide; [|done].
  case_match; [|done]. unfold Verify_ed25519. rewrite bool_decide_true by done. cbn [obind]. by case_match.
Qed.

Lemma loadRevocationList_total now roots repo : Forall sized roots → loadRevocationList now roots repo ≠ Panic.
Proof.
  intros Hs. unfold loadRevocationList, ParseSignature.
  destruct (revocationFile repo) as [d|]; [|done]. destruct (revocationSignFile repo) as [sd|]; [|done].
  cbn [DownloadToMemory obind]. destruct (json_Signature _) as [sg|]; [|done]. cbn [from_option obind].
  unfold ValidateRevocationList. generalize (take revocationLimit d). clear d. intros d.
  pose proof (ParseRevocationList_total d) as Hp. destruct (ParseRevocationList d); try done. cbn [obind].
  destruct (verifyAny_exact roots (AppendUint64 d (time_Unix (sig_Timestamp sg))) (sig_Signature sg) Hs) as (b & -> & _).
  cbn [obind]. by repeat case_match.
Qed.

Lemma loadArtifactKeys_total now roots rl repo : Forall sized roots → loadArtifactKeys now roots rl repo ≠ Panic.
Proof.
  intros Hs. unfold loadArtifactKeys, ParseSignature.
  destruct (artifactPubKeysFile repo) as [d|]; [|done]. destruct (artifactPubKeysSigFile repo) as [sd|]; [|done].
  cbn [DownloadToMemory obind]. destruct (json_Signature _) as [sg|]; [|done]. cbn [from_option obind].
  unfold ValidateArtifactKeys. generalize (take keySizeLimit d). clear d. intros d.
  destruct (verifyAny_exact roots (AppendUint64 d (time_Unix (sig_Timestamp sg))) (sig_Signature sg) Hs) as (b & -> & _).
  cbn [obind]. pose proof (parsePublicKeyBundle_total d tagArtifactPublic) as Hp.
  destruct (parsePublicKeyBundle d _); try (by repeat case_match). cbn [obind]. by repeat case_match.
Qed.

Lemma loadArtifactKeys_sized now roots rl repo keys : Forall sized roots → loadArtifactKeys now roots rl repo = Ok keys →
  ∀ k, k ∈ keys → sized k.
Proof.
  intros Hs. unfold loadArtifactKeys. destruct (DownloadToMemory _ _) as [d| |]; try done. cbn [obind].
  destruct (DownloadToMemory _ _) as [sd| |]; try done. cbn [obind].
  destruct (ParseSignature sd) as [sg| |]; try done. cbn [obind].
  intros (_ & all & Ha & ->)%ValidateArtifactKeys_Ok k [Hk _]%elem_of_lfilter; [|done].
  apply parsePublicKeyBundle_Ok in Ha. rewrite Forall_forall in Ha. by apply Ha.
Qed.

(** C37: Whatever the repository serves, a verification with embedded root keys ends with
    a verdict: no downloaded file makes the verifier panic, which ed25519.Verify
    does on a key of the wrong size, and no bundle keeps its parser running. *)
Theorem verify_never_panics files roots n1 n2 n3 repo version artifact : loadEmbeddedPublicKeys files = Ok roots →
  Verify n1 n2 n3 roots repo version artifact = Ok () ∨ ∃ e, Verify n1 n2 n3 roots repo version artifact = Err e.
Proof.
  intros Hs%loadEmbedded_sized. cut (Verify n1 n2 n3 roots repo version artifact ≠ Panic).
  { destruct (Verify _ _ _ _ _ _ _) as [[]| |]; eauto. done. }
  unfold Verify. pose proof (loadRevocationList_total n1 roots repo Hs).
  destruct (loadRevocationList n1 roots repo) as [rl| |]; try done. cbn [obind].
  pose proof (loadArtifactKeys_total n2 roots (Some rl) repo Hs).
  destruct (loadArtifactKeys n2 roots (Some rl) repo) as [keys| |] eqn:Ek; try done. cbn [obind].
  unfold loadArtifactSignature, ParseSignature. destruct (artifactSigFile _ _ _); [|done]. cbn [DownloadToMemory obind].
  destruct (json_Signature _) as [sg|]; [|done]. cbn [from_option obind].
  destruct (artifactOnDisk repo artifact); [|done]. cbn [from_option obind].
  unfold ValidateArtifact. do 2 (case_match; [|done]). apply check_artifact_total. apply Forall_forall. intros k Hk.
  apply (loadArtifactKeys_sized _ _ _ _ _ Hs Ek). done.
Qed.

End Trust.

(** ** A library that keeps the laws

    The formats write fields one after another, each behind its length in unary; a
    signature is the start of the key and a sum of the message. *)
Module Plain.

Definition put (b : bytes) : bytes := repeat Byte.x01 (length b) ++ Byte.x00 :: b.

Fixpoint unary (s : bytes) : option (nat * bytes) :=
  match s with
  | Byte.x00 :: s => Some (O, s)
  | Byte.x01 :: s => match unary s with Some (n, r) => Some (S n, r) | None => None end
  | _ => None
  end.

Definition get (s : bytes) : option (bytes * bytes) :=
  match unary s with Some (n, r) => Some (take n r, drop n r) | None => None end.

Lemma unary_repeat n r : unary (repeat Byte.x01 n ++ Byte.x00 :: r) = Some (n, r).
Proof. induction n as [|n IH]; [done|]. cbn. by rewrite IH. Qed.

Lemma get_put b rest : get (put b ++ rest) = Some (b, rest).
Proof.
  unfold get, put. rewrite <- app_assoc. cbn [app]. rewrite unary_repeat, take_app_length, drop_app_length. done.
Qed.

Lemma unary_shorter s n r : unary s = Some (n, r) → (length r < length s)%nat.
Proof.
  revert n r. induction s as [|b s IH]; intros n r; [done|]. destruct b; try done; cbn [unary length].
  - intros [= _ <-]. lia.
  - destruct (unary s) as [[n' r']|]; [|done]. intros [= _ <-]. specialize (IH _ _ eq_refl). lia.
Qed.

Lemma get_shorter s b r : get s = Some (b, r) → (length r < length s)%nat.
Proof.
  unfold get. destruct (unary s) as [[n r']|] eqn:E; [|done]. intros [= _ <-]. apply unary_shorter in E.
  rewrite length_drop. lia.
Qed.

Fixpoint put_pos (p : positive) : bytes :=
  match p with xH => [] | xO p => Byte.x00 :: put_pos p | xI p => Byte.x01 :: put_pos p end.

Fixpoint get_pos (s : bytes) : positive :=
  match s with [] => xH | Byte.x00 :: s => xO (get_pos s) | _ :: s => xI (get_pos s) end.

Lemma get_put_pos p : get_pos (put_pos p) = p.
Proof. induction p; simpl; congruence. Qed.

Definition putZ (z : Z) : bytes := put (put_pos (encode z)).

Definition getZ (s : bytes) : option (Z * bytes) :=
  match get s with
  | Some (b, r) => match decode (get_pos b) with Some z => Some (z, r) | None => None end
  | None => None
  end.

Lemma getZ_putZ z rest : getZ (putZ z ++ rest) = Some (z, rest).
Proof. unfold getZ, putZ. by rewrite get_put, get_put_pos, decode_encode. Qed.

(** Fields in their order. *)
Definition put_meta (m : KeyMetadata) : bytes := put (km_ID m) ++ putZ (km_CreatedAt m) ++ putZ (km_ExpiresAt m).

Definition get_meta (s : bytes) : option KeyMetadata :=
  '(i, s) ← get s; '(c, s) ← getZ s; '(e, s) ← getZ s; Some (mkKeyMetadata i c e).

Lemma get_put_meta m : get_meta (put_meta m) = Some m.
Proof.
  unfold get_meta, put_meta. rewrite get_put. cbn. rewrite getZ_putZ. cbn.
  rewrite <- (app_nil_r (putZ (km_ExpiresAt m))), getZ_putZ. by destruct m.
Qed.

Definition get_sig (s : bytes) : option Signature :=
  '(g, s) ← get s; '(t, s) ← getZ s; '(i, s) ← get s; '(a, s) ← get s; '(h, s) ← get s; Some (mkSignature g t i a h).

Definition put_sig (g : Signature) : bytes :=
  put (sig_Signature g) ++ putZ (sig_Timestamp g) ++ put (sig_KeyID g) ++ put (sig_Algorithm g) ++ put (sig_HashAlgo g).

Lemma get_put_sig g : get_sig (put_sig g) = Some g.
Proof.
  unfold get_sig, put_sig. rewrite get_put. cbn. rewrite getZ_putZ. cbn. rewrite get_put. cbn. rewrite get_put. cbn.
  rewrite <- (app_nil_r (put (sig_HashAlgo g))), get_put. by destruct g.
Qed.

(** The revoked keys of a list, as many as the first number says. *)
Fixpoint get_pairs (n : nat) (s : bytes) : option (list (bytes * Z)) :=
  match n with
  | O => Some []
  | S n => '(k, s) ← get s; '(v, s) ← getZ s; l ← get_pairs n s; Some ((k, v) :: l)
  end.

Definition put_pairs (l : list (bytes * Z)) : bytes := concat ((λ kv, put kv.1 ++ putZ kv.2) <$> l).

Lemma get_put_pairs l : get_pairs (length l) (put_pairs l) = Some l.
Proof.
  induction l as [|[k v] l IH]; [done|]. unfold put_pairs in *. cbn [fmap list_fmap concat fst snd length get_pairs].
  rewrite <- app_assoc, get_put. cbn. rewrite getZ_putZ. cbn. unfold put_pairs in IH. cbn in IH. by rewrite IH.
Qed.

Definition put_list (r : RawRevocationList) : bytes :=
  putZ (raw_LastUpdated r) ++ putZ (raw_ExpiresAt r) ++ putZ (Z.of_nat (length (raw_Revoked r))) ++
  put_pairs (raw_Revoked r).

Definition get_list (s : bytes) : option RawRevocationList :=
  '(u, s) ← getZ s; '(e, s) ← getZ s; '(n, s) ← getZ s; l ← get_pairs (Z.to_nat n) s; Some (mkRaw l u e).

Lemma get_put_list r : get_list (put_list r) = Some r.
Proof.
  unfold get_list, put_list. rewrite getZ_putZ. cbn. rewrite getZ_putZ. cbn. rewrite getZ_putZ. cbn.
  rewrite Nat2Z.id, get_put_pairs. by destruct r.
Qed.

Definition sum (s : bytes) : byte := Z_to_byte (foldr (λ b z, byte_to_Z b + z) 0 s).

#[export] Instance lib : SignLib := {
  ed25519_verify key msg sig := bool_decide (sig = take 4 key ++ [sum msg]);
  ed25519_sign priv msg := take 4 priv ++ [sum msg];
  ed25519_public priv := take 32 priv;
  blake2s s := [sum s];
  pem_Decode d := '(ty, d) ← get d; '(b, d) ← get d; Some (ty, b, d);
  pem_Encode ty b := put ty ++ put b;
  json_PublicKey b := '(k, m) ← get b; mkPublicKey k <$> get_meta m;
  json_of_PublicKey k := Some (put (pk_Key k) ++ put_meta (pk_Metadata k));
  json_PrivateKey b := '(k, m) ← get b; mkPrivateKey k <$> get_meta m;
  json_of_PrivateKey k := Some (put (sk_Key k) ++ put_meta (sk_Metadata k));
  json_Signature := get_sig;
  json_of_Signature s := Some (put_sig s);
  json_Revocation := get_list;
  json_of_Revocation r := Some (put_list r)
}.

#[export] Instance laws : SignLaws.
Proof.
  split.
  - intros priv msg Hl. cbn. apply bool_decide_eq_true. by rewrite take_take.
  - intros priv Hl. cbn. rewrite length_take. unfold PrivateKeySize, PublicKeySize in *. lia.
  - intros ty b rest. cbn. rewrite <- app_assoc, get_put. cbn. by rewrite get_put.
  - intros d ty b rest. cbn. destruct (get d) as [[ty' d']|] eqn:E; [|done]. cbn.
    destruct (get d') as [[b' d'']|] eqn:E'; [|done]. cbn. intros [= _ _ <-].
    apply get_shorter in E, E'. lia.
  - intros k b [= <-]. cbn. rewrite get_put. cbn. rewrite get_put_meta. by destruct k.
  - intros s b [= <-]. apply get_put_sig.
  - intros r b [= <-]. apply get_put_list.
Qed.

End Plain.

(** ** A release *)
Module Release.
Import Plain.

Definition rootPriv : bytes := repeat Byte.x11 64.

Definition artPriv : bytes := repeat Byte.x22 64.

Definition rk : PrivateKey := mkPrivateKey rootPriv (new_metadata 0 year rootPriv).

Definition ak : PrivateKey := mkPrivateKey artPriv (new_metadata 0 year artPriv).

Definition data : bytes := str "netbird.msi".

(** The root's own key is in the bundle too, and revoked. *)
Definition rl : RevocationList := mkRevocationList {[ km_ID (sk_Metadata rk) := 5 ]} 10 (10 + year).

Definition rl_files : bytes * bytes := match publish_revocation 20 rk rl with Ok f => f | _ => ([], []) end.

Definition key_files : bytes * bytes :=
  match BundleArtifactKeys 30 rk [public_of rk; public_of ak] with Ok f => f | _ => ([], []) end.

Definition asig : bytes := match SignData 40 ak data with Ok s => s | _ => [] end.

(** The release of a version. *)
Definition repo_of (version : bytes) : Repository :=
  mkRepository (Some rl_files.1) (Some rl_files.2) (Some key_files.1) (Some key_files.2)
    (λ v a, if bool_decide (v = TrimPrefix_v version ∧ a = filepath_Base (str "C:\tmp\netbird.msi")) then Some asig else None) (λ _, Some data).

Definition repo : Repository := repo_of (str "v0.60.0").

Definition repo11 : Repository := repo_of (str "11").

(** A root key that has expired at time 1, and what it signs after that. *)
Definition old_root : PrivateKey := mkPrivateKey rootPriv (new_metadata 0 1 rootPriv).

Definition old_rl_files : bytes * bytes := match publish_revocation 20 old_root rl with Ok f => f | _ => ([], []) end.

Definition old_key_files : bytes * bytes :=
  match BundleArtifactKeys 30 old_root [public_of ak] with Ok f => f | _ => ([], []) end.

Definition old_repo : Repository :=
  mkRepository (Some old_rl_files.1) (Some old_rl_files.2) (Some old_key_files.1) (Some old_key_files.2)
    (artifactSigFile repo) (artifactOnDisk repo).

End Release.

#[local] Existing Instances Plain.lib Plain.laws.

Lemma signed_update_verifies_witness :
  Verify 50 60 70 [public_of Release.rk] Release.repo (str "v0.60.0") (str "C:\tmp\netbird.msi") = Ok ().
Proof.
  assert (∀ n z, (n ≤ 1024)%nat → 1024 ≤ z → (n ≤ Z.to_nat z)%nat) as Hle by (intros; lia).
  apply (signed_update_verifies [public_of Release.rk] Release.rk Release.ak Release.rl
    [public_of Release.rk; public_of Release.ak] Release.data 20 30 40 50 60 70
    Release.rl_files.1 Release.rl_files.2 Release.key_files.1 Release.key_files.2 Release.asig).
  - by repeat constructor.
  - by split.
  - apply list_elem_of_here.
  - by right.
  - by right.
  - unfold list_published. split; [vm_compute; reflexivity|].
    split; [unfold Release.rl; cbn [Revoked]; rewrite map_to_list_singleton; constructor; [vm_compute; reflexivity|constructor]|].
    split_and!; try done; try (apply Hle; [apply Nat.leb_le; vm_compute; reflexivity|done]).
    apply Nat.leb_le. vm_compute. reflexivity.
  - unfold keys_published. split; [vm_compute; reflexivity|]. split; [by repeat constructor|].
    split; [apply (bool_decide_unpack _); vm_compute; reflexivity|].
    split; [done|]. split; [apply Hle; [apply Nat.leb_le; vm_compute; reflexivity|done]|].
    apply Nat.leb_le. vm_compute. reflexivity.
  - vm_compute. reflexivity.
  - by split.
  - apply list_elem_of_further, list_elem_of_here.
  - vm_compute. reflexivity.
  - right. done.
  - done.
  - apply Nat.leb_le. vm_compute. reflexivity.
  - reflexivity.
Defined.

(** Neither the tools nor the client look at the expiry of a root key: the list and
    the bundle that an expired root key signs are accepted. *)
Theorem expired_root_key_accepted :
  let rk := Release.old_root in
  km_ExpiresAt (sk_Metadata rk) = 1 ∧ pk_Metadata (public_of rk) = sk_Metadata rk ∧
  publish_revocation 20 rk Release.rl = Ok Release.old_rl_files ∧
  BundleArtifactKeys 30 rk [public_of Release.ak] = Ok Release.old_key_files ∧
  Verify 50 60 70 [public_of rk] Release.old_repo (str "v0.60.0") (str "C:\tmp\netbird.msi") = Ok ().
Proof. split_and!; vm_compute; reflexivity. Qed.

Lemma verify_never_panics_witness : Verify 50 60 70 [public_of Release.rk] Release.repo (str "v0.60.0") (str "C:\tmp\netbird.msi") = Ok () ∨
  ∃ e, Verify 50 60 70 [public_of Release.rk] Release.repo (str "v0.60.0") (str "C:\tmp\netbird.msi") = Err e.
Proof.
  apply (verify_never_panics [pem_Encode tagRootPublic (default [] (json_of_PublicKey (public_of Release.rk)))]).
  vm_compute. reflexivity.
Defined.
