(* ===== verification/StateManager.v ===== *)
(** * Saved states of the client

    client/internal/statemanager/manager.go keeps what must survive a restart (how
    the host's DNS, routes and firewall looked, the selected routes, a pending update)
    in one JSON file; client/server/state.go lists, cleans up and deletes these
    states on request, and restores what an unclean shutdown has left.

    The states are of the types other packages define: [StateLib] has their JSON
    codecs and their Cleanup.  The file holds raw JSON by name,
    which the manager writes back as encoding/json compacts it.  What the disk does
    on a write is an argument. *)

From Stdlib Require Import Strings.Byte Strings.String.
From S2P Require Import Prelude GoStd GoStrings.

Local Open Scope go_scope.
Local Open Scope list_scope.

Abbreviation StateName := bytes.

(** ** States *)

Class StateLib (S : Type) := {
  stateType : Type;
  unmarshal_state : stateType → bytes → option S;
  marshal_state : S → option bytes;
  Cleanable : S → bool;
  Cleanup : S → bool        (* whether it succeeds *)
}.

Inductive State (S : Type) := Typed (s : S) | RawState (data : bytes).
Arguments Typed {S} s.
Arguments RawState {S} data.

Inductive stateErr :=
| stateNotRegistered | readFile | unmarshalStates | unmarshalOne | marshalStates | writeStates | writeTimeout | stateNotFound
| cleanupFailed | failedPrecondition.

Abbreviation RawStates := (gmap StateName bytes).

Inductive StateFile := NoFile | Unreadable | Corrupted | Saved (raw : RawStates).

(** The end of a write: done, failed, or given up after five seconds, when the
    writing goroutine may still come to its end. *)
Inductive WriteResult := WriteDone | WriteFailed | WriteTimeout (late : bool).

(** ** Raw JSON *)

Inductive jmode := Outside | Inside | Escaped.

Definition json_space (c : byte) : bool := existsb (Byte.eqb c) [x20; x09; x0a; x0d].

(** The characters that are written as escapes. *)
Definition html_escape (c : byte) : option bytes :=
  if Byte.eqb c x3c then Some (str "\u003c")
  else if Byte.eqb c x3e then Some (str "\u003e")
  else if Byte.eqb c x26 then Some (str "\u0026")
  else None.

Definition line_separator (c d e : byte) : option bytes :=
  if Byte.eqb c xe2 && Byte.eqb d x80 then
    if Byte.eqb e xa8 then Some (str "\u2028") else if Byte.eqb e xa9 then Some (str "\u2029") else None
  else None.

Definition next_mode (m : jmode) (c : byte) : jmode :=
  match m with
  | Outside => if Byte.eqb c x22 then Inside else Outside
  | Inside => if Byte.eqb c x22 then Outside else if Byte.eqb c x5c then Escaped else Inside
  | Escaped => Inside
  end.

(** encoding/json on the output of a MarshalJSON, for valid JSON: no space between
    the tokens, and no HTML character or line separator in the strings. *)
Fixpoint compact_from (m : jmode) (l : bytes) : bytes :=
  match l with
  | [] => []
  | c :: l1 =>
      match m with
      | Outside => if json_space c then compact_from Outside l1 else c :: compact_from (next_mode m c) l1
      | Escaped => c :: compact_from Inside l1
      | Inside =>
          match html_escape c, l1 with
          | Some esc, _ => esc ++ compact_from Inside l1
          | None, d :: e :: l3 =>
              match line_separator c d e with
              | Some esc => esc ++ compact_from Inside l3
              | None => c :: compact_from (next_mode m c) l1
              end
          | None, _ => c :: compact_from (next_mode m c) l1
          end
      end
  end.

Definition compact (l : bytes) : bytes := compact_from Outside l.

Section StateManager.
  Context {S : Type} `{StateLib S}.

Record Manager := mkManager {
  states : gmap StateName (option (State S));
  dirty : gset StateName;
  stateTypes : gmap StateName stateType
}.

Definition New : Manager := mkManager ∅ ∅ ∅.

Definition RegisterState (name : StateName) (ty : stateType) (m : Manager) : Manager :=
  mkManager (<[name := None]> (states m)) (dirty m) (<[name := ty]> (stateTypes m)).

(** An absent name is the zero value nil. *)
Definition GetState (name : StateName) (m : Manager) : option (State S) := default None (states m !! name).

Definition setState (name : StateName) (state : option (State S)) (m : Manager) : outcome stateErr Manager :=
  require bool_decide (is_Some (states m !! name)) else stateNotRegistered;
  Ok (mkManager (<[name := state]> (states m)) ({[ name ]} ∪ dirty m) (stateTypes m)).

Definition UpdateState (name : StateName) (s : S) (m : Manager) : outcome stateErr Manager := setState name (Some (Typed s)) m.

Definition DeleteState (name : StateName) (m : Manager) : outcome stateErr Manager := setState name None m.


(** ** The file *)

(** A corrupted file is moved away when the caller says so (a failing rename is only logged). *)
Definition handleCorruptedState (deleteCorrupt : bool) (f : StateFile) : StateFile :=
  if deleteCorrupt then NoFile else f.

Definition loadStateFile (deleteCorrupt : bool) (f : StateFile) : outcome stateErr (option RawStates) * StateFile :=
  match f with
  | NoFile => (Ok None, f)
  | Unreadable => (Err readFile, f)
  | Corrupted => (Err unmarshalStates, handleCorruptedState deleteCorrupt f)
  | Saved raw => (Ok (Some raw), f)
  end.

(** A raw state is written as encoding/json writes the output of its MarshalJSON. *)
Definition marshal_one (s : option (State S)) : option bytes :=
  match s with None => Some (str "null") | Some (RawState d) => Some (compact d) | Some (Typed s) => marshal_state s end.

(** [json.Marshal] of the map; one value that cannot be written fails it. *)
Definition marshalWithPanicRecovery (m : gmap StateName (option (State S))) : option RawStates :=
  if bool_decide (map_Forall (λ _ s, is_Some (marshal_one s)) m) then Some (omap marshal_one m) else None.

Definition PersistState (w : WriteResult) (m : Manager) (f : StateFile) : outcome stateErr unit * Manager * StateFile :=
  if bool_decide (dirty m = ∅) then (Ok (), m, f) else
  match marshalWithPanicRecovery (states m) with
  | None => (Err marshalStates, m, f)
  | Some bs =>
      match w with
      | WriteTimeout late => (Err writeTimeout, m, if late then Saved bs else f)
      | WriteFailed => (Err writeStates, m, f)
      | WriteDone => (Ok (), mkManager (states m) ∅ (stateTypes m), Saved bs)
      end
  end.

Definition DeleteStateByName (stateName : StateName) (m : Manager) (f : StateFile) : outcome stateErr Manager :=
  let! rawStates := (loadStateFile false f).1 in
  match rawStates with
  | None => Ok m
  | Some raw =>
      require bool_decide (is_Some (raw !! stateName)) else stateNotFound;
      Ok (mkManager (<[stateName := None]> (states m)) ({[ stateName ]} ∪ dirty m) (stateTypes m))
  end.

Definition DeleteAllStates (m : Manager) (f : StateFile) : outcome stateErr (nat * Manager) :=
  let! rawStates := (loadStateFile false f).1 in
  match rawStates with
  | None => Ok (0%nat, m)
  | Some raw => Ok (size raw, mkManager (((λ _, None) <$> raw) ∪ states m) (dom raw ∪ dirty m) (stateTypes m))
  end.

Definition loadSingleRawState (name : StateName) (rawState : bytes) (m : Manager) : outcome stateErr (option S) :=
  match stateTypes m !! name with
  | None => Err stateNotRegistered
  | Some ty =>
      if bool_decide (rawState = str "null") then Ok None
      else match unmarshal_state ty rawState with None => Err unmarshalOne | Some s => Ok (Some s) end
  end.

Definition LoadState (name : StateName) (m : Manager) (f : StateFile) : outcome stateErr Manager :=
  let! rawStates := (loadStateFile false f).1 in
  match rawStates ≫= (.!! name) with
  | None => Ok m
  | Some rawState =>
      let! loadedState := loadSingleRawState name rawState m in
      Ok (mkManager (<[name := Typed <$> loadedState]> (states m)) (dirty m) (stateTypes m))
  end.

(** The manager after a clean-up, and the error of one state if any. *)
Definition cleanupSingleState (name : StateName) (rawState : bytes) (m : Manager) : option stateErr * Manager :=
  let set s := mkManager (<[name := s]> (states m)) (dirty m) (stateTypes m) in
  match stateTypes m !! name with
  | None => (None, set (Some (RawState rawState)))
  | Some _ =>
      match loadSingleRawState name rawState m with
      | Ok None => (None, m)
      | Ok (Some s) =>
          if negb (Cleanable s) then (None, set (Some (Typed s)))
          else if negb (Cleanup s) then (Some cleanupFailed, set (Some (Typed s)))
          else (None, mkManager (<[name := None]> (states m)) ({[ name ]} ∪ dirty m) (stateTypes m))
      | Err e => (Some e, m)
      | Panic => (None, m)
      end
  end.

Definition CleanupStateByName (name : StateName) (m : Manager) (f : StateFile) : outcome stateErr unit * Manager :=
  match stateTypes m !! name with
  | None => (Err stateNotRegistered, m)
  | Some _ =>
      match (loadStateFile false f).1 with
      | Ok rawStates =>
          match rawStates ≫= (.!! name) with
          | None => (Ok (), m)
          | Some rawState =>
              let '(e, m) := cleanupSingleState name rawState m in
              (match e with Some e => Err e | None => Ok () end, m)
          end
      | Err e => (Err e, m)
      | Panic => (Panic, m)
      end
  end.

(** The states of the file in some order, with the errors collected. *)
Fixpoint cleanup_all (l : list (StateName * bytes)) (m : Manager) : list stateErr * Manager :=
  match l with
  | [] => ([], m)
  | (name, raw) :: l =>
      let '(e, m) := cleanupSingleState name raw m in
      let '(es, m) := cleanup_all l m in
      (match e with Some e => e :: es | None => es end, m)
  end.

Definition PerformCleanup (m : Manager) (f : StateFile) : list stateErr * Manager * StateFile :=
  match loadStateFile true f with
  | (Ok (Some raw), f) => let '(es, m) := cleanup_all (map_to_list raw) m in (es, m, f)
  | (Ok None, f) => ([], m, f)
  | (Err e, f) => ([e], m, f)
  | (Panic, f) => ([], m, f)
  end.

Definition GetSavedStateNames (f : StateFile) : outcome stateErr (list StateName) :=
  let! rawStates := (loadStateFile false f).1 in
  match rawStates with
  | None => Ok []
  | Some raw => Ok (filter (λ kv, kv.2 ≠ [] ∧ kv.2 ≠ str "null") (map_to_list raw)).*1
  end.

(** ** client/server/state.go *)

(** [registered] are the states that [registerStates] registers on the platform. *)
Fixpoint registerStates (registered : list (StateName * stateType)) (m : Manager) : Manager :=
  match registered with [] => m | (n, ty) :: r => registerStates r (RegisterState n ty m) end.

Definition ListStates (f : StateFile) : outcome stateErr (list StateName) := GetSavedStateNames f.

(** [flushed] is the result of FlushMarkedRoutes, which does not touch the file. *)
Definition restoreResidualState (registered : list (StateName * stateType)) (w : WriteResult) (flushed : option stateErr)
    (f : StateFile) : list stateErr * StateFile :=
  let mgr := registerStates registered New in
  let '(es, mgr, f) := PerformCleanup mgr f in
  let '(r, _, f) := PersistState w mgr f in
  (es ++ match r with Err e => [e] | _ => [] end ++ match flushed with Some e => [e] | None => [] end, f).

Definition CleanState_all (registered : list (StateName * stateType)) (connected : bool) (w : WriteResult)
    (flushed : option stateErr) (f : StateFile) : outcome stateErr nat * StateFile :=
  if connected then (Err failedPrecondition, f) else
  let '(es, f) := restoreResidualState registered w flushed f in
  match es with
  | e :: _ => (Err e, f)
  | [] => (let! names := GetSavedStateNames f in Ok (length names), f)
  end.

Definition CleanState (registered : list (StateName * stateType)) (connected : bool) (name : StateName) (w : WriteResult)
    (f : StateFile) : outcome stateErr nat * StateFile :=
  if connected then (Err failedPrecondition, f) else
  let mgr := registerStates registered New in
  match CleanupStateByName name mgr f with
  | (Ok _, mgr) => let '(r, _, f) := PersistState w mgr f in (let! _ := r in Ok 1%nat, f)
  | (Err e, _) => (Err e, f)
  | (Panic, _) => (Panic, f)
  end.

(** [None] asks for all states. *)
Definition DeleteState_rpc (connected : bool) (name : option StateName) (w : WriteResult) (f : StateFile) :
    outcome stateErr nat * StateFile :=
  if connected then (Err failedPrecondition, f) else
  match (match name with
         | None => DeleteAllStates New f
         | Some name => let! m := DeleteStateByName name New f in Ok (1%nat, m)
         end) with
  | Ok (count, mgr) => let '(r, _, f) := PersistState w mgr f in (let! _ := r in Ok count, f)
  | Err e => (Err e, f)
  | Panic => (Panic, f)
  end.

End StateManager.

(** ** What is kept of raw JSON *)

(** What a value says: the tokens, with these escapes read as the characters they
    stand for. *)
Definition unescape (s : bytes) : option bytes :=
  if bool_decide (s = str "u003c") then Some [x3c]
  else if bool_decide (s = str "u003e") then Some [x3e]
  else if bool_decide (s = str "u0026") then Some [x26]
  else if bool_decide (s = str "u2028") then Some [xe2; x80; xa8]
  else if bool_decide (s = str "u2029") then Some [xe2; x80; xa9]
  else None.

Fixpoint content_from (m : jmode) (skip : nat) (l : bytes) : bytes :=
  match l with
  | [] => []
  | c :: l1 =>
      match skip, m with
      | S skip, _ => content_from m skip l1
      | O, Outside => if json_space c then content_from Outside 0 l1 else c :: content_from (next_mode m c) 0 l1
      | O, Escaped => c :: content_from Inside 0 l1
      | O, Inside =>
          match unescape (take 5 l1) with
          | Some s => if Byte.eqb c x5c then s ++ content_from Inside 5 l1 else c :: content_from (next_mode m c) 0 l1
          | None => c :: content_from (next_mode m c) 0 l1
          end
      end
  end.

Definition content (l : bytes) : bytes := content_from Outside 0 l.

Definition plain (b : byte) : Prop := html_escape b = None ∧ b ≠ x5c ∧ b ≠ x22 ∧ b ≠ xe2.

Lemma plain_step b l : plain b → compact_from Inside (b :: l) = b :: compact_from Inside l.
Proof.
  intros (H1 & H2 & H3 & H4). cbn [compact_from]. rewrite H1.
  assert (next_mode Inside b = Inside) as ->.
  { unfold next_mode. destruct (Byte.eqb b x22) eqn:E; [by apply Byte.byte_dec_bl in E|].
    destruct (Byte.eqb b x5c) eqn:E'; [by apply Byte.byte_dec_bl in E'|done]. }
  destruct l as [|d [|e l]]; [done..|]. unfold line_separator.
  destruct (Byte.eqb b xe2) eqn:E; [by apply Byte.byte_dec_bl in E|]. done.
Qed.

Lemma plain_app p l : Forall plain p → compact_from Inside (p ++ l) = p ++ compact_from Inside l.
Proof. induction 1 as [|b p Hb _ IH]; [done|]. simpl app. by rewrite plain_step, IH. Qed.

(** A plain byte of the output comes from the input. *)
Lemma plain_inv b l x : plain b → compact_from Inside l = b :: x → ∃ l', l = b :: l' ∧ compact_from Inside l' = x.
Proof.
  intros Hb. destruct l as [|c l1]; [done|]. intros E. assert (c = b) as ->.
  { destruct Hb as (_ & Hb & _). cbn [compact_from] in E. destruct (html_escape c) as [esc|] eqn:Eh.
    - unfold html_escape in Eh. repeat case_match; simplify_eq; cbn in E; congruence.
    - destruct l1 as [|d [|e l3]]; [congruence..|]. destruct (line_separator c d e) as [esc|] eqn:El; [|congruence].
      unfold line_separator in El. repeat case_match; simplify_eq; cbn in E; congruence. }
  exists l1. split; [done|]. rewrite plain_step in E by done. congruence.
Qed.

Lemma plain_app_inv p l x : Forall plain p → compact_from Inside l = p ++ x → ∃ l', l = p ++ l' ∧ compact_from Inside l' = x.
Proof.
  intros Hp. revert l. induction Hp as [|b p Hb _ IH]; intros l E; [by exists l|].
  apply plain_inv in E as (l' & -> & E); [|done]. apply IH in E as (l'' & -> & E). by exists l''.
Qed.

Lemma unescape_plain s x : unescape s = Some x → ∃ p, s = x75 :: p ∧ Forall plain p ∧ length p = 4%nat.
Proof.
  unfold unescape. repeat case_match; try done; intros _;
    match goal with H : bool_decide (_ = _) = true |- _ => apply bool_decide_eq_true in H as -> end;
    eexists; (split; [reflexivity|split; [|reflexivity]]); repeat constructor; done.
Qed.

(** An escape of the input is one of the output and conversely. *)
Lemma unescape_compact l : unescape (take 5 (compact_from Escaped l)) = unescape (take 5 l).
Proof.
  destruct l as [|c l]; [done|]. cbn [compact_from]. destruct (unescape (take 5 (c :: l))) as [x|] eqn:E.
  - destruct (unescape_plain _ _ E) as (p & Ep & Hp & Hl). cbn [take] in E, Ep. injection Ep as -> Ep.
    rewrite <- (take_drop 4 l), Ep, plain_app by done. cbn [take]. rewrite take_app_length' by done. by rewrite <- Ep.
  - destruct (unescape (take 5 (c :: compact_from Inside l))) as [y|] eqn:E'; [|done].
    destruct (unescape_plain _ _ E') as (p & Ep & Hp & Hl). cbn [take] in E', Ep. injection Ep as -> Ep.
    destruct (plain_app_inv p l (drop 4 (compact_from Inside l)) Hp) as (l' & -> & _); [by rewrite <- Ep, take_drop|].
    rewrite Ep in E'. cbn [take] in E. rewrite take_app_length' in E by done. congruence.
Qed.

Lemma content_skip m p l : content_from m (length p) (p ++ l) = content_from m 0 l.
Proof. induction p as [|b p IH]; [done|]. exact IH. Qed.

Lemma content_escape esc s l : esc = x5c :: take 5 (drop 1 esc) → unescape (drop 1 esc) = Some s →
  content_from Inside 0 (esc ++ l) = s ++ content_from Inside 0 l.
Proof.
  intros -> Hs. simpl drop in *. destruct (unescape_plain _ _ Hs) as (p & Ep & _ & Hl). rewrite drop_0 in *.
  set (q := take 5 (drop 1 esc)) in *. assert (Hq : length q = 5%nat) by (rewrite Ep; simpl; lia).
  change ((x5c :: q) ++ l) with (x5c :: (q ++ l)). cbn [content_from]. rewrite take_app_length' by done. rewrite Hs. cbn [Byte.eqb].
  f_equal. rewrite <- Hq. apply content_skip.
Qed.

Lemma content_byte c l : c ≠ x5c → content_from Inside 0 (c :: l) = c :: content_from (next_mode Inside c) 0 l.
Proof.
  intros Hc. cbn [content_from]. destruct (Byte.eqb c x5c) eqn:E; [by apply Byte.byte_dec_bl in E|]. by destruct (unescape _).
Qed.

(** What follows a backslash. *)
Lemma content_backslash l :
  (∀ l', (length l' ≤ length l)%nat → content_from Inside 0 (compact_from Inside l') = content_from Inside 0 l') →
  content_from Escaped 0 (compact_from Escaped l) = content_from Escaped 0 l →
  content_from Inside 0 (x5c :: compact_from Escaped l) = content_from Inside 0 (x5c :: l).
Proof.
  intros IH He. cbn [content_from]. rewrite unescape_compact. destruct (unescape (take 5 l)) as [s|] eqn:Es; cbn [Byte.eqb].
  - f_equal. destruct (unescape_plain _ _ Es) as (p & Ep & Hp & Hl).
    assert (El : l = x75 :: p ++ drop 5 l) by (rewrite <- (take_drop 5 l) at 1; by rewrite Ep).
    rewrite El. cbn [compact_from]. rewrite plain_app by done. cbn [content_from]. rewrite <- Hl, !content_skip.
    apply IH. rewrite length_drop. lia.
  - f_equal. exact He.
Qed.

(** Compacting changes the bytes and not what they say. *)
Lemma compact_content_from n m l : (length l ≤ n)%nat → content_from m 0 (compact_from m l) = content_from m 0 l.
Proof.
  revert m l. induction n as [|n IH]; intros m [|c l] Hn; try done; simpl in Hn; [lia|].
  destruct m; cbn [compact_from].
  - destruct (json_space c) eqn:E; cbn [content_from]; rewrite E; [apply IH; lia|]. f_equal. apply IH. lia.
  - assert (Hkeep : content_from Inside 0 (c :: compact_from (next_mode Inside c) l) = content_from Inside 0 (c :: l)).
    { destruct (decide (c = x5c)) as [->|Hc]; [|rewrite !content_byte, IH; done || lia].
      apply content_backslash; [intros l' Hl'|]; apply IH; lia. }
    destruct (html_escape c) as [esc|] eqn:Eh.
    { unfold html_escape in Eh. repeat case_match; simplify_eq;
        match goal with H : Byte.eqb _ _ = true |- _ => apply Byte.byte_dec_bl in H as -> end;
        erewrite content_escape by reflexivity; rewrite content_byte, IH; done || lia. }
    destruct l as [|d [|e l]]; [done..|]. destruct (line_separator c d e) as [esc|] eqn:El; [|done].
    unfold line_separator in El. destruct (Byte.eqb c xe2) eqn:E1; [|done]. destruct (Byte.eqb d x80) eqn:E2; [|done].
    apply Byte.byte_dec_bl in E1 as ->, E2 as ->. simpl in Hn. repeat case_match; simplify_eq;
      match goal with H : Byte.eqb _ _ = true |- _ => apply Byte.byte_dec_bl in H as -> end;
      erewrite content_escape by reflexivity; rewrite !content_byte, IH; done || lia.
  - cbn [content_from]. f_equal. apply IH. lia.
Qed.

Lemma compact_content l : content (compact l) = content l.
Proof. by eapply compact_content_from. Qed.

(** ** Restoring after an unclean shutdown *)

Section Restore.
  Context {S : Type} `{StateLib S}.

(** The clean-up of a state has succeeded. *)
Definition cleans (types : gmap StateName stateType) (name : StateName) (raw : bytes) : bool :=
  match types !! name with
  | None => false
  | Some ty => match (if bool_decide (raw = str "null") then None else unmarshal_state ty raw) with
               | Some s => Cleanable s && Cleanup s
               | None => false
               end
  end.

(** What is left of a state of the file. *)
Definition remains (types : gmap StateName stateType) (name : StateName) (raw : bytes) : option (State S) :=
  match types !! name with
  | None => Some (RawState raw)
  | Some ty => match (if bool_decide (raw = str "null") then None else unmarshal_state ty raw) with
               | Some s => if Cleanable s && Cleanup s then None else Some (Typed s)
               | None => None
               end
  end.

Lemma cleanupSingleState_spec name raw m e m' :
  states m !! name = (if decide (is_Some (stateTypes m !! name)) then Some None else None) →
  cleanupSingleState name raw m = (e, m') →
  stateTypes m' = stateTypes m ∧ states m' = <[name := remains (stateTypes m) name raw]> (states m) ∧
  dirty m' = (if cleans (stateTypes m) name raw then {[ name ]} else ∅) ∪ dirty m.
Proof.
  intros Hn. unfold cleanupSingleState, loadSingleRawState, remains, cleans.
  destruct (stateTypes m !! name) as [ty|] eqn:Hty.
  2: { intros [= <- <-]. simpl. split_and!; [done|done|set_solver]. }
  rewrite decide_True in Hn by eauto.
  assert (states m = <[name := None]> (states m)) as Hsame by (symmetry; by apply insert_id).
  case_bool_decide; [intros [= <- <-]; split_and!; [done|done|set_solver]|].
  destruct (unmarshal_state ty raw) as [s|]; [|intros [= <- <-]; split_and!; [done|done|set_solver]].
  destruct (Cleanable s), (Cleanup s); simpl; intros [= <- <-]; simpl; split_and!; done || set_solver.
Qed.

Lemma cleanup_all_spec l m es m' : NoDup l.*1 →
  (∀ n, n ∈ l.*1 → states m !! n = (if decide (is_Some (stateTypes m !! n)) then Some None else None)) →
  cleanup_all l m = (es, m') →
  stateTypes m' = stateTypes m ∧
  (∀ n, states m' !! n = match (list_to_map l : gmap StateName bytes) !! n with
                         | Some raw => Some (remains (stateTypes m) n raw)
                         | None => states m !! n
                         end) ∧
  (dirty m' = dirty m ∨ ∃ n raw, (n, raw) ∈ l ∧ cleans (stateTypes m) n raw = true) ∧
  (∀ n raw, (n, raw) ∈ l → cleans (stateTypes m) n raw = true → n ∈ dirty m') ∧ dirty m ⊆ dirty m'.
Proof.
  revert m es m'. induction l as [|[name raw] l IH]; intros m es m' Hnd Hin; cbn [cleanup_all].
  { intros [= <- <-]. split_and!; try done; [by left|]. by intros n raw Hn%elem_of_nil. }
  rewrite fmap_cons in Hnd. apply NoDup_cons in Hnd as [Hn Hnd]. cbn [fst] in Hn.
  destruct (cleanupSingleState name raw m) as [e m1] eqn:E.
  apply cleanupSingleState_spec in E as (Ht & Hs & Hd); [|apply Hin; apply list_elem_of_here].
  destruct (cleanup_all l m1) as [es1 m2] eqn:E2.
  apply IH in E2 as (Ht2 & Hs2 & Hd2 & Hd3 & Hd4); [|done|].
  2: { intros n Hnl. rewrite Hs, Ht. rewrite lookup_insert_ne by (intros ->; done).
       apply Hin. rewrite fmap_cons. by right. }
  intros [= _ <-]. rewrite Ht in *. split_and!; [congruence|..].
  - intros n. rewrite Hs2, Hs. cbn [list_to_map foldr fst snd]. simpl. destruct (decide (n = name)) as [->|Hne].
    + rewrite lookup_insert_eq, lookup_insert_eq. rewrite (proj1 (not_elem_of_list_to_map _ _) Hn). done.
    + rewrite !lookup_insert_ne by done. done.
  - destruct (cleans (stateTypes m) name raw) eqn:Hc.
    + right. exists name, raw. split; [apply list_elem_of_here|done].
    + destruct Hd2 as [Hd2|(n & r & ? & ?)]; [left; rewrite Hd2, Hd; set_solver|].
      right. exists n, r. split; [by right|done].
  - intros n r [[= -> ->]|Hnr]%elem_of_cons Hc; [|by eapply Hd3].
    apply Hd4. rewrite Hd, Hc. set_solver.
  - rewrite Hd in Hd4. set_solver.
Qed.

Lemma registerStates_spec reg m : (∀ n, states m !! n = (if decide (is_Some (stateTypes m !! n)) then Some None else None)) →
  (∀ n, states (registerStates reg m) !! n =
        (if decide (is_Some (stateTypes (registerStates reg m) !! n)) then Some None else None)) ∧
  dirty (registerStates reg m) = dirty m.
Proof.
  revert m. induction reg as [|[n0 ty] reg IH]; intros m Hm; [done|]. cbn [registerStates].
  destruct (IH (RegisterState n0 ty m)) as [IH1 IH2]; [|split; [exact IH1|by rewrite IH2]].
  intros n. cbn [RegisterState states stateTypes]. destruct (decide (n = n0)) as [->|Hne].
  - rewrite !lookup_insert_eq. by rewrite decide_True by eauto.
  - rewrite !lookup_insert_ne by done. apply Hm.
Qed.

(** The manager that [restoreResidualState] persists. *)
Lemma PerformCleanup_spec reg raw es m f : PerformCleanup (registerStates reg New) (Saved raw) = (es, m, f) →
  f = Saved raw ∧ stateTypes m = stateTypes (registerStates reg New) ∧
  (∀ n r, raw !! n = Some r → states m !! n = Some (remains (stateTypes m) n r)) ∧
  (dirty m ≠ ∅ → ∃ n r, raw !! n = Some r ∧ cleans (stateTypes m) n r = true) ∧
  (∀ n r, raw !! n = Some r → cleans (stateTypes m) n r = true → n ∈ dirty m).
Proof.
  destruct (registerStates_spec reg New) as [Hst Hd].
  { intros n. cbn [New states stateTypes]. rewrite !lookup_empty. rewrite decide_False; [done|]. by intros [? ?]. }
  unfold PerformCleanup. cbn [loadStateFile]. destruct (cleanup_all _ _) as [es' m'] eqn:E.
  apply cleanup_all_spec in E as (Ht & Hs & Hd1 & Hd2 & _); [|apply NoDup_fst_map_to_list|intros; apply Hst].
  intros [= <- <- <-]. rewrite Ht. split_and!; try done.
  - intros n r Hn. by rewrite Hs, list_to_map_to_list, Hn.
  - intros Hne. destruct Hd1 as [E|(n & r & Hnr & Hc)]; [rewrite E, Hd in Hne; done|].
    exists n, r. by apply elem_of_map_to_list in Hnr.
  - intros n r Hn. apply Hd2. by apply elem_of_map_to_list.
Qed.

Lemma PersistState_file w m f r m' f' : PersistState w m f = (r, m', f') →
  (f' = f ∧ (w = WriteDone → dirty m ≠ ∅ → ∃ e, r = Err e)) ∨
  (dirty m ≠ ∅ ∧ ∃ bs, f' = Saved bs ∧ ∀ n s, states m !! n = Some s → ∃ b, marshal_one s = Some b ∧ bs !! n = Some b).
Proof.
  unfold PersistState. case_bool_decide as Hd; [intros [= <- <- <-]; by left|].
  unfold marshalWithPanicRecovery. case_bool_decide as Hall; [|intros [= <- <- <-]; left; eauto].
  assert (∀ n s, states m !! n = Some s → ∃ b, marshal_one s = Some b ∧ omap marshal_one (states m) !! n = Some b) as Hb.
  { intros n s Hn. destruct (Hall n s Hn) as [b Hb]. exists b. split; [done|]. by rewrite lookup_omap, Hn. }
  destruct w as [| |[]]; intros [= <- <- <-]; eauto 10.
Qed.


(** ** A state is read back as it was saved *)

(** What one run of the client saves, the next one loads, if the JSON of the state is
    read as the state and is not null. *)
Theorem saved_state_roundtrip name ty (s : S) m m1 m2 m3 f f1 :
  (∀ b, marshal_state s = Some b → b ≠ str "null" ∧ unmarshal_state ty b = Some s) →
  UpdateState name s m = Ok m1 → PersistState WriteDone m1 f = (Ok (), m2, f1) →
  LoadState name (RegisterState name ty m3) f1 = Ok (mkManager (<[name := Some (Typed s)]> (states m3)) (dirty m3) (<[name := ty]> (stateTypes m3))).
Proof.
  intros Hty Hu Hp. unfold UpdateState, setState in Hu. case_bool_decide; [|done]. injection Hu as <-.
  apply PersistState_file in Hp as [[-> Herr]|(_ & bs & -> & Hbs)].
  { destruct Herr as [e He]; [done| |done]. simpl. intros E. apply (not_elem_of_empty (C := gset StateName) name). set_solver. }
  destruct (Hbs name (Some (Typed s))) as (b & Hm & Hb); [apply lookup_insert_eq|]. simpl in Hm.
  unfold LoadState. cbn [loadStateFile fst obind mbind option_bind]. rewrite Hb.
  unfold loadSingleRawState. cbn [RegisterState stateTypes states dirty]. rewrite lookup_insert_eq.
  destruct (Hty b Hm) as [Hnull Hu]. rewrite bool_decide_false by done. rewrite Hu. cbn [obind fmap option_fmap option_map].
  by rewrite insert_insert_eq.
Qed.

(** ** Deleting one state *)

(** DeleteStateByName means to delete one state, but the manager it works on has
    loaded none of the others, and PersistState writes only what the manager holds:
    deleting any state of the file, even one already null, deletes all of them. *)
Theorem delete_one_state_erases_all raw name : is_Some (raw !! name) →
  DeleteState_rpc (S := S) false (Some name) WriteDone (Saved raw) = (Ok 1%nat, Saved {[ name := str "null" ]}).
Proof.
  intros Hn. unfold DeleteState_rpc, DeleteStateByName. cbn [loadStateFile fst obind]. rewrite bool_decide_true by done. cbn [obind].
  unfold PersistState. cbn [dirty New states]. rewrite bool_decide_false.
  2: { intros E. apply (not_elem_of_empty (C := gset StateName) name). set_solver. }
  unfold marshalWithPanicRecovery. rewrite bool_decide_true.
  2: { intros n s [[<- <-]|[_ E]]%lookup_insert_Some; [by eexists|]. by rewrite lookup_empty in E. }
  cbn [obind]. do 2 f_equal. apply map_eq. intros n. rewrite lookup_omap. destruct (decide (n = name)) as [->|Hne].
  - by rewrite lookup_insert_eq, lookup_singleton_eq.
  - rewrite lookup_insert_ne, lookup_empty, lookup_singleton_ne by done. done.
Qed.

(** Cleaning up one state does the same to the others: those the platform registers
    become null without their clean-up, the rest is gone. *)
Theorem clean_one_state_erases_others reg raw name r :
  raw !! name = Some r → cleans (stateTypes (registerStates (S := S) reg New)) name r = true →
  ∃ raw', CleanState (S := S) reg false name WriteDone (Saved raw) = (Ok 1%nat, Saved raw') ∧
    ∀ n, raw' !! n = (if decide (is_Some (stateTypes (registerStates (S := S) reg New) !! n)) then Some (str "null") else None).
Proof.
  intros Hr Hc. destruct (registerStates_spec reg New) as [Hst Hd].
  { intros n. cbn [New states stateTypes]. rewrite !lookup_empty. rewrite decide_False; [done|]. by intros [? ?]. }
  unfold CleanState, CleanupStateByName. set (m := registerStates reg New) in *.
  assert (∃ ty, stateTypes m !! name = Some ty) as [ty Hty] by (unfold cleans in Hc; destruct (stateTypes m !! name); eauto; done).
  rewrite Hty. cbn [loadStateFile fst mbind option_bind]. rewrite Hr.
  destruct (cleanupSingleState name r m) as [e m1] eqn:E.
  assert (e = None) as ->.
  { unfold cleans in Hc. rewrite Hty in Hc. revert E. unfold cleanupSingleState, loadSingleRawState. rewrite Hty.
    case_bool_decide; [done|]. destruct (unmarshal_state ty r) as [s|]; [|done].
    apply andb_true_iff in Hc as [-> ->]. by intros [= <- _]. }
  apply cleanupSingleState_spec in E as (Ht1 & Hs1 & Hd1); [|apply Hst]. rewrite Hc in Hd1.
  assert (remains (stateTypes m) name r = None) as Hrem.
  { revert Hc. unfold cleans, remains. rewrite Hty. case_bool_decide; [done|]. by destruct (unmarshal_state ty r); [intros ->|]. }
  assert (∀ n, states m1 !! n = (if decide (is_Some (stateTypes m !! n)) then Some None else None)) as Hs.
  { intros n. rewrite Hs1, Hrem. destruct (decide (n = name)) as [->|]; [|rewrite lookup_insert_ne by done; apply Hst].
    rewrite lookup_insert_eq, decide_True by eauto. done. }
  unfold PersistState. rewrite bool_decide_false.
  2: { rewrite Hd1. intros E. apply (not_elem_of_empty (C := gset StateName) name). set_solver. }
  unfold marshalWithPanicRecovery. rewrite bool_decide_true.
  2: { intros n s. rewrite Hs. destruct (decide _); intros [= <-]. by eexists. }
  cbn [obind]. eexists. split; [done|]. intros n. rewrite lookup_omap, Hs. by destruct (decide _).
Qed.

(** ** Two managers on one file *)

(** The update manager and the engine each have a manager of their own for the same
    file.  Whatever the first has saved is gone when the second saves, unless the
    second holds a state of that name too. *)
Theorem second_manager_overwrites a b f a' fa b' fb n s :
  dirty a ≠ ∅ → PersistState WriteDone a f = (Ok (), a', fa) → states a !! n = Some s →
  dirty b ≠ ∅ → PersistState WriteDone b fa = (Ok (), b', fb) → states b !! n = None →
  (∃ raw, fa = Saved raw ∧ is_Some (raw !! n)) ∧ ∃ raw, fb = Saved raw ∧ raw !! n = None.
Proof.
  intros Hda Ha Hs Hd Hb Hn. split.
  { apply PersistState_file in Ha as [[-> He]|(_ & bs & -> & Hbs)]; [by destruct He|].
    destruct (Hbs n s Hs) as (? & _ & ?). eauto. }
  unfold PersistState in Hb. rewrite bool_decide_false in Hb by done.
  unfold marshalWithPanicRecovery in Hb. case_bool_decide; [|done]. injection Hb as _ <-.
  eexists. split; [done|]. by rewrite lookup_omap, Hn.
Qed.

End Restore.

(** ** A library of states, for examples: text of one kind, which has a clean-up if it
    is not empty; the clean-up of "bad" fails. *)

#[global] Instance text_states : StateLib bytes := {
  stateType := unit;
  unmarshal_state _ b := match b with Byte.x22 :: s => Some s | _ => None end;
  marshal_state s := Some (Byte.x22 :: s);
  Cleanable s := negb (bool_decide (s = []));
  Cleanup s := negb (bool_decide (s = str "bad"))
}.

Definition text_type : stateType (S := bytes) := ().

Definition saved_files : RawStates :=
  {[ str "dns" := Byte.x22 :: str "good"; str "routes" := Byte.x22 :: str "bad"; str "selector" := str "[ 1 ]" ]}.

Definition registered_states : list (StateName * stateType (S := bytes)) := [(str "dns", text_type); (str "routes", text_type)].


Lemma saved_state_roundtrip_witness : ∃ m2 f1,
  PersistState (S := bytes) WriteDone (mkManager {[ str "dns" := Some (Typed (str "x")) ]} {[ str "dns" ]} ∅) NoFile = (Ok (), m2, f1) ∧
  LoadState (S := bytes) (str "dns") (RegisterState (str "dns") text_type New) f1 =
    Ok (mkManager (<[str "dns" := Some (Typed (str "x"))]> ∅) ∅ (<[str "dns" := text_type]> ∅)).
Proof.
  eexists _, _. split; [vm_compute; reflexivity|].
  eapply (saved_state_roundtrip (S := bytes) (str "dns") text_type (str "x") (mkManager {[ str "dns" := None ]} ∅ ∅)
    (mkManager {[ str "dns" := Some (Typed (str "x")) ]} {[ str "dns" ]} ∅) _ New NoFile); [by intros b [= <-]| |].
  - vm_compute. reflexivity.
  - vm_compute. reflexivity.
Defined.

Lemma delete_one_state_erases_all_witness :
  (DeleteState_rpc (S := bytes) false (Some (str "routes")) WriteDone (Saved saved_files)).2 = Saved {[ str "routes" := str "null" ]} ∧
  is_Some (saved_files !! str "dns").
Proof.
  split; [|by vm_compute; eexists].
  rewrite (delete_one_state_erases_all (S := bytes) saved_files (str "routes")); [done|]. by vm_compute; eexists.
Defined.

Lemma clean_one_state_erases_others_witness : ∃ raw',
  CleanState (S := bytes) registered_states false (str "dns") WriteDone (Saved saved_files) = (Ok 1%nat, Saved raw') ∧
  raw' !! str "selector" = None.
Proof.
  destruct (clean_one_state_erases_others (S := bytes) registered_states saved_files (str "dns") (Byte.x22 :: str "good"))
    as (raw' & Hc & Hn); [vm_compute; reflexivity|vm_compute; reflexivity|].
  exists raw'. split; [exact Hc|]. rewrite Hn. rewrite decide_False; [done|]. vm_compute. by intros [? ?].
Defined.

(** A manager with one state, to be saved. *)
Definition one_state (name : StateName) : Manager (S := bytes) :=
  mkManager {[ name := Some (Typed (str "x")) ]} {[ name ]} ∅.

Definition save_one (name : StateName) (f : StateFile) := PersistState WriteDone (one_state name) f.

(** The engine saves its DNS state after the update manager has saved a pending update. *)
Lemma second_manager_overwrites_witness :
  (∃ raw, (save_one (str "autoUpdate") NoFile).2 = Saved raw ∧ is_Some (raw !! str "autoUpdate")) ∧
  ∃ raw, (save_one (str "dns") (save_one (str "autoUpdate") NoFile).2).2 = Saved raw ∧ raw !! str "autoUpdate" = None.
Proof.
  assert (∀ n, dirty (one_state n) ≠ ∅) as Hne.
  { intros n E. apply (not_elem_of_empty (C := gset StateName) n). rewrite <- E. by apply elem_of_singleton. }
  apply (second_manager_overwrites (one_state (str "autoUpdate")) (one_state (str "dns")) NoFile
    (save_one (str "autoUpdate") NoFile).1.2 (save_one (str "autoUpdate") NoFile).2
    (save_one (str "dns") (save_one (str "autoUpdate") NoFile).2).1.2 _ (str "autoUpdate") (Some (Typed (str "x"))));
    try apply Hne; vm_compute; reflexivity.
Defined.
