(* ===== verification/Updater.v ===== *)
(** * The update manager

    client/internal/updater/manager.go decides when the client installs a new
    version: management sets the expected version ([SetVersion]) or leaves the choice
    to the user ([SetDownloadOnly]); the loop compares with the running version when
    the settings change or version/update.go has fetched a newer release; the user
    may install a pending version from the UI ([Install]).
    installer/installer_common.go downloads and verifies the installer.

    A critical section is one step; the loop and the callers of Install are threads
    that hold what they have read between their critical sections.  Parsing and
    comparing versions is go-version's: the class [VersionLib]. *)

From Stdlib Require Import Strings.Byte Strings.String.
From S2P Require Import Prelude GoStd GoStrings UpdateSign StateManager.

Local Open Scope go_scope.
Local Open Scope list_scope.

Class VersionLib (V : Type) := {
  NewVersion : bytes → option V;
  GreaterThanOrEqual : V → V → bool;
  GreaterThan : V → V → bool;
  Version_Equal : V → V → bool;
  Version_String : V → bytes;
  version_zero : V        (* of "0.0.0" *)
}.

Definition latestVersion : bytes := str "latest".

Definition developmentVersion : bytes := str "development".

Definition disableAutoUpdate : bytes := str "disabled".

Section Updater.
  Context {V : Type} `{VersionLib V}.

(** ** version/update.go *)

Record Update := mkUpdate {
  uiVersion : V;
  daemonVersion : option V;
  latestAvailable : option V;
  fetching : bool;                (* the ticker exists *)
  onUpdateListener : bool         (* a listener is set *)
}.

Definition NewUpdate (version : bytes) : Update :=
  mkUpdate (default version_zero (NewVersion version)) None None false false.

Definition isUpdateAvailable (u : Update) : bool :=
  match latestAvailable u with
  | None => false
  | Some l =>
      if GreaterThan l (uiVersion u) then true
      else match daemonVersion u with None => false | Some d => GreaterThan l d end
  end.

(** The result and whether the listener is called. *)
Definition checkUpdate (u : Update) : bool * bool :=
  if negb (isUpdateAvailable u) then (false, false) else (true, onUpdateListener u).

Definition SetDaemonVersion (newVersion : bytes) (u : Update) : bool * bool * Update :=
  let d := default version_zero (NewVersion newVersion) in
  if match daemonVersion u with Some d' => Version_Equal d' d | None => false end then (false, false, u)
  else let u := mkUpdate (uiVersion u) (Some d) (latestAvailable u) (fetching u) (onUpdateListener u) in
       (checkUpdate u, u).

Definition SetOnUpdateListener (u : Update) : bool * Update :=
  let u := mkUpdate (uiVersion u) (daemonVersion u) (latestAvailable u) (fetching u) true in
  (isUpdateAvailable u, u).

Definition LatestVersion (u : Update) : option V := latestAvailable u.

(** The answer of the server, if there is one; a length of -1 is unknown. *)
Record response := mkResponse { StatusCode : Z; ContentLength : Z; Body : option bytes }.

Definition fetchVersion (resp : option response) (u : Update) : bool * Update :=
  match resp with
  | None => (false, u)
  | Some r =>
      if negb (StatusCode r =? 200) then (false, u)
      else if 100 <? ContentLength r then (false, u)
      else match Body r with
           | None => (false, u)
           | Some content =>
               match NewVersion content with
               | None => (false, u)
               | Some v =>
                   if match latestAvailable u with Some l => Version_Equal l v | None => false end then (false, u)
                   else (true, mkUpdate (uiVersion u) (daemonVersion u) (Some v) (fetching u) (onUpdateListener u))
               end
           end
  end.

(** One round of the fetcher: the update and whether the listener is called. *)
Definition StartFetcher_round (resp : option response) (u : Update) : bool * Update :=
  let '(changed, u) := fetchVersion resp u in
  if changed then ((checkUpdate u).2, u) else (false, u).

(** ** manager.go *)

Record Manager := mkManager {
  downloadOnly : bool;
  forceUpdate : bool;
  lastTrigger : Z;
  mgmUpdateChan : bool;          (* channels of capacity one *)
  updateChannel : bool;
  currentVersion : bytes;
  update : option Update;
  started : bool;
  expectedVersion : option V;
  updateToLatestVersion : bool;
  pendingVersion : option V;
  installing : bool
}.

Inductive Event :=
| NewVersionAvailable (version : bytes) (enforced : bool)
| UpdatingClient | ProgressWindow (version : bytes) | UpdateFailed | UpdateCompleted (version : bytes).

Definition NewManager (version : bytes) : Manager :=
  mkManager true false time_zero false false version (Some (NewUpdate version)) false None false None false.

(** The listener sends on the update channel unless it is full; [StartFetcher] marks the fetcher as running. *)
Definition Start (m : Manager) : outcome unit Manager :=
  if started m then Ok m else
  match update m with
  | None => Panic
  | Some u =>
      let '(_, u) := SetDaemonVersion (currentVersion m) u in
      let '(called, u) := SetOnUpdateListener u in
      let u := mkUpdate (uiVersion u) (daemonVersion u) (latestAvailable u) true (onUpdateListener u) in
      Ok (mkManager (downloadOnly m) (forceUpdate m) (lastTrigger m) (mgmUpdateChan m) (updateChannel m || called)
            (currentVersion m) (Some u) true (expectedVersion m) (updateToLatestVersion m) (pendingVersion m) (installing m))
  end.

Definition SetDownloadOnly (m : Manager) : Manager :=
  mkManager true false time_zero true (updateChannel m) (currentVersion m) (update m) (started m) None false
    (pendingVersion m) (installing m).

Definition SetVersion (supported : bool) (expected : bytes) (force : bool) (m : Manager) : Manager :=
  let accept e latest := mkManager false force time_zero true (updateChannel m) (currentVersion m) (update m) (started m)
    e latest (pendingVersion m) (installing m) in
  if negb supported then m
  else if bool_decide (expected = []) then
    mkManager true (forceUpdate m) (lastTrigger m) (mgmUpdateChan m) (updateChannel m) (currentVersion m) (update m)
      (started m) None false (pendingVersion m) (installing m)
  else if bool_decide (expected = latestVersion) then accept None true
  else match NewVersion expected with
       | None => m
       | Some v =>
           if match expectedVersion m with Some e => Version_Equal e v | None => false end then m
           else accept (Some v) false
       end.

(** client/internal/engine.go *)
Definition handleAutoUpdateVersion (supported : bool) (settings : option (bytes * bool)) (m : Manager) : Manager :=
  match settings with
  | None => m
  | Some (v, always) => if bool_decide (v = disableAutoUpdate) then SetDownloadOnly m else SetVersion supported v always m
  end.

Definition shouldUpdate (now : Z) (m : Manager) (updateVersion : V) (force : bool) : bool :=
  if bool_decide (currentVersion m = developmentVersion) then false
  else match NewVersion (currentVersion m) with
       | None => false
       | Some cur =>
           if GreaterThanOrEqual cur updateVersion then false
           else if force && (Sub now (lastTrigger m) <? 3 * minute) then false
           else true
       end.

(** What is left to do when the mutex is released. *)
Inductive Action := Nothing | Publish (e : Event) | TryInstall (v : V).

Definition target (m : Manager) (u : Update) : option V :=
  if downloadOnly m || updateToLatestVersion m then LatestVersion u else expectedVersion m.

Definition handleUpdate (now : Z) (m : Manager) : Manager * Action :=
  match update m with
  | None => (m, Nothing)
  | Some u =>
      match target m u with
      | None => (m, Nothing)
      | Some v =>
          if negb (shouldUpdate now m v (forceUpdate m)) then (m, Nothing)
          else
            let pending := if negb (downloadOnly m) && negb (forceUpdate m) then Some v else pendingVersion m in
            let m' := mkManager (downloadOnly m) (forceUpdate m) now (mgmUpdateChan m) (updateChannel m) (currentVersion m)
                        (update m) (started m) (expectedVersion m) (updateToLatestVersion m) pending (installing m) in
            (m', if downloadOnly m then Publish (NewVersionAvailable (Version_String v) false)
                 else if forceUpdate m then TryInstall v
                 else Publish (NewVersionAvailable (Version_String v) true))
      end
  end.

Definition NotifyUI (m : Manager) : list Event :=
  match update m with
  | None => []
  | Some u =>
      if downloadOnly m then
        match LatestVersion u with
        | None => []
        | Some l =>
            match NewVersion (currentVersion m) with
            | None => []
            | Some cur => if GreaterThanOrEqual cur l then [] else [NewVersionAvailable (Version_String l) false]
            end
        end
      else match pendingVersion m with Some p => [NewVersionAvailable (Version_String p) true] | None => [] end
  end.

Definition onContextCancel (m : Manager) : Manager :=
  if negb (started m) then m else
  mkManager (downloadOnly m) (forceUpdate m) (lastTrigger m) (mgmUpdateChan m) (updateChannel m) (currentVersion m) None
    (started m) (expectedVersion m) (updateToLatestVersion m) (pendingVersion m) (installing m).

Inductive installErr := notSupported | noPendingVersion | alreadyInstalling.

(** The version the caller goes on with. *)
Definition Install (supported : bool) (m : Manager) : outcome installErr V :=
  require supported else notSupported;
  match pendingVersion m with None => Err noPendingVersion | Some v => Ok v end.

Definition set_installing (b : bool) (m : Manager) : Manager :=
  mkManager (downloadOnly m) (forceUpdate m) (lastTrigger m) (mgmUpdateChan m) (updateChannel m) (currentVersion m)
    (update m) (started m) (expectedVersion m) (updateToLatestVersion m) (pendingVersion m) b.

Definition tryInstall_begin (m : Manager) : outcome installErr Manager :=
  require negb (installing m) else alreadyInstalling;
  Ok (set_installing true m).

Definition tryInstall_end (m : Manager) : Manager := set_installing false m.

(** ** The installation and its record *)

Record UpdateRecord := mkUpdateRecord { PreUpdateVersion : bytes; TargetVersion : bytes }.

Definition UpdateState_Name : bytes := str "autoUpdate".

Section Install.
  Context {S : Type} `{StateLib S} (of_record : UpdateRecord → S) (as_record : S → option UpdateRecord)
    (record_type : stateType (S := S)).

(** [w] is the fate of the write, [run] whether RunInstallation succeeds. *)
Definition install (w : WriteResult) (run : bool) (m : Manager) (v : V) (sm : StateManager.Manager (S := S)) (f : StateFile) :
    list Event * StateManager.Manager (S := S) * StateFile * bool :=
  let evs := [UpdatingClient; ProgressWindow (Version_String v)] in
  let '(sm, f) :=
    match UpdateState UpdateState_Name (of_record (mkUpdateRecord (currentVersion m) (Version_String v))) sm with
    | Ok sm => let '(_, sm, f) := PersistState w sm f in (sm, f)
    | _ => (sm, f)
    end in
  (evs ++ if run then [] else [UpdateFailed], sm, f, run).

Inductive recordErr := noUpdateState | castFailed | stateFailed (e : stateErr).

Definition lift {A} (o : outcome stateErr A) : outcome recordErr A :=
  match o with Ok x => Ok x | Err e => Err (stateFailed e) | Panic => Panic end.

(** Also the manager and the file, as they are when the function returns. *)
Definition loadAndDeleteUpdateState (w : WriteResult) (sm : StateManager.Manager (S := S)) (f : StateFile) :
    outcome recordErr UpdateRecord * StateManager.Manager (S := S) * StateFile :=
  let sm := RegisterState UpdateState_Name record_type sm in
  match LoadState UpdateState_Name sm f with
  | Ok sm =>
      match GetState UpdateState_Name sm with
      | None => (Err noUpdateState, sm, f)
      | Some (Typed s) =>
          match as_record s with
          | None => (Err castFailed, sm, f)
          | Some r =>
              match DeleteState UpdateState_Name sm with
              | Ok sm => let '(res, sm, f) := PersistState w sm f in (let! _ := lift res in Ok r, sm, f)
              | Err e => (Err (stateFailed e), sm, f)
              | Panic => (Panic, sm, f)
              end
          end
      | Some (RawState _) => (Err castFailed, sm, f)
      end
  | Err e => (Err (stateFailed e), sm, f)
  | Panic => (Panic, sm, f)
  end.

(** [failed]: the installer has left a failure as its result. *)
Definition CheckUpdateSuccess (failed : bool) (w : WriteResult) (current : bytes) (sm : StateManager.Manager (S := S))
    (f : StateFile) : list Event * StateManager.Manager (S := S) * StateFile :=
  let '(r, sm, f) := loadAndDeleteUpdateState w sm f in
  ((if failed then [UpdateFailed] else []) ++
   match r with
   | Ok st => if bool_decide (TargetVersion st = current) then [UpdateCompleted current] else []
   | _ => []
   end, sm, f).

End Install.

(** ** The threads *)

(** A thread that is about to call tryInstall, or is in the installation. *)
Inductive Thread := Wants (v : V) | Runs (v : V).

(** [loop] marks the thread of the update loop. *)
Record sys := mkSys {
  mgr : Manager;
  threads : list (bool * Thread);
  loopDone : bool;
  events : list Event
}.

Definition loop_idle (s : sys) : Prop := loopDone s = false ∧ started (mgr s) = true ∧ Forall (λ t, t.1 = false) (threads s).

Definition with_mgr (m : Manager) (s : sys) : sys := mkSys m (threads s) (loopDone s) (events s).

(** One of the channels that the loop waits for is emptied. *)
Definition received (m m' : Manager) : Prop :=
  (mgmUpdateChan m = true ∧
   m' = mkManager (downloadOnly m) (forceUpdate m) (lastTrigger m) false (updateChannel m) (currentVersion m) (update m)
          (started m) (expectedVersion m) (updateToLatestVersion m) (pendingVersion m) (installing m)) ∨
  (updateChannel m = true ∧
   m' = mkManager (downloadOnly m) (forceUpdate m) (lastTrigger m) (mgmUpdateChan m) false (currentVersion m) (update m)
          (started m) (expectedVersion m) (updateToLatestVersion m) (pendingVersion m) (installing m)).

Definition set_update (u : option Update) (notified : bool) (m : Manager) : Manager :=
  mkManager (downloadOnly m) (forceUpdate m) (lastTrigger m) (mgmUpdateChan m) (updateChannel m || notified)
    (currentVersion m) u (started m) (expectedVersion m) (updateToLatestVersion m) (pendingVersion m) (installing m).

Definition after (a : Action) (s : sys) : sys :=
  match a with
  | Nothing => s
  | Publish e => mkSys (mgr s) (threads s) (loopDone s) (events s ++ [e])
  | TryInstall v => mkSys (mgr s) ((true, Wants v) :: threads s) (loopDone s) (events s)
  end.

Inductive label := LSettings | LLoop (now : Z) | LOther.

(** [supported] does not change while the process runs. *)
Inductive step (supported : bool) : label → sys → sys → Prop :=
| step_start s m : Start (mgr s) = Ok m → step supported LOther s (with_mgr m s)
| step_settings s st : step supported LSettings s (with_mgr (handleAutoUpdateVersion supported st (mgr s)) s)
| step_down s : step supported LSettings s (with_mgr (SetDownloadOnly (mgr s)) s)
| step_fetch s u resp : update (mgr s) = Some u →
    step supported LOther s
      (with_mgr (set_update (Some (StartFetcher_round resp u).2) (StartFetcher_round resp u).1 (mgr s)) s)
| step_notify s : step supported LOther s (mkSys (mgr s) (threads s) (loopDone s) (events s ++ NotifyUI (mgr s)))
| step_loop now s m : loop_idle s → received (mgr s) m →
    step supported (LLoop now) s (after (handleUpdate now m).2 (with_mgr (handleUpdate now m).1 s))
| step_cancel s : loop_idle s →
    step supported LOther s (mkSys (onContextCancel (mgr s)) (threads s) true (events s))
| step_stop s : started (mgr s) = true → step supported LOther s (with_mgr (onContextCancel (mgr s)) s)
| step_install s v : Install supported (mgr s) = Ok v →
    step supported LOther s (mkSys (mgr s) ((false, Wants v) :: threads s) (loopDone s) (events s))
| step_begin s m l1 b v l2 : threads s = l1 ++ (b, Wants v) :: l2 → tryInstall_begin (mgr s) = Ok m →
    step supported LOther s
      (mkSys m (l1 ++ (b, Runs v) :: l2) (loopDone s) (events s ++ [UpdatingClient; ProgressWindow (Version_String v)]))
| step_busy s e l1 b v l2 : threads s = l1 ++ (b, Wants v) :: l2 → tryInstall_begin (mgr s) = Err e →
    step supported LOther s (mkSys (mgr s) (l1 ++ l2) (loopDone s) (events s))
| step_end s run l1 b v l2 : threads s = l1 ++ (b, Runs v) :: l2 →
    step supported LOther s
      (mkSys (tryInstall_end (mgr s)) (l1 ++ l2) (loopDone s) (events s ++ if run : bool then [] else [UpdateFailed])).

Inductive reachable (supported : bool) (version : bytes) : sys → Prop :=
| reach_new : reachable supported version (mkSys (NewManager version) [] false [])
| reach_step s l s' : reachable supported version s → step supported l s s' → reachable supported version s'.

(** ** What may be installed *)

Definition newer (version : bytes) (v : V) : Prop :=
  version ≠ developmentVersion ∧ ∃ cur, NewVersion version = Some cur ∧ GreaterThanOrEqual cur v = false.

Definition version_of (t : Thread) : V := match t with Wants v | Runs v => v end.

Definition is_running (t : bool * Thread) : bool := match t.2 with Runs _ => true | Wants _ => false end.

Definition running (s : sys) : list (bool * Thread) := List.filter is_running (threads s).

Record inv (supported : bool) (version : bytes) (s : sys) : Prop := mkInv {
  inv_current : currentVersion (mgr s) = version;
  inv_pending v : pendingVersion (mgr s) = Some v → newer version v ∧ supported = true;
  inv_threads : Forall (λ t, newer version (version_of t.2) ∧ supported = true) (threads s);
  inv_mode : downloadOnly (mgr s) = false → supported = true;
  inv_running : length (running s) = if installing (mgr s) then 1%nat else 0%nat
}.

(** The manager's part of the invariant, which a change of settings keeps. *)
Lemma inv_mgr supported version s m : inv supported version s → currentVersion m = currentVersion (mgr s) →
  (∀ v, pendingVersion m = Some v → newer version v ∧ supported = true) →
  (downloadOnly m = false → supported = true) → installing m = installing (mgr s) →
  inv supported version (with_mgr m s).
Proof. intros [H1 H2 H3 H4 H5] E1 E2 E3 E4. split; simpl; try done; [by rewrite E1|by rewrite E4]. Qed.

Lemma SetVersion_fields supported e force m :
  let m' := SetVersion supported e force m in
  currentVersion m' = currentVersion m ∧ pendingVersion m' = pendingVersion m ∧ installing m' = installing m ∧
  (downloadOnly m' = false → downloadOnly m = false ∨ supported = true).
Proof.
  unfold SetVersion. destruct supported; simpl; [|by auto].
  repeat case_match; simpl; split_and!; auto.
Qed.

Lemma handleUpdate_fields now m :
  let m' := (handleUpdate now m).1 in
  currentVersion m' = currentVersion m ∧ installing m' = installing m ∧ downloadOnly m' = downloadOnly m ∧
  forceUpdate m' = forceUpdate m.
Proof. unfold handleUpdate. by repeat case_match. Qed.

Lemma shouldUpdate_newer now m v force : shouldUpdate now m v force = true → newer (currentVersion m) v.
Proof.
  unfold shouldUpdate. case_bool_decide; [done|]. destruct (NewVersion (currentVersion m)) as [cur|] eqn:E; [|done].
  destruct (GreaterThanOrEqual cur v) eqn:E'; [done|]. intros _. split; [done|eauto].
Qed.

Lemma handleUpdate_pending now m v : pendingVersion (handleUpdate now m).1 = Some v →
  pendingVersion m = Some v ∨ (downloadOnly m = false ∧ newer (currentVersion m) v).
Proof.
  unfold handleUpdate. destruct (update m) as [u|]; [|by left]. destruct (target m u) as [t|]; [|by left].
  destruct (shouldUpdate now m t (forceUpdate m)) eqn:E; [|by left]. simpl. apply shouldUpdate_newer in E.
  destruct (downloadOnly m); [by left|]. destruct (forceUpdate m); [by left|]. simpl. intros [= <-]. by right.
Qed.

(** A forced installation: of a newer version, in force mode, no sooner than three
    minutes after the last trigger. *)
Lemma handleUpdate_install now m v : (handleUpdate now m).2 = TryInstall v →
  newer (currentVersion m) v ∧ downloadOnly m = false ∧ forceUpdate m = true ∧
  lastTrigger (handleUpdate now m).1 = now ∧ 3 * minute ≤ Sub now (lastTrigger m).
Proof.
  unfold handleUpdate. destruct (update m) as [u|]; [|done]. destruct (target m u) as [t|]; [|done].
  destruct (shouldUpdate now m t (forceUpdate m)) eqn:E; [|done]. simpl.
  destruct (downloadOnly m); [done|]. destruct (forceUpdate m) eqn:Ef; [|done]. intros [= <-].
  split; [by eapply shouldUpdate_newer|]. split_and!; try done.
  revert E. unfold shouldUpdate. case_bool_decide; [done|]. destruct (NewVersion _); [|done].
  destruct (GreaterThanOrEqual _ _); [done|]. destruct (Sub now (lastTrigger m) <? 3 * minute) eqn:Es; [done|].
  intros _. by apply Z.ltb_ge in Es.
Qed.

Lemma received_fields m m' : received m m' → currentVersion m' = currentVersion m ∧ installing m' = installing m ∧
  downloadOnly m' = downloadOnly m ∧ forceUpdate m' = forceUpdate m ∧ lastTrigger m' = lastTrigger m ∧
  pendingVersion m' = pendingVersion m.
Proof. by intros [[_ ->]|[_ ->]]. Qed.

Lemma Start_fields m m' : Start m = Ok m' → currentVersion m' = currentVersion m ∧ installing m' = installing m ∧
  downloadOnly m' = downloadOnly m ∧ forceUpdate m' = forceUpdate m ∧ lastTrigger m' = lastTrigger m ∧
  pendingVersion m' = pendingVersion m.
Proof.
  unfold Start. destruct (started m); [by intros [= <-]|]. destruct (update m) as [u|]; [|done].
  destruct (SetDaemonVersion _ _) as [? u1]. destruct (SetOnUpdateListener u1). by intros [= <-].
Qed.

Lemma running_app l1 t l2 : length (List.filter is_running (l1 ++ t :: l2)) =
  (length (List.filter is_running (l1 ++ l2)) + if is_running t then 1 else 0)%nat.
Proof. rewrite !List.filter_app, !length_app. simpl. destruct (is_running t); simpl; lia. Qed.

Lemma inv_loop supported version s now m : inv supported version s → received (mgr s) m →
  inv supported version (after (handleUpdate now m).2 (with_mgr (handleUpdate now m).1 s)).
Proof.
  intros Hi Hr. destruct (received_fields _ _ Hr) as (E1 & E2 & E3 & E4 & E5 & E6).
  destruct (handleUpdate_fields now m) as (F1 & F2 & F3 & F4). pose proof Hi as [Hc Hp Ht Hm Hrun].
  assert (inv supported version (with_mgr (handleUpdate now m).1 s)) as Hi'.
  { apply inv_mgr; [done|congruence| |by rewrite F3, E3|congruence].
    intros v [Hv|[Hd Hv]]%handleUpdate_pending; [apply Hp; congruence|].
    split; [rewrite E1, Hc in Hv; done|apply Hm; congruence]. }
  destruct (handleUpdate now m).2 as [|e|v] eqn:Ea; simpl; [done|by destruct Hi'; split|].
  apply handleUpdate_install in Ea as (Hn & Hd & _). destruct Hi' as [H1 H2 H3 H4 H5]. split; try done.
  simpl. constructor; [|done]. split; [by rewrite E1, Hc in Hn|apply Hm; congruence].
Qed.

Lemma inv_begin supported version s m l1 b v l2 evs : inv supported version s → threads s = l1 ++ (b, Wants v) :: l2 →
  tryInstall_begin (mgr s) = Ok m → inv supported version (mkSys m (l1 ++ (b, Runs v) :: l2) (loopDone s) evs).
Proof.
  intros [H1 H2 H3 H4 H5] E. unfold tryInstall_begin. destruct (installing (mgr s)) eqn:Ei; [done|]. intros [= <-].
  unfold running in H5. rewrite E in H3, H5. rewrite running_app in H5. simpl in H5.
  split; simpl; try done.
  - apply Forall_app in H3 as [Ha Hb]. apply Forall_cons in Hb as [Hv Hb]. apply Forall_app. split; [done|]. by constructor.
  - unfold running. simpl. rewrite running_app. simpl. lia.
Qed.

Lemma inv_drop supported version s m l1 t l2 evs : inv supported version s → threads s = l1 ++ t :: l2 →
  m = (if is_running t then tryInstall_end (mgr s) else mgr s) → inv supported version (mkSys m (l1 ++ l2) (loopDone s) evs).
Proof.
  intros [H1 H2 H3 H4 H5] E ->. unfold running in H5. rewrite E in H3, H5. rewrite running_app in H5.
  assert (Forall (λ t, newer version (version_of t.2) ∧ supported = true) (l1 ++ l2)) as Hf.
  { apply Forall_app in H3 as [Ha Hb]. apply Forall_cons in Hb as [_ Hb]. by apply Forall_app. }
  destruct (is_running t); split; simpl; try done; unfold running; simpl; [|lia].
  destruct (installing (mgr s)); lia.
Qed.

Lemma inv_step supported version l s s' : step supported l s s' → inv supported version s → inv supported version s'.
Proof.
  intros Hs Hi. pose proof Hi as [H1 H2 H3 H4 H5]. destruct Hs as
    [s m Hst|s st|s|s u resp Hu|s|now s m _ Hr|s _|s _|s v Hin|s m l1 b v l2 E Hb|s e l1 b v l2 E Hb|s run l1 b v l2 E].
  - destruct (Start_fields _ _ Hst) as (E1 & E2 & E3 & E4 & E5 & E6). apply inv_mgr; try done; rewrite ?E6, ?E3; done.
  - unfold handleAutoUpdateVersion. destruct st as [[v al]|]; [|by apply inv_mgr].
    case_bool_decide; [by apply inv_mgr|]. destruct (SetVersion_fields supported v al (mgr s)) as (E1 & E2 & E3 & E4).
    apply inv_mgr; try done; [by rewrite E2|]. intros [Hd|Hd]%E4; [by apply H4|done].
  - by apply inv_mgr.
  - by apply inv_mgr.
  - by split.
  - by apply inv_loop.
  - unfold onContextCancel. destruct (started (mgr s)); by split.
  - unfold onContextCancel. destruct (started (mgr s)); by apply inv_mgr.
  - unfold Install in Hin. destruct supported; [|done]. destruct (pendingVersion (mgr s)) as [p|] eqn:Hp; [|done].
    injection Hin as <-. split; simpl; try done; [intros w Hw; apply H2; congruence|]. constructor; [by apply H2|done].
  - by eapply inv_begin.
  - eapply inv_drop; [done|exact E|done].
  - eapply inv_drop; [done|exact E|done].
Qed.

Lemma inv_reachable supported version s : reachable supported version s → inv supported version s.
Proof.
  induction 1 as [|s l s' _ IH Hs]; [|by eapply inv_step].
  by split.
Qed.

(** C24: However the settings, the fetched versions and the user's clicks interleave, at
    most one installation runs at a time, and only of a version that is newer than
    the one that runs, never over a development build, and never on a platform
    without automatic updates. *)
Theorem updates_only_newer_one_at_a_time supported version s : reachable supported version s →
  (length (running s) ≤ 1)%nat ∧
  ∀ t, t ∈ threads s → supported = true ∧ newer version (version_of t.2).
Proof.
  intros [H1 H2 H3 H4 H5]%inv_reachable. split; [destruct (installing (mgr s)); lia|].
  intros t Ht. rewrite Forall_forall in H3. by destruct (H3 t Ht).
Qed.

(** ** Forced installations are spaced *)

(** The step of the loop at [now] has started a forced installation. *)
Definition forces (supported : bool) (now : Z) (s s' : sys) : Prop :=
  step supported (LLoop now) s s' ∧ ∃ v, threads s' = (true, Wants v) :: threads s.

(** Steps other than those of management. *)
Inductive quiet (supported : bool) : sys → sys → Prop :=
| quiet_refl s : quiet supported s s
| quiet_step l s s1 s2 : l ≠ LSettings → step supported l s s1 → quiet supported s1 s2 → quiet supported s s2.

Definition forced_since (t : Z) (s : sys) : Prop :=
  downloadOnly (mgr s) = false ∧ forceUpdate (mgr s) = true ∧ t ≤ lastTrigger (mgr s).

Lemma cons_ne {A} (x : A) l : l ≠ x :: l.
Proof. intros E. apply (f_equal length) in E. simpl in E. lia. Qed.

Lemma forces_spec supported now s s' : forces supported now s s' →
  downloadOnly (mgr s') = false ∧ forceUpdate (mgr s') = true ∧ lastTrigger (mgr s') = now ∧
  3 * minute ≤ now - lastTrigger (mgr s).
Proof.
  intros [Hs [v Hv]]. inversion Hs as [| | | | |now' s0 m Hidle Hr| | | | | |]; subst.
  destruct (received_fields _ _ Hr) as (E1 & E2 & E3 & E4 & E5 & E6).
  destruct (handleUpdate_fields now m) as (F1 & F2 & F3 & F4).
  destruct (handleUpdate now m).2 as [|e|w] eqn:Ea; simpl in Hv; try by apply cons_ne in Hv.
  apply handleUpdate_install in Ea as (_ & Hd & Hf & Hl & Ht). simpl. rewrite F3, F4, Hl, <- E5.
  split_and!; try done. revert Ht. unfold Sub, minute, second. lia.
Qed.

Lemma forced_loop supported now s s' t : step supported (LLoop now) s s' → forced_since t s → forced_since t s'.
Proof.
  intros Hs (Hd & Hf & Hl). inversion Hs as [| | | | |now' s0 m Hidle Hr| | | | | |]; subst.
  destruct (received_fields _ _ Hr) as (E1 & E2 & E3 & E4 & E5 & E6). rewrite <- E3 in Hd. rewrite <- E4 in Hf.
  rewrite <- E5 in Hl. clear -Hd Hf Hl. unfold handleUpdate. destruct (update m) as [u|]; [|done].
  destruct (target m u) as [w|]; [|done]. destruct (shouldUpdate now m w (forceUpdate m)) eqn:E; [|done].
  simpl. rewrite Hd, Hf in *. split_and!; try done; simpl; try by destruct (downloadOnly m).
  revert E. unfold shouldUpdate. case_bool_decide; [done|]. destruct (NewVersion _); [|done].
  destruct (GreaterThanOrEqual _ _); [done|]. destruct (Sub now (lastTrigger m) <? 3 * minute) eqn:Es; [done|].
  intros _. apply Z.ltb_ge in Es. revert Es. unfold Sub, minute, second. lia.
Qed.

Lemma forced_quiet supported s s' t : quiet supported s s' → forced_since t s → forced_since t s'.
Proof.
  induction 1 as [|l s s1 s2 Hl Hs _ IH]; [done|]. intros Hfs. apply IH. destruct l; [done|by eapply forced_loop|].
  unfold forced_since in *. inversion Hs; subst; simpl; try done;
    repeat match goal with
    | E : Start _ = Ok _ |- _ => destruct (Start_fields _ _ E) as (_ & _ & -> & -> & -> & _); done
    | |- context [onContextCancel ?m] => unfold onContextCancel; destruct (started m); done
    end.
  match goal with E : tryInstall_begin _ = Ok _ |- _ => revert E end.
  unfold tryInstall_begin. destruct (installing _); [done|]. by intros [= <-].
Qed.

(** As long as management does not change the settings, two forced installations are
    at least three minutes apart. *)
Theorem forced_updates_spaced supported t1 t2 s0 s1 s2 s3 :
  forces supported t1 s0 s1 → quiet supported s1 s2 → forces supported t2 s2 s3 → t1 + 3 * minute ≤ t2.
Proof.
  intros H1 Hq H2. apply forces_spec in H1 as (Hd & Hf & Hl & _). apply forces_spec in H2 as (_ & _ & _ & Ht).
  destruct (forced_quiet supported s1 s2 t1 Hq) as (_ & _ & ?); [|lia]. split_and!; try done. lia.
Qed.

(** ** Settings that do not take effect *)

(** When management turns AlwaysUpdate on or off and leaves the version, nothing
    changes. *)
Theorem always_update_change_ignored supported s force m e v : s ≠ [] → s ≠ latestVersion →
  NewVersion s = Some v → expectedVersion m = Some e → Version_Equal e v = true →
  SetVersion supported s force m = m.
Proof.
  intros H1 H2 H3 H4 H5. unfold SetVersion. destruct supported; [|done]. simpl.
  by rewrite !bool_decide_false, H3, H4, H5 by done.
Qed.

(** A pending version can still be installed from the UI after management has
    disabled updates or has asked for another version. *)
Theorem withdrawn_version_installs st m v : pendingVersion m = Some v →
  Install true (handleAutoUpdateVersion true st m) = Ok v.
Proof.
  intros Hp. unfold Install, handleAutoUpdateVersion. destruct st as [[w al]|]; [|by rewrite Hp].
  case_bool_decide; simpl; [by rewrite Hp|].
  destruct (SetVersion_fields true w al m) as (_ & E & _). by rewrite E, Hp.
Qed.

(** ** An update is reported once *)

(** The record is a struct of two strings: encoding/json reads it as it was written. *)

Section Report.
  Context {S : Type} `{StateLib S} (of_record : UpdateRecord → S) (as_record : S → option UpdateRecord)
    (record_type : stateType (S := S))
    (record_json : ∀ r b, marshal_state (of_record r) = Some b → b ≠ str "null" ∧ unmarshal_state record_type b = Some (of_record r))
    (as_of_record : ∀ r, as_record (of_record r) = Some r).

(** The manager of the state file as NewManager leaves it. *)
Definition new_states : StateManager.Manager (S := S) := RegisterState UpdateState_Name record_type New.

Lemma persist_one ty s0 b f : marshal_one s0 = Some b →
  PersistState WriteDone (StateManager.mkManager (S := S) {[ UpdateState_Name := s0 ]} {[ UpdateState_Name ]} {[ UpdateState_Name := ty ]}) f
  = (Ok (), StateManager.mkManager {[ UpdateState_Name := s0 ]} ∅ {[ UpdateState_Name := ty ]}, Saved {[ UpdateState_Name := b ]}).
Proof.
  intros Hb. unfold PersistState. cbn [StateManager.dirty StateManager.states StateManager.stateTypes].
  rewrite bool_decide_false.
  2: { intros E. apply (not_elem_of_empty (C := gset StateName) UpdateState_Name). rewrite <- E. by apply elem_of_singleton. }
  unfold marshalWithPanicRecovery. rewrite bool_decide_true.
  2: { intros n s [<- <-]%lookup_singleton_Some. by rewrite Hb. }
  do 2 f_equal. apply map_eq. intros n. rewrite lookup_omap. destruct (decide (n = UpdateState_Name)) as [->|].
  - by rewrite !lookup_singleton_eq.
  - by rewrite !lookup_singleton_ne.
Qed.

Lemma load_one ty s b d : b ≠ str "null" → unmarshal_state ty b = Some s →
  LoadState UpdateState_Name (RegisterState UpdateState_Name ty (StateManager.mkManager (S := S) d ∅ {[ UpdateState_Name := ty ]}))
    (Saved {[ UpdateState_Name := b ]}) =
  Ok (StateManager.mkManager (<[UpdateState_Name := Some (Typed s)]> d) ∅ {[ UpdateState_Name := ty ]}).
Proof.
  intros Hnull Hu. unfold LoadState. cbn [loadStateFile fst obind mbind option_bind]. rewrite lookup_singleton_eq.
  unfold loadSingleRawState. cbn [RegisterState StateManager.stateTypes StateManager.states StateManager.dirty].
  rewrite lookup_insert_eq. rewrite bool_decide_false by done.
  rewrite Hu. cbn [obind fmap option_fmap option_map].
  by rewrite insert_insert_eq, insert_singleton_eq.
Qed.

Lemma load_null ty d : LoadState UpdateState_Name
    (RegisterState UpdateState_Name ty (StateManager.mkManager (S := S) d ∅ {[ UpdateState_Name := ty ]}))
    (Saved {[ UpdateState_Name := str "null" ]}) =
  Ok (StateManager.mkManager (<[UpdateState_Name := None]> d) ∅ {[ UpdateState_Name := ty ]}).
Proof.
  unfold LoadState. cbn [loadStateFile fst obind mbind option_bind]. rewrite lookup_singleton_eq.
  unfold loadSingleRawState. cbn [RegisterState StateManager.stateTypes StateManager.states StateManager.dirty].
  rewrite lookup_insert_eq. rewrite bool_decide_true by done. cbn [obind fmap option_fmap option_map].
  by rewrite insert_insert_eq, insert_singleton_eq.
Qed.

(** After an installation that was started and recorded, the client that starts with
    the new version reports the update, and neither the next start nor the next
    connection of the same process reports it again. *)
Theorem update_reported_once m v f b :
  marshal_state (of_record (mkUpdateRecord (currentVersion m) (Version_String v))) = Some b →
  let '(_, _, f1, _) := install of_record WriteDone true m v new_states f in
  let '(evs, sm, f2) := CheckUpdateSuccess as_record record_type false WriteDone (Version_String v) new_states f1 in
  evs = [UpdateCompleted (Version_String v)] ∧
  (CheckUpdateSuccess as_record record_type false WriteDone (Version_String v) sm f2).1.1 = [] ∧
  (CheckUpdateSuccess as_record record_type false WriteDone (Version_String v) new_states f2).1.1 = [].
Proof.
  intros Hb. set (r := mkUpdateRecord (currentVersion m) (Version_String v)) in *.
  assert (new_states = StateManager.mkManager {[ UpdateState_Name := None ]} ∅ {[ UpdateState_Name := record_type ]}) as Hns by done.
  assert (install of_record WriteDone true m v new_states f =
    ([UpdatingClient; ProgressWindow (Version_String v)],
     StateManager.mkManager {[ UpdateState_Name := Some (Typed (of_record r)) ]} ∅ {[ UpdateState_Name := record_type ]},
     Saved {[ UpdateState_Name := b ]}, true)) as ->.
  { unfold install, UpdateState, setState. rewrite Hns. cbn [StateManager.states StateManager.dirty StateManager.stateTypes].
    rewrite lookup_singleton_eq, bool_decide_true by eauto. fold r.
    rewrite insert_singleton_eq, union_empty_r_L.
    by rewrite (persist_one _ _ b). }
  assert (CheckUpdateSuccess as_record record_type false WriteDone (Version_String v) new_states (Saved {[ UpdateState_Name := b ]}) =
    ([UpdateCompleted (Version_String v)],
     StateManager.mkManager {[ UpdateState_Name := None ]} ∅ {[ UpdateState_Name := record_type ]},
     Saved {[ UpdateState_Name := str "null" ]})) as ->.
  { destruct (record_json r b Hb) as [Hnull Hu].
    unfold CheckUpdateSuccess, loadAndDeleteUpdateState. rewrite Hns, (load_one _ (of_record r) b) by done.
    rewrite insert_singleton_eq. unfold GetState. cbn [StateManager.states]. rewrite lookup_singleton_eq. cbn [option.from_option id].
    rewrite as_of_record. unfold DeleteState, setState. cbn [StateManager.states StateManager.dirty StateManager.stateTypes].
    rewrite lookup_singleton_eq, bool_decide_true by eauto. rewrite insert_singleton_eq, union_empty_r_L.
    rewrite (persist_one _ None (str "null")) by done. cbn [obind lift TargetVersion r].
    by rewrite bool_decide_true. }
  split; [done|]. rewrite <- Hns. assert (∀ b, b = (CheckUpdateSuccess as_record record_type false WriteDone (Version_String v)
    new_states (Saved {[ UpdateState_Name := str "null" ]})).1.1 → b = []) as Hn; [|by split; symmetry; rewrite <- (Hn _ eq_refl)].
  intros ? ->. unfold CheckUpdateSuccess, loadAndDeleteUpdateState. rewrite Hns, load_null, insert_singleton_eq. unfold GetState.
  cbn [StateManager.states]. by rewrite lookup_singleton_eq.
Qed.

End Report.

(** ** The installer *)

Section Installer.
  Context `{SignLib}.

(** What the host does: the temporary directory, the way NetBird was installed, the
    download of the installer for a version (its path), the copy of the updater, the
    directory of the service, the start of the updater process. *)
Record Host := mkHost {
  mkTempDir : bool;
  Downloadable : bool;
  downloadInstaller : bytes → option bytes;
  copyUpdater : bool;
  getServiceDir : bool;
  dryRun : bool;
  startUpdater : bool
}.

Inductive runErr := invalidTarget | tempDirErr | downloadErr | verifyErr (e : signErr) | copyErr | serviceDirErr | startErr.

Definition validateTargetVersion (targetVersion : bytes) : outcome runErr unit :=
  require negb (bool_decide (targetVersion = [])) else invalidTarget;
  match NewVersion targetVersion with None => Err invalidTarget | Some _ => Ok () end.

Definition lift_verify {A} (o : outcome signErr A) : outcome runErr A :=
  match o with Ok x => Ok x | Err e => Err (verifyErr e) | Panic => Panic end.

(** What the updater process is started with. *)
Record UpdaterArgs := mkUpdaterArgs { arg_dryRun : bool; arg_installerFile : option bytes }.

Definition RunInstallation (h : Host) (embedded : list bytes) (repo : Repository) (n1 n2 n3 : Z) (targetVersion : bytes) :
    outcome runErr UpdaterArgs :=
  let! _ := validateTargetVersion targetVersion in
  require mkTempDir h else tempDirErr;
  let! installerFile :=
    (if Downloadable h then
       match downloadInstaller h targetVersion with
       | None => Err downloadErr
       | Some file =>
           let! rootKeys := lift_verify (loadEmbeddedPublicKeys embedded) in
           let! _ := lift_verify (Verify n1 n2 n3 rootKeys repo targetVersion file) in
           Ok (Some file)
       end
     else Ok None) in
  require copyUpdater h else copyErr;
  require getServiceDir h else serviceDirErr;
  require startUpdater h else startErr;
  Ok (mkUpdaterArgs (dryRun h) installerFile).

(** C4: The updater process is started with an installer file only if the file on disk is
    trusted: the chain from the keys embedded in the client to the contents of the
    file holds.  Where the client downloads its installer there always is such a
    file. *)
Theorem updater_starts_trusted_installer h embedded repo n1 n2 n3 targetVersion args :
  RunInstallation h embedded repo n1 n2 n3 targetVersion = Ok args →
  is_Some (NewVersion targetVersion) ∧ (is_Some (arg_installerFile args) ↔ Downloadable h = true) ∧
  ∀ file, arg_installerFile args = Some file → ∃ roots data, loadEmbeddedPublicKeys embedded = Ok roots ∧
    artifactOnDisk repo file = Some data ∧ trusted n1 n2 n3 roots data.
Proof.
  unfold RunInstallation, validateTargetVersion. destruct (negb _); [|done].
  destruct (NewVersion targetVersion) as [v|]; [|done]. cbn [obind]. destruct (mkTempDir h); [|done].
  destruct (Downloadable h).
  - destruct (downloadInstaller h targetVersion) as [file|]; [|done].
    destruct (loadEmbeddedPublicKeys embedded) as [roots| |] eqn:Er; try done. cbn [obind lift_verify].
    destruct (Verify n1 n2 n3 roots repo targetVersion file) as [[]| |] eqn:Ev; try done. cbn [obind lift_verify].
    do 3 (case_match; [|done]). intros [= <-]. cbn [arg_installerFile]. split; [eauto|]. split; [by split; eauto|].
    intros ? [= <-]. apply Verify_trusted in Ev as (data & ? & ?); [eauto|by eapply loadEmbedded_sized].
  - cbn [obind]. do 3 (case_match; [|done]). intros [= <-]. cbn [arg_installerFile]. split; [eauto|].
    split; [|done]. split; [by intros [? ?]|done].
Qed.

End Installer.

End Updater.

(** ** Runs

    Versions are numbers written in unary. *)
Module Run.

#[local] Instance unary : VersionLib nat := {
  NewVersion b := if forallb (λ c, bool_decide (c = Byte.x31)) b && negb (bool_decide (b = [])) then Some (length b) else None;
  GreaterThanOrEqual a b := Nat.leb b a;
  GreaterThan a b := Nat.ltb b a;
  Version_Equal := Nat.eqb;
  Version_String n := repeat Byte.x31 n;
  version_zero := 0%nat
}.

Definition s0 : sys := mkSys (NewManager (str "1")) [] false [].

Definition s1 : sys := with_mgr (match Start (mgr s0) with Ok m => m | _ => mgr s0 end) s0.

(** Management asks for version 11 and forces it; the loop starts the installation. *)
Definition s2 : sys := with_mgr (handleAutoUpdateVersion true (Some (str "11", true)) (mgr s1)) s1.

Definition m3 : Manager := mkManager false true time_zero false false (str "1") (update (mgr s2)) true (Some 2%nat) false None false.

Definition s3 : sys := after (handleUpdate 0 m3).2 (with_mgr (handleUpdate 0 m3).1 s2).

Definition s4 : sys :=
  mkSys (set_installing true (mgr s3)) ([] ++ (true, Runs 2%nat) :: []) (loopDone s3)
    (events s3 ++ [UpdatingClient; ProgressWindow (Version_String 2%nat)]).

(** The installation fails; a new release is fetched. *)
Definition s5 : sys := mkSys (tryInstall_end (mgr s4)) ([] ++ []) (loopDone s4) (events s4 ++ [UpdateFailed]).

Definition release : response := mkResponse 200 3 (Some (str "111")).

Definition u5 : Update := match update (mgr s5) with Some u => u | None => NewUpdate (str "1") end.

Definition s6 : sys :=
  with_mgr (set_update (Some (StartFetcher_round (Some release) u5).2) (StartFetcher_round (Some release) u5).1 (mgr s5)) s5.

Definition m7 : Manager := mkManager false true 0 false false (str "1") (update (mgr s6)) true (Some 2%nat) false None false.

Definition s7 (now : Z) : sys := after (handleUpdate now m7).2 (with_mgr (handleUpdate now m7).1 s6).

Lemma step01 : step true LOther s0 s1.
Proof. apply step_start. reflexivity. Qed.

Lemma step12 : step true LSettings s1 s2.
Proof. apply step_settings. Qed.

Lemma step23 : step true (LLoop 0) s2 s3.
Proof. apply step_loop; [by repeat split|]. left. by split. Qed.

Lemma step34 : step true LOther s3 s4.
Proof. by apply (step_begin true s3 (set_installing true (mgr s3)) [] true 2%nat []). Qed.

Lemma step45 : step true LOther s4 s5.
Proof. by apply (step_end true s4 false [] true 2%nat []). Qed.

Lemma step56 : step true LOther s5 s6.
Proof. by apply (step_fetch true s5 u5 (Some release)). Qed.

Lemma step67 : step true (LLoop (4 * minute)) s6 (s7 (4 * minute)).
Proof. apply step_loop; [by repeat split|]. right. by split. Qed.

End Run.

#[local] Existing Instances Run.unary Plain.lib.

Lemma updates_only_newer_one_at_a_time_witness : reachable true (str "1") Run.s4 ∧ (length (running Run.s4) ≤ 1)%nat.
Proof.
  assert (reachable true (str "1") Run.s4) as Hr.
  { eapply reach_step; [|exact Run.step34]. eapply reach_step; [|exact Run.step23]. eapply reach_step; [|exact Run.step12].
    eapply reach_step; [|exact Run.step01]. apply reach_new. }
  split; [exact Hr|]. apply (updates_only_newer_one_at_a_time true (str "1") Run.s4 Hr).
Defined.

Lemma forced_updates_spaced_witness : forces true (4 * minute) Run.s6 (Run.s7 (4 * minute)) ∧ 0 + 3 * minute ≤ 4 * minute.
Proof.
  assert (forces true (4 * minute) Run.s6 (Run.s7 (4 * minute))) as Hf.
  { split; [exact Run.step67|]. by exists 2%nat. }
  split; [exact Hf|]. apply (forced_updates_spaced true 0 (4 * minute) Run.s2 Run.s3 Run.s6 (Run.s7 (4 * minute))); [| |exact Hf].
  - split; [exact Run.step23|]. by exists 2%nat.
  - eapply (quiet_step true LOther); [done|exact Run.step34|]. eapply (quiet_step true LOther); [done|exact Run.step45|].
    eapply (quiet_step true LOther); [done|exact Run.step56|]. apply quiet_refl.
Defined.

Lemma always_update_change_ignored_witness :
  SetVersion true (str "11") false (mgr Run.s2) = mgr Run.s2 ∧ forceUpdate (mgr Run.s2) = true.
Proof.
  split; [|reflexivity].
  apply (always_update_change_ignored true (str "11") false (mgr Run.s2) 2%nat 2%nat); done || reflexivity.
Defined.

(** Version 11 is pending when updates are disabled. *)
Lemma withdrawn_version_installs_witness :
  let m := (handleUpdate 0 (SetVersion true (str "11") false (mgr Run.s1))).1 in
  Install true (handleAutoUpdateVersion true (Some (disableAutoUpdate, false)) m) = Ok 2%nat.
Proof. intros m. apply (withdrawn_version_installs (Some (disableAutoUpdate, false)) m 2%nat). vm_compute. reflexivity. Defined.

(** The release of the signing tools, installed from an embedded root key; a version
    of the module's form is a run of ones. *)
Lemma updater_starts_trusted_installer_witness :
  let h := mkHost true true (λ _, Some (str "C:\tmp\netbird.msi")) true true false true in
  let embedded := [pem_Encode tagRootPublic (option.from_option id [] (json_of_PublicKey (public_of Release.rk)))] in
  ∃ args data, RunInstallation h embedded Release.repo11 50 60 70 (str "11") = Ok args ∧
    trusted 50 60 70 [public_of Release.rk] data.
Proof.
  intros h embedded. eexists. destruct (updater_starts_trusted_installer h embedded Release.repo11
    50 60 70 (str "11") (mkUpdaterArgs false (Some (str "C:\tmp\netbird.msi")))) as (_ & _ & Hf); [vm_compute; reflexivity|].
  destruct (Hf _ eq_refl) as (roots & data & Hr & _ & Ht). exists data. split; [vm_compute; reflexivity|].
  assert (roots = [public_of Release.rk]) as <-; [|exact Ht].
  revert Hr. vm_compute. by intros [= <-].
Defined.

(** The record of an update as text. *)
Definition record_text (r : UpdateRecord) : bytes := Plain.put (PreUpdateVersion r) ++ Plain.put (TargetVersion r).

Definition text_record (s : bytes) : option UpdateRecord :=
  '(p, s) ← Plain.get s; '(t, s) ← Plain.get s; Some (mkUpdateRecord p t).

Lemma text_record_text r : text_record (record_text r) = Some r.
Proof.
  unfold text_record, record_text. rewrite Plain.get_put. cbn.
  rewrite <- (app_nil_r (Plain.put (TargetVersion r))), Plain.get_put. by destruct r.
Qed.

Lemma record_text_json r b : marshal_state (record_text r) = Some b → b ≠ str "null" ∧ unmarshal_state text_type b = Some (record_text r).
Proof. by intros [= <-]. Qed.

Lemma update_reported_once_witness :
  let '(_, _, f1, _) := install record_text WriteDone true (mgr Run.s4) 2%nat (new_states text_type) NoFile in
  let '(evs, sm, f2) := CheckUpdateSuccess text_record text_type false WriteDone (Version_String 2%nat) (new_states text_type) f1 in
  evs = [UpdateCompleted (Version_String 2%nat)] ∧
  (CheckUpdateSuccess text_record text_type false WriteDone (Version_String 2%nat) sm f2).1.1 = [] ∧
  (CheckUpdateSuccess text_record text_type false WriteDone (Version_String 2%nat) (new_states text_type) f2).1.1 = [].
Proof.
  apply (update_reported_once record_text text_record text_type record_text_json text_record_text
    (mgr Run.s4) 2%nat NoFile (Byte.x22 :: record_text (mkUpdateRecord (str "1") (str "11")))).
  reflexivity.
Defined.
