(* ===== verification/RelayEarly.v ===== *)
(** * Early messages of the relay client

    shared/relay/client/early_msg_buffer.go keeps the messages that arrive before
    OpenConn: one per peer, at most a thousand, for five seconds.  The list and the
    index of its elements are kept as the code keeps them; an element is named by a
    number.  [Free] gives a message's buffer back to the pool: each operation also
    returns the messages it has freed.

    The buffer refines an association list without index and timer. *)

From S2P Require Import Prelude GoStd RelayMessages.

Local Open Scope go_scope.
Local Open Scope list_scope.

(** The payload and the buffer that holds it, which is taken from the pool under a new number each time. *)
Record Msg := mkMsg { Payload : bytes; bufPtr : nat }.

Definition earlyMsgTTL : Z := 5 * second.

Definition earlyMsgCapacity : nat := 1000.

Record earlyMsg := mkEarlyMsg { em_peerID : PeerID; em_msg : Msg; createdAt : Z }.

Record earlyMsgBuffer := mkBuffer {
  index : gmap PeerID nat;
  order : list (nat * earlyMsg);       (* front = oldest *)
  timer : option Z;                    (* when it fires *)
  closed : bool;
  nextElem : nat
}.

Definition newEarlyMsgBuffer : earlyMsgBuffer := mkBuffer ∅ [] None false 0.

(** list.List.Remove *)
Definition Remove (e : nat) (l : list (nat * earlyMsg)) : list (nat * earlyMsg) := List.filter (λ x, negb (x.1 =? e)%nat) l.

Definition Value (e : nat) (l : list (nat * earlyMsg)) : option earlyMsg := snd <$> List.find (λ x, (x.1 =? e)%nat) l.

Definition scheduleCleanup (now d : Z) (b : earlyMsgBuffer) : earlyMsgBuffer :=
  mkBuffer (index b) (order b) (Some (now + d)) (closed b) (nextElem b).

Definition stopCleanup (b : earlyMsgBuffer) : earlyMsgBuffer := mkBuffer (index b) (order b) None (closed b) (nextElem b).

(** An index entry without its element would panic in the type assertion. *)
Definition put (now : Z) (peerID : PeerID) (msg : Msg) (b : earlyMsgBuffer) : outcome unit (bool * list Msg * earlyMsgBuffer) :=
  if closed b then Ok (false, [], b) else
  let! r :=
    (match index b !! peerID with
     | None => Ok ([], b)
     | Some e =>
         match Value e (order b) with
         | None => Panic
         | Some old => Ok ([em_msg old], mkBuffer (delete peerID (index b)) (Remove e (order b)) (timer b) (closed b) (nextElem b))
         end
     end) in
  let '(freed, b) := r in
  if bool_decide (earlyMsgCapacity ≤ length (order b))%nat then Ok (false, freed, b) else
  let e := nextElem b in
  let b := mkBuffer (<[peerID := e]> (index b)) (order b ++ [(e, mkEarlyMsg peerID msg now)]) (timer b) (closed b) (S e) in
  Ok (true, freed, if bool_decide (length (order b) = 1%nat) then scheduleCleanup now earlyMsgTTL b else b).

Definition pop (peerID : PeerID) (b : earlyMsgBuffer) : outcome unit (option Msg * earlyMsgBuffer) :=
  match index b !! peerID with
  | None => Ok (None, b)
  | Some e =>
      match Value e (order b) with
      | None => Panic
      | Some entry =>
          let b := mkBuffer (delete peerID (index b)) (Remove e (order b)) (timer b) (closed b) (nextElem b) in
          Ok (Some (em_msg entry), if bool_decide (order b = []) then stopCleanup b else b)
      end
  end.

Definition close (b : earlyMsgBuffer) : list Msg * earlyMsgBuffer :=
  if closed b then ([], b)
  else ((λ x, em_msg x.2) <$> order b, mkBuffer ∅ [] None true (nextElem b)).

(** The loop from the front; the messages it frees. *)
Fixpoint expire (now : Z) (l : list (nat * earlyMsg)) (ix : gmap PeerID nat) : list Msg * list (nat * earlyMsg) * gmap PeerID nat :=
  match l with
  | [] => ([], [], ix)
  | (e, entry) :: rest =>
      if Sub now (createdAt entry) <=? earlyMsgTTL then ([], l, ix)
      else let '(freed, l, ix) := expire now rest (delete (em_peerID entry) ix) in (em_msg entry :: freed, l, ix)
  end.

Definition removeExpired (now : Z) (b : earlyMsgBuffer) : list Msg * earlyMsgBuffer :=
  if closed b then ([], b) else
  let '(freed, l, ix) := expire now (order b) (index b) in
  (freed, mkBuffer ix l (match l with
                         | [] => None
                         | (_, front) :: _ => Some (now + (earlyMsgTTL - Sub now (createdAt front)))
                         end) (closed b) (nextElem b)).

(** ** The invariant *)

Definition peers (l : list (nat * earlyMsg)) : list PeerID := (λ x, em_peerID x.2) <$> l.

(** The index names the elements of the list by their peers, and no others. *)
Record indexed (ix : gmap PeerID nat) (l : list (nat * earlyMsg)) (n : nat) : Prop := mkIndexed {
  ix_elems : NoDup l.*1;
  ix_peers : NoDup (peers l);
  ix_index p e : ix !! p = Some e ↔ ∃ m, (e, m) ∈ l ∧ em_peerID m = p;
  ix_next e m : (e, m) ∈ l → (e < n)%nat
}.

(** The timer runs as long as there are messages, and a closed buffer is empty. *)
Record buffer_ok (b : earlyMsgBuffer) : Prop := mkOk {
  ok_indexed : indexed (index b) (order b) (nextElem b);
  ok_size : (length (order b) ≤ earlyMsgCapacity)%nat;
  ok_timer : is_Some (timer b) ↔ order b ≠ [];
  ok_closed : closed b = true → order b = []
}.

(** ** What the buffer holds *)

(** Peer, message and time of each entry, oldest first. *)
Definition held (b : earlyMsgBuffer) : list earlyMsg := (order b).*2.

Definition spec_put (now : Z) (p : PeerID) (m : Msg) (l : list earlyMsg) : bool * list Msg * list earlyMsg :=
  let l' := List.filter (λ x, negb (bool_decide (em_peerID x = p))) l in
  let freed := em_msg <$> List.filter (λ x, bool_decide (em_peerID x = p)) l in
  if bool_decide (earlyMsgCapacity ≤ length l')%nat then (false, freed, l') else (true, freed, l' ++ [mkEarlyMsg p m now]).

Definition spec_pop (p : PeerID) (l : list earlyMsg) : option Msg * list earlyMsg :=
  (em_msg <$> List.find (λ x, bool_decide (em_peerID x = p)) l, List.filter (λ x, negb (bool_decide (em_peerID x = p))) l).

(** ** Lists of elements *)

Lemma peers_app l1 l2 : peers (l1 ++ l2) = peers l1 ++ peers l2.
Proof. apply fmap_app. Qed.

Lemma indexed_perm ix l l' n : l ≡ₚ l' → indexed ix l n → indexed ix l' n.
Proof.
  intros Hp [H1 H2 H3 H4]. split.
  - by rewrite <- Hp.
  - unfold peers in *. by rewrite <- Hp.
  - intros p e. rewrite H3. by setoid_rewrite Hp.
  - intros e m Hin. apply (H4 e m). by rewrite Hp.
Qed.

(** Without its first element. *)
Lemma indexed_tail ix e m l n : indexed ix ((e, m) :: l) n → indexed (delete (em_peerID m) ix) l n.
Proof.
  intros [H1 H2 H3 H4]. unfold peers in H2. rewrite fmap_cons in H1. rewrite fmap_cons in H2.
  apply NoDup_cons in H1 as [H1 H1']. apply NoDup_cons in H2 as [H2 H2']. split; try done.
  - intros p e'. rewrite lookup_delete_Some, H3. split.
    + intros (Hne & m' & [[= -> ->]|Hin]%elem_of_cons & <-); [done|eauto].
    + intros (m' & Hin & <-). split.
      * intros E. apply H2. cbn [snd]. rewrite E. by apply (list_elem_of_fmap_2 (λ x : nat * earlyMsg, em_peerID x.2) l (e', m')).
      * exists m'. split; [by right|done].
  - intros e' m' Hin. apply (H4 e' m'). by right.
Qed.

Lemma Remove_absent e l : e ∉ l.*1 → Remove e l = l.
Proof.
  induction l as [|[e' m] l IH]; [done|]. rewrite fmap_cons, not_elem_of_cons. cbn [fst]. intros [Hne Hn]. unfold Remove. simpl.
  rewrite (proj2 (Nat.eqb_neq e' e)) by done. simpl. f_equal. by apply IH.
Qed.

(** The list around an element. *)
Lemma Remove_split e m l1 l2 : NoDup (l1 ++ (e, m) :: l2).*1 →
  Remove e (l1 ++ (e, m) :: l2) = l1 ++ l2 ∧ Value e (l1 ++ (e, m) :: l2) = Some m.
Proof.
  intros Hnd. rewrite fmap_app, fmap_cons in Hnd. apply NoDup_app in Hnd as (H1 & H2 & H3). cbn [fst] in *.
  apply NoDup_cons in H3 as [H3 _].
  assert (e ∉ l1.*1) as Hn by (intros Hin; apply (H2 e Hin); constructor).
  unfold Remove. rewrite List.filter_app. fold (Remove e l1). rewrite Remove_absent by done. simpl.
  rewrite Nat.eqb_refl. simpl. fold (Remove e l2). rewrite Remove_absent by done. split; [done|].
  unfold Value. clear H1 H2 H3. induction l1 as [|[e' m'] l1 IH]; simpl; [by rewrite Nat.eqb_refl|].
  rewrite fmap_cons, not_elem_of_cons in Hn. destruct Hn as [Hne Hn]. cbn [fst] in Hne.
  rewrite (proj2 (Nat.eqb_neq e' e)) by done. by apply IH.
Qed.

Definition other (p : PeerID) (x : earlyMsg) : bool := negb (bool_decide (em_peerID x = p)).

Lemma other_absent p l : p ∉ em_peerID <$> l → List.filter (other p) l = l ∧
  List.filter (λ x, bool_decide (em_peerID x = p)) l = [] ∧ List.find (λ x, bool_decide (em_peerID x = p)) l = None.
Proof.
  induction l as [|m l IH]; [done|]. rewrite fmap_cons, not_elem_of_cons. intros [Hne Hn]. simpl. unfold other at 1.
  rewrite (bool_decide_false _ (not_eq_sym Hne)). simpl. destruct (IH Hn) as (-> & -> & ->). done.
Qed.

Lemma other_split p m (l1 l2 : list earlyMsg) : em_peerID m = p → p ∉ em_peerID <$> (l1 ++ l2) →
  List.filter (other p) (l1 ++ m :: l2) = l1 ++ l2 ∧ List.filter (λ x, bool_decide (em_peerID x = p)) (l1 ++ m :: l2) = [m] ∧
  List.find (λ x, bool_decide (em_peerID x = p)) (l1 ++ m :: l2) = Some m.
Proof.
  intros Hm Hn. rewrite fmap_app, not_elem_of_app in Hn. destruct Hn as [Hn1 Hn2].
  destruct (other_absent p l1 Hn1) as (E1 & E2 & E3). destruct (other_absent p l2 Hn2) as (F1 & F2 & F3).
  rewrite !List.filter_app. simpl. unfold other at 2. rewrite bool_decide_true by done. simpl. rewrite E1, E2, F1, F2.
  split_and!; try done. clear -E3 Hm. induction l1 as [|x l1 IH]; simpl in *; [by rewrite bool_decide_true|].
  destruct (bool_decide (em_peerID x = p)); [done|]. by apply IH.
Qed.

Lemma peers_held l : peers l = em_peerID <$> l.*2.
Proof. unfold peers. by rewrite <- list_fmap_compose. Qed.

(** An indexed element: what the code removes is what the association list drops. *)
Lemma indexed_remove ix l n p e : indexed ix l n → ix !! p = Some e →
  ∃ m, Value e l = Some m ∧ em_peerID m = p ∧ indexed (delete p ix) (Remove e l) n ∧
    (Remove e l).*2 = List.filter (other p) l.*2 ∧ List.filter (λ x, bool_decide (em_peerID x = p)) l.*2 = [m] ∧
    List.find (λ x, bool_decide (em_peerID x = p)) l.*2 = Some m ∧ length l = S (length (Remove e l)) ∧ p ∉ peers (Remove e l).
Proof.
  intros Hix Hp. pose proof Hix as [H1 H2 H3 H4]. apply H3 in Hp as (m & Hin & Hm).
  apply list_elem_of_split in Hin as (l1 & l2 & ->). destruct (Remove_split e m l1 l2 H1) as [-> ->]. exists m.
  assert (p ∉ peers (l1 ++ l2)) as Hn.
  { revert H2. unfold peers. rewrite !fmap_app, fmap_cons. cbn [snd]. rewrite Hm. intros Hnd%NoDup_app.
    destruct Hnd as (_ & Hd & Hnd). apply NoDup_cons in Hnd as [Hnd _]. rewrite not_elem_of_app. split; [|done].
    intros Hin. apply (Hd p Hin). constructor. }
  assert (indexed (delete p ix) (l1 ++ l2) n) as Hix'.
  { subst p. apply (indexed_tail ix e m). eapply indexed_perm; [|exact Hix]. by rewrite <- Permutation_middle. }
  rewrite !fmap_app, fmap_cons. cbn [snd].
  destruct (other_split p m l1.*2 l2.*2 Hm) as (E1 & E2 & E3); [by rewrite <- fmap_app, <- peers_held|].
  split_and!; try done. rewrite !length_app. simpl. lia.
Qed.

Lemma indexed_absent ix l n p : indexed ix l n → ix !! p = None → p ∉ peers l.
Proof.
  intros [H1 H2 H3 H4] Hp Hin. apply list_elem_of_fmap in Hin as ([e m] & -> & Hin).
  assert (ix !! em_peerID m = Some e) by (apply H3; eauto). simpl in Hp. congruence.
Qed.

Lemma indexed_push ix l n m : indexed ix l n → em_peerID m ∉ peers l → indexed (<[em_peerID m := n]> ix) (l ++ [(n, m)]) (S n).
Proof.
  intros [H1 H2 H3 H4] Hn. assert (n ∉ l.*1) as Hnn.
  { intros ([e m'] & -> & Hin)%list_elem_of_fmap. apply H4 in Hin. simpl in Hin. lia. }
  split.
  - rewrite fmap_app. apply NoDup_app. split_and!; [done| |apply NoDup_singleton]. intros e He ->%list_elem_of_singleton. done.
  - rewrite peers_app. apply NoDup_app. split_and!; [done| |apply NoDup_singleton]. intros p Hp ->%list_elem_of_singleton. done.
  - intros p e. rewrite lookup_insert_Some, H3. split.
    + intros [[<- <-]|[Hne (m' & Hin & Hm')]].
      * exists m. split; [apply elem_of_app; right; apply list_elem_of_singleton|]; done.
      * exists m'. split; [apply elem_of_app; by left|done].
    + intros (m' & [Hin|[= -> ->]%list_elem_of_singleton]%elem_of_app & <-); [right|by left].
      split; [|eauto]. intros E. apply Hn. rewrite E. by apply (list_elem_of_fmap_2 (λ x : nat * earlyMsg, em_peerID x.2) l (e, m')).
  - intros e m' [Hin|[= -> ->]%list_elem_of_singleton]%elem_of_app; [apply H4 in Hin; lia|lia].
Qed.

(** ** The operations *)

(** A message of a peer that has none is appended; the first one starts the timer. *)
Lemma push_ok now p m b : indexed (index b) (order b) (nextElem b) → p ∉ peers (order b) → closed b = false →
  (length (order b) < earlyMsgCapacity)%nat → (order b ≠ [] → is_Some (timer b)) →
  let b1 := mkBuffer (<[p := nextElem b]> (index b)) (order b ++ [(nextElem b, mkEarlyMsg p m now)]) (timer b) (closed b)
              (S (nextElem b)) in
  let b' := if bool_decide (length (order b1) = 1%nat) then scheduleCleanup now earlyMsgTTL b1 else b1 in
  buffer_ok b' ∧ held b' = held b ++ [mkEarlyMsg p m now].
Proof.
  intros Hix Hp Hc Hlt Ht b1 b'. assert (indexed (index b1) (order b1) (nextElem b1)) as Hix'.
  { apply (indexed_push _ _ _ (mkEarlyMsg p m now)); done. }
  assert (order b1 ≠ []) as Hne by (intros E; by apply app_eq_nil in E as [_ ?]).
  assert (length (order b1) = S (length (order b))) as Hlen by (simpl; rewrite length_app; simpl; lia).
  assert (held b1 = held b ++ [mkEarlyMsg p m now]) as Hh by (unfold held; simpl; by rewrite fmap_app).
  assert (closed b1 = true → order b1 = []) as Hcl by (cbn [b1 closed]; congruence).
  assert (length (order b1) ≤ earlyMsgCapacity)%nat as Hsz by lia.
  unfold b'. case_bool_decide as H1; (split; [|exact Hh]); split; try assumption.
  - split; [done|]. intros _. eexists. reflexivity.
  - split; [done|]. intros _. apply Ht. intros E. apply H1. rewrite Hlen, E. done.
Qed.

(** Storing a message: it never fails on a broken index, the invariant holds again, and
    the buffer is the association list in which the peer's older message is replaced:
    a message is refused only when a thousand other peers have one. *)
Lemma put_refines now p m b : buffer_ok b → closed b = false →
  ∃ ok freed b', put now p m b = Ok (ok, freed, b') ∧ buffer_ok b' ∧ spec_put now p m (held b) = (ok, freed, held b').
Proof.
  intros [Hix Hs Ht Hc] Hcl. unfold put, spec_put. rewrite Hcl. fold (other p).
  destruct (index b !! p) as [e|] eqn:Hp.
  - destruct (indexed_remove _ _ _ _ _ Hix Hp) as (old & -> & Hold & Hix' & E1 & E2 & E3 & Hlen & Hn). cbn [obind].
    cbn [order]. rewrite (bool_decide_false (earlyMsgCapacity ≤ length (Remove e (order b)))%nat) by lia.
    change (held b) with (order b).*2. rewrite E2, <- E1.
    rewrite (bool_decide_false (earlyMsgCapacity ≤ length _)%nat) by (rewrite length_fmap; lia).
    eexists _, _, _. split; [done|].
    set (b0 := mkBuffer (delete p (index b)) (Remove e (order b)) (timer b) false (nextElem b)).
    destruct (push_ok now p m b0) as [Hok Hh]; try done; [simpl; lia| |].
    { intros _. apply Ht. intros E. rewrite E in Hlen. done. }
    split; [exact Hok|]. unfold held at 2 in Hh. cbn [b0 order] in Hh. rewrite <- Hh. done.
  - pose proof (indexed_absent _ _ _ _ Hix Hp) as Hn. cbn [obind].
    destruct (other_absent p (held b)) as (E1 & E2 & _); [unfold held; by rewrite <- peers_held|].
    rewrite E1, E2. assert (length (held b) = length (order b)) as -> by (unfold held; by rewrite length_fmap).
    case_bool_decide as Hfull.
    + eexists _, _, _. split; [done|]. split; [by split|done].
    + eexists _, _, _. split; [done|]. destruct (push_ok now p m b) as [Hok Hh]; try done; [lia|apply Ht|].
      split; [exact Hok|]. by rewrite <- Hh.
Qed.

(** Taking the message of a peer. *)
Lemma pop_refines p b : buffer_ok b →
  ∃ r b', pop p b = Ok (r, b') ∧ buffer_ok b' ∧ spec_pop p (held b) = (r, held b').
Proof.
  intros [Hix Hs Ht Hc]. unfold pop, spec_pop. fold (other p). destruct (index b !! p) as [e|] eqn:Hp.
  - destruct (indexed_remove _ _ _ _ _ Hix Hp) as (old & -> & Hold & Hix' & E1 & E2 & E3 & Hlen & Hn).
    eexists _, _. split; [done|]. change (held b) with (order b).*2. rewrite E3, <- E1. cbn [order]. split.
    + case_bool_decide as Hnil; split; cbn [stopCleanup index order nextElem timer closed]; try done; try lia.
      * split; [done|]. intros _. apply Ht. intros E. rewrite E in Hlen. done.
      * intros E%Hc. rewrite E in Hlen. done.
    + by case_bool_decide.
  - pose proof (indexed_absent _ _ _ _ Hix Hp) as Hn.
    destruct (other_absent p (held b)) as (E1 & _ & E3); [unfold held; by rewrite <- peers_held|].
    eexists _, _. split; [done|]. split; [by split|]. by rewrite E1, E3.
Qed.

Lemma expire_spec now l ix n freed l' ix' : indexed ix l n → expire now l ix = (freed, l', ix') →
  indexed ix' l' n ∧ ∃ dead, l = dead ++ l' ∧ freed = (λ x, em_msg x.2) <$> dead ∧
    Forall (λ x, earlyMsgTTL < Sub now (createdAt x.2)) dead ∧
    (∀ x, head l' = Some x → Sub now (createdAt x.2) ≤ earlyMsgTTL).
Proof.
  revert ix freed l' ix'. induction l as [|[e m] l IH]; intros ix freed l' ix' Hix; cbn [expire].
  { intros [= <- <- <-]. split; [done|]. by exists []. }
  destruct (Sub now (createdAt m) <=? earlyMsgTTL) eqn:Et.
  { intros [= <- <- <-]. split; [done|]. exists []. split_and!; try done. intros x [= <-]. by apply Z.leb_le. }
  destruct (expire now l _) as [[fr l1] ix1] eqn:E. intros [= <- <- <-]. apply indexed_tail in Hix.
  destruct (IH _ _ _ _ Hix E) as (Hix1 & dead & -> & -> & Hd & Hh). split; [done|].
  exists ((e, m) :: dead). split_and!; try done. constructor; [by apply Z.leb_gt in Et|done].
Qed.

(** The timer: the messages that are dropped have expired, they are the oldest ones,
    and when the messages are in the order of their times every one that has expired
    is dropped; the timer is set for the oldest message that is left. *)
Lemma removeExpired_spec now b freed b' : buffer_ok b → closed b = false → removeExpired now b = (freed, b') →
  buffer_ok b' ∧ ∃ dead, held b = dead ++ held b' ∧ freed = em_msg <$> dead ∧
    Forall (λ x, earlyMsgTTL < Sub now (createdAt x)) dead ∧
    (StronglySorted (λ x y, createdAt x ≤ createdAt y) (held b) → Forall (λ x, Sub now (createdAt x) ≤ earlyMsgTTL) (held b')) ∧
    (∀ x, head (held b') = Some x → now - createdAt x < 2 ^ 63 → - 2 ^ 63 ≤ now - createdAt x →
       timer b' = Some (createdAt x + earlyMsgTTL)).
Proof.
  intros [Hix Hs Ht Hc] Hcl. unfold removeExpired. rewrite Hcl.
  destruct (expire now (order b) (index b)) as [[fr l] ix] eqn:E. intros [= <- <-].
  destruct (expire_spec _ _ _ _ _ _ _ Hix E) as (Hix' & dead & Ho & -> & Hd & Hh). split.
  { rewrite Ho, length_app in Hs. split; cbn [index order nextElem timer closed]; try done; [lia|].
    destruct l as [|[e m] l]; [|by split; eauto]. by split; [intros [? ?]|]. }
  unfold held. cbn [order]. rewrite Ho, fmap_app. exists dead.*2. split; [done|].
  split; [by rewrite <- list_fmap_compose|]. split; [by apply Forall_fmap|]. split.
  - intros Hss. destruct l as [|x l]; [constructor|]. rewrite fmap_cons in *. specialize (Hh x eq_refl).
    apply StronglySorted_app_1_r in Hss. apply StronglySorted_inv in Hss as [_ Hss]. constructor; [done|].
    eapply Forall_impl; [exact Hss|]. intros y Hy. simpl in Hy. unfold Sub in *. lia.
  - destruct l as [|[e m] l]; [done|]. cbn [timer fmap list_fmap head snd]. intros x [= <-] Hlo Hhi. f_equal. unfold Sub. lia.
Qed.

(** Closing frees every message, once. *)
Lemma close_frees_all b freed b' : buffer_ok b → close b = (freed, b') →
  buffer_ok b' ∧ held b' = [] ∧ closed b' = true ∧ freed = em_msg <$> held b.
Proof.
  intros [Hix Hs Ht Hc]. unfold close. destruct (closed b) eqn:Ecl.
  - intros [= <- <-]. specialize (Hc eq_refl). unfold held. rewrite Hc. split; [split; rewrite ?Ecl; auto|done].
  - intros [= <- <-]. unfold held. rewrite <- list_fmap_compose. split; [|done]. split; cbn [index order nextElem timer closed]; [| |by split; [intros [? ?]|]|done].
    + split; [constructor|constructor| |by intros ? ? ?%elem_of_nil].
      intros p e. rewrite lookup_empty. split; [done|]. by intros (? & ?%elem_of_nil & _).
    + simpl. lia.
Qed.

(** ** Any sequence of operations *)

Inductive op := OpPut (now : Z) (p : PeerID) (m : Msg) | OpPop (p : PeerID) | OpExpire (now : Z) | OpClose.

(** What the caller gets, and what is freed. *)
Inductive answer := Stored (ok : bool) (freed : list Msg) | Taken (m : option Msg) | Freed (l : list Msg).

Definition run_op (o : op) (b : earlyMsgBuffer) : outcome unit (answer * earlyMsgBuffer) :=
  match o with
  | OpPut now p m => let! r := put now p m b in let '(ok, freed, b) := r in Ok (Stored ok freed, b)
  | OpPop p => let! r := pop p b in let '(m, b) := r in Ok (Taken m, b)
  | OpExpire now => let '(freed, b) := removeExpired now b in Ok (Freed freed, b)
  | OpClose => let '(freed, b) := close b in Ok (Freed freed, b)
  end.

Fixpoint run_ops (os : list op) (b : earlyMsgBuffer) : outcome unit (list answer * earlyMsgBuffer) :=
  match os with
  | [] => Ok ([], b)
  | o :: os =>
      let! r := run_op o b in let '(a, b) := r in
      let! r := run_ops os b in let '(rest, b) := r in
      Ok (a :: rest, b)
  end.

Fixpoint spec_expire (now : Z) (l : list earlyMsg) : list Msg * list earlyMsg :=
  match l with
  | [] => ([], [])
  | x :: rest =>
      if Sub now (createdAt x) <=? earlyMsgTTL then ([], l)
      else let '(freed, l) := spec_expire now rest in (em_msg x :: freed, l)
  end.

(** The association list, and whether it is closed. *)
Definition spec_op (o : op) (st : list earlyMsg * bool) : answer * (list earlyMsg * bool) :=
  let '(l, cl) := st in
  match o with
  | OpPut now p m =>
      if cl then (Stored false [], st)
      else let '(ok, freed, l) := spec_put now p m l in (Stored ok freed, (l, cl))
  | OpPop p => let '(m, l) := spec_pop p l in (Taken m, (l, cl))
  | OpExpire now => let '(freed, l) := spec_expire now l in (Freed freed, (l, cl))
  | OpClose => (Freed (em_msg <$> l), ([], true))
  end.

Fixpoint spec_ops (os : list op) (st : list earlyMsg * bool) : list answer * (list earlyMsg * bool) :=
  match os with
  | [] => ([], st)
  | o :: os => let '(a, st) := spec_op o st in let '(rest, st) := spec_ops os st in (a :: rest, st)
  end.

Lemma spec_expire_expire now l ix freed l' ix' : expire now l ix = (freed, l', ix') → spec_expire now l.*2 = (freed, l'.*2).
Proof.
  revert ix freed l' ix'. induction l as [|[e m] l IH]; intros ix freed l' ix'; cbn [expire]; [by intros [= <- <- <-]|].
  rewrite fmap_cons. cbn [snd spec_expire]. destruct (_ <=? _); [by intros [= <- <- <-]|].
  destruct (expire now l _) as [[fr l1] ix1] eqn:E. intros [= <- <- <-]. by rewrite (IH _ _ _ _ E).
Qed.

Lemma put_closed now p m b ok freed b' : put now p m b = Ok (ok, freed, b') → closed b' = closed b.
Proof.
  unfold put. destruct (closed b) eqn:Hc; [by intros [= _ _ <-]|].
  destruct (index b !! p) as [e|]; [destruct (Value e (order b)); [|done]|]; cbn [obind]; case_bool_decide;
    intros [= _ _ <-]; try done; case_bool_decide; done.
Qed.

Lemma run_op_refines o b : buffer_ok b → ∃ a b', run_op o b = Ok (a, b') ∧ buffer_ok b' ∧
  spec_op o (held b, closed b) = (a, (held b', closed b')).
Proof.
  intros Hok. destruct o as [now p m|p|now|]; cbn [run_op spec_op].
  - destruct (closed b) eqn:Hc; [unfold put; rewrite Hc; cbn [obind]; eexists _, _; split; [done|]; by rewrite Hc|].
    destruct (put_refines now p m b Hok Hc) as (ok & freed & b' & E & Hok' & ->). rewrite E. cbn [obind].
    eexists _, _. split; [done|]. split; [done|]. apply put_closed in E. by rewrite E, Hc.
  - destruct (pop_refines p b Hok) as (r & b' & E & Hok' & ->). rewrite E. cbn [obind]. eexists _, _. split; [done|].
    split; [done|]. do 2 f_equal. revert E. unfold pop. repeat case_match; try done; by intros [= _ <-].
  - unfold removeExpired. destruct (closed b) eqn:Hc.
    + eexists _, _. split; [done|]. split; [done|]. rewrite Hc. unfold held. by rewrite (ok_closed b Hok Hc).
    + destruct (removeExpired now b) as [fr b'] eqn:E. destruct (removeExpired_spec _ _ _ _ Hok Hc E) as [Hok' _].
      unfold removeExpired in E. rewrite Hc in E. destruct (expire now (order b) (index b)) as [[freed l] ix] eqn:Ee.
      injection E as <- <-. eexists _, _. split; [done|]. split; [exact Hok'|]. unfold held at 1.
      by rewrite (spec_expire_expire _ _ _ _ _ _ Ee).
  - destruct (close b) as [fr b'] eqn:E. destruct (close_frees_all _ _ _ Hok E) as (Hok' & Hh & Hcl & ->).
    eexists _, _. split; [done|]. split; [done|]. by rewrite Hh, Hcl.
Qed.

Lemma new_buffer_ok : buffer_ok newEarlyMsgBuffer.
Proof.
  split; simpl; [|lia|by split; [intros [? ?]|]|done]. split; [constructor|constructor| |by intros ? ? ?%elem_of_nil].
  intros p e. rewrite lookup_empty. split; [done|]. by intros (? & ?%elem_of_nil & _).
Qed.

(** C27: Whatever is done with a buffer, it never fails on its index, and it answers, keeps
    and frees what an association list with one message per peer and room for a
    thousand does. *)
Theorem early_buffer_refines os : ∃ answers b, run_ops os newEarlyMsgBuffer = Ok (answers, b) ∧ buffer_ok b ∧
  spec_ops os ([], false) = (answers, (held b, closed b)).
Proof.
  change ([], false) with (held newEarlyMsgBuffer, closed newEarlyMsgBuffer). generalize new_buffer_ok.
  generalize newEarlyMsgBuffer. induction os as [|o os IH]; intros b Hok; cbn [run_ops spec_ops]; [eauto|].
  destruct (run_op_refines o b Hok) as (a & b1 & -> & Hok1 & ->). cbn [obind].
  destruct (IH b1 Hok1) as (rest & b2 & -> & Hok2 & ->). cbn [obind]. eauto.
Qed.
