(* ===== verification/RelayClient.v ===== *)
(** * The relay client

    shared/relay/client: client.go (the connections to other peers over one relay
    connection), conn.go, peer_subscription.go; the early messages are RelayEarly's.

    [PeersStateSubscription]: channels are objects with a number; sending on a full
    channel blocks while the mutex is held, sending on or closing a closed one panics.

    [Client]: the read loop, the callers of OpenConn, the readers of connections and
    the callers of Close are threads; a critical section is a step.  Every read takes
    a buffer from the pool; buffers are numbered as they are taken, and the state says
    where each of them is. *)

From S2P Require Import Prelude GoStd RelayMessages RelayEarly.

Local Open Scope go_scope.
Local Open Scope list_scope.

(** ** peer_subscription.go *)
Module Subscription.

(** A channel of capacity one. *)
Record Chan := mkChan { full : bool; shut : bool }.

Record Sub := mkSub {
  listenForOfflinePeers : gset PeerID;
  waitingPeers : gmap PeerID nat;
  chans : gmap nat Chan;
  nextChan : nat
}.

Definition NewPeersStateSubscription : Sub := mkSub ∅ ∅ ∅ 0.

Inductive chanErr := blocked.

Definition chan_send (c : nat) (m : gmap nat Chan) : outcome chanErr (gmap nat Chan) :=
  match m !! c with
  | Some ch => if shut ch then Panic else if full ch then Err blocked else Ok (<[c := mkChan true false]> m)
  | None => Panic
  end.

Definition chan_close (c : nat) (m : gmap nat Chan) : outcome chanErr (gmap nat Chan) :=
  match m !! c with
  | Some ch => if shut ch then Panic else Ok (<[c := mkChan (full ch) true]> m)
  | None => Panic
  end.

Fixpoint OnPeersOnline (peersID : list PeerID) (s : Sub) : outcome chanErr Sub :=
  match peersID with
  | [] => Ok s
  | peerID :: rest =>
      match waitingPeers s !! peerID with
      | None => OnPeersOnline rest s
      | Some waitCh =>
          let! m := chan_send waitCh (chans s) in
          let! m := chan_close waitCh m in
          OnPeersOnline rest (mkSub (listenForOfflinePeers s) (delete peerID (waitingPeers s)) m (nextChan s))
      end
  end.

(** The peers the callback is called with. *)
Definition OnPeersWentOffline (peersID : list PeerID) (s : Sub) : list PeerID :=
  List.filter (λ p, bool_decide (p ∈ listenForOfflinePeers s)) peersID.

Inductive waitErr := alreadyWaiting.

(** The first critical section of WaitToBeOnlineAndSubscribe; the channel it waits on. *)
Definition Wait_begin (peerID : PeerID) (s : Sub) : outcome waitErr (nat * Sub) :=
  match waitingPeers s !! peerID with
  | Some _ => Err alreadyWaiting
  | None =>
      let c := nextChan s in
      Ok (c, mkSub ({[ peerID ]} ∪ listenForOfflinePeers s) (<[peerID := c]> (waitingPeers s))
               (<[c := mkChan false false]> (chans s)) (S c))
  end.

(** What the select sees: the peer is online, or the wait was cancelled; [None] while it waits. *)
Definition Wait_receive (c : nat) (s : Sub) : option bool :=
  match chans s !! c with
  | Some ch => if full ch then Some true else if shut ch then Some false else None
  | None => None
  end.

(** After a failed subscription or a timeout. *)
Definition Wait_abort (c : nat) (peerID : PeerID) (s : Sub) : outcome chanErr Sub :=
  if bool_decide (waitingPeers s !! peerID = Some c) then
    let! m := chan_close c (chans s) in
    Ok (mkSub (listenForOfflinePeers s ∖ {[ peerID ]}) (delete peerID (waitingPeers s)) m (nextChan s))
  else Ok s.

Fixpoint UnsubscribeStateChange (peerIDs : list PeerID) (s : Sub) : outcome chanErr Sub :=
  match peerIDs with
  | [] => Ok s
  | peerID :: rest =>
      let! m := (match waitingPeers s !! peerID with Some wch => chan_close wch (chans s) | None => Ok (chans s) end) in
      UnsubscribeStateChange rest
        (mkSub (listenForOfflinePeers s ∖ {[ peerID ]}) (delete peerID (waitingPeers s)) m (nextChan s))
  end.

Fixpoint close_all (cs : list nat) (m : gmap nat Chan) : outcome chanErr (gmap nat Chan) :=
  match cs with [] => Ok m | c :: cs => let! m := chan_close c m in close_all cs m end.

Definition Cleanup (s : Sub) : outcome chanErr Sub :=
  let! m := close_all (map_to_list (waitingPeers s)).*2 (chans s) in
  Ok (mkSub ∅ ∅ m (nextChan s)).

(** Every waiting peer has a channel of its own, open and empty. *)
Record sub_ok (s : Sub) : Prop := mkSubOk {
  sub_open p c : waitingPeers s !! p = Some c → chans s !! c = Some (mkChan false false);
  sub_own p q c : waitingPeers s !! p = Some c → waitingPeers s !! q = Some c → p = q;
  sub_next c ch : chans s !! c = Some ch → (c < nextChan s)%nat
}.

Inductive op := Online (ps : list PeerID) | Begin (p : PeerID) | Abort (c : nat) (p : PeerID) | Unsubscribe (ps : list PeerID) | Clean.

Definition run_op (o : op) (s : Sub) : outcome chanErr Sub :=
  match o with
  | Online ps => OnPeersOnline ps s
  | Begin p => match Wait_begin p s with Ok (_, s) => Ok s | _ => Ok s end
  | Abort c p => Wait_abort c p s
  | Unsubscribe ps => UnsubscribeStateChange ps s
  | Clean => Cleanup s
  end.

Fixpoint run_ops (os : list op) (s : Sub) : outcome chanErr Sub :=
  match os with [] => Ok s | o :: os => let! s := run_op o s in run_ops os s end.

(** A channel that leaves the map may be filled and closed. *)
Lemma sub_ok_leave s p c ch l : sub_ok s → waitingPeers s !! p = Some c →
  sub_ok (mkSub l (delete p (waitingPeers s)) (<[c := ch]> (chans s)) (nextChan s)).
Proof.
  intros [H1 H2 H3] Hp. split; cbn [waitingPeers chans nextChan].
  - intros q c' [Hne Hq]%lookup_delete_Some. rewrite lookup_insert_ne; [by eapply H1|].
    intros ->. apply Hne. by eapply H2.
  - intros q q' c' [_ Hq]%lookup_delete_Some [_ Hq']%lookup_delete_Some. by eapply H2.
  - intros c' ch' [[<- _]|[_ Hc]]%lookup_insert_Some; [|by eapply H3]. apply H1 in Hp. by apply H3 in Hp.
Qed.

Lemma sub_ok_drop s p l : sub_ok s → waitingPeers s !! p = None →
  sub_ok (mkSub l (delete p (waitingPeers s)) (chans s) (nextChan s)).
Proof. intros [H1 H2 H3] Hp. rewrite delete_id by done. by split. Qed.

Lemma OnPeersOnline_ok ps s : sub_ok s → ∃ s', OnPeersOnline ps s = Ok s' ∧ sub_ok s'.
Proof.
  revert s. induction ps as [|p ps IH]; intros s Hs; cbn [OnPeersOnline]; [eauto|].
  destruct (waitingPeers s !! p) as [c|] eqn:Hp; [|by apply IH].
  pose proof (sub_open s Hs p c Hp) as Hc. unfold chan_send. rewrite Hc. cbn [shut full obind].
  unfold chan_close. rewrite lookup_insert_eq. cbn [shut full obind]. rewrite insert_insert_eq. apply IH. by apply sub_ok_leave.
Qed.

Lemma Unsubscribe_ok ps s : sub_ok s → ∃ s', UnsubscribeStateChange ps s = Ok s' ∧ sub_ok s'.
Proof.
  revert s. induction ps as [|p ps IH]; intros s Hs; cbn [UnsubscribeStateChange]; [eauto|].
  destruct (waitingPeers s !! p) as [c|] eqn:Hp; cbn [obind].
  - unfold chan_close. rewrite (sub_open s Hs p c Hp). cbn [shut full obind]. apply IH. by apply sub_ok_leave.
  - apply IH. by apply sub_ok_drop.
Qed.

Lemma close_all_ok cs m : NoDup cs → Forall (λ c, m !! c = Some (mkChan false false)) cs →
  ∃ m', close_all cs m = Ok m' ∧ dom m' = dom m.
Proof.
  revert m. induction cs as [|c cs IH]; intros m Hnd Hf; cbn [close_all]; [eauto|].
  apply NoDup_cons in Hnd as [Hn Hnd]. apply Forall_cons in Hf as [Hc Hf]. unfold chan_close. rewrite Hc. cbn [shut full obind].
  destruct (IH (<[c := mkChan false true]> m) Hnd) as (m' & E & Hd).
  - rewrite Forall_forall in *. intros c' Hc'. rewrite lookup_insert_ne; [by apply Hf|]. by intros ->.
  - exists m'. split; [done|]. rewrite Hd. apply dom_insert_lookup_L. eauto.
Qed.

Lemma Cleanup_ok s : sub_ok s → ∃ s', Cleanup s = Ok s' ∧ sub_ok s'.
Proof.
  intros [H1 H2 H3]. unfold Cleanup.
  destruct (close_all_ok (map_to_list (waitingPeers s)).*2 (chans s)) as (m & -> & Hd).
  - apply NoDup_fmap_2_strong; [|apply NoDup_map_to_list].
    intros [p c] [q c'] Hp Hq E. simpl in E. subst c'. apply elem_of_map_to_list in Hp, Hq. by rewrite (H2 p q c Hp Hq).
  - apply Forall_fmap, Forall_forall. intros [p c] Hp%elem_of_map_to_list. by apply (H1 p).
  - cbn [obind]. eexists. split; [done|]. split; cbn [waitingPeers chans nextChan]; [done|done|].
    intros c ch Hc. assert (c ∈ dom (chans s)) as [ch' Hc']%elem_of_dom by (rewrite <- Hd; apply elem_of_dom; eauto).
    by eapply H3.
Qed.

Lemma run_sub_op_ok o s : sub_ok s → ∃ s', run_op o s = Ok s' ∧ sub_ok s'.
Proof.
  intros Hs. destruct o as [ps|p|c p|ps|]; cbn [run_op].
  - by apply OnPeersOnline_ok.
  - unfold Wait_begin. destruct (waitingPeers s !! p) eqn:Hp; [eauto|]. eexists. split; [done|]. destruct Hs as [H1 H2 H3].
    assert (∀ q c, waitingPeers s !! q = Some c → c ≠ nextChan s) as Hfresh.
    { intros q c Hq ->. apply H1, H3 in Hq. lia. }
    split; cbn [waitingPeers chans nextChan].
    + intros q c [[<- <-]|[_ Hq]]%lookup_insert_Some; [apply lookup_insert_eq|].
      rewrite lookup_insert_ne; [by eapply H1|]. by apply not_eq_sym, (Hfresh q).
    + intros q q' c [[<- <-]|[_ Hq]]%lookup_insert_Some [[<- E]|[_ Hq']]%lookup_insert_Some; try done.
      * by apply Hfresh in Hq'.
      * subst c. by apply Hfresh in Hq.
      * by eapply H2.
    + intros c ch [[<- _]|[_ Hc]]%lookup_insert_Some; [lia|]. apply H3 in Hc. lia.
  - unfold Wait_abort. case_bool_decide as Hp; [|eauto]. unfold chan_close. rewrite (sub_open s Hs p c Hp). cbn [shut full obind].
    eexists. split; [done|]. by apply sub_ok_leave.
  - by apply Unsubscribe_ok.
  - by apply Cleanup_ok.
Qed.

(** No notification, however it interleaves with waits, timeouts, unsubscriptions and
    the end of the connection, blocks on a full channel while the mutex is held, sends
    on a closed channel or closes one twice. *)
Theorem notifications_never_block_or_panic os : ∃ s, run_ops os NewPeersStateSubscription = Ok s ∧ sub_ok s.
Proof.
  assert (sub_ok NewPeersStateSubscription) as Hs by (split; cbn; intros; by simplify_map_eq).
  revert Hs. generalize NewPeersStateSubscription. induction os as [|o os IH]; intros s Hs; cbn [run_ops]; [eauto|].
  destruct (run_sub_op_ok o s Hs) as (s' & -> & Hs'). cbn [obind]. by apply IH.
Qed.

End Subscription.

(** ** client.go *)
Module Client.

Definition connChannelSize : nat := 100.

Record connContainer := mkContainer { c_peer : PeerID; c_messages : list Msg; c_closed : bool; c_cancelled : bool }.

Definition newConnContainer (p : PeerID) : connContainer := mkContainer p [] false false.

(** The container and the messages that are freed.  When the context is done and the
    channel has room, select may choose either. *)
Inductive writeMsg (m : Msg) : connContainer → connContainer → list Msg → Prop :=
| write_closed c : c_closed c = true → writeMsg m c c [m]
| write_sent c : c_closed c = false → (length (c_messages c) < connChannelSize)%nat →
    writeMsg m c (mkContainer (c_peer c) (c_messages c ++ [m]) false (c_cancelled c)) []
| write_done c : c_closed c = false → c_cancelled c = true → writeMsg m c c [m]
| write_full c : c_closed c = false → (connChannelSize ≤ length (c_messages c))%nat → writeMsg m c c [m].

Definition container_close (c : connContainer) : connContainer * list Msg :=
  if c_closed c then (mkContainer (c_peer c) (c_messages c) true true, [])
  else (mkContainer (c_peer c) [] true true, c_messages c).

(** Where the read loop is: in Read, or on its way to a container or an early buffer. *)
Inductive Loop := Reading | Delivers (c : nat) (m : Msg) | Buffers (g : nat) (p : PeerID) (m : Msg).

(** A caller of OpenConn: about to write the early message, waiting for the peer to be
    online, or about to close its container. *)
Inductive Opener := Flushes (c : nat) (p : PeerID) (m : Msg) | Waits (c : nat) (p : PeerID) | Gives_up (c : nat).

Record Client := mkClient {
  serviceIsRunning : bool;
  conns : gmap PeerID nat;
  containers : gmap nat connContainer;
  nextContainer : nat;
  earlies : gmap nat earlyMsgBuffer;   (* all buffers so far; the current one is the last *)
  earlyMsgs : nat;
  loop : option Loop;                  (* the read loop, until it is done *)
  closers : nat;                       (* ended loops that still call close *)
  openers : list Opener;
  copying : list Msg;                  (* messages that Conn.Read copies *)
  freed : list Msg;
  leaked : list Msg;
  taken : nat                          (* the number of buffers taken *)
}.

Definition NewClient : Client := mkClient false ∅ ∅ 0 {[ 0%nat := newEarlyMsgBuffer ]} 0 None 0 [] [] [] [] 0.

Definition set_conns (m : gmap PeerID nat) (s : Client) : Client :=
  mkClient (serviceIsRunning s) m (containers s) (nextContainer s) (earlies s) (earlyMsgs s) (loop s) (closers s) (openers s)
    (copying s) (freed s) (leaked s) (taken s).

Definition set_container (i : nat) (c : connContainer) (s : Client) : Client :=
  mkClient (serviceIsRunning s) (conns s) (<[i := c]> (containers s)) (nextContainer s) (earlies s) (earlyMsgs s) (loop s)
    (closers s) (openers s) (copying s) (freed s) (leaked s) (taken s).

Definition set_early (g : nat) (b : earlyMsgBuffer) (s : Client) : Client :=
  mkClient (serviceIsRunning s) (conns s) (containers s) (nextContainer s) (<[g := b]> (earlies s)) (earlyMsgs s) (loop s)
    (closers s) (openers s) (copying s) (freed s) (leaked s) (taken s).

Definition set_loop (l : option Loop) (s : Client) : Client :=
  mkClient (serviceIsRunning s) (conns s) (containers s) (nextContainer s) (earlies s) (earlyMsgs s) l (closers s) (openers s)
    (copying s) (freed s) (leaked s) (taken s).

Definition set_openers (l : list Opener) (s : Client) : Client :=
  mkClient (serviceIsRunning s) (conns s) (containers s) (nextContainer s) (earlies s) (earlyMsgs s) (loop s) (closers s) l
    (copying s) (freed s) (leaked s) (taken s).

Definition set_copying (l : list Msg) (s : Client) : Client :=
  mkClient (serviceIsRunning s) (conns s) (containers s) (nextContainer s) (earlies s) (earlyMsgs s) (loop s) (closers s)
    (openers s) l (freed s) (leaked s) (taken s).

Definition Free (ms : list Msg) (s : Client) : Client :=
  mkClient (serviceIsRunning s) (conns s) (containers s) (nextContainer s) (earlies s) (earlyMsgs s) (loop s) (closers s)
    (openers s) (copying s) (ms ++ freed s) (leaked s) (taken s).

Definition leak (m : Msg) (s : Client) : Client :=
  mkClient (serviceIsRunning s) (conns s) (containers s) (nextContainer s) (earlies s) (earlyMsgs s) (loop s) (closers s)
    (openers s) (copying s) (freed s) (m :: leaked s) (taken s).

(** A buffer from the pool. *)
Definition take_buffer (s : Client) : Client :=
  mkClient (serviceIsRunning s) (conns s) (containers s) (nextContainer s) (earlies s) (earlyMsgs s) (loop s) (closers s)
    (openers s) (copying s) (freed s) (leaked s) (S (taken s)).

(** The loop ends; close(false) is still to come. *)
Definition end_loop (s : Client) : Client :=
  mkClient (serviceIsRunning s) (conns s) (containers s) (nextContainer s) (earlies s) (earlyMsgs s) None (S (closers s))
    (openers s) (copying s) (freed s) (leaked s) (taken s).

(** *** The read loop *)

(** One round up to the next critical section; [None] is a failed read. *)
Definition handleTransportMsg (buf : bytes) (b : nat) (s : Client) : Client :=
  match UnmarshalTransportMsg buf with
  | Ok (peerID, payload) =>
      let m := mkMsg payload b in
      if negb (serviceIsRunning s) then end_loop (Free [m] s)
      else match conns s !! peerID with
           | Some i => set_loop (Some (Delivers i m)) s
           | None => set_loop (Some (Buffers (earlyMsgs s) peerID m)) s
           end
  | _ => Free [mkMsg buf b] s
  end.

Definition handleMsg (t : MsgType) (buf : bytes) (b : nat) (s : Client) : Client :=
  let m := mkMsg buf b in
  if bool_decide (t = MsgTypeTransport) then handleTransportMsg buf b s
  else if bool_decide (t = MsgTypeClose) then end_loop (Free [m] s)
  else if bool_decide (t ∈ [MsgTypeHealthCheck; MsgTypePeersOnline; MsgTypePeersWentOffline]) then Free [m] s
  else leak m s.

Definition readLoop_round (data : option bytes) (s : Client) : Client :=
  let b := taken s in
  let s := take_buffer s in
  match data with
  | None => end_loop (Free [mkMsg [] b] s)
  | Some buf =>
      match ValidateVersion buf, DetermineServerMessageType buf with
      | Ok _, Ok t => handleMsg t buf b s
      | _, _ => Free [mkMsg buf b] s
      end
  end.

(** *** Closing *)

Definition close_container (i : nat) (s : Client) : Client :=
  match containers s !! i with
  | None => s
  | Some c => let '(c, ms) := container_close c in Free ms (set_container i c s)
  end.

Fixpoint close_containers (is_ : list nat) (s : Client) : Client :=
  match is_ with [] => s | i :: is_ => close_containers is_ (close_container i s) end.

(** The early messages are freed with their buffer, and there is a new one. *)
Definition closeAllConns (s : Client) : Client :=
  let s := set_conns ∅ (close_containers (map_to_list (conns s)).*2 s) in
  match earlies s !! earlyMsgs s with
  | None => s
  | Some b =>
      let '(ms, b) := RelayEarly.close b in
      let s := Free ms (set_early (earlyMsgs s) b s) in
      mkClient (serviceIsRunning s) (conns s) (containers s) (nextContainer s) (<[S (earlyMsgs s) := newEarlyMsgBuffer]> (earlies s))
        (S (earlyMsgs s)) (loop s) (closers s) (openers s) (copying s) (freed s) (leaked s) (taken s)
  end.

Definition Client_close (s : Client) : Client :=
  if negb (serviceIsRunning s) then s
  else closeAllConns (mkClient false (conns s) (containers s) (nextContainer s) (earlies s) (earlyMsgs s) (loop s) (closers s)
         (openers s) (copying s) (freed s) (leaked s) (taken s)).

Fixpoint closeConnsByPeerID (peerIDs : list PeerID) (s : Client) : Client :=
  match peerIDs with
  | [] => s
  | p :: ps =>
      match conns s !! p with
      | None => closeConnsByPeerID ps s
      | Some i => closeConnsByPeerID ps (set_conns (delete p (conns s)) (close_container i s))
      end
  end.

Inductive connErr := notEstablished | connAlreadyExists | errClosed | mismatch.

Definition closeConn (i : nat) (p : PeerID) (s : Client) : outcome connErr Client :=
  match conns s !! p with
  | None => Err errClosed
  | Some j =>
      require bool_decide (j = i) else mismatch;
      Ok (close_container i (set_conns (delete p (conns s)) s))
  end.

(** Whether a write goes out. *)
Definition writeTo (i : nat) (p : PeerID) (s : Client) : outcome connErr unit :=
  match conns s !! p with
  | None => Err errClosed
  | Some j => require bool_decide (j = i) else errClosed; Ok ()
  end.

(** *** OpenConn *)

Definition OpenConn_begin (p : PeerID) (s : Client) : outcome connErr Client :=
  require serviceIsRunning s else notEstablished;
  match conns s !! p with
  | Some _ => Err connAlreadyExists
  | None =>
      let i := nextContainer s in
      let s := mkClient true (<[p := i]> (conns s)) (<[i := newConnContainer p]> (containers s)) (S i) (earlies s) (earlyMsgs s)
                 (loop s) (closers s) (openers s) (copying s) (freed s) (leaked s) (taken s) in
      match earlies s !! earlyMsgs s with
      | None => Panic
      | Some b =>
          match pop p b with
          | Ok (r, b) =>
              let s := set_early (earlyMsgs s) b s in
              Ok (set_openers ((match r with Some m => Flushes i p m | None => Waits i p end) :: openers s) s)
          | _ => Panic
          end
      end
  end.

(** The container leaves the map if it is still in it. *)
Definition forget (i : nat) (p : PeerID) (s : Client) : Client :=
  if bool_decide (conns s !! p = Some i) then set_conns (delete p (conns s)) s else s.

(** *** Steps *)

Inductive step : Client → Client → Prop :=
| step_connect s : serviceIsRunning s = false → loop s = None →
    step s (mkClient true (conns s) (containers s) (nextContainer s) (earlies s) (earlyMsgs s) (Some Reading) (closers s)
              (openers s) (copying s) (freed s) (leaked s) (taken s))
| step_read s data : loop s = Some Reading → step s (readLoop_round data s)
| step_deliver s i m c c' ms : loop s = Some (Delivers i m) → containers s !! i = Some c → writeMsg m c c' ms →
    step s (Free ms (set_container i c' (set_loop (Some Reading) s)))
| step_buffer s g p m b ok ms b' now : loop s = Some (Buffers g p m) → earlies s !! g = Some b →
    put now p m b = Ok (ok, ms, b') →
    step s (Free (if ok then ms else m :: ms) (set_early g b' (set_loop (Some Reading) s)))
| step_expire s g b now : earlies s !! g = Some b →
    step s (Free (removeExpired now b).1 (set_early g (removeExpired now b).2 s))
| step_open s p s' : OpenConn_begin p s = Ok s' → step s s'
| step_flush s l1 i p m l2 c c' ms : openers s = l1 ++ Flushes i p m :: l2 → containers s !! i = Some c → writeMsg m c c' ms →
    step s (Free ms (set_container i c' (set_openers (l1 ++ Waits i p :: l2) s)))
| step_opened s l1 i p l2 : openers s = l1 ++ Waits i p :: l2 → serviceIsRunning s = true → step s (set_openers (l1 ++ l2) s)
| step_unavailable s l1 i p l2 : openers s = l1 ++ Waits i p :: l2 →
    step s (forget i p (set_openers (l1 ++ Gives_up i :: l2) s))
| step_give_up s l1 i l2 : openers s = l1 ++ Gives_up i :: l2 → step s (close_container i (set_openers (l1 ++ l2) s))
| step_conn_read s i c m ms : containers s !! i = Some c → c_messages c = m :: ms →
    step s (set_copying (m :: copying s) (set_container i (mkContainer (c_peer c) ms (c_closed c) (c_cancelled c)) s))
| step_copied s l1 m l2 : copying s = l1 ++ m :: l2 → step s (Free [m] (set_copying (l1 ++ l2) s))
| step_conn_close s i p s' : closeConn i p s = Ok s' → step s s'
| step_offline s ps : step s (closeConnsByPeerID ps s)
| step_close s : step s (Client_close s)
| step_loop_close s n : closers s = S n →
    step s (Client_close (mkClient (serviceIsRunning s) (conns s) (containers s) (nextContainer s) (earlies s) (earlyMsgs s)
      (loop s) n (openers s) (copying s) (freed s) (leaked s) (taken s))).

Inductive reachable : Client → Prop :=
| reach_new : reachable NewClient
| reach_step s s' : reachable s → step s s' → reachable s'.

(** ** Where the buffers are *)

(** How often the buffer is among the messages. *)
Definition cnt (b : nat) (l : list Msg) : nat := length (List.filter (λ m, (bufPtr m =? b)%nat) l).

Definition total {X : Type} (f : X → nat) (m : gmap nat X) : nat := sum_list_with f (map_to_list m).*2.

Definition loop_msgs (l : option Loop) : list Msg := match l with Some (Delivers _ m) | Some (Buffers _ _ m) => [m] | _ => [] end.

Definition opener_msgs (o : Opener) : list Msg := match o with Flushes _ _ m => [m] | _ => [] end.

Definition early_msgs (b : earlyMsgBuffer) : list Msg := em_msg <$> held b.

(** In the read loop, in the channel of a connection, among the early messages, with a
    caller of OpenConn, with a reader of a connection, back in the pool, or lost. *)
Definition owners (b : nat) (s : Client) : nat :=
  cnt b (loop_msgs (loop s)) + total (cnt b ∘ c_messages) (containers s) + total (cnt b ∘ early_msgs) (earlies s) +
  cnt b (openers s ≫= opener_msgs) + cnt b (copying s) + cnt b (freed s) + cnt b (leaked s).

Lemma cnt_app b l1 l2 : cnt b (l1 ++ l2) = (cnt b l1 + cnt b l2)%nat.
Proof. unfold cnt. by rewrite List.filter_app, length_app. Qed.

Lemma cnt_cons b m l : cnt b (m :: l) = (cnt b [m] + cnt b l)%nat.
Proof. apply (cnt_app b [m] l). Qed.

Lemma total_lookup {X : Type} (f : X → nat) (m : gmap nat X) i x : m !! i = Some x → total f m = (f x + total f (delete i m))%nat.
Proof.
  intros Hi. unfold total. rewrite <- (insert_delete_id m i x Hi) at 1.
  rewrite map_to_list_insert by apply lookup_delete_eq. done.
Qed.

Lemma total_insert {X : Type} (f : X → nat) (m : gmap nat X) i x : total f (<[i := x]> m) = (f x + total f (delete i m))%nat.
Proof. rewrite (total_lookup f _ i x) by apply lookup_insert_eq. by rewrite delete_insert_eq. Qed.

Lemma total_new {X : Type} (f : X → nat) (m : gmap nat X) i x : m !! i = None → total f (<[i := x]> m) = (f x + total f m)%nat.
Proof. intros Hi. by rewrite total_insert, delete_id. Qed.

Lemma total_update {X : Type} (f : X → nat) (m : gmap nat X) i x y : m !! i = Some x →
  (total f (<[i := y]> m) + f x = total f m + f y)%nat.
Proof. intros Hi. rewrite total_insert, (total_lookup f m i x Hi). lia. Qed.

Lemma owners_free b ms s : owners b (Free ms s) = (owners b s + cnt b ms)%nat.
Proof. unfold owners. cbn -[cnt total]. rewrite cnt_app. lia. Qed.

Lemma owners_container b i c c' s : containers s !! i = Some c →
  (owners b (set_container i c' s) + cnt b (c_messages c) = owners b s + cnt b (c_messages c'))%nat.
Proof.
  intros Hi. unfold owners. cbn -[cnt total]. pose proof (total_update (cnt b ∘ c_messages) _ i c c' Hi) as E. simpl in E. lia.
Qed.

Lemma owners_early b g e e' s : earlies s !! g = Some e →
  (owners b (set_early g e' s) + cnt b (early_msgs e) = owners b s + cnt b (early_msgs e'))%nat.
Proof.
  intros Hi. unfold owners. cbn -[cnt total early_msgs]. pose proof (total_update (cnt b ∘ early_msgs) _ g e e' Hi) as E.
  cbn -[cnt early_msgs total] in E. lia.
Qed.

Lemma owners_loop b l s : (owners b (set_loop l s) + cnt b (loop_msgs (loop s)) = owners b s + cnt b (loop_msgs l))%nat.
Proof. unfold owners. cbn -[cnt total]. lia. Qed.

Lemma owners_openers b l s :
  (owners b (set_openers l s) + cnt b (openers s ≫= opener_msgs) = owners b s + cnt b (l ≫= opener_msgs))%nat.
Proof. unfold owners. cbn -[cnt total mbind]. lia. Qed.

Lemma owners_copying b l s : (owners b (set_copying l s) + cnt b (copying s) = owners b s + cnt b l)%nat.
Proof. unfold owners. cbn -[cnt total]. lia. Qed.

Lemma opener_split l1 o l2 b : cnt b ((l1 ++ o :: l2) ≫= opener_msgs) =
  (cnt b ((l1 ++ l2) ≫= opener_msgs) + cnt b (opener_msgs o))%nat.
Proof. rewrite !bind_app, bind_cons, !cnt_app. lia. Qed.

Lemma owners_writeMsg b i m c c' ms s : containers s !! i = Some c → writeMsg m c c' ms →
  owners b (Free ms (set_container i c' s)) = (owners b s + cnt b [m])%nat.
Proof.
  intros Hi Hw. rewrite owners_free. pose proof (owners_container b i c c' s Hi) as E.
  inversion Hw; subst; cbn [c_messages] in E; rewrite ?cnt_app in E; change (cnt b []) with 0%nat; lia.
Qed.

Lemma owners_close_container b i s : owners b (close_container i s) = owners b s.
Proof.
  unfold close_container. destruct (containers s !! i) as [c|] eqn:Hi; [|done].
  unfold container_close. destruct (c_closed c).
  - rewrite owners_free. pose proof (owners_container b i c (mkContainer (c_peer c) (c_messages c) true true) s Hi) as E.
    cbn [c_messages] in E. change (cnt b []) with 0%nat. lia.
  - rewrite owners_free. pose proof (owners_container b i c (mkContainer (c_peer c) [] true true) s Hi) as E.
    cbn [c_messages] in E. change (cnt b []) with 0%nat in E. lia.
Qed.

Lemma owners_close_containers b is_ s : owners b (close_containers is_ s) = owners b s.
Proof. revert s. induction is_ as [|i is_ IH]; intros s; [done|]. simpl. by rewrite IH, owners_close_container. Qed.

(** *** Early messages *)

Lemma cnt_partition b (f : earlyMsg → bool) l :
  cnt b (em_msg <$> l) = (cnt b (em_msg <$> List.filter f l) + cnt b (em_msg <$> List.filter (λ x, negb (f x)) l))%nat.
Proof.
  induction l as [|x l IH]; [done|]. rewrite fmap_cons, cnt_cons, IH. cbn [List.filter].
  destruct (f x); cbn [negb]; rewrite fmap_cons, (cnt_cons b (em_msg x) (em_msg <$> _)); lia.
Qed.

Lemma cnt_put b now p m e ok ms e' : buffer_ok e → put now p m e = Ok (ok, ms, e') → buffer_ok e' ∧
  (cnt b (if ok then ms else m :: ms) + cnt b (early_msgs e') = cnt b (early_msgs e) + cnt b [m])%nat.
Proof.
  intros He Hp. destruct (RelayEarly.closed e) eqn:Hc.
  { unfold put in Hp. rewrite Hc in Hp. injection Hp as <- <- <-. split; [done|]. lia. }
  destruct (put_refines now p m e He Hc) as (ok' & ms' & e'' & Hp' & He' & Hspec). rewrite Hp in Hp'. injection Hp' as <- <- <-.
  split; [done|]. revert Hspec. unfold spec_put, early_msgs.
  rewrite (cnt_partition b (λ x, bool_decide (em_peerID x = p)) (held e)).
  case_bool_decide; intros [= <- <- <-]; [rewrite cnt_cons; lia|]. rewrite fmap_app, cnt_app. simpl. lia.
Qed.

Lemma filter_one (l : list earlyMsg) p : NoDup (em_peerID <$> l) →
  List.filter (λ x, bool_decide (em_peerID x = p)) l = match List.find (λ x, bool_decide (em_peerID x = p)) l with Some x => [x] | None => [] end.
Proof.
  induction l as [|x l IH]; [done|]. rewrite fmap_cons. intros [Hn Hnd]%NoDup_cons. simpl. case_bool_decide as Hx; [|by apply IH].
  subst p. destruct (other_absent (em_peerID x) l Hn) as (_ & -> & _). done.
Qed.

Lemma cnt_pop b p e r e' : buffer_ok e → pop p e = Ok (r, e') → buffer_ok e' ∧
  cnt b (early_msgs e) = (cnt b (match r with Some m => [m] | None => [] end) + cnt b (early_msgs e'))%nat.
Proof.
  intros He Hp. destruct (pop_refines p e He) as (r' & e'' & Hp' & He' & Hspec). rewrite Hp in Hp'. injection Hp' as <- <-.
  split; [done|]. revert Hspec. unfold spec_pop, early_msgs. intros [= <- <-].
  rewrite (cnt_partition b (λ x, bool_decide (em_peerID x = p)) (held e)). rewrite filter_one; [by destruct (List.find _ _)|].
  unfold held. rewrite <- peers_held. apply (ix_peers _ _ _ (ok_indexed e He)).
Qed.

Lemma cnt_expire b now e : buffer_ok e → buffer_ok (removeExpired now e).2 ∧
  cnt b (early_msgs e) = (cnt b (removeExpired now e).1 + cnt b (early_msgs (removeExpired now e).2))%nat.
Proof.
  intros He. destruct (RelayEarly.closed e) eqn:Hc; [unfold removeExpired; by rewrite Hc|].
  destruct (removeExpired now e) as [fr e'] eqn:E.
  destruct (removeExpired_spec _ _ _ _ He Hc E) as (He' & dead & Hh & -> & _). split; [done|].
  unfold early_msgs. by rewrite Hh, fmap_app, cnt_app.
Qed.

Lemma cnt_close b e ms e' : buffer_ok e → RelayEarly.close e = (ms, e') → buffer_ok e' ∧
  cnt b (early_msgs e) = (cnt b ms + cnt b (early_msgs e'))%nat.
Proof.
  intros He E. destruct (close_frees_all _ _ _ He E) as (He' & Hh & _ & ->). split; [done|].
  unfold early_msgs. rewrite Hh. simpl. change (cnt b []) with 0%nat. lia.
Qed.

(** ** The invariant *)

(** The map holds open containers of the right peer; a closed channel is empty; the
    early buffers are well formed; a client that is not running has no connections. *)
Record shape (s : Client) : Prop := mkShape {
  sh_earlies g e : earlies s !! g = Some e → buffer_ok e;
  sh_current g : is_Some (earlies s !! g) ↔ (g ≤ earlyMsgs s)%nat;
  sh_conns p i : conns s !! p = Some i → ∃ c, containers s !! i = Some c ∧ c_peer c = p ∧ c_closed c = false;
  sh_containers i : is_Some (containers s !! i) → (i < nextContainer s)%nat;
  sh_stopped : serviceIsRunning s = false → conns s = ∅;
  sh_drained i c : containers s !! i = Some c → c_closed c = true → c_messages c = []
}.

(** The fields that the shape depends on. *)
Lemma shape_frame s s' : shape s → earlies s' = earlies s → earlyMsgs s' = earlyMsgs s → conns s' = conns s →
  containers s' = containers s → nextContainer s' = nextContainer s → serviceIsRunning s' = serviceIsRunning s → shape s'.
Proof. intros [H2 H3 H4 H5 H6 H7] E3 E4 E5 E6 E7 E8. by split; rewrite ?E3, ?E4, ?E5, ?E6, ?E7, ?E8. Qed.

Lemma shape_container i c c' s : shape s → containers s !! i = Some c → c_peer c' = c_peer c →
  (c_closed c' = c_closed c ∨ ∀ p, conns s !! p ≠ Some i) → (c_closed c' = true → c_messages c' = []) →
  shape (set_container i c' s).
Proof.
  intros [H2 H3 H4 H5 H6 H7] Hi Hp Hc Hm. split; cbn [set_container earlies earlyMsgs conns containers nextContainer serviceIsRunning]; try done.
  - intros p j Hj. destruct (H4 p j Hj) as (cj & Hcj & Hpj & Hclj). destruct (decide (j = i)) as [->|Hne].
    + rewrite lookup_insert_eq. exists c'. assert (cj = c) as -> by congruence. split_and!; try congruence.
      destruct Hc as [Hc|Hc]; [congruence|]. by apply Hc in Hj.
    + rewrite lookup_insert_ne by done. eauto.
  - intros j. destruct (decide (j = i)) as [->|Hne]; [intros _; apply H5; eauto|]. rewrite lookup_insert_ne by done. apply H5.
  - intros j cj. destruct (decide (j = i)) as [->|Hne]; [rewrite lookup_insert_eq; by intros [= <-]|].
    rewrite lookup_insert_ne by done. apply H7.
Qed.

Lemma shape_early g e e' s : shape s → earlies s !! g = Some e → buffer_ok e' → shape (set_early g e' s).
Proof.
  intros [H2 H3 H4 H5 H6 H7] Hg He. split; cbn [set_early earlies earlyMsgs conns containers nextContainer serviceIsRunning]; try done.
  - intros g' x [[_ <-]|[_ Hx]]%lookup_insert_Some; [done|by eapply H2].
  - intros g'. rewrite <- H3. destruct (decide (g' = g)) as [->|Hne]; [rewrite lookup_insert_eq, Hg; by split; eauto|].
    by rewrite lookup_insert_ne.
Qed.

Lemma shape_forget p s : shape s → shape (set_conns (delete p (conns s)) s).
Proof.
  intros [H2 H3 H4 H5 H6 H7]. split; cbn [set_conns earlies earlyMsgs conns containers nextContainer serviceIsRunning]; try done.
  - intros q i [_ Hq]%lookup_delete_Some. by apply H4.
  - intros E. rewrite (H6 E). apply delete_empty.
Qed.

Lemma shape_empty s : shape s → shape (set_conns ∅ s).
Proof. by intros [H2 H3 H4 H5 H6 H7]. Qed.

Lemma shape_writeMsg i m c c' ms s : shape s → containers s !! i = Some c → writeMsg m c c' ms →
  shape (Free ms (set_container i c' s)).
Proof.
  intros Hs Hi Hw. eapply (shape_frame (set_container i c' s)); try done. eapply shape_container; [done|exact Hi|..].
  - by inversion Hw.
  - left. inversion Hw; subst; done.
  - inversion Hw; subst; try done; intros ?; by eapply (sh_drained s Hs i).
Qed.

(** A container that the map does not hold. *)
Lemma shape_close_container i s : shape s → (∀ p, conns s !! p ≠ Some i) → shape (close_container i s).
Proof.
  intros Hs Hn. unfold close_container. destruct (containers s !! i) as [c|] eqn:Hi; [|done]. unfold container_close.
  destruct (c_closed c) eqn:Hc; (eapply (shape_frame (set_container i _ s)); [|reflexivity..]).
  - eapply shape_container; [done|exact Hi|done|by right|]. intros _. by apply (sh_drained s Hs i c).
  - eapply shape_container; [done|exact Hi|done|by right|done].
Qed.

Lemma conns_close_container i s : conns (close_container i s) = conns s.
Proof. unfold close_container. destruct (containers s !! i) as [c|]; [|done]. by destruct (container_close c). Qed.

Lemma close_container_comm m i s : set_conns m (close_container i s) = close_container i (set_conns m s).
Proof. unfold close_container. cbn [set_conns containers]. destruct (containers s !! i) as [c|]; [|done]. by destruct (container_close c). Qed.

Lemma close_containers_comm m is_ s : set_conns m (close_containers is_ s) = close_containers is_ (set_conns m s).
Proof. revert s. induction is_ as [|i is_ IH]; intros s; [done|]. simpl. by rewrite IH, close_container_comm. Qed.

Lemma shape_close_containers is_ s : shape s → conns s = ∅ → shape (close_containers is_ s) ∧ conns (close_containers is_ s) = ∅.
Proof.
  revert s. induction is_ as [|i is_ IH]; intros s Hs He; [done|]. simpl. apply IH; [|by rewrite conns_close_container].
  apply shape_close_container; [done|]. intros p. by rewrite He, lookup_empty.
Qed.

(** One container belongs to one peer. *)
Lemma conns_inj s p q i : shape s → conns s !! p = Some i → conns s !! q = Some i → p = q.
Proof.
  intros Hs Hp Hq. destruct (sh_conns s Hs p i Hp) as (c & Hc & <- & _). destruct (sh_conns s Hs q i Hq) as (c' & Hc' & <- & _).
  congruence.
Qed.

Lemma shape_close_conn p i s : shape s → conns s !! p = Some i → shape (close_container i (set_conns (delete p (conns s)) s)).
Proof.
  intros Hs Hp. apply shape_close_container; [by apply shape_forget|]. cbn [set_conns conns].
  intros q [Hne Hq]%lookup_delete_Some. apply Hne. by eapply conns_inj.
Qed.

Lemma shape_closeConns ps s : shape s → shape (closeConnsByPeerID ps s).
Proof.
  revert s. induction ps as [|p ps IH]; intros s Hs; cbn [closeConnsByPeerID]; [done|].
  destruct (conns s !! p) as [i|] eqn:Hp; [|by apply IH]. apply IH. rewrite close_container_comm. by apply shape_close_conn.
Qed.

Lemma owners_closeConns b ps s : owners b (closeConnsByPeerID ps s) = owners b s.
Proof.
  revert s. induction ps as [|p ps IH]; intros s; cbn [closeConnsByPeerID]; [done|].
  destruct (conns s !! p) as [i|]; [|by apply IH]. rewrite IH. by rewrite close_container_comm, owners_close_container.
Qed.

Definition fields_kept (s s' : Client) : Prop :=
  taken s' = taken s ∧ earlies s' = earlies s ∧ earlyMsgs s' = earlyMsgs s ∧ serviceIsRunning s' = serviceIsRunning s.

Lemma close_container_kept i s : fields_kept s (close_container i s).
Proof. unfold close_container. destruct (containers s !! i) as [c|]; [|done]. by destruct (container_close c). Qed.

Lemma close_containers_kept is_ s : fields_kept s (close_containers is_ s).
Proof.
  revert s. induction is_ as [|i is_ IH]; intros s; [done|]. cbn [close_containers].
  destruct (IH (close_container i s)) as (E1 & E2 & E3 & E4). destruct (close_container_kept i s) as (F1 & F2 & F3 & F4).
  unfold fields_kept. split_and!; congruence.
Qed.

Lemma closeConns_kept ps s : fields_kept s (closeConnsByPeerID ps s).
Proof.
  revert s. induction ps as [|p ps IH]; intros s; cbn [closeConnsByPeerID]; [done|].
  destruct (conns s !! p) as [i|]; [|by apply IH].
  destruct (IH (set_conns (delete p (conns s)) (close_container i s))) as (E1 & E2 & E3 & E4).
  destruct (close_container_kept i s) as (F1 & F2 & F3 & F4).
  unfold fields_kept. split_and!; [rewrite E1|rewrite E2|rewrite E3|rewrite E4]; done.
Qed.

(** With every connection closed, the early buffer is closed and replaced. *)
Lemma closeAllConns_ok s : shape (set_conns ∅ s) → shape (closeAllConns s) ∧ conns (closeAllConns s) = ∅ ∧
  (∀ b, owners b (closeAllConns s) = owners b s) ∧ taken (closeAllConns s) = taken s.
Proof.
  intros Hs. unfold closeAllConns. rewrite close_containers_comm.
  set (is_ := (map_to_list (conns s)).*2).
  destruct (shape_close_containers is_ (set_conns ∅ s) Hs eq_refl) as [Hs1 He1].
  assert (∀ b, owners b (close_containers is_ (set_conns ∅ s)) = owners b s) as Ho by (intros b; by rewrite owners_close_containers).
  destruct (close_containers_kept is_ (set_conns ∅ s)) as (Ht & _ & _ & _). cbn [set_conns taken] in Ht.
  set (s1 := close_containers is_ (set_conns ∅ s)) in *.
  assert (is_Some (earlies s1 !! earlyMsgs s1)) as [e He] by (apply (sh_current s1 Hs1); lia). rewrite He.
  destruct (RelayEarly.close e) as [ms e'] eqn:Ec.
  assert (buffer_ok e) as Hok by by eapply (sh_earlies s1 Hs1). pose proof (cnt_close 0 e ms e' Hok Ec) as [Hok' _].
  assert (earlies s1 !! S (earlyMsgs s1) = None) as Hnew.
  { destruct (earlies s1 !! S (earlyMsgs s1)) eqn:E; [|done]. assert (S (earlyMsgs s1) ≤ earlyMsgs s1)%nat; [|lia].
    apply (sh_current s1 Hs1). eauto. }
  pose proof (shape_early _ e e' s1 Hs1 He Hok') as [H2 H3 H4 H5 H6 H7]. split; [split|split; [done|split]]; try done.
  - cbn [earlies Free set_early]. intros g x [[_ <-]|[_ Hx]]%lookup_insert_Some; [apply new_buffer_ok|by eapply H2].
  - cbn [earlies earlyMsgs Free set_early]. intros g. destruct (decide (g = S (earlyMsgs s1))) as [->|Hne].
    + rewrite lookup_insert_eq. split; [lia|eauto].
    + rewrite lookup_insert_ne by done. rewrite (H3 g). cbn [set_early earlyMsgs]. lia.
  - intros b. rewrite <- Ho. pose proof (cnt_close b e ms e' Hok Ec) as [_ Hcnt].
    pose proof (owners_early b _ e e' s1 He) as E. revert E. unfold owners. cbn -[cnt total early_msgs mbind].
    rewrite (total_new (cnt b ∘ early_msgs) (<[earlyMsgs s1 := e']> (earlies s1)) (S (earlyMsgs s1))).
    2: { rewrite lookup_insert_ne by lia. done. }
    rewrite cnt_app. change ((cnt b ∘ early_msgs) newEarlyMsgBuffer) with 0%nat. lia.
Qed.

Lemma Client_close_ok s : shape s → shape (Client_close s) ∧ (∀ b, owners b (Client_close s) = owners b s) ∧
  taken (Client_close s) = taken s.
Proof.
  intros Hs. unfold Client_close. destruct (serviceIsRunning s) eqn:Hr; cbn [negb]; [|done].
  match goal with |- shape (closeAllConns ?s0) ∧ _ => destruct (closeAllConns_ok s0) as (H1 & _ & H2 & H3) end.
  { destruct Hs as [H2 H3 H4 H5 H6 H7]. by split. }
  split_and!; [done|intros b; by rewrite H2|by rewrite H3].
Qed.

Lemma cnt_one b x n : cnt b [mkMsg x n] = if (n =? b)%nat then 1%nat else 0%nat.
Proof. unfold cnt. simpl. by destruct (n =? b)%nat. Qed.

(** The buffer that was taken is in one place. *)
Definition placed (s s' : Client) : Prop :=
  shape s' ∧ taken s' = S (taken s) ∧ ∀ b, owners b s' = (owners b s + if (taken s =? b)%nat then 1 else 0)%nat.

Lemma placed_free x s : shape s → placed s (Free [mkMsg x (taken s)] (take_buffer s)).
Proof.
  intros Hs. split; [by eapply shape_frame|]. split; [done|]. intros b. rewrite owners_free, cnt_one. done.
Qed.

Lemma placed_end x s : shape s → loop s = Some Reading → placed s (end_loop (Free [mkMsg x (taken s)] (take_buffer s))).
Proof.
  intros Hs Hl. split; [by eapply shape_frame|]. split; [done|]. intros b.
  rewrite <- (cnt_one b x (taken s)). unfold owners. cbn -[cnt total mbind]. rewrite Hl, (cnt_cons b _ (freed s)). cbn [loop_msgs]. lia.
Qed.

Lemma placed_leak x s : shape s → placed s (leak (mkMsg x (taken s)) (take_buffer s)).
Proof.
  intros Hs. split; [by eapply shape_frame|]. split; [done|]. intros b.
  rewrite <- (cnt_one b x (taken s)). unfold owners. cbn -[cnt total mbind]. rewrite (cnt_cons b _ (leaked s)). lia.
Qed.

Lemma placed_loop x l s : shape s → loop s = Some Reading → loop_msgs (Some l) = [mkMsg x (taken s)] →
  placed s (set_loop (Some l) (take_buffer s)).
Proof.
  intros Hs Hl Hm. split; [by eapply shape_frame|]. split; [done|]. intros b.
  pose proof (owners_loop b (Some l) (take_buffer s)) as E. cbn [take_buffer loop] in E. rewrite Hl, Hm, cnt_one in E.
  change (cnt b (loop_msgs (Some Reading))) with 0%nat in E. change (owners b (take_buffer s)) with (owners b s) in E. lia.
Qed.

Lemma readLoop_round_placed data s : shape s → loop s = Some Reading → placed s (readLoop_round data s).
Proof.
  intros Hs Hl. unfold readLoop_round, handleMsg, handleTransportMsg.
  destruct data as [buf|]; [|by apply placed_end].
  destruct (ValidateVersion buf); [|by apply placed_free..]. destruct (DetermineServerMessageType buf); [|by apply placed_free..].
  case_bool_decide; [|case_bool_decide; [by apply placed_end|]; case_bool_decide; [by apply placed_free|by apply placed_leak]].
  destruct (UnmarshalTransportMsg buf) as [[p payload]| |]; [|by apply placed_free..].
  destruct (negb _); [by apply placed_end|]. cbn [take_buffer conns earlyMsgs]. by destruct (conns s !! p); eapply placed_loop.
Qed.

(** ** Every buffer has one owner *)

Definition one_owner (s : Client) : Prop := ∀ b, owners b s = if (b <? taken s)%nat then 1%nat else 0%nat.

Lemma one_owner_eq s s' : one_owner s → (∀ b, owners b s' = owners b s) → taken s' = taken s → one_owner s'.
Proof. intros H1 E1 E2 b. by rewrite E1, E2. Qed.

Lemma one_owner_placed s s' : one_owner s → placed s s' → one_owner s'.
Proof.
  intros H1 (_ & Ht & Ho) b. rewrite Ho, Ht, (H1 b). destruct (Nat.eqb_spec (taken s) b) as [->|].
  - rewrite (proj2 (Nat.ltb_ge b b)) by lia. by rewrite (proj2 (Nat.ltb_lt b (S b))) by lia.
  - destruct (Nat.ltb_spec b (taken s)), (Nat.ltb_spec b (S (taken s))); lia.
Qed.

Lemma OpenConn_begin_ok p s s' : shape s → OpenConn_begin p s = Ok s' →
  shape s' ∧ (∀ b, owners b s' = owners b s) ∧ taken s' = taken s.
Proof.
  intros Hs. unfold OpenConn_begin. destruct (serviceIsRunning s) eqn:Hr; [|done]. destruct (conns s !! p) eqn:Hp; [done|].
  set (s1 := mkClient _ _ _ _ _ _ _ _ _ _ _ _ _). cbv zeta.
  assert (containers s !! nextContainer s = None) as Hnew.
  { destruct (containers s !! nextContainer s) eqn:E; [|done]. assert (nextContainer s < nextContainer s)%nat; [|lia].
    apply (sh_containers s Hs). eauto. }
  assert (shape s1) as Hs1.
  { destruct Hs as [H2 H3 H4 H5 H6 H7]. split; cbn [s1 earlies earlyMsgs conns containers nextContainer serviceIsRunning]; try done.
    - intros q i [[<- <-]|[_ Hq]]%lookup_insert_Some; [rewrite lookup_insert_eq; by eexists|].
      destruct (H4 q i Hq) as (c & Hc & ?). exists c. rewrite lookup_insert_ne; [done|]. intros <-. congruence.
    - intros i. destruct (decide (i = nextContainer s)) as [->|]; [lia|]. rewrite lookup_insert_ne by done. intros ?%H5. lia.
    - intros i c [[_ <-]|[_ Hc]]%lookup_insert_Some; [done|by eapply H7]. }
  assert (∀ b, owners b s1 = owners b s) as Ho1.
  { intros b. unfold owners. cbn -[cnt total mbind early_msgs]. rewrite total_new by done. done. }
  destruct (earlies s1 !! earlyMsgs s1) as [e|] eqn:He; [|done]. destruct (pop p e) as [[r e']| |] eqn:Epop; try done.
  intros [= <-]. assert (buffer_ok e) as Hok by by eapply (sh_earlies s1 Hs1).
  destruct (cnt_pop 0 p e r e' Hok Epop) as [Hok' _]. pose proof (shape_early _ e e' s1 Hs1 He Hok') as Hs2.
  split_and!; [by eapply shape_frame| |done]. intros b. rewrite <- Ho1. destruct (cnt_pop b p e r e' Hok Epop) as [_ Hc].
  pose proof (owners_early b _ e e' s1 He) as E.
  match goal with |- owners b (set_openers (?o :: ?l) ?x) = _ => pose proof (owners_openers b (o :: l) x) as E2 end.
  rewrite bind_cons, cnt_app in E2. change (earlyMsgs s1) with (earlyMsgs s) in E.
  change (openers (set_early (earlyMsgs s) e' s1)) with (openers s) in E2. destruct r; cbn [opener_msgs] in E2; lia.
Qed.

(** ** Callers of OpenConn *)

(** Containers stay, with their peers; the map loses entries or gets new containers. *)
Definition grows (s s' : Client) : Prop :=
  (∀ i c, containers s !! i = Some c → ∃ c', containers s' !! i = Some c' ∧ c_peer c' = c_peer c) ∧
  (∀ p i, conns s' !! p = Some i → conns s !! p = Some i ∨ containers s !! i = None).

Lemma grows_frame s s' : containers s' = containers s → conns s' = conns s → grows s s'.
Proof. intros E1 E2. split; rewrite ?E1, ?E2; eauto. Qed.

Lemma client_grows_trans s1 s2 s3 : grows s1 s2 → grows s2 s3 → grows s1 s3.
Proof.
  intros [A1 B1] [A2 B2]. split.
  - intros i c Hi. destruct (A1 i c Hi) as (c' & Hi' & <-). destruct (A2 i c' Hi') as (c'' & ? & ?). eauto.
  - intros p i [Hp|Hn]%B2; [by apply B1|]. right. destruct (containers s1 !! i) as [c|] eqn:Hi; [|done].
    destruct (A1 i c Hi) as (c' & Hi' & _). congruence.
Qed.

Lemma grows_container i c c' s : containers s !! i = Some c → c_peer c' = c_peer c → grows s (set_container i c' s).
Proof.
  intros Hi Hp. split; [|by left]. intros j cj Hj. cbn [set_container containers]. destruct (decide (j = i)) as [->|].
  - rewrite lookup_insert_eq. exists c'. split; [done|congruence].
  - rewrite lookup_insert_ne by done. eauto.
Qed.

Lemma grows_close_container i s : grows s (close_container i s).
Proof.
  unfold close_container. destruct (containers s !! i) as [c|] eqn:Hi; [|by apply grows_frame].
  destruct (container_close c) as [c' ms] eqn:E. assert (c_peer c' = c_peer c) as Hp.
  { revert E. unfold container_close. by destruct (c_closed c); intros [= <- _]. }
  eapply client_grows_trans; [by eapply (grows_container i c c')|by apply grows_frame].
Qed.

Lemma grows_close_containers is_ s : grows s (close_containers is_ s).
Proof.
  revert s. induction is_ as [|i is_ IH]; intros s; [by apply grows_frame|].
  eapply client_grows_trans; [apply grows_close_container|apply IH].
Qed.

Lemma grows_forget p s : grows s (set_conns (delete p (conns s)) s).
Proof. split; [eauto|]. cbn [set_conns conns]. intros q i [_ ?]%lookup_delete_Some. by left. Qed.

Lemma grows_closeConns ps s : grows s (closeConnsByPeerID ps s).
Proof.
  revert s. induction ps as [|p ps IH]; intros s; cbn [closeConnsByPeerID]; [by apply grows_frame|].
  destruct (conns s !! p) as [i|]; [|apply IH]. eapply client_grows_trans; [|apply IH]. rewrite close_container_comm.
  eapply client_grows_trans; [apply (grows_forget p)|apply grows_close_container].
Qed.

Lemma grows_Client_close s : grows s (Client_close s).
Proof.
  unfold Client_close. destruct (serviceIsRunning s); cbn [negb]; [|by apply grows_frame].
  unfold closeAllConns. rewrite close_containers_comm. set (s1 := set_conns ∅ _). eapply client_grows_trans.
  { instantiate (1 := s1). split; [eauto|]. intros p i Hp. cbn [s1 set_conns conns] in Hp. by rewrite lookup_empty in Hp. }
  eapply client_grows_trans; [apply grows_close_containers|]. destruct (earlies _ !! _) as [e|]; [|by apply grows_frame].
  destruct (RelayEarly.close e). by apply grows_frame.
Qed.

Lemma grows_writeMsg s i m c c' ms s0 : containers s0 = containers s → conns s0 = conns s → containers s !! i = Some c →
  writeMsg m c c' ms → grows s (Free ms (set_container i c' s0)).
Proof.
  intros E1 E2 Hi Hw. eapply client_grows_trans; [by apply (grows_frame s s0)|]. rewrite <- E1 in Hi.
  eapply client_grows_trans; [eapply (grows_container i c c'); [done|by inversion Hw]|by apply grows_frame].
Qed.

(** The container of a caller is of its peer, and no longer in the map when it gives up. *)
Definition opener_ok (s : Client) (o : Opener) : Prop :=
  match o with
  | Flushes i p _ | Waits i p => ∃ c, containers s !! i = Some c ∧ c_peer c = p
  | Gives_up i => is_Some (containers s !! i) ∧ ∀ p, conns s !! p ≠ Some i
  end.

Lemma opener_grows s s' o : grows s s' → opener_ok s o → opener_ok s' o.
Proof.
  intros [A B]. destruct o as [i p m|i p|i]; cbn [opener_ok].
  - intros (c & Hi & <-). by apply A.
  - intros (c & Hi & <-). by apply A.
  - intros [[c Hi] Hn]. destruct (A i c Hi) as (c' & Hi' & _). split; [eauto|].
    intros p [Hp|Hp]%B; [by apply Hn in Hp|congruence].
Qed.

Definition opening (s : Client) : Prop := Forall (opener_ok s) (openers s).

Lemma opening_grows s s' : grows s s' → openers s' = openers s → opening s → opening s'.
Proof. unfold opening. intros Hg -> Ho. eapply Forall_impl; [exact Ho|]. intros o. by apply opener_grows. Qed.

(** One caller moves on or leaves. *)
Lemma opening_move s s' l1 o l2 l : grows s s' → openers s = l1 ++ o :: l2 → openers s' = l1 ++ l ++ l2 →
  Forall (opener_ok s') l → opening s → opening s'.
Proof.
  unfold opening. intros Hg E -> Hl Ho. rewrite E in Ho. apply Forall_app in Ho as [H1 H2]. apply Forall_cons in H2 as [_ H2].
  repeat apply Forall_app_2; try done; eapply Forall_impl; try done; intros x; by apply opener_grows.
Qed.

(** *** The steps keep the shape and the owners *)

Definition kept (s s' : Client) : Prop := shape s' ∧ one_owner s'.

Ltac same_owners := eapply one_owner_eq; [eassumption| |done]; let b := fresh "b" in intros b.

Lemma deliver_kept s i m c c' ms : shape s → one_owner s → loop s = Some (Delivers i m) → containers s !! i = Some c →
  writeMsg m c c' ms → kept s (Free ms (set_container i c' (set_loop (Some Reading) s))).
Proof.
  intros Hs Ho Hl Hi Hw. split; [eapply shape_writeMsg; [by eapply shape_frame|exact Hi|done]|]. same_owners.
  rewrite (owners_writeMsg b i m c c' ms (set_loop (Some Reading) s)) by done.
  pose proof (owners_loop b (Some Reading) s) as E. rewrite Hl in E. change (cnt b (loop_msgs (Some Reading))) with 0%nat in E.
  cbn [loop_msgs] in E. lia.
Qed.

Lemma buffering_kept s g p m e ok ms e' now : shape s → one_owner s → loop s = Some (Buffers g p m) → earlies s !! g = Some e →
  put now p m e = Ok (ok, ms, e') → kept s (Free (if ok then ms else m :: ms) (set_early g e' (set_loop (Some Reading) s))).
Proof.
  intros Hs Ho Hl He Hp. pose proof (sh_earlies s Hs g e He) as Hok. destruct (cnt_put 0 now p m e ok ms e' Hok Hp) as [Hok' _]. split.
  - eapply (shape_frame (set_early g e' (set_loop (Some Reading) s))); try done.
    eapply shape_early; [by eapply shape_frame|exact He|done].
  - same_owners. rewrite owners_free. destruct (cnt_put b now p m e ok ms e' Hok Hp) as [_ Hcnt].
    pose proof (owners_early b g e e' (set_loop (Some Reading) s) He) as E1.
    pose proof (owners_loop b (Some Reading) s) as E. rewrite Hl in E. change (cnt b (loop_msgs (Some Reading))) with 0%nat in E.
    cbn [loop_msgs] in E. lia.
Qed.

Lemma expiry_kept s g e now : shape s → one_owner s → earlies s !! g = Some e →
  kept s (Free (removeExpired now e).1 (set_early g (removeExpired now e).2 s)).
Proof.
  intros Hs Ho He. pose proof (sh_earlies s Hs g e He) as Hok. destruct (cnt_expire 0 now e Hok) as [Hok' _].
  split; [eapply (shape_frame (set_early g _ s)); try done; by eapply shape_early|]. same_owners. rewrite owners_free.
  destruct (cnt_expire b now e Hok) as [_ Hcnt]. pose proof (owners_early b g e (removeExpired now e).2 s He) as E1. lia.
Qed.

(** A caller of OpenConn that holds no message moves on or leaves. *)
Lemma opener_owners b s l1 o l2 l : openers s = l1 ++ o :: l2 → opener_msgs o = [] → l ≫= opener_msgs = [] →
  owners b (set_openers (l1 ++ l ++ l2) s) = owners b s.
Proof.
  intros E Ho Hl. pose proof (owners_openers b (l1 ++ l ++ l2) s) as E1. rewrite E, opener_split, Ho in E1.
  rewrite !bind_app, Hl in E1. change (cnt b []) with 0%nat in E1. cbn [app] in E1. lia.
Qed.

Lemma flush_kept s l1 i p m l2 c c' ms : shape s → one_owner s → openers s = l1 ++ Flushes i p m :: l2 →
  containers s !! i = Some c → writeMsg m c c' ms →
  kept s (Free ms (set_container i c' (set_openers (l1 ++ Waits i p :: l2) s))).
Proof.
  intros Hs Ho E Hi Hw. split; [eapply shape_writeMsg; [by eapply shape_frame|exact Hi|done]|]. same_owners.
  rewrite (owners_writeMsg b i m c c' ms (set_openers (l1 ++ Waits i p :: l2) s)) by done.
  pose proof (owners_openers b (l1 ++ Waits i p :: l2) s) as E1. rewrite E, !opener_split in E1. cbn [opener_msgs] in E1.
  change (cnt b []) with 0%nat in E1. lia.
Qed.

Lemma unavailable_kept s l1 i p l2 : shape s → one_owner s → openers s = l1 ++ Waits i p :: l2 →
  kept s (forget i p (set_openers (l1 ++ Gives_up i :: l2) s)).
Proof.
  intros Hs Ho E. assert (shape (set_openers (l1 ++ Gives_up i :: l2) s)) as Hs1 by by eapply shape_frame.
  assert (∀ b, owners b (set_openers (l1 ++ [Gives_up i] ++ l2) s) = owners b s) as Ho1 by (intros b; by eapply opener_owners).
  unfold forget. case_bool_decide; (split; [|by eapply one_owner_eq]); [by apply shape_forget|done].
Qed.

Lemma give_up_kept s l1 i l2 : shape s → opening s → one_owner s → openers s = l1 ++ Gives_up i :: l2 →
  kept s (close_container i (set_openers (l1 ++ l2) s)).
Proof.
  intros Hs Hg Ho E. assert (shape (set_openers (l1 ++ l2) s)) as Hs1 by by eapply shape_frame. split.
  - apply shape_close_container; [done|]. unfold opening in Hg. rewrite E in Hg.
    apply Forall_app in Hg as [_ Hg]. apply Forall_cons in Hg as [[_ Hn] _]. exact Hn.
  - eapply one_owner_eq; [done| |by destruct (close_container_kept i (set_openers (l1 ++ l2) s)) as (-> & _)].
    intros b. rewrite owners_close_container. by apply (opener_owners b s l1 (Gives_up i) l2 []).
Qed.

Lemma conn_read_kept s i c m ms : shape s → one_owner s → containers s !! i = Some c → c_messages c = m :: ms →
  kept s (set_copying (m :: copying s) (set_container i (mkContainer (c_peer c) ms (c_closed c) (c_cancelled c)) s)).
Proof.
  intros Hs Ho Hi Hm. split.
  - eapply (shape_frame (set_container i _ s)); [|reflexivity..]. eapply shape_container; [done|exact Hi|done|by left|].
    cbn [c_closed c_messages]. intros Hc. rewrite (sh_drained s Hs i c Hi Hc) in Hm. done.
  - same_owners. match goal with |- owners b (set_copying _ ?x) = _ => pose proof (owners_copying b (m :: copying s) x) as E1 end.
    pose proof (owners_container b i c (mkContainer (c_peer c) ms (c_closed c) (c_cancelled c)) s Hi) as E2.
    rewrite Hm in E2. cbn [c_messages] in E2. rewrite (cnt_cons b m ms) in E2. cbn [set_container copying] in E1.
    rewrite (cnt_cons b m (copying s)) in E1. lia.
Qed.

Lemma copied_kept s l1 m l2 : shape s → one_owner s → copying s = l1 ++ m :: l2 → kept s (Free [m] (set_copying (l1 ++ l2) s)).
Proof.
  intros Hs Ho E. split; [by eapply shape_frame|]. same_owners. rewrite owners_free.
  pose proof (owners_copying b (l1 ++ l2) s) as E1. rewrite E in E1. rewrite !cnt_app, (cnt_cons b m l2) in E1. lia.
Qed.

Lemma close_kept s : shape s → one_owner s → kept s (Client_close s).
Proof. intros Hs Ho. destruct (Client_close_ok s Hs) as (H1 & H2 & H3). split; [done|by eapply one_owner_eq]. Qed.

Lemma conn_close_kept s i p s' : shape s → one_owner s → closeConn i p s = Ok s' → kept s s'.
Proof.
  intros Hs Ho Hc. unfold closeConn in Hc. destruct (conns s !! p) as [j|] eqn:Hp; [|done]. case_bool_decide; [|done]. subst j.
  injection Hc as <-. split; [by apply shape_close_conn|]. eapply one_owner_eq; [done|intros b; by rewrite owners_close_container|].
  by destruct (close_container_kept i (set_conns (delete p (conns s)) s)) as (-> & _).
Qed.

Lemma client_step_ok s s' : step s s' → shape s → opening s → one_owner s → kept s s'.
Proof.
  intros Hst Hs Hg Ho. destruct Hst as
    [s Hr Hl|s data Hl| | | |s p s' Hop| |s l1 i p l2 E _| | | | |s i p s' Hc|s ps|s|s n Hn];
    eauto using deliver_kept, buffering_kept, expiry_kept, flush_kept, unavailable_kept, give_up_kept, conn_read_kept, copied_kept,
      close_kept, conn_close_kept.
  - split; [destruct Hs as [H2 H3 H4 H5 H6 H7]; by split|]. same_owners. unfold owners. cbn -[cnt total mbind]. by rewrite Hl.
  - pose proof (readLoop_round_placed data s Hs Hl) as Hpl. split; [apply Hpl|by eapply one_owner_placed].
  - destruct (OpenConn_begin_ok p s s' Hs Hop) as (H1 & H2 & H3). split; [done|by eapply one_owner_eq].
  - split; [by eapply shape_frame|]. same_owners. by apply (opener_owners b s l1 (Waits i p) l2 []).
  - split; [by apply shape_closeConns|]. eapply one_owner_eq; [done|intros b; apply owners_closeConns|].
    by destruct (closeConns_kept ps s) as (-> & _).
  - apply close_kept; [by eapply shape_frame|exact Ho].
Qed.

Lemma OpenConn_begin_opening p s s' : OpenConn_begin p s = Ok s' → shape s → opening s → opening s'.
Proof.
  intros Hop Hs Ho. unfold OpenConn_begin in Hop. destruct (serviceIsRunning s); [|done]. destruct (conns s !! p); [done|].
  assert (containers s !! nextContainer s = None) as Hnew.
  { destruct (containers s !! nextContainer s) eqn:E; [|done]. assert (nextContainer s < nextContainer s)%nat; [|lia].
    apply (sh_containers s Hs). eauto. }
  cbn [earlies earlyMsgs] in Hop. destruct (earlies s !! earlyMsgs s) as [e|]; [|done].
  destruct (pop p e) as [[r e']| |]; try done. injection Hop as <-. unfold opening. cbn [set_openers openers set_early]. constructor.
  - destruct r; cbn [opener_ok containers set_openers set_early]; rewrite lookup_insert_eq; by eexists.
  - eapply Forall_impl; [exact Ho|]. intros o. apply opener_grows. split.
    + intros i c Hi. exists c. cbn [set_openers set_early containers]. rewrite lookup_insert_ne; [done|]. intros <-. congruence.
    + cbn [set_openers set_early conns]. intros q i [[<- <-]|[_ ?]]%lookup_insert_Some; [by right|by left].
Qed.

Lemma openers_close_container i s : openers (close_container i s) = openers s.
Proof. unfold close_container. destruct (containers s !! i) as [c|]; [|done]. by destruct (container_close c). Qed.

Lemma openers_close_containers is_ s : openers (close_containers is_ s) = openers s.
Proof. revert s. induction is_ as [|i is_ IH]; intros s; [done|]. simpl. by rewrite IH, openers_close_container. Qed.

Lemma openers_Client_close s : openers (Client_close s) = openers s.
Proof.
  unfold Client_close. destruct (serviceIsRunning s); cbn [negb]; [|done]. unfold closeAllConns. rewrite close_containers_comm.
  destruct (earlies _ !! _) as [e|]; [destruct (RelayEarly.close e)|]; cbn [openers Free set_early];
    by rewrite openers_close_containers.
Qed.

Lemma openers_closeConns ps s : openers (closeConnsByPeerID ps s) = openers s.
Proof.
  revert s. induction ps as [|p ps IH]; intros s; cbn [closeConnsByPeerID]; [done|].
  destruct (conns s !! p); [|by apply IH]. rewrite IH. cbn [set_conns openers]. apply openers_close_container.
Qed.

Lemma readLoop_round_keeps data s : containers (readLoop_round data s) = containers s ∧ conns (readLoop_round data s) = conns s ∧
  openers (readLoop_round data s) = openers s.
Proof. unfold readLoop_round, handleMsg, handleTransportMsg. by repeat case_match. Qed.

Lemma step_opening s s' : step s s' → shape s → opening s → opening s'.
Proof.
  intros Hst Hs Hg. destruct Hst as
    [s Hr Hl|s data Hl|s i m c c' ms Hl Hi Hw|s g p m e ok ms e' now Hl He Hp|s g e now He|s p s' Hop|s l1 i p m l2 c c' ms E Hi Hw
    |s l1 i p l2 E _|s l1 i p l2 E|s l1 i l2 E|s i c m ms Hi Hm|s l1 m l2 E|s i p s' Hc|s ps|s|s n Hn].
  - by eapply (opening_grows s); [apply grows_frame| |].
  - destruct (readLoop_round_keeps data s) as (E1 & E2 & E3). by eapply (opening_grows s); [apply grows_frame| |].
  - eapply (opening_grows s); [|done|exact Hg]. by eapply (grows_writeMsg s i m c).
  - by eapply (opening_grows s); [apply grows_frame| |].
  - by eapply (opening_grows s); [apply grows_frame| |].
  - by eapply OpenConn_begin_opening.
  - assert (grows s (Free ms (set_container i c' (set_openers (l1 ++ Waits i p :: l2) s)))) as Hgr.
    { by eapply (grows_writeMsg s i m c). }
    eapply (opening_move s _ l1 _ l2 [Waits i p]); [exact Hgr|exact E|done| |exact Hg]. constructor; [|done].
    unfold opening in Hg. rewrite E in Hg. apply Forall_app in Hg as [_ Hg]. apply Forall_cons in Hg as [Ho _].
    by apply (opener_grows _ _ _ Hgr) in Ho.
  - eapply (opening_move s _ l1 _ l2 []); [by apply grows_frame|exact E|done|done|exact Hg].
  - set (s1 := set_openers (l1 ++ Gives_up i :: l2) s).
    assert (grows s (forget i p s1)) as Hgr.
    { unfold forget. case_bool_decide; [|by apply grows_frame]. eapply client_grows_trans; [|apply grows_forget]. by apply grows_frame. }
    eapply (opening_move s _ l1 _ l2 [Gives_up i]); [exact Hgr|exact E|by unfold forget; case_bool_decide| |exact Hg].
    constructor; [|done]. unfold opening in Hg. rewrite E in Hg. apply Forall_app in Hg as [_ Hg].
    apply Forall_cons in Hg as [(c & Hi & Hp) _]. cbn [opener_ok]. unfold forget. cbn [s1 set_openers conns].
    case_bool_decide as Hpi; cbn [set_conns containers conns s1 set_openers]; (split; [eauto|]).
    + intros q [Hne Hq]%lookup_delete_Some. apply Hne. by eapply conns_inj.
    + intros q Hq. destruct (sh_conns s Hs q i Hq) as (c' & Hc' & Hq' & _). assert (q = p) as -> by congruence. done.
  - eapply (opening_move s _ l1 _ l2 []); [|exact E|by rewrite openers_close_container|done|exact Hg].
    eapply client_grows_trans; [by apply (grows_frame s (set_openers (l1 ++ l2) s))|apply grows_close_container].
  - eapply (opening_grows s); [|done|exact Hg]. eapply client_grows_trans; [|by apply grows_frame].
    by apply (grows_container i c (mkContainer (c_peer c) ms (c_closed c) (c_cancelled c))).
  - by eapply (opening_grows s); [apply grows_frame| |].
  - unfold closeConn in Hc. destruct (conns s !! p); [|done]. case_bool_decide; [|done]. injection Hc as <-.
    eapply (opening_grows s); [|by rewrite openers_close_container|exact Hg].
    eapply client_grows_trans; [apply (grows_forget p)|apply grows_close_container].
  - eapply (opening_grows s); [apply grows_closeConns|apply openers_closeConns|done].
  - eapply (opening_grows s); [apply grows_Client_close|apply openers_Client_close|done].
  - eapply (opening_grows s); [|by rewrite openers_Client_close|exact Hg].
    eapply client_grows_trans; [|apply grows_Client_close]. by apply grows_frame.
Qed.

Lemma client_reachable_ok s : reachable s → shape s ∧ opening s ∧ one_owner s.
Proof.
  induction 1 as [|s s' _ (Hs & Hg & Ho) Hst].
  - split_and!; [|constructor|done]. split; cbn; try done.
    + intros g e [_ <-]%lookup_singleton_Some. apply new_buffer_ok.
    + intros g. destruct g; [by rewrite lookup_singleton_eq; split; [lia|eauto]|].
      rewrite lookup_singleton_ne by done. split; [by intros [? ?]|lia].
    + by intros i [? ?].
  - destruct (client_step_ok s s' Hst Hs Hg Ho). split_and!; try done. by eapply step_opening.
Qed.

(** C15: However reads, notifications, opened and closed connections, timers and
    reconnections interleave, every buffer taken from the pool is in exactly one
    place: no buffer is given back twice, none is given back while a message still
    uses it, and none disappears. *)
Theorem every_buffer_has_one_owner s b : reachable s → owners b s = if (b <? taken s)%nat then 1%nat else 0%nat.
Proof. intros (_ & _ & Ho)%client_reachable_ok. apply Ho. Qed.

(** A connection in the map is open and of its peer, its channel within bounds; a
    closed one holds no message; a client that is not running has no connections. *)
Theorem connections_consistent s : reachable s →
  (∀ p i, conns s !! p = Some i → ∃ c, containers s !! i = Some c ∧ c_peer c = p ∧ c_closed c = false) ∧
  (∀ p q i, conns s !! p = Some i → conns s !! q = Some i → p = q) ∧
  (∀ i c, containers s !! i = Some c → c_closed c = true → c_messages c = []) ∧
  (serviceIsRunning s = false → conns s = ∅).
Proof.
  intros (Hs & _ & _)%client_reachable_ok. split_and!.
  - apply (sh_conns s Hs).
  - intros p q i. by apply conns_inj.
  - apply (sh_drained s Hs).
  - apply (sh_stopped s Hs).
Qed.

(** ** Runs *)

Definition peer0 : PeerID := repeat Byte.x00 36 ↾ I.

(** A message of the peer. *)
Definition transport0 : bytes := [Byte.x01; Byte.x03] ++ repeat Byte.x00 36 ++ [Byte.x2a].

Definition connected (s : Client) : Client :=
  mkClient true (conns s) (containers s) (nextContainer s) (earlies s) (earlyMsgs s) (Some Reading) (closers s) (openers s)
    (copying s) (freed s) (leaked s) (taken s).

Definition opened (s : Client) : Client := match OpenConn_begin peer0 s with Ok s => s | _ => s end.

Lemma reach_opened s : reachable s → OpenConn_begin peer0 s = Ok (opened s) → reachable (opened s).
Proof. intros Hr Ho. eapply reach_step; [exact Hr|]. by apply (step_open _ peer0). Qed.

Lemma reach_connected s : reachable s → serviceIsRunning s = false → loop s = None → reachable (connected s).
Proof. intros Hr H1 H2. eapply reach_step; [exact Hr|]. by apply step_connect. Qed.

(** Close, then Connect and OpenConn before the loop of the first connection has called close. *)
Definition closed_once : Client := readLoop_round None (Client_close (connected NewClient)).

Definition reconnected : Client := opened (connected closed_once).

Lemma reconnected_reachable : reachable reconnected.
Proof.
  apply reach_opened; [|vm_compute; reflexivity]. apply reach_connected; [|reflexivity..].
  eapply reach_step; [|apply step_read; reflexivity]. eapply reach_step; [|apply step_close].
  apply reach_connected; [apply reach_new|reflexivity..].
Qed.

(** The loop of a connection that was closed still calls close when it ends, and that
    call does not know which connection it is for: after Close, a new connection can be
    closed by the loop of the old one, with the connections to peers that were opened
    over it. *)
Theorem old_loop_closes_new_connection : ∃ s s' i c,
  reachable s ∧ serviceIsRunning s = true ∧ loop s = Some Reading ∧ conns s !! peer0 = Some i ∧
  step s s' ∧ closers s = 1%nat ∧ closers s' = 0%nat ∧ serviceIsRunning s' = false ∧ conns s' = ∅ ∧
  containers s' !! i = Some c ∧ c_closed c = true.
Proof.
  exists reconnected. eexists _, 0%nat, _. split; [exact reconnected_reachable|]. split; [reflexivity|]. split; [reflexivity|].
  split; [vm_compute; reflexivity|]. split; [eapply (step_loop_close _ 0); vm_compute; reflexivity|].
  split_and!; vm_compute; reflexivity.
Qed.

(** A message is read while the peer has no connection; the connection is opened before the message is stored. *)
Definition overtaken : Client := opened (readLoop_round (Some transport0) (connected NewClient)).

Definition message0 : Msg := mkMsg [Byte.x2a] 0.

Definition stored : earlyMsgBuffer := match put 0 peer0 message0 newEarlyMsgBuffer with Ok (_, _, b) => b | _ => newEarlyMsgBuffer end.

(** An early message can miss its connection: it is stored after OpenConn has looked for
    it, and stays in the buffer although the connection is open. *)
Theorem early_message_misses_connection : ∃ s b,
  reachable s ∧ is_Some (conns s !! peer0) ∧ earlies s !! earlyMsgs s = Some b ∧ peer0 ∈ em_peerID <$> held b.
Proof.
  assert (reachable overtaken) as Hr.
  { apply reach_opened; [|vm_compute; reflexivity]. eapply reach_step; [|apply step_read; reflexivity].
    apply reach_connected; [apply reach_new|reflexivity..]. }
  exists (Free [] (set_early 0 stored (set_loop (Some Reading) overtaken))), stored. split.
  { eapply reach_step; [exact Hr|]. apply (step_buffer overtaken 0 peer0 message0 newEarlyMsgBuffer true [] stored 0).
    - vm_compute. reflexivity.
    - vm_compute. reflexivity.
    - vm_compute. reflexivity. }
  split; [vm_compute; by eexists|]. split; [apply lookup_insert_eq|]. apply list_elem_of_here.
Qed.

End Client.

Lemma every_buffer_has_one_owner_witness : Client.owners 0 Client.reconnected = 1%nat ∧ Client.taken Client.reconnected = 1%nat.
Proof.
  split; [|reflexivity].
  rewrite (Client.every_buffer_has_one_owner Client.reconnected 0 Client.reconnected_reachable). reflexivity.
Defined.

Lemma connections_consistent_witness : ∃ c, Client.containers Client.reconnected !! 0%nat = Some c ∧ Client.c_closed c = false.
Proof.
  destruct (Client.connections_consistent Client.reconnected Client.reconnected_reachable) as (H & _).
  destruct (H Client.peer0 0%nat) as (c & ? & _ & ?); [vm_compute; reflexivity|]. by exists c.
Defined.
