(* ===== verification/Signal.v ===== *)
(** * The signal server

    signal/peer/peer.go (the registry of connected peers) and signal/server/signal.go
    (the streams that register there and the messages forwarded to them).

    Every ConnectStream is a thread; the operations of sync.Map are atomic steps, as
    are the cancellation of a stream and the parts between them.  StreamID is the time
    a stream was made, so an argument; the gauge of active peers is changed by a step
    of its own, after the map.  The dispatcher is a third party's: whether its calls
    succeed is free; a message for a peer that is not connected is its affair. *)

From S2P Require Import Prelude GoStd.

Local Open Scope go_scope.
Local Open Scope list_scope.

Abbreviation PeerKey := bytes.

Record EncryptedMessage := mkMessage { Key : PeerKey; RemoteKey : PeerKey; Body : bytes }.

(** Where the thread of a stream is. *)
Inductive Phase :=
| Registering               (* before LoadOrStore *)
| Swapping (old : nat)      (* has seen an older stream, before CompareAndSwap *)
| Cancelling (old : nat)    (* has replaced it, before its Cancel *)
| Counting                  (* has stored itself, before the gauge is increased *)
| Listening                 (* before ListenForMessages *)
| Confirming                (* before SendHeader *)
| Waiting
| Leaving                   (* before CompareAndDelete *)
| Uncounting                (* has removed itself, before the gauge is decreased *)
| Returned.

Record Stream := mkStream {
  Id : PeerKey;
  StreamID : Z;
  phase : Phase;
  cancelled : bool;           (* Cancel was called *)
  gone : bool                 (* the context of the stream is done *)
}.

Record Server := mkServer {
  Peers : gmap PeerKey nat;
  streams : gmap nat Stream;
  ActivePeers : Z;
  forwards : list (nat * EncryptedMessage);      (* looked up, not yet sent *)
  delivered : list (nat * EncryptedMessage)
}.

Definition NewServer : Server := mkServer ∅ ∅ 0 [] [].

Definition set_phase (ph : Phase) (st : Stream) : Stream := mkStream (Id st) (StreamID st) ph (cancelled st) (gone st).

Definition with_stream (i : nat) (st : Stream) (s : Server) : Server :=
  mkServer (Peers s) (<[i := st]> (streams s)) (ActivePeers s) (forwards s) (delivered s).

Definition goto (i : nat) (ph : Phase) (s : Server) : Server :=
  match streams s !! i with Some st => with_stream i (set_phase ph st) s | None => s end.

Definition Cancel (i : nat) (s : Server) : Server :=
  match streams s !! i with
  | Some st => with_stream i (mkStream (Id st) (StreamID st) (phase st) true (gone st)) s
  | None => s
  end.

Definition set_peers (m : gmap PeerKey nat) (active : Z) (s : Server) : Server :=
  mkServer m (streams s) active (forwards s) (delivered s).

Definition set_map (m : gmap PeerKey nat) (s : Server) : Server := set_peers m (ActivePeers s) s.

(** [ActivePeers.Add] *)
Definition gauge_add (n : Z) (s : Server) : Server := set_peers (Peers s) (ActivePeers s + n) s.

(** ** peer.go *)

Definition NewPeer (id : PeerKey) (now : Z) : Stream := mkStream id now Registering false false.

(** [Registry.Get] and [Registry.IsPeerRegistered] *)
Definition Get (peerId : PeerKey) (s : Server) : option nat := Peers s !! peerId.

Definition IsPeerRegistered (peerId : PeerKey) (s : Server) : bool := bool_decide (is_Some (Peers s !! peerId)).

(** [Registry.Register] up to the comparison: a new entry, a stream to be replaced, or a refusal. *)
Definition Register_load (i : nat) (st : Stream) (s : Server) : Server :=
  match Peers s !! Id st with
  | None => goto i Counting (set_map (<[Id st := i]> (Peers s)) s)
  | Some j =>
      match streams s !! j with
      | Some old => if StreamID old <? StreamID st then goto i (Swapping j) s else goto i Returned s
      | None => s
      end
  end.

(** CompareAndSwap; the whole of Register starts over when the entry has changed. *)
Definition Register_swap (i old : nat) (st : Stream) (s : Server) : Server :=
  if bool_decide (Peers s !! Id st = Some old)
  then goto i (Cancelling old) (set_map (<[Id st := i]> (Peers s)) s)
  else goto i Registering s.

(** The end of Register for a new entry. *)
Definition Register_count (i : nat) (s : Server) : Server := goto i Listening (gauge_add 1 s).

(** [Registry.Deregister]: CompareAndDelete, and the gauge if it has deleted. *)
Definition Deregister_delete (i : nat) (st : Stream) (s : Server) : Server :=
  if bool_decide (Peers s !! Id st = Some i)
  then goto i Uncounting (set_map (delete (Id st) (Peers s)) s)
  else goto i Returned s.

Definition Deregister_count (i : nat) (s : Server) : Server := goto i Returned (gauge_add (-1) s).

(** ** signal.go *)

(** The end of forwardMessageToPeer.  When it stops waiting, the goroutine that sends
    may still succeed. *)
Inductive send_result := Sent | SendFailed | Disconnected (late : bool) | SendTimeout (late : bool).

Definition deliver (i : nat) (m : EncryptedMessage) (s : Server) : Server :=
  mkServer (Peers s) (streams s) (ActivePeers s) (forwards s) (delivered s ++ [(i, m)]).

Definition forward_end (r : send_result) (i : nat) (m : EncryptedMessage) (s : Server) : Server :=
  match r with
  | Sent => deliver i m s
  | SendFailed => s
  | Disconnected late => if late then deliver i m s else s
  | SendTimeout late => Cancel i (if late then deliver i m s else s)
  end.

Definition set_forwards (l : list (nat * EncryptedMessage)) (s : Server) : Server :=
  mkServer (Peers s) (streams s) (ActivePeers s) l (delivered s).

Inductive step : Server → Server → Prop :=
| step_connect s i id now : streams s !! i = None → step s (with_stream i (NewPeer id now) s)
| step_register s i st : streams s !! i = Some st → phase st = Registering → step s (Register_load i st s)
| step_count s i st : streams s !! i = Some st → phase st = Counting → step s (Register_count i s)
| step_swap s i st old : streams s !! i = Some st → phase st = Swapping old → step s (Register_swap i old st s)
| step_cancel s i st old : streams s !! i = Some st → phase st = Cancelling old → step s (goto i Listening (Cancel old s))
| step_listen s i st : streams s !! i = Some st → phase st = Listening → step s (goto i Confirming s)
| step_listen_fails s i st : streams s !! i = Some st → phase st = Listening → step s (goto i Returned s)
| step_confirm s i st : streams s !! i = Some st → phase st = Confirming → step s (goto i Waiting s)
| step_confirm_fails s i st : streams s !! i = Some st → phase st = Confirming → step s (goto i Leaving s)
| step_done s i st : streams s !! i = Some st → phase st = Waiting → cancelled st = true ∨ gone st = true →
    step s (goto i Leaving s)
| step_leave s i st : streams s !! i = Some st → phase st = Leaving → step s (Deregister_delete i st s)
| step_uncount s i st : streams s !! i = Some st → phase st = Uncounting → step s (Deregister_count i s)
| step_gone s i st : streams s !! i = Some st →
    step s (with_stream i (mkStream (Id st) (StreamID st) (phase st) (cancelled st) true) s)
| step_forward s i m : Get (RemoteKey m) s = Some i → step s (set_forwards ((i, m) :: forwards s) s)
| step_forward_end s l1 i m l2 r : forwards s = l1 ++ (i, m) :: l2 → step s (forward_end r i m (set_forwards (l1 ++ l2) s)).

Inductive reachable : Server → Prop :=
| reach_new : reachable NewServer
| reach_step s s' : reachable s → step s s' → reachable s'.

(** ** The invariant *)

(** A stream that may hold an entry of the registry: it has stored itself. *)
Definition stored (ph : Phase) : Prop := ph ≠ Registering ∧ ∀ old, ph ≠ Swapping old.

(** A stream that is registered as far as its thread knows. *)
Definition entered (ph : Phase) : Prop := stored ph ∧ ph ≠ Returned ∧ ph ≠ Uncounting.

(** What the thread of a stream has still to add to the gauge. *)
Definition owed (ph : Phase) : Z := match ph with Counting => 1 | Uncounting => -1 | _ => 0 end.

Definition gauge_owed (m : gmap nat Stream) : Z := map_fold (λ _ st acc, owed (phase st) + acc) 0 m.

Lemma owed_new m i st : m !! i = None → gauge_owed (<[i := st]> m) = owed (phase st) + gauge_owed m.
Proof. intros Hi. unfold gauge_owed. rewrite map_fold_insert_L; [done|intros; lia|done]. Qed.

Lemma owed_update m i st st' :
  m !! i = Some st → gauge_owed (<[i := st']> m) = gauge_owed m - owed (phase st) + owed (phase st').
Proof.
  intros Hi. pose proof (owed_new (delete i m) i st (lookup_delete_eq m i)) as H1.
  pose proof (owed_new (delete i m) i st' (lookup_delete_eq m i)) as H2.
  rewrite insert_delete_id in H1 by done. rewrite insert_delete_eq in H2. lia.
Qed.

Lemma owed_none (m : gmap nat Stream) : map_Forall (λ _ st, owed (phase st) = 0) m → gauge_owed m = 0.
Proof.
  induction m as [|i st m Hi IH] using map_ind; [done|]. intros [H0 Hm]%map_Forall_insert; [|done].
  rewrite owed_new, H0 by done. by rewrite IH.
Qed.

(** The stream is being replaced: its Cancel is about to be called. *)
Definition being_cancelled (i : nat) (s : Server) : Prop := ∃ j st, streams s !! j = Some st ∧ phase st = Cancelling i.

Record sig_ok (s : Server) : Prop := mkSigOk {
  ok_peers id i : Peers s !! id = Some i → ∃ st, streams s !! i = Some st ∧ Id st = id ∧ stored (phase st);
  ok_active : ActivePeers s + gauge_owed (streams s) = Z.of_nat (size (Peers s));
  ok_superseded i st : streams s !! i = Some st → entered (phase st) → Peers s !! Id st ≠ Some i →
    cancelled st = true ∨ being_cancelled i s;
  ok_older i st old : streams s !! i = Some st → phase st = Swapping old ∨ phase st = Cancelling old →
    ∃ so, streams s !! old = Some so ∧ Id so = Id st ∧ StreamID so < StreamID st ∧ stored (phase so);
  ok_messages i m : (i, m) ∈ forwards s ++ delivered s → ∃ st, streams s !! i = Some st ∧ Id st = RemoteKey m
}.

(** The stream of a thread changes: the name and the time stay. *)
Definition evolves (st st' : Stream) : Prop :=
  Id st' = Id st ∧ StreamID st' = StreamID st ∧ (stored (phase st) → stored (phase st')) ∧ (cancelled st = true → cancelled st' = true).

(** One stream and the registry change together. *)
Lemma ok_update s i st st' m a : sig_ok s → streams s !! i = Some st → evolves st st' →
  a + owed (phase st') - Z.of_nat (size m) = ActivePeers s + owed (phase st) - Z.of_nat (size (Peers s)) →
  (∀ id j, m !! id = Some j → Peers s !! id = Some j ∨ (j = i ∧ id = Id st ∧ stored (phase st'))) →
  (∀ j sj, j ≠ i → streams s !! j = Some sj → Peers s !! Id sj = Some j → m !! Id sj ≠ Some j → phase st' = Cancelling j) →
  (entered (phase st') → m !! Id st ≠ Some i → cancelled st' = true ∨ being_cancelled i s) →
  (∀ old, phase st = Cancelling old → phase st' = Cancelling old ∨ ∃ so, streams s !! old = Some so ∧ cancelled so = true) →
  (∀ old, phase st' = Swapping old ∨ phase st' = Cancelling old →
     ∃ so, streams s !! old = Some so ∧ Id so = Id st ∧ StreamID so < StreamID st ∧ stored (phase so)) →
  sig_ok (set_peers m a (with_stream i st' s)).
Proof.
  intros [H1 H2 H3 H4 H5] Hi (E1 & E2 & E3 & E4) Ha Hm Hlost Hsup Hcan Hold.
  assert (∀ j sj, streams s !! j = Some sj → ∃ sj', <[i := st']> (streams s) !! j = Some sj' ∧ evolves sj sj') as Hev.
  { intros j sj Hj. destruct (decide (j = i)) as [->|]; [|rewrite lookup_insert_ne by done; exists sj; unfold evolves; auto].
    rewrite lookup_insert_eq. exists st'. assert (sj = st) as -> by congruence. unfold evolves. auto. }
  assert (∀ j sj, streams s !! j = Some sj → cancelled sj = true ∨ being_cancelled j s →
    (∃ sj', <[i := st']> (streams s) !! j = Some sj' ∧ cancelled sj' = true) ∨ being_cancelled j (set_peers m a (with_stream i st' s))) as Hbc.
  { intros j sj Hj [Hc|(k & sk & Hk & Hpk)].
    - left. destruct (Hev j sj Hj) as (sj' & Hj' & _ & _ & _ & Hcc). eauto.
    - destruct (decide (k = i)) as [->|Hne].
      + assert (sk = st) as -> by congruence. destruct (Hcan j Hpk) as [Hp'|(so & Hso & Hcs)].
        * right. exists i, st'. split; [apply lookup_insert_eq|done].
        * left. destruct (Hev j so Hso) as (sj' & Hj' & _ & _ & _ & Hcc). eauto.
      + right. exists k, sk. cbn [set_peers with_stream streams]. by rewrite lookup_insert_ne. }
  split; cbn [set_peers with_stream Peers streams ActivePeers forwards delivered]; try done.
  - intros id j [Hj|(-> & -> & Hst)]%Hm; [|exists st'; rewrite lookup_insert_eq; by rewrite E1].
    destruct (H1 id j Hj) as (sj & Hsj & <- & Hst). destruct (Hev j sj Hsj) as (sj' & ? & ? & _ & Hs' & _). eauto.
  - rewrite (owed_update _ i st) by done. lia.
  - intros j sj' Hj' Hent Hp. destruct (decide (j = i)) as [->|Hne].
    + rewrite lookup_insert_eq in Hj'. injection Hj' as <-. rewrite E1 in Hp. destruct (Hsup Hent Hp) as [?|Hb]; [by left|].
      destruct (Hbc i st Hi (or_intror Hb)) as [(sj' & Hj' & ?)|?]; [|by right]. rewrite lookup_insert_eq in Hj'. left. congruence.
    + rewrite lookup_insert_ne in Hj' by done. destruct (decide (Peers s !! Id sj' = Some j)) as [Hpj|Hpj].
      { right. exists i, st'. split; [apply lookup_insert_eq|by eapply Hlost]. }
      destruct (Hbc j sj' Hj' (H3 j sj' Hj' Hent Hpj)) as [(x & Hx & ?)|?]; [|by right].
      rewrite lookup_insert_ne in Hx by done. left. congruence.
  - intros j sj' old Hj' Hph. assert (∃ sj so, streams s !! old = Some so ∧ Id so = Id sj ∧ StreamID so < StreamID sj ∧
      stored (phase so) ∧ Id sj' = Id sj ∧ StreamID sj' = StreamID sj) as (sj & so & Hso & ? & ? & ? & -> & ->).
    { destruct (decide (j = i)) as [->|Hne].
      - rewrite lookup_insert_eq in Hj'. injection Hj' as <-. destruct (Hold old Hph) as (so & ? & ? & ? & ?). exists st, so. by split_and!.
      - rewrite lookup_insert_ne in Hj' by done. destruct (H4 j sj' old Hj' Hph) as (so & ? & ? & ? & ?). exists sj', so. by split_and!. }
    destruct (Hev old so Hso) as (so' & ? & ? & E & Hst & _). exists so'. split_and!; try done; [congruence|rewrite E; lia|by apply Hst].
  - intros j x Hx. destruct (H5 j x Hx) as (sj & Hsj & <-). destruct (Hev j sj Hsj) as (sj' & ? & ? & _). eauto.
Qed.

(** Only the stream changes. *)
Lemma ok_stream s i st st' : sig_ok s → streams s !! i = Some st → evolves st st' → owed (phase st') = owed (phase st) →
  (entered (phase st') → Peers s !! Id st ≠ Some i → cancelled st' = true ∨ being_cancelled i s) →
  (∀ old, phase st = Cancelling old → phase st' = Cancelling old ∨ ∃ so, streams s !! old = Some so ∧ cancelled so = true) →
  (∀ old, phase st' = Swapping old ∨ phase st' = Cancelling old →
     ∃ so, streams s !! old = Some so ∧ Id so = Id st ∧ StreamID so < StreamID st ∧ stored (phase so)) →
  sig_ok (with_stream i st' s).
Proof.
  intros Hs Hi He Ho H1 H2 H3. change (with_stream i st' s) with (set_peers (Peers s) (ActivePeers s) (with_stream i st' s)).
  apply (ok_update s i st st' (Peers s) (ActivePeers s)); [done|done|done|lia|by left|done|done|done|done].
Qed.

(** The thread moves on within the phases of a registered stream. *)
Lemma ok_move s i st ph : sig_ok s → streams s !! i = Some st → entered (phase st) → (∀ old, phase st ≠ Cancelling old) →
  stored ph → (∀ old, ph ≠ Cancelling old) → owed ph = owed (phase st) → sig_ok (goto i ph s).
Proof.
  intros Hs Hi He Hc Hp Hc' Ho. unfold goto. rewrite Hi. eapply ok_stream; [done|done|by split_and!|done| | |].
  - intros _ Hpi. exact (ok_superseded s Hs i st Hi He Hpi).
  - intros old Hold. by apply Hc in Hold.
  - intros old [E|E]; [by destruct Hp as [_ Hp]; apply Hp in E|by apply Hc' in E].
Qed.

Lemma ok_cancel s i : sig_ok s → sig_ok (Cancel i s).
Proof.
  intros Hs. unfold Cancel. destruct (streams s !! i) as [st|] eqn:Hi; [|done]. eapply ok_stream; [done|done|by split_and!|done| | |].
  - by left.
  - by left.
  - intros old. by apply (ok_older s Hs i st).
Qed.

Lemma ok_new s i id now : sig_ok s → streams s !! i = None → sig_ok (with_stream i (NewPeer id now) s).
Proof.
  intros [H1 H2 H3 H4 H5] Hi. assert (∀ j sj, streams s !! j = Some sj → <[i := NewPeer id now]> (streams s) !! j = Some sj) as Hold.
  { intros j sj Hj. rewrite lookup_insert_ne; [done|]. intros ->. congruence. }
  split; cbn [with_stream Peers streams ActivePeers forwards delivered]; try done.
  - intros k j Hj. destruct (H1 k j Hj) as (sj & ? & ?). eauto.
  - by rewrite owed_new.
  - intros j sj [[<- <-]|[_ Hj]]%lookup_insert_Some Hent; [by destruct Hent as [[? _] _]|].
    intros [?|(k & sk & Hk & ?)]%(H3 j sj Hj Hent); [by left|]. right. exists k, sk. split; [by apply Hold|done].
  - intros j sj old [[<- <-]|[_ Hj]]%lookup_insert_Some Hph; [by destruct Hph|].
    destruct (H4 j sj old Hj Hph) as (so & ? & ?). eauto.
  - intros j m Hm. destruct (H5 j m Hm) as (sj & ? & ?). eauto.
Qed.

(** ** The steps *)

Lemma goto_set_peers i ph m a s : goto i ph (set_peers m a s) = set_peers m a (goto i ph s).
Proof. unfold goto. cbn [set_peers streams]. by destruct (streams s !! i). Qed.

Lemma goto_set_map i ph m s : goto i ph (set_map m s) = set_peers m (ActivePeers s) (goto i ph s).
Proof. apply goto_set_peers. Qed.

Lemma evolves_phase st ph : (stored (phase st) → stored ph) → evolves st (set_phase ph st).
Proof. intros H. unfold evolves. auto. Qed.

Lemma ok_register s i st : sig_ok s → streams s !! i = Some st → phase st = Registering → sig_ok (Register_load i st s).
Proof.
  intros Hs Hi Hp. unfold Register_load. destruct (Peers s !! Id st) as [j|] eqn:Hid.
  - destruct (ok_peers s Hs _ _ Hid) as (so & Hso & Hsid & Hst). rewrite Hso. unfold goto. rewrite Hi.
    assert (∀ ph, evolves st (set_phase ph st)) as Hev.
    { intros ph. apply evolves_phase. rewrite Hp. by intros [? _]. }
    destruct (StreamID so <? StreamID st) eqn:Hlt; (eapply ok_stream; [done|done|apply Hev|by rewrite Hp| | |]).
    + intros [[_ Hsw] _]. by destruct (Hsw j).
    + intros old E. by rewrite Hp in E.
    + intros old [[= <-]|E]; [|done]. apply Z.ltb_lt in Hlt. eauto.
    + by intros [_ [? _]].
    + intros old E. by rewrite Hp in E.
    + by intros old [?|?].
  - rewrite goto_set_map. unfold goto. rewrite Hi. eapply ok_update; [done|done| |..].
    + apply evolves_phase. rewrite Hp. by intros [? _].
    + rewrite map_size_insert_None, Hp by done. cbn [owed set_phase phase]. lia.
    + intros id j [[<- <-]|[_ Hj]]%lookup_insert_Some; [right|by left]. by split_and!.
    + intros j sj Hne Hj Hpj Hlost. rewrite lookup_insert_Some in Hlost. exfalso. apply Hlost. right. split; [|done]. intros E. congruence.
    + intros _ Hn. by rewrite lookup_insert_eq in Hn.
    + intros old E. by rewrite Hp in E.
    + by intros old [?|?].
Qed.

Lemma ok_swap s i st old : sig_ok s → streams s !! i = Some st → phase st = Swapping old → sig_ok (Register_swap i old st s).
Proof.
  intros Hs Hi Hp. destruct (ok_older s Hs i st old Hi (or_introl Hp)) as (so & Hso & Hsid & Hlt & Hst).
  unfold Register_swap. case_bool_decide as Hid.
  - rewrite goto_set_map. unfold goto. rewrite Hi. eapply ok_update; [done|done| |..].
    + apply evolves_phase. rewrite Hp. intros [_ Hn]. by destruct (Hn old).
    + rewrite map_size_insert_Some, Hp by eauto. cbn [owed set_phase phase]. lia.
    + intros id j [[<- <-]|[_ Hj]]%lookup_insert_Some; [right|by left]. by split_and!.
    + intros j sj Hne Hj Hpj Hlost. cbn [set_phase phase]. f_equal. destruct (decide (Id sj = Id st)) as [E|E]; [congruence|].
      by rewrite lookup_insert_ne in Hlost.
    + intros _ Hn. by rewrite lookup_insert_eq in Hn.
    + intros o E. by rewrite Hp in E.
    + intros o [?|[= <-]]; [done|]. eauto.
  - unfold goto. rewrite Hi. eapply ok_stream; [done|done| |by rewrite Hp| | |].
    + apply evolves_phase. rewrite Hp. intros [_ Hn]. by destruct (Hn old).
    + by intros [[? _] _].
    + intros o E. by rewrite Hp in E.
    + by intros o [?|?].
Qed.

Lemma ok_cancel_step s i st old : sig_ok s → streams s !! i = Some st → phase st = Cancelling old →
  sig_ok (goto i Listening (Cancel old s)).
Proof.
  intros Hs Hi Hp. destruct (ok_older s Hs i st old Hi (or_intror Hp)) as (so & Hso & Hsid & Hlt & Hst).
  pose proof (ok_cancel s old Hs) as Hs'. assert (old ≠ i) as Hne by (intros ->; assert (so = st) as -> by congruence; lia).
  assert (streams (Cancel old s) !! i = Some st) as Hi'.
  { unfold Cancel. rewrite Hso. cbn [with_stream streams]. by rewrite lookup_insert_ne. }
  unfold goto. rewrite Hi'. eapply ok_stream; [done|done| |by rewrite Hp| | |].
  - apply evolves_phase. by intros _; split.
  - intros _ Hn. apply (ok_superseded _ Hs' i st Hi'); [|done]. rewrite Hp. by repeat split.
  - intros o E. rewrite Hp in E. injection E as <-. right. unfold Cancel. rewrite Hso. cbn [with_stream streams].
    rewrite lookup_insert_eq. by eexists.
  - by intros o [?|?].
Qed.

Lemma ok_leave s i st : sig_ok s → streams s !! i = Some st → phase st = Leaving → sig_ok (Deregister_delete i st s).
Proof.
  intros Hs Hi Hp. unfold Deregister_delete. case_bool_decide as Hid.
  - rewrite goto_set_map. unfold goto. rewrite Hi. eapply ok_update; [done|done| |..].
    + apply evolves_phase. by intros _; split.
    + rewrite map_size_delete_Some, Hp by eauto. cbn [owed set_phase phase].
      assert (0 < size (Peers s))%nat; [|lia]. apply Nat.neq_0_lt_0. intros E%map_size_empty_inv. by rewrite E, lookup_empty in Hid.
    + intros id j [_ Hj]%lookup_delete_Some. by left.
    + intros j sj Hne Hj Hpj Hlost. exfalso. apply Hlost, lookup_delete_Some. split; [|done]. intros E. congruence.
    + by intros [_ [_ ?]].
    + intros o E. by rewrite Hp in E.
    + by intros o [?|?].
  - unfold goto. rewrite Hi. eapply ok_stream; [done|done| |by rewrite Hp| | |].
    + apply evolves_phase. by intros _; split.
    + by intros [_ [? _]].
    + intros o E. by rewrite Hp in E.
    + by intros o [?|?].
Qed.

(** The gauge follows the map. *)
Lemma ok_count s i st ph n : sig_ok s → streams s !! i = Some st → phase st = Counting ∨ phase st = Uncounting →
  n = owed (phase st) → stored ph → owed ph = 0 → (∀ old, ph ≠ Cancelling old) →
  (phase st = Uncounting → ph = Returned) → sig_ok (goto i ph (gauge_add n s)).
Proof.
  intros Hs Hi Hp -> Hph Ho Hc Hret. unfold gauge_add. rewrite goto_set_peers. unfold goto. rewrite Hi.
  eapply ok_update; [done|done|by apply evolves_phase|cbn [set_phase phase]; lia|by left|done| | |].
  - intros He Hn. apply (ok_superseded s Hs i st Hi); [|done]. destruct Hp as [E|E]; [by rewrite E; repeat split|].
    destruct He as (_ & He & _). by destruct He; apply Hret.
  - intros old E. by destruct Hp as [E'|E']; rewrite E' in E.
  - intros old [E|E]; [by destruct Hph as [_ Hph]; apply Hph in E|by apply Hc in E].
Qed.

Lemma ok_forward_messages s l : sig_ok s → (∀ i m, (i, m) ∈ l → ∃ st, streams s !! i = Some st ∧ Id st = RemoteKey m) →
  sig_ok (set_forwards l s).
Proof.
  intros [H1 H2 H3 H4 H5] Hl. split; try done. cbn [set_forwards forwards delivered streams].
  intros i m [Hin|Hin]%elem_of_app; [by apply Hl|]. apply H5, elem_of_app. by right.
Qed.

Lemma ok_forward_end s l1 i m l2 r : sig_ok s → forwards s = l1 ++ (i, m) :: l2 →
  sig_ok (forward_end r i m (set_forwards (l1 ++ l2) s)).
Proof.
  intros Hs E. assert (∀ j x, (j, x) ∈ forwards s → ∃ st, streams s !! j = Some st ∧ Id st = RemoteKey x) as Hf.
  { intros j x Hx. apply (ok_messages s Hs), elem_of_app. by left. }
  rewrite E in Hf. assert (sig_ok (set_forwards (l1 ++ l2) s)) as Hs1.
  { apply ok_forward_messages; [done|]. intros j x Hx. apply Hf. rewrite elem_of_app, elem_of_cons. apply elem_of_app in Hx as [?|?]; auto. }
  assert (sig_ok (deliver i m (set_forwards (l1 ++ l2) s))) as Hd.
  { destruct Hs1 as [H1 H2 H3 H4 H5]. split; try done. cbn [deliver set_forwards forwards delivered streams].
    intros j x. rewrite app_assoc, elem_of_app, list_elem_of_singleton.
    intros [Hx|[= -> ->]]; [by apply H5|]. apply Hf. rewrite elem_of_app, elem_of_cons. auto. }
  destruct r as [| |[]|[]]; cbn [forward_end]; try done; by apply ok_cancel.
Qed.

Lemma signal_step_ok s s' : step s s' → sig_ok s → sig_ok s'.
Proof.
  intros Hst Hs. destruct Hst as [|s i st Hi Hp|s i st Hi Hp|s i st old Hi Hp|s i st old Hi Hp|s i st Hi Hp|s i st Hi Hp|s i st Hi Hp|s i st Hi Hp
    |s i st Hi Hp _|s i st Hi Hp|s i st Hi Hp|s i st Hi|s i m Hg|s l1 i m l2 r E].
  - by apply ok_new.
  - by apply ok_register.
  - apply (ok_count s i st); rewrite ?Hp; by auto || done || by split.
  - by apply ok_swap.
  - by eapply ok_cancel_step.
  - apply (ok_move s i st); [done|done|rewrite Hp; by repeat split|by rewrite Hp|by split|done|by rewrite Hp].
  - apply (ok_move s i st); [done|done|rewrite Hp; by repeat split|by rewrite Hp|by split|done|by rewrite Hp].
  - apply (ok_move s i st); [done|done|rewrite Hp; by repeat split|by rewrite Hp|by split|done|by rewrite Hp].
  - apply (ok_move s i st); [done|done|rewrite Hp; by repeat split|by rewrite Hp|by split|done|by rewrite Hp].
  - apply (ok_move s i st); [done|done|rewrite Hp; by repeat split|by rewrite Hp|by split|done|by rewrite Hp].
  - by eapply ok_leave.
  - apply (ok_count s i st); rewrite ?Hp; by auto || done || by split.
  - eapply ok_stream; [done|done|by split_and!|done| | |].
    + intros He Hn. by apply (ok_superseded s Hs i st).
    + by left.
    + intros old. by apply (ok_older s Hs i st).
  - apply ok_forward_messages; [done|]. intros j x [[= -> ->]|Hx]%elem_of_cons.
    + destruct (ok_peers s Hs _ _ Hg) as (st & ? & ? & _). eauto.
    + apply (ok_messages s Hs), elem_of_app. by left.
  - by apply ok_forward_end.
Qed.

Lemma signal_reachable_ok s : reachable s → sig_ok s.
Proof.
  induction 1 as [|s s' _ IH Hst]; [|by eapply signal_step_ok]. split; cbn; try done. intros i m Hx. by apply elem_of_nil in Hx.
Qed.

(** ** What the server guarantees *)

(** C25: However registrations, reconnections, disconnections and timeouts interleave, the
    registry maps a peer to a stream that this peer has opened, and a message is only
    ever delivered to a stream of the peer it is addressed to.  The gauge of active
    peers is the number of entries but for the streams that have entered or left the
    registry and have not counted it yet: it counts the entries whenever there is no
    such stream. *)
Theorem messages_reach_their_peer s : reachable s →
  (∀ id i, Peers s !! id = Some i → ∃ st, streams s !! i = Some st ∧ Id st = id) ∧
  (∀ i m, (i, m) ∈ delivered s → ∃ st, streams s !! i = Some st ∧ Id st = RemoteKey m) ∧
  ActivePeers s + gauge_owed (streams s) = Z.of_nat (size (Peers s)) ∧
  ((∀ i st, streams s !! i = Some st → phase st ≠ Counting ∧ phase st ≠ Uncounting) →
     ActivePeers s = Z.of_nat (size (Peers s))).
Proof.
  intros [H1 H2 H3 H4 H5]%signal_reachable_ok. split_and!; [| |done|].
  - intros id i Hi. destruct (H1 id i Hi) as (st & ? & ? & _). eauto.
  - intros i m Hm. apply H5, elem_of_app. by right.
  - intros Hq. rewrite (owed_none (streams s)) in H2; [lia|]. intros i st Hi. destruct (Hq i st Hi). by destruct (phase st).
Qed.

(** A stream that waits although the registry no longer holds it has been cancelled, or
    is about to be by the stream that has replaced it. *)
Theorem replaced_stream_is_cancelled s i st : reachable s → streams s !! i = Some st → phase st = Waiting →
  Peers s !! Id st ≠ Some i → cancelled st = true ∨ being_cancelled i s.
Proof.
  intros Hr Hi Hp Hn. apply (ok_superseded s (signal_reachable_ok s Hr) i st Hi); [|done]. rewrite Hp. by repeat split.
Qed.

Lemma goto_Peers i ph s : Peers (goto i ph s) = Peers s.
Proof. unfold goto. by destruct (streams s !! i). Qed.

Lemma Cancel_Peers i s : Peers (Cancel i s) = Peers s.
Proof. unfold Cancel. by destruct (streams s !! i). Qed.

(** C26: The newest stream of a peer stays: an entry is only ever replaced by a stream made
    later, and only removed by the stream that holds it; a stream that has been
    replaced does not take its successor out of the registry. *)
Theorem newest_stream_stays s s' id i si : reachable s → step s s' → Peers s !! id = Some i → streams s !! i = Some si →
  Peers s' !! id = Some i ∨
  (∃ j sj, Peers s' !! id = Some j ∧ streams s !! j = Some sj ∧ Id sj = id ∧ StreamID si < StreamID sj) ∨
  (Peers s' !! id = None ∧ phase si = Leaving).
Proof.
  intros Hr Hst Hp Hi. pose proof (signal_reachable_ok s Hr) as Hs.
  destruct Hst as [|s k st Hk Hph| |s k st old Hk Hph| | | | | | |s k st Hk Hph| | | |s l1 k m l2 r E];
    unfold Register_count, Deregister_count; rewrite ?goto_Peers; auto.
  - left. unfold Register_load. destruct (Peers s !! Id st) as [j|] eqn:Hid.
    + destruct (streams s !! j) as [so|]; [|done]. by destruct (_ <? _); rewrite goto_Peers.
    + rewrite goto_Peers. cbn [set_map set_peers Peers]. rewrite lookup_insert_ne; [done|]. intros E. rewrite E in Hid. congruence.
  - unfold Register_swap. case_bool_decide as Hid; rewrite goto_Peers; [|by left]. cbn [set_map set_peers Peers].
    destruct (decide (id = Id st)) as [->|Hne]; [|left; by rewrite lookup_insert_ne].
    right; left. exists k, st. rewrite lookup_insert_eq. assert (old = i) as -> by congruence.
    destruct (ok_older s Hs k st i Hk (or_introl Hph)) as (so & Hso & _ & Hlt & _). assert (so = si) as -> by congruence. eauto.
  - left. by rewrite Cancel_Peers.
  - unfold Deregister_delete. case_bool_decide as Hid; rewrite goto_Peers; [|by left]. cbn [set_map set_peers Peers].
    destruct (decide (id = Id st)) as [->|Hne]; [|left; by rewrite lookup_delete_ne].
    right; right. rewrite lookup_delete_eq. assert (k = i) as -> by congruence. assert (st = si) as -> by congruence. done.
  - left. destruct r as [| |[]|[]]; cbn [forward_end]; rewrite ?Cancel_Peers; done.
Qed.

(** ** A listener that cannot be registered *)

Definition a_peer : PeerKey := [Byte.x61].

(** The stream of a peer whose message listener the dispatcher refuses. *)
Definition refused : Server :=
  goto 0 Returned (Register_count 0 (Register_load 0 (NewPeer a_peer 1) (with_stream 0 (NewPeer a_peer 1) NewServer))).

Lemma refused_reachable : reachable refused.
Proof.
  eapply reach_step; [|eapply (step_listen_fails _ 0); vm_compute; reflexivity].
  eapply reach_step; [|eapply (step_count _ 0); vm_compute; reflexivity].
  eapply reach_step; [|apply (step_register _ 0); vm_compute; reflexivity].
  eapply reach_step; [apply reach_new|]. by apply step_connect.
Qed.

(** When the listener of a stream cannot be registered the peer is told so, but its
    stream stays in the registry and in the count of active peers: the server goes on
    forwarding messages to a stream nobody reads, until the peer connects again. *)
Theorem refused_stream_stays_registered : ∃ s st, reachable s ∧ Get a_peer s = Some 0%nat ∧ streams s !! 0%nat = Some st ∧
  phase st = Returned ∧ ActivePeers s = 1.
Proof. exists refused. eexists. split; [exact refused_reachable|]. split_and!; vm_compute; reflexivity. Qed.

(** ** Runs *)

(** The peer connects again, later. *)
Definition again : Server := goto 1 (Swapping 0) (with_stream 1 (NewPeer a_peer 2) refused).

Lemma again_reachable : reachable again.
Proof.
  eapply reach_step; [|eapply (step_register (with_stream 1 (NewPeer a_peer 2) refused) 1 (NewPeer a_peer 2)); vm_compute; reflexivity].
  eapply reach_step; [exact refused_reachable|]. by apply step_connect.
Qed.

Lemma messages_reach_their_peer_witness : ActivePeers again = 1 ∧ ∃ st, streams again !! 0%nat = Some st ∧ Id st = a_peer.
Proof.
  destruct (messages_reach_their_peer again again_reachable) as (H1 & _ & H2 & _).
  split; [change (ActivePeers again + 0 = 1) in H2; lia|].
  apply (H1 a_peer 0%nat). vm_compute. reflexivity.
Defined.

(** The second stream replaces the first. *)
Lemma newest_stream_stays_witness : ∃ j sj, Peers (Register_swap 1 0 (set_phase (Swapping 0) (NewPeer a_peer 2)) again) !! a_peer = Some j ∧
  streams again !! j = Some sj ∧ 1 < StreamID sj.
Proof.
  destruct (newest_stream_stays again (Register_swap 1 0 (set_phase (Swapping 0) (NewPeer a_peer 2)) again) a_peer 0
    (set_phase Returned (NewPeer a_peer 1))) as [E|[(j & sj & H1 & H2 & _ & H3)|[E _]]].
  - exact again_reachable.
  - eapply (step_swap again 1 (set_phase (Swapping 0) (NewPeer a_peer 2)) 0); vm_compute; reflexivity.
  - vm_compute. reflexivity.
  - vm_compute. reflexivity.
  - exfalso. revert E. vm_compute. discriminate.
  - by exists j, sj.
  - exfalso. revert E. vm_compute. discriminate.
Defined.
