(* ===== verification/RouteWatcher.v ===== *)
(** * Choosing the routing peer of a network

    client/internal/routemanager/client/client.go: the watcher of one client network.
    It scores the routes of the network by the state of their peers, gives the allowed
    IPs of the network to the peer of the best one, and follows updates of the routes
    and of the states.

    The handler that moves the allowed IPs is an interface of the repository: the
    class [RouteHandler], with its laws.  The handler of static networks is shown to
    keep them; the handlers of domains, which move many allowed IPs and can succeed for
    some of them only, are not modelled.  Scores are float64 computations ([GoFloat]).
    Ranging over a map visits it in any order, so the order is an argument.  One step is
    one round of the select of Start, or Stop; the goroutines that watch the peers are
    the channels that end them. *)

From Stdlib Require Import Strings.Byte Strings.String.
From S2P Require Import Prelude GoStd NetIP Routes GoFloat RefCounter.

Local Open Scope go_scope.
Local Open Scope list_scope.

(** ** The states of peers *)

(** client/internal/peer/conn_status.go *)
Inductive ConnStatus := StatusIdle | StatusConnecting | StatusConnected.

#[global] Instance ConnStatus_eq_dec : EqDecision ConnStatus.
Proof. solve_decision. Defined.

Record routerPeerStatus := mkStatus { ps_status : ConnStatus; ps_relayed : bool; ps_latency : Z }.

Inductive reason := reasonUnknown | reasonRouteUpdate | reasonPeerUpdate | reasonShutdown | reasonHA.

Abbreviation Routes_ := (gmap bytes Route).

Abbreviation Statuses := (gmap bytes routerPeerStatus).

(** Both getRouterPeerStatuses and convertRouterPeerStatuses: [states] is what the
    status recorder knows of a peer, or the states that came with an event. *)
Definition getRouterPeerStatuses (states : bytes → option routerPeerStatus) (routes : Routes_) : Statuses :=
  list_to_map (omap (λ r, (rt_ID r,.) <$> states (rt_Peer r)) (map_to_list routes).*2).

(** ** The score *)

Definition ms : Z := 10 ^ 6.

(** The effective latency, which the score counts: 999 milliseconds if it is unknown or above a second. *)
Definition effective_latency (l : Z) : Z :=
  let latency := if l =? 0 then 999 * ms else l in
  if second <? latency then 999 * ms else latency.

Definition score (r : Route) (st : routerPeerStatus) : Z :=
  let s := if rt_Metric r <? MaxMetric then float_mul (float_of_int (MaxMetric - rt_Metric r)) (float_of_int 10) else 0 in
  let s := float_add s (float_sub (float_of_int 1) (Duration_Seconds (effective_latency (ps_latency st)))) in
  let s := if bool_decide (ps_status st = StatusConnected) then float_add s (float_of_int 100000) else s in
  if negb (ps_relayed st) then float_add s (float_of_int 1) else s.

(** The constant 0.01 *)
Definition hysteresis : Z := round64 one64 100.

(** ** getBestRouteFromStatuses *)

(** The variables of the loop; the empty id is no route. *)
Record Choice := mkChoice { chosen : bytes; chosenStatus : routerPeerStatus; chosenScore : Z; currScore : Z }.

Definition no_status : routerPeerStatus := mkStatus StatusIdle false 0.

Definition choose (currID : bytes) (statuses : Statuses) (c : Choice) (r : Route) : Choice :=
  match statuses !! rt_ID r with
  | None => c
  | Some st =>
      if bool_decide (ps_status st = StatusConnecting) then c else
      let tempScore := score r st in
      let c := if (chosenScore c <? tempScore) || ((tempScore =? chosenScore c) && bool_decide (chosen c = []))
               then mkChoice (rt_ID r) st tempScore (currScore c) else c in
      let c := if bool_decide (chosen c = []) && bool_decide (currID = [])
               then mkChoice (rt_ID r) st tempScore (currScore c) else c in
      if bool_decide (rt_ID r = currID) then mkChoice (chosen c) (chosenStatus c) (chosenScore c) tempScore else c
  end.

Definition getBestRouteFromStatuses (currentChosen : option Route) (order : list Route) (statuses : Statuses) :
    bytes * routerPeerStatus :=
  let currID := match currentChosen with Some r => rt_ID r | None => [] end in
  let c := foldl (choose currID statuses) (mkChoice [] no_status 0 0) order in
  if bool_decide (chosen c = []) then (chosen c, chosenStatus c)
  else if bool_decide (chosen c = currID) then (chosen c, chosenStatus c)
  else if negb (currScore c =? 0) && (chosenScore c <? float_add (currScore c) hysteresis) then (currID, chosenStatus c)
  else (chosen c, chosenStatus c).

(** ** What the score means *)

(** The rank of a route, in its parts: connected before idle, then the metric, then
    direct before relayed, then the latency. *)
Record Rank := mkRank { connected : bool; metric : Z; direct : bool; latency : Z }.

Definition rank (r : Route) (st : routerPeerStatus) : Rank :=
  mkRank (bool_decide (ps_status st = StatusConnected)) (Z.min (rt_Metric r) MaxMetric) (negb (ps_relayed st))
    (effective_latency (ps_latency st)).

Definition prefer (a b : Rank) : Prop :=
  (connected a = true ∧ connected b = false) ∨
  (connected a = connected b ∧
     (metric a < metric b ∨
      (metric a = metric b ∧
         ((direct a = true ∧ direct b = false) ∨ (direct a = direct b ∧ latency a < latency b))))).

(** The score in billionths. *)
Definition points (k : Rank) : Z :=
  (MaxMetric - metric k) * 10 ^ 10 + (10 ^ 9 - latency k) + Z.b2z (connected k) * 10 ^ 14 + Z.b2z (direct k) * 10 ^ 9.

Definition rank_ok (k : Rank) : Prop := 0 ≤ metric k ≤ MaxMetric ∧ 0 < latency k ≤ second.

Lemma rank_rank_ok r st : 0 ≤ rt_Metric r → 0 ≤ ps_latency st → rank_ok (rank r st).
Proof.
  intros Hm Hl. unfold rank_ok, rank, effective_latency, MaxMetric, second, ms. cbn [metric latency].
  split; [lia|]. destruct (Z.eqb_spec (ps_latency st) 0); [done|]. case_match; bool_facts; lia.
Qed.

(** The doc comment of getBestRouteFromStatuses: the parts decide in this order. *)
Lemma points_prefer a b : rank_ok a → rank_ok b → prefer a b ↔ points b < points a.
Proof.
  unfold rank_ok, prefer, points, MaxMetric, second. intros [Ha1 Ha2] [Hb1 Hb2].
  destruct a as [[] ma [] la], b as [[] mb [] lb]; cbn [connected metric direct latency Z.b2z] in *;
    (split; [intros [[? ?]|[? [?|[? [[? ?]|[? ?]]]]]]|]; try discriminate; try lia); intros;
    destruct (Z.lt_trichotomy ma mb) as [?|[?|?]]; try lia; auto 10 with lia.
Qed.

Lemma points_inj a b : rank_ok a → rank_ok b → points a = points b → a = b.
Proof.
  unfold rank_ok, points, MaxMetric, second. intros [Ha1 Ha2] [Hb1 Hb2].
  destruct a as [[] ma [] la], b as [[] mb [] lb]; cbn [connected metric direct latency Z.b2z] in *; intros E;
    (assert (ma = mb) by lia; subst; assert (la = lb) by lia; by subst) || lia.
Qed.

(** The score of a rank. *)
Definition rank_score (k : Rank) : Z :=
  let s := float_mul (float_of_int (MaxMetric - metric k)) (float_of_int 10) in
  let s := float_add s (float_sub (float_of_int 1) (Duration_Seconds (latency k))) in
  let s := if connected k then float_add s (float_of_int 100000) else s in
  if direct k then float_add s (float_of_int 1) else s.

Lemma score_rank r st : score r st = rank_score (rank r st).
Proof.
  unfold score, rank_score, rank. cbn [connected metric direct latency]. rewrite bool_decide_decide.
  destruct (Z.ltb_spec (rt_Metric r) MaxMetric).
  - rewrite (Z.min_l (rt_Metric r)) by lia. by destruct (decide _).
  - rewrite (Z.min_r (rt_Metric r)), Z.sub_diag by lia.
    replace (float_mul (float_of_int 0) (float_of_int 10)) with 0 by (vm_compute; reflexivity). by destruct (decide _).
Qed.

Definition error : Z := 6 * 10 ^ 14.

Lemma rank_score_close k : rank_ok k → close error (rank_score k) (points k).
Proof.
  unfold rank_ok, MaxMetric, second. intros [Hm Hl]. unfold rank_score, points, error, MaxMetric.
  assert (close 0 (float_mul (float_of_int (9999 - metric k)) (float_of_int 10)) ((9999 - metric k) * 10 ^ 10)) as H0.
  { rewrite float_mul_exact by lia. rewrite <- (float_of_int_exact ((9999 - metric k) * 10)) by lia.
    replace ((9999 - metric k) * 10 ^ 10) with ((9999 - metric k) * 10 * 10 ^ 9) by ring. apply close_exact. lia. }
  pose proof (close_Seconds (latency k) ltac:(lia)) as H1.
  pose proof (close_sub _ _ _ _ _ _ (10 ^ 9) (close_exact 1 ltac:(lia)) H1 ltac:(lia) ltac:(lia)) as H2.
  pose proof (close_add _ _ _ _ _ _ (10 ^ 14) H0 H2 ltac:(lia) ltac:(lia)) as H3.
  clear H0 H1 H2. generalize dependent (float_add (float_mul (float_of_int (9999 - metric k)) (float_of_int 10))
    (float_sub (float_of_int 1) (Duration_Seconds (latency k)))). intros f H3.
  destruct (connected k), (direct k); cbn [Z.b2z].
  - pose proof (close_add _ _ _ _ _ _ (2 * 10 ^ 14) H3 (close_exact 100000 ltac:(lia)) ltac:(lia) ltac:(lia)) as H4.
    pose proof (close_add _ _ _ _ _ _ (2 * 10 ^ 14) H4 (close_exact 1 ltac:(lia)) ltac:(lia) ltac:(lia)) as H5.
    eapply close_weaken; [eapply eq_rect; [exact H5|ring]|lia].
  - pose proof (close_add _ _ _ _ _ _ (2 * 10 ^ 14) H3 (close_exact 100000 ltac:(lia)) ltac:(lia) ltac:(lia)) as H4.
    eapply close_weaken; [eapply eq_rect; [exact H4|ring]|lia].
  - pose proof (close_add _ _ _ _ _ _ (2 * 10 ^ 14) H3 (close_exact 1 ltac:(lia)) ltac:(lia) ltac:(lia)) as H4.
    eapply close_weaken; [eapply eq_rect; [exact H4|ring]|lia].
  - eapply close_weaken; [eapply eq_rect; [exact H3|ring]|lia].
Qed.

(** Scores compare like the ranks, in spite of the rounding. *)
Lemma rank_score_le a b : rank_ok a → rank_ok b → rank_score a ≤ rank_score b ↔ points a ≤ points b.
Proof.
  intros Ha Hb. pose proof (rank_score_close a Ha) as Ca. pose proof (rank_score_close b Hb) as Cb. split; intros Hle.
  - destruct (Z.le_gt_cases (points a) (points b)) as [|Hlt]; [done|].
    pose proof (close_lt _ _ _ _ _ _ Cb Ca eq_refl Hlt). lia.
  - destruct (Z.eq_dec (points a) (points b)) as [E|Hne]; [by rewrite (points_inj a b Ha Hb E)|].
    pose proof (close_lt _ _ _ _ _ _ Ca Cb eq_refl ltac:(lia)). lia.
Qed.

Lemma rank_score_nonneg k : rank_ok k → 0 ≤ rank_score k.
Proof.
  intros Hk. assert (rank_ok (mkRank false MaxMetric false second)) as H0 by done.
  change 0 with (rank_score (mkRank false MaxMetric false second)). apply rank_score_le; [done|done|].
  destruct Hk as [? ?]. unfold points. cbn [connected metric direct latency Z.b2z]. destruct (connected k), (direct k); cbn [Z.b2z]; unfold second in *; lia.
Qed.

Lemma hysteresis_close : close (10 ^ 7) hysteresis (10 ^ 7).
Proof. vm_compute. discriminate. Qed.

(** The current route is kept when the best one leads by up to ten milliseconds. *)
Lemma kept_within a b : rank_ok a → rank_ok b → rank_score b < float_add (rank_score a) hysteresis →
  points b ≤ points a + 10 * ms.
Proof.
  intros Ha Hb Hlt. destruct (Z.le_gt_cases (points b) (points a + 10 * ms)) as [|Hgt]; [done|].
  assert (0 ≤ points a ≤ 3 * 10 ^ 14) as Hp.
  { destruct Ha as [? ?]. unfold points. unfold MaxMetric, second in *. destruct (connected a), (direct a); cbn [Z.b2z]; lia. }
  pose proof (close_add _ _ _ _ _ _ (4 * 10 ^ 14) (rank_score_close a Ha) hysteresis_close ltac:(unfold ms in *; lia) ltac:(unfold error; lia)) as C.
  pose proof (close_lt _ _ _ _ _ _ C (rank_score_close b Hb) eq_refl Hgt). lia.
Qed.

(** ** The choice *)

Definition available (statuses : Statuses) (r : Route) (st : routerPeerStatus) : Prop :=
  statuses !! rt_ID r = Some st ∧ ps_status st ≠ StatusConnecting.

Section Choice.
  Context (statuses : Statuses) (currID : bytes).

(** The variables after the routes of [l]. *)
Record loop_inv (l : list Route) (c : Choice) : Prop := mkLoopInv {
  li_none : chosen c = [] → chosenScore c = 0 ∧ ∀ r st, r ∈ l → ¬ available statuses r st;
  li_best : chosen c ≠ [] → ∃ r, r ∈ l ∧ rt_ID r = chosen c ∧ available statuses r (chosenStatus c) ∧
              chosenScore c = score r (chosenStatus c) ∧
              ∀ r' st', r' ∈ l → available statuses r' st' → score r' st' ≤ chosenScore c;
  li_curr : currScore c = 0 ∨
            ∃ r st, r ∈ l ∧ rt_ID r = currID ∧ available statuses r st ∧ currScore c = score r st
}.

(** A route that is not available changes nothing. *)
Lemma loop_inv_skip l c r : loop_inv l c → (∀ st, ¬ available statuses r st) → loop_inv (l ++ [r]) c.
Proof.
  intros [H1 H2 H3] Hr. assert (∀ r' st', r' ∈ l ++ [r] → available statuses r' st' → r' ∈ l) as Hin.
  { intros r' st' [?|E%list_elem_of_singleton]%elem_of_app Hav; [done|subst r'; by destruct (Hr st')]. }
  split.
  - intros E. destruct (H1 E) as [? Hn]. split; [done|]. intros r' st' Hl Hav. eapply Hn; eauto.
  - intros E. destruct (H2 E) as (x & ? & ? & ? & ? & Hb). exists x. rewrite elem_of_app. split_and!; auto. intros. eapply Hb; eauto.
  - destruct H3 as [?|(x & st & ? & ?)]; [by left|right]. exists x, st. rewrite elem_of_app. auto.
Qed.

(** An available route is chosen or is no better than the chosen one. *)
Lemma loop_inv_take l c r st s : loop_inv l c → available statuses r st → rt_ID r ≠ [] → 0 ≤ score r st →
  (s = 0 ∨ ∃ r' st', r' ∈ l ++ [r] ∧ rt_ID r' = currID ∧ available statuses r' st' ∧ s = score r' st') →
  loop_inv (l ++ [r])
    (if (chosenScore c <? score r st) || ((score r st =? chosenScore c) && bool_decide (chosen c = []))
     then mkChoice (rt_ID r) st (score r st) s else mkChoice (chosen c) (chosenStatus c) (chosenScore c) s).
Proof.
  intros [H1 H2 H3] Hav Hid Hpos Hs. destruct ((chosenScore c <? score r st) || _) eqn:E.
  - split; cbn [chosen chosenStatus chosenScore currScore]; [by intros E0; destruct (Hid E0)| |done]. intros _. exists r.
    split_and!; [apply elem_of_app; right; by apply list_elem_of_singleton|done|done|done|]. intros r' st' [Hl|Er%list_elem_of_singleton]%elem_of_app Hav'; [|subst r'].
    + destruct (decide (chosen c = [])) as [Hc|Hc]; [by destruct (H1 Hc) as [_ Hn]; destruct (Hn r' st')|].
      destruct (H2 Hc) as (x & _ & _ & _ & _ & Hb). specialize (Hb r' st' Hl Hav').
      rewrite (bool_decide_false (chosen c = [])), andb_false_r, orb_false_r in E by done. bool_facts. lia.
    + destruct Hav as [Ha _], Hav' as [Ha' _]. assert (st' = st) as -> by congruence. done.
  - apply orb_false_iff in E as [E1%Z.ltb_ge E2]. split; cbn [chosen chosenStatus chosenScore currScore]; [| |done].
    + intros Hc. destruct (H1 Hc) as [E0 _]. rewrite (bool_decide_true (chosen c = [])), andb_true_r in E2 by done. apply Z.eqb_neq in E2. lia.
    + intros Hc. destruct (H2 Hc) as (x & ? & ? & ? & Es & Hb). exists x. split_and!; [apply elem_of_app; by left|done|done|done|].
      intros r' st' [Hl|Er%list_elem_of_singleton]%elem_of_app Hav'; [by apply Hb|subst r'].
      destruct Hav as [Ha _], Hav' as [Ha' _]. assert (st' = st) as -> by congruence. lia.
Qed.

(** What management and the status recorder promise: routes have ids and metrics that
    are not negative, latencies are not negative. *)
Definition sane (r : Route) : Prop := rt_ID r ≠ [] ∧ 0 ≤ rt_Metric r.

Definition sane_status (st : routerPeerStatus) : Prop := 0 ≤ ps_latency st.

Lemma score_nonneg r st : sane r → sane_status st → 0 ≤ score r st.
Proof. intros [_ Hm] Hl. rewrite score_rank. by apply rank_score_nonneg, rank_rank_ok. Qed.

Lemma choose_inv l c r : loop_inv l c → sane r → (∀ st, statuses !! rt_ID r = Some st → sane_status st) →
  loop_inv (l ++ [r]) (choose currID statuses c r).
Proof.
  intros Hc Hr Hst. unfold choose. destruct (statuses !! rt_ID r) as [st|] eqn:E.
  2: { apply loop_inv_skip; [done|]. intros st [E' _]. congruence. }
  case_bool_decide as Hcon.
  { apply loop_inv_skip; [done|]. intros st' [E' Hn]. congruence. }
  assert (available statuses r st) as Hav by done. destruct Hr as [Hid Hm].
  pose proof (score_nonneg r st (conj Hid Hm) (Hst st eq_refl)) as Hpos.
  set (s := if bool_decide (rt_ID r = currID) then score r st else currScore c).
  assert (s = 0 ∨ ∃ r' st', r' ∈ l ++ [r] ∧ rt_ID r' = currID ∧ available statuses r' st' ∧ s = score r' st') as Hs.
  { unfold s. case_bool_decide as Ec.
    - right. exists r, st. split; [apply elem_of_app; right; by apply list_elem_of_singleton|done].
    - destruct (li_curr _ _ Hc) as [?|(x & st' & ? & ?)]; [by left|right]. exists x, st'. rewrite elem_of_app. auto. }
  pose proof (loop_inv_take l c r st s Hc Hav Hid Hpos Hs) as Ht.
  set (c1 := if _ || _ then _ else c). set (c2 := if _ && _ then _ else c1).
  assert (c2 = c1) as ->.
  { unfold c2. destruct (bool_decide (chosen c1 = [])) eqn:E1; [|done]. apply bool_decide_eq_true in E1.
    exfalso. unfold c1 in E1. destruct ((_ <? _) || _) eqn:Eo; [exact (Hid E1)|]. apply orb_false_iff in Eo as [E2%Z.ltb_ge E3].
    destruct (li_none _ _ Hc E1) as [E0 _]. rewrite (bool_decide_true (chosen c = [])), andb_true_r in E3 by done.
    apply Z.eqb_neq in E3. lia. }
  unfold s in Ht. unfold c1. destruct (_ || _), (bool_decide (rt_ID r = currID)); try exact Ht. by destruct c.
Qed.

End Choice.

Section Best.
  Context (statuses : Statuses) (order : list Route) (cur : option Route).
  Hypothesis Hsane : Forall sane order.
  Hypothesis Hstat : map_Forall (λ _ st, sane_status st) statuses.

Lemma choices_inv currID : loop_inv statuses currID order (foldl (choose currID statuses) (mkChoice [] no_status 0 0) order).
Proof.
  induction order as [|r l IH] using rev_ind.
  - split; cbn; [|done|by left]. intros _. split; [done|]. intros r st Hr. by apply elem_of_nil in Hr.
  - rewrite foldl_snoc. apply Forall_app in Hsane as [Hl [Hr _]%Forall_cons]. apply choose_inv; [by apply IH|done|].
    intros st Hst. exact (Hstat _ st Hst).
Qed.

Lemma available_rank r st : r ∈ order → available statuses r st → rank_ok (rank r st).
Proof.
  intros Hr [Hst _]. rewrite Forall_forall in Hsane. destruct (Hsane r Hr) as [_ Hm]. apply rank_rank_ok; [done|]. exact (Hstat _ st Hst).
Qed.

(** Two available peers that are both connected, or both not, have the same status. *)
Lemma same_status r1 st1 r2 st2 : available statuses r1 st1 → available statuses r2 st2 →
  connected (rank r1 st1) = connected (rank r2 st2) → ps_status st1 = ps_status st2.
Proof.
  intros [_ H1] [_ H2]. unfold rank. cbn [connected]. destruct (ps_status st1), (ps_status st2); done.
Qed.

(** What [r] has to lose for the current route to be kept: it is of the same status and
    metric, and leads by no more than ten milliseconds. *)
Definition within_hysteresis (best kept : Rank) : Prop :=
  connected best = connected kept ∧ metric best = metric kept ∧ points best ≤ points kept + 10 * ms.

Lemma within_hysteresis_of a b : rank_ok a → rank_ok b → points a ≤ points b + 10 * ms → ¬ prefer a b ∨ within_hysteresis a b.
Proof.
  intros Ha Hb Hle. destruct (Z.le_gt_cases (points a) (points b)) as [H|H].
  - left. rewrite points_prefer by done. lia.
  - right. destruct Ha as [? ?], Hb as [? ?]. unfold within_hysteresis. unfold points, MaxMetric, second, ms in *.
    destruct a as [[] ma [] la], b as [[] mb [] lb]; cbn [connected metric direct latency Z.b2z] in *; split_and!; try done; lia.
Qed.
(** The route [id] is available, and no other is preferred to it but for the hysteresis
    in favour of the current one. *)
Definition chosen_well (id : bytes) (st : routerPeerStatus) : Prop :=
  ∃ r st0, r ∈ order ∧ rt_ID r = id ∧ available statuses r st0 ∧ ps_status st = ps_status st0 ∧
    ∀ r' st', r' ∈ order → available statuses r' st' →
      ¬ prefer (rank r' st') (rank r st0) ∨
      (rt_ID <$> cur = Some id ∧ within_hysteresis (rank r' st') (rank r st0)).

Lemma chosen_best c : loop_inv statuses (match cur with Some r => rt_ID r | None => [] end) order c → chosen c ≠ [] →
  chosen_well (chosen c) (chosenStatus c).
Proof.
  intros Hc Hn. destruct (li_best _ _ _ _ Hc Hn) as (r & Hr & Hid & Hav & Hs & Hb). exists r, (chosenStatus c). split_and!; try done.
  intros r' st' Hr' Hav'. left. specialize (Hb r' st' Hr' Hav'). rewrite Hs, !score_rank in Hb.
  rewrite points_prefer by eauto using available_rank. apply rank_score_le in Hb; [lia|eauto using available_rank..].
Qed.

(** The current route is kept in place of the best. *)
Lemma kept_well r0 c : cur = Some r0 → loop_inv statuses (rt_ID r0) order c → chosen c ≠ [] → currScore c ≠ 0 →
  chosenScore c < float_add (currScore c) hysteresis → chosen_well (rt_ID r0) (chosenStatus c).
Proof.
  intros Hcur Hc Hn Hcs Hlt. destruct (li_best _ _ _ _ Hc Hn) as (b & Hb & Hid & Hav & Hs & Hbest).
  destruct (li_curr _ _ _ _ Hc) as [?|(r & st & Hr & Hrid & Hrav & Hrs)]; [done|].
  rewrite Hs, Hrs, !score_rank in Hlt.
  assert (rank_ok (rank r st) ∧ rank_ok (rank b (chosenStatus c))) as [Ok1 Ok2] by eauto using available_rank.
  pose proof (kept_within _ _ Ok1 Ok2 Hlt) as Hk. exists r, st. split_and!; try done.
  - destruct (within_hysteresis_of _ _ Ok2 Ok1 Hk) as [Hp|[E _]]; [|by eapply same_status].
    assert (points (rank r st) ≤ points (rank b (chosenStatus c))) as Hle.
    { apply rank_score_le; [done|done|]. rewrite <- !score_rank, <- Hs. by apply Hbest. }
    rewrite points_prefer in Hp by done.
    assert (points (rank r st) = points (rank b (chosenStatus c))) as E by lia. apply points_inj in E; [|done|done].
    eapply same_status; [done|done|]. by rewrite E.
  - intros r' st' Hr' Hav'. pose proof (available_rank _ _ Hr' Hav') as Ok'. specialize (Hbest r' st' Hr' Hav').
    rewrite Hs, !score_rank in Hbest. apply rank_score_le in Hbest; [|done|done].
    rewrite Hcur. cbn [fmap option_fmap option_map].
    destruct (within_hysteresis_of (rank r' st') (rank r st) Ok' Ok1 ltac:(lia)) as [?|?]; auto.
Qed.

Lemma best_route_spec id st : getBestRouteFromStatuses cur order statuses = (id, st) →
  (id = [] ↔ ∀ r st', r ∈ order → ¬ available statuses r st') ∧ (id ≠ [] → chosen_well id st).
Proof.
  unfold getBestRouteFromStatuses. set (currID := match cur with Some r => rt_ID r | None => [] end).
  pose proof (choices_inv currID) as Hc. set (c := foldl _ _ order) in *.
  assert (∀ id', chosen c ≠ [] → id' ≠ [] → chosen_well id' (chosenStatus c) →
    (id' = [] ↔ ∀ r st', r ∈ order → ¬ available statuses r st') ∧ (id' ≠ [] → chosen_well id' (chosenStatus c))) as Hall.
  { intros id' Hn Hid' Hw. split; [|done]. split; [done|]. intros Hno. destruct Hw as (r & st0 & Hr & _ & Hav & _). by destruct (Hno r st0). }
  case_bool_decide as E1; [|case_bool_decide as E2; [|destruct (negb _ && _) eqn:E3]]; intros [= <- <-].
  - split; [|by intros ?]. split; [|done]. intros _. exact (proj2 (li_none _ _ _ _ Hc E1)).
  - apply Hall; [done|done|]. by apply chosen_best.
  - apply andb_true_iff in E3 as [E3%negb_true_iff%Z.eqb_neq E4%Z.ltb_lt].
    destruct cur as [r0|] eqn:Ecur; cbn in currID.
    + apply Hall; [done| |by eapply kept_well].
      destruct (li_curr _ _ _ _ Hc) as [?|(r & st & Hr & Hrid & _)]; [done|]. subst currID. rewrite <- Hrid.
      rewrite Forall_forall in Hsane. apply (Hsane r Hr).
    + destruct (li_curr _ _ _ _ Hc) as [?|(r & st & Hr & Hrid & _)]; [done|]. rewrite Forall_forall in Hsane.
      destruct (Hsane r Hr) as [Hne _]. by rewrite Hrid in Hne.
  - apply Hall; [done|done|]. by apply chosen_best.
Qed.

End Best.

(** C33: This order of priorities decides, whatever the order in which the routes are
    visited and in spite of the rounding of the scores: a connected peer before an idle
    one, then the lower metric, then a direct connection, then the lower effective
    latency, for which an unknown latency or one above a second counts as 999
    milliseconds; the order of the map decides among equals.  The routes have ids and
    metrics that are not negative, and no latency is negative.  Only the current route is kept against a preferred one, of the same status and
    metric, that leads by no more than ten milliseconds.  No route is chosen exactly
    when no peer is available, and the status returned is the one of the chosen peer. *)
Theorem best_route_chosen cur order statuses id st :
  Forall sane order → map_Forall (λ _ st, sane_status st) statuses → getBestRouteFromStatuses cur order statuses = (id, st) →
  (id = [] ↔ ∀ r st', r ∈ order → ¬ available statuses r st') ∧ (id ≠ [] → chosen_well statuses order cur id st).
Proof. intros Hs Hst. by apply best_route_spec. Qed.

(** ** The watcher *)

(** The handler of a network; an error of a handler is only logged by the watcher. *)
Class RouteHandler (W : Type) := {
  AddAllowedIPs : bytes → W → outcome unit unit * W;
  RemoveAllowedIPs : W → bool * W
}.

(** What a handler promises as long as it is only given allowed IPs that are with
    nobody: [holder] is the peer they are with, [hinv] what the handler keeps true. *)
Class RouteHandlerLaws (W : Type) `{RouteHandler W} (hinv : W → Prop) (holder : W → option bytes) := {
  add_holder p w res w' : hinv w → holder w = None → AddAllowedIPs p w = (res, w') →
    hinv w' ∧ res ≠ Panic ∧ holder w' = (if bool_decide (res = Ok ()) then Some p else None);
  remove_holder w ok w' : hinv w → RemoveAllowedIPs w = (ok, w') →
    hinv w' ∧ holder w' = (if (ok : bool) then None else holder w)
}.

(** The calls of the status recorder, in order. *)
Inductive Event :=
| AddPeerStateRoute (peer : bytes)
| RemovePeerStateRoute (peer : bytes)
| ExitNodeConnected (peer : bytes)
| ExitNodeDisconnected (peer : bytes) (rsn : reason).

Inductive watchErr := removeObsolete | removeOld | addNew.

(** [watchers] are the goroutines that watch the state of a peer, by the channels that
    end them. *)
Record Watcher := mkWatcher {
  routes : Routes_;
  routePeersNotifiers : gmap bytes nat;
  watchers : gmap nat bytes;
  nextChan : nat;
  currentChosen : option Route;
  currentChosenStatus : option routerPeerStatus;
  updateSerial : Z;
  cancelled : bool;
  events : list Event
}.

Definition NewWatcher : Watcher := mkWatcher ∅ ∅ ∅ 0 None None 0 false [].

Definition set_chosen (r : option Route) (st : option routerPeerStatus) (w : Watcher) : Watcher :=
  mkWatcher (routes w) (routePeersNotifiers w) (watchers w) (nextChan w) r st (updateSerial w) (cancelled w) (events w).

Definition publish (es : list Event) (w : Watcher) : Watcher :=
  mkWatcher (routes w) (routePeersNotifiers w) (watchers w) (nextChan w) (currentChosen w) (currentChosenStatus w)
    (updateSerial w) (cancelled w) (events w ++ es).

(** One of the routes is a default route. *)
Definition has_default_route (rs : Routes_) : bool :=
  existsb (λ r, pf_bits (rt_Network r) =? 0) (map_to_list rs).*2.

Definition connectEvent (r : Route) (w : Watcher) : Watcher :=
  if has_default_route (routes w) then publish [ExitNodeConnected (rt_Peer r)] w else w.

Definition disconnectEvent (r : Route) (rsn : reason) (w : Watcher) : Watcher :=
  if has_default_route (routes w) then publish [ExitNodeDisconnected (rt_Peer r) rsn] w else w.

Section Watcher.
  Context {W : Type} `{RouteHandler W}.

Definition addAllowedIPs (r : Route) (w : Watcher) (h : W) : outcome unit unit * Watcher * W :=
  let '(res, h) := AddAllowedIPs (rt_Peer r) h in
  match res with
  | Ok _ => (Ok (), connectEvent r (publish [AddPeerStateRoute (rt_Peer r)] w), h)
  | res => (res, w, h)
  end.

Definition removeAllowedIPs (r : Route) (rsn : reason) (w : Watcher) (h : W) : bool * Watcher * W :=
  let w := publish [RemovePeerStateRoute (rt_Peer r)] w in
  let '(ok, h) := RemoveAllowedIPs h in
  if negb ok then (false, w, h) else (true, disconnectEvent r rsn w, h).

Definition shouldSkipRecalculation (w : Watcher) (newChosenID : bytes) (newStatus : routerPeerStatus) : bool :=
  match currentChosen w with
  | None => false
  | Some cur =>
      if negb (bool_decide (rt_ID cur = newChosenID) && Route_Equal (Some cur) (routes w !! newChosenID)) then false
      else match currentChosenStatus w with
           | Some st => bool_decide (ps_status st = ps_status newStatus)
           | None => true
           end
  end.

(** A chosen id that is not among the routes would be a nil route: a panic. *)
Definition recalculateRoutes (rsn : reason) (order : list Route) (statuses : Statuses) (w : Watcher) (h : W) :
    outcome watchErr unit * Watcher * W :=
  let '(newChosenID, newStatus) := getBestRouteFromStatuses (currentChosen w) order statuses in
  if bool_decide (newChosenID = []) then
    match currentChosen w with
    | None => (Ok (), w, h)
    | Some cur =>
        let '(ok, w, h) := removeAllowedIPs cur rsn w h in
        if negb ok then (Err removeObsolete, w, h) else (Ok (), set_chosen None None w, h)
    end
  else if shouldSkipRecalculation w newChosenID newStatus then (Ok (), w, h)
  else
    let '(ok, w, h) := match currentChosen w with None => (true, w, h) | Some cur => removeAllowedIPs cur reasonHA w h end in
    if negb ok then (Err removeOld, w, h) else
    match routes w !! newChosenID with
    | None => (Panic, w, h)
    | Some r =>
        let '(res, w, h) := addAllowedIPs r w h in
        match res with
        | Panic => (Panic, w, h)
        | Err _ => (Err addNew, w, h)
        | Ok _ =>
            let w := if bool_decide (ps_status newStatus = StatusIdle) then w else connectEvent r w in
            (Ok (), set_chosen (Some r) (Some newStatus) w, h)
        end
    end.

(** *** Updates of the routes *)

(** The routes that are gone end the goroutine of their peer; closing a nil channel
    panics.  The flag tells whether the routes differ. *)
Fixpoint close_removed (updateMap : Routes_) (l : list (bytes * Route)) (w : Watcher) (different : bool) :
    total (bool * Watcher) :=
  match l with
  | [] => Ok (different, w)
  | (id, r) :: l =>
      match updateMap !! id with
      | None =>
          match routePeersNotifiers w !! rt_Peer r with
          | None => Panic
          | Some ch =>
              close_removed updateMap l
                (mkWatcher (routes w) (delete (rt_Peer r) (routePeersNotifiers w)) (delete ch (watchers w)) (nextChan w)
                   (currentChosen w) (currentChosenStatus w) (updateSerial w) (cancelled w) (events w)) true
          end
      | Some r' => close_removed updateMap l w (different || negb (bool_decide (r = r')))
      end
  end.

Definition update_map (l : list Route) : Routes_ := foldl (λ m r, <[rt_ID r := r]> m) ∅ l.

Definition set_routes (rs : Routes_) (w : Watcher) : Watcher :=
  mkWatcher rs (routePeersNotifiers w) (watchers w) (nextChan w) (currentChosen w) (currentChosenStatus w) (updateSerial w)
    (cancelled w) (events w).

Definition classifyUpdate (order : list (bytes * Route)) (update : list Route) (w : Watcher) : total (bool * Watcher) :=
  let updateMap := update_map update in
  let! r := close_removed updateMap order w (negb (bool_decide (size (routes w) = size updateMap))) in
  Ok (r.1, set_routes updateMap r.2).

Fixpoint start_watchers (l : list Route) (w : Watcher) : Watcher :=
  match l with
  | [] => w
  | r :: l =>
      match routePeersNotifiers w !! rt_Peer r with
      | Some _ => start_watchers l w
      | None =>
          start_watchers l
            (mkWatcher (routes w) (<[rt_Peer r := nextChan w]> (routePeersNotifiers w)) (<[nextChan w := rt_Peer r]> (watchers w))
               (S (nextChan w)) (currentChosen w) (currentChosenStatus w) (updateSerial w) (cancelled w) (events w))
      end
  end.

Definition startNewPeerStatusWatchers (w : Watcher) : Watcher := start_watchers (map_to_list (routes w)).*2 w.

Definition set_serial (n : Z) (w : Watcher) : Watcher :=
  mkWatcher (routes w) (routePeersNotifiers w) (watchers w) (nextChan w) (currentChosen w) (currentChosenStatus w) n (cancelled w)
    (events w).

(** [order1] and [order2] are the orders of the two loops over the routes; the error of
    the recalculation is only logged, so it is part of the result. *)
Definition handleRouteUpdate (order1 : list (bytes * Route)) (order2 : list Route) (states : bytes → option routerPeerStatus)
    (serial : Z) (update : list Route) (w : Watcher) (h : W) : outcome watchErr unit * Watcher * W :=
  match classifyUpdate order1 update w with
  | Ok (isTrueRouteUpdate, w) =>
      let w := set_serial serial w in
      let '(r, w, h) := if (isTrueRouteUpdate : bool)
                        then recalculateRoutes reasonRouteUpdate order2 (getRouterPeerStatuses states (routes w)) w h
                        else (Ok (), w, h) in
      (r, startNewPeerStatusWatchers w, h)
  | _ => (Panic, w, h)
  end.

Definition Start_peerState (order : list Route) (states : bytes → option routerPeerStatus) (w : Watcher) (h : W) :
    outcome watchErr unit * Watcher * W :=
  recalculateRoutes reasonPeerUpdate order (getRouterPeerStatuses states (routes w)) w h.

Definition Start_routeUpdate (order1 : list (bytes * Route)) (order2 : list Route) (states : bytes → option routerPeerStatus)
    (serial : Z) (update : list Route) (w : Watcher) (h : W) : outcome watchErr unit * Watcher * W :=
  if serial <? updateSerial w then (Ok (), w, h) else handleRouteUpdate order1 order2 states serial update w h.

Definition Stop (w : Watcher) (h : W) : bool * Watcher * W :=
  let w := mkWatcher (routes w) (routePeersNotifiers w) ∅ (nextChan w) (currentChosen w) (currentChosenStatus w)
             (updateSerial w) true (events w) in
  match currentChosen w with
  | None => (true, w, h)
  | Some cur =>
      let '(ok, w, h) := removeAllowedIPs cur reasonShutdown w h in
      (ok, set_chosen (currentChosen w) None w, h)
  end.

End Watcher.

(** ** The watcher follows the best route *)

Section Follow.
  Context {W : Type} `{RouteHandler W} (hinv : W → Prop) (holder : W → option bytes) `{!RouteHandlerLaws W hinv holder}.

(** Routes of a network are keyed by their ids and sane, and go through different
    peers. *)
Record routes_ok (rs : Routes_) : Prop := mkRoutesOk {
  ro_keyed id r : rs !! id = Some r → rt_ID r = id ∧ sane r;
  ro_peers id id' r r' : rs !! id = Some r → rs !! id' = Some r' → rt_Peer r = rt_Peer r' → id = id'
}.

(** A channel in the map belongs to a running goroutine of its peer. *)
Definition chans_ok (w : Watcher) : Prop :=
  (∀ p ch, routePeersNotifiers w !! p = Some ch → watchers w !! ch = Some p) ∧
  (∀ ch p, watchers w !! ch = Some p → (ch < nextChan w)%nat).

Definition watched (w : Watcher) : Prop :=
  ∀ id r, routes w !! id = Some r → is_Some (routePeersNotifiers w !! rt_Peer r).

Definition in_order (rs : Routes_) (order : list Route) : Prop := order ≡ₚ (map_to_list rs).*2.

Lemma in_order_elem rs order r : in_order rs order → routes_ok rs → r ∈ order ↔ rs !! rt_ID r = Some r.
Proof.
  intros Ho Hr. unfold in_order in Ho. rewrite Ho, list_elem_of_fmap. split.
  - intros ([id r'] & -> & Hin%elem_of_map_to_list). cbn [snd]. by destruct (ro_keyed rs Hr id r' Hin) as [-> _].
  - intros Hl. exists (rt_ID r, r). split; [done|]. by apply elem_of_map_to_list.
Qed.

Lemma in_order_sane rs order : in_order rs order → routes_ok rs → Forall sane order.
Proof.
  intros Ho Hr. apply Forall_forall. intros r Hin. apply (in_order_elem rs order r Ho Hr) in Hin. by destruct (ro_keyed rs Hr _ _ Hin).
Qed.

(** The allowed IPs are with the peer of a well chosen route, or with nobody as no peer
    is available. *)
Definition follows_best (statuses : Statuses) (order : list Route) (cur : option Route) (p : option bytes) : Prop :=
  (p = None ∧ ∀ r st, r ∈ order → ¬ available statuses r st) ∨
  (∃ r st, r ∈ order ∧ p = Some (rt_Peer r) ∧ chosen_well statuses order cur (rt_ID r) st).

Lemma removeAllowedIPs_spec r rsn w h ok w' h' : hinv h → removeAllowedIPs r rsn w h = (ok, w', h') →
  hinv h' ∧ holder h' = (if ok then None else holder h) ∧ routes w' = routes w ∧ routePeersNotifiers w' = routePeersNotifiers w ∧
  watchers w' = watchers w ∧ nextChan w' = nextChan w ∧ currentChosen w' = currentChosen w ∧
  currentChosenStatus w' = currentChosenStatus w.
Proof.
  intros Hi. unfold removeAllowedIPs. destruct (RemoveAllowedIPs h) as [b h1] eqn:E.
  destruct (remove_holder _ _ _ Hi E) as [Hi' Hh]. destruct b; cbn [negb]; intros [= <- <- <-]; (split; [done|split; [done|]]); [|done].
  unfold disconnectEvent. by destruct (has_default_route _).
Qed.

Lemma connectEvent_spec r w : routes (connectEvent r w) = routes w ∧ routePeersNotifiers (connectEvent r w) = routePeersNotifiers w ∧
  watchers (connectEvent r w) = watchers w ∧ nextChan (connectEvent r w) = nextChan w ∧
  currentChosen (connectEvent r w) = currentChosen w ∧ currentChosenStatus (connectEvent r w) = currentChosenStatus w.
Proof. unfold connectEvent. by destruct (has_default_route _). Qed.

Lemma addAllowedIPs_spec r w h res w' h' : hinv h → holder h = None → addAllowedIPs r w h = (res, w', h') →
  hinv h' ∧ res ≠ Panic ∧ holder h' = (if bool_decide (res = Ok ()) then Some (rt_Peer r) else None) ∧
  routes w' = routes w ∧ routePeersNotifiers w' = routePeersNotifiers w ∧ watchers w' = watchers w ∧ nextChan w' = nextChan w.
Proof.
  intros Hi Hh. unfold addAllowedIPs. destruct (AddAllowedIPs (rt_Peer r) h) as [ra h1] eqn:E.
  destruct (add_holder _ _ _ _ Hi Hh E) as (Hi' & Hp & Hh').
  destruct ra as [[]|[]|]; intros [= <- <- <-]; (split; [done|split; [done|split; [done|]]]); [|done..].
  destruct (connectEvent_spec r (publish [AddPeerStateRoute (rt_Peer r)] w)) as (C1 & C2 & C3 & C4 & _). by rewrite C1, C2, C3, C4.
Qed.

Lemma Route_Equal_peer r o : Route_Equal (Some r) (Some o) = true → rt_Peer o = rt_Peer r.
Proof. unfold Route_Equal. rewrite !andb_true_iff, !bool_decide_eq_true. tauto. Qed.

Definition same_shape (w w' : Watcher) : Prop :=
  routes w' = routes w ∧ routePeersNotifiers w' = routePeersNotifiers w ∧ watchers w' = watchers w ∧ nextChan w' = nextChan w.

Definition statuses_sane (statuses : Statuses) : Prop := map_Forall (λ _ st, sane_status st) statuses.

(** When the recalculation is skipped the current route is the chosen one. *)
Lemma skip_same w id st : shouldSkipRecalculation w id st = true → routes_ok (routes w) → is_Some (routes w !! id) →
  ∃ cur r, currentChosen w = Some cur ∧ routes w !! id = Some r ∧ rt_ID r = id ∧ rt_Peer r = rt_Peer cur.
Proof.
  unfold shouldSkipRecalculation. intros Hs Hr [r Hid]. destruct (currentChosen w) as [cur|]; [|done]. rewrite Hid in Hs.
  destruct (negb _) eqn:E; [done|]. apply negb_false_iff, andb_true_iff in E as [_ E%Route_Equal_peer].
  exists cur, r. by destruct (ro_keyed _ Hr id r Hid).
Qed.

Lemma recalculate_spec rsn order statuses w h res w' h' :
  routes_ok (routes w) → in_order (routes w) order → statuses_sane statuses → hinv h → holder h = rt_Peer <$> currentChosen w →
  recalculateRoutes rsn order statuses w h = (res, w', h') →
  same_shape w w' ∧ res ≠ Panic ∧ hinv h' ∧
  (res = Ok () → holder h' = rt_Peer <$> currentChosen w' ∧ follows_best statuses order (currentChosen w) (holder h')).
Proof.
  intros Hr Ho Hst Hi Hh. unfold recalculateRoutes. destruct (getBestRouteFromStatuses _ _ _) as [id st] eqn:Eb.
  pose proof (best_route_spec _ _ _ (in_order_sane _ _ Ho Hr) Hst _ _ Eb) as [Hnone Hsome].
  case_bool_decide as Eid.
  { pose proof (proj1 Hnone Eid) as Hno. destruct (currentChosen w) as [cur|] eqn:Ec.
    - destruct (removeAllowedIPs cur rsn w h) as [[ok w1] h1] eqn:Er.
      apply removeAllowedIPs_spec in Er as (Hi1 & Hh1 & ? & ? & ? & ? & ?); [|done].
      destruct ok; cbn [negb]; intros [= <- <- <-]; (split; [done|split; [done|split; [done|]]]); [|done].
      intros _. split; [done|]. left. done.
    - intros [= <- <- <-]. split; [done|split; [done|split; [done|]]]. intros _. rewrite Ec. split; [done|]. left. done. }
  specialize (Hsome Eid). destruct Hsome as (r & st0 & Hin & Hid & Hsome). pose proof Hin as Hl.
  apply (in_order_elem _ _ _ Ho Hr) in Hl. rewrite Hid in Hl.
  assert (chosen_well statuses order (currentChosen w) (rt_ID r) st) as Hw by (rewrite Hid; by exists r, st0).
  destruct (shouldSkipRecalculation w id st) eqn:Esk.
  { apply skip_same in Esk as (cur & r' & Ec & Hl' & _ & Hp); [|done|eauto]. intros [= <- <- <-]. split; [done|split; [done|split; [done|]]].
    intros _. split; [done|]. right. exists r, st. rewrite Hh, Ec. assert (r' = r) as -> by congruence. cbn. by rewrite Hp, <- Ec. }
  set (m := match currentChosen w with None => _ | Some _ => _ end). destruct m as [[ok w1] h1] eqn:Em.
  assert (same_shape w w1 ∧ hinv h1 ∧ (ok = true → holder h1 = None)) as (Hs1 & Hi1 & Hh1).
  { unfold m in Em. destruct (currentChosen w) as [cur|] eqn:Ec.
    - apply removeAllowedIPs_spec in Em as (Hi1 & Hh1 & ? & ? & ? & ? & _); [|done]. split; [done|split; [done|]]. by intros ->.
    - injection Em as <- <- <-. done. }
  destruct ok; cbn [negb]; [|by intros [= <- <- <-]]. specialize (Hh1 eq_refl).
  destruct Hs1 as (E1 & E2 & E3 & E4). rewrite E1, Hl.
  destruct (addAllowedIPs r w1 h1) as [[ra w2] h2] eqn:Ea.
  apply addAllowedIPs_spec in Ea as (Hi2 & Hnp & Hh2 & A1 & A2 & A3 & A4); [|done|done].
  destruct ra as [[]|[]|]; [|by intros [= <- <- <-]; split; [unfold same_shape; split_and!; congruence|]|done].
  intros [= <- <- <-]. destruct (connectEvent_spec r w2) as (C1 & C2 & C3 & C4 & _).
  split; [|split; [done|split; [done|]]].
  { unfold same_shape, set_chosen. destruct (bool_decide (ps_status st = StatusIdle)); cbn [routes routePeersNotifiers watchers nextChan]; split_and!; congruence. }
  intros _. split; [done|]. right. by exists r, st.
Qed.

(** *** Updates *)

Definition same_choice (w w' : Watcher) : Prop :=
  routes w' = routes w ∧ currentChosen w' = currentChosen w ∧ currentChosenStatus w' = currentChosenStatus w.

Lemma chans_ok_close w p ch : chans_ok w → routePeersNotifiers w !! p = Some ch →
  chans_ok (mkWatcher (routes w) (delete p (routePeersNotifiers w)) (delete ch (watchers w)) (nextChan w)
              (currentChosen w) (currentChosenStatus w) (updateSerial w) (cancelled w) (events w)).
Proof.
  intros [H1 H2] Hp. split; cbn [routePeersNotifiers watchers nextChan].
  - intros q c [Hne Hq]%lookup_delete_Some. rewrite lookup_delete_ne; [by apply H1|]. intros ->. apply H1 in Hq, Hp. congruence.
  - intros c q [_ Hc]%lookup_delete_Some. by eapply H2.
Qed.

Lemma close_removed_spec um l : ∀ w d, chans_ok w → NoDup ((λ e, rt_Peer e.2) <$> l) →
  (∀ e, e ∈ l → is_Some (routePeersNotifiers w !! rt_Peer e.2)) →
  ∃ d' w', close_removed um l w d = Ok (d', w') ∧ chans_ok w' ∧ same_choice w w'.
Proof.
  induction l as [|[id r] l IH]; intros w d Hc Hnd Hn; cbn [close_removed].
  { by exists d, w. }
  apply NoDup_cons in Hnd as [Hni Hnd]. cbn [snd] in Hni. destruct (um !! id) as [r'|].
  - apply IH; [done|done|]. intros e He. apply Hn. by right.
  - destruct (Hn (id, r) (list_elem_of_here _ _)) as [ch Hch]. cbn [snd] in Hch. rewrite Hch.
    destruct (IH _ true (chans_ok_close w _ ch Hc Hch) Hnd) as (d' & w' & E & Hc' & Hs).
    { intros e He. cbn [routePeersNotifiers]. rewrite lookup_delete_ne; [apply Hn; by right|].
      intros E. apply Hni. rewrite E. by apply (list_elem_of_fmap_2 (λ e, rt_Peer e.2)). }
    exists d', w'. done.
Qed.

Lemma start_watchers_spec l : ∀ w, chans_ok w →
  let w' := start_watchers l w in
  chans_ok w' ∧ same_choice w w' ∧ (∀ p, is_Some (routePeersNotifiers w !! p) → is_Some (routePeersNotifiers w' !! p)) ∧
  ∀ r, r ∈ l → is_Some (routePeersNotifiers w' !! rt_Peer r).
Proof.
  induction l as [|r l IH]; intros w Hc; cbn [start_watchers].
  { split_and!; try done. intros r Hr. by apply elem_of_nil in Hr. }
  destruct (routePeersNotifiers w !! rt_Peer r) as [ch|] eqn:Hp.
  - destruct (IH w Hc) as (? & ? & Hg & Hl). split_and!; try done. intros r' [->|?]%elem_of_cons; [apply Hg; eauto|auto].
  - set (w1 := mkWatcher _ _ _ _ _ _ _ _ _). assert (chans_ok w1) as Hc1.
    { destruct Hc as [H1 H2]. split; cbn [w1 routePeersNotifiers watchers nextChan].
      - intros q c [[<- <-]|[Hne Hq]]%lookup_insert_Some; [apply lookup_insert_eq|].
        rewrite lookup_insert_ne; [by apply H1|]. intros <-. apply H1, H2 in Hq. lia.
      - intros c q [[<- _]|[_ Hcq]]%lookup_insert_Some; [lia|]. apply H2 in Hcq. lia. }
    destruct (IH w1 Hc1) as (? & ? & Hg & Hl). split_and!; try done.
    + intros p [c Hpc]. apply Hg. cbn [w1 routePeersNotifiers]. destruct (decide (p = rt_Peer r)) as [->|Hne];
        [rewrite lookup_insert_eq|rewrite lookup_insert_ne by done]; eauto.
    + intros r' [->|?]%elem_of_cons; [apply Hg; cbn [w1 routePeersNotifiers]; rewrite lookup_insert_eq; eauto|auto].
Qed.

Lemma NoDup_peers rs order : routes_ok rs → order ≡ₚ map_to_list rs → NoDup ((λ e : bytes * Route, rt_Peer e.2) <$> order).
Proof.
  intros Hr ->. apply NoDup_fmap_2_strong; [|apply NoDup_map_to_list].
  intros [i r] [j r'] Hi Hj E. apply elem_of_map_to_list in Hi, Hj. cbn [snd] in E.
  pose proof (ro_peers rs Hr i j r r' Hi Hj E) as ->. by assert (r = r') as -> by congruence.
Qed.

(** The invariant of a watcher and its handler. *)
Record watcher_ok (w : Watcher) (h : W) : Prop := mkWatcherOk {
  wo_routes : routes_ok (routes w);
  wo_chans : chans_ok w;
  wo_watched : watched w;
  wo_handler : hinv h;
  wo_holder : holder h = rt_Peer <$> currentChosen w
}.

(** The orders in which the loops visit the routes, and what comes in. *)
Definition update_ok (w : Watcher) (order1 : list (bytes * Route)) (order2 update : list Route) : Prop :=
  order1 ≡ₚ map_to_list (routes w) ∧ in_order (update_map update) order2 ∧ routes_ok (update_map update).

Definition states_sane (states : bytes → option routerPeerStatus) : Prop := ∀ p st, states p = Some st → sane_status st.

Lemma getRouterPeerStatuses_sane states rs : states_sane states → statuses_sane (getRouterPeerStatuses states rs).
Proof.
  intros Hs id st Hl. unfold getRouterPeerStatuses in Hl. apply elem_of_list_to_map_2, list_elem_of_omap in Hl as (r & _ & E).
  apply fmap_Some in E as (st' & E & [= -> ->]). by eapply Hs.
Qed.

Lemma handleRouteUpdate_spec order1 order2 states serial update w h res w' h' :
  watcher_ok w h → update_ok w order1 order2 update → states_sane states →
  handleRouteUpdate order1 order2 states serial update w h = (res, w', h') →
  res ≠ Panic ∧ (res = Ok () → watcher_ok w' h').
Proof.
  intros [Hr Hc Hwt Hi Hh] (Ho1 & Ho2 & Hu) Hst. unfold handleRouteUpdate, classifyUpdate, startNewPeerStatusWatchers.
  destruct (close_removed_spec (update_map update) order1 w (negb (bool_decide (size (routes w) = size (update_map update)))) Hc)
    as (d & w1 & -> & Hc1 & E1 & E2 & _); [exact (NoDup_peers _ _ Hr Ho1)| |].
  { intros [id r] He. rewrite Ho1 in He. apply elem_of_map_to_list in He. exact (Hwt id r He). }
  cbn [obind fst snd]. set (w2 := set_serial serial (set_routes (update_map update) w1)).
  assert (holder h = rt_Peer <$> currentChosen w2) as Hh2 by (cbn; by rewrite E2).
  assert (∃ r3 w3 h3, (if d then recalculateRoutes reasonRouteUpdate order2 (getRouterPeerStatuses states (routes w2)) w2 h
                       else (Ok (), w2, h)) = (r3, w3, h3) ∧ same_shape w2 w3 ∧ r3 ≠ Panic ∧ hinv h3 ∧
                       (r3 = Ok () → holder h3 = rt_Peer <$> currentChosen w3)) as (r3 & w3 & h3 & -> & Hs & Hp & Hi3 & Hok).
  { destruct d; [|by exists (Ok ()), w2, h]. destruct (recalculateRoutes _ _ _ w2 h) as [[r3 w3] h3] eqn:E.
    apply recalculate_spec in E as (? & ? & ? & Hk); [|done|done|by apply getRouterPeerStatuses_sane|done|done].
    exists r3, w3, h3. split_and!; try done. intros Er. by destruct (Hk Er). }
  intros [= <- <- <-]. split; [done|]. intros ->. destruct Hs as (S1 & S2 & S3 & S4). cbn in S1, S2, S3, S4.
  assert (chans_ok w3) as Hc3. { destruct Hc1 as [? ?]. split; rewrite ?S2, ?S3, ?S4; done. }
  destruct (start_watchers_spec (map_to_list (routes w3)).*2 w3 Hc3) as (Hc4 & (R1 & R2 & R3) & _ & Hw4).
  split; [by rewrite R1, S1|done| |done|by rewrite R2; apply Hok].
  intros id r Hl. apply Hw4. rewrite R1 in Hl. apply list_elem_of_fmap. exists (id, r). split; [done|]. by apply elem_of_map_to_list.
Qed.

(** *** Reachable states *)

(** The rounds of Start that end without an error. *)
Inductive reachable : Watcher → W → Prop :=
| reach_new h : hinv h → holder h = None → reachable NewWatcher h
| reach_peer w h order states w' h' : reachable w h → in_order (routes w) order → states_sane states →
    Start_peerState order states w h = (Ok (), w', h') → reachable w' h'
| reach_update w h order1 order2 states serial update w' h' : reachable w h → update_ok w order1 order2 update →
    states_sane states → Start_routeUpdate order1 order2 states serial update w h = (Ok (), w', h') → reachable w' h'.

Lemma new_watcher_ok h : hinv h → holder h = None → watcher_ok NewWatcher h.
Proof. intros Hi Hh. split; [split| |intros id r Hl|done|done]; done. Qed.

Lemma Start_peerState_spec order states w h res w' h' : watcher_ok w h → in_order (routes w) order → states_sane states →
  Start_peerState order states w h = (res, w', h') →
  res ≠ Panic ∧ (res = Ok () → watcher_ok w' h' ∧
    follows_best (getRouterPeerStatuses states (routes w)) order (currentChosen w) (holder h')).
Proof.
  intros [Hr Hc Hw Hi Hh] Ho Hst E. apply recalculate_spec in E as ((E1 & E2 & E3 & E4) & Hp & Hi' & Hok);
    [|done|done|by apply getRouterPeerStatuses_sane|done|done].
  split; [done|]. intros Er. destruct (Hok Er) as [Hh' Hf]. split; [|done]. split; [by rewrite E1| | |done|done].
  - destruct Hc as [? ?]. split; rewrite ?E2, ?E3, ?E4; done.
  - intros id r. rewrite E1, E2. apply Hw.
Qed.

Lemma Start_routeUpdate_spec order1 order2 states serial update w h res w' h' :
  watcher_ok w h → update_ok w order1 order2 update → states_sane states →
  Start_routeUpdate order1 order2 states serial update w h = (res, w', h') →
  res ≠ Panic ∧ (res = Ok () → watcher_ok w' h').
Proof.
  intros Hw Hu Hst. unfold Start_routeUpdate. destruct (serial <? updateSerial w); [by intros [= <- <- <-]|].
  by apply handleRouteUpdate_spec.
Qed.

Lemma reachable_watcher_ok w h : reachable w h → watcher_ok w h.
Proof.
  induction 1 as [h Hi Hh|w h order states w' h' _ IH Ho Hst E|w h order1 order2 states serial update w' h' _ IH Hu Hst E].
  - by apply new_watcher_ok.
  - apply Start_peerState_spec in E as [_ Hok]; [|done..]. by destruct (Hok eq_refl).
  - apply Start_routeUpdate_spec in E as [_ Hok]; [|done..]. by apply Hok.
Qed.

(** C19: As long as the handler does what it is asked, the allowed IPs of a network are with
    the peer of the watcher's chosen route, and every peer of a route is watched; after a
    change of the states they are with the peer of a well chosen route, or with nobody
    when no peer is available; a change of the states makes the watcher not panic, nor does
    an update whose routes go through pairwise different peers; and when it is stopped
    nobody has them.  All updates so far went through different peers for each route,
    and no latency is negative. *)
Theorem allowed_ips_follow_best_route w h : reachable w h →
  holder h = rt_Peer <$> currentChosen w ∧ watched w ∧
  (∀ order states res w' h', in_order (routes w) order → states_sane states →
     Start_peerState order states w h = (res, w', h') →
     res ≠ Panic ∧ (res = Ok () →
       follows_best (getRouterPeerStatuses states (routes w)) order (currentChosen w) (holder h'))) ∧
  (∀ order1 order2 states serial update res w' h', update_ok w order1 order2 update → states_sane states →
     Start_routeUpdate order1 order2 states serial update w h = (res, w', h') → res ≠ Panic) ∧
  (∀ w' h', Stop w h = (true, w', h') → holder h' = None).
Proof.
  intros Hw%reachable_watcher_ok. split_and!.
  - apply Hw.
  - apply Hw.
  - intros order states res w' h' Ho Hst E. destruct (Start_peerState_spec _ _ _ _ _ _ _ Hw Ho Hst E) as [? Hok]. split; [done|].
    intros Er. by destruct (Hok Er).
  - intros order1 order2 states serial update res w' h' Hu Hst E. by destruct (Start_routeUpdate_spec _ _ _ _ _ _ _ _ _ _ Hw Hu Hst E).
  - intros w' h'. unfold Stop. cbn [currentChosen]. destruct (currentChosen w) as [cur|] eqn:Ec.
    + destruct (removeAllowedIPs cur _ _ h) as [[ok w1] h1] eqn:E. apply removeAllowedIPs_spec in E as (_ & Hh & _); [|apply Hw].
      by intros [= -> <- <-].
    + intros [= <- <-]. by rewrite (wo_holder _ _ Hw), Ec.
Qed.

(** ** What goes wrong *)

(** When the allowed IPs cannot be given to the new peer they are with nobody, but the
    watcher still takes the old route for the current one: as soon as that is the best
    again, with the same status, the recalculation is skipped and the network stays
    without a routing peer. *)
Theorem failed_add_strands_network rsn order statuses w h w' h' cur :
  hinv h → currentChosen w = Some cur → Route_Equal (Some cur) (routes w !! rt_ID cur) = true → rt_ID cur ≠ [] →
  recalculateRoutes rsn order statuses w h = (Err addNew, w', h') →
  holder h' = None ∧ currentChosen w' = Some cur ∧
  ∀ rsn2 order2 statuses2 st2 st, currentChosenStatus w = Some st → ps_status st2 = ps_status st →
    getBestRouteFromStatuses (Some cur) order2 statuses2 = (rt_ID cur, st2) →
    recalculateRoutes rsn2 order2 statuses2 w' h' = (Ok (), w', h').
Proof.
  intros Hi Hcur Heq Hid. unfold recalculateRoutes at 1. destruct (getBestRouteFromStatuses _ order statuses) as [id st] eqn:Eb.
  case_bool_decide; rewrite Hcur.
  { destruct (removeAllowedIPs cur rsn w h) as [[[] ?] ?]; discriminate. }
  destruct (shouldSkipRecalculation w id st); [discriminate|].
  destruct (removeAllowedIPs cur reasonHA w h) as [[ok w1] h1] eqn:Er.
  apply removeAllowedIPs_spec in Er as (Hi1 & Hh & E1 & _ & _ & _ & E5 & E6); [|done].
  destruct ok; cbn [negb]; [|discriminate]. destruct (routes w1 !! id) as [r|]; [|discriminate]. unfold addAllowedIPs.
  destruct (AddAllowedIPs (rt_Peer r) h1) as [ra h2] eqn:Ea. destruct (add_holder _ _ _ _ Hi1 Hh Ea) as (_ & _ & Hh2).
  destruct ra as [[]|[]|]; [discriminate| |discriminate]. intros [= <- <-].
  split; [done|]. split; [by rewrite E5|].
  intros rsn2 order2 statuses2 st2 st0 Hs0 Hst2 Hb. unfold recalculateRoutes. rewrite E5, Hcur, Hb, bool_decide_false by done.
  unfold shouldSkipRecalculation. by rewrite E5, Hcur, E1, Heq, bool_decide_true, E6, Hs0, bool_decide_true.
Qed.

(** Two routes of a network through the same peer that disappear in one update: the
    channel of the peer is closed with the first, and closing the nil channel for the
    second panics. *)
Lemma close_removed_no_notifier um l : ∀ w d id r, (id, r) ∈ l → um !! id = None → routePeersNotifiers w !! rt_Peer r = None →
  close_removed um l w d = Panic.
Proof.
  induction l as [|[j x] l IH]; intros w d id r Hin Hum Hn; [by apply elem_of_nil in Hin|]. cbn [close_removed].
  apply elem_of_cons in Hin as [[= <- <-]|Hin]; [by rewrite Hum, Hn|].
  destruct (um !! j); [by eapply IH|]. destruct (routePeersNotifiers w !! rt_Peer x); [|done]. eapply IH; [done|done|].
  cbn [routePeersNotifiers]. by apply lookup_delete_None; right.
Qed.

Lemma close_removed_shared um l : ∀ w d id r id' r', NoDup l → (id, r) ∈ l → (id', r') ∈ l → (id, r) ≠ (id', r') →
  um !! id = None → um !! id' = None → rt_Peer r = rt_Peer r' → close_removed um l w d = Panic.
Proof.
  induction l as [|[j x] l IH]; intros w d id r id' r' Hnd Hin Hin' Hne Hum Hum' Hp; [by apply elem_of_nil in Hin|].
  apply NoDup_cons in Hnd as [_ Hnd]. cbn [close_removed].
  assert (∀ i y i' y', (i, y) = (j, x) → (i', y') ∈ l → um !! i = None → um !! i' = None → rt_Peer y = rt_Peer y' →
    match um !! j with Some r'0 => close_removed um l w (d || negb (bool_decide (x = r'0))) | None =>
      match routePeersNotifiers w !! rt_Peer x with None => Panic | Some ch => close_removed um l
        (mkWatcher (routes w) (delete (rt_Peer x) (routePeersNotifiers w)) (delete ch (watchers w)) (nextChan w)
           (currentChosen w) (currentChosenStatus w) (updateSerial w) (cancelled w) (events w)) true end end = Panic) as Hfst.
  { intros i y i' y' [= -> ->] Hl Hu Hu' Hpy. rewrite Hu. destruct (routePeersNotifiers w !! rt_Peer x); [|done].
    eapply close_removed_no_notifier; [exact Hl|done|]. cbn [routePeersNotifiers]. rewrite <- Hpy. apply lookup_delete_eq. }
  apply elem_of_cons in Hin as [E|Hin], Hin' as [E'|Hin'].
  - congruence.
  - exact (Hfst _ _ _ _ E Hin' Hum Hum' Hp).
  - exact (Hfst _ _ _ _ E' Hin Hum' Hum (eq_sym Hp)).
  - destruct (um !! j); [exact (IH _ _ _ _ _ _ Hnd Hin Hin' Hne Hum Hum' Hp)|].
    destruct (routePeersNotifiers w !! rt_Peer x); [|done]. exact (IH _ _ _ _ _ _ Hnd Hin Hin' Hne Hum Hum' Hp).
Qed.

Theorem shared_peer_update_panics w h order1 order2 states serial update id id' r r' :
  order1 ≡ₚ map_to_list (routes w) → routes w !! id = Some r → routes w !! id' = Some r' → id ≠ id' → rt_Peer r = rt_Peer r' →
  update_map update !! id = None → update_map update !! id' = None →
  handleRouteUpdate order1 order2 states serial update w h = (Panic, w, h).
Proof.
  intros Ho Hr Hr' Hne Hp Hu Hu'. unfold handleRouteUpdate, classifyUpdate.
  rewrite (close_removed_shared _ order1 _ _ id r id' r'); try done.
  - rewrite Ho. apply NoDup_map_to_list.
  - rewrite Ho. by apply elem_of_map_to_list.
  - rewrite Ho. by apply elem_of_map_to_list.
  - congruence.
Qed.

End Follow.

(** ** The handler of a static network

    client/internal/routemanager/static/route.go: the allowed IPs are the network itself,
    counted in the counter of allowed IPs ([RefCounter]) that manager.go creates over the
    WireGuard interface. *)

Inductive removeErr := ErrPeerNotFound | ErrAllowedIPNotFound | ErrRemove (e : string).

(** What of the WireGuard interface the manager uses: [assigned] are the networks of
    routes that some peer has; an allowed IP that is not found is nobody's. *)
Class WGIface (G : Type) := {
  AddAllowedIP : bytes → Prefix → G → option string * G;
  RemoveAllowedIP : bytes → Prefix → G → option removeErr * G;
  assigned : G → gset Prefix;
  AddAllowedIP_law p k g res g' : AddAllowedIP p k g = (res, g') →
    assigned g' = match res with None => {[k]} ∪ assigned g | Some _ => assigned g end;
  RemoveAllowedIP_law p k g res g' : RemoveAllowedIP p k g = (res, g') →
    assigned g' = match res with Some (ErrRemove _) => assigned g | _ => assigned g ∖ {[k]} end
}.

Section Static.
  Context {G : Type} `{WGIface G} (net : Prefix).

(** setupRefCounters: the key of the peer is kept for the removal, and a peer or an
    allowed IP that is gone counts as removed. *)
Definition allowed_add (g : G) (prefix : Prefix) (peerKey : bytes) : G * (bytes + addErr) :=
  let '(err, g) := AddAllowedIP peerKey prefix g in
  (g, match err with None => inl peerKey | Some e => inr (ErrAdd e) end).

Definition allowed_remove (g : G) (prefix : Prefix) (peerKey : bytes) : G * option string :=
  let '(err, g) := RemoveAllowedIP peerKey prefix g in
  (g, match err with Some (ErrRemove e) => Some e | _ => None end).

#[global] Program Instance allowed_ips : Resource Prefix bytes bytes G :=
  {| add := allowed_add; remove := allowed_remove; present := assigned |}.
Next Obligation.
  intros w k i w' o. unfold allowed_add. destruct (AddAllowedIP i k w) as [[e|] g] eqn:E; intros Eq; [discriminate|].
  injection Eq as <- _. exact (AddAllowedIP_law _ _ _ _ _ E).
Qed.
Next Obligation.
  intros w k i w' e. unfold allowed_add. destruct (AddAllowedIP i k w) as [[e'|] g] eqn:E; intros Eq; [|discriminate].
  injection Eq as <- _. exact (AddAllowedIP_law _ _ _ _ _ E).
Qed.
Next Obligation.
  intros w k o w'. unfold allowed_remove. destruct (RemoveAllowedIP o k w) as [e g] eqn:E; intros [= <- He].
  pose proof (RemoveAllowedIP_law _ _ _ _ _ E) as L. by destruct e as [[]|].
Qed.
Next Obligation.
  intros w k o w' e. unfold allowed_remove. destruct (RemoveAllowedIP o k w) as [e' g] eqn:E; intros [= <- He].
  pose proof (RemoveAllowedIP_law _ _ _ _ _ E) as L. by destruct e' as [[]|].
Qed.

Abbreviation World := (G * Counter (Key:=Prefix) (Out:=bytes))%type.

(** Two peers for one network: the second is only warned about. *)
Definition static_AddAllowedIPs (peerKey : bytes) (w : World) : outcome unit unit * World :=
  match Increment [] w.1 w.2 net peerKey with
  | Ok (g, rm, _, None) => (Ok (), (g, rm))
  | Ok (g, rm, _, Some _) => (Err (), (g, rm))
  | _ => (Panic, w)
  end.

Definition static_RemoveAllowedIPs (w : World) : bool * World :=
  let '(g, rm, _, err) := Decrement [] w.1 w.2 net in
  (match err with None => true | Some _ => false end, (g, rm)).

#[global] Instance static_route : RouteHandler World :=
  {| AddAllowedIPs := static_AddAllowedIPs; RemoveAllowedIPs := static_RemoveAllowedIPs |}.

Definition static_holder (w : World) : option bytes := r_Out <$> lookup_ref w.2 net.

(** The network has at most the one reference of its watcher, and is assigned exactly
    when it has it. *)
Definition static_inv (w : World) : Prop :=
  ∃ m, refCountMap w.2 = Some m ∧ (∀ r, m !! net = Some r → Count r = 1) ∧ (net ∈ assigned w.1 ↔ is_Some (m !! net)).

#[global] Instance static_laws : RouteHandlerLaws World static_inv static_holder.
Proof.
  split.
  - intros p [g [rm ids]] res w' (m & Hm & Hc & Ha) Hh. cbn in Hm, Ha, Hh. subst rm. cbn in Hh.
    destruct (m !! net) as [r|] eqn:En; [discriminate|].
    cbn. unfold static_AddAllowedIPs, Increment, increment, Get, lookup_ref. cbn. rewrite En. cbn. unfold allowed_add.
    destruct (AddAllowedIP p net g) as [[e|] g'] eqn:E; pose proof (AddAllowedIP_law _ _ _ _ _ E) as L; intros [= <- <-];
      (split; [|split; [done|]]).
    + exists m. cbn. rewrite L, En. by split_and!.
    + unfold static_holder. cbn. by rewrite En.
    + exists (<[net := mkRef 1 p]> m). cbn. rewrite lookup_insert_eq. split_and!; [done|by intros r [= <-]|].
      rewrite L. split; [eauto|]. intros _. apply elem_of_union_l. by apply elem_of_singleton.
    + unfold static_holder. cbn. by rewrite lookup_insert_eq.
  - intros [g [rm ids]] ok w' (m & Hm & Hc & Ha). cbn in Hm, Ha. subst rm.
    cbn. unfold static_RemoveAllowedIPs, Decrement, decrement, allowed_remove, static_holder, static_inv. cbn.
    destruct (m !! net) as [r|] eqn:En.
    + rewrite (Hc r eq_refl). cbn. unfold allowed_remove. destruct (RemoveAllowedIP (r_Out r) net g) as [e g'] eqn:E.
      pose proof (RemoveAllowedIP_law _ _ _ _ _ E) as L.
      destruct e as [[| |e]|]; intros [= <- <-]; cbn in *; rewrite ?lookup_delete_eq, ?En; (split; [|done]);
        eexists; (split; [reflexivity|]); rewrite ?lookup_delete_eq, ?En, L;
        (split; [intros r'; try discriminate; intros [= <-]; by apply Hc|]); rewrite ?elem_of_difference, ?elem_of_singleton; split;
        try (intros [? ?]; done); try (intros [? ?]; discriminate); done || (intros _; apply Ha; eauto) || eauto.
    + intros [= <- <-]. cbn. rewrite En. split; [|done]. exists m. rewrite En. done.
Qed.

End Static.

(** HandlerFromRoute: which handler a network has. *)
Inductive handlerKind := handlerTypeDynamic | handlerTypeDnsInterceptor | handlerTypeStatic.

Definition handlerType (rt : Route) (useNewDNSRoute : bool) : handlerKind :=
  if negb (IsDynamic rt) then handlerTypeStatic
  else if useNewDNSRoute then handlerTypeDnsInterceptor else handlerTypeDynamic.

(** ** An example *)

(** An interface that refuses some peers. *)
Record wg := mkWg { wg_ips : gset Prefix; wg_refused : gset bytes }.

Definition wg_add (p : bytes) (k : Prefix) (g : wg) : option string * wg :=
  if bool_decide (p ∈ wg_refused g) then (Some "peer not found"%string, g) else (None, mkWg ({[k]} ∪ wg_ips g) (wg_refused g)).

Definition wg_remove (p : bytes) (k : Prefix) (g : wg) : option removeErr * wg :=
  if bool_decide (k ∈ wg_ips g) then (None, mkWg (wg_ips g ∖ {[k]}) (wg_refused g)) else (Some ErrAllowedIPNotFound, g).

#[global] Program Instance wg_iface : WGIface wg :=
  {| AddAllowedIP := wg_add; RemoveAllowedIP := wg_remove; assigned := wg_ips |}.
Next Obligation. intros p k g res g'. unfold wg_add. case_bool_decide; by intros [= <- <-]. Qed.
Next Obligation.
  intros p k g res g'. unfold wg_remove. case_bool_decide as E; intros [= <- <-]; [done|].
  apply set_eq. intros x. rewrite elem_of_difference, elem_of_singleton. split; [|by intros [? _]]. intros Hx. split; [done|]. by intros ->.
Qed.

(** An exit node behind two routers. *)
Definition default_net : Prefix := mkPrefix (Addr4 0) 0.

Definition exit_route (id peer : bytes) : Route :=
  mkRoute id [] default_net None false [x6e] [] peer peer [] IPv4Network true 9999 true [] [] false.

Definition r1 : Route := exit_route [x31] [x61].

Definition r2 : Route := exit_route [x32] [x62].

(** The first is relayed, the second direct. *)
Definition both_connected (p : bytes) : option routerPeerStatus :=
  if bool_decide (p = [x61]) then Some (mkStatus StatusConnected true (20 * ms))
  else if bool_decide (p = [x62]) then Some (mkStatus StatusConnected false (30 * ms)) else None.

Definition first_only (p : bytes) : option routerPeerStatus :=
  if bool_decide (p = [x61]) then Some (mkStatus StatusConnected true (20 * ms)) else None.

Definition world0 (refused : gset bytes) : wg * Counter (Key:=Prefix) (Out:=bytes) := (mkWg ∅ refused, New).

Abbreviation wg_world := (wg * Counter (Key:=Prefix) (Out:=bytes))%type.

Definition static_default : RouteHandler wg_world := static_route default_net.

Definition order12 : list Route := (map_to_list (update_map [r1; r2])).*2.

Definition after_update (refused : gset bytes) : outcome watchErr unit * Watcher * wg_world :=
  @Start_routeUpdate wg_world static_default [] order12 first_only 1 [r1; r2] NewWatcher (world0 refused).

Definition after_states (refused : gset bytes) : outcome watchErr unit * Watcher * wg_world :=
  @Start_peerState wg_world static_default order12 both_connected (after_update refused).1.2 (after_update refused).2.

Example example_run :
  static_holder default_net (after_update ∅).2 = Some [x61] ∧ static_holder default_net (after_states ∅).2 = Some [x62].
Proof. vm_compute. split; reflexivity. Qed.

Definition statuses12 : Statuses := getRouterPeerStatuses both_connected (update_map [r1; r2]).

Lemma best_route_chosen_witness :
  chosen_well statuses12 [r1; r2] (Some r1) [x32] (mkStatus StatusConnected false (30 * ms)).
Proof.
  assert (getBestRouteFromStatuses (Some r1) [r1; r2] statuses12 = ([x32], mkStatus StatusConnected false (30 * ms))) as E
    by (vm_compute; reflexivity).
  apply (best_route_chosen (Some r1) [r1; r2] statuses12 _ _); [| |exact E|discriminate].
  - repeat constructor; discriminate.
  - apply getRouterPeerStatuses_sane. intros p st. unfold both_connected, sane_status.
    case_bool_decide; [by intros [= <-]|]. case_bool_decide; [by intros [= <-]|done].
Defined.

Lemma routes12_ok : routes_ok (update_map [r1; r2]).
Proof.
  unfold update_map. cbn [foldl]. split.
  - intros id r [[<- <-]|[_ [[<- <-]|[_ Hl]]%lookup_insert_Some]]%lookup_insert_Some; [..|by rewrite lookup_empty in Hl];
      (split; [done|split; [discriminate|done]]).
  - intros id id' r r' [[<- <-]|[_ [[<- <-]|[_ Hl]]%lookup_insert_Some]]%lookup_insert_Some
      [[<- <-]|[_ [[<- <-]|[_ Hl']]%lookup_insert_Some]]%lookup_insert_Some;
      try (by rewrite lookup_empty in Hl); try (by rewrite lookup_empty in Hl'); done.
Qed.

Lemma first_only_sane : states_sane first_only.
Proof. intros p st. unfold first_only. case_bool_decide; [by intros [= <-]|done]. Qed.

Lemma after_update_eq : after_update ∅ = (Ok (), (after_update ∅).1.2, (after_update ∅).2).
Proof. vm_compute. reflexivity. Qed.

Lemma allowed_ips_follow_best_route_witness :
  let w := (after_update ∅).1.2 in let h := (after_update ∅).2 in
  static_holder default_net h = rt_Peer <$> currentChosen w ∧ static_holder default_net h = Some [x61] ∧ watched w.
Proof.
  intros w h.
  destruct (@allowed_ips_follow_best_route wg_world static_default (static_inv default_net) (static_holder default_net)
              (static_laws default_net) w h) as (H1 & H2 & _).
  - apply (reach_update _ _ NewWatcher (world0 ∅) [] order12 first_only 1 [r1; r2]).
    + apply reach_new; [|vm_compute; reflexivity]. exists ∅. split; [done|]. split; [by intros r Hr; rewrite lookup_empty in Hr|].
      cbn. rewrite lookup_empty. split; [by intros ?%elem_of_empty|by intros [? ?]].
    + split; [done|]. split; [unfold in_order, order12; reflexivity|exact routes12_ok].
    + exact first_only_sane.
    + exact after_update_eq.
  - split; [exact H1|]. split; [vm_compute; reflexivity|exact H2].
Defined.

(** *** The two defects at work *)

(** The second router refuses the allowed IPs: they are with nobody, and when the first
    is best again nothing happens. *)
Lemma stranded_example :
  let s := after_states {[ [x62] ]} in
  s.1.1 = Err addNew ∧
  let s := @Start_peerState wg_world static_default order12 first_only s.1.2 s.2 in
  s.1.1 = Ok () ∧ static_holder default_net s.2 = None.
Proof. vm_compute. repeat split. Qed.

(** Two routes through one router that disappear together. *)
Definition shared_update : outcome watchErr unit * Watcher * wg_world :=
  @Start_routeUpdate wg_world static_default [] [] first_only 1 [r1; exit_route [x33] [x61]] NewWatcher (world0 ∅).

Lemma shared_example :
  (@Start_routeUpdate wg_world static_default (map_to_list (routes shared_update.1.2)) [] first_only 2 []
     shared_update.1.2 shared_update.2).1.1 = Panic.
Proof. vm_compute. reflexivity. Qed.
